(* ===== verification/_CoqProject ===== *)
-Q . S2P
Prelude.v
Bytes.v
Vectors.v
FlashRanges.v
Tlm.v
Memory.v
Access.v
ZenaFmu.v
RegBlock.v
RseSam.v
RseSysctrl.v
RseIntegrityChecker.v
RseProtectionCtrl.v
HostPpu.v
HostScr.v
HostSystemPll.v
HostSmcfMgi.v
HostGtimer.v
HostNi710.v
HostCmn.v
GicViews.v
GicMessreg.v
ResetFanout.v
RseAtu.v
ZenaSsu.v
RseKmu.v
RseLcm.v
Dma350.v
StrataFlash.v
FlashCorrect.v
FlashBacking.v
MhuFrame.v
MhuDevice.v
MhuScmi.v
MhuPsa.v
MhuInv.v
MhuServices.v
Mhu.v
MhuSeed.v
MhuWorld.v
MhuTransport.v
MhuAnnounce.v
Mmu720ae.v
MmuQueue.v
Sha256.v
ModArith.v
Cc3xxState.v
Cc3xxPka.v
PkaArith.v
PkaOps.v
Cc3xxAes.v
AesCorrect.v
AesCtr.v
AesCmac.v
Cc3xxCore.v
Cc3xxDriver.v
HashDma.v
AesDma.v
CmacDma.v
Cc3xx.v
PkaRun.v
Provisioning.v
Cc3xxNative.v
RseLms.v
Primality.v
RseP256.v
P256Curve.v
P256Der.v
RseMcuboot.v
RseAccelState.v
RseCpuAccel.v
RseAccelCorrect.v
RseAccelVerify.v
RseAccelImage.v
ArmCpu.v
Json.v
FlashReport.v
Cc3xxReport.v
Cc3xxFiles.v
RseAccelReport.v
