(* ===== verification/Prelude.v ===== *)
(** * The hardware models of the QBox platform overlay

    The repository builds a virtual platform: SystemC models of the hardware
    blocks of an SoC, each a C++ class with sockets, registers and signals,
    instantiated by configuration scripts and run next to an emulated CPU.  This
    library models the blocks as functions on their state and proves that they do
    what their register interfaces promise.  Sources are named by their path
    under src/; [X.h] stands for systemc-components/X/include/X.h, and for
    qemu-components/*/include/X.h where a file says so.

    ** How the parts fit together

    A block is a record of state and one function per method.  Blocks meet at
    TLM sockets, and the library has one interface for that: a [TlmTarget]
    (Tlm.v) is a state type with [b_transport] and [transport_dbg], a
    [MemoryBus] (Memory.v) adds the laws of the memory behind an initiator
    socket, and [ByteBus] (MhuInv.v) says that what is read are bytes.
    Initiators (rse_kmu, dma350, rse_atu, mhu320ae, mmu720ae, cc3xx) are stated
    over any such target; the memory of Memory.v implements the interface and
    instantiates the witnesses, and zena_fmu is itself a target.  Signals driven
    by a block are the list of values written to the line, in order.  The core of
    the accelerator cc3xx reads and writes through a [memory_if]: [memory_law]
    (Cc3xxDriver.v) is what its engines ask of it, and [host_writer] what they ask of
    the way registers are written; the bus module (Cc3xx.v) discharges both from
    [MemoryBus], and the emulator's device (Cc3xxNative.v), which adds a cache of
    direct-memory grants, from the interface [NativeBus], which says where a grant
    in force points and that the platform revokes a grant before it moves; grants may
    overlap.  The accelerator of
    the boot CPU (RseCpuAccel.v) works on a [SemanticContext], the emulated CPU as
    it sees it, in a state monad.  What a declined entry leaves is proved for any
    such CPU; that a call is carried out, for one whose registers can be set
    ([StableGuest]) and whose reads are what the handlers ask for ([GuestReads]),
    of which [ram_guest] is an instance.

    ** The files

    - Prelude: record update, machine words ([u8] .. [u64]), bits, loops over
      ranges, tactics ([bitwise], [case_if], [bool_hyps]) and hints.
    - Bytes, Vectors: register arrays of bytes with little-endian words
      ([mem], load and store by [std::memcpy]); [std::vector<uint8_t>] and host
      files as lists.
    - Tlm, Memory, Access: payloads, commands, responses and targets with their
      reachable states; memories behind a socket; the two bodies of [access]
      that the register blocks share.
    - ZenaFmu (zena_fmu.h), ZenaSsu (zena_ssu.h): error records behind unlock
      keys, interrupt and safety outputs.
    - RseAtu (rse_atu.h), RseKmu (rse_kmu.h), RseLcm (rse_lcm.h), Dma350
      (dma350.h): address translation and direct-memory grants, key slots and
      their export, the one-time-programmable fuses, copy and fill commands.
    - RegBlock, RseSam, RseSysctrl, RseIntegrityChecker, RseProtectionCtrl (the
      files rse_X.h): the small register blocks of the security subsystem.
    - HostPpu, HostScr, HostSystemPll, HostSmcfMgi, HostGtimer, HostNi710, HostCmn
      (the files host_X.h): power policy with its sequence, system registers,
      clocks, monitoring, timer counter and the two discovery windows.
    - GicViews (gicx00_multiview.h), GicMessreg (gic720ae_messreg.h), ResetFanout
      (reset_fanout.h): interrupt-controller windows, deferred reset lines.
    - FlashRanges, StrataFlash (strata_flash_j3.h): the flash and the parser of
      its grant ranges; FlashCorrect and FlashBacking prove it correct against
      the abstract NOR flash [nor].
    - MhuFrame, MhuDevice, MhuScmi, MhuPsa, Mhu (mhu320ae.h): the doorbell frame,
      the device, its message responders, and the world of paired devices, which
      replaces the static maps of the class; MhuSeed the words it finds in the
      configuration.  MhuInv, MhuServices,
      MhuWorld, MhuTransport and MhuAnnounce hold the proofs.
    - Mmu720ae (mmu720ae_core.cc and mmu720ae.cc under mmu720ae/src/): the memory
      management unit; MmuQueue proves its event queue against a queue.
    - Sha256 (rse_lms_accel.h, whose hash the cc3xx shares), ModArith: SHA-256 in
      code and as the standard states it, modular arithmetic.
    - Cc3xxState, Cc3xxPka, Cc3xxAes, Cc3xxCore (cc3xx_core.h), Cc3xx (cc3xx.h),
      Cc3xxNative (qemu_cc3xx.h): the cryptographic accelerator, its engines and
      its two modules.  PkaArith and PkaOps prove its public-key engine for one
      opcode, PkaRun over runs of the whole accelerator; AesCorrect,
      AesCtr and AesCmac the cipher, its counter mode and its authentication code;
      Cc3xxDriver, HashDma, AesDma and CmacDma the engines that work on memory.
    - Provisioning: the key management unit and the accelerator together.
    - RseLms (rse_lms_accel.h), RseP256 (rse_p256_ecdsa.h), RseMcuboot
      (rse_mcuboot_image.h): verification of hash-based and elliptic-curve
      signatures, image headers.  Primality certifies the field's prime, P256Curve
      and P256Der hold the proofs.
    - RseAccelState, RseCpuAccel (rse_cpu_accel.h): functions of the boot loader that
      the host carries out.  RseAccelCorrect, RseAccelVerify and RseAccelImage hold
      the proofs: what a declined entry leaves, which checks are skipped, what is
      written.
    - Json: the lines of a statistics or profile file, and a parser of the objects they
      make up.  FlashReport (strata_flash_j3.h), Cc3xxReport (cc3xx_core.h and
      qemu_cc3xx.h) and RseAccelReport (rse_cpu_accel.h) hold the files that are written
      and what a reader finds in them; Cc3xxFiles (cc3xx.h, qemu_cc3xx.h) when the
      accelerator writes its files.
    - ArmCpu (cortex-a720ae.h, cortex-r82.h, arm-smmuv3.h, sbsa_gwdt.h): set-up of
      the emulator's devices, exclusive stores.

    ** What the theorems show

    - State: the interrupt and safety outputs follow the records and doorbells
      behind them in every reachable state (ZenaFmu, ZenaSsu, MhuWorld); every
      reachable state is well formed (MhuWorld); the backing file follows the
      flash array (FlashBacking); the lifecycle only advances (RseLcm); points stay
      on the curve (P256Curve); cached signature checks are what the check gives
      (RseAccelVerify).
    - Refinement and equivalence: the flash against the NOR flash, the
      translation loop against the abstract translation, the safety status
      against its four-state machine, DMA commands against their transfers, element by element or
      in pieces of 1 KiB, the shortcut of the flash against its full path, the event queue
      against a queue, the hash engine driven over its socket or over the callbacks of
      the emulator against SHA-256, the authentication code against CMAC, the
      device's cached memory against the bus, one-run decryption against piece-by-piece decryption.
    - Safety: grants reach what transactions reach (those of RseAtu where no earlier
      region overlaps) and are revoked before what they show changes; a translation
      stays in its region and in the address space; locked banks, fuses and protected registers do not change;
      parsing stays inside the signature; a skipped check is one that succeeds; a
      declined entry leaves the guest alone, or as it was when the emulator refused
      a write or a register.
    - Functions, errors and round trips: unlock keys, status bits, key loading and
      export, buffered programming, message transfer through a pair of
      units, refusals of the PSA services, stored data that is read back, grant
      ranges that parse back, power sequences, the arithmetic of every public-key
      opcode on what is in memory, whatever modulus was cached, memory that the cipher engine works on, with a key of the key management
      unit as well, AES and DER encodings that are undone, LMS signatures that verify, the
      image hash, refused exclusive stores, statistics and profile files that a parser
      reads back (FlashReport, Cc3xxReport, RseAccelReport).
    - Termination and liveness: the completion queue of a unit drains; the
      announcement of the endpoint is made once a buffer is offered.

    ** Loops, fuel and bounds

    Loops over a counted range are folds over [range n].  Loops that count a
    quantity down ([copy_loop], [fill_loop], [drain_completions],
    [parse_ranges], [hash_loop], [ctr_loop], [hash_chunks], [ctr_chunks],
    [cmac_chunks], [pow_loop],
    [multiply_loop]) are fixpoints on a fuel their callers compute from that
    quantity: the number of bursts, the length of the queue, the length of the
    text or of the data, the chunks of a transfer, the bits of an exponent;
    Euclid's algorithm gets the bits of its arguments twice over.  The theorems
    about the callers ([dma_copy_command], [completions_delivered],
    [flash_ranges_roundtrip], [cc3xx_hash_digest], [cc3xx_ctr_transfers], [cc3xx_cmac], [pka_opcode_arithmetic],
    [accel_decrypt_pieces], [p256_operations]) hold with that fuel, so it is
    enough.  The announcement worker waits for a number of polls the
    configuration gives; another round needs a new request, and two rounds
    suffice for one.  Words are integers [Z] with the wrap of their width written
    where the code converts or can overflow.

    ** Not modelled

    - ras_ffh_stub, virtio_mmio_rng, the CPU wrapper of platforms/apollo and the
      registration of modules: constructors and macros without behaviour.
    - The emulator and the library of sockets, which are outside the repository:
      parameters of the definitions that use them.
    - The text of traces and logs (their counters are modelled where the code branches
      on them), counters of host time (values that the reports are given), and host
      file access beyond missing, empty and present files.
    - Simulated time: a wait or a delayed notification is a step, in the order the
      code issues them. *)

From stdpp Require Export gmap list.
From Stdlib Require Export ZArith Lia ZifyNat ZifyBool Btauto.

Global Open Scope Z_scope.

(** * Record field update

    [s <| f := v |>] is [s] with field [f] set to [v]; [s <| f ::= g |>] applies
    [g] to the field.  A record opts in with an [Eta] instance that rebuilds it
    field by field; the setter of a projection is computed from it. *)

Class Eta (R : Type) := eta_expand : R -> R.
Class Setter {R T : Type} (proj : R -> T) := set_field : (T -> T) -> R -> R.
Arguments set_field {R T} proj {_} _ _ /.

Ltac build_setter proj :=
  lazymatch type of proj with
  | ?R -> ?T =>
      let inst := constr:(_ : Eta R) in
      let body := eval hnf in inst in
      let pat := eval pattern proj in body in
      lazymatch pat with
      | ?F proj =>
          let setter := constr:(fun (f : T -> T) (r : R) => F (fun x => f (proj x)) r) in
          let setter := eval cbv beta in setter in
          exact setter
      end
  end.

#[export] Hint Extern 1 (Setter ?proj) => build_setter proj : typeclass_instances.

Declare Scope model_scope.
Delimit Scope model_scope with model.
Global Open Scope model_scope.

Notation "s <| f := v |>" := (set_field f (fun _ => v) s)
  (at level 1, f at level 9, left associativity) : model_scope.
Notation "s <| f ::= g |>" := (set_field f g s)
  (at level 1, f at level 9, g at level 200, left associativity) : model_scope.

(** * Machine integers

    An unsigned [w]-bit integer is a [Z] in [[0, 2^w)]; the conversions below
    are C's [static_cast] to an unsigned type (reduction modulo [2^w]). *)

Definition is_uint (w x : Z) : Prop := 0 <= x < 2 ^ w.
Abbreviation is_u8 := (is_uint 8).
Abbreviation is_u16 := (is_uint 16).
Abbreviation is_u32 := (is_uint 32).
Abbreviation is_u64 := (is_uint 64).

Definition wrap (w x : Z) : Z := x mod 2 ^ w.
Abbreviation u8 := (wrap 8).
Abbreviation u16 := (wrap 16).
Abbreviation u32 := (wrap 32).
Abbreviation u64 := (wrap 64).

(** [1u << n] for a constant [n] that fits the type. *)
Definition bit (n : Z) : Z := Z.shiftl 1 n.

(** [x << n] on an unsigned [w]-bit integer. *)
Definition shl (w x n : Z) : Z := wrap w (Z.shiftl x n).

(** [~x] on an unsigned [w]-bit integer. *)
Definition cnot (w x : Z) : Z := Z.ldiff (Z.ones w) x.
Abbreviation not32 := (cnot 32).
Abbreviation not64 := (cnot 64).

(** [(x & m) != 0]. *)
Definition test (x m : Z) : bool := negb (Z.land x m =? 0).

Lemma wrap_range w x : 0 <= w -> is_uint w (wrap w x).
Proof. intros Hw. apply Z.mod_pos_bound, Z.pow_pos_nonneg; lia. Qed.

Lemma wrap_small w x : is_uint w x -> wrap w x = x.
Proof. apply Z.mod_small. Qed.

Lemma wrap_wrap w x : wrap w (wrap w x) = wrap w x.
Proof. apply Zmod_mod. Qed.

Lemma is_uint_0 w : 0 <= w -> is_uint w 0.
Proof. intros. split; [lia|]. apply Z.pow_pos_nonneg; lia. Qed.

Lemma is_uint_mono w w' x : 0 <= w <= w' -> is_uint w x -> is_uint w' x.
Proof.
  intros Hw [H0 H1]. split; [done|].
  apply Z.lt_le_trans with (1 := H1), Z.pow_le_mono_r; lia.
Qed.

(** A number is a [w]-bit unsigned integer when all its bits lie below [w]. *)
Lemma is_uint_testbit w x :
  0 <= w -> 0 <= x -> (forall i, w <= i -> Z.testbit x i = false) -> is_uint w x.
Proof.
  intros Hw Hx Hbits. split; [done|].
  assert (x = x mod 2 ^ w) as ->; [|by apply Z.mod_pos_bound, Z.pow_pos_nonneg; lia].
  apply Z.bits_inj'. intros i Hi. destruct (Z.lt_ge_cases i w).
  - by rewrite Z.mod_pow2_bits_low by lia.
  - rewrite Z.mod_pow2_bits_high by lia. auto.
Qed.

Lemma uint_testbit_high w x i : is_uint w x -> w <= i -> Z.testbit x i = false.
Proof.
  intros [H0 H1] Hi. destruct (Z.lt_ge_cases w 0).
  { rewrite Z.pow_neg_r in H1; lia. }
  rewrite <-(Z.mod_small x (2 ^ w)) by done. apply Z.mod_pow2_bits_high. lia.
Qed.

Lemma land_uint_l w x y : 0 <= w -> is_uint w x -> is_uint w (Z.land x y).
Proof.
  intros Hw Hx. apply is_uint_testbit; [done|apply Z.land_nonneg; left; apply Hx|].
  intros i Hi. by rewrite Z.land_spec, (uint_testbit_high w x i Hx Hi).
Qed.

Lemma land_uint_r w x y : 0 <= w -> is_uint w y -> is_uint w (Z.land x y).
Proof. rewrite Z.land_comm. apply land_uint_l. Qed.

Lemma lor_uint w x y : 0 <= w -> is_uint w x -> is_uint w y -> is_uint w (Z.lor x y).
Proof.
  intros Hw Hx Hy. apply is_uint_testbit; [done|apply Z.lor_nonneg; split; [apply Hx|apply Hy]|].
  intros i Hi. by rewrite Z.lor_spec, (uint_testbit_high w x i Hx Hi), (uint_testbit_high w y i Hy Hi).
Qed.

Lemma lxor_uint w x y : 0 <= w -> is_uint w x -> is_uint w y -> is_uint w (Z.lxor x y).
Proof.
  intros Hw Hx Hy. apply is_uint_testbit; [done|apply Z.lxor_nonneg; split; intros _; [apply Hy|apply Hx]|].
  intros i Hi. by rewrite Z.lxor_spec, (uint_testbit_high w x i Hx Hi), (uint_testbit_high w y i Hy Hi).
Qed.

Lemma ldiff_uint w x y : 0 <= w -> is_uint w x -> is_uint w (Z.ldiff x y).
Proof.
  intros Hw Hx. apply is_uint_testbit; [done|apply Z.ldiff_nonneg; left; apply Hx|].
  intros i Hi. by rewrite Z.ldiff_spec, (uint_testbit_high w x i Hx Hi).
Qed.

Lemma cnot_uint w x : 0 <= w -> is_uint w (cnot w x).
Proof.
  intros Hw. apply ldiff_uint; [done|]. unfold is_uint. rewrite Z.ones_equiv. lia.
Qed.

Lemma bit_uint w n : 0 <= n < w -> is_uint w (bit n).
Proof.
  intros Hn. unfold bit. rewrite Z.shiftl_1_l. split; [by apply Z.pow_nonneg|].
  apply Z.pow_lt_mono_r; lia.
Qed.

Lemma shiftr_uint w x n : 0 <= n -> is_uint w x -> is_uint w (Z.shiftr x n).
Proof.
  intros Hn [H0 H1]. rewrite Z.shiftr_div_pow2 by done.
  assert (0 < 2 ^ n) by (apply Z.pow_pos_nonneg; lia).
  split; [by apply Z.div_pos|]. apply Z.le_lt_trans with x; [|done].
  apply Z.div_le_upper_bound; [done|]. nia.
Qed.

Create HintDb uint.
#[export] Hint Resolve wrap_range is_uint_0 land_uint_l land_uint_r lor_uint lxor_uint
  ldiff_uint cnot_uint bit_uint : uint.
#[export] Hint Extern 2 (0 <= _) => lia : uint.
#[export] Hint Extern 2 (0 <= _ < _) => lia : uint.
#[export] Hint Extern 4 (is_uint _ _) => (cbv; split; congruence) : uint.

(** * Bits *)

Lemma bit_testbit n i : 0 <= n -> Z.testbit (bit n) i = (i =? n).
Proof.
  intros Hn. unfold bit. rewrite Z.shiftl_1_l. destruct (Z.eqb_spec i n) as [->|Hne].
  - by apply Z.pow2_bits_true.
  - apply Z.pow2_bits_false. done.
Qed.

Lemma cnot_testbit w x i : 0 <= w -> 0 <= i ->
  Z.testbit (cnot w x) i = (i <? w) && negb (Z.testbit x i).
Proof.
  intros Hw Hi. unfold cnot. rewrite Z.ldiff_spec. f_equal.
  destruct (Z.ltb_spec i w); [apply Z.ones_spec_low|apply Z.ones_spec_high]; lia.
Qed.

(** [a & ~b] clears in [a] the bits of [b]. *)
Lemma land_cnot w a b : is_uint w a -> 0 <= w -> Z.land a (cnot w b) = Z.ldiff a b.
Proof.
  intros Ha Hw. apply Z.bits_inj'. intros i Hi.
  rewrite Z.land_spec, cnot_testbit, Z.ldiff_spec by done.
  destruct (Z.ltb_spec i w); [done|]. by rewrite (uint_testbit_high w a i).
Qed.

(** [(x & (1u << n)) != 0] reads bit [n]. *)
Lemma test_bit x n : 0 <= n -> test x (bit n) = Z.testbit x n.
Proof.
  intros Hn. unfold test. destruct (Z.testbit x n) eqn:Hb.
  - destruct (Z.eqb_spec (Z.land x (bit n)) 0) as [H0|]; [|done].
    apply (f_equal (fun z => Z.testbit z n)) in H0.
    rewrite Z.land_spec, bit_testbit, Hb, Z.eqb_refl, Z.bits_0 in H0 by done. done.
  - destruct (Z.eqb_spec (Z.land x (bit n)) 0) as [|Hne]; [done|]. exfalso. apply Hne.
    apply Z.bits_inj'. intros i Hi. rewrite Z.land_spec, bit_testbit, Z.bits_0 by done.
    destruct (Z.eqb_spec i n) as [->|]; [by rewrite Hb|apply andb_false_r].
Qed.

Lemma test_0_l m : test 0 m = false.
Proof. unfold test. by rewrite Z.land_0_l. Qed.

(** [test] sees exactly the bits of the mask. *)
Lemma test_spec x m : 0 <= x \/ 0 <= m ->
  test x m = true <-> exists i, 0 <= i /\ Z.testbit x i = true /\ Z.testbit m i = true.
Proof.
  intros Hpos. unfold test. rewrite negb_true_iff, Z.eqb_neq. split.
  - intros Hne. assert (0 <= Z.land x m) by (apply Z.land_nonneg; lia).
    exists (Z.log2 (Z.land x m)). split; [apply Z.log2_nonneg|].
    pose proof (Z.bit_log2 (Z.land x m)) as Hb. rewrite Z.land_spec in Hb.
    apply andb_true_iff, Hb. lia.
  - intros (i & Hi & Hx & Hm) H0. apply (f_equal (fun z => Z.testbit z i)) in H0.
    by rewrite Z.land_spec, Hx, Hm, Z.bits_0 in H0.
Qed.

Create Rewrite HintDb bits.
#[export] Hint Rewrite Z.land_spec Z.lor_spec Z.lxor_spec Z.ldiff_spec Z.bits_0
  Z.testbit_mod_pow2 : bits.
#[export] Hint Rewrite bit_testbit cnot_testbit Z.shiftl_spec Z.shiftr_spec using lia : bits.

(** Proves an equation between integers built from bit operations by comparing
    them bit by bit. *)
Ltac bitwise :=
  apply Z.bits_inj'; intros ?i ?Hi; autorewrite with bits;
  repeat match goal with
         | |- context [Z.eqb ?a ?b] => destruct (Z.eqb_spec a b); subst
         | |- context [Z.ltb ?a ?b] => destruct (Z.ltb_spec a b)
         end; try lia; try btauto.

(** * Fixed arrays

    A C array [T a[n]] indexed by an in-range unsigned index. *)

Definition arr_get (l : list Z) (i : Z) : Z := default 0 (l !! Z.to_nat i).
Definition arr_set (i v : Z) (l : list Z) : list Z := <[Z.to_nat i := v]> l.

Lemma arr_get_set_eq l i v : 0 <= i < Z.of_nat (length l) -> arr_get (arr_set i v l) i = v.
Proof.
  intros Hi. unfold arr_get, arr_set. by rewrite list_lookup_insert_eq by lia.
Qed.

Lemma arr_get_set_ne l i j v : 0 <= i -> 0 <= j -> i <> j ->
  arr_get (arr_set i v l) j = arr_get l j.
Proof.
  intros Hi Hj Hne. unfold arr_get, arr_set. by rewrite list_lookup_insert_ne by lia.
Qed.

Lemma arr_set_length i v l : length (arr_set i v l) = length l.
Proof. apply length_insert. Qed.

Lemma arr_get_replicate n v i : 0 <= i < Z.of_nat n -> arr_get (replicate n v) i = v.
Proof. intros Hi. unfold arr_get. by rewrite lookup_replicate_2 by lia. Qed.

Create Rewrite HintDb arr.
#[export] Hint Rewrite arr_set_length : arr.

(** [for (unsigned i = 0; i < n; ++i)]: the indices, as integers. *)
Definition range (n : Z) : list Z := seqZ 0 n.

Lemma elem_of_range i n : i ∈ range n <-> 0 <= i < n.
Proof. unfold range. rewrite elem_of_seqZ. lia. Qed.

Lemma existsb_range (f : Z -> bool) n :
  existsb f (range n) = true <-> exists i, 0 <= i < n /\ f i = true.
Proof.
  rewrite existsb_exists. split; intros (i & Hi & Hf); exists i; split; try done.
  - by apply elem_of_range, list_elem_of_In.
  - by apply list_elem_of_In, elem_of_range.
Qed.

(** * Boolean case analysis *)

(** Splits on the boolean condition of an [if] in the goal or a hypothesis. *)
Ltac case_if :=
  match goal with
  | |- context [if ?b then _ else _] => let E := fresh "E" in destruct b eqn:E
  | H : context [if ?b then _ else _] |- _ => let E := fresh "E" in destruct b eqn:E
  end.

(** Opens boolean connectives in hypotheses. *)
Ltac bool_hyps :=
  repeat match goal with
         | H : _ && _ = true |- _ => apply andb_true_iff in H; destruct H
         | H : _ || _ = false |- _ => apply orb_false_iff in H; destruct H
         | H : negb _ = true |- _ => apply negb_true_iff in H
         | H : negb _ = false |- _ => apply negb_false_iff in H
         | H : (_ =? _) = true |- _ => apply Z.eqb_eq in H
         | H : (_ =? _) = false |- _ => apply Z.eqb_neq in H
         end.

(** * Loops over index ranges *)

(** A loop that raises flags: each turn may only set them. *)
Lemma foldl_flags {A} (step : bool * bool -> A -> bool * bool) (f g : A -> bool) l c n :
  (forall c n x, step (c, n) x = (c || f x, n || g x)) ->
  foldl step (c, n) l = (c || existsb f l, n || existsb g l).
Proof.
  intros Hstep. revert c n. induction l as [|x l IH]; intros c n; simpl.
  - by rewrite !orb_false_r.
  - by rewrite Hstep, IH, !orb_assoc.
Qed.

Lemma existsb_ext_in {A} (f g : A -> bool) l :
  (forall x, x ∈ l -> f x = g x) -> existsb f l = existsb g l.
Proof.
  induction l as [|x l IH]; intros Hfg; simpl; [done|].
  rewrite Hfg by apply list_elem_of_here. by rewrite IH by (intros; apply Hfg; by apply list_elem_of_further).
Qed.

(** Or-ing words together stays within the width. *)
Lemma foldl_uint {A} w (f : A -> Z) l acc : 0 <= w -> is_uint w acc -> (forall x, is_uint w (f x)) ->
  is_uint w (foldl (fun a x => Z.lor a (f x)) acc l).
Proof.
  intros Hw Hacc Hf. revert acc Hacc. induction l as [|x l IH]; intros acc Hacc; [done|].
  cbn. apply IH. by apply lor_uint.
Qed.

Lemma foldl_ext_in {A B} (f g : A -> B -> A) a l :
  (forall a x, x ∈ l -> f a x = g a x) -> foldl f a l = foldl g a l.
Proof.
  revert a. induction l as [|x l IH]; intros a Hfg; simpl; [done|].
  rewrite Hfg by apply list_elem_of_here. apply IH. intros. apply Hfg. by apply list_elem_of_further.
Qed.

Lemma foldl_range_snoc {A} (f : A -> Z -> A) a n : 0 <= n ->
  foldl f a (range (n + 1)) = f (foldl f a (range n)) n.
Proof.
  intros Hn. unfold range. replace (n + 1) with (Z.of_nat (S (Z.to_nat n))) by lia.
  rewrite seqZ_S, foldl_app. cbn [foldl]. by rewrite Z2Nat.id by lia.
Qed.

(** Induction over the turns of a counting loop. *)
Lemma foldl_range_ind {A} (f : A -> Z -> A) (P : Z -> A -> Prop) a n : 0 <= n ->
  P 0 a -> (forall k x, 0 <= k < n -> P k x -> P (k + 1) (f x k)) -> P n (foldl f a (range n)).
Proof.
  intros Hn H0 Hstep. assert (forall k, 0 <= k -> k <= n -> P k (foldl f a (range k))) as H; [|by apply H].
  intros k Hk. pattern k. apply natlike_ind; [by intros _| |done].
  intros x Hx IH Hle. rewrite <-Z.add_1_r, foldl_range_snoc by lia. apply Hstep; [lia|]. apply IH. lia.
Qed.

Lemma surjective_pairing_3 {A B C} (p : A * B * C) : p = (fst (fst p), snd (fst p), snd p).
Proof. by destruct p as [[a b] c]. Qed.

(** Splitting an address back into the index and the offset it was built from. *)
Lemma div_pack q r n : 0 <= r < n -> (q * n + r) / n = q.
Proof. intros Hr. rewrite Z.div_add_l by lia. rewrite Z.div_small; lia. Qed.

Lemma mod_pack q r n : 0 <= r < n -> (q * n + r) mod n = r.
Proof. intros Hr. rewrite Z.add_comm, Z.mod_add by lia. by apply Z.mod_small. Qed.

(** * Typed arrays *)

(** An array of [n] unsigned [w]-bit words. *)
Definition arr_ok (n : nat) (w : Z) (l : list Z) : Prop :=
  length l = n /\ Forall (is_uint w) l.

Lemma arr_ok_get n w l i : 0 <= w -> arr_ok n w l -> is_uint w (arr_get l i).
Proof.
  intros Hw [_ Hl]. unfold arr_get. destruct (l !! Z.to_nat i) eqn:E; simpl.
  - by eapply Forall_lookup_1.
  - by apply is_uint_0.
Qed.

Lemma arr_ok_set n w l i v : arr_ok n w l -> is_uint w v -> arr_ok n w (arr_set i v l).
Proof.
  intros [Hn Hl] Hv. split; [by rewrite arr_set_length|]. by apply Forall_insert.
Qed.

Lemma arr_ok_replicate n w v : is_uint w v -> arr_ok n w (replicate n v).
Proof. intros. split; [apply length_replicate|by apply Forall_replicate]. Qed.

#[export] Hint Resolve arr_ok_set arr_ok_replicate : uint.
#[export] Hint Extern 3 (is_uint _ (arr_get _ _)) => (eapply arr_ok_get; [lia|eassumption]) : uint.

(** * Shifts as multiplications *)

Lemma shl_mul w x n : 0 <= n -> 0 <= x -> x * 2 ^ n < 2 ^ w -> shl w x n = x * 2 ^ n.
Proof.
  intros Hn Hx Hlt. unfold shl. rewrite Z.shiftl_mul_pow2 by done.
  apply wrap_small. split; [|done]. apply Z.mul_nonneg_nonneg; [done|]. by apply Z.pow_nonneg.
Qed.

Lemma shl_bit w n : 0 <= n < w -> shl w 1 n = bit n.
Proof. intros Hn. unfold shl. apply wrap_small. by apply bit_uint. Qed.

(** [(x & (mask << off)) >> off] reads a bit field. *)
Lemma field_read x off n : 0 <= off -> 0 <= n ->
  Z.shiftr (Z.land x (Z.shiftl (Z.ones n) off)) off = (x / 2 ^ off) mod 2 ^ n.
Proof.
  intros Ho Hn. rewrite Z.shiftr_land, Z.shiftr_shiftl_l by done.
  rewrite Z.sub_diag, Z.shiftl_0_r, Z.land_ones, Z.shiftr_div_pow2 by done. done.
Qed.

(** [hi << n | lo] packs two fields. *)
Lemma lor_pack hi lo n : 0 <= n -> 0 <= lo < 2 ^ n -> Z.lor (Z.shiftl hi n) lo = hi * 2 ^ n + lo.
Proof.
  intros Hn Hlo. rewrite <-Z.shiftl_mul_pow2 by done. symmetry. apply Z.add_nocarry_lor.
  apply Z.bits_inj'. intros i Hi. rewrite Z.land_spec, Z.shiftl_spec, Z.bits_0 by done.
  destruct (Z.lt_ge_cases i n); [by rewrite Z.testbit_neg_r by lia|].
  rewrite (uint_testbit_high n lo i) by done. apply andb_false_r.
Qed.

(** * First match *)

Lemma find_ext_in {A} (f g : A -> bool) l :
  (forall x, x ∈ l -> f x = g x) -> List.find f l = List.find g l.
Proof.
  induction l as [|x l IH]; intros Hfg; simpl; [done|].
  rewrite Hfg by apply list_elem_of_here.
  by rewrite IH by (intros; apply Hfg; by apply list_elem_of_further).
Qed.

(** The first index below [n] that satisfies [f]. *)
Lemma find_range_some f n r : List.find f (range n) = Some r <->
  0 <= r < n /\ f r = true /\ forall r', 0 <= r' < r -> f r' = false.
Proof.
  unfold range. assert (forall k l, List.find f (seqZ k l) = Some r <->
    k <= r < k + l /\ f r = true /\ forall r', k <= r' < r -> f r' = false) as H.
  { intros k l. revert k. induction l as [|l Hl IH|l Hl IH] using (Z.succ_pred_induction 0); intros k.
    - simpl. split; [done|lia].
    - rewrite seqZ_cons by lia. replace (Z.pred (Z.succ l)) with l by lia. cbn [List.find].
      destruct (f k) eqn:Ek.
      + split; [intros [= <-]; split_and!; try lia; done|]. intros (Hr & Hf & Hall).
        f_equal. destruct (Z.eq_dec k r); [done|]. rewrite (Hall k) in Ek by lia. done.
      + rewrite IH. split; intros (Hr & Hf & Hall).
        * split; [lia|]. split; [done|]. intros r' Hr'. destruct (Z.eq_dec r' k) as [->|]; [done|]. apply Hall. lia.
        * assert (r <> k) by congruence. split; [lia|]. split; [done|]. intros r' Hr'. apply Hall. lia.
    - rewrite seqZ_nil by lia. simpl. split; [done|lia]. }
  rewrite H. done.
Qed.

Lemma find_range_none f n : List.find f (range n) = None <-> forall r, 0 <= r < n -> f r = false.
Proof.
  split.
  - intros Hn r Hr. apply (find_none f _ Hn). by apply list_elem_of_In, elem_of_range.
  - intros Hall. destruct (List.find f (range n)) as [r|] eqn:E; [|done].
    apply find_range_some in E as (Hr & Hf & _). by rewrite Hall in Hf.
Qed.
