(* ===== verification/Bytes.v ===== *)
(** Little-endian words and byte-addressed register storage.

    The register files of the peripherals are [std::array<uint8_t, N> m_regs],
    read and written with [std::memcpy] at a byte offset.  [mem] is such an
    array: a finite map from byte offsets to byte values in which an absent
    offset holds the fill value 0 ([m_regs.fill(0)] is the empty map).
    [mem_ok N] is the memory-safety invariant of an array of [N] bytes: no byte
    was ever stored outside it, and every stored value is a byte. *)

From S2P Require Import Prelude.

(** * Little-endian encoding *)

Fixpoint le_val (bs : list Z) : Z :=
  match bs with
  | [] => 0
  | b :: bs => b + 256 * le_val bs
  end.

Fixpoint le_bytes (n : nat) (v : Z) : list Z :=
  match n with
  | O => []
  | S n => v mod 256 :: le_bytes n (v / 256)
  end.

Definition bytes_ok (bs : list Z) : Prop := Forall is_u8 bs.

Lemma le_bytes_length n v : length (le_bytes n v) = n.
Proof. revert v. induction n as [|n IH]; intros v; simpl; [done|]. by rewrite IH. Qed.

Lemma le_bytes_ok n v : bytes_ok (le_bytes n v).
Proof.
  revert v. induction n as [|n IH]; intros v; simpl; constructor; [|apply IH].
  apply (Z.mod_pos_bound v 256). lia.
Qed.

Lemma le_val_range bs : bytes_ok bs -> is_uint (8 * Z.of_nat (length bs)) (le_val bs).
Proof.
  induction 1 as [|b bs Hb _ IH]; [by split|]. cbn [length le_val].
  unfold is_uint in *. rewrite Nat2Z.inj_succ.
  replace (8 * Z.succ (Z.of_nat (length bs))) with (8 + 8 * Z.of_nat (length bs)) by lia.
  rewrite Z.pow_add_r by lia. change (2 ^ 8) with 256 in *. nia.
Qed.

Lemma le_val_bytes n v : le_val (le_bytes n v) = wrap (8 * Z.of_nat n) v.
Proof.
  revert v. induction n as [|n IH]; intros v; cbn [le_bytes le_val].
  - unfold wrap. by rewrite Z.mod_1_r.
  - rewrite IH. unfold wrap. rewrite Nat2Z.inj_succ.
    replace (8 * Z.succ (Z.of_nat n)) with (8 + 8 * Z.of_nat n) by lia.
    rewrite Z.pow_add_r by lia. change (2 ^ 8) with 256.
    assert (0 < 2 ^ (8 * Z.of_nat n)) by (apply Z.pow_pos_nonneg; lia).
    rewrite Z.rem_mul_r by lia. lia.
Qed.

Lemma le_val_le_bytes n v : is_uint (8 * Z.of_nat n) v -> le_val (le_bytes n v) = v.
Proof. intros H. rewrite le_val_bytes. by apply wrap_small. Qed.

Lemma le_bytes_val bs n : bytes_ok bs -> length bs = n -> le_bytes n (le_val bs) = bs.
Proof.
  intros Hbs <-. induction Hbs as [|b bs Hb _ IH]; [done|]. cbn [length le_val le_bytes].
  unfold is_uint in Hb. change (2 ^ 8) with 256 in Hb. f_equal.
  - rewrite Z.mul_comm, Z.mod_add by lia. by apply Z.mod_small.
  - rewrite Z.mul_comm, Z.div_add by lia. rewrite (Z.div_small b) by lia. apply IH.
Qed.

Lemma le_bytes_lookup n v (k : nat) :
  (k < n)%nat -> le_bytes n v !! k = Some ((v / 2 ^ (8 * Z.of_nat k)) mod 256).
Proof.
  revert n v. induction k as [|k IH]; intros [|n] v Hk; try lia; cbn [le_bytes].
  - by rewrite Z.div_1_r.
  - cbn [lookup list_lookup]. rewrite IH by lia. do 2 f_equal.
    rewrite Nat2Z.inj_succ. replace (8 * Z.succ (Z.of_nat k)) with (8 + 8 * Z.of_nat k) by lia.
    rewrite Z.pow_add_r by lia. by rewrite Z.div_div by lia.
Qed.

(** A byte of a list, or zero past its end. *)
Lemma bytes_get l i : bytes_ok l -> is_u8 (arr_get l i).
Proof.
  intros Hl. unfold arr_get. destruct (l !! Z.to_nat i) eqn:E; [by eapply Forall_lookup_1|]. by cbv.
Qed.

(** * Byte arrays *)

Abbreviation mem := (gmap Z Z).

Definition mem_get (m : mem) (i : Z) : Z := default 0 (m !! i).

(** [memcpy(dst, &m[off], n)]. *)
Definition mem_read (m : mem) (off n : Z) : list Z :=
  map (fun k => mem_get m (off + k)) (range n).

(** [memcpy(&m[off], src, n)]. *)
Fixpoint mem_write (off : Z) (bs : list Z) (m : mem) : mem :=
  match bs with
  | [] => m
  | b :: bs => mem_write (off + 1) bs (<[off := b]> m)
  end.

Definition mem_ok (size : Z) (m : mem) : Prop :=
  forall i b, m !! i = Some b -> 0 <= i < size /\ is_u8 b.

Lemma mem_read_length m off n : 0 <= n -> Z.of_nat (length (mem_read m off n)) = n.
Proof. intros Hn. unfold mem_read, range. rewrite length_map, length_seqZ. lia. Qed.

Lemma mem_read_lookup m off n (k : nat) : Z.of_nat k < n ->
  mem_read m off n !! k = Some (mem_get m (off + Z.of_nat k)).
Proof.
  intros Hk. unfold mem_read, range. rewrite list_lookup_fmap, lookup_seqZ_lt by lia.
  done.
Qed.

Lemma mem_get_write off bs m i :
  mem_get (mem_write off bs m) i =
  if (off <=? i) && (i <? off + Z.of_nat (length bs))
  then default 0 (bs !! Z.to_nat (i - off)) else mem_get m i.
Proof.
  revert off m. induction bs as [|b bs IH]; intros off m; cbn [mem_write].
  - change (Z.of_nat (length [])) with 0. by replace (_ && _) with false by lia.
  - rewrite IH. clear IH. destruct (Z.eq_dec i off) as [->|Hne].
    + replace (off + 1 <=? off) with false by lia.
      replace (off <=? off) with true by lia. cbn [andb].
      replace (off <? _) with true by (cbn [length]; lia). rewrite Z.sub_diag. simpl.
      unfold mem_get. by rewrite lookup_insert_eq.
    + replace (i <? off + 1 + Z.of_nat (length bs)) with (i <? off + Z.of_nat (length (b :: bs))) by (cbn [length]; lia).
      replace (off + 1 <=? i) with (off <=? i) by lia.
      destruct (Z.leb_spec off i); simpl.
      * replace (Z.to_nat (i - off)) with (S (Z.to_nat (i - (off + 1)))) by lia.
        case_if; [done|]. unfold mem_get. by rewrite lookup_insert_ne by done.
      * unfold mem_get. by rewrite lookup_insert_ne by done.
Qed.

Lemma mem_get_write_in off bs m (k : nat) b :
  bs !! k = Some b -> mem_get (mem_write off bs m) (off + Z.of_nat k) = b.
Proof.
  intros Hk. pose proof (lookup_lt_Some _ _ _ Hk). rewrite mem_get_write.
  replace (_ && _) with true by lia. replace (Z.to_nat _) with k by lia. by rewrite Hk.
Qed.

Lemma mem_get_write_out off bs m i :
  i < off \/ off + Z.of_nat (length bs) <= i -> mem_get (mem_write off bs m) i = mem_get m i.
Proof. intros Hi. rewrite mem_get_write. by replace (_ && _) with false by lia. Qed.

Lemma mem_read_ext m m' off off' n :
  (forall k, 0 <= k < n -> mem_get m (off + k) = mem_get m' (off' + k)) ->
  mem_read m off n = mem_read m' off' n.
Proof.
  intros Hext. apply map_ext_in. intros k Hk. apply Hext.
  by apply elem_of_range, list_elem_of_In.
Qed.

Lemma mem_read_write_eq off bs m n :
  n = Z.of_nat (length bs) -> mem_read (mem_write off bs m) off n = bs.
Proof.
  intros ->. apply (list_eq_same_length _ _ (length bs)); [done| |].
  - pose proof (mem_read_length (mem_write off bs m) off (Z.of_nat (length bs))). lia.
  - intros k x y Hk Hx Hy. rewrite mem_read_lookup in Hx by lia.
    rewrite (mem_get_write_in _ _ _ _ _ Hy) in Hx. congruence.
Qed.

Lemma mem_read_write_ne off bs m off' n :
  off' + n <= off \/ off + Z.of_nat (length bs) <= off' ->
  mem_read (mem_write off bs m) off' n = mem_read m off' n.
Proof. intros Hdis. apply mem_read_ext. intros k Hk. apply mem_get_write_out. lia. Qed.

Lemma mem_ok_empty size : mem_ok size ∅.
Proof. intros i b Hb. by rewrite lookup_empty in Hb. Qed.

Lemma mem_ok_write size off bs m :
  mem_ok size m -> bytes_ok bs -> 0 <= off -> off + Z.of_nat (length bs) <= size ->
  mem_ok size (mem_write off bs m).
Proof.
  intros Hm Hbs. revert off m Hm.
  induction Hbs as [|b bs Hb _ IH]; intros off m Hm H0 H1; simpl in *; [done|].
  apply IH; try lia. intros i c Hc. destruct (Z.eq_dec i off) as [->|Hne].
  - rewrite lookup_insert_eq in Hc. injection Hc as <-. split; [lia|done].
  - rewrite lookup_insert_ne in Hc by done. by apply Hm.
Qed.

Lemma mem_get_u8 size m i : mem_ok size m -> is_u8 (mem_get m i).
Proof.
  intros Hm. unfold mem_get. destruct (m !! i) as [b|] eqn:Hb; simpl.
  - eapply Hm, Hb.
  - by apply is_uint_0.
Qed.

Lemma mem_read_ok size m off n : mem_ok size m -> bytes_ok (mem_read m off n).
Proof.
  intros Hm. apply Forall_fmap, Forall_true. intros k. by eapply mem_get_u8.
Qed.

(** * 32-bit registers *)

(** [uint32_t load32(offset) const]. *)
Definition load32 (m : mem) (off : Z) : Z := le_val (mem_read m off 4).

(** [void store32(offset, value)]. *)
Definition store32 (off v : Z) (m : mem) : mem := mem_write off (le_bytes 4 v) m.

Lemma load32_u32 size m off : mem_ok size m -> is_u32 (load32 m off).
Proof.
  intros Hm. unfold load32. pose proof (mem_read_length m off 4 ltac:(lia)) as Hl.
  pose proof (le_val_range _ (mem_read_ok size m off 4 Hm)) as Hr. by rewrite Hl in Hr.
Qed.

Lemma load32_store32 off v m : load32 (store32 off v m) off = u32 v.
Proof.
  unfold load32, store32. rewrite mem_read_write_eq by (by rewrite le_bytes_length).
  apply (le_val_bytes 4).
Qed.

Lemma load32_store32_eq off v m : is_u32 v -> load32 (store32 off v m) off = v.
Proof. intros Hv. rewrite load32_store32. by apply wrap_small. Qed.

Lemma load32_store32_ne off off' v m : off' + 4 <= off \/ off + 4 <= off' ->
  load32 (store32 off v m) off' = load32 m off'.
Proof.
  intros Hdis. unfold load32, store32. rewrite mem_read_write_ne; [done|].
  rewrite le_bytes_length. lia.
Qed.

Lemma load32_write_ne off bs off' m : off' + 4 <= off \/ off + Z.of_nat (length bs) <= off' ->
  load32 (mem_write off bs m) off' = load32 m off'.
Proof. intros Hdis. unfold load32. by rewrite mem_read_write_ne. Qed.

Lemma load32_empty off : load32 ∅ off = 0.
Proof. reflexivity. Qed.

Lemma mem_ok_store32 size off v m :
  mem_ok size m -> 0 <= off -> off + 4 <= size -> mem_ok size (store32 off v m).
Proof. intros. apply mem_ok_write; [done|apply le_bytes_ok|done|by rewrite le_bytes_length]. Qed.

Arguments load32 : simpl never.
Arguments store32 : simpl never.

Create HintDb regs.
#[export] Hint Resolve mem_ok_empty mem_ok_store32 load32_u32 : regs.
#[export] Hint Extern 3 (0 <= _) => lia : regs.
#[export] Hint Extern 3 (_ <= _) => lia : regs.

(** Evaluates [load32] of a chain of [store32]s whose offsets lia can compare. *)
Ltac regs_simpl :=
  repeat first
    [ rewrite load32_store32_eq by eauto with uint
    | rewrite load32_store32_ne by lia
    | rewrite load32_empty ].
