(* ===== verification/Vectors.v ===== *)
(** Byte vectors: [std::vector<uint8_t>] and host files as lists, with the
    block reads, overwrites and fills the components perform on them. *)

From S2P Require Import Prelude Bytes.

(** [n] elements from [off]: what [memcpy(dst, v.data() + off, n)] reads. *)
Definition slice {A} (off n : Z) (l : list A) : list A := take (Z.to_nat n) (drop (Z.to_nat off) l).

(** [memcpy(v.data() + off, bs, n)]: overwrite from [off]. *)
Definition splice {A} (off : Z) (bs l : list A) : list A :=
  take (Z.to_nat off) l ++ bs ++ drop (Z.to_nat off + length bs) l.

(** [std::fill(v.begin() + start, v.begin() + end, x)]. *)
Definition fill_range {A} (start_ end_ : Z) (x : A) (l : list A) : list A :=
  splice start_ (replicate (Z.to_nat (end_ - start_)) x) l.

Definition vec_size {A} (l : list A) : Z := Z.of_nat (length l).

Section vectors.
Context {A : Type}.
Implicit Types l bs : list A.

Lemma slice_length off n l : 0 <= off -> 0 <= n -> off + n <= vec_size l ->
  Z.of_nat (length (slice off n l)) = n.
Proof. unfold vec_size, slice. intros. rewrite length_take, length_drop. lia. Qed.

Lemma slice_lookup off n l (k : nat) : 0 <= off -> Z.of_nat k < n ->
  slice off n l !! k = l !! Z.to_nat (off + Z.of_nat k).
Proof.
  intros Ho Hk. unfold slice. rewrite lookup_take_lt, lookup_drop by lia. f_equal. lia.
Qed.

Lemma splice_length off bs l : 0 <= off -> off + vec_size bs <= vec_size l ->
  length (splice off bs l) = length l.
Proof.
  unfold vec_size, splice. intros. rewrite !length_app, length_take, length_drop. lia.
Qed.

Lemma splice_size off bs l : 0 <= off -> off + vec_size bs <= vec_size l ->
  vec_size (splice off bs l) = vec_size l.
Proof. intros. unfold vec_size. by rewrite splice_length. Qed.

Lemma splice_lookup off bs l i : 0 <= off -> off + vec_size bs <= vec_size l ->
  splice off bs l !! i =
  if (off <=? Z.of_nat i) && (Z.of_nat i <? off + vec_size bs) then bs !! (i - Z.to_nat off)%nat else l !! i.
Proof.
  unfold vec_size, splice. intros Ho Hl.
  assert (length (take (Z.to_nat off) l) = Z.to_nat off) as Ht by (rewrite length_take; lia).
  destruct (Z.leb_spec off (Z.of_nat i)); cbn [andb].
  - rewrite lookup_app_r by lia. rewrite Ht. destruct (Z.ltb_spec (Z.of_nat i) (off + Z.of_nat (length bs))).
    + by rewrite lookup_app_l by lia.
    + rewrite lookup_app_r, lookup_drop by lia. f_equal. lia.
  - rewrite lookup_app_l, lookup_take_lt by lia. done.
Qed.

Lemma splice_middle pre (x y : A) rest : splice (vec_size pre) [y] (pre ++ x :: rest) = pre ++ y :: rest.
Proof.
  unfold splice, vec_size. rewrite Nat2Z.id. rewrite take_app_length. cbn [length app].
  rewrite drop_app_ge by lia. by replace (length pre + 1 - length pre)%nat with 1%nat by lia.
Qed.

Lemma fill_range_size s e x l : 0 <= s -> s <= e <= vec_size l ->
  vec_size (fill_range s e x l) = vec_size l.
Proof. intros. apply splice_size; [done|]. unfold vec_size in *. rewrite length_replicate. lia. Qed.

Lemma fill_range_lookup s e x l i : 0 <= s -> s <= e <= vec_size l ->
  fill_range s e x l !! i =
  if (s <=? Z.of_nat i) && (Z.of_nat i <? e) then Some x else l !! i.
Proof.
  intros Hs He. unfold fill_range. rewrite splice_lookup; unfold vec_size in *; rewrite ?length_replicate; try lia.
  replace (s + Z.of_nat (Z.to_nat (e - s))) with e by lia.
  case_if; [|done]. bool_hyps. apply lookup_replicate_2. lia.
Qed.
End vectors.

Lemma splice_get off bs l i : 0 <= off -> off + vec_size bs <= vec_size l -> 0 <= i ->
  arr_get (splice off bs l) i =
  if (off <=? i) && (i <? off + vec_size bs) then arr_get bs (i - off) else arr_get l i.
Proof.
  intros Ho Hl Hi. unfold arr_get. rewrite splice_lookup by done. rewrite Z2Nat.id by done.
  case_if; [|done]. do 2 f_equal. lia.
Qed.

Lemma fill_range_get s e x l i : 0 <= s -> s <= e <= vec_size l -> 0 <= i ->
  arr_get (fill_range s e x l) i = if (s <=? i) && (i <? e) then x else arr_get l i.
Proof.
  intros Hs He Hi. unfold arr_get. rewrite fill_range_lookup by done. rewrite Z2Nat.id by done. by case_if.
Qed.

Lemma slice_get off n l i : 0 <= off -> 0 <= i < n -> arr_get (slice off n l) i = arr_get l (off + i).
Proof.
  intros Ho Hi. unfold arr_get. rewrite slice_lookup by lia. by rewrite Z2Nat.id by lia.
Qed.

Lemma arr_get_beyond l i : vec_size l <= i -> arr_get l i = 0.
Proof. intros Hi. unfold arr_get, vec_size in *. by rewrite lookup_ge_None_2 by lia. Qed.

(** Two vectors of bytes with the same size and elements are the same. *)
Lemma vec_ext l l' : length l = length l' ->
  (forall i, 0 <= i < vec_size l -> arr_get l i = arr_get l' i) -> l = l'.
Proof.
  intros Hlen Hget. apply (list_eq_same_length _ _ (length l)); [done|done|]. intros i x y Hi Hx Hy.
  specialize (Hget (Z.of_nat i) ltac:(unfold vec_size; lia)). unfold arr_get in Hget.
  rewrite !Nat2Z.id, Hx, Hy in Hget. done.
Qed.

Lemma slice_middle {A} (pre x post : list A) : slice (vec_size pre) (vec_size x) (pre ++ x ++ post) = x.
Proof.
  unfold slice, vec_size. rewrite !Nat2Z.id, drop_app_length, take_app_length. done.
Qed.

(** [std::all_of] over a slice. *)
Lemma forallb_slice (f : Z -> bool) off n l : 0 <= off -> 0 <= n -> off + n <= vec_size l ->
  forallb f (slice off n l) = true <-> forall i, off <= i < off + n -> f (arr_get l i) = true.
Proof.
  intros Ho Hn Hl. rewrite forallb_forall. split.
  - intros H i Hi. apply H. apply list_elem_of_In, list_elem_of_lookup. exists (Z.to_nat (i - off)).
    rewrite slice_lookup by lia. replace (Z.to_nat _) with (Z.to_nat i) by lia.
    unfold arr_get. destruct (l !! Z.to_nat i) eqn:E; [done|].
    apply lookup_ge_None_1 in E. unfold vec_size in *. lia.
  - intros H x Hx%list_elem_of_In. apply list_elem_of_lookup in Hx as [k Hk].
    pose proof (lookup_lt_Some _ _ _ Hk) as Hlt. pose proof (slice_length off n l Ho Hn Hl) as Hs.
    rewrite slice_lookup in Hk by lia. specialize (H (off + Z.of_nat k) ltac:(lia)).
    unfold arr_get in H. by rewrite Hk in H.
Qed.

(** Induction over the turns of a loop that counts from [off]. *)
Lemma foldl_seqZ_ind {A} (f : A -> Z -> A) (P : Z -> A -> Prop) a off n : 0 <= n ->
  P off a -> (forall k x, off <= k < off + n -> P k x -> P (k + 1) (f x k)) ->
  P (off + n) (foldl f a (seqZ off n)).
Proof.
  intros Hn. rewrite <-(Z2Nat.id n) by done. generalize (Z.to_nat n) as m. intros m. clear n Hn.
  revert off a. induction m as [|m IH]; intros off a H0 Hstep.
  { by rewrite Z.add_0_r. }
  rewrite seqZ_cons by lia. replace (Z.pred (Z.of_nat (S m))) with (Z.of_nat m) by lia. cbn [foldl].
  replace (off + Z.of_nat (S m)) with (Z.succ off + Z.of_nat m) by lia. apply IH.
  - rewrite <-Z.add_1_r. apply Hstep; [lia|done].
  - intros k x Hk. apply Hstep. lia.
Qed.

(** * Vectors as little-endian numbers *)

Lemma le_val_app bs bs' : le_val (bs ++ bs') = le_val bs + 2 ^ (8 * vec_size bs) * le_val bs'.
Proof.
  unfold vec_size. induction bs as [|b bs IH]; [cbn; lia|]. cbn [app le_val]. rewrite IH. cbn [length].
  replace (8 * Z.of_nat (S (length bs))) with (8 + 8 * Z.of_nat (length bs)) by lia.
  rewrite Z.pow_add_r by lia. change (2 ^ 8) with 256. ring.
Qed.

(** Or-ing shifted bytes together is the little-endian value. *)
Lemma le_or_bytes w f n bs : 8 * n <= w -> vec_size bs = n -> bytes_ok bs ->
  (forall i, 0 <= i < n -> f i = arr_get bs i) ->
  foldl (fun v i => Z.lor v (shl w (f i) (i * 8))) 0 (range n) = le_val bs.
Proof.
  revert n f. induction bs as [|b bs IH] using rev_ind; intros n f Hw Hn Hb Hf; subst n; [done|].
  unfold vec_size in *. rewrite length_app in *. cbn [length] in *.
  apply Forall_app in Hb as [Hbs Hb]. rewrite Nat2Z.inj_add, foldl_range_snoc by lia.
  rewrite (IH (Z.of_nat (length bs))); [|lia|done|done|].
  2:{ intros i Hi. rewrite Hf by lia. unfold arr_get. rewrite lookup_app_l; [done|lia]. }
  rewrite Hf by lia. unfold arr_get. rewrite lookup_app_r, Nat2Z.id, Nat.sub_diag by lia. cbn.
  inversion_clear Hb. pose proof (le_val_range bs Hbs) as [Hr0 Hr1].
  assert (b * 2 ^ (8 * Z.of_nat (length bs)) < 2 ^ w) as Hlt.
  { apply Z.lt_le_trans with (2 ^ 8 * 2 ^ (8 * Z.of_nat (length bs))).
    - apply Zmult_lt_compat_r; [apply Z.pow_pos_nonneg; lia|apply H].
    - rewrite <-Z.pow_add_r by lia. apply Z.pow_le_mono_r; lia. }
  replace (Z.of_nat (length bs) * 8) with (8 * Z.of_nat (length bs)) by lia.
  rewrite shl_mul by (try apply H; lia). rewrite Z.lor_comm, <-Z.shiftl_mul_pow2 by lia.
  rewrite lor_pack by lia. rewrite le_val_app. cbn. unfold vec_size. ring.
Qed.
