(* ===== verification/FlashRanges.v ===== *)
(** The [dmi_ranges] parameter of [strata_flash_j3]
    (systemc-components/strata_flash_j3/include/strata_flash_j3.h): parsing a
    comma-separated list of start:size or start-end ranges into the ranges the
    flash may grant. *)

From Stdlib Require Import Ascii String.
From S2P Require Import Prelude.

Definition text := list ascii.

(** * Numbers

    [std::stoull(text, &pos, 0)] with the whole text consumed: an optional sign,
    then a 0x, 0 or no prefix that selects base 16, 8 or 10. *)

Definition digit_value (c : ascii) : option Z :=
  let n := Z.of_nat (nat_of_ascii c) in
  if (48 <=? n) && (n <=? 57) then Some (n - 48)
  else if (97 <=? n) && (n <=? 102) then Some (n - 87)
  else if (65 <=? n) && (n <=? 70) then Some (n - 55)
  else None.

Definition digit (base : Z) (c : ascii) : option Z :=
  match digit_value c with
  | Some d => if d <? base then Some d else None
  | None => None
  end.

(** All characters are digits; the value so far is [acc]. *)
Fixpoint digits (base acc : Z) (s : text) : option Z :=
  match s with
  | [] => Some acc
  | c :: s => match digit base c with Some d => digits base (acc * base + d) s | None => None end
  end.

Definition magnitude (s : text) : option Z :=
  match s with
  | [] => None
  | c0 :: s1 =>
      if (c0 =? "0")%char then
        match s1 with
        | c1 :: (_ :: _) as s2 =>
            if (c1 =? "x")%char || (c1 =? "X")%char then digits 16 0 s2 else digits 8 0 s1
        | _ => digits 8 0 s1
        end
      else digits 10 0 s
  end.

(** A negative number wraps around 2^64; a magnitude beyond it throws. *)
(** [strata_flash_j3.h: parse_u64] *)
Definition parse_u64 (s : text) : option Z :=
  let '(neg, s) :=
    match s with
    | c :: s' => if (c =? "-")%char then (true, s') else if (c =? "+")%char then (false, s') else (false, s)
    | [] => (false, s)
    end in
  match magnitude s with
  | Some v => if v <? 2 ^ 64 then Some (if neg : bool then u64 (- v) else v) else None
  | None => None
  end.

(** * Ranges *)

(** [strata_flash_j3.h: "struct dmi_range {" .. "};"] *)
Record dmi_range := MkRange { start : Z; end_ : Z }.

Definition is_space (c : ascii) : bool :=
  let n := nat_of_ascii c in (n =? 32)%nat || ((9 <=? n)%nat && (n <=? 13)%nat).

(** [strata_flash_j3.h: remove_spaces] *)
Definition remove_spaces (value : text) : text := List.filter (fun c => negb (is_space c)) value.

(** [token.find(c)]. *)
Fixpoint find_char (c : ascii) (s : text) : option nat :=
  match s with
  | [] => None
  | c' :: s => if (c' =? c)%char then Some O else option_map S (find_char c s)
  end.

(** [strata_flash_j3.h: parse_dmi_range] *)
Definition parse_dmi_range (token : text) : option dmi_range :=
  match find_char ":" token, find_char "-" token with
  | Some _, Some _ => None
  | Some size_separator, None =>
      match parse_u64 (take size_separator token), parse_u64 (drop (S size_separator) token) with
      | Some start, Some value =>
          if (value =? 0) || (2 ^ 64 - 1 - (value - 1) <? start) then None
          else Some (MkRange start (start + value - 1))
      | _, _ => None
      end
  | None, Some end_separator =>
      match parse_u64 (take end_separator token), parse_u64 (drop (S end_separator) token) with
      | Some start, Some value => if value <? start then None else Some (MkRange start value)
      | _, _ => None
      end
  | None, None => None
  end.

(** The tokens of [spec] from [token_start] on, each parsed and cut to the array
    of [size] bytes; nothing when one of them is not a range of it. *)
(** [strata_flash_j3.h: "while (token_start <= spec.size()) {" .. "token_start = token_end + 1;"] *)
Fixpoint parse_ranges (fuel : nat) (size : Z) (spec : text) : option (list dmi_range) :=
  match fuel with
  | O => None
  | S fuel =>
      let token_end := find_char "," spec in
      let token := match token_end with Some n => take n spec | None => spec end in
      match token, parse_dmi_range token with
      | _ :: _, Some range =>
          if size <=? start range then None
          else
            let range := MkRange (start range) (Z.min (end_ range) (size - 1)) in
            match token_end with
            | None => Some [range]
            | Some n => option_map (cons range) (parse_ranges fuel size (drop (S n) spec))
            end
      | _, _ => None
      end
  end.

(** [strata_flash_j3.h: "size_t token_start = 0;" .. "token_start = token_end + 1;"] *)
Definition parse_spec (size : Z) (spec : text) : option (list dmi_range) :=
  parse_ranges (S (length spec)) size spec.

Example parse_spec_mixed :
  parse_spec 0x10000 (list_ascii_of_string "0x100:0x80,4096-8191,0777:1") =
  Some [MkRange 0x100 0x17f; MkRange 4096 8191; MkRange 511 511].
Proof. vm_compute. reflexivity. Qed.

(** * Bounds *)

Lemma digits_nonneg base acc s v : 0 <= base -> 0 <= acc -> digits base acc s = Some v -> 0 <= v.
Proof.
  intros Hb. revert acc. induction s as [|c s IH]; intros acc Ha H; cbn [digits] in H; [by simplify_eq|].
  destruct (digit base c) as [d|] eqn:Ed; [|done]. apply (IH (acc * base + d)); [|done].
  unfold digit, digit_value in Ed. repeat case_if; simplify_eq; repeat case_if; simplify_eq; nia.
Qed.

Lemma parse_u64_range s v : parse_u64 s = Some v -> is_u64 v.
Proof.
  unfold parse_u64. destruct (match s with [] => _ | _ => _ end) as [neg s'].
  destruct (magnitude s') as [w|] eqn:E; [|done]. destruct (Z.ltb_spec w (2 ^ 64)); [|done].
  intros [= <-]. destruct neg; [apply wrap_range; lia|]. split; [|done].
  unfold magnitude in E. destruct s' as [|c0 s1]; [done|]. case_if.
  - destruct s1 as [|c1 [|c2 s2]]; [|by eapply digits_nonneg in E..|]; [by eapply digits_nonneg in E|].
    case_if; by eapply digits_nonneg in E.
  - by eapply digits_nonneg in E.
Qed.

Lemma parse_dmi_range_ok token r : parse_dmi_range token = Some r -> 0 <= start r <= end_ r /\ end_ r < 2 ^ 64.
Proof.
  unfold parse_dmi_range. destruct (find_char ":" token) as [n|], (find_char "-" token) as [k|]; try done.
  - destruct (parse_u64 (take n token)) as [a|] eqn:Ea; [|done].
    destruct (parse_u64 (drop (S n) token)) as [v|] eqn:Ev; [|done].
    apply parse_u64_range in Ea as [? ?]. apply parse_u64_range in Ev as [? ?]. case_if; [done|].
    intros [= <-]. cbn. lia.
  - destruct (parse_u64 (take k token)) as [a|] eqn:Ea; [|done].
    destruct (parse_u64 (drop (S k) token)) as [v|] eqn:Ev; [|done].
    apply parse_u64_range in Ea as [? ?]. apply parse_u64_range in Ev as [? ?].
    destruct (Z.ltb_spec v a); [done|]. intros [= <-]. cbn. lia.
Qed.

(** A range of an array of [size] bytes. *)
Definition range_ok (size : Z) (r : dmi_range) : Prop := 0 <= start r <= end_ r /\ end_ r < size.

Lemma parse_ranges_ok fuel size spec rs : parse_ranges fuel size spec = Some rs -> Forall (range_ok size) rs.
Proof.
  revert spec rs. induction fuel as [|fuel IH]; intros spec rs H; cbn [parse_ranges] in H; [done|].
  destruct (match find_char "," spec with Some n => _ | None => _ end) as [|c token]; [done|].
  destruct (parse_dmi_range (c :: token)) as [r|] eqn:Er; [|done]. apply parse_dmi_range_ok in Er as [? ?].
  destruct (Z.leb_spec size (start r)); [done|].
  assert (range_ok size (MkRange (start r) (Z.min (end_ r) (size - 1)))) by (split; cbn; lia).
  destruct (find_char "," spec) as [n|]; [|simplify_eq; by constructor].
  destruct (parse_ranges fuel size _) as [rs'|] eqn:E; [|done]. cbn in H. simplify_eq. constructor; [done|by eapply IH].
Qed.

(** * Round trip *)

Definition hex_char (d : Z) : ascii := ascii_of_nat (Z.to_nat (if d <? 10 then 48 + d else 87 + d)).

Fixpoint hex (fuel : nat) (n : Z) : text :=
  match fuel with
  | O => []
  | S fuel => if n <? 16 then [hex_char n] else hex fuel (n / 16) ++ [hex_char (n mod 16)]
  end.

(** A 64-bit number has at most 16 hexadecimal digits. *)
Definition print_u64 (n : Z) : text := "0"%char :: "x"%char :: hex 16 n.

(** start-end, both in hexadecimal, the ranges separated by commas. *)
Definition print_range (r : dmi_range) : text := print_u64 (start r) ++ "-"%char :: print_u64 (end_ r).
Fixpoint print_spec (rs : list dmi_range) : text :=
  match rs with
  | [] => []
  | [r] => print_range r
  | r :: rs => print_range r ++ ","%char :: print_spec rs
  end.

Lemma small_cases (f : Z -> bool) : forallb f (range 16) = true -> forall d, 0 <= d < 16 -> f d = true.
Proof.
  intros H d Hd. rewrite forallb_forall in H. by apply H, list_elem_of_In, elem_of_range.
Qed.

Lemma hex_char_digit d : 0 <= d < 16 -> digit 16 (hex_char d) = Some d.
Proof.
  intros Hd. apply (bool_decide_unpack (digit 16 (hex_char d) = Some d)), Is_true_true.
  revert d Hd. apply (small_cases (fun d => bool_decide (digit 16 (hex_char d) = Some d))). by vm_compute.
Qed.

Definition separator (c : ascii) : bool := (c =? ":")%char || (c =? "-")%char || (c =? ",")%char.

Lemma hex_char_plain d : 0 <= d < 16 -> separator (hex_char d) = false.
Proof.
  intros Hd. apply negb_true_iff. revert d Hd.
  apply (small_cases (fun d => negb (separator (hex_char d)))). by vm_compute.
Qed.

Lemma digits_app base acc s s' :
  digits base acc (s ++ s') = match digits base acc s with Some v => digits base v s' | None => None end.
Proof.
  revert acc. induction s as [|c s IH]; intros acc; [done|]. cbn [app digits].
  destruct (digit base c); [apply IH|done].
Qed.

Lemma digits_hex fuel n : 0 <= n < 16 ^ Z.of_nat fuel -> (0 < fuel)%nat -> digits 16 0 (hex fuel n) = Some n.
Proof.
  revert n. induction fuel as [|fuel IH]; intros n Hn Hf; [lia|]. cbn [hex].
  destruct (Z.ltb_spec n 16).
  - cbn [digits]. rewrite hex_char_digit by lia. done.
  - rewrite Nat2Z.inj_succ, Z.pow_succ_r in Hn by lia. destruct fuel as [|fuel]; [lia|].
    rewrite digits_app, IH by (first [lia|split; [apply Z.div_pos; lia|apply Z.div_lt_upper_bound; lia]]).
    cbn [digits]. pose proof (Z.mod_pos_bound n 16 ltac:(lia)).
    rewrite hex_char_digit by done. f_equal. pose proof (Z.div_mod n 16). lia.
Qed.

Lemma hex_plain fuel n : 0 <= n -> Forall (fun c => separator c = false) (hex fuel n).
Proof.
  revert n. induction fuel as [|fuel IH]; intros n Hn; cbn [hex]; [constructor|].
  destruct (Z.ltb_spec n 16); [by repeat constructor; apply hex_char_plain|].
  apply Forall_app. split; [apply IH, Z.div_pos; lia|].
  repeat constructor. apply hex_char_plain, Z.mod_pos_bound. lia.
Qed.

Lemma hex_nonempty fuel n : (0 < fuel)%nat -> exists c s, hex fuel n = c :: s.
Proof.
  destruct fuel as [|fuel]; [lia|]. intros _. cbn [hex]. case_if; [by eexists _, _|].
  destruct (hex fuel (n / 16)); by eexists _, _.
Qed.

Lemma parse_print_u64 n : is_u64 n -> parse_u64 (print_u64 n) = Some n.
Proof.
  intros [H0 H1]. unfold parse_u64, print_u64. cbn [Ascii.eqb Bool.eqb].
  unfold magnitude. destruct (hex_nonempty 16 n ltac:(lia)) as (c & s & E). rewrite E.
  cbn -[digits]. rewrite <-E, digits_hex by (change (16 ^ Z.of_nat 16) with (2 ^ 64); lia).
  by replace (n <? 2 ^ 64) with true by lia.
Qed.

Lemma print_u64_plain n : 0 <= n -> Forall (fun c => separator c = false) (print_u64 n).
Proof. intros. repeat (constructor; [done|]). by apply hex_plain. Qed.

Lemma find_char_app c s s' : Forall (fun x => separator x = false) s -> separator c = true ->
  find_char c (s ++ c :: s') = Some (length s).
Proof.
  intros Hs Hc. induction Hs as [|x s Hx _ IH]; cbn [app find_char length].
  - by rewrite Ascii.eqb_refl.
  - destruct (Ascii.eqb_spec x c) as [->|]; [congruence|]. by rewrite IH.
Qed.

Lemma find_char_none c s : Forall (fun x => (x =? c)%char = false) s -> find_char c s = None.
Proof. induction 1 as [|x s Hx _ IH]; cbn [find_char]; [done|]. by rewrite Hx, IH. Qed.

Lemma plain_none c s : Forall (fun x => separator x = false) s -> separator c = true ->
  Forall (fun x => (x =? c)%char = false) s.
Proof.
  intros Hs Hc. eapply Forall_impl; [exact Hs|]. intros x Hx. cbn in *.
  destruct (Ascii.eqb_spec x c) as [->|]; [congruence|done].
Qed.

Lemma print_range_chars c r : 0 <= start r -> 0 <= end_ r -> (c = ":" \/ c = ",")%char ->
  find_char c (print_range r) = None.
Proof.
  intros H0 H1 Hc. apply find_char_none. unfold print_range. apply Forall_app. split.
  - apply plain_none; [by apply print_u64_plain|by destruct Hc as [-> | ->]].
  - constructor; [by destruct Hc as [-> | ->]|].
    apply plain_none; [by apply print_u64_plain|by destruct Hc as [-> | ->]].
Qed.

Lemma take_drop_middle' {A} (l1 : list A) x l2 :
  take (length l1) (l1 ++ x :: l2) = l1 /\ drop (S (length l1)) (l1 ++ x :: l2) = l2.
Proof.
  split; [apply take_app_length|]. replace (S (length l1)) with (length l1 + 1)%nat by lia.
  rewrite <-drop_drop. by rewrite drop_app_length.
Qed.

Lemma parse_print_range r : 0 <= start r <= end_ r -> end_ r < 2 ^ 64 ->
  parse_dmi_range (print_range r) = Some r.
Proof.
  intros H0 H1. unfold parse_dmi_range. rewrite (print_range_chars ":" r) by (lia || by left).
  unfold print_range at 1. rewrite find_char_app by (done || by apply print_u64_plain; lia).
  unfold print_range. destruct (take_drop_middle' (print_u64 (start r)) "-"%char (print_u64 (end_ r))) as [-> ->].
  rewrite !parse_print_u64 by (split; lia). replace (end_ r <? start r) with false by lia. by destruct r.
Qed.

Lemma find_char_first c s s' : find_char c s = None -> find_char c (s ++ c :: s') = Some (length s).
Proof.
  induction s as [|x s IH]; cbn [app find_char length]; intros H; [by rewrite Ascii.eqb_refl|].
  destruct (x =? c)%char; [done|]. destruct (find_char c s); [done|]. by rewrite IH.
Qed.

Definition no_space (s : text) : Prop := Forall (fun c => is_space c = false) s.

Lemma hex_char_no_space d : 0 <= d < 16 -> is_space (hex_char d) = false.
Proof.
  intros Hd. apply negb_true_iff. revert d Hd.
  apply (small_cases (fun d => negb (is_space (hex_char d)))). by vm_compute.
Qed.

Lemma print_u64_no_space n : 0 <= n -> no_space (print_u64 n).
Proof.
  intros Hn. do 2 (constructor; [done|]). revert n Hn. generalize 16%nat as fuel.
  induction fuel as [|fuel IH]; intros n Hn; cbn [hex]; [constructor|].
  destruct (Z.ltb_spec n 16); [by repeat constructor; apply hex_char_no_space|].
  apply Forall_app. split; [apply IH, Z.div_pos; lia|].
  repeat constructor. apply hex_char_no_space, Z.mod_pos_bound. lia.
Qed.

Lemma print_spec_no_space size rs : Forall (range_ok size) rs -> no_space (print_spec rs).
Proof.
  assert (forall r, range_ok size r -> no_space (print_range r)) as Hrange.
  { intros r [? ?]. apply Forall_app. split; [apply print_u64_no_space; lia|].
    constructor; [done|apply print_u64_no_space; lia]. }
  induction 1 as [|r rs Hr _ IH]; [constructor|]. destruct rs as [|r' rs]; [by apply Hrange|].
  apply Forall_app. split; [by apply Hrange|]. by constructor.
Qed.

Lemma remove_spaces_id s : no_space s -> remove_spaces s = s.
Proof.
  unfold remove_spaces. induction 1 as [|c s Hc _ IH]; [done|]. cbn [List.filter]. rewrite Hc. cbn [negb]. by rewrite IH.
Qed.

Lemma parse_print_spec size rs fuel : size < 2 ^ 64 -> rs <> [] -> Forall (range_ok size) rs ->
  (length (print_spec rs) < fuel)%nat -> parse_ranges fuel size (print_spec rs) = Some rs.
Proof.
  intros Hsize Hne Hrs. revert fuel. induction Hrs as [|r rs [Hr0 Hr1] _ IH]; intros fuel Hfuel; [done|].
  destruct fuel as [|fuel]; [lia|]. cbn [parse_ranges].
  assert (MkRange (start r) (Z.min (end_ r) (size - 1)) = r) as Ecut
    by (destruct r; cbn in *; f_equal; lia).
  assert (exists c s, print_range r = c :: s) as (c & s & Ep) by (by eexists _, _).
  pose proof (parse_print_range r ltac:(lia) ltac:(lia)) as Hp.
  destruct rs as [|r' rs].
  - cbn [print_spec]. rewrite print_range_chars by (lia || by right).
    rewrite Ep in Hp |- *. rewrite Hp. replace (size <=? start r) with false by lia. by rewrite Ecut.
  - change (print_spec (r :: r' :: rs)) with (print_range r ++ ","%char :: print_spec (r' :: rs)) in *.
    assert (find_char "," (print_range r ++ ","%char :: print_spec (r' :: rs)) = Some (length (print_range r))) as Ec.
    { apply find_char_first, print_range_chars; lia || by right. }
    rewrite Ec. destruct (take_drop_middle' (print_range r) ","%char (print_spec (r' :: rs))) as [-> ->].
    rewrite Ep in Hp |- *. rewrite Hp. replace (size <=? start r) with false by lia.
    rewrite Ecut, IH; [done|done|]. rewrite <-Ep in *. rewrite length_app in Hfuel. cbn [length] in Hfuel. lia.
Qed.

(** The DMI range parameter round-trips: the textual form of any
    non-empty list of ranges inside the array, with the numbers in hexadecimal,
    parses back to exactly that list. *)
Theorem flash_ranges_roundtrip size rs :
  size < 2 ^ 64 -> rs <> [] -> Forall (range_ok size) rs ->
  parse_spec size (remove_spaces (print_spec rs)) = Some rs.
Proof.
  intros Hsize Hne Hrs. rewrite remove_spaces_id by (by eapply print_spec_no_space).
  apply parse_print_spec; (done || lia).
Qed.

Lemma flash_ranges_roundtrip_witness :
  let rs := [MkRange 0x100 0x17f; MkRange 0x2000 0x3fff] in
  Forall (range_ok 0x10000) rs /\ parse_spec 0x10000 (remove_spaces (print_spec rs)) = Some rs.
Proof.
  cbv zeta. assert (Forall (range_ok 0x10000) [MkRange 0x100 0x17f; MkRange 0x2000 0x3fff]) as H
    by (repeat constructor; cbn; lia).
  split; [exact H|].
  pose proof (flash_ranges_roundtrip 0x10000 [MkRange 0x100 0x17f; MkRange 0x2000 0x3fff]
    ltac:(lia) ltac:(discriminate) H) as E.
  exact E.
Defined.
