(* ===== verification/Tlm.v ===== *)
(** Memory-mapped targets: TLM payloads, the contract of a register target, and
    the two shapes of [access] the peripherals are written in.

    A target keeps a state [St] and serves a generic payload through
    [access(trans, debug)], which returns whether it succeeded.  [TlmTarget]
    states what a target promises to its initiators; [word_access] and
    [regfile_access] are the two bodies of [access] found in the components,
    over the component's own [read32]/[write32], and are proved to keep the
    contract. *)

From S2P Require Import Prelude Bytes.

(** * Payloads *)

Inductive tlm_command := TLM_READ_COMMAND | TLM_WRITE_COMMAND | TLM_IGNORE_COMMAND.

Inductive tlm_response_status :=
| TLM_OK_RESPONSE
| TLM_INCOMPLETE_RESPONSE
| TLM_GENERIC_ERROR_RESPONSE
| TLM_ADDRESS_ERROR_RESPONSE
| TLM_COMMAND_ERROR_RESPONSE
| TLM_BURST_ERROR_RESPONSE
| TLM_BYTE_ENABLE_ERROR_RESPONSE.

#[export] Instance tlm_command_eq_dec : EqDecision tlm_command.
Proof. solve_decision. Defined.
#[export] Instance tlm_response_status_eq_dec : EqDecision tlm_response_status.
Proof. solve_decision. Defined.

(** The fields of [tlm::tlm_generic_payload] the components use.  The data
    pointer is [None] when null, otherwise the buffer it points to. *)
Record tlm_payload := Payload {
  command : tlm_command;
  address : Z;
  data_ptr : option (list Z);
  data_length : Z;
  response_status : tlm_response_status;
  dmi_allowed : bool
}.

#[export] Instance eta_tlm_payload : Eta tlm_payload := fun t =>
  Payload (command t) (address t) (data_ptr t) (data_length t) (response_status t)
    (dmi_allowed t).

Definition is_response_ok (t : tlm_payload) : bool :=
  match response_status t with TLM_OK_RESPONSE => true | _ => false end.

(** A payload an initiator may send: the buffer holds [data_length] bytes and
    the last byte address does not wrap around 2^64. *)
Definition payload_ok (t : tlm_payload) : Prop :=
  0 <= address t /\ is_u32 (data_length t) /\ address t + data_length t < 2 ^ 64 /\
  match data_ptr t with
  | Some d => data_length t <= Z.of_nat (length d) /\ bytes_ok d
  | None => True
  end.

(** [std::memcpy(trans.get_data_ptr(), src, n)]. *)
Definition put_data (bs d : list Z) : list Z := bs ++ drop (length bs) d.

(** The first [n] bytes of the buffer. *)
Definition get_data (n : Z) (d : list Z) : list Z := take (Z.to_nat n) d.

Lemma put_data_length bs d : (length bs <= length d)%nat -> length (put_data bs d) = length d.
Proof. intros H. unfold put_data. rewrite length_app, length_drop. lia. Qed.

Lemma put_data_all bs d : length bs = length d -> put_data bs d = bs.
Proof. intros H. unfold put_data. rewrite H, drop_all. apply app_nil_r. Qed.

Lemma put_data_ok bs d : bytes_ok bs -> bytes_ok d -> bytes_ok (put_data bs d).
Proof. intros. apply Forall_app_2; [done|by apply Forall_drop]. Qed.

Lemma get_data_length n d : 0 <= n <= Z.of_nat (length d) -> Z.of_nat (length (get_data n d)) = n.
Proof. intros H. unfold get_data. rewrite length_take. lia. Qed.

Lemma get_data_ok n d : bytes_ok d -> bytes_ok (get_data n d).
Proof. apply Forall_take. Qed.

(** Filling the first [data_length] bytes of the buffer keeps a payload valid. *)
Lemma payload_ok_put t d bs :
  payload_ok t -> data_ptr t = Some d -> Z.of_nat (length bs) = data_length t -> bytes_ok bs ->
  payload_ok (t <| data_ptr := Some (put_data bs d) |>).
Proof.
  intros (H0 & H1 & H2 & Hd) E Hl Hb. rewrite E in Hd. destruct Hd as [Hlen Hok].
  do 3 (split; [done|]). cbn. split; [rewrite put_data_length; lia|by apply put_data_ok].
Qed.

Lemma get_word_u32 t d : payload_ok t -> data_ptr t = Some d -> data_length t = 4 ->
  is_u32 (le_val (get_data 4 d)).
Proof.
  intros (_ & _ & _ & Hd) E El. rewrite E in Hd. destruct Hd as [Hlen Hok].
  pose proof (get_data_length 4 d ltac:(lia)) as Hl.
  pose proof (le_val_range _ (get_data_ok 4 d Hok)) as Hr. by rewrite Hl in Hr.
Qed.

Definition is_supported_length (len : Z) : bool :=
  (len =? 1) || (len =? 2) || (len =? 4) || (len =? 8).

Lemma supported_length_range len : is_supported_length len = true -> 1 <= len <= 8.
Proof. unfold is_supported_length. lia. Qed.

(** * The contract of a target *)

Class TlmTarget (St : Type) := {
  tlm_access : bool -> St -> tlm_payload -> St * tlm_payload * bool;
  (** What the target relies on and keeps. *)
  target_inv : St -> Prop;
  target_inv_access dbg s t s' t' ok :
    target_inv s -> payload_ok t -> tlm_access dbg s t = (s', t', ok) -> target_inv s';
  (** The result is what the response status says, and the status is always set. *)
  target_status dbg s t s' t' ok :
    tlm_access dbg s t = (s', t', ok) ->
    if ok then response_status t' = TLM_OK_RESPONSE
    else response_status t' = TLM_ADDRESS_ERROR_RESPONSE \/
         response_status t' = TLM_COMMAND_ERROR_RESPONSE;
  (** The target changes only the status and the bytes it was asked to read. *)
  target_frame dbg s t s' t' ok :
    tlm_access dbg s t = (s', t', ok) ->
    command t' = command t /\ address t' = address t /\ data_length t' = data_length t /\
    dmi_allowed t' = dmi_allowed t;
  target_payload_ok dbg s t s' t' ok :
    target_inv s -> payload_ok t -> tlm_access dbg s t = (s', t', ok) -> payload_ok t';
  target_write_data dbg s t s' t' ok :
    tlm_access dbg s t = (s', t', ok) -> command t = TLM_WRITE_COMMAND ->
    data_ptr t' = data_ptr t;
  (** A refused transaction has no effect. *)
  target_reject dbg s t s' t' :
    tlm_access dbg s t = (s', t', false) -> s' = s /\ data_ptr t' = data_ptr t
}.

(** [b_transport] and [transport_dbg] as every target defines them. *)
Definition target_b_transport {St} (access : bool -> St -> tlm_payload -> St * tlm_payload * bool)
    (s : St) (t : tlm_payload) : St * tlm_payload :=
  let '(s', t', _) := access false s (t <| dmi_allowed := false |>) in (s', t').

Definition target_transport_dbg {St} (access : bool -> St -> tlm_payload -> St * tlm_payload * bool)
    (s : St) (t : tlm_payload) : St * tlm_payload * Z :=
  let '(s', t', ok) := access true s t in (s', t', if ok then data_length t' else 0).

(** * Registers read and written as aligned words *)

(** The read loop: [while (remaining > 0)], each turn copying up to the end of
    the aligned word [cur] lies in. *)
Fixpoint read_chunks (fuel : nat) (read32 : Z -> Z) (cur remaining : Z) : list Z :=
  match fuel with
  | O => []
  | S fuel =>
      if 0 <? remaining then
        let value := read32 (Z.land cur (not64 3)) in
        let shift := Z.land cur 3 in
        let chunk := Z.min remaining (4 - shift) in
        take (Z.to_nat chunk) (drop (Z.to_nat shift) (le_bytes 4 value)) ++
        read_chunks fuel read32 (u64 (cur + chunk)) (remaining - chunk)
      else []
  end.

(** What the loop computes: byte [k] of the transfer is the byte of the aligned
    word that holds address [cur + k]. *)
Definition read_bytes_ref (read32 : Z -> Z) (cur n : Z) : list Z :=
  map (fun k => let a := cur + k in (read32 (a - a mod 4) / 2 ^ (8 * (a mod 4))) mod 256) (range n).

Lemma land_3 x : Z.land x 3 = x mod 4.
Proof. change 3 with (Z.ones 2). by rewrite Z.land_ones by lia. Qed.

Lemma land_not3 x : is_u64 x -> Z.land x (not64 3) = x - x mod 4.
Proof.
  intros Hx. rewrite land_cnot by (done || lia). change 3 with (Z.ones 2).
  rewrite Z.ldiff_ones_r by lia. rewrite Z.shiftl_mul_pow2, Z.shiftr_div_pow2 by lia.
  change (2 ^ 2) with 4. pose proof (Z.div_mod x 4). lia.
Qed.

Lemma word_slice_lookup v (s n k : nat) : (s + n <= 4)%nat -> (k < n)%nat ->
  take n (drop s (le_bytes 4 v)) !! k = Some ((v / 2 ^ (8 * Z.of_nat (s + k))) mod 256).
Proof.
  intros Hs Hk. rewrite lookup_take_lt by lia. rewrite lookup_drop.
  apply le_bytes_lookup. lia.
Qed.

Lemma read_bytes_ref_length rd cur n : 0 <= n -> Z.of_nat (length (read_bytes_ref rd cur n)) = n.
Proof. intros. unfold read_bytes_ref, range. rewrite length_map, length_seqZ. lia. Qed.

Lemma read_bytes_ref_lookup rd cur n (k : nat) : Z.of_nat k < n ->
  read_bytes_ref rd cur n !! k =
  Some (let a := cur + Z.of_nat k in (rd (a - a mod 4) / 2 ^ (8 * (a mod 4))) mod 256).
Proof.
  intros Hk. unfold read_bytes_ref, range. by rewrite list_lookup_fmap, lookup_seqZ_lt by lia.
Qed.

Lemma read_bytes_ref_app rd cur n m : 0 <= n -> 0 <= m ->
  read_bytes_ref rd cur (n + m) = read_bytes_ref rd cur n ++ read_bytes_ref rd (cur + n) m.
Proof.
  intros Hn Hm. apply list_eq. intros k.
  pose proof (read_bytes_ref_length rd cur n Hn) as Hln.
  pose proof (read_bytes_ref_length rd (cur + n) m Hm) as Hlm.
  pose proof (read_bytes_ref_length rd cur (n + m) ltac:(lia)) as Hlnm.
  destruct (Z.lt_ge_cases (Z.of_nat k) n); [|destruct (Z.lt_ge_cases (Z.of_nat k) (n + m))].
  - rewrite lookup_app_l by lia. by rewrite !read_bytes_ref_lookup by lia.
  - rewrite lookup_app_r by lia. rewrite !read_bytes_ref_lookup by lia.
    by replace (cur + n + Z.of_nat (k - _)) with (cur + Z.of_nat k) by lia.
  - rewrite !lookup_ge_None_2; [done| |]; rewrite ?length_app; lia.
Qed.

(** One turn of the loop copies a slice of one word. *)
Lemma read_chunk_ref rd cur n : is_u64 cur -> 0 <= n -> cur mod 4 + n <= 4 ->
  take (Z.to_nat n) (drop (Z.to_nat (cur mod 4)) (le_bytes 4 (rd (cur - cur mod 4)))) =
  read_bytes_ref rd cur n.
Proof.
  intros Hcur Hn Hle. pose proof (Z.mod_pos_bound cur 4 ltac:(lia)).
  apply (list_eq_same_length _ _ (Z.to_nat n)).
  - pose proof (read_bytes_ref_length rd cur n Hn). lia.
  - rewrite length_take, length_drop, le_bytes_length. lia.
  - intros k x y Hk Hx Hy. rewrite read_bytes_ref_lookup in Hy by lia.
    rewrite word_slice_lookup in Hx by lia. simplify_eq. cbv zeta.
    assert ((cur + Z.of_nat k) mod 4 = cur mod 4 + Z.of_nat k) as ->.
    { rewrite <-Z.add_mod_idemp_l by lia. apply Z.mod_small. lia. }
    replace (Z.of_nat (Z.to_nat (cur mod 4) + k)) with (cur mod 4 + Z.of_nat k) by lia.
    by replace (cur + Z.of_nat k - (cur mod 4 + Z.of_nat k)) with (cur - cur mod 4) by lia.
Qed.

Lemma read_chunks_spec rd fuel cur n : 0 <= cur -> 0 <= n -> cur + n < 2 ^ 64 ->
  (Z.to_nat n <= fuel)%nat -> read_chunks fuel rd cur n = read_bytes_ref rd cur n.
Proof.
  revert cur n. induction fuel as [|fuel IH]; intros cur n Hcur Hn Hlt Hfuel.
  { assert (n = 0) as -> by lia. done. }
  assert (is_u64 cur) by (split; lia). cbn [read_chunks].
  destruct (Z.ltb_spec 0 n); [|by assert (n = 0) as -> by lia].
  rewrite land_3, land_not3 by done. pose proof (Z.mod_pos_bound cur 4 ltac:(lia)).
  set (c := Z.min n (4 - cur mod 4)). assert (1 <= c <= n /\ cur mod 4 + c <= 4) by lia.
  rewrite wrap_small by (split; lia). rewrite IH by lia.
  rewrite read_chunk_ref by (done || lia). rewrite <-read_bytes_ref_app by lia.
  f_equal. lia.
Qed.

Lemma read_bytes_ref_ok rd cur n : bytes_ok (read_bytes_ref rd cur n).
Proof.
  apply Forall_fmap, Forall_true. intros k. apply (Z.mod_pos_bound _ 256). lia.
Qed.

(** An aligned 32-bit read returns the register. *)
Lemma read_bytes_ref_word rd off : off mod 4 = 0 ->
  read_bytes_ref rd off 4 = le_bytes 4 (rd off).
Proof.
  intros Hal. apply (list_eq_same_length _ _ 4); [by rewrite le_bytes_length|done|].
  intros k x y Hk Hx Hy. rewrite le_bytes_lookup in Hy by lia.
  rewrite read_bytes_ref_lookup in Hx by lia. simplify_eq. cbv zeta.
  assert ((off + Z.of_nat k) mod 4 = Z.of_nat k) as ->.
  { rewrite <-Z.add_mod_idemp_l by lia. rewrite Hal. apply Z.mod_small. lia. }
  by replace (off + Z.of_nat k - Z.of_nat k) with off by lia.
Qed.

(** * Reachable target states *)

(** The states a target can be brought to by valid transactions on its socket. *)
Inductive reachable {St} `{T : TlmTarget St} (s0 : St) : St -> Prop :=
| reachable_init : reachable s0 s0
| reachable_access dbg s t s' t' ok :
    reachable s0 s -> payload_ok t -> tlm_access dbg s t = (s', t', ok) -> reachable s0 s'.

Lemma reachable_inv {St} `{T : TlmTarget St} s0 s :
  target_inv s0 -> reachable s0 s -> target_inv s.
Proof. intros H0 Hr. induction Hr; [done|]. by eapply target_inv_access. Qed.

(** A write of the bytes [bs], and a read of [n] bytes, as transactions. *)
Definition write_bytes_txn (a : Z) (bs : list Z) : tlm_payload :=
  Payload TLM_WRITE_COMMAND a (Some bs) (Z.of_nat (length bs)) TLM_INCOMPLETE_RESPONSE false.
Definition write_txn (a v : Z) : tlm_payload := write_bytes_txn a (le_bytes 4 v).
Definition read_txn (a : Z) (n : nat) : tlm_payload :=
  Payload TLM_READ_COMMAND a (Some (replicate n 0)) (Z.of_nat n) TLM_INCOMPLETE_RESPONSE false.

Lemma write_bytes_txn_ok a bs : 0 <= a < 2 ^ 48 -> (length bs <= 8)%nat -> bytes_ok bs ->
  payload_ok (write_bytes_txn a bs).
Proof.
  intros Ha Hl Hb. unfold payload_ok, is_uint. cbn [address data_length data_ptr write_bytes_txn].
  split_and!; try lia. done.
Qed.

Lemma write_txn_ok a v : 0 <= a < 2 ^ 48 -> payload_ok (write_txn a v).
Proof. intros. apply write_bytes_txn_ok; [done|simpl; lia|apply le_bytes_ok]. Qed.

Lemma read_txn_ok a n : 0 <= a < 2 ^ 48 -> (n <= 8)%nat -> payload_ok (read_txn a n).
Proof.
  intros Ha Hn. unfold payload_ok, is_uint. cbn [address data_length data_ptr read_txn].
  split_and!; try lia; [by rewrite length_replicate|].
  apply Forall_replicate. by cbv.
Qed.
