(* ===== verification/Memory.v ===== *)
(** Memories behind an initiator socket.

    Devices with an [initiator_socket] (rse_kmu, dma350) read and write system
    memory through [b_transport].  [MemoryBus] states what they rely on: over the
    addresses the bus serves, a write stores the bytes and a read returns them.
    The contents are compared byte by byte ([mem_eq]), so a bus may represent
    them as it likes.  [ram] is a plain memory that keeps the contract. *)

From S2P Require Import Prelude Bytes Tlm.

(** * Contents up to representation *)

Definition mem_eq (m m' : mem) : Prop := forall i, mem_get m i = mem_get m' i.
Infix "≈" := mem_eq (at level 70) : model_scope.

#[export] Instance mem_eq_equivalence : Equivalence mem_eq.
Proof.
  split; [by intros m i|by intros m m' H i|by intros m m' m'' H H' i; rewrite H].
Qed.

#[export] Instance mem_get_proper : Proper (mem_eq ==> eq ==> eq) mem_get.
Proof. by intros m m' H i _ <-. Qed.

#[export] Instance mem_read_proper : Proper (mem_eq ==> eq ==> eq ==> eq) mem_read.
Proof. intros m m' H off _ <- n _ <-. apply mem_read_ext. intros k _. apply H. Qed.

#[export] Instance mem_write_proper : Proper (eq ==> eq ==> mem_eq ==> mem_eq) mem_write.
Proof.
  intros off _ <- bs _ <- m m' H i. rewrite !mem_get_write. by case_if; [|apply H].
Qed.

#[export] Instance load32_proper : Proper (mem_eq ==> eq ==> eq) load32.
Proof. intros m m' H off _ <-. unfold load32. by rewrite H. Qed.

(** Adjacent writes are one write. *)
Lemma mem_write_app off bs bs' m :
  mem_write (off + Z.of_nat (length bs)) bs' (mem_write off bs m) ≈ mem_write off (bs ++ bs') m.
Proof.
  intros i. rewrite !mem_get_write, length_app, Nat2Z.inj_add.
  destruct (Z.leb_spec off i); cbn [andb].
  - destruct (Z.ltb_spec i (off + Z.of_nat (length bs))).
    + replace (off + Z.of_nat (length bs) <=? i) with false by lia.
      replace (i <? off + (Z.of_nat (length bs) + Z.of_nat (length bs'))) with true by lia.
      replace (i <? off + Z.of_nat (length bs)) with true by lia. cbn [andb]. rewrite lookup_app_l by lia. done.
    + replace (off + Z.of_nat (length bs) <=? i) with true by lia. cbn [andb].
      replace (i <? off + (Z.of_nat (length bs) + Z.of_nat (length bs'))) with
        (i <? off + Z.of_nat (length bs) + Z.of_nat (length bs')) by lia.
      case_if; [|done]. rewrite lookup_app_r by lia. do 2 f_equal. lia.
  - by replace (off + Z.of_nat (length bs) <=? i) with false by lia.
Qed.

(** Writing back what was read elsewhere first. *)
Lemma mem_read_app m off n n' : 0 <= n -> 0 <= n' ->
  mem_read m off (n + n') = mem_read m off n ++ mem_read m (off + n) n'.
Proof.
  intros Hn Hn'. pose proof (mem_read_length m off n Hn). pose proof (mem_read_length m (off + n) n' Hn').
  pose proof (mem_read_length m off (n + n') ltac:(lia)).
  apply list_eq. intros k. destruct (Z.lt_ge_cases (Z.of_nat k) n).
  - rewrite lookup_app_l by lia. by rewrite !mem_read_lookup by lia.
  - rewrite lookup_app_r by lia. destruct (Z.lt_ge_cases (Z.of_nat k) (n + n')).
    + rewrite !mem_read_lookup by lia. do 2 f_equal. lia.
    + by rewrite !lookup_ge_None_2 by lia.
Qed.

(** * The contract *)

(** A transaction of [n] bytes at [a], as the devices build them. *)
Definition read_request (a n : Z) (d : list Z) : tlm_payload :=
  Payload TLM_READ_COMMAND a (Some d) n TLM_INCOMPLETE_RESPONSE false.
Definition write_request (a n : Z) (d : list Z) : tlm_payload :=
  Payload TLM_WRITE_COMMAND a (Some d) n TLM_INCOMPLETE_RESPONSE false.

Class MemoryBus (B : Type) {bus : TlmTarget B} := {
  bus_view : B -> mem;
  (** The addresses the bus serves. *)
  bus_serves : Z -> Prop;
  bus_write b a n d :
    0 < n <= Z.of_nat (length d) -> (forall k, 0 <= k < n -> bus_serves (a + k)) ->
    let '(b', t') := target_b_transport tlm_access b (write_request a n d) in
    is_response_ok t' = true /\ bus_view b' ≈ mem_write a (get_data n d) (bus_view b);
  bus_read b a n d :
    0 < n <= Z.of_nat (length d) -> (forall k, 0 <= k < n -> bus_serves (a + k)) ->
    let '(b', t') := target_b_transport tlm_access b (read_request a n d) in
    is_response_ok t' = true /\ bus_view b' ≈ bus_view b /\
    data_ptr t' = Some (put_data (mem_read (bus_view b) a n) d)
}.

(** * A plain memory *)

Ltac ram_cases t H :=
  destruct (data_ptr t) eqn:?; [destruct ((0 <=? address t) && _); [destruct (command t) eqn:?|]|];
  simplify_eq/=.

Section ram.
Context (size : Z).

Definition ram_access (dbg : bool) (m : mem) (t : tlm_payload) : mem * tlm_payload * bool :=
  match data_ptr t with
  | Some d =>
      if (0 <=? address t) && (address t + data_length t <=? size) then
        match command t with
        | TLM_READ_COMMAND =>
            (m, t <| data_ptr := Some (put_data (mem_read m (address t) (data_length t)) d) |>
                  <| response_status := TLM_OK_RESPONSE |>, true)
        | TLM_WRITE_COMMAND =>
            (mem_write (address t) (get_data (data_length t) d) m,
             t <| response_status := TLM_OK_RESPONSE |>, true)
        | TLM_IGNORE_COMMAND => (m, t <| response_status := TLM_COMMAND_ERROR_RESPONSE |>, false)
        end
      else (m, t <| response_status := TLM_ADDRESS_ERROR_RESPONSE |>, false)
  | None => (m, t <| response_status := TLM_ADDRESS_ERROR_RESPONSE |>, false)
  end.

Lemma ram_payload m t d : mem_ok size m -> payload_ok t -> data_ptr t = Some d ->
  payload_ok (t <| data_ptr := Some (put_data (mem_read m (address t) (data_length t)) d) |>).
Proof.
  intros Hm Ht E. pose proof Ht as (H0 & [H1 H1'] & H2 & _).
  apply payload_ok_put; [done|done|by apply mem_read_length|by eapply mem_read_ok].
Qed.

#[refine] Definition ram : TlmTarget mem := {| tlm_access := ram_access; target_inv := mem_ok size |}.
Proof.
  - intros dbg m t m' t' ok Hm Ht H. unfold ram_access in H.
    destruct (data_ptr t) as [d|] eqn:Ed; [|by simplify_eq]. case_if; [|by simplify_eq].
    destruct (command t); simplify_eq; try done.
    pose proof Ht as (H0 & [H1 _] & _ & Hd). rewrite Ed in Hd. destruct Hd.
    apply mem_ok_write; [done|by apply get_data_ok|done|rewrite get_data_length; lia].
  - intros dbg m t m' t' ok H. unfold ram_access in H. by ram_cases t H; auto.
  - intros dbg m t m' t' ok H. unfold ram_access in H. by ram_cases t H.
  - intros dbg m t m' t' ok Hm Ht H. unfold ram_access in H. ram_cases t H; try done.
    by eapply ram_payload.
  - intros dbg m t m' t' ok H Hc. unfold ram_access in H. rewrite Hc in H. by ram_cases t H.
  - intros dbg m t m' t' H. unfold ram_access in H. by ram_cases t H.
Defined.

#[refine] Definition ram_bus : MemoryBus mem (bus := ram) :=
  {| bus_view := id; bus_serves := fun i => 0 <= i < size |}.
Proof.
  all: intros m a n d Hn Hs; pose proof (Hs 0 ltac:(lia)); pose proof (Hs (n - 1) ltac:(lia));
    unfold target_b_transport, ram, tlm_access, ram_access; cbn;
    replace ((0 <=? a) && (a + n <=? size)) with true by lia; done.
Defined.
End ram.

(** * Words of a memory *)

Lemma le_bytes_load32 size m off : mem_ok size m -> le_bytes 4 (load32 m off) = mem_read m off 4.
Proof.
  intros Hm. pose proof (mem_read_length m off 4 ltac:(lia)).
  apply le_bytes_val; [by eapply mem_read_ok|lia].
Qed.

(** * Transfers over a memory bus *)

Lemma get_put_data bs d n : Z.of_nat (length bs) = n -> get_data n (put_data bs d) = bs.
Proof.
  intros Hn. unfold get_data, put_data. rewrite take_app_le by lia. apply take_ge. lia.
Qed.

(** A loop over memories respects representation. *)
Lemma foldl_mem_proper {A} (f : mem -> A -> mem) l m m' :
  (forall x m m', m ≈ m' -> f m x ≈ f m' x) -> m ≈ m' -> foldl f m l ≈ foldl f m' l.
Proof.
  intros Hf. revert m m'. induction l as [|x l IH]; intros m m' H; [done|]. apply IH. by apply Hf.
Qed.

(** Element [i] of a strided transfer goes from [src + i * sstep] to
    [dst + i * dstep]; elements move one after the other. *)
Definition copy_element (src dst sstep dstep width : Z) (m : mem) (i : Z) : mem :=
  mem_write (dst + i * dstep) (mem_read m (src + i * sstep) width) m.
Definition fill_element (dst dstep : Z) (pattern : list Z) (m : mem) (i : Z) : mem :=
  mem_write (dst + i * dstep) pattern m.

#[export] Instance copy_element_proper src dst sstep dstep width :
  Proper (mem_eq ==> eq ==> mem_eq) (copy_element src dst sstep dstep width).
Proof. intros m m' H i _ <-. unfold copy_element. by rewrite H. Qed.

#[export] Instance fill_element_proper dst dstep pattern :
  Proper (mem_eq ==> eq ==> mem_eq) (fill_element dst dstep pattern).
Proof. intros m m' H i _ <-. unfold fill_element. by rewrite H. Qed.

(** Copying adjacent elements one by one moves the block, when the destination
    does not lie ahead of the source within it. *)
Lemma copy_elements_block src dst width n m :
  0 <= width -> 0 <= n -> dst <= src \/ src + n * width <= dst ->
  foldl (copy_element src dst width width width) m (range n) ≈
  mem_write dst (mem_read m src (n * width)) m.
Proof.
  intros Hw Hn Hdis. apply (foldl_range_ind _ (fun k m' => m' ≈
    mem_write dst (mem_read m src (k * width)) m)); [done|done|].
  intros k m' Hk IH. unfold copy_element. rewrite IH at 2.
  assert (mem_read m' (src + k * width) width = mem_read m (src + k * width) width) as ->.
  { rewrite IH. apply mem_read_write_ne. rewrite mem_read_length by nia. nia. }
  replace ((k + 1) * width) with (k * width + width) by lia. rewrite mem_read_app by nia.
  rewrite <-mem_write_app, mem_read_length by nia. done.
Qed.

(** Filling adjacent elements writes the pattern repeated. *)
Lemma fill_elements_block dst width pattern whole n m :
  Z.of_nat (length pattern) = width -> 0 <= n ->
  (forall k, 0 <= k < n -> take (Z.to_nat width) (drop (Z.to_nat (k * width)) whole) = pattern) ->
  Z.of_nat (length whole) = n * width ->
  foldl (fill_element dst width pattern) m (range n) ≈ mem_write dst whole m.
Proof.
  intros Hw Hn Hpat Hlen.
  assert (foldl (fill_element dst width pattern) m (range n) ≈
          mem_write dst (take (Z.to_nat (n * width)) whole) m) as H.
  { apply (foldl_range_ind _ (fun k m' => m' ≈ mem_write dst (take (Z.to_nat (k * width)) whole) m)); [done|done|].
    intros k m' Hk IH. unfold fill_element. rewrite IH.
    replace (Z.to_nat ((k + 1) * width)) with (Z.to_nat (k * width) + Z.to_nat width)%nat by lia.
    rewrite <-take_take_drop, Hpat, <-mem_write_app by done. rewrite length_take.
    by replace (Z.of_nat (_ `min` _)) with (k * width) by nia. }
  rewrite H, take_ge by lia. done.
Qed.
