(* ===== verification/Access.v ===== *)
(** The two bodies of [access(trans, debug)] found in the peripherals, each
    proved to be a [TlmTarget].

    [word_access] (zena_fmu, zena_ssu) serves reads of any supported length from
    aligned 32-bit registers and applies only aligned 32-bit writes.
    [regfile_access] (rse_kmu, rse_atu, rse_lcm, rse_sam, ...) reads the byte
    array directly, passes aligned 32-bit writes to [write32] and copies every
    other write into the array. *)

From S2P Require Import Prelude Bytes Tlm.

(** [trans.set_response_status(r); return false] before any effect. *)
Definition refuse {St} (s : St) (t : tlm_payload) (r : tlm_response_status)
    : St * tlm_payload * bool :=
  (s, t <| response_status := r |>, false).

(** [trans.set_response_status(tlm::TLM_OK_RESPONSE); return true]. *)
Definition accept {St} (s : St) (t : tlm_payload) : St * tlm_payload * bool :=
  (s, t <| response_status := TLM_OK_RESPONSE |>, true).

(** Case analysis on an [access] body: the data pointer, the guards, the command. *)
Ltac access_cases t H :=
  unfold refuse, accept in H; destruct (data_ptr t) eqn:?; [|simplify_eq];
  repeat (case_if; [try (simplify_eq; fail 1)|]); try (destruct (command t) eqn:?);
  simplify_eq.

Section word_access.
Context {St : Type} (size : Z) (read32 : St -> Z -> Z) (write32 : Z -> Z -> St -> St)
  (trace : tlm_payload -> St -> St).

Definition word_access (dbg : bool) (s : St) (t : tlm_payload) : St * tlm_payload * bool :=
  let offset := address t in
  let len := data_length t in
  match data_ptr t with
  | None => refuse s t TLM_ADDRESS_ERROR_RESPONSE
  | Some data =>
      if negb (is_supported_length len) || (size <? u64 (offset + len))
      then refuse s t TLM_ADDRESS_ERROR_RESPONSE
      else
        match command t with
        | TLM_READ_COMMAND =>
            let bs := read_chunks (Z.to_nat len) (read32 s) offset len in
            let t := t <| data_ptr := Some (put_data bs data) |> in
            accept (trace t s) t
        | TLM_WRITE_COMMAND =>
            let s :=
              if (len =? 4) && (Z.land offset 3 =? 0)
              then write32 offset (le_val (get_data 4 data)) s else s in
            accept (trace t s) t
        | TLM_IGNORE_COMMAND => refuse s t TLM_COMMAND_ERROR_RESPONSE
        end
  end.

(** The register write a transaction makes, if it is one. *)
Definition word_write (t : tlm_payload) : option (Z * Z) :=
  match data_ptr t, command t with
  | Some d, TLM_WRITE_COMMAND =>
      if (data_length t =? 4) && (Z.land (address t) 3 =? 0) && (u64 (address t + 4) <=? size)
      then Some (address t, le_val (get_data 4 d)) else None
  | _, _ => None
  end.

(** Transactions act through [write32] alone; the trace hook sees the rest. *)
Lemma word_access_effect dbg s t s' t' ok :
  word_access dbg s t = (s', t', ok) ->
  exists u, s' = match word_write t with Some (a, v) => write32 a v s | None => s end \/
            s' = trace u (match word_write t with Some (a, v) => write32 a v s | None => s end).
Proof.
  unfold word_access, word_write, refuse, accept. intros H.
  destruct (data_ptr t) as [d|]; [|simplify_eq; exists t; by left].
  destruct (_ || _) eqn:Eg.
  - simplify_eq. exists t. left. destruct (command t); try done.
    destruct (Z.eqb_spec (data_length t) 4) as [El|]; [|done]. rewrite El in Eg. cbn in Eg.
    destruct (Z.land (address t) 3 =? 0); [|done]. cbn [andb].
    by replace (_ <=? size) with false by lia.
  - bool_hyps. destruct (command t); simplify_eq; [eexists; by right| |exists t; by left].
    exists t. right. destruct (Z.eqb_spec (data_length t) 4) as [El|]; [|done]. rewrite El in *.
    cbn [andb]. replace (u64 _ <=? size) with true by lia. by rewrite andb_true_r; destruct (_ =? 0).
Qed.

Context (inv : St -> Prop).
Hypothesis inv_write32 : forall offset v s,
  0 <= offset -> is_u32 v -> inv s -> inv (write32 offset v s).
Hypothesis inv_trace : forall t s, inv s -> inv (trace t s).

(** The three outcomes of [word_access]. *)
Lemma word_access_cases dbg s t s' t' ok :
  word_access dbg s t = (s', t', ok) ->
  (ok = false /\ s' = s /\
   exists r, (r = TLM_ADDRESS_ERROR_RESPONSE \/ r = TLM_COMMAND_ERROR_RESPONSE) /\
             t' = t <| response_status := r |>) \/
  (exists d, ok = true /\ data_ptr t = Some d /\ command t = TLM_READ_COMMAND /\
     is_supported_length (data_length t) = true /\ u64 (address t + data_length t) <= size /\
     let u := t <| data_ptr := Some (put_data
                (read_chunks (Z.to_nat (data_length t)) (read32 s) (address t) (data_length t)) d) |> in
     s' = trace u s /\ t' = u <| response_status := TLM_OK_RESPONSE |>) \/
  (exists d, ok = true /\ data_ptr t = Some d /\ command t = TLM_WRITE_COMMAND /\
     is_supported_length (data_length t) = true /\ u64 (address t + data_length t) <= size /\
     s' = trace t (if (data_length t =? 4) && (Z.land (address t) 3 =? 0)
                   then write32 (address t) (le_val (get_data 4 d)) s else s) /\
     t' = t <| response_status := TLM_OK_RESPONSE |>).
Proof.
  unfold word_access, refuse, accept. intros H.
  destruct (data_ptr t) as [d|] eqn:Ed; [|left; simplify_eq; eauto 7].
  destruct (_ || _) eqn:Eg; [left; simplify_eq; eauto 7|]. bool_hyps.
  assert (u64 (address t + data_length t) <= size) by lia.
  destruct (command t) eqn:Ec; simplify_eq; [right; left|right; right|left]; eauto 12.
Qed.

Lemma word_read_payload t d s : payload_ok t -> data_ptr t = Some d ->
  payload_ok (t <| data_ptr := Some (put_data
    (read_chunks (Z.to_nat (data_length t)) (read32 s) (address t) (data_length t)) d) |>).
Proof.
  intros Ht E. pose proof Ht as (H0 & [H1 H1'] & H2 & _). rewrite read_chunks_spec by lia.
  apply payload_ok_put; [done|done|by apply read_bytes_ref_length|apply read_bytes_ref_ok].
Qed.

#[refine] Definition word_target : TlmTarget St :=
  {| tlm_access := word_access; target_inv := inv |}.
Proof.
  - intros dbg s t s' t' ok Hinv Ht H.
    destruct (word_access_cases _ _ _ _ _ _ H)
      as [(-> & -> & _)|[(d & -> & Ed & _ & _ & _ & -> & _)|(d & -> & Ed & _ & _ & _ & -> & _)]];
      [done|by apply inv_trace|]. apply inv_trace. case_if; [|done].
    apply inv_write32; [apply Ht| |done]. bool_hyps. by apply (get_word_u32 t).
  - intros dbg s t s' t' ok H.
    by destruct (word_access_cases _ _ _ _ _ _ H)
      as [(-> & _ & r & Hr & ->)|[(d & -> & Ed & _ & _ & _ & _ & ->)|(d & -> & Ed & _ & _ & _ & _ & ->)]].
  - intros dbg s t s' t' ok H.
    by destruct (word_access_cases _ _ _ _ _ _ H)
      as [(-> & _ & r & Hr & ->)|[(d & -> & Ed & _ & _ & _ & _ & ->)|(d & -> & Ed & _ & _ & _ & _ & ->)]].
  - intros dbg s t s' t' ok Hinv Ht H.
    destruct (word_access_cases _ _ _ _ _ _ H)
      as [(-> & _ & r & Hr & ->)|[(d & -> & Ed & _ & _ & _ & _ & ->)|(d & -> & Ed & _ & _ & _ & _ & ->)]];
      [done| |done]. apply (word_read_payload t d s Ht Ed).
  - intros dbg s t s' t' ok H Hc.
    by destruct (word_access_cases _ _ _ _ _ _ H)
      as [(-> & _ & r & Hr & ->)|[(d & -> & Ed & Hr & _)|(d & -> & Ed & _ & _ & _ & _ & ->)]];
      [|congruence|].
  - intros dbg s t s' t' H.
    by destruct (word_access_cases _ _ _ _ _ _ H)
      as [(_ & -> & r & Hr & ->)|[(d & ? & _)|(d & ? & _)]].
Defined.

(** An aligned 32-bit read of a register inside the window returns it. *)
Lemma word_access_read32 dbg s t d :
  payload_ok t -> data_ptr t = Some d -> command t = TLM_READ_COMMAND ->
  data_length t = 4 -> address t mod 4 = 0 -> address t + 4 <= size ->
  exists s', word_access dbg s t =
    (s', t <| data_ptr := Some (put_data (le_bytes 4 (read32 s (address t))) d) |>
           <| response_status := TLM_OK_RESPONSE |>, true).
Proof.
  intros (H0 & H1 & H2 & Hd) Ed Ec El Hal Hsz. unfold word_access, accept.
  rewrite Ed, Ec, El in *. rewrite wrap_small by (split; lia).
  replace (size <? _) with false by lia. cbn [is_supported_length negb orb Z.eqb].
  rewrite read_chunks_spec by lia. rewrite read_bytes_ref_word by done. eauto.
Qed.
End word_access.

Section array_access.
Context {St : Type} (size : Z) (regs : St -> mem) (write_data : bool -> Z -> Z -> list Z -> St -> St)
  (trace : tlm_payload -> St -> St).

Definition array_access (dbg : bool) (s : St) (t : tlm_payload) : St * tlm_payload * bool :=
  let offset := address t in
  let len := data_length t in
  match data_ptr t with
  | None => refuse s t TLM_ADDRESS_ERROR_RESPONSE
  | Some data =>
      if negb (is_supported_length len) || (size <? u64 (offset + len))
      then refuse s t TLM_ADDRESS_ERROR_RESPONSE
      else
        match command t with
        | TLM_READ_COMMAND =>
            let t := t <| data_ptr := Some (put_data (mem_read (regs s) offset len) data) |> in
            accept (trace t s) t
        | TLM_WRITE_COMMAND => accept (trace t (write_data dbg offset len data s)) t
        | TLM_IGNORE_COMMAND => refuse s t TLM_COMMAND_ERROR_RESPONSE
        end
  end.

Lemma array_access_cases dbg s t s' t' ok :
  array_access dbg s t = (s', t', ok) ->
  (ok = false /\ s' = s /\
   exists r, (r = TLM_ADDRESS_ERROR_RESPONSE \/ r = TLM_COMMAND_ERROR_RESPONSE) /\
             t' = t <| response_status := r |>) \/
  (exists d, ok = true /\ data_ptr t = Some d /\ command t = TLM_READ_COMMAND /\
     is_supported_length (data_length t) = true /\ u64 (address t + data_length t) <= size /\
     let u := t <| data_ptr := Some (put_data (mem_read (regs s) (address t) (data_length t)) d) |> in
     s' = trace u s /\ t' = u <| response_status := TLM_OK_RESPONSE |>) \/
  (exists d, ok = true /\ data_ptr t = Some d /\ command t = TLM_WRITE_COMMAND /\
     is_supported_length (data_length t) = true /\ u64 (address t + data_length t) <= size /\
     s' = trace t (write_data dbg (address t) (data_length t) d s) /\
     t' = t <| response_status := TLM_OK_RESPONSE |>).
Proof.
  unfold array_access, refuse, accept. intros H.
  destruct (data_ptr t) as [d|] eqn:Ed; [|left; simplify_eq; eauto 7].
  destruct (_ || _) eqn:Eg; [left; simplify_eq; eauto 7|]. bool_hyps.
  assert (u64 (address t + data_length t) <= size) by lia.
  destruct (command t) eqn:Ec; simplify_eq; [right; left|right; right|left]; eauto 12.
Qed.

Context (inv : St -> Prop).
Hypothesis size_small : size < 2 ^ 32.
Hypothesis inv_regs : forall s, inv s -> mem_ok size (regs s).
Hypothesis inv_write_data : forall dbg offset len d s,
  inv s -> 0 <= offset -> offset + len <= size -> is_supported_length len = true ->
  len <= Z.of_nat (length d) -> bytes_ok d -> inv (write_data dbg offset len d s).
Hypothesis inv_trace : forall t s, inv s -> inv (trace t s).

(** The range check keeps every access inside the array. *)
Lemma access_in_range t : payload_ok t -> u64 (address t + data_length t) <= size ->
  0 <= address t /\ address t + data_length t <= size.
Proof. intros (H0 & [H1 _] & H2 & _) H. rewrite wrap_small in H by (split; lia). done. Qed.

Lemma array_access_inv dbg s t s' t' ok :
  inv s -> payload_ok t -> array_access dbg s t = (s', t', ok) -> inv s'.
Proof.
  intros Hinv Ht H.
  destruct (array_access_cases _ _ _ _ _ _ H)
    as [(-> & -> & _)|[(d & -> & Ed & _ & _ & _ & -> & _)|(d & -> & Ed & _ & Hl & Hsz & -> & _)]];
    [done|by apply inv_trace|]. apply inv_trace. destruct (access_in_range t Ht Hsz).
  destruct Ht as (_ & _ & _ & Hd). rewrite Ed in Hd. destruct Hd. by apply inv_write_data.
Qed.

Lemma array_read_payload s t d : inv s -> payload_ok t -> data_ptr t = Some d ->
  payload_ok (t <| data_ptr := Some (put_data (mem_read (regs s) (address t) (data_length t)) d) |>).
Proof.
  intros Hinv Ht E. pose proof Ht as (H0 & [H1 H1'] & H2 & _).
  apply payload_ok_put; [done|done|by apply mem_read_length|by eapply mem_read_ok, inv_regs].
Qed.

#[refine] Definition array_target : TlmTarget St :=
  {| tlm_access := array_access; target_inv := inv |}.
Proof.
  - apply array_access_inv.
  - intros dbg s t s' t' ok H.
    by destruct (array_access_cases _ _ _ _ _ _ H)
      as [(-> & _ & r & Hr & ->)|[(d & -> & Ed & _ & _ & _ & _ & ->)|(d & -> & Ed & _ & _ & _ & _ & ->)]].
  - intros dbg s t s' t' ok H.
    by destruct (array_access_cases _ _ _ _ _ _ H)
      as [(-> & _ & r & Hr & ->)|[(d & -> & Ed & _ & _ & _ & _ & ->)|(d & -> & Ed & _ & _ & _ & _ & ->)]].
  - intros dbg s t s' t' ok Hinv Ht H.
    destruct (array_access_cases _ _ _ _ _ _ H)
      as [(-> & _ & r & Hr & ->)|[(d & -> & Ed & _ & _ & _ & _ & ->)|(d & -> & Ed & _ & _ & _ & _ & ->)]];
      [done| |done]. apply (array_read_payload s t d Hinv Ht Ed).
  - intros dbg s t s' t' ok H Hc.
    by destruct (array_access_cases _ _ _ _ _ _ H)
      as [(-> & _ & r & Hr & ->)|[(d & -> & Ed & Hr & _)|(d & -> & Ed & _ & _ & _ & _ & ->)]];
      [|congruence|].
  - intros dbg s t s' t' H.
    by destruct (array_access_cases _ _ _ _ _ _ H)
      as [(_ & -> & r & Hr & ->)|[(d & ? & _)|(d & ? & _)]].
Defined.
End array_access.

Section regfile_access.
Context {St : Type} (size : Z) (regs : St -> mem) (set_regs : (mem -> mem) -> St -> St)
  (write32 : Z -> Z -> St -> St) (trace : tlm_payload -> St -> St).

(** Aligned 32-bit writes are register writes, all others land in the array. *)
Definition regfile_write (offset len : Z) (data : list Z) (s : St) : St :=
  if (len =? 4) && (offset mod 4 =? 0)
  then write32 (u32 offset) (le_val (get_data 4 data)) s
  else set_regs (mem_write offset (get_data len data)) s.

Definition regfile_access : bool -> St -> tlm_payload -> St * tlm_payload * bool :=
  array_access size regs (fun _ => regfile_write) trace.

(** An aligned word written through the socket is a register write. *)
Lemma regfile_write_word s off v : size < 2 ^ 32 -> 0 <= off -> off mod 4 = 0 -> off + 4 <= size -> is_u32 v ->
  exists u, fst (target_b_transport regfile_access s (write_txn off v)) = trace u (write32 off v s).
Proof.
  intros Hs H0 Hal H1 Hv. exists ((write_txn off v) <| dmi_allowed := false |>).
  unfold target_b_transport, regfile_access, array_access, accept.
  change (data_ptr (_ <| dmi_allowed := false |>)) with (Some (le_bytes 4 v)).
  change (data_length (_ <| dmi_allowed := false |>)) with 4.
  change (address (_ <| dmi_allowed := false |>)) with off.
  change (command (_ <| dmi_allowed := false |>)) with TLM_WRITE_COMMAND. cbv zeta.
  rewrite (wrap_small 64) by (split; lia). change (negb (is_supported_length 4)) with false.
  replace (size <? off + 4) with false by lia. cbn [orb fst].
  unfold regfile_write. rewrite Hal. cbn [Z.eqb Pos.eqb andb].
  change (get_data 4 (le_bytes 4 v)) with (le_bytes 4 v). rewrite le_val_bytes. change (8 * Z.of_nat 4) with 32.
  by rewrite !wrap_small by (done || split; lia).
Qed.

Context (inv : St -> Prop).
Hypothesis size_small : size < 2 ^ 32.
Hypothesis inv_regs : forall s, inv s -> mem_ok size (regs s).
Hypothesis inv_write32 : forall offset v s,
  0 <= offset -> offset mod 4 = 0 -> offset + 4 <= size -> is_u32 v -> inv s ->
  inv (write32 offset v s).
Hypothesis inv_set_regs : forall f s,
  inv s -> (forall m, mem_ok size m -> mem_ok size (f m)) -> inv (set_regs f s).
Hypothesis inv_trace : forall t s, inv s -> inv (trace t s).

Lemma get_word_bytes d : 4 <= Z.of_nat (length d) -> bytes_ok d -> is_u32 (le_val (get_data 4 d)).
Proof.
  intros Hl Hd. pose proof (get_data_length 4 d ltac:(lia)) as Hn.
  pose proof (le_val_range _ (get_data_ok 4 d Hd)) as Hr. by rewrite Hn in Hr.
Qed.

Lemma regfile_write_inv offset len d s :
  inv s -> 0 <= offset -> offset + len <= size -> is_supported_length len = true ->
  len <= Z.of_nat (length d) -> bytes_ok d -> inv (regfile_write offset len d s).
Proof.
  intros Hs H0 H1 Hlen Hd Hok. unfold regfile_write. case_if; bool_hyps.
  - rewrite wrap_small by (split; lia). apply inv_write32; try done; [lia|].
    apply get_word_bytes; [lia|done].
  - apply inv_set_regs; [done|]. intros m Hm. apply supported_length_range in Hlen.
    apply mem_ok_write; [done|by apply get_data_ok|done|]. rewrite get_data_length; lia.
Qed.

Definition regfile_target : TlmTarget St :=
  array_target size regs (fun _ => regfile_write) trace inv inv_regs (fun _ => regfile_write_inv) inv_trace.
End regfile_access.
