(* ===== verification/ZenaFmu.v ===== *)
(** The fault management unit [zena_fmu]
    (systemc-components/zena_fmu/include/zena_fmu.h): up to eight banks of up to
    384 error records behind a one-shot unlock key, two level interrupts derived
    from the valid records. *)

From S2P Require Import Prelude Bytes Tlm Access.

(** * Constants *)

Definition MAX_BANKS : Z := 8.
Definition MAX_RECORDS : Z := 384.
Definition BANK_BYTES : Z := 0x10000.
Definition RECORD_STRIDE : Z := 0x40.
Definition RECORD_SPACE_BYTES : Z := 0x6000.
Definition ERR_FR_OFFSET : Z := 0x0.
Definition ERR_CTLR_OFFSET : Z := 0x8.
Definition ERR_STATUS_OFFSET : Z := 0x10.
Definition ERR_IMPDEF_BASE : Z := 0x8000.
Definition ERR_IMPDEF_STRIDE : Z := 0x8.
Definition SYS_KEY : Z := 0x8bfc.
Definition ERRGSR_LOW_BASE : Z := 0xe000.
Definition ERRGSR_HIGH_BASE : Z := 0xe004.
Definition ERRGSR_STRIDE : Z := 0x8.
Definition PIDR4 : Z := 0xffd0.
Definition PIDR0 : Z := 0xffe0.
Definition PIDR1 : Z := 0xffe4.
Definition PIDR2 : Z := 0xffe8.
Definition PIDR3 : Z := 0xffec.
Definition CIDR0 : Z := 0xfff0.
Definition CIDR1 : Z := 0xfff4.
Definition CIDR2 : Z := 0xfff8.
Definition CIDR3 : Z := 0xfffc.

Definition SYS_KEY_VALUE : Z := 0xbe.
Definition CTLR_ED : Z := bit 0.
Definition CTLR_FI : Z := bit 3.
Definition CTLR_UE : Z := bit 4.
Definition CTLR_CFI : Z := bit 8.
Definition CTLR_CI : Z := bit 13.
Definition CTLR_RW_MASK : Z :=
  Z.lor CTLR_ED (Z.lor CTLR_FI (Z.lor CTLR_UE (Z.lor CTLR_CFI CTLR_CI))).

Definition STATUS_SERR_MASK : Z := 0x000000ff.
Definition STATUS_IERR_MASK : Z := 0x00001f00.
Definition STATUS_CI : Z := bit 19.
Definition STATUS_CE_MASK : Z := 0x03000000.
Definition STATUS_OF : Z := bit 27.
Definition STATUS_UE : Z := bit 29.
Definition STATUS_V : Z := bit 30.
Definition STATUS_RW_WHEN_VALID_MASK : Z := Z.lor STATUS_SERR_MASK STATUS_IERR_MASK.
Definition STATUS_W1C_MASK : Z :=
  Z.lor STATUS_V (Z.lor STATUS_UE (Z.lor STATUS_OF (Z.lor STATUS_CE_MASK STATUS_CI))).
Definition STATUS_IERR_APB_SW : Z := bit 8.
Definition STATUS_IERR_INC_SEQ : Z := bit 9.
Definition STATUS_IERR_ERR_IN : Z := bit 12.
Definition STATUS_SERR_SW : Z := bit 0.

Definition IMPDEF_UE : Z := bit 0.
Definition IMPDEF_DE_MASK : Z := 0x000001f0.
Definition IMPDEF_IE_MASK : Z := 0x00003e00.
Definition IMPDEF_IC_MASK : Z := 0x0000000c.
Definition IMPDEF_STORED_MASK : Z := 0xffff01f1.

(** * State *)

(** [zena_fmu.h: Bank] *)
Record Bank := MkBank {
  ctlr : list Z;
  status : list Z;
  impdef : list Z;
  unlocked : bool
}.

#[export] Instance eta_Bank : Eta Bank := fun b =>
  MkBank (ctlr b) (status b) (impdef b) (unlocked b).

(** A value written on one of the four output sockets. *)
(** [zena_fmu.h: "InitiatorSignalSocket<bool> critical_irq" .. "InitiatorSignalSocket<bool> non_critical_ssu"] output sockets *)
Inductive fmu_signal :=
| critical_irq (v : bool)
| critical_ssu (v : bool)
| non_critical_irq (v : bool)
| non_critical_ssu (v : bool).

(** The configuration parameters, and which output sockets are bound. *)
(** [zena_fmu.h: "cci_param<bool> p_trace;" .. "p_cidr3;"] cci parameters *)
Record fmu_config := {
  p_trace : bool;
  p_trace_limit : Z;
  p_enforce_sys_key : bool;
  p_bank_count : Z;
  p_record_count : Z;
  p_critical_mask : Z;
  p_non_critical_mask : Z;
  p_default_ctlr : Z;
  p_pidr4 : Z; p_pidr0 : Z; p_pidr1 : Z; p_pidr2 : Z; p_pidr3 : Z;
  p_cidr0 : Z; p_cidr1 : Z; p_cidr2 : Z; p_cidr3 : Z;
  critical_irq_bound : bool;
  critical_ssu_bound : bool;
  non_critical_irq_bound : bool;
  non_critical_ssu_bound : bool
}.

(** [zena_fmu.h: "m_banks {};" .. "m_non_critical_irq = false"] member variables; [m_signals] logs the socket writes *)
Record zena_fmu := MkFmu {
  m_banks : list Bank;
  m_trace_count : Z;
  m_critical_irq : bool;
  m_non_critical_irq : bool;
  m_signals : list fmu_signal
}.

#[export] Instance eta_zena_fmu : Eta zena_fmu := fun s =>
  MkFmu (m_banks s) (m_trace_count s) (m_critical_irq s) (m_non_critical_irq s) (m_signals s).

Definition empty_bank : Bank := MkBank [] [] [] false.

(** [m_banks[i]], and the update of a [Bank&]. *)
Definition get_bank (s : zena_fmu) (i : Z) : Bank := default empty_bank (m_banks s !! Z.to_nat i).
Definition upd_bank (i : Z) (f : Bank -> Bank) (s : zena_fmu) : zena_fmu :=
  s <| m_banks ::= alter f (Z.to_nat i) |>.

Section zena_fmu.
Context (cfg : fmu_config).

(** [zena_fmu.h: bank_count] *)
Definition bank_count : Z := Z.min (p_bank_count cfg) MAX_BANKS.

(** [zena_fmu.h: record_count] *)
Definition record_count : Z := Z.min (p_record_count cfg) MAX_RECORDS.

(** [zena_fmu.h: decode] *)
Definition decode (offset : Z) : option (Z * Z) :=
  let bank := u32 (offset / BANK_BYTES) in
  let reg := u32 (offset mod BANK_BYTES) in
  if bank <? bank_count then Some (bank, reg) else None.

(** [zena_fmu.h: decode_record] *)
Definition decode_record (reg : Z) : option (Z * Z) :=
  if RECORD_SPACE_BYTES <=? reg then None
  else
    let index := reg / RECORD_STRIDE in
    let field := reg mod RECORD_STRIDE in
    if index <? record_count then Some (index, field) else None.

(** [zena_fmu.h: decode_impdef] *)
Definition decode_impdef (reg : Z) : option Z :=
  if reg <? ERR_IMPDEF_BASE then None
  else
    let rel := reg - ERR_IMPDEF_BASE in
    if negb (rel mod ERR_IMPDEF_STRIDE =? 0) then None
    else
      let index := rel / ERR_IMPDEF_STRIDE in
      if index <? record_count then Some index else None.

(** [zena_fmu.h: default_impdef] *)
Definition default_impdef (index : Z) : Z :=
  if index =? MAX_RECORDS - 1 then 0x00000070 else 0x00000180.

(** [zena_fmu.h: is_critical_record] *)
Definition is_critical_record (index : Z) : bool :=
  if index <? 64 then test (p_critical_mask cfg) (bit index) else false.

(** [zena_fmu.h: is_non_critical_record] *)
Definition is_non_critical_record (index : Z) : bool :=
  if is_critical_record index then false
  else if index <? 64 then test (p_non_critical_mask cfg) (bit index)
  else true.

(** One turn of the inner loop of [update_irqs]. *)
(** [zena_fmu.h: "if ((bank.status[index] & STATUS_V) == 0)" .. "non_critical = true"] update_irqs, loop body *)
Definition irq_step (b : Bank) (acc : bool * bool) (index : Z) : bool * bool :=
  let '(critical, non_critical) := acc in
  if Z.land (arr_get (status b) index) STATUS_V =? 0 then (critical, non_critical)
  else
    (if is_critical_record index && test (arr_get (ctlr b) index) CTLR_CI
     then true else critical,
     if is_non_critical_record index &&
        test (arr_get (ctlr b) index) (Z.lor CTLR_FI (Z.lor CTLR_UE CTLR_CFI))
     then true else non_critical).

(** [zena_fmu.h: "bool critical = false;" .. "if (critical != m_critical_irq"] update_irqs, both loops *)
Definition irq_levels (s : zena_fmu) : bool * bool :=
  foldl (fun acc bank_index =>
           foldl (irq_step (get_bank s bank_index)) acc (range record_count))
    (false, false) (range bank_count).

(** [zena_fmu.h: emit_irqs] *)
Definition emit_irqs (s : zena_fmu) : zena_fmu :=
  s <| m_signals ::= fun log => log ++
    (if critical_irq_bound cfg then [critical_irq (m_critical_irq s)] else []) ++
    (if critical_ssu_bound cfg then [critical_ssu (m_critical_irq s)] else []) ++
    (if non_critical_irq_bound cfg then [non_critical_irq (m_non_critical_irq s)] else []) ++
    (if non_critical_ssu_bound cfg then [non_critical_ssu (m_non_critical_irq s)] else []) |>.

(** [zena_fmu.h: update_irqs] *)
Definition update_irqs (s : zena_fmu) : zena_fmu :=
  let '(critical, non_critical) := irq_levels s in
  if negb (eqb critical (m_critical_irq s)) || negb (eqb non_critical (m_non_critical_irq s))
  then emit_irqs (s <| m_critical_irq := critical |> <| m_non_critical_irq := non_critical |>)
  else s.

(** [zena_fmu.h: set_sequence_error] *)
Definition set_sequence_error (bank : Z) (s : zena_fmu) : zena_fmu :=
  let rec := if record_count =? 0 then 0 else record_count - 1 in
  update_irqs (upd_bank bank (fun b =>
    b <| status ::= fun st =>
      arr_set rec (Z.lor (arr_get st rec)
        (Z.lor STATUS_V (Z.lor STATUS_IERR_INC_SEQ STATUS_SERR_SW))) st |>) s).

(** [zena_fmu.h: require_unlock] *)
Definition require_unlock (bank : Z) (s : zena_fmu) : bool * zena_fmu :=
  if negb (p_enforce_sys_key cfg) then (true, s)
  else if unlocked (get_bank s bank) then
    (true, upd_bank bank (fun b => b <| unlocked := false |>) s)
  else (false, set_sequence_error bank s).

(** [zena_fmu.h: set_software_error] *)
Definition set_software_error (bank index : Z) (critical : bool) (s : zena_fmu) : zena_fmu :=
  let st := Z.lor STATUS_V (Z.lor STATUS_IERR_ERR_IN STATUS_SERR_SW) in
  let st := if critical then Z.lor st STATUS_CI else Z.lor st STATUS_UE in
  update_irqs (upd_bank bank (fun b =>
    b <| status ::= fun a => arr_set index (Z.lor (arr_get a index) st) a |>) s).

(** The status word [clear_record_status] stores. *)
(** [zena_fmu.h: "uint32_t status = bank.status[index];" .. "bank.status[index] = status;"] clear_record_status, new value *)
Definition cleared_status (status value : Z) : Z :=
  let status := Z.land status (not32 (Z.land value STATUS_W1C_MASK)) in
  if test status STATUS_V then
    Z.lor (Z.land status (not32 STATUS_RW_WHEN_VALID_MASK))
          (Z.land value STATUS_RW_WHEN_VALID_MASK)
  else status.

(** [zena_fmu.h: clear_record_status] *)
Definition clear_record_status (bank index value : Z) (s : zena_fmu) : zena_fmu :=
  update_irqs (upd_bank bank (fun b =>
    b <| status ::= fun a => arr_set index (cleared_status (arr_get a index) value) a |>) s).

(** [zena_fmu.h: write_ctlr] *)
Definition write_ctlr (bank index value : Z) (s : zena_fmu) : zena_fmu :=
  update_irqs (upd_bank bank (fun b =>
    b <| ctlr ::= fun a => arr_set index
           (Z.lor (Z.land (arr_get a index) (not32 CTLR_RW_MASK))
                  (Z.land value CTLR_RW_MASK)) a |>) s).

(** [zena_fmu.h: write_impdef] *)
Definition write_impdef (bank index value : Z) (s : zena_fmu) : zena_fmu :=
  let s := upd_bank bank (fun b =>
    b <| impdef ::= fun a => arr_set index
           (Z.lor (Z.land (arr_get a index) (not32 IMPDEF_STORED_MASK))
                  (Z.land value IMPDEF_STORED_MASK)) a |>) s in
  let s :=
    if test value IMPDEF_IC_MASK then
      upd_bank bank (fun b =>
        b <| status ::= fun a => arr_set index
               (Z.land (arr_get a index)
                  (not32 (Z.lor STATUS_V (Z.lor STATUS_UE (Z.lor STATUS_OF
                    (Z.lor STATUS_CE_MASK (Z.lor STATUS_CI
                      (Z.lor STATUS_IERR_MASK STATUS_SERR_MASK)))))))) a |>) s
    else s in
  if test value IMPDEF_IE_MASK && test (arr_get (ctlr (get_bank s bank)) index) CTLR_ED then
    let critical := is_critical_record index in
    if test value IMPDEF_DE_MASK || test value IMPDEF_UE
    then set_software_error bank index critical s
    else set_software_error bank index critical s
  else update_irqs s.

(** The 32-iteration loop of [group_status_word]. *)
(** [zena_fmu.h: "for (unsigned int i = 0; i < 32" .. "return value;"] group_status_word, loop *)
Fixpoint group_status_loop (fuel : nat) (b : Bank) (base i value : Z) : Z :=
  match fuel with
  | O => value
  | S fuel =>
      let rec := base + i in
      if record_count <=? rec then value
      else
        let value :=
          if test (arr_get (status b) rec) STATUS_V then Z.lor value (bit i) else value in
        group_status_loop fuel b base (i + 1) value
  end.

(** [zena_fmu.h: group_status_word] *)
Definition group_status_word (b : Bank) (group : Z) (high : bool) : Z :=
  group_status_loop 32 b (group * 64 + (if high then 32 else 0)) 0 0.

(** [zena_fmu.h: pidcid_value] *)
Definition pidcid_value (reg : Z) : Z :=
  if reg =? PIDR4 then p_pidr4 cfg
  else if reg =? PIDR0 then p_pidr0 cfg
  else if reg =? PIDR1 then p_pidr1 cfg
  else if reg =? PIDR2 then p_pidr2 cfg
  else if reg =? PIDR3 then p_pidr3 cfg
  else if reg =? CIDR0 then p_cidr0 cfg
  else if reg =? CIDR1 then p_cidr1 cfg
  else if reg =? CIDR2 then p_cidr2 cfg
  else if reg =? CIDR3 then p_cidr3 cfg
  else 0.

(** [zena_fmu.h: "if (reg >= ERRGSR_LOW_BASE" .. "return pidcid_value(reg);"] read32, group status and identification *)
Definition read_group (b : Bank) (reg : Z) : Z :=
  if (ERRGSR_LOW_BASE <=? reg) && (reg <? ERRGSR_LOW_BASE + 6 * ERRGSR_STRIDE) &&
     ((reg - ERRGSR_LOW_BASE) mod ERRGSR_STRIDE =? 0)
  then group_status_word b ((reg - ERRGSR_LOW_BASE) / ERRGSR_STRIDE) false
  else if (ERRGSR_HIGH_BASE <=? reg) && (reg <? ERRGSR_HIGH_BASE + 6 * ERRGSR_STRIDE) &&
     ((reg - ERRGSR_HIGH_BASE) mod ERRGSR_STRIDE =? 0)
  then group_status_word b ((reg - ERRGSR_HIGH_BASE) / ERRGSR_STRIDE) true
  else pidcid_value reg.

(** [zena_fmu.h: read32] *)
Definition read32 (s : zena_fmu) (offset : Z) : Z :=
  match decode offset with
  | None => 0
  | Some (bank_index, reg) =>
      let b := get_bank s bank_index in
      match decode_record reg with
      | Some (index, field) =>
          if field =? ERR_FR_OFFSET then 0
          else if field =? ERR_CTLR_OFFSET then arr_get (ctlr b) index
          else if field =? ERR_STATUS_OFFSET then arr_get (status b) index
          else 0
      | None =>
          match decode_impdef reg with
          | Some index => arr_get (impdef b) index
          | None =>
              if reg =? SYS_KEY then (if unlocked b then SYS_KEY_VALUE else 0)
              else read_group b reg
          end
      end
  end.

(** [zena_fmu.h: write32] *)
Definition write32 (offset value : Z) (s : zena_fmu) : zena_fmu :=
  match decode offset with
  | None => s
  | Some (bank, reg) =>
      if reg =? SYS_KEY then
        let s := upd_bank bank (fun b => b <| unlocked := (value =? SYS_KEY_VALUE) |>) s in
        if negb (unlocked (get_bank s bank)) then set_sequence_error bank s else s
      else
        match decode_record reg with
        | Some (index, field) =>
            let '(ok, s) := require_unlock bank s in
            if negb ok then s
            else if field =? ERR_CTLR_OFFSET then write_ctlr bank index value s
            else if field =? ERR_STATUS_OFFSET then clear_record_status bank index value s
            else s
        | None =>
            match decode_impdef reg with
            | Some index =>
                let '(ok, s) := require_unlock bank s in
                if negb ok then s else write_impdef bank index value s
            | None => snd (require_unlock bank s)
            end
        end
  end.

(** The trace line itself goes to [std::cerr]; only the counter is state. *)
(** [zena_fmu.h: trace_access] *)
Definition trace_access (t : tlm_payload) (s : zena_fmu) : zena_fmu :=
  if negb (p_trace cfg) || (p_trace_limit cfg <=? m_trace_count s) then s
  else s <| m_trace_count ::= fun n => u32 (n + 1) |>.

(** [zena_fmu.h: access] *)
Definition access : bool -> zena_fmu -> tlm_payload -> zena_fmu * tlm_payload * bool :=
  word_access (bank_count * BANK_BYTES) read32 write32 trace_access.

(** [zena_fmu.h: reset_registers] *)
Definition reset_registers (s : zena_fmu) : zena_fmu :=
  s <| m_banks := replicate (Z.to_nat MAX_BANKS)
         (MkBank (replicate (Z.to_nat MAX_RECORDS) (p_default_ctlr cfg))
                 (replicate (Z.to_nat MAX_RECORDS) 0)
                 (map default_impdef (range MAX_RECORDS)) false) |>
    <| m_critical_irq := false |> <| m_non_critical_irq := false |>.

(** [zena_fmu.h: "explicit zena_fmu" .. "target_socket.register_transport_dbg"] *)
Definition initial : zena_fmu := reset_registers (MkFmu [] 0 false false []).

(** [zena_fmu.h: b_transport] *)
Definition b_transport : zena_fmu -> tlm_payload -> zena_fmu * tlm_payload :=
  target_b_transport access.

(** [zena_fmu.h: transport_dbg] *)
Definition transport_dbg : zena_fmu -> tlm_payload -> zena_fmu * tlm_payload * Z :=
  target_transport_dbg access.
End zena_fmu.

(** The constructor's default parameter values, with all outputs bound. *)
(** [zena_fmu.h: ", p_trace(" .. ", p_cidr3("]  *)
Definition default_config : fmu_config := {|
  p_trace := false; p_trace_limit := 64; p_enforce_sys_key := true;
  p_bank_count := 5; p_record_count := MAX_RECORDS;
  p_critical_mask := 0x1; p_non_critical_mask := not64 0x1;
  p_default_ctlr := CTLR_RW_MASK;
  p_pidr4 := 0x4; p_pidr0 := 0xd0; p_pidr1 := 0xb3; p_pidr2 := 0xb; p_pidr3 := 0x0;
  p_cidr0 := 0xd; p_cidr1 := 0xf0; p_cidr2 := 0x5; p_cidr3 := 0xb1;
  critical_irq_bound := true; critical_ssu_bound := true;
  non_critical_irq_bound := true; non_critical_ssu_bound := true |}.

(** * Invariant *)

Definition bank_ok (b : Bank) : Prop :=
  arr_ok 384 32 (ctlr b) /\ arr_ok 384 32 (status b) /\ arr_ok 384 32 (impdef b).

Definition banks_ok (s : zena_fmu) : Prop :=
  length (m_banks s) = 8%nat /\ Forall bank_ok (m_banks s).

(** The value last written on a socket, false before any write. *)
Definition line_level (select : fmu_signal -> option bool) (log : list fmu_signal) : bool :=
  foldl (fun level e => match select e with Some v => v | None => level end) false log.

Definition on_critical_irq (e : fmu_signal) : option bool :=
  match e with critical_irq v => Some v | _ => None end.
Definition on_critical_ssu (e : fmu_signal) : option bool :=
  match e with critical_ssu v => Some v | _ => None end.
Definition on_non_critical_irq (e : fmu_signal) : option bool :=
  match e with non_critical_irq v => Some v | _ => None end.
Definition on_non_critical_ssu (e : fmu_signal) : option bool :=
  match e with non_critical_ssu v => Some v | _ => None end.

(** The bound output lines carry the interrupt levels. *)
Definition lines_ok (cfg : fmu_config) (s : zena_fmu) : Prop :=
  (critical_irq_bound cfg = true -> line_level on_critical_irq (m_signals s) = m_critical_irq s) /\
  (critical_ssu_bound cfg = true -> line_level on_critical_ssu (m_signals s) = m_critical_irq s) /\
  (non_critical_irq_bound cfg = true ->
     line_level on_non_critical_irq (m_signals s) = m_non_critical_irq s) /\
  (non_critical_ssu_bound cfg = true ->
     line_level on_non_critical_ssu (m_signals s) = m_non_critical_irq s).

Definition levels_ok (cfg : fmu_config) (s : zena_fmu) : Prop :=
  irq_levels cfg s = (m_critical_irq s, m_non_critical_irq s).

Definition fmu_inv (cfg : fmu_config) (s : zena_fmu) : Prop :=
  banks_ok s /\ levels_ok cfg s /\ lines_ok cfg s.

(** A configuration whose parameters are values of their C types. *)
Definition fmu_config_ok (cfg : fmu_config) : Prop :=
  is_u32 (p_bank_count cfg) /\ is_u32 (p_record_count cfg) /\ is_u32 (p_default_ctlr cfg) /\
  is_u64 (p_critical_mask cfg) /\ is_u64 (p_non_critical_mask cfg).

(** A record that raises the critical (non-critical) interrupt: valid, routed to
    that class and enabled in its control register. *)
Definition raises_critical (cfg : fmu_config) (s : zena_fmu) (bank index : Z) : Prop :=
  Z.testbit (arr_get (status (get_bank s bank)) index) 30 = true /\
  is_critical_record cfg index = true /\
  Z.testbit (arr_get (ctlr (get_bank s bank)) index) 13 = true.

Definition raises_non_critical (cfg : fmu_config) (s : zena_fmu) (bank index : Z) : Prop :=
  Z.testbit (arr_get (status (get_bank s bank)) index) 30 = true /\
  is_non_critical_record cfg index = true /\
  (Z.testbit (arr_get (ctlr (get_bank s bank)) index) 3 = true \/
   Z.testbit (arr_get (ctlr (get_bank s bank)) index) 4 = true \/
   Z.testbit (arr_get (ctlr (get_bank s bank)) index) 8 = true).

(** * Banks *)

Lemma get_upd_bank_eq s i f : banks_ok s -> 0 <= i < 8 ->
  get_bank (upd_bank i f s) i = f (get_bank s i).
Proof.
  intros [Hl _] Hi. unfold get_bank, upd_bank. cbn [set_field m_banks].
  rewrite list_lookup_alter_eq.
  destruct (lookup_lt_is_Some_2 (m_banks s) (Z.to_nat i)) as [b Hb]; [lia|]. by rewrite Hb.
Qed.

Lemma get_upd_bank_ne s i j f : 0 <= i -> 0 <= j -> i <> j ->
  get_bank (upd_bank i f s) j = get_bank s j.
Proof.
  intros Hi Hj Hne. unfold get_bank, upd_bank. cbn [set_field m_banks].
  by rewrite list_lookup_alter_ne by lia.
Qed.

(** A field [upd_bank] leaves alone in every bank. *)
Lemma get_upd_bank_proj {A} (p : Bank -> A) s i j f :
  (forall b, p (f b) = p b) -> p (get_bank (upd_bank i f s) j) = p (get_bank s j).
Proof.
  intros Hp. unfold get_bank, upd_bank. cbn [set_field m_banks].
  destruct (decide (Z.to_nat i = Z.to_nat j)) as [->|Hne].
  - rewrite list_lookup_alter_eq. destruct (m_banks s !! Z.to_nat j); [apply Hp|done].
  - by rewrite list_lookup_alter_ne by done.
Qed.

Lemma upd_bank_ok s i f : (forall b, bank_ok b -> bank_ok (f b)) -> banks_ok s ->
  banks_ok (upd_bank i f s).
Proof.
  intros Hf [Hl Hb]. split; cbn; [by rewrite length_alter|].
  apply Forall_alter; [done|]. intros b _ Hx. by apply Hf.
Qed.

Lemma get_bank_ok s i : banks_ok s -> 0 <= i < 8 -> bank_ok (get_bank s i).
Proof.
  intros [Hl Hb] Hi. unfold get_bank.
  destruct (lookup_lt_is_Some_2 (m_banks s) (Z.to_nat i)) as [b E]; [lia|].
  rewrite E. cbn. by eapply Forall_lookup_1.
Qed.

Ltac bank_ok_tac :=
  let b := fresh "b" in let H := fresh "H" in
  intros b H; destruct H as (? & ? & ?); unfold bank_ok, cleared_status; cbn [set_field ctlr status impdef];
  repeat case_if; repeat split_and; eauto 12 with uint.

(** * Interrupt levels *)

Lemma irq_levels_spec cfg s :
  irq_levels cfg s =
  (existsb (fun b => existsb (fun i => test (arr_get (status (get_bank s b)) i) STATUS_V &&
     (is_critical_record cfg i && test (arr_get (ctlr (get_bank s b)) i) CTLR_CI))
     (range (record_count cfg))) (range (bank_count cfg)),
   existsb (fun b => existsb (fun i => test (arr_get (status (get_bank s b)) i) STATUS_V &&
     (is_non_critical_record cfg i &&
      test (arr_get (ctlr (get_bank s b)) i) (Z.lor CTLR_FI (Z.lor CTLR_UE CTLR_CFI))))
     (range (record_count cfg))) (range (bank_count cfg))).
Proof.
  unfold irq_levels. erewrite foldl_flags; [reflexivity|]. intros c n b. cbn beta.
  erewrite foldl_flags; [reflexivity|]. clear. intros c n i. unfold irq_step.
  replace (Z.land (arr_get (status (get_bank s b)) i) STATUS_V =? 0)
    with (negb (test (arr_get (status (get_bank s b)) i) STATUS_V)) by apply negb_involutive.
  destruct (test _ STATUS_V); cbn [negb andb]; [|by rewrite !orb_false_r].
  f_equal; case_if; by rewrite ?orb_true_r, ?orb_false_r.
Qed.

Lemma irq_levels_ext cfg s s' :
  (forall b, status (get_bank s b) = status (get_bank s' b) /\ ctlr (get_bank s b) = ctlr (get_bank s' b)) ->
  irq_levels cfg s = irq_levels cfg s'.
Proof.
  intros Hext. rewrite !irq_levels_spec. f_equal; apply existsb_ext_in; intros b _;
    apply existsb_ext_in; intros i _; by destruct (Hext b) as [-> ->].
Qed.

Lemma test_STATUS_V x : test x STATUS_V = Z.testbit x 30.
Proof. by apply test_bit. Qed.

Lemma test_CTLR_CI x : test x CTLR_CI = Z.testbit x 13.
Proof. by apply test_bit. Qed.

#[local] Opaque is_critical_record is_non_critical_record.

Lemma levels_critical cfg s b c : irq_levels cfg s = (b, c) ->
  b = true <-> exists bank index, 0 <= bank < bank_count cfg /\ 0 <= index < record_count cfg /\
                 raises_critical cfg s bank index.
Proof.
  rewrite irq_levels_spec. intros [= <- _]. rewrite existsb_range. unfold raises_critical.
  setoid_rewrite existsb_range. setoid_rewrite andb_true_iff. setoid_rewrite andb_true_iff.
  setoid_rewrite test_STATUS_V. setoid_rewrite test_CTLR_CI.
  split; [intros (k & Hk & i & Hi & Hv); by exists k, i|intros (k & i & Hk & Hi & Hv); eauto].
Qed.

Lemma test_ctlr_enables x :
  test x (Z.lor CTLR_FI (Z.lor CTLR_UE CTLR_CFI)) = true <->
  Z.testbit x 3 = true \/ Z.testbit x 4 = true \/ Z.testbit x 8 = true.
Proof.
  rewrite test_spec by (right; cbv; congruence). unfold CTLR_FI, CTLR_UE, CTLR_CFI. split.
  - intros (i & Hi & Hx & Hm). autorewrite with bits in Hm.
    apply orb_true_iff in Hm as [E|E]; [|apply orb_true_iff in E as [E|E]]; apply Z.eqb_eq in E; subst; auto.
  - intros [H|[H|H]]; eexists; (split; [|split; [exact H|reflexivity]]); lia.
Qed.

Lemma levels_non_critical cfg s b c : irq_levels cfg s = (b, c) ->
  c = true <-> exists bank index, 0 <= bank < bank_count cfg /\ 0 <= index < record_count cfg /\
                 raises_non_critical cfg s bank index.
Proof.
  rewrite irq_levels_spec. intros [= _ <-]. rewrite existsb_range. unfold raises_non_critical.
  setoid_rewrite existsb_range. setoid_rewrite andb_true_iff. setoid_rewrite andb_true_iff.
  setoid_rewrite test_ctlr_enables. setoid_rewrite test_STATUS_V.
  split; [intros (k & Hk & i & Hi & Hv); by exists k, i|intros (k & i & Hk & Hi & Hv); eauto].
Qed.

Lemma line_level_app select l l' :
  line_level select (l ++ l') =
  foldl (fun level e => match select e with Some v => v | None => level end) (line_level select l) l'.
Proof. apply foldl_app. Qed.

Lemma emit_irqs_lines cfg s : lines_ok cfg (emit_irqs cfg s).
Proof.
  unfold lines_ok, emit_irqs. cbn [set_field m_signals m_critical_irq m_non_critical_irq].
  rewrite !line_level_app.
  split_and!; intros Hb; rewrite Hb; repeat case_if; reflexivity.
Qed.

Lemma update_irqs_banks cfg s : m_banks (update_irqs cfg s) = m_banks s.
Proof. unfold update_irqs. destruct (irq_levels cfg s). by case_if. Qed.

Lemma get_update_irqs cfg s i : get_bank (update_irqs cfg s) i = get_bank s i.
Proof. unfold get_bank. by rewrite update_irqs_banks. Qed.

(** [update_irqs] re-establishes the levels and the lines. *)
Lemma update_irqs_inv cfg s : banks_ok s -> lines_ok cfg s -> fmu_inv cfg (update_irqs cfg s).
Proof.
  intros Hb Hl. split_and!.
  - unfold banks_ok. by rewrite update_irqs_banks.
  - unfold levels_ok. rewrite (irq_levels_ext cfg _ s); [|by intros; rewrite get_update_irqs].
    unfold update_irqs. destruct (irq_levels cfg s) as [c n]. case_if; [done|].
    apply orb_false_iff in E as [E1 E2]. bool_hyps.
    apply eqb_prop in E1, E2. by rewrite E1, E2.
  - unfold update_irqs. destruct (irq_levels cfg s) as [c n]. case_if; [apply emit_irqs_lines|done].
Qed.

(** * Every operation keeps the invariant *)

Lemma update_upd_inv cfg s i f : (forall b, bank_ok b -> bank_ok (f b)) ->
  banks_ok s -> lines_ok cfg s -> fmu_inv cfg (update_irqs cfg (upd_bank i f s)).
Proof. intros Hf Hb Hl. apply update_irqs_inv; [by apply upd_bank_ok|exact Hl]. Qed.

Lemma set_unlocked_inv cfg s i v : fmu_inv cfg s ->
  fmu_inv cfg (upd_bank i (fun b => b <| unlocked := v |>) s).
Proof.
  intros (Hb & Hv & Hl). split_and!; [apply upd_bank_ok; [bank_ok_tac|done]| |exact Hl].
  unfold levels_ok. rewrite (irq_levels_ext cfg _ s); [exact Hv|].
  intros b. split; by apply get_upd_bank_proj.
Qed.

Lemma set_sequence_error_inv cfg s bank : fmu_inv cfg s -> fmu_inv cfg (set_sequence_error cfg bank s).
Proof. intros (Hb & _ & Hl). apply update_upd_inv; [bank_ok_tac|done|done]. Qed.

Lemma require_unlock_inv cfg s bank : fmu_inv cfg s -> fmu_inv cfg (snd (require_unlock cfg bank s)).
Proof.
  intros H. unfold require_unlock. repeat case_if;
    [done|by apply set_unlocked_inv|by apply set_sequence_error_inv].
Qed.

Lemma set_software_error_inv cfg s bank index critical : banks_ok s -> lines_ok cfg s ->
  fmu_inv cfg (set_software_error cfg bank index critical s).
Proof.
  intros Hb Hl. unfold set_software_error. set (st := if critical then _ else _).
  assert (is_u32 st) by (unfold st; case_if; by cbv). clearbody st.
  apply update_upd_inv; [bank_ok_tac|done|done].
Qed.

Lemma write_impdef_inv cfg s bank index v : fmu_inv cfg s -> fmu_inv cfg (write_impdef cfg bank index v s).
Proof.
  intros (Hb & _ & Hl). unfold write_impdef.
  set (s1 := upd_bank bank _ s). assert (banks_ok s1) by (apply upd_bank_ok; [bank_ok_tac|done]).
  set (s2 := if test v IMPDEF_IC_MASK then _ else s1).
  assert (banks_ok s2 /\ lines_ok cfg s2) as [? ?].
  { unfold s2. case_if; [|done]. split; [apply upd_bank_ok; [bank_ok_tac|done]|done]. }
  clearbody s2. cbv zeta. case_if; [|by apply update_irqs_inv].
  case_if; by apply set_software_error_inv.
Qed.

Lemma fmu_write32_inv cfg offset v s : fmu_inv cfg s -> fmu_inv cfg (write32 cfg offset v s).
Proof.
  intros H. unfold write32. destruct (decode cfg offset) as [[bank reg]|]; [|done].
  case_if.
  { pose proof (set_unlocked_inv cfg s bank (v =? SYS_KEY_VALUE) H).
    cbv zeta. case_if; [by apply set_sequence_error_inv|done]. }
  pose proof (require_unlock_inv cfg s bank H) as Hu.
  destruct (require_unlock cfg bank s) as [ok s1]. cbn [snd] in Hu.
  destruct (decode_record cfg reg) as [[index field]|].
  - repeat case_if; try done; destruct Hu as (? & _ & ?);
      (apply update_upd_inv; [bank_ok_tac|done|done]).
  - destruct (decode_impdef cfg reg); [|done]. case_if; [done|by apply write_impdef_inv].
Qed.

Lemma trace_access_inv cfg t s : fmu_inv cfg s -> fmu_inv cfg (trace_access cfg t s).
Proof. intros H. unfold trace_access. case_if; exact H. Qed.

Definition fmu_target (cfg : fmu_config) : TlmTarget zena_fmu :=
  word_target (bank_count cfg * BANK_BYTES) (read32 cfg) (write32 cfg) (trace_access cfg)
    (fmu_inv cfg) (fun offset v s _ _ => fmu_write32_inv cfg offset v s) (trace_access_inv cfg).

Lemma get_bank_initial cfg i : 0 <= i < 8 ->
  get_bank (initial cfg) i =
  MkBank (replicate 384 (p_default_ctlr cfg)) (replicate 384 0) (map default_impdef (range 384)) false.
Proof.
  intros Hi. unfold get_bank, initial, reset_registers. cbn [set_field m_banks].
  by rewrite lookup_replicate_2 by (change (Z.to_nat MAX_BANKS) with 8%nat; lia).
Qed.

Lemma default_impdef_u32 : arr_ok 384 32 (map default_impdef (range MAX_RECORDS)).
Proof.
  split; [done|]. apply Forall_fmap, Forall_true. intros i. unfold compose, default_impdef.
  case_if; by cbv.
Qed.

Lemma fmu_initial_inv cfg : fmu_config_ok cfg -> fmu_inv cfg (initial cfg).
Proof.
  intros (_ & _ & Hd & _).
  assert (irq_levels cfg (initial cfg) = (false, false)) as Hl.
  { rewrite irq_levels_spec. f_equal; apply not_true_is_false; rewrite existsb_range;
      intros (b & Hb & (i & Hi & Ht)%existsb_range); unfold bank_count, record_count, MAX_BANKS, MAX_RECORDS in *;
      rewrite get_bank_initial in Ht by lia; cbn [status] in Ht;
      rewrite arr_get_replicate, test_0_l in Ht by lia; done. }
  split; [split; [done|]|split; [exact Hl|done]].
  apply Forall_replicate. split_and!; cbn; try apply arr_ok_replicate; try done;
    apply default_impdef_u32.
Qed.

(** * Theorems *)

(** C5. In every state reached from reset by transactions on the register socket,
    each interrupt level is on exactly when some record of some configured bank
    is valid, routed to that class and enabled, and every bound output line
    carries that level. *)
Theorem fmu_interrupts_follow_records cfg s :
  fmu_config_ok cfg -> reachable (T := fmu_target cfg) (initial cfg) s ->
  (m_critical_irq s = true <->
     exists bank index, 0 <= bank < bank_count cfg /\ 0 <= index < record_count cfg /\
       raises_critical cfg s bank index) /\
  (m_non_critical_irq s = true <->
     exists bank index, 0 <= bank < bank_count cfg /\ 0 <= index < record_count cfg /\
       raises_non_critical cfg s bank index) /\
  lines_ok cfg s.
Proof.
  intros Hc Hr.
  destruct (reachable_inv (T := fmu_target cfg) _ _ (fmu_initial_inv cfg Hc) Hr) as (_ & Hv & Hl).
  split; [by apply (levels_critical cfg s _ _ Hv)|].
  split; [by apply (levels_non_critical cfg s _ _ Hv)|done].
Qed.

(** Unlock bank 0, then inject a fault in record 0, which is critical. *)
Definition demo_state : zena_fmu :=
  let s := fst (fst (access default_config false (initial default_config) (write_txn SYS_KEY SYS_KEY_VALUE))) in
  fst (fst (access default_config false s (write_txn ERR_IMPDEF_BASE 0x200))).

Lemma fmu_interrupts_follow_records_witness :
  m_critical_irq demo_state = true /\
  exists bank index, 0 <= bank < bank_count default_config /\ 0 <= index < record_count default_config /\
    raises_critical default_config demo_state bank index.
Proof.
  split; [vm_compute; reflexivity|].
  apply (fmu_interrupts_follow_records default_config demo_state); [by cbv| |].
  - eapply (reachable_access (T := fmu_target default_config) _ false _ (write_txn ERR_IMPDEF_BASE 0x200));
      [|apply write_txn_ok; by cbv|apply surjective_pairing_3].
    eapply (reachable_access (T := fmu_target default_config) _ false _ (write_txn SYS_KEY SYS_KEY_VALUE));
      [constructor|apply write_txn_ok; by cbv|apply surjective_pairing_3].
  - vm_compute; reflexivity.
Defined.

(** * Decoding *)

Lemma bank_count_le cfg : bank_count cfg <= 8.
Proof. unfold bank_count, MAX_BANKS. lia. Qed.

Lemma record_count_le cfg : record_count cfg <= 384.
Proof. unfold record_count, MAX_RECORDS. lia. Qed.

Lemma decode_bank cfg bank reg : 0 <= bank < bank_count cfg -> 0 <= reg < BANK_BYTES ->
  decode cfg (bank * BANK_BYTES + reg) = Some (bank, reg).
Proof.
  intros Hb Hr. pose proof (bank_count_le cfg). unfold decode, BANK_BYTES in *.
  rewrite div_pack, mod_pack by lia. rewrite !wrap_small by (split; lia). by replace (bank <? bank_count cfg) with true by lia.
Qed.

Lemma decode_record_field cfg index field : 0 <= index < record_count cfg -> 0 <= field < RECORD_STRIDE ->
  decode_record cfg (index * RECORD_STRIDE + field) = Some (index, field).
Proof.
  intros Hi Hf. pose proof (record_count_le cfg).
  unfold decode_record, RECORD_STRIDE, RECORD_SPACE_BYTES in *.
  replace (0x6000 <=? _) with false by lia.
  rewrite div_pack, mod_pack by lia. by replace (index <? record_count cfg) with true by lia.
Qed.

(** The address of a field of a record. *)
Definition record_reg (bank index field : Z) : Z :=
  bank * BANK_BYTES + (index * RECORD_STRIDE + field).

Lemma read32_record cfg s bank index field :
  0 <= bank < bank_count cfg -> 0 <= index < record_count cfg -> 0 <= field < RECORD_STRIDE ->
  read32 cfg s (record_reg bank index field) =
  if field =? ERR_FR_OFFSET then 0
  else if field =? ERR_CTLR_OFFSET then arr_get (ctlr (get_bank s bank)) index
  else if field =? ERR_STATUS_OFFSET then arr_get (status (get_bank s bank)) index
  else 0.
Proof.
  intros Hb Hi Hf. pose proof (record_count_le cfg). unfold read32, record_reg.
  rewrite decode_bank by (unfold BANK_BYTES, RECORD_STRIDE in *; lia).
  by rewrite decode_record_field.
Qed.

Lemma write32_record cfg s bank index field v :
  0 <= bank < bank_count cfg -> 0 <= index < record_count cfg -> 0 <= field < RECORD_STRIDE ->
  write32 cfg (record_reg bank index field) v s =
  let '(ok, s) := require_unlock cfg bank s in
  if negb ok then s
  else if field =? ERR_CTLR_OFFSET then write_ctlr cfg bank index v s
  else if field =? ERR_STATUS_OFFSET then clear_record_status cfg bank index v s
  else s.
Proof.
  intros Hb Hi Hf. pose proof (record_count_le cfg). unfold write32, record_reg.
  rewrite decode_bank by (unfold BANK_BYTES, RECORD_STRIDE in *; lia).
  replace (_ =? SYS_KEY) with false by (unfold RECORD_STRIDE, SYS_KEY in *; lia).
  by rewrite decode_record_field.
Qed.

(** The record that takes sequence errors. *)
Definition sequence_record (cfg : fmu_config) : Z :=
  if record_count cfg =? 0 then 0 else record_count cfg - 1.

Definition sequence_bits : Z := Z.lor STATUS_V (Z.lor STATUS_IERR_INC_SEQ STATUS_SERR_SW).

Lemma get_set_sequence_error cfg s bank b : banks_ok s -> 0 <= bank < 8 -> 0 <= b ->
  get_bank (set_sequence_error cfg bank s) b =
  if b =? bank then
    (get_bank s b) <| status ::= fun st =>
      arr_set (sequence_record cfg) (Z.lor (arr_get st (sequence_record cfg)) sequence_bits) st |>
  else get_bank s b.
Proof.
  intros Hok Hb Hb'. unfold set_sequence_error. rewrite get_update_irqs. fold (sequence_record cfg).
  fold sequence_bits. destruct (Z.eqb_spec b bank) as [->|Hne].
  - by rewrite get_upd_bank_eq.
  - by rewrite get_upd_bank_ne by lia.
Qed.

(** C24. With key enforcement on, a write to any register of a locked bank other
    than the key register changes no control or implementation-defined word and
    leaves every lock as it is; its only effect on the records is a sequence
    error latched in the last record of that bank. *)
Theorem fmu_write_needs_key cfg s bank reg v :
  fmu_config_ok cfg -> fmu_inv cfg s -> p_enforce_sys_key cfg = true ->
  0 <= bank < bank_count cfg -> 0 <= reg < BANK_BYTES -> reg <> SYS_KEY ->
  unlocked (get_bank s bank) = false ->
  let s' := write32 cfg (bank * BANK_BYTES + reg) v s in
  forall b, 0 <= b < 8 ->
    ctlr (get_bank s' b) = ctlr (get_bank s b) /\
    impdef (get_bank s' b) = impdef (get_bank s b) /\
    unlocked (get_bank s' b) = unlocked (get_bank s b) /\
    forall i, 0 <= i < 384 ->
      arr_get (status (get_bank s' b)) i =
      if (b =? bank) && (i =? sequence_record cfg)
      then Z.lor (arr_get (status (get_bank s b)) i) sequence_bits
      else arr_get (status (get_bank s b)) i.
Proof.
  intros Hcfg (Hok & _) Henf Hb Hr Hne Hlock s' b Hb'.
  assert (s' = set_sequence_error cfg bank s) as ->.
  { unfold s', write32. rewrite decode_bank by done. replace (reg =? SYS_KEY) with false by lia.
    unfold require_unlock. rewrite Henf, Hlock. cbn [negb snd].
    destruct (decode_record cfg reg) as [[]|]; [done|]. by destruct (decode_impdef cfg reg). }
  pose proof (bank_count_le cfg). rewrite get_set_sequence_error by (done || lia).
  pose proof (get_bank_ok s b Hok Hb') as (_ & [Hls _] & _).
  assert (0 <= sequence_record cfg < 384) as Hseq.
  { destruct Hcfg as (_ & [Hrc _] & _). unfold sequence_record, record_count, MAX_RECORDS.
    case_if; lia. }
  destruct (Z.eqb_spec b bank) as [->|Hbb]; [|done]. cbn [andb]. do 3 (split; [done|]).
  intros i Hi. cbn. destruct (Z.eqb_spec i (sequence_record cfg)) as [->|Hii].
  - by rewrite arr_get_set_eq by lia.
  - by rewrite arr_get_set_ne by lia.
Qed.

(** Writing the key unlocks exactly one write: the next register write to
    that bank takes effect (here a control register, of which only the writable
    bits change) and locks the bank again, so that the write after it is refused
    and leaves the control register as it was. *)
Theorem fmu_key_opens_one_write cfg s bank index v v' :
  fmu_config_ok cfg -> fmu_inv cfg s -> p_enforce_sys_key cfg = true ->
  0 <= bank < bank_count cfg -> 0 <= index < record_count cfg ->
  let reg := record_reg bank index ERR_CTLR_OFFSET in
  let s1 := write32 cfg (bank * BANK_BYTES + SYS_KEY) SYS_KEY_VALUE s in
  let s2 := write32 cfg reg v s1 in
  let s3 := write32 cfg reg v' s2 in
  unlocked (get_bank s1 bank) = true /\
  read32 cfg s2 reg = Z.lor (Z.ldiff (read32 cfg s reg) CTLR_RW_MASK) (Z.land v CTLR_RW_MASK) /\
  unlocked (get_bank s2 bank) = false /\
  read32 cfg s3 reg = read32 cfg s2 reg.
Proof.
  intros Hcfg Hinv Henf Hb Hi reg s1 s2 s3. pose proof Hinv as (Hok & _).
  pose proof (bank_count_le cfg) as Hb8. pose proof (record_count_le cfg) as Hr384.
  assert (s1 = upd_bank bank (fun b => b <| unlocked := true |>) s) as Hs1.
  { unfold s1, write32. rewrite decode_bank by (done || by cbv). cbn [Z.eqb SYS_KEY Pos.eqb].
    cbv zeta. by rewrite get_upd_bank_eq by (done || lia). }
  assert (unlocked (get_bank s1 bank) = true) as Hu1 by (rewrite Hs1, get_upd_bank_eq by (done || lia); done).
  assert (fmu_inv cfg s1) as [Hok1 _] by (rewrite Hs1; by apply set_unlocked_inv).
  set (f := fun b : Bank => b <| ctlr ::= fun a => arr_set index
         (Z.lor (Z.land (arr_get a index) (not32 CTLR_RW_MASK)) (Z.land v CTLR_RW_MASK)) a |>).
  set (s1' := upd_bank bank (fun b => b <| unlocked := false |>) s1).
  assert (s2 = update_irqs cfg (upd_bank bank f s1')) as Hs2.
  { unfold s2, reg. rewrite write32_record by (done || by cbv).
    unfold require_unlock. by rewrite Henf, Hu1. }
  assert (banks_ok s1') as Hok1' by (apply upd_bank_ok; [bank_ok_tac|done]).
  assert (get_bank s2 bank = f ((get_bank s1 bank) <| unlocked := false |>)) as Hg2.
  { rewrite Hs2, get_update_irqs, get_upd_bank_eq by (done || lia). unfold s1'.
    by rewrite get_upd_bank_eq by (done || lia). }
  assert (unlocked (get_bank s2 bank) = false) as Hu2 by (by rewrite Hg2).
  split; [done|]. split; [|split; [done|]].
  - unfold reg. rewrite !read32_record by (done || by cbv). cbn [Z.eqb ERR_CTLR_OFFSET ERR_FR_OFFSET Pos.eqb].
    rewrite Hg2. unfold f. cbn [set_field ctlr].
    pose proof (get_bank_ok s1 bank Hok1 ltac:(lia)) as ([Hl _] & _). rewrite arr_get_set_eq by lia.
    rewrite Hs1, get_upd_bank_eq by (done || lia). cbn [set_field ctlr]. f_equal.
    pose proof (get_bank_ok s bank Hok ltac:(lia)) as (Hc & _).
    apply land_cnot; [|lia]. by eapply arr_ok_get.
  - assert (fmu_inv cfg s2) as [Hok2 _] by (apply fmu_write32_inv, fmu_write32_inv; done).
    unfold s3, reg. rewrite write32_record by (done || by cbv). unfold require_unlock. rewrite Henf, Hu2.
    cbn [negb]. rewrite !read32_record by (done || by cbv). cbn [Z.eqb ERR_CTLR_OFFSET ERR_FR_OFFSET Pos.eqb].
    rewrite get_set_sequence_error by (done || lia). by rewrite Z.eqb_refl.
Qed.

(** Bit [i] of the status word that a write of [v] leaves in a record holding
    [st]: the write-one-to-clear bits are cleared where [v] has a one, and the
    error-code fields take the value of [v] only while the record stays valid. *)
Definition status_bit_after (st v i : Z) : bool :=
  if Z.testbit STATUS_W1C_MASK i then Z.testbit st i && negb (Z.testbit v i)
  else if Z.testbit STATUS_RW_WHEN_VALID_MASK i && (Z.testbit st 30 && negb (Z.testbit v 30))
  then Z.testbit v i
  else Z.testbit st i.

Lemma status_masks_disjoint i :
  Z.testbit STATUS_W1C_MASK i = true -> Z.testbit STATUS_RW_WHEN_VALID_MASK i = false.
Proof.
  intros Hi. pose proof (f_equal (fun z => Z.testbit z i)
    (eq_refl : Z.land STATUS_W1C_MASK STATUS_RW_WHEN_VALID_MASK = 0)) as H.
  cbn beta in H. rewrite Z.land_spec, Hi, Z.bits_0 in H. done.
Qed.

Lemma cleared_status_spec st v i : is_u32 st -> 0 <= i ->
  Z.testbit (cleared_status st v) i = status_bit_after st v i.
Proof.
  intros Hst Hi. unfold cleared_status, status_bit_after.
  assert (is_u32 (Z.ldiff st (Z.land v STATUS_W1C_MASK))) by eauto with uint.
  rewrite (land_cnot 32 st) by (done || lia). rewrite test_STATUS_V, Z.ldiff_spec, Z.land_spec.
  change (Z.testbit STATUS_W1C_MASK 30) with true. rewrite andb_true_r.
  pose proof (status_masks_disjoint i) as Hdis.
  destruct (Z.testbit st 30 && negb (Z.testbit v 30));
    rewrite ?land_cnot, ?Z.lor_spec, ?Z.ldiff_spec, ?Z.land_spec by (done || lia);
    destruct (Z.testbit STATUS_W1C_MASK i), (Z.testbit STATUS_RW_WHEN_VALID_MASK i),
      (Z.testbit st i), (Z.testbit v i); try done; by discriminate Hdis.
Qed.

(** Writing [v] to the status register of a record of an unlocked bank and
    reading it back shows, bit by bit, the write-one-to-clear protocol: valid,
    overflow, uncorrected, corrected and critical bits are cleared exactly where
    [v] has ones, and the error codes are taken from [v] only if the record is
    still valid afterwards; the records of the other banks are untouched. *)
Theorem fmu_status_write_one_to_clear cfg s bank index v :
  fmu_inv cfg s -> 0 <= bank < bank_count cfg -> 0 <= index < record_count cfg ->
  unlocked (get_bank s bank) = true ->
  let reg := record_reg bank index ERR_STATUS_OFFSET in
  let s' := write32 cfg reg v s in
  (forall i, 0 <= i ->
     Z.testbit (read32 cfg s' reg) i = status_bit_after (read32 cfg s reg) v i) /\
  (forall b, 0 <= b < 8 -> b <> bank -> get_bank s' b = get_bank s b).
Proof.
  intros (Hok & _) Hb Hi Hu reg s'. pose proof (bank_count_le cfg). pose proof (record_count_le cfg).
  assert (exists s1, s' = clear_record_status cfg bank index v s1 /\ banks_ok s1 /\
    (forall b, status (get_bank s1 b) = status (get_bank s b)) /\
    (forall b, 0 <= b < 8 -> b <> bank -> get_bank s1 b = get_bank s b)) as (s1 & -> & Hok1 & Hst & Hoth).
  { unfold s', reg. rewrite write32_record by (done || by cbv). unfold require_unlock. rewrite Hu.
    destruct (negb (p_enforce_sys_key cfg)); [by exists s|]. eexists. split; [reflexivity|].
    split; [apply upd_bank_ok; [bank_ok_tac|done]|]. split; [intros b; by apply get_upd_bank_proj|].
    intros b ? ?. by rewrite get_upd_bank_ne by lia. }
  unfold reg, clear_record_status. split.
  - intros i Hi0. rewrite !read32_record by (done || by cbv).
    cbn [Z.eqb ERR_STATUS_OFFSET ERR_FR_OFFSET ERR_CTLR_OFFSET Pos.eqb].
    rewrite get_update_irqs, get_upd_bank_eq by (done || lia). cbn [set_field status].
    pose proof (get_bank_ok s bank Hok ltac:(lia)) as (_ & Hs & _). rewrite Hst.
    rewrite arr_get_set_eq by (destruct Hs as [-> _]; lia).
    apply cleared_status_spec; [|done]. by eapply arr_ok_get.
  - intros b Hb8 Hne. rewrite get_update_irqs, get_upd_bank_ne by lia. by apply Hoth.
Qed.

(** * Group status *)

Lemma group_status_loop_spec cfg fuel b base i value j :
  0 <= i -> 0 <= base -> 0 <= j ->
  Z.testbit (group_status_loop cfg fuel b base i value) j =
  Z.testbit value j ||
  ((i <=? j) && (j <? i + Z.of_nat fuel) && (base + j <? record_count cfg) &&
   Z.testbit (arr_get (status b) (base + j)) 30).
Proof.
  revert i value. induction fuel as [|fuel IH]; intros i value Hi Hbase Hj; cbn [group_status_loop].
  - replace ((i <=? j) && _) with false by lia. by rewrite orb_false_r.
  - destruct (Z.leb_spec (record_count cfg) (base + i)) as [Hle|Hlt].
    + replace ((i <=? j) && (j <? i + Z.of_nat (S fuel)) && (base + j <? record_count cfg))
        with false by lia. by rewrite orb_false_r.
    + rewrite IH by lia. rewrite test_STATUS_V. destruct (Z.eq_dec j i) as [->|Hne].
      * replace ((i + 1 <=? i) && _) with false by lia.
        replace ((i <=? i) && (i <? i + Z.of_nat (S fuel)) && (base + i <? record_count cfg))
          with true by lia.
        destruct (Z.testbit (arr_get _ _) 30); autorewrite with bits;
          rewrite ?Z.eqb_refl; cbn; by rewrite ?orb_true_r, ?orb_false_r.
      * assert (Z.testbit (if Z.testbit (arr_get (status b) (base + i)) 30
                           then Z.lor value (bit i) else value) j = Z.testbit value j) as ->.
        { case_if; [|done]. autorewrite with bits. replace (j =? i) with false by lia.
          by rewrite orb_false_r. }
        do 2 f_equal. f_equal. lia.
Qed.

(** The group status registers summarise the records: bit [j] of the low
    (high) word of group [g] is set exactly when record [64 g + j]
    ([64 g + 32 + j]) exists and is valid, for [j] below 32, and no other bit is
    ever set. *)
Theorem fmu_group_status cfg s bank g high j :
  0 <= bank < bank_count cfg -> 0 <= g < 6 -> 0 <= j ->
  let reg := (if high : bool then ERRGSR_HIGH_BASE else ERRGSR_LOW_BASE) + g * ERRGSR_STRIDE in
  let rec := g * 64 + (if high then 32 else 0) + j in
  Z.testbit (read32 cfg s (bank * BANK_BYTES + reg)) j =
  (j <? 32) && (rec <? record_count cfg) && Z.testbit (arr_get (status (get_bank s bank)) rec) 30.
Proof.
  intros Hb Hg Hj reg rec. unfold read32. pose proof (record_count_le cfg).
  assert (0xe000 <= reg < 0xe030) as Hreg.
  { unfold reg, ERRGSR_HIGH_BASE, ERRGSR_LOW_BASE, ERRGSR_STRIDE. destruct high; lia. }
  rewrite decode_bank by (unfold BANK_BYTES; lia).
  unfold decode_record, decode_impdef, RECORD_SPACE_BYTES, ERR_IMPDEF_BASE, ERR_IMPDEF_STRIDE.
  replace (0x6000 <=? reg) with true by lia. replace (reg <? 0x8000) with false by lia.
  assert ((((reg - 0x8000) / 8) <? record_count cfg) = false) as -> by
    (assert ((reg - 0x8000) / 8 >= 3072) by (apply Z.le_ge, Z.div_le_lower_bound; lia); lia).
  assert (read_group cfg (get_bank s bank) reg = group_status_word cfg (get_bank s bank) g high) as E.
  { unfold read_group, reg, ERRGSR_HIGH_BASE, ERRGSR_LOW_BASE, ERRGSR_STRIDE. destruct high.
    - replace ((0xe004 + g * 8 - 0xe000) mod 8) with 4
        by (replace (0xe004 + g * 8 - 0xe000) with (g * 8 + 4) by lia; by rewrite mod_pack by lia).
      rewrite andb_false_r. replace (0xe004 + g * 8 - 0xe004) with (g * 8 + 0) by lia.
      rewrite mod_pack, div_pack by lia. by replace (_ && _) with true by lia.
    - replace (0xe000 + g * 8 - 0xe000) with (g * 8 + 0) by lia.
      rewrite mod_pack, div_pack by lia. by replace (_ && _) with true by lia. }
  replace (reg =? SYS_KEY) with false by (unfold SYS_KEY; lia).
  assert (Z.testbit (group_status_word cfg (get_bank s bank) g high) j =
    (j <? 32) && (rec <? record_count cfg) && Z.testbit (arr_get (status (get_bank s bank)) rec) 30) as F.
  { unfold group_status_word, rec.
    rewrite group_status_loop_spec by (destruct high; lia). rewrite Z.bits_0. cbn [orb].
    f_equal. destruct high; lia. }
  destruct (negb ((reg - 0x8000) mod 8 =? 0)); by rewrite E.
Qed.

(** * Witnesses *)

Lemma default_config_ok : fmu_config_ok default_config.
Proof. by cbv. Qed.

Lemma fmu_write_needs_key_witness :
  let s := initial default_config in
  let s' := write32 default_config (0 * BANK_BYTES + 0x8) 0 s in
  unlocked (get_bank s 0) = false /\ ctlr (get_bank s' 0) = ctlr (get_bank s 0).
Proof.
  split; [by vm_compute|].
  pose proof (fmu_write_needs_key default_config (initial default_config) 0 0x8 0
    default_config_ok (fmu_initial_inv _ default_config_ok) eq_refl ltac:(by cbv) ltac:(by cbv)
    ltac:(by cbv) ltac:(by vm_compute) 0 ltac:(lia)) as [H _].
  exact H.
Defined.

Lemma fmu_key_opens_one_write_witness :
  let s1 := write32 default_config (1 * BANK_BYTES + SYS_KEY) SYS_KEY_VALUE (initial default_config) in
  let s2 := write32 default_config (record_reg 1 7 ERR_CTLR_OFFSET) 0 s1 in
  unlocked (get_bank s1 1) = true /\ unlocked (get_bank s2 1) = false.
Proof.
  pose proof (fmu_key_opens_one_write default_config (initial default_config) 1 7 0 5
    default_config_ok (fmu_initial_inv _ default_config_ok) eq_refl ltac:(by cbv) ltac:(by cbv))
    as (H1 & _ & H2 & _).
  split; [exact H1|exact H2].
Defined.

(** Bank 2 unlocked, for a status write that goes through. *)
Definition unlocked_state : zena_fmu :=
  write32 default_config (2 * BANK_BYTES + SYS_KEY) SYS_KEY_VALUE (initial default_config).

Lemma fmu_status_write_one_to_clear_witness :
  Z.testbit (read32 default_config
    (write32 default_config (record_reg 2 3 ERR_STATUS_OFFSET) 0xff unlocked_state)
    (record_reg 2 3 ERR_STATUS_OFFSET)) 0 = false.
Proof.
  pose proof (fmu_status_write_one_to_clear default_config unlocked_state 2 3 0xff
    (fmu_write32_inv _ _ _ _ (fmu_initial_inv _ default_config_ok)) ltac:(by cbv) ltac:(by cbv)
    ltac:(by vm_compute)) as [H _].
  etransitivity; [apply (H 0 ltac:(lia))|by vm_compute].
Defined.

Lemma fmu_group_status_witness :
  Z.testbit (read32 default_config demo_state (0 * BANK_BYTES + (ERRGSR_LOW_BASE + 0 * ERRGSR_STRIDE))) 0 = true.
Proof.
  etransitivity;
    [apply (fmu_group_status default_config demo_state 0 0 false 0 ltac:(by cbv) ltac:(lia) ltac:(lia))|].
  by vm_compute.
Defined.
