(* ===== verification/RegBlock.v ===== *)
(** Register blocks that are an array of bytes, a function for aligned word
    writes and a trace counter: the common shape of the RSE and host blocks
    (RseSam, RseSysctrl, RseIntegrityChecker, HostPpu, HostScr, ...).  Each block
    gives its [write32] on the array; the rest is here, proved to be a target. *)

From S2P Require Import Prelude Bytes Tlm Memory Access.

Record regblock := MkBlock { m_regs : mem; m_trace_count : Z }.

#[export] Instance eta_regblock : Eta regblock := fun s => MkBlock (m_regs s) (m_trace_count s).

(** [if (!p_trace || m_trace_count >= p_trace_limit) return; ++m_trace_count; ...] *)
Definition block_trace (trace : bool) (limit : Z) (_ : tlm_payload) (s : regblock) : regblock :=
  if negb trace || (limit <=? m_trace_count s) then s else s <| m_trace_count ::= fun n => u32 (n + 1) |>.

Lemma block_trace_regs trace limit t s : m_regs (block_trace trace limit t s) = m_regs s.
Proof. unfold block_trace. by case_if. Qed.

Section block.
Context (size : Z) (write32 : Z -> Z -> mem -> mem) (trace : bool) (limit : Z).

Definition block_access : bool -> regblock -> tlm_payload -> regblock * tlm_payload * bool :=
  regfile_access size m_regs (fun f s => s <| m_regs ::= f |>)
    (fun offset value s => s <| m_regs ::= write32 offset value |>) (block_trace trace limit).

(** The effect of an accepted write on the array. *)
Definition block_write (offset len : Z) (data : list Z) (m : mem) : mem :=
  if (len =? 4) && (offset mod 4 =? 0) then write32 (u32 offset) (le_val (get_data 4 data)) m
  else mem_write offset (get_data len data) m.

(** Transactions act on the array as [block_write] says, or not at all. *)
Lemma block_access_regs dbg s t s' t' ok : block_access dbg s t = (s', t', ok) ->
  m_regs s' = m_regs s \/
  exists d, data_ptr t = Some d /\ command t = TLM_WRITE_COMMAND /\ is_supported_length (data_length t) = true /\
    u64 (address t + data_length t) <= size /\
    m_regs s' = block_write (address t) (data_length t) d (m_regs s).
Proof.
  intros H. destruct (array_access_cases _ _ _ _ _ _ _ _ _ _ H)
    as [(_ & -> & _)|[(d & _ & _ & _ & _ & _ & -> & _)|(d & _ & Ed & Ec & Hl & Hs & -> & _)]].
  - by left.
  - left. apply block_trace_regs.
  - right. exists d. split_and!; try done. rewrite block_trace_regs. unfold regfile_write, block_write. by case_if.
Qed.

Hypothesis size_small : size < 2 ^ 32.
Hypothesis write32_ok : forall offset v m, 0 <= offset -> offset mod 4 = 0 -> offset + 4 <= size -> is_u32 v ->
  mem_ok size m -> mem_ok size (write32 offset v m).

#[refine] Definition block_target : TlmTarget regblock :=
  regfile_target size m_regs (fun f s => s <| m_regs ::= f |>)
    (fun offset value s => s <| m_regs ::= write32 offset value |>) (block_trace trace limit)
    (fun s => mem_ok size (m_regs s)) size_small _ _ _ _.
Proof.
  - done.
  - intros offset v s H0 Hal H1 Hv Hs. by apply write32_ok.
  - intros f s Hs Hf. by apply Hf.
  - intros t s Hs. by rewrite block_trace_regs.
Defined.

(** An aligned word written and one read, as transactions. *)
Lemma block_write_word s off v : 0 <= off -> off mod 4 = 0 -> off + 4 <= size -> is_u32 v ->
  m_regs (fst (target_b_transport block_access s (write_txn off v))) = write32 off v (m_regs s).
Proof using size_small.
  intros H0 Hal H1 Hv. unfold block_access.
  destruct (regfile_write_word size m_regs (fun f s => s <| m_regs ::= f |>)
    (fun offset value s => s <| m_regs ::= write32 offset value |>) (block_trace trace limit) s off v) as [u ->]; [done..|].
  by rewrite block_trace_regs.
Qed.

Lemma block_read s off (n : nat) : 0 <= off -> off + Z.of_nat n <= size -> is_supported_length (Z.of_nat n) = true ->
  data_ptr (snd (target_b_transport block_access s (read_txn off n))) = Some (mem_read (m_regs s) off (Z.of_nat n)).
Proof using size_small.
  intros H0 H1 Hn. unfold target_b_transport, block_access, regfile_access, array_access, accept.
  change (data_ptr (_ <| dmi_allowed := false |>)) with (Some (replicate n 0)).
  change (data_length (_ <| dmi_allowed := false |>)) with (Z.of_nat n).
  change (address (_ <| dmi_allowed := false |>)) with off.
  change (command (_ <| dmi_allowed := false |>)) with TLM_READ_COMMAND. cbv zeta.
  rewrite (wrap_small 64) by (split; lia). rewrite Hn. replace (size <? off + Z.of_nat n) with false by lia. cbn [negb orb].
  match goal with |- context [block_trace trace limit ?t s] => destruct (block_trace trace limit t s) end. cbn.
  f_equal. unfold put_data. rewrite drop_ge, app_nil_r; [done|]. rewrite length_replicate.
  pose proof (mem_read_length (m_regs s) off (Z.of_nat n)). lia.
Qed.
End block.
