(* ===== verification/RseSam.v ===== *)
(** The RSE security alarm manager [rse_sam]
    (systemc-components/rse_sam/include/rse_sam.h): a register block whose event
    status words can only be cleared, through the clear words next to them. *)

From S2P Require Import Prelude Bytes Tlm Memory Access RegBlock.

Definition REG_BYTES : Z := 0x1000.
Definition SAMBC : Z := 0x000.
Definition SAMES_BASE : Z := 0x004.
Definition SAMECL_BASE : Z := 0x00c.
Definition PIDR4 : Z := 0xfd0.
Definition PIDR0 : Z := 0xfe0.
Definition PIDR1 : Z := 0xfe4.
Definition PIDR2 : Z := 0xfe8.
Definition PIDR3 : Z := 0xfec.
Definition CIDR0 : Z := 0xff0.
Definition CIDR1 : Z := 0xff4.
Definition CIDR2 : Z := 0xff8.
Definition CIDR3 : Z := 0xffc.
Definition WORD_BYTES : Z := 4.
Definition SAM_EVENT_WORDS : Z := 2.

(** [rse_sam.h: "cci::cci_param<bool> p_trace;" .. "cci::cci_param<uint32_t> p_build_config;"] *)
Record sam_config := { p_trace : bool; p_trace_limit : Z; p_build_config : Z }.

(** [rse_sam.h: in_words] *)
Definition in_words (offset base words : Z) : bool :=
  (base <=? offset) && (offset <? base + words * WORD_BYTES) && ((offset - base) mod WORD_BYTES =? 0).

(** [rse_sam.h: is_read_only] *)
Definition is_read_only (offset : Z) : bool :=
  (offset =? SAMBC) || in_words offset SAMES_BASE SAM_EVENT_WORDS ||
  existsb (Z.eqb offset) [PIDR4; PIDR0; PIDR1; PIDR2; PIDR3; CIDR0; CIDR1; CIDR2; CIDR3].

(** [rse_sam.h: write32] *)
Definition write32 (offset value : Z) (m : mem) : mem :=
  if in_words offset SAMECL_BASE SAM_EVENT_WORDS then
    let status_offset := SAMES_BASE + (offset - SAMECL_BASE) in
    store32 offset value (store32 status_offset (Z.land (load32 m status_offset) (not32 value)) m)
  else if negb (is_read_only offset) then store32 offset value m
  else m.

Section rse_sam.
Context (cfg : sam_config).

(** [rse_sam.h: reset_registers] *)
Definition reset_registers : mem :=
  let m := store32 SAMBC (p_build_config cfg) ∅ in
  let m := store32 PIDR4 0x00000004 m in
  let m := store32 PIDR0 0x000000f4 m in
  let m := store32 PIDR1 0x000000b0 m in
  let m := store32 PIDR2 0x0000000b m in
  let m := store32 PIDR3 0x00000000 m in
  let m := store32 CIDR0 0x0000000d m in
  let m := store32 CIDR1 0x000000f0 m in
  let m := store32 CIDR2 0x00000005 m in
  store32 CIDR3 0x000000b1 m.

(** [rse_sam.h: "explicit rse_sam" .. "target_socket.register_transport_dbg"] *)
Definition initial : regblock := MkBlock reset_registers 0.

(** [rse_sam.h: trace_access] *)
Definition trace_access : tlm_payload -> regblock -> regblock := block_trace (p_trace cfg) (p_trace_limit cfg).

(** [rse_sam.h: access] *)
Definition access : bool -> regblock -> tlm_payload -> regblock * tlm_payload * bool :=
  block_access REG_BYTES write32 (p_trace cfg) (p_trace_limit cfg).

(** [rse_sam.h: b_transport] *)
Definition b_transport : regblock -> tlm_payload -> regblock * tlm_payload := target_b_transport access.

(** [rse_sam.h: transport_dbg] *)
Definition transport_dbg : regblock -> tlm_payload -> regblock * tlm_payload * Z := target_transport_dbg access.
End rse_sam.

Lemma in_words_range offset base words : in_words offset base words = true ->
  base <= offset < base + words * WORD_BYTES.
Proof. unfold in_words. intros H. bool_hyps. lia. Qed.

Lemma sam_write32_ok offset v m : 0 <= offset -> offset mod 4 = 0 -> offset + 4 <= REG_BYTES -> is_u32 v ->
  mem_ok REG_BYTES m -> mem_ok REG_BYTES (write32 offset v m).
Proof.
  intros H0 _ H1 _ Hm. unfold write32, REG_BYTES in *. case_if; [|case_if; eauto with regs].
  apply in_words_range in E. unfold SAMECL_BASE, SAMES_BASE, SAM_EVENT_WORDS, WORD_BYTES in *. cbv zeta. eauto with regs.
Qed.

(** The register socket keeps the contract of a target. *)
Definition sam_target (cfg : sam_config) : TlmTarget regblock :=
  block_target REG_BYTES write32 (p_trace cfg) (p_trace_limit cfg) ltac:(by cbv) sam_write32_ok.

(** A word written to a clear register clears exactly its bits in the status
    word before it, and a status word is otherwise read-only. *)
Lemma sam_event_clear (m : mem) (k v : Z) : 0 <= k < SAM_EVENT_WORDS -> is_u32 v -> mem_ok REG_BYTES m ->
  let m' := write32 (SAMECL_BASE + 4 * k) v m in
  (forall i, 0 <= i < 32 -> Z.testbit (load32 m' (SAMES_BASE + 4 * k)) i =
     Z.testbit (load32 m (SAMES_BASE + 4 * k)) i && negb (Z.testbit v i)) /\
  (forall off, 0 <= off -> off <> SAMES_BASE + 4 * k -> off <> SAMECL_BASE + 4 * k -> off mod 4 = 0 ->
     load32 m' off = load32 m off) /\
  write32 (SAMES_BASE + 4 * k) v m = m.
Proof.
  unfold SAM_EVENT_WORDS. intros Hk Hv Hm. cbv zeta.
  assert (write32 (SAMECL_BASE + 4 * k) v m =
    store32 (0xc + 4 * k) v (store32 (0x4 + 4 * k) (Z.land (load32 m (0x4 + 4 * k)) (not32 v)) m)) as ->.
  { assert (k = 0 \/ k = 1) as [-> | ->] by lia; done. }
  unfold SAMES_BASE, SAMECL_BASE. split; [|split].
  - intros i Hi. rewrite load32_store32_ne by lia. rewrite load32_store32_eq by eauto using load32_u32 with uint.
    rewrite Z.land_spec, cnot_testbit by lia. by replace (i <? 32) with true by lia.
  - intros off H0 H1 H2 Hal. rewrite !load32_store32_ne; [done|lia|lia].
  - assert (k = 0 \/ k = 1) as [-> | ->] by lia; done.
Qed.
