(* ===== verification/RseSysctrl.v ===== *)
(** The RSE system control block [rse_sysctrl]
    (systemc-components/rse_sysctrl/include/rse_sysctrl.h): reset, wait and boot
    registers, and a debug status set and cleared through two words. *)

From S2P Require Import Prelude Bytes Tlm Memory Access RegBlock.

Definition REG_BYTES : Z := 0x1000.
Definition SECDBGSTAT : Z := 0x000.
Definition SECDBGSET : Z := 0x004.
Definition SECDBGCLR : Z := 0x008.
Definition RESET_SYNDROME : Z := 0x100.
Definition SWRESET : Z := 0x108.
Definition CPUWAIT : Z := 0x120.
Definition DMA_BOOT_EN : Z := 0x254.
Definition DMA_BOOT_ADDR : Z := 0x258.

(** [rse_sysctrl.h: "cci::cci_param<bool> p_trace;" .. "cci::cci_param<uint32_t> p_dma_boot_addr;"] *)
Record sysctrl_config := {
  p_trace : bool;
  p_trace_limit : Z;
  p_reset_syndrome : Z;
  p_cpuwait : Z;
  p_dma_boot_en : Z;
  p_dma_boot_addr : Z
}.

(** [rse_sysctrl.h: write32] *)
Definition write32 (offset value : Z) (m : mem) : mem :=
  if offset =? SECDBGSET then
    store32 SECDBGSET value (store32 SECDBGSTAT (Z.lor (load32 m SECDBGSTAT) value) m)
  else if offset =? SECDBGCLR then
    store32 SECDBGCLR value (store32 SECDBGSTAT (Z.land (load32 m SECDBGSTAT) (not32 value)) m)
  else if offset =? SWRESET then store32 SWRESET 0x00000000 m
  else store32 offset value m.

Section rse_sysctrl.
Context (cfg : sysctrl_config).

(** [rse_sysctrl.h: reset_registers] *)
Definition reset_registers : mem :=
  let m := store32 RESET_SYNDROME (p_reset_syndrome cfg) ∅ in
  let m := store32 CPUWAIT (p_cpuwait cfg) m in
  let m := store32 DMA_BOOT_EN (p_dma_boot_en cfg) m in
  store32 DMA_BOOT_ADDR (p_dma_boot_addr cfg) m.

(** [rse_sysctrl.h: "explicit rse_sysctrl" .. "target_socket.register_transport_dbg"] *)
Definition initial : regblock := MkBlock reset_registers 0.

(** [rse_sysctrl.h: trace_access] *)
Definition trace_access : tlm_payload -> regblock -> regblock := block_trace (p_trace cfg) (p_trace_limit cfg).

(** [rse_sysctrl.h: access] *)
Definition access : bool -> regblock -> tlm_payload -> regblock * tlm_payload * bool :=
  block_access REG_BYTES write32 (p_trace cfg) (p_trace_limit cfg).

(** [rse_sysctrl.h: b_transport] *)
Definition b_transport : regblock -> tlm_payload -> regblock * tlm_payload := target_b_transport access.

(** [rse_sysctrl.h: transport_dbg] *)
Definition transport_dbg : regblock -> tlm_payload -> regblock * tlm_payload * Z := target_transport_dbg access.
End rse_sysctrl.

Lemma sysctrl_write32_ok offset v m : 0 <= offset -> offset mod 4 = 0 -> offset + 4 <= REG_BYTES -> is_u32 v ->
  mem_ok REG_BYTES m -> mem_ok REG_BYTES (write32 offset v m).
Proof.
  intros H0 _ H1 _ Hm. unfold write32, REG_BYTES, SECDBGSET, SECDBGCLR, SECDBGSTAT, SWRESET in *.
  repeat (case_if; [eauto with regs|]). eauto with regs.
Qed.

(** The register socket keeps the contract of a target. *)
Definition sysctrl_target (cfg : sysctrl_config) : TlmTarget regblock :=
  block_target REG_BYTES write32 (p_trace cfg) (p_trace_limit cfg) ltac:(by cbv) sysctrl_write32_ok.

(** Setting and then clearing bits of the debug status leaves the bits that were
    set before or asked to be set, without those asked to be cleared. *)
Lemma sysctrl_debug_status (m : mem) (v w : Z) : mem_ok REG_BYTES m -> is_u32 v -> is_u32 w ->
  forall i, 0 <= i < 32 ->
  Z.testbit (load32 (write32 SECDBGCLR w (write32 SECDBGSET v m)) SECDBGSTAT) i =
  (Z.testbit (load32 m SECDBGSTAT) i || Z.testbit v i) && negb (Z.testbit w i).
Proof.
  intros Hm Hv Hw i Hi. unfold write32, SECDBGCLR, SECDBGSET, SECDBGSTAT. cbn [Z.eqb Pos.eqb].
  pose proof (load32_u32 _ m 0 Hm). regs_simpl.
  rewrite Z.land_spec, Z.lor_spec, cnot_testbit by lia. by replace (i <? 32) with true by lia.
Qed.

(** A reset request reads back as zero. *)
Lemma sysctrl_swreset (m : mem) (v : Z) : load32 (write32 SWRESET v m) SWRESET = 0.
Proof. change (write32 SWRESET v m) with (store32 SWRESET 0 m). by rewrite load32_store32_eq by eauto with uint. Qed.
