(* ===== verification/RseIntegrityChecker.v ===== *)
(** The RSE integrity checker [rse_integrity_checker]
    (systemc-components/rse_integrity_checker/include/rse_integrity_checker.h): a
    command register whose start bit completes at once. *)

From S2P Require Import Prelude Bytes Tlm Memory Access RegBlock.

Definition REG_BYTES : Z := 0x1000.
Definition ICBC : Z := 0x000.
Definition ICC : Z := 0x004.
Definition ICIS : Z := 0x008.
Definition ICIE : Z := 0x00c.
Definition ICAE : Z := 0x010.
Definition ICIC : Z := 0x014.
Definition ICDA : Z := 0x018.
Definition ICDL : Z := 0x01c.
Definition ICEVA : Z := 0x020.
Definition ICCVA : Z := 0x024.
Definition ICCVAL_BASE : Z := 0x028.
Definition PIDR4 : Z := 0xfd0.
Definition PIDR0 : Z := 0xfe0.
Definition PIDR1 : Z := 0xfe4.
Definition PIDR2 : Z := 0xfe8.
Definition PIDR3 : Z := 0xfec.
Definition CIDR0 : Z := 0xff0.
Definition CIDR1 : Z := 0xff4.
Definition CIDR2 : Z := 0xff8.
Definition CIDR3 : Z := 0xffc.
Definition ICC_START : Z := bit 0.
Definition ICIS_DONE : Z := bit 0.

(** [rse_integrity_checker.h: "cci::cci_param<bool> p_trace;" .. "cci::cci_param<uint32_t> p_build_config;"] *)
Record integrity_config := { p_trace : bool; p_trace_limit : Z; p_build_config : Z }.

(** [rse_integrity_checker.h: is_read_only] *)
Definition is_read_only (offset : Z) : bool :=
  (offset =? ICBC) || (offset =? ICIS) ||
  ((ICCVAL_BASE <=? offset) && (offset <? ICCVAL_BASE + 8 * 4)) ||
  existsb (Z.eqb offset) [PIDR4; PIDR0; PIDR1; PIDR2; PIDR3; CIDR0; CIDR1; CIDR2; CIDR3].

(** [rse_integrity_checker.h: write32] *)
Definition write32 (offset value : Z) (m : mem) : mem :=
  if offset =? ICIC then store32 ICIC value (store32 ICIS (Z.land (load32 m ICIS) (not32 value)) m)
  else if offset =? ICC then
    let m := store32 ICC value m in
    if test value ICC_START then store32 ICIS (Z.lor (load32 m ICIS) ICIS_DONE) m else m
  else if negb (is_read_only offset) then store32 offset value m
  else m.

Section rse_integrity_checker.
Context (cfg : integrity_config).

(** [rse_integrity_checker.h: reset_registers] *)
Definition reset_registers : mem :=
  let m := store32 ICBC (p_build_config cfg) ∅ in
  let m := store32 ICC 0x00000000 m in
  let m := store32 ICIS 0x00000000 m in
  let m := store32 ICIE 0x00000000 m in
  let m := store32 ICAE 0x00000000 m in
  let m := store32 ICIC 0x00000000 m in
  let m := store32 ICDA 0x00000000 m in
  let m := store32 ICDL 0x00000000 m in
  let m := store32 ICEVA 0x00000000 m in
  let m := store32 ICCVA 0x00000000 m in
  let m := foldl (fun m idx => store32 (ICCVAL_BASE + idx * 4) 0x00000000 m) m (range 8) in
  let m := store32 PIDR4 0x00000004 m in
  let m := store32 PIDR0 0x000000fd m in
  let m := store32 PIDR1 0x000000b0 m in
  let m := store32 PIDR2 0x0000000b m in
  let m := store32 PIDR3 0x00000000 m in
  let m := store32 CIDR0 0x0000000d m in
  let m := store32 CIDR1 0x000000f0 m in
  let m := store32 CIDR2 0x00000005 m in
  store32 CIDR3 0x000000b1 m.

(** [rse_integrity_checker.h: "explicit rse_integrity_checker" .. "target_socket.register_transport_dbg"] *)
Definition initial : regblock := MkBlock reset_registers 0.

(** [rse_integrity_checker.h: trace_access] *)
Definition trace_access : tlm_payload -> regblock -> regblock := block_trace (p_trace cfg) (p_trace_limit cfg).

(** [rse_integrity_checker.h: access] *)
Definition access : bool -> regblock -> tlm_payload -> regblock * tlm_payload * bool :=
  block_access REG_BYTES write32 (p_trace cfg) (p_trace_limit cfg).

(** [rse_integrity_checker.h: b_transport] *)
Definition b_transport : regblock -> tlm_payload -> regblock * tlm_payload := target_b_transport access.

(** [rse_integrity_checker.h: transport_dbg] *)
Definition transport_dbg : regblock -> tlm_payload -> regblock * tlm_payload * Z := target_transport_dbg access.
End rse_integrity_checker.

Lemma integrity_write32_ok offset v m : 0 <= offset -> offset mod 4 = 0 -> offset + 4 <= REG_BYTES -> is_u32 v ->
  mem_ok REG_BYTES m -> mem_ok REG_BYTES (write32 offset v m).
Proof.
  intros H0 _ H1 _ Hm. unfold write32, REG_BYTES, ICIC, ICIS, ICC in *. cbv zeta.
  repeat case_if; eauto with regs.
Qed.

(** The register socket keeps the contract of a target. *)
Definition integrity_target (cfg : integrity_config) : TlmTarget regblock :=
  block_target REG_BYTES write32 (p_trace cfg) (p_trace_limit cfg) ltac:(by cbv) integrity_write32_ok.

(** Starting a check reports it done, and the done flag stays until software
    clears it, whatever other register is written. *)
Lemma integrity_done_until_cleared (m : mem) (v off w : Z) : mem_ok REG_BYTES m -> is_u32 v -> Z.testbit v 0 = true ->
  0 <= off -> off mod 4 = 0 -> off + 4 <= REG_BYTES -> is_u32 w -> off <> ICIC \/ Z.testbit w 0 = false ->
  Z.testbit (load32 (write32 off w (write32 ICC v m)) ICIS) 0 = true.
Proof.
  intros Hm Hv Hs H0 Hal H1 Hw Hclear.
  assert (mem_ok REG_BYTES (write32 ICC v m)) as Hm' by (by apply integrity_write32_ok).
  assert (Z.testbit (load32 (write32 ICC v m) ICIS) 0 = true) as Hdone.
  { unfold write32, ICC, ICIC, ICIS, ICC_START, ICIS_DONE in *. cbn [Z.eqb Pos.eqb]. cbv zeta. rewrite test_bit, Hs by lia.
    rewrite (load32_store32_ne 4 8) by lia. pose proof (load32_u32 _ m 8 Hm). rewrite load32_store32_eq by eauto with uint.
    rewrite Z.lor_spec. apply orb_true_r. }
  generalize dependent (write32 ICC v m). clear m Hm. intros m Hm Hdone. pose proof (load32_u32 _ m ICIS Hm).
  unfold write32, ICIC, ICC, ICIS, ICC_START, ICIS_DONE in *. cbv zeta.
  repeat case_if; bool_hyps; subst; rewrite ?load32_store32_ne by lia; try done.
  - rewrite load32_store32_eq by eauto with uint. rewrite Z.land_spec, Hdone, cnot_testbit by lia.
    destruct Hclear as [|Hw0]; [done|by rewrite Hw0].
  - rewrite (load32_store32_ne 4 8) by lia. rewrite load32_store32_eq by (apply lor_uint; [done|done|by apply bit_uint]).
    by rewrite Z.lor_spec, Hdone.
  - assert (off <> 8) by (intros ->; by vm_compute in E1). rewrite load32_store32_ne by lia. done.
Qed.
