(* ===== verification/RseProtectionCtrl.v ===== *)
(** The RSE protection controllers [rse_protection_ctrl]
    (systemc-components/rse_protection_ctrl/include/rse_protection_ctrl.h): a
    register block with a lock that only grows, a secure and a non-secure socket,
    and a latch for non-secure writes that were denied. *)

From S2P Require Import Prelude Bytes Tlm Memory Access RegBlock.

Definition REG_BYTES : Z := 0x1000.
Definition STATUS : Z := 0x000.
Definition CLEAR : Z := 0x004.
Definition LOCK : Z := 0x010.
Definition BLK_MAX : Z := 0x014.
Definition BLK_CFG : Z := 0x018.
Definition PIDR4 : Z := 0xfd0.
Definition PIDR0 : Z := 0xfe0.
Definition PIDR1 : Z := 0xfe4.
Definition PIDR2 : Z := 0xfe8.
Definition PIDR3 : Z := 0xfec.
Definition CIDR0 : Z := 0xff0.
Definition CIDR1 : Z := 0xff4.
Definition CIDR2 : Z := 0xff8.
Definition CIDR3 : Z := 0xffc.
Definition STATUS_NONSECURE_DENY : Z := bit 0.
Definition PROFILE_REGBANK : Z := 0.
Definition PROFILE_SIE300_MPC : Z := 1.

(** [rse_protection_ctrl.h: "cci::cci_param<bool> p_trace;" .. "cci::cci_param<uint32_t> p_cidr3;"] *)
Record protection_config := {
  p_trace : bool;
  p_trace_limit : Z;
  p_profile : Z;
  p_blk_max : Z;
  p_blk_cfg : Z;
  p_lock_mask : Z;
  p_error_latch : bool;
  p_non_secure_writes : bool;
  p_pidr4 : Z;
  p_pidr0 : Z;
  p_pidr1 : Z;
  p_pidr2 : Z;
  p_pidr3 : Z;
  p_cidr0 : Z;
  p_cidr1 : Z;
  p_cidr2 : Z;
  p_cidr3 : Z
}.

(** [rse_protection_ctrl.h: is_aligned32] *)
Definition is_aligned32 (offset : Z) : bool := Z.land offset 0x3 =? 0.

Section rse_protection_ctrl.
Context (cfg : protection_config).

(** [rse_protection_ctrl.h: locked] *)
Definition locked (m : mem) : bool :=
  negb (p_lock_mask cfg =? 0) && test (load32 m LOCK) (p_lock_mask cfg).

(** [rse_protection_ctrl.h: is_read_only] *)
Definition is_read_only (offset : Z) : bool :=
  if negb (p_profile cfg =? PROFILE_SIE300_MPC) then false
  else existsb (Z.eqb offset)
    [BLK_MAX; BLK_CFG; PIDR4; PIDR0; PIDR1; PIDR2; PIDR3; CIDR0; CIDR1; CIDR2; CIDR3].

(** [rse_protection_ctrl.h: reset_registers] *)
Definition reset_registers : mem :=
  if p_profile cfg =? PROFILE_SIE300_MPC then
    let m := store32 BLK_MAX (p_blk_max cfg) ∅ in
    let m := store32 BLK_CFG (p_blk_cfg cfg) m in
    let m := store32 PIDR4 (p_pidr4 cfg) m in
    let m := store32 PIDR0 (p_pidr0 cfg) m in
    let m := store32 PIDR1 (p_pidr1 cfg) m in
    let m := store32 PIDR2 (p_pidr2 cfg) m in
    let m := store32 PIDR3 (p_pidr3 cfg) m in
    let m := store32 CIDR0 (p_cidr0 cfg) m in
    let m := store32 CIDR1 (p_cidr1 cfg) m in
    let m := store32 CIDR2 (p_cidr2 cfg) m in
    store32 CIDR3 (p_cidr3 cfg) m
  else ∅.

(** [rse_protection_ctrl.h: "explicit rse_protection_ctrl" .. "non_secure_socket.register_transport_dbg"] *)
Definition initial : regblock := MkBlock reset_registers 0.

(** [rse_protection_ctrl.h: before_end_of_elaboration] *)
Definition before_end_of_elaboration (s : regblock) : regblock := s <| m_regs := reset_registers |>.

(** [rse_protection_ctrl.h: write32] *)
Definition write32 (offset value : Z) (m : mem) : mem :=
  if p_error_latch cfg && (offset =? CLEAR) then store32 STATUS (Z.land (load32 m STATUS) (not32 value)) m
  else if negb (p_lock_mask cfg =? 0) && (offset =? LOCK) then
    store32 LOCK (Z.lor (load32 m LOCK) (Z.land value (p_lock_mask cfg))) m
  else if locked m || is_read_only offset then m
  else store32 offset value m.

(** [rse_protection_ctrl.h: trace_access] *)
Definition trace_access (t : tlm_payload) (s : regblock) : regblock := block_trace (p_trace cfg) (p_trace_limit cfg) t s.

(** [rse_protection_ctrl.h: access] *)
Definition access (non_secure : bool) (debug : bool) (s : regblock) (t : tlm_payload)
    : regblock * tlm_payload * bool :=
  let offset := address t in
  let len := data_length t in
  match data_ptr t with
  | None => refuse s t TLM_ADDRESS_ERROR_RESPONSE
  | Some data =>
      if negb (is_supported_length len) || (REG_BYTES <? u64 (offset + len))
      then refuse s t TLM_ADDRESS_ERROR_RESPONSE
      else if non_secure && bool_decide (command t = TLM_WRITE_COMMAND) && negb (p_non_secure_writes cfg) then
        let s := if p_error_latch cfg
                 then s <| m_regs ::= fun m => store32 STATUS (Z.lor (load32 m STATUS) STATUS_NONSECURE_DENY) m |>
                 else s in
        refuse (trace_access t s) t TLM_ADDRESS_ERROR_RESPONSE
      else
        match command t with
        | TLM_READ_COMMAND =>
            let t := t <| data_ptr := Some (put_data (mem_read (m_regs s) offset len) data) |> in
            accept (trace_access t s) t
        | TLM_WRITE_COMMAND =>
            let s :=
              if (len =? 4) && is_aligned32 offset
              then s <| m_regs ::= write32 (u32 offset) (le_val (get_data 4 data)) |>
              else if negb (locked (m_regs s)) then s <| m_regs ::= mem_write offset (get_data len data) |>
              else s in
            accept (trace_access t s) t
        | TLM_IGNORE_COMMAND => refuse s t TLM_COMMAND_ERROR_RESPONSE
        end
  end.

(** [rse_protection_ctrl.h: b_transport] *)
Definition b_transport : regblock -> tlm_payload -> regblock * tlm_payload := target_b_transport (access false).

(** [rse_protection_ctrl.h: transport_dbg] *)
Definition transport_dbg : regblock -> tlm_payload -> regblock * tlm_payload * Z := target_transport_dbg (access false).

(** [rse_protection_ctrl.h: non_secure_b_transport] *)
Definition non_secure_b_transport : regblock -> tlm_payload -> regblock * tlm_payload :=
  target_b_transport (access true).

(** [rse_protection_ctrl.h: non_secure_transport_dbg] *)
Definition non_secure_transport_dbg : regblock -> tlm_payload -> regblock * tlm_payload * Z :=
  target_transport_dbg (access true).
End rse_protection_ctrl.

(** * The lock *)

(** What may change in a locked block: the status word, and more lock bits. *)
Record lock_step (m m' : mem) : Prop := {
  step_same i : 0 <= i -> ~ (STATUS <= i < STATUS + 4) -> ~ (LOCK <= i < LOCK + 4) -> mem_get m' i = mem_get m i;
  step_lock i : Z.testbit (load32 m LOCK) i = true -> Z.testbit (load32 m' LOCK) i = true
}.

#[export] Instance lock_step_preorder : PreOrder lock_step.
Proof.
  split; [by split|]. intros m m' m'' [H1 H2] [H3 H4]. split; [|auto]. intros i H0 Hs Hl. by rewrite H3, H1.
Qed.

Lemma lock_step_status v m : lock_step m (store32 STATUS v m).
Proof.
  split.
  - intros i Hi Hs _. unfold store32. rewrite mem_get_write_out; [done|]. rewrite le_bytes_length. unfold STATUS in *. lia.
  - intros i. rewrite load32_store32_ne; [done|]. unfold STATUS, LOCK. lia.
Qed.

Lemma lock_step_lock v m : is_u32 v -> is_u32 (load32 m LOCK) -> lock_step m (store32 LOCK (Z.lor (load32 m LOCK) v) m).
Proof.
  intros Hv Hm. split.
  - intros i Hi _ Hl. unfold store32. rewrite mem_get_write_out; [done|]. rewrite le_bytes_length. unfold LOCK in *. lia.
  - intros i Hi. rewrite load32_store32_eq by (apply lor_uint; done || lia). by rewrite Z.lor_spec, Hi.
Qed.

Section lock.
Context (cfg : protection_config) (Hmask : is_u32 (p_lock_mask cfg)).

Lemma locked_mono m m' : is_u32 (load32 m LOCK) -> lock_step m m' -> locked cfg m = true -> locked cfg m' = true.
Proof using Hmask.
  intros Hm [_ Hl] H. unfold locked in *. apply andb_true_iff in H as [Hz Ht]. apply andb_true_iff. split; [done|].
  assert (0 <= p_lock_mask cfg) by apply Hmask.
  apply test_spec in Ht as (i & Hi & H1 & H2); [|by right]. apply test_spec; [by right|]. exists i. auto.
Qed.

Lemma protection_write32_locked offset v m : is_u32 v -> is_u32 (load32 m LOCK) -> locked cfg m = true ->
  lock_step m (write32 cfg offset v m).
Proof.
  intros Hv Hm Hl. unfold write32. rewrite Hl. cbn [orb]. case_if; [apply lock_step_status|]. case_if; [|done].
  apply lock_step_lock; [|done]. apply land_uint_l; [lia|done].
Qed.

Lemma protection_access_locked ns dbg s t s' t' ok : payload_ok t -> is_u32 (load32 (m_regs s) LOCK) ->
  locked cfg (m_regs s) = true -> access cfg ns dbg s t = (s', t', ok) -> lock_step (m_regs s) (m_regs s').
Proof.
  intros Ht Hm Hl H. unfold access, refuse, accept in H. destruct (data_ptr t) as [d|] eqn:Ed; [|by simplify_eq].
  destruct (_ || _); [by simplify_eq|]. destruct (_ && _ && _).
  - simplify_eq. unfold trace_access. rewrite block_trace_regs. case_if; [apply lock_step_status|done].
  - destruct (command t); simplify_eq; [by unfold trace_access; rewrite block_trace_regs| |done].
    unfold trace_access. rewrite block_trace_regs, Hl. cbn [negb]. case_if; [|done]. bool_hyps.
    apply protection_write32_locked; [|done|done]. by apply (get_word_u32 t).
Qed.

Lemma protection_regs_ok ns dbg s t s' t' ok : payload_ok t -> mem_ok REG_BYTES (m_regs s) ->
  access cfg ns dbg s t = (s', t', ok) -> mem_ok REG_BYTES (m_regs s').
Proof.
  intros Ht Hm H. unfold access, refuse, accept in H. destruct (data_ptr t) as [d|] eqn:Ed; [|by simplify_eq].
  destruct (_ || _) eqn:Eg; [by simplify_eq|]. bool_hyps. destruct (_ && _ && _).
  - simplify_eq. unfold trace_access. rewrite block_trace_regs. case_if; [|done]. cbn.
    apply mem_ok_store32; [done|by cbv|by cbv].
  - destruct (command t); simplify_eq; [by unfold trace_access; rewrite block_trace_regs| |done].
    unfold trace_access. rewrite block_trace_regs.
    pose proof Ht as (Ha & [Hn Hn'] & He & Hd). rewrite Ed in Hd. destruct Hd as [Hd Hok].
    match goal with H : (REG_BYTES <? _) = false |- _ => rewrite wrap_small in H by (split; lia); apply Z.ltb_ge in H end.
    case_if; [|case_if; [|done]]; cbn.
    + bool_hyps. rewrite wrap_small by (unfold REG_BYTES in *; split; lia). unfold write32.
      repeat case_if; try done; apply mem_ok_store32; try done; unfold STATUS, LOCK, REG_BYTES in *; lia.
    + apply mem_ok_write; [done|by apply get_data_ok|done|]. rewrite get_data_length by lia. lia.
Qed.
End lock.

(** C33. Once a protection controller is locked it stays locked and keeps its
    registers: over any run of transactions on its two sockets, of any length and
    alignment, only the status word changes and only more lock bits are set.  And a
    write on the non-secure socket, where those are not allowed, is refused and
    changes nothing but the denial flag of the status word. *)
Theorem protection_lock_holds (cfg : protection_config) (s : regblock) (txns : list (bool * bool * tlm_payload)) :
  is_u32 (p_lock_mask cfg) -> mem_ok REG_BYTES (m_regs s) -> Forall (fun '(_, _, t) => payload_ok t) txns ->
  let s' := foldl (fun s '(ns, dbg, t) => fst (fst (access cfg ns dbg s t))) s txns in
  (locked cfg (m_regs s) = true -> locked cfg (m_regs s') = true /\ lock_step (m_regs s) (m_regs s')) /\
  (forall dbg t, p_non_secure_writes cfg = false -> command t = TLM_WRITE_COMMAND ->
     let '(s'', t'', ok) := access cfg true dbg s' t in
     ok = false /\ response_status t'' = TLM_ADDRESS_ERROR_RESPONSE /\
     (m_regs s'' = m_regs s' \/
      m_regs s'' = store32 STATUS (Z.lor (load32 (m_regs s') STATUS) STATUS_NONSECURE_DENY) (m_regs s'))).
Proof.
  intros Hmask Hm Htxns. cbv zeta. split.
  - intros Hl. revert s Hm Hl. induction Htxns as [|[[ns dbg] t] txns Ht _ IH]; intros s Hm Hl; [done|].
    cbn [foldl]. destruct (access cfg ns dbg s t) as [[s1 t1] ok] eqn:E. cbn [fst].
    pose proof (load32_u32 _ _ LOCK Hm) as Hu.
    pose proof (protection_access_locked cfg ns dbg s t s1 t1 ok Ht Hu Hl E) as Hstep.
    pose proof (protection_regs_ok cfg ns dbg s t s1 t1 ok Ht Hm E) as Hm1.
    pose proof (locked_mono cfg Hmask _ _ Hu Hstep Hl) as Hl1.
    destruct (IH s1 Hm1 Hl1) as [H1 H2]. split; [done|by transitivity (m_regs s1)].
  - intros dbg t Hns Hc. generalize (foldl (fun s '(ns, dbg, t) => fst (fst (access cfg ns dbg s t))) s txns). intros s'.
    unfold access, refuse. rewrite Hns, Hc. destruct (data_ptr t); [|by auto]. destruct (_ || _); [by auto|].
    cbn [andb negb bool_decide decide]. unfold trace_access.
    destruct (p_error_latch cfg); (split; [done|]; split; [done|]); rewrite block_trace_regs; auto.
Qed.

(** A controller locked by one secure write: a word, a wide and a byte write and a
    non-secure write leave the block configuration as it was. *)
Definition example_protection : protection_config :=
  {| p_trace := false; p_trace_limit := 64; p_profile := PROFILE_SIE300_MPC; p_blk_max := 1; p_blk_cfg := 7;
     p_lock_mask := 1; p_error_latch := true; p_non_secure_writes := false; p_pidr4 := 4; p_pidr0 := 0x65;
     p_pidr1 := 0xb8; p_pidr2 := 0xb; p_pidr3 := 0; p_cidr0 := 0xd; p_cidr1 := 0xf0; p_cidr2 := 5; p_cidr3 := 0xb1 |}.

Definition example_locked : regblock :=
  fst (b_transport example_protection (initial example_protection) (write_txn LOCK 1)).

Definition example_protection_txns : list (bool * bool * tlm_payload) :=
  [(false, false, write_txn 0x20 0x1234); (false, true, write_bytes_txn LOCK (le_bytes 8 0));
   (false, false, write_bytes_txn LOCK [0]); (true, false, write_txn 0x20 1)].

Lemma example_locked_ok : mem_ok REG_BYTES (m_regs example_locked).
Proof.
  unfold example_locked, b_transport, target_b_transport.
  destruct (access _ _ _ _ _) as [[s' t'] ok] eqn:E. revert E. apply protection_regs_ok; [by apply write_txn_ok|].
  cbn [m_regs initial]. unfold reset_registers. change (p_profile _ =? _) with true. cbv zeta.
  repeat (apply mem_ok_store32; [|by cbv|by cbv]). apply mem_ok_empty.
Qed.

Lemma protection_lock_holds_witness :
  let s' := foldl (fun s '(ns, dbg, t) => fst (fst (access example_protection ns dbg s t))) example_locked example_protection_txns in
  locked example_protection (m_regs s') = true /\ load32 (m_regs s') STATUS = 1.
Proof.
  split; [|by vm_compute].
  refine (proj1 (proj1 (protection_lock_holds example_protection example_locked example_protection_txns _ _ _) _)).
  - split; by cbv.
  - apply example_locked_ok.
  - repeat apply Forall_cons_2; try apply Forall_nil_2; first [by apply write_txn_ok|apply write_bytes_txn_ok; [done|simpl; lia|by repeat constructor]].
  - by vm_compute.
Defined.
