(* ===== verification/HostPpu.v ===== *)
(** The host power policy unit [host_ppu]
    (systemc-components/host_ppu/include/host_ppu.h): a policy register mirrored
    in a status register, the thread that pulses the load line and releases reset
    when the power comes on, and the reset asserted when it goes off. *)

From S2P Require Import Prelude Bytes Tlm Memory Access.

Definition REG_BYTES : Z := 0x1000.
Definition PPU_PWPR : Z := 0x000.
Definition PPU_PMER : Z := 0x004.
Definition PPU_PWSR : Z := 0x008.
Definition PPU_POWER_MASK : Z := 0x0000000f.
Definition PPU_POWER_DYN_ENABLE : Z := 0x00000100.
Definition PPU_POWER_DYN_STATUS : Z := 0x00000100.
Definition PPU_OFF_LOCK_ENABLE : Z := 0x00001000.
Definition PPU_OFF_LOCK_STATUS : Z := 0x00001000.
Definition PPU_OP_POLICY_MASK : Z := 0x000f0000.
Definition PPU_OP_DYN_ENABLE : Z := 0x01000000.
Definition PPU_OP_DYN_STATUS : Z := 0x01000000.
Definition PPU_POWER_STATUS_OFF : Z := 0x0.
Definition PPU_POWER_STATUS_ON : Z := 0x8.

(** The waits have no length in the model: they end when the thread is resumed. *)
(** [host_ppu.h: "cci::cci_param<bool> p_trace;" .. "InitiatorSignalSocket<bool> power_on_load;"] *)
Record ppu_config := {
  p_trace : bool;
  p_trace_limit : Z;
  p_initial_power_status : Z;
  p_assert_power_on_reset : bool;
  p_power_on_reset_assert_on_power_off : bool;
  p_assert_power_on_load : bool;
  power_on_reset_bound : bool;
  power_on_load_bound : bool
}.

Inductive ppu_line := power_on_reset | power_on_load.

(** Where the thread waits: for the event, with the load line high, or before it
    releases reset. *)
Inductive ppu_thread := wait_event | wait_load_pulse | wait_reset_delay.

#[export] Instance ppu_thread_eq_dec : EqDecision ppu_thread.
Proof. solve_decision. Defined.

(** [m_event] is a pending notification of the event, [m_signals] the values
    written to the two lines, oldest first. *)
(** [host_ppu.h: "std::array<uint8_t, REG_BYTES> m_regs{};" .. "sc_core::sc_event m_power_on_sequence_event;"] *)
Record host_ppu := MkPpu {
  m_regs : mem;
  m_trace_count : Z;
  m_event : bool;
  m_thread : ppu_thread;
  m_signals : list (ppu_line * bool)
}.

#[export] Instance eta_host_ppu : Eta host_ppu := fun s =>
  MkPpu (m_regs s) (m_trace_count s) (m_event s) (m_thread s) (m_signals s).

(** [host_ppu.h: power_status_is_on] *)
Definition power_status_is_on (status : Z) : bool := Z.land status PPU_POWER_MASK =? PPU_POWER_STATUS_ON.

(** [host_ppu.h: power_status_is_off] *)
Definition power_status_is_off (status : Z) : bool := Z.land status PPU_POWER_MASK =? PPU_POWER_STATUS_OFF.

Section host_ppu.
Context (cfg : ppu_config).

(** [host_ppu.h: reset_registers] *)
Definition reset_registers : mem := store32 PPU_PWSR (Z.land (p_initial_power_status cfg) PPU_POWER_MASK) ∅.

(** [host_ppu.h: "explicit host_ppu" .. "target_socket.register_transport_dbg"] *)
Definition initial : host_ppu := MkPpu reset_registers 0 false wait_event [].

(** [host_ppu.h: trace_signal] *)
Definition trace_signal (s : host_ppu) : host_ppu :=
  if negb (p_trace cfg) || (p_trace_limit cfg <=? m_trace_count s) then s
  else s <| m_trace_count ::= fun n => u32 (n + 1) |>.

(** [host_ppu.h: write_power_on_reset] *)
Definition write_power_on_reset (asserted : bool) (s : host_ppu) : host_ppu :=
  let s := trace_signal s in
  if power_on_reset_bound cfg then s <| m_signals ::= fun l => l ++ [(power_on_reset, asserted)] |> else s.

(** [host_ppu.h: write_power_on_load] *)
Definition write_power_on_load (asserted : bool) (s : host_ppu) : host_ppu :=
  let s := trace_signal s in
  if power_on_load_bound cfg then s <| m_signals ::= fun l => l ++ [(power_on_load, asserted)] |> else s.

(** [host_ppu.h: observe_power_transition] *)
Definition observe_power_transition (previous_status status : Z) (s : host_ppu) : host_ppu :=
  if negb (power_status_is_on previous_status) && power_status_is_on status then
    (trace_signal s) <| m_event := true |>
  else if power_status_is_on previous_status && power_status_is_off status &&
          p_power_on_reset_assert_on_power_off cfg then write_power_on_reset true s
  else s.

(** [host_ppu.h: write32] *)
Definition write32 (offset value : Z) (s : host_ppu) : host_ppu :=
  if offset =? PPU_PWPR then
    let previous_status := load32 (m_regs s) PPU_PWSR in
    let status := previous_status in
    let s := s <| m_regs ::= store32 PPU_PWPR value |> in
    let status := Z.land status (not32 (Z.lor (Z.lor (Z.lor (Z.lor PPU_POWER_MASK PPU_POWER_DYN_STATUS)
                    PPU_OFF_LOCK_STATUS) PPU_OP_POLICY_MASK) PPU_OP_DYN_STATUS)) in
    let status := Z.lor status (Z.land value (Z.lor PPU_POWER_MASK PPU_OP_POLICY_MASK)) in
    let status := if test value PPU_POWER_DYN_ENABLE then Z.lor status PPU_POWER_DYN_STATUS else status in
    let status := if test value PPU_OFF_LOCK_ENABLE then Z.lor status PPU_OFF_LOCK_STATUS else status in
    let status := if test value PPU_OP_DYN_ENABLE then Z.lor status PPU_OP_DYN_STATUS else status in
    let s := s <| m_regs ::= store32 PPU_PWSR status |> in
    observe_power_transition previous_status status s
  else if offset =? PPU_PMER then s <| m_regs ::= store32 PPU_PMER value |>
  else if offset =? PPU_PWSR then s
  else s <| m_regs ::= store32 offset value |>.

(** The end of a turn of the thread: release reset if configured, wait again. *)
(** [host_ppu.h: "if (p_assert_power_on_reset.get_value()) {" .. "write_power_on_reset(false);"] *)
Definition finish_sequence (s : host_ppu) : host_ppu := (write_power_on_reset false s) <| m_thread := wait_event |>.

(** [host_ppu.h: "if (p_assert_power_on_reset.get_value()) {" .. "wait_ns(p_power_on_load_to_reset_delay_ns"] *)
Definition before_reset (s : host_ppu) : host_ppu :=
  if p_assert_power_on_reset cfg then s <| m_thread := wait_reset_delay |> else s <| m_thread := wait_event |>.

(** The thread runs from where it waits to its next wait. *)
(** [host_ppu.h: emit_power_on_sequence] *)
Definition emit_power_on_sequence (s : host_ppu) : host_ppu :=
  match m_thread s with
  | wait_event =>
      if p_assert_power_on_load cfg then (write_power_on_load true s) <| m_thread := wait_load_pulse |>
      else before_reset s
  | wait_load_pulse => before_reset (write_power_on_load false s)
  | wait_reset_delay => finish_sequence s
  end.

(** The kernel delivers the notification: it wakes the thread if that waits for
    the event, and is lost otherwise. *)
Definition deliver_event (s : host_ppu) : host_ppu :=
  if m_event s then
    let s := s <| m_event := false |> in
    match m_thread s with wait_event => emit_power_on_sequence s | _ => s end
  else s.

(** The delay the thread waits for is over. *)
Definition delay_over (s : host_ppu) : host_ppu :=
  match m_thread s with wait_event => s | _ => emit_power_on_sequence s end.

(** [host_ppu.h: trace_access] *)
Definition trace_access (_ : tlm_payload) (s : host_ppu) : host_ppu := trace_signal s.

(** [host_ppu.h: access] *)
Definition access : bool -> host_ppu -> tlm_payload -> host_ppu * tlm_payload * bool :=
  regfile_access REG_BYTES m_regs (fun f s => s <| m_regs ::= f |>) write32 trace_access.

(** [host_ppu.h: b_transport] *)
Definition b_transport : host_ppu -> tlm_payload -> host_ppu * tlm_payload := target_b_transport access.

(** [host_ppu.h: transport_dbg] *)
Definition transport_dbg : host_ppu -> tlm_payload -> host_ppu * tlm_payload * Z := target_transport_dbg access.

(** * The registers *)

Lemma trace_signal_regs s : m_regs (trace_signal s) = m_regs s.
Proof. unfold trace_signal. by case_if. Qed.

Lemma write_reset_regs b s : m_regs (write_power_on_reset b s) = m_regs s.
Proof. unfold write_power_on_reset. case_if; apply trace_signal_regs. Qed.

Lemma observe_regs p q s : m_regs (observe_power_transition p q s) = m_regs s.
Proof.
  unfold observe_power_transition. case_if; [apply trace_signal_regs|]. case_if; [apply write_reset_regs|done].
Qed.

Lemma ppu_write32_ok offset v s : 0 <= offset -> offset mod 4 = 0 -> offset + 4 <= REG_BYTES -> is_u32 v ->
  mem_ok REG_BYTES (m_regs s) -> mem_ok REG_BYTES (m_regs (write32 offset v s)).
Proof.
  intros H0 _ H1 _ Hm. unfold write32, REG_BYTES, PPU_PWPR, PPU_PMER, PPU_PWSR in *. cbv zeta.
  case_if; [rewrite observe_regs; cbn; apply mem_ok_store32; [apply mem_ok_store32; [done|by cbv|by cbv]|by cbv|by cbv]|].
  repeat case_if; cbn; try done; apply mem_ok_store32; first [done|lia].
Qed.

(** The register socket keeps the contract of a target. *)
#[refine] Definition ppu_target : TlmTarget host_ppu :=
  regfile_target REG_BYTES m_regs (fun f s => s <| m_regs ::= f |>) write32 trace_access
    (fun s => mem_ok REG_BYTES (m_regs s)) _ _ _ _ _.
Proof.
  - by cbv.
  - done.
  - apply ppu_write32_ok.
  - intros f s Hs Hf. by apply Hf.
  - intros t s Hs. by rewrite trace_signal_regs.
Defined.

(** * Power transitions *)

(** The bits the policy hands to the status. *)
Definition mirrored : Z := 0x010f110f.

Lemma or_test s v n : 0 <= n -> (if test v (bit n) then Z.lor s (bit n) else s) = Z.lor s (Z.land v (bit n)).
Proof.
  intros Hn. rewrite test_bit by done. apply Z.bits_inj'. intros i Hi. rewrite Z.lor_spec, Z.land_spec, bit_testbit by done.
  destruct (Z.testbit v n) eqn:E; [rewrite Z.lor_spec, bit_testbit by done|];
    destruct (Z.eqb_spec i n) as [->|]; rewrite ?E, ?andb_false_r, ?orb_false_r; done.
Qed.

(** A policy write copies the mirrored bits and reacts to the change of power. *)
Lemma write_policy s v : is_u32 v -> is_u32 (load32 (m_regs s) PPU_PWSR) ->
  let old := load32 (m_regs s) PPU_PWSR in
  let new := Z.lor (Z.ldiff old mirrored) (Z.land v mirrored) in
  write32 PPU_PWPR v s =
    observe_power_transition old new (s <| m_regs := store32 PPU_PWSR new (store32 PPU_PWPR v (m_regs s)) |>).
Proof.
  intros Hv Hold. cbv zeta. set (old := load32 _ _) in *. unfold write32. fold old. change (PPU_PWPR =? PPU_PWPR) with true. cbv iota zeta.
  unfold PPU_POWER_DYN_ENABLE, PPU_POWER_DYN_STATUS, PPU_OFF_LOCK_ENABLE, PPU_OFF_LOCK_STATUS, PPU_OP_DYN_ENABLE, PPU_OP_DYN_STATUS.
  change 0x100 with (bit 8). change 0x1000 with (bit 12). change 0x1000000 with (bit 24). rewrite !or_test by lia.
  rewrite land_cnot by (done || lia).
  assert (Z.lor (Z.lor (Z.lor (Z.lor (Z.ldiff old (Z.lor (Z.lor (Z.lor (Z.lor PPU_POWER_MASK (bit 8)) (bit 12)) PPU_OP_POLICY_MASK) (bit 24)))
    (Z.land v (Z.lor PPU_POWER_MASK PPU_OP_POLICY_MASK))) (Z.land v (bit 8))) (Z.land v (bit 12))) (Z.land v (bit 24)) =
    Z.lor (Z.ldiff old mirrored) (Z.land v mirrored)) as ->; [|done].
  change (Z.lor (Z.lor (Z.lor (Z.lor PPU_POWER_MASK (bit 8)) (bit 12)) PPU_OP_POLICY_MASK) (bit 24)) with mirrored.
  rewrite <-!Z.lor_assoc. f_equal. rewrite <-!Z.land_lor_distr_r. done.
Qed.
End host_ppu.

(** The signals of a power-on sequence. *)
Definition power_on_signals (cfg : ppu_config) : list (ppu_line * bool) :=
  (if p_assert_power_on_load cfg && power_on_load_bound cfg then [(power_on_load, true); (power_on_load, false)] else []) ++
  (if p_assert_power_on_reset cfg && power_on_reset_bound cfg then [(power_on_reset, false)] else []).

(** What the trace and the register file do not touch. *)
Definition same_control (s s' : host_ppu) : Prop :=
  m_event s' = m_event s /\ m_thread s' = m_thread s /\ m_signals s' = m_signals s.

Lemma trace_signal_control cfg s : same_control s (trace_signal cfg s).
Proof. unfold trace_signal. by case_if. Qed.

Lemma write_reset_signals cfg b s : let s' := write_power_on_reset cfg b s in
  m_event s' = m_event s /\ m_thread s' = m_thread s /\
  m_signals s' = m_signals s ++ (if power_on_reset_bound cfg then [(power_on_reset, b)] else []).
Proof.
  cbv zeta. unfold write_power_on_reset. destruct (trace_signal_control cfg s) as (H1 & H2 & H3).
  destruct (power_on_reset_bound cfg); cbn; rewrite H1, H2, H3, ?app_nil_r; done.
Qed.

Lemma write_load_signals cfg b s : let s' := write_power_on_load cfg b s in
  m_regs s' = m_regs s /\ m_event s' = m_event s /\ m_thread s' = m_thread s /\
  m_signals s' = m_signals s ++ (if power_on_load_bound cfg then [(power_on_load, b)] else []).
Proof.
  cbv zeta. unfold write_power_on_load. destruct (trace_signal_control cfg s) as (H1 & H2 & H3).
  pose proof (trace_signal_regs cfg s) as H4.
  destruct (power_on_load_bound cfg); cbn; rewrite H1, H2, H3, H4, ?app_nil_r; done.
Qed.

(** The thread at each of its waits. *)
Lemma delay_over_idle cfg s : m_thread s = wait_event -> delay_over cfg s = s.
Proof. intros H. unfold delay_over. by rewrite H. Qed.

Lemma delay_over_load cfg s : m_thread s = wait_load_pulse ->
  delay_over cfg s = before_reset cfg (write_power_on_load cfg false s).
Proof. intros H. unfold delay_over, emit_power_on_sequence. by rewrite H. Qed.

Lemma delay_over_reset cfg s : m_thread s = wait_reset_delay -> delay_over cfg s = finish_sequence cfg s.
Proof. intros H. unfold delay_over, emit_power_on_sequence. by rewrite H. Qed.

(** From the wait before the release of reset, or past it. *)
Lemma reset_phase cfg s : let s' := delay_over cfg (before_reset cfg s) in
  m_regs s' = m_regs s /\ m_event s' = m_event s /\ m_thread s' = wait_event /\
  m_signals s' = m_signals s ++
    (if p_assert_power_on_reset cfg && power_on_reset_bound cfg then [(power_on_reset, false)] else []).
Proof.
  cbv zeta. unfold before_reset. destruct (p_assert_power_on_reset cfg); cbn [andb].
  - rewrite delay_over_reset by done. unfold finish_sequence. set (s1 := s <| m_thread := wait_reset_delay |>).
    destruct (write_reset_signals cfg false s1) as (E & _ & S). pose proof (write_reset_regs cfg false s1) as R.
    split; [exact R|]. split; [exact E|]. split; [done|exact S].
  - rewrite delay_over_idle by done. by rewrite app_nil_r.
Qed.

(** The thread, once notified, runs its sequence through its two waits. *)
Lemma sequence_runs cfg s : m_thread s = wait_event -> m_event s = true ->
  let s' := delay_over cfg (delay_over cfg (deliver_event cfg s)) in
  m_regs s' = m_regs s /\ m_event s' = false /\ m_thread s' = wait_event /\
  m_signals s' = m_signals s ++ power_on_signals cfg.
Proof.
  intros Ht He. cbv zeta. unfold deliver_event. rewrite He. set (s0 := s <| m_event := false |>).
  assert (m_thread s0 = wait_event) as Ht0 by done. rewrite Ht0. unfold emit_power_on_sequence. rewrite Ht0.
  unfold power_on_signals. destruct (p_assert_power_on_load cfg); cbn [andb].
  - destruct (write_load_signals cfg true s0) as (R1 & E1 & _ & S1).
    set (s1 := (write_power_on_load cfg true s0) <| m_thread := wait_load_pulse |>).
    rewrite (delay_over_load cfg s1) by done.
    destruct (write_load_signals cfg false s1) as (R2 & E2 & _ & S2).
    destruct (reset_phase cfg (write_power_on_load cfg false s1)) as (R3 & E3 & T3 & S3).
    split; [exact (eq_trans R3 (eq_trans R2 R1))|]. split; [exact (eq_trans E3 (eq_trans E2 E1))|]. split; [done|].
    rewrite S3, S2, app_assoc. f_equal. change (m_signals s1) with (m_signals (write_power_on_load cfg true s0)).
    rewrite S1. change (m_signals s0) with (m_signals s). rewrite <-app_assoc. by destruct (power_on_load_bound cfg).
  - destruct (reset_phase cfg s0) as (R3 & E3 & T3 & S3). rewrite (delay_over_idle cfg (delay_over _ _)) by done.
    split; [exact R3|]. split; [exact E3|]. split; [done|exact S3].
Qed.

(** A policy word as the bus writes it. *)
Lemma policy_write_txn cfg s v : is_u32 v -> exists s',
  fst (b_transport cfg s (write_txn PPU_PWPR v)) = trace_signal cfg s' /\ s' = write32 cfg PPU_PWPR v s.
Proof.
  intros Hv. unfold b_transport, access.
  destruct (regfile_write_word REG_BYTES m_regs (fun f s => s <| m_regs ::= f |>) (write32 cfg) (trace_access cfg) s PPU_PWPR v)
    as [u ->]; [by cbv..|done|]. by eexists.
Qed.

Lemma mirror_u32 old v : is_u32 old -> is_u32 v -> is_u32 (Z.lor (Z.ldiff old mirrored) (Z.land v mirrored)).
Proof. intros. apply lor_uint; [done|by apply ldiff_uint|by apply land_uint_l]. Qed.

Lemma mirrored_status old v : is_u32 old ->
  Z.land (Z.lor (Z.ldiff old mirrored) (Z.land v mirrored)) PPU_POWER_MASK = Z.land v PPU_POWER_MASK.
Proof.
  intros Ho. apply Z.bits_inj'. intros i Hi. rewrite !Z.land_spec, Z.lor_spec, Z.ldiff_spec, Z.land_spec.
  destruct (Z.testbit PPU_POWER_MASK i) eqn:E; [|by rewrite !andb_false_r].
  assert (Z.testbit mirrored i = true) as ->; [|by rewrite !andb_true_r, andb_false_r].
  destruct (Z.lt_ge_cases i 4) as [Hlt|Hge].
  - assert (i = 0 \/ i = 1 \/ i = 2 \/ i = 3) as H by lia. by destruct_or! H; subst.
  - change PPU_POWER_MASK with (Z.ones 4) in E. rewrite Z.ones_spec_high in E; [done|lia].
Qed.

(** C34. Power comes on and goes off again.  When software writes a policy whose
    power mode is on to a unit that is not on, whose thread is idle, the status
    register takes the mirrored bits of the policy and nothing is signalled yet;
    once the notification is delivered and the two delays have passed, the lines
    have seen exactly the configured sequence - load high, load low, reset
    released - and the thread is idle again.  Writing a policy whose mode is off
    then asserts reset at once, if so configured, and schedules nothing. *)
Theorem ppu_power_cycle (cfg : ppu_config) (s : host_ppu) (v w : Z) :
  mem_ok REG_BYTES (m_regs s) -> is_u32 v -> is_u32 w -> m_thread s = wait_event -> m_event s = false ->
  power_status_is_on (load32 (m_regs s) PPU_PWSR) = false -> power_status_is_on v = true -> power_status_is_off w = true ->
  let s1 := fst (b_transport cfg s (write_txn PPU_PWPR v)) in
  let s2 := delay_over cfg (delay_over cfg (deliver_event cfg s1)) in
  let s3 := fst (b_transport cfg s2 (write_txn PPU_PWPR w)) in
  m_signals s1 = m_signals s /\
  load32 (m_regs s1) PPU_PWSR =
    Z.lor (Z.ldiff (load32 (m_regs s) PPU_PWSR) mirrored) (Z.land v mirrored) /\
  m_signals s2 = m_signals s ++ power_on_signals cfg /\ m_thread s2 = wait_event /\ m_event s2 = false /\
  m_signals s3 = m_signals s2 ++
    (if p_power_on_reset_assert_on_power_off cfg && power_on_reset_bound cfg then [(power_on_reset, true)] else []) /\
  m_event s3 = false /\ power_status_is_off (load32 (m_regs s3) PPU_PWSR) = true.
Proof.
  intros Hm Hv Hw Ht He Hoff Hon Hoff'. cbv zeta.
  pose proof (load32_u32 _ _ PPU_PWSR Hm) as Hold.
  destruct (policy_write_txn cfg s v Hv) as (s1 & -> & E1). rewrite (write_policy cfg s v Hv Hold) in E1.
  set (old := load32 (m_regs s) PPU_PWSR) in *. set (new := Z.lor (Z.ldiff old mirrored) (Z.land v mirrored)) in *.
  assert (is_u32 new) as Hnew by (by apply mirror_u32).
  assert (power_status_is_on new = true) as Hnon by (unfold power_status_is_on, new; by rewrite mirrored_status).
  unfold observe_power_transition in E1. rewrite Hoff, Hnon in E1. cbn [negb andb] in E1.
  set (s0 := s <| m_regs := store32 PPU_PWSR new (store32 PPU_PWPR v (m_regs s)) |>) in E1.
  destruct (trace_signal_control cfg s0) as (Ce & Ct & Cs). destruct (trace_signal_control cfg s1) as (De & Dt & Ds).
  assert (m_regs (trace_signal cfg s1) = m_regs s0) as Er by (rewrite trace_signal_regs, E1; apply trace_signal_regs).
  assert (m_thread (trace_signal cfg s1) = wait_event) as Et by (rewrite Dt, E1; exact (eq_trans Ct Ht)).
  assert (m_event (trace_signal cfg s1) = true) as Ee by (rewrite De, E1; done).
  assert (m_signals (trace_signal cfg s1) = m_signals s) as Es by (rewrite Ds, E1; exact Cs).
  destruct (sequence_runs cfg (trace_signal cfg s1) Et Ee) as (R2 & E2 & T2 & S2).
  split; [done|]. split; [rewrite Er; by apply load32_store32_eq|]. split; [by rewrite S2, Es|]. split; [done|]. split; [done|].
  set (s2 := delay_over _ _) in *. clearbody s2.
  assert (load32 (m_regs s2) PPU_PWSR = new) as Enew by (rewrite R2, Er; by apply load32_store32_eq).
  destruct (policy_write_txn cfg s2 w Hw) as (s3 & -> & E3).
  rewrite (write_policy cfg s2 w Hw) in E3 by (by rewrite Enew). rewrite Enew in E3. set (last := Z.lor (Z.ldiff new mirrored) (Z.land w mirrored)) in *.
  assert (Z.land last PPU_POWER_MASK = 0) as Hlast.
  { unfold last. rewrite mirrored_status by done. unfold power_status_is_off in Hoff'. by apply Z.eqb_eq in Hoff'. }
  unfold observe_power_transition, power_status_is_on at 1 2, power_status_is_off in E3. fold (power_status_is_on new) in E3.
  rewrite Hlast, Hnon in E3. change (0 =? PPU_POWER_STATUS_ON) with false in E3. change (0 =? PPU_POWER_STATUS_OFF) with true in E3. cbn [negb andb] in E3.
  set (s2' := s2 <| m_regs := _ |>) in E3. destruct (trace_signal_control cfg s3) as (Fe & Ft & Fs).
  rewrite Fs, Fe, trace_signal_regs, E3. unfold power_status_is_off.
  assert (is_u32 last) as Hl by (by apply mirror_u32).
  assert (load32 (m_regs s2') PPU_PWSR = last) as El by (by apply load32_store32_eq).
  destruct (p_power_on_reset_assert_on_power_off cfg); cbn [andb].
  - destruct (write_reset_signals cfg true s2') as (G1 & _ & G3). rewrite write_reset_regs, El, Hlast, G1, G3. done.
  - rewrite El, Hlast, app_nil_r. done.
Qed.

(** The default unit with both outputs wired, powered on and off once. *)
Definition example_ppu : ppu_config :=
  {| p_trace := false; p_trace_limit := 64; p_initial_power_status := 0; p_assert_power_on_reset := true;
     p_power_on_reset_assert_on_power_off := true; p_assert_power_on_load := true; power_on_reset_bound := true;
     power_on_load_bound := true |}.

Lemma ppu_power_cycle_witness :
  let s1 := fst (b_transport example_ppu (initial example_ppu) (write_txn PPU_PWPR 8)) in
  let s2 := delay_over example_ppu (delay_over example_ppu (deliver_event example_ppu s1)) in
  let s3 := fst (b_transport example_ppu s2 (write_txn PPU_PWPR 0)) in
  m_signals s2 = [(power_on_load, true); (power_on_load, false); (power_on_reset, false)] /\
  m_signals s3 = [(power_on_load, true); (power_on_load, false); (power_on_reset, false); (power_on_reset, true)].
Proof.
  destruct (ppu_power_cycle example_ppu (initial example_ppu) 8 0) as (_ & _ & H2 & _ & _ & H3 & _); [| | |done|done|done|done|done|].
  - apply mem_ok_store32; [apply mem_ok_empty|by cbv|by cbv].
  - split; by cbv.
  - split; by cbv.
  - cbv zeta in *. rewrite H3, H2. split; reflexivity.
Defined.

(** The thread does not look at the power again: power that goes off during the
    second delay asserts reset, and the end of the sequence releases it, although
    the status says off. *)
Lemma ppu_power_off_during_sequence :
  let s := deliver_event example_ppu (fst (b_transport example_ppu (initial example_ppu) (write_txn PPU_PWPR 8))) in
  let s := fst (b_transport example_ppu (delay_over example_ppu s) (write_txn PPU_PWPR 0)) in
  let s := delay_over example_ppu s in
  m_signals s = [(power_on_load, true); (power_on_load, false); (power_on_reset, true); (power_on_reset, false)] /\
  power_status_is_off (load32 (m_regs s) PPU_PWSR) = true.
Proof. by vm_compute. Qed.
