(* ===== verification/HostScr.v ===== *)
(** The host system control registers [host_scr]
    (systemc-components/host_scr/include/host_scr.h): identification and
    configuration words fixed at reset, next to words software may write. *)

From S2P Require Import Prelude Bytes Tlm Memory Access RegBlock.

Definition REG_BYTES : Z := 0x10000.
Definition SID_SYSTEM_ID : Z := 0x040.
Definition SID_SOC_ID : Z := 0x050.
Definition SID_CHIP_ID : Z := 0x060.
Definition SID_SYSTEM_CFG : Z := 0x070.
Definition CL0_CONFIG_0 : Z := 0x000.
Definition CL0_CONFIG_1 : Z := 0x004.
Definition CL0_CONFIG_2 : Z := 0x008.
Definition CL0_C0_CONFIG_0 : Z := 0x010.
Definition CL0_C0_CONFIG_1 : Z := 0x014.
Definition CL0_C0_CONFIG_2 : Z := 0x018.
Definition CL0_C0_CONFIG_3 : Z := 0x01c.
Definition CPUHALT : Z := 0x300.
Definition MEMPROTCTLR : Z := 0x500.
Definition SAFECTLR : Z := 0x600.
Definition SID_PIDR4 : Z := 0xfd0.
Definition SID_PIDR0 : Z := 0xfe0.
Definition SID_PIDR1 : Z := 0xfe4.
Definition SID_PIDR2 : Z := 0xfe8.
Definition SID_PIDR3 : Z := 0xfec.
Definition SID_CIDR0 : Z := 0xff0.
Definition SID_CIDR1 : Z := 0xff4.
Definition SID_CIDR2 : Z := 0xff8.
Definition SID_CIDR3 : Z := 0xffc.

(** [host_scr.h: "cci::cci_param<bool> p_trace;" .. "cci::cci_param<uint32_t> p_cidr3;"] *)
Record scr_config := {
  p_trace : bool;
  p_trace_limit : Z;
  p_cl1_present : bool;
  p_lm0_size : Z;
  p_lm1_size : Z;
  p_system_id : Z;
  p_soc_id : Z;
  p_chip_id : Z;
  p_cl0_config_0 : Z;
  p_cl0_config_1 : Z;
  p_cl0_config_2 : Z;
  p_cl0_c0_config_0 : Z;
  p_cl0_c0_config_1 : Z;
  p_cl0_c0_config_2 : Z;
  p_cl0_c0_config_3 : Z;
  p_initial_cpuhalt : Z;
  p_initial_memprotctlr : Z;
  p_initial_safectlr : Z;
  p_pidr4 : Z;
  p_pidr0 : Z;
  p_pidr1 : Z;
  p_pidr2 : Z;
  p_pidr3 : Z;
  p_cidr0 : Z;
  p_cidr1 : Z;
  p_cidr2 : Z;
  p_cidr3 : Z
}.

(** The labels of the registers [write32] ignores. *)
(** [host_scr.h: "case CL0_CONFIG_0:" .. "case SID_CIDR3:"] *)
Definition read_only : list Z :=
  [CL0_CONFIG_0; CL0_CONFIG_1; CL0_CONFIG_2; CL0_C0_CONFIG_0; CL0_C0_CONFIG_1; CL0_C0_CONFIG_2; CL0_C0_CONFIG_3;
   SID_SYSTEM_ID; SID_SOC_ID; SID_CHIP_ID; SID_SYSTEM_CFG; SID_PIDR4; SID_PIDR0; SID_PIDR1; SID_PIDR2; SID_PIDR3;
   SID_CIDR0; SID_CIDR1; SID_CIDR2; SID_CIDR3].

(** [host_scr.h: write32] *)
Definition write32 (offset value : Z) (m : mem) : mem :=
  if existsb (Z.eqb offset) read_only then m else store32 offset value m.

Section host_scr.
Context (cfg : scr_config).

(** [host_scr.h: system_cfg_value] *)
Definition system_cfg_value : Z :=
  let value := if p_cl1_present cfg then 0x1 else 0x0 in
  let value := Z.lor value (shl 32 (Z.land (p_lm0_size cfg) 0xf) 4) in
  Z.lor value (shl 32 (Z.land (p_lm1_size cfg) 0xf) 8).

(** [host_scr.h: reset_registers] *)
Definition reset_registers : mem :=
  let m := store32 CL0_CONFIG_0 (p_cl0_config_0 cfg) ∅ in
  let m := store32 CL0_CONFIG_1 (p_cl0_config_1 cfg) m in
  let m := store32 CL0_CONFIG_2 (p_cl0_config_2 cfg) m in
  let m := store32 CL0_C0_CONFIG_0 (p_cl0_c0_config_0 cfg) m in
  let m := store32 CL0_C0_CONFIG_1 (p_cl0_c0_config_1 cfg) m in
  let m := store32 CL0_C0_CONFIG_2 (p_cl0_c0_config_2 cfg) m in
  let m := store32 CL0_C0_CONFIG_3 (p_cl0_c0_config_3 cfg) m in
  let m := store32 SID_SYSTEM_ID (p_system_id cfg) m in
  let m := store32 SID_SOC_ID (p_soc_id cfg) m in
  let m := store32 SID_CHIP_ID (p_chip_id cfg) m in
  let m := store32 SID_SYSTEM_CFG system_cfg_value m in
  let m := store32 CPUHALT (p_initial_cpuhalt cfg) m in
  let m := store32 MEMPROTCTLR (p_initial_memprotctlr cfg) m in
  let m := store32 SAFECTLR (p_initial_safectlr cfg) m in
  let m := store32 SID_PIDR4 (p_pidr4 cfg) m in
  let m := store32 SID_PIDR0 (p_pidr0 cfg) m in
  let m := store32 SID_PIDR1 (p_pidr1 cfg) m in
  let m := store32 SID_PIDR2 (p_pidr2 cfg) m in
  let m := store32 SID_PIDR3 (p_pidr3 cfg) m in
  let m := store32 SID_CIDR0 (p_cidr0 cfg) m in
  let m := store32 SID_CIDR1 (p_cidr1 cfg) m in
  let m := store32 SID_CIDR2 (p_cidr2 cfg) m in
  store32 SID_CIDR3 (p_cidr3 cfg) m.

(** [host_scr.h: "explicit host_scr" .. "target_socket.register_transport_dbg"] *)
Definition initial : regblock := MkBlock reset_registers 0.

(** [host_scr.h: before_end_of_elaboration] *)
Definition before_end_of_elaboration (s : regblock) : regblock := s <| m_regs := reset_registers |>.

(** [host_scr.h: trace_access] *)
Definition trace_access : tlm_payload -> regblock -> regblock := block_trace (p_trace cfg) (p_trace_limit cfg).

(** [host_scr.h: access] *)
Definition access : bool -> regblock -> tlm_payload -> regblock * tlm_payload * bool :=
  block_access REG_BYTES write32 (p_trace cfg) (p_trace_limit cfg).

(** [host_scr.h: b_transport] *)
Definition b_transport : regblock -> tlm_payload -> regblock * tlm_payload := target_b_transport access.

(** [host_scr.h: transport_dbg] *)
Definition transport_dbg : regblock -> tlm_payload -> regblock * tlm_payload * Z := target_transport_dbg access.
End host_scr.

Lemma scr_write32_ok offset v m : 0 <= offset -> offset mod 4 = 0 -> offset + 4 <= REG_BYTES -> is_u32 v ->
  mem_ok REG_BYTES m -> mem_ok REG_BYTES (write32 offset v m).
Proof. intros H0 _ H1 _ Hm. unfold write32. case_if; eauto with regs. Qed.

(** The register socket keeps the contract of a target. *)
Definition scr_target (cfg : scr_config) : TlmTarget regblock :=
  block_target REG_BYTES write32 (p_trace cfg) (p_trace_limit cfg) ltac:(by cbv) scr_write32_ok.

(** Identification words keep their reset values through any word writes. *)
Lemma scr_identification_fixed (writes : list (Z * Z)) (m : mem) (off : Z) :
  off ∈ read_only -> Forall (fun '(o, _) => 0 <= o /\ o mod 4 = 0) writes ->
  load32 (foldl (fun m '(o, v) => write32 o v m) m writes) off = load32 m off.
Proof.
  intros Hoff Hw. revert m. induction Hw as [|[o v] writes [Ho Hal] _ IH]; intros m; [done|]. cbn [foldl]. rewrite IH.
  unfold write32. destruct (existsb (Z.eqb o) read_only) eqn:E; [done|].
  assert (o <> off) as Hne.
  { intros ->. rewrite <-not_true_iff_false, existsb_exists in E. apply E. exists off.
    split; [by apply list_elem_of_In|by apply Z.eqb_eq]. }
  assert (off mod 4 = 0) as Hal'.
  { assert (Forall (fun x => x mod 4 = 0) read_only) as Hall by (by repeat constructor). rewrite Forall_forall in Hall. by apply Hall. }
  apply load32_store32_ne. lia.
Qed.
