(* ===== verification/HostSystemPll.v ===== *)
(** The host system clock generator [host_system_pll]
    (systemc-components/host_system_pll/include/host_system_pll.h): every word
    written reads back with the lock bits set. *)

From S2P Require Import Prelude Bytes Tlm Memory Access RegBlock.

Definition REG_BYTES : Z := 0x1000.

(** [host_system_pll.h: "cci::cci_param<bool> p_trace;" .. "cci::cci_param<uint32_t> p_lock_mask;"] *)
Record pll_config := { p_trace : bool; p_trace_limit : Z; p_lock_mask : Z }.

Section host_system_pll.
Context (cfg : pll_config).

(** [host_system_pll.h: reset_registers] *)
Definition reset_registers : mem := ∅.

(** [host_system_pll.h: "explicit host_system_pll" .. "&host_system_pll::transport_dbg);"] *)
Definition initial : regblock := MkBlock reset_registers 0.

(** [host_system_pll.h: write32] *)
Definition write32 (offset value : Z) (m : mem) : mem := store32 offset (Z.lor value (p_lock_mask cfg)) m.

(** [host_system_pll.h: trace_access] *)
Definition trace_access : tlm_payload -> regblock -> regblock := block_trace (p_trace cfg) (p_trace_limit cfg).

(** [host_system_pll.h: access] *)
Definition access : bool -> regblock -> tlm_payload -> regblock * tlm_payload * bool :=
  block_access REG_BYTES write32 (p_trace cfg) (p_trace_limit cfg).

(** [host_system_pll.h: b_transport] *)
Definition b_transport : regblock -> tlm_payload -> regblock * tlm_payload := target_b_transport access.

(** [host_system_pll.h: transport_dbg] *)
Definition transport_dbg : regblock -> tlm_payload -> regblock * tlm_payload * Z := target_transport_dbg access.

Lemma pll_write32_ok offset v m : 0 <= offset -> offset mod 4 = 0 -> offset + 4 <= REG_BYTES -> is_u32 v ->
  mem_ok REG_BYTES m -> mem_ok REG_BYTES (write32 offset v m).
Proof. intros H0 _ H1 _ Hm. unfold write32. eauto with regs. Qed.

(** The register socket keeps the contract of a target. *)
Definition pll_target : TlmTarget regblock :=
  block_target REG_BYTES write32 (p_trace cfg) (p_trace_limit cfg) ltac:(by cbv) pll_write32_ok.

(** A word written through the socket reads back with the lock bits. *)
Lemma pll_reads_locked s off v : 0 <= off -> off mod 4 = 0 -> off + 4 <= REG_BYTES -> is_u32 v ->
  is_u32 (p_lock_mask cfg) ->
  let s' := fst (b_transport s (write_txn off v)) in
  data_ptr (snd (b_transport s' (read_txn off 4))) = Some (le_bytes 4 (Z.lor v (p_lock_mask cfg))).
Proof.
  intros H0 Hal H1 Hv Hm. cbv zeta. unfold b_transport, access.
  rewrite block_read by (first [done|unfold REG_BYTES in *; lia]). rewrite block_write_word by (first [done|unfold REG_BYTES; lia]). unfold write32.
  f_equal. unfold store32. by rewrite mem_read_write_eq by by rewrite le_bytes_length.
Qed.
End host_system_pll.
