(* ===== verification/HostSmcfMgi.v ===== *)
(** The host monitoring control block [host_smcf_mgi]
    (systemc-components/host_smcf_mgi/include/host_smcf_mgi.h): feature words
    computed from the configuration, and requests mirrored into status words. *)

From S2P Require Import Prelude Bytes Tlm Memory Access RegBlock.

Definition REG_BYTES : Z := 0x10000.
Definition GRP_ID : Z := 0x000.
Definition DATA_INFO : Z := 0x008.
Definition FEAT0 : Z := 0x010.
Definition FEAT1 : Z := 0x018.
Definition SMP_EN : Z := 0x030.
Definition MON_REQ : Z := 0x060.
Definition MON_STAT : Z := 0x070.
Definition MODE_REQ0 : Z := 0x090.
Definition MODE_REQ1 : Z := 0x098.
Definition MODE_REQ2 : Z := 0x0a0.
Definition MODE_REQ3 : Z := 0x0a8.
Definition MODE_STAT0 : Z := 0x0c0.
Definition MODE_STAT1 : Z := 0x0c8.
Definition MODE_STAT2 : Z := 0x0d0.
Definition MODE_STAT3 : Z := 0x0d8.
Definition IRQ_STAT : Z := 0x100.
Definition ERR_CODE : Z := 0x150.
Definition DVLD : Z := 0xf00.
Definition IIDR : Z := 0xfc0.
Definition AIDR : Z := 0xfc8.
Definition FEAT0_DMA_IF : Z := bit 28.
Definition FEAT0_PER_TIMER : Z := bit 31.
Definition SMP_EN_ENABLE : Z := bit 0.

(** [host_smcf_mgi.h: "cci::cci_param<uint32_t> p_group_id;" .. "cci::cci_param<unsigned int> p_trace_limit;"] *)
Record smcf_config := {
  p_group_id : Z;
  p_monitor_count : Z;
  p_data_values_per_monitor : Z;
  p_data_width_bits : Z;
  p_dma_supported : bool;
  p_periodic_timer_supported : bool;
  p_mode_registers : Z;
  p_mode_bits : Z;
  p_sample_delay_bits : Z;
  p_iidr : Z;
  p_aidr : Z;
  p_trace : bool;
  p_trace_limit : Z
}.

(** [host_smcf_mgi.h: is_read_only] *)
Definition is_read_only (offset : Z) : bool :=
  existsb (Z.eqb offset) [GRP_ID; DATA_INFO; FEAT0; FEAT1; MON_STAT; MODE_STAT0; MODE_STAT1; MODE_STAT2; MODE_STAT3;
    ERR_CODE; DVLD; IIDR; AIDR].

(** [host_smcf_mgi.h: mirror_mode_status] *)
Definition mirror_mode_status (offset value : Z) (m : mem) : mem :=
  if offset =? MODE_REQ0 then store32 MODE_STAT0 value m
  else if offset =? MODE_REQ1 then store32 MODE_STAT1 value m
  else if offset =? MODE_REQ2 then store32 MODE_STAT2 value m
  else if offset =? MODE_REQ3 then store32 MODE_STAT3 value m
  else m.

Section host_smcf_mgi.
Context (cfg : smcf_config).

(** [host_smcf_mgi.h: monitor_mask] *)
Definition monitor_mask : Z :=
  let count := p_monitor_count cfg in if 32 <=? count then 0xffffffff else u32 (shl 32 1 count - 1).

(** [x == 0 ? 0 : x - 1]. *)
Definition encode_count (n : Z) : Z := if n =? 0 then 0 else n - 1.

(** [host_smcf_mgi.h: make_grp_id] *)
Definition make_grp_id : Z :=
  Z.lor (Z.land (p_group_id cfg) 0x7ff) (shl 32 (Z.land (encode_count (p_monitor_count cfg)) 0x1f) 16).

(** [host_smcf_mgi.h: make_data_info] *)
Definition make_data_info : Z :=
  Z.lor (Z.land (encode_count (p_data_values_per_monitor cfg)) 0xffff)
    (shl 32 (Z.land (encode_count (p_data_width_bits cfg)) 0x3f) 22).

(** [host_smcf_mgi.h: make_feat0] *)
Definition make_feat0 : Z :=
  let value := 0 in
  let value := if p_dma_supported cfg then Z.lor value FEAT0_DMA_IF else value in
  if p_periodic_timer_supported cfg then Z.lor value FEAT0_PER_TIMER else value.

(** [host_smcf_mgi.h: make_feat1] *)
Definition make_feat1 : Z :=
  Z.lor (Z.lor (Z.land (encode_count (p_mode_registers cfg)) 0x7)
    (shl 32 (Z.land (encode_count (p_mode_bits cfg)) 0x1f) 8)) (shl 32 (Z.land (p_sample_delay_bits cfg) 0x3f) 16).

(** [host_smcf_mgi.h: reset_registers] *)
Definition reset_registers : mem :=
  let m := store32 GRP_ID make_grp_id ∅ in
  let m := store32 DATA_INFO make_data_info m in
  let m := store32 FEAT0 make_feat0 m in
  let m := store32 FEAT1 make_feat1 m in
  let m := store32 DVLD monitor_mask m in
  let m := store32 IIDR (p_iidr cfg) m in
  store32 AIDR (p_aidr cfg) m.

(** [host_smcf_mgi.h: "explicit host_smcf_mgi" .. "&host_smcf_mgi::transport_dbg);"] *)
Definition initial : regblock := MkBlock reset_registers 0.

(** [host_smcf_mgi.h: before_end_of_elaboration] *)
Definition before_end_of_elaboration (s : regblock) : regblock := s <| m_regs := reset_registers |>.

(** [host_smcf_mgi.h: write32] *)
Definition write32 (offset value : Z) (m : mem) : mem :=
  if is_read_only offset then m
  else if offset =? MON_REQ then
    let mask := monitor_mask in store32 MON_STAT (Z.land value mask) (store32 MON_REQ (Z.land value mask) m)
  else if offset =? SMP_EN then store32 SMP_EN (Z.land value SMP_EN_ENABLE) m
  else if offset =? IRQ_STAT then store32 IRQ_STAT (Z.land (load32 m IRQ_STAT) (not32 value)) m
  else mirror_mode_status offset value (store32 offset value m).

(** [host_smcf_mgi.h: trace_access] *)
Definition trace_access : tlm_payload -> regblock -> regblock := block_trace (p_trace cfg) (p_trace_limit cfg).

(** [host_smcf_mgi.h: access] *)
Definition access : bool -> regblock -> tlm_payload -> regblock * tlm_payload * bool :=
  block_access REG_BYTES write32 (p_trace cfg) (p_trace_limit cfg).

(** [host_smcf_mgi.h: b_transport] *)
Definition b_transport : regblock -> tlm_payload -> regblock * tlm_payload := target_b_transport access.

(** [host_smcf_mgi.h: transport_dbg] *)
Definition transport_dbg : regblock -> tlm_payload -> regblock * tlm_payload * Z := target_transport_dbg access.

Lemma mirror_mode_ok offset v m : mem_ok REG_BYTES m -> mem_ok REG_BYTES (mirror_mode_status offset v m).
Proof. intros Hm. unfold mirror_mode_status. repeat (case_if; [apply mem_ok_store32; [done|by cbv|by cbv]|]). done. Qed.

Lemma smcf_write32_ok offset v m : 0 <= offset -> offset mod 4 = 0 -> offset + 4 <= REG_BYTES -> is_u32 v ->
  mem_ok REG_BYTES m -> mem_ok REG_BYTES (write32 offset v m).
Proof.
  intros H0 _ H1 _ Hm. unfold write32. cbv zeta. case_if; [done|].
  case_if; [repeat (apply mem_ok_store32; [|by cbv|by cbv]); done|].
  do 2 (case_if; [apply mem_ok_store32; [done|by cbv|by cbv]|]). apply mirror_mode_ok. eauto with regs.
Qed.

(** The register socket keeps the contract of a target. *)
Definition smcf_target : TlmTarget regblock :=
  block_target REG_BYTES write32 (p_trace cfg) (p_trace_limit cfg) ltac:(by cbv) smcf_write32_ok.

(** A request for monitors is granted for exactly the monitors there are. *)
Lemma smcf_monitor_request m v i : 0 <= p_monitor_count cfg <= 32 -> is_u32 v -> 0 <= i < 32 ->
  Z.testbit (load32 (write32 MON_REQ v m) MON_STAT) i = (i <? p_monitor_count cfg) && Z.testbit v i.
Proof.
  intros Hc Hv Hi.
  assert (write32 MON_REQ v m = store32 MON_STAT (Z.land v monitor_mask) (store32 MON_REQ (Z.land v monitor_mask) m)) as -> by done.
  assert (monitor_mask = Z.ones (p_monitor_count cfg)) as ->.
  { unfold monitor_mask. cbv zeta. destruct (Z.leb_spec 32 (p_monitor_count cfg)).
    - by replace (p_monitor_count cfg) with 32 by lia.
    - assert (0 < 2 ^ p_monitor_count cfg <= 2 ^ 31) as Hp.
      { split; [apply Z.pow_pos_nonneg; lia|apply Z.pow_le_mono_r; lia]. }
      unfold shl. rewrite Z.shiftl_1_l, (wrap_small 32 (2 ^ _)) by (split; lia).
      rewrite wrap_small, Z.ones_equiv by (split; lia). lia. }
  rewrite load32_store32_eq by (by apply land_uint_l). rewrite Z.land_spec, andb_comm. f_equal.
  destruct (Z.ltb_spec i (p_monitor_count cfg)); [apply Z.ones_spec_low|apply Z.ones_spec_high]; lia.
Qed.

(** A mode request is mirrored into its status word, which software cannot write. *)
Lemma smcf_mode_mirrored m v k : 0 <= k < 4 -> is_u32 v ->
  load32 (write32 (MODE_REQ0 + 8 * k) v m) (MODE_STAT0 + 8 * k) = v /\ write32 (MODE_STAT0 + 8 * k) v m = m.
Proof.
  intros Hk Hv. assert (k = 0 \/ k = 1 \/ k = 2 \/ k = 3) as H by lia.
  destruct_or! H; subst; (split; [by apply load32_store32_eq|done]).
Qed.
End host_smcf_mgi.
