(* ===== verification/HostGtimer.v ===== *)
(** The host generic timer frame [host_gtimer]
    (systemc-components/host_gtimer/include/host_gtimer.h): a counter that
    advances when its low word is read. *)

From S2P Require Import Prelude Bytes Tlm Memory Access.

Definition REG_BYTES : Z := 0x1000.
Definition PCTL : Z := 0x000.
Definition PCTH : Z := 0x004.
Definition FRQ : Z := 0x010.

(** [host_gtimer.h: "cci::cci_param<bool> p_counter_base;" .. "cci::cci_param<unsigned int> p_trace_limit;"] *)
Record gtimer_config := {
  p_counter_base : bool;
  p_frequency : Z;
  p_counter_increment : Z;
  p_trace : bool;
  p_trace_limit : Z
}.

(** [host_gtimer.h: "std::array<uint8_t, REG_BYTES> m_regs{};" .. "unsigned int m_trace_count = 0;"] *)
Record host_gtimer := MkTimer { m_regs : mem; m_counter : Z; m_trace_count : Z }.

#[export] Instance eta_host_gtimer : Eta host_gtimer := fun s => MkTimer (m_regs s) (m_counter s) (m_trace_count s).

Section host_gtimer.
Context (cfg : gtimer_config).

(** [host_gtimer.h: next_counter_value] *)
Definition next_counter_value (s : host_gtimer) : host_gtimer * Z :=
  let s := s <| m_counter ::= fun c => u64 (c + p_counter_increment cfg) |> in (s, m_counter s).

(** [host_gtimer.h: read32] *)
Definition read32 (offset : Z) (s : host_gtimer) : host_gtimer * Z :=
  if p_counter_base cfg && (offset =? PCTL) then let '(s, v) := next_counter_value s in (s, u32 v)
  else if p_counter_base cfg && (offset =? PCTH) then (s, u32 (Z.shiftr (m_counter s) 32))
  else if p_counter_base cfg && (offset =? FRQ) then (s, p_frequency cfg)
  else (s, load32 (m_regs s) offset).

(** [host_gtimer.h: reset_registers] *)
Definition reset_registers (s : host_gtimer) : host_gtimer :=
  s <| m_regs := store32 FRQ (p_frequency cfg) ∅ |> <| m_counter := 0 |>.

(** [host_gtimer.h: "explicit host_gtimer" .. "target_socket.register_transport_dbg"] *)
Definition initial : host_gtimer := reset_registers (MkTimer ∅ 0 0).

(** [host_gtimer.h: before_end_of_elaboration] *)
Definition before_end_of_elaboration (s : host_gtimer) : host_gtimer := reset_registers s.

(** [host_gtimer.h: trace_access] *)
Definition trace_access (s : host_gtimer) : host_gtimer :=
  if negb (p_trace cfg) || (p_trace_limit cfg <=? m_trace_count s) then s
  else s <| m_trace_count ::= fun n => u32 (n + 1) |>.

(** [host_gtimer.h: access] *)
Definition access (debug : bool) (s : host_gtimer) (t : tlm_payload) : host_gtimer * tlm_payload * bool :=
  let offset := address t in
  let len := data_length t in
  match data_ptr t with
  | None => refuse s t TLM_ADDRESS_ERROR_RESPONSE
  | Some data =>
      if negb (is_supported_length len) || (REG_BYTES <? u64 (offset + len))
      then refuse s t TLM_ADDRESS_ERROR_RESPONSE
      else
        match command t with
        | TLM_READ_COMMAND =>
            let '(s, bytes) :=
              if (len =? 4) && (offset mod 4 =? 0)
              then let '(s, value) := read32 (u32 offset) s in (s, le_bytes 4 value)
              else (s, mem_read (m_regs s) offset len) in
            accept (trace_access s) (t <| data_ptr := Some (put_data bytes data) |>)
        | TLM_WRITE_COMMAND =>
            accept (trace_access (s <| m_regs ::= mem_write offset (get_data len data) |>)) t
        | TLM_IGNORE_COMMAND => refuse s t TLM_COMMAND_ERROR_RESPONSE
        end
  end.

(** [host_gtimer.h: b_transport] *)
Definition b_transport : host_gtimer -> tlm_payload -> host_gtimer * tlm_payload := target_b_transport access.

(** [host_gtimer.h: transport_dbg] *)
Definition transport_dbg : host_gtimer -> tlm_payload -> host_gtimer * tlm_payload * Z := target_transport_dbg access.

Lemma trace_access_counter s : m_counter (trace_access s) = m_counter s /\ m_regs (trace_access s) = m_regs s.
Proof. unfold trace_access. by case_if. Qed.

(** A word read through the socket. *)
Lemma read_word s off : 0 <= off -> off mod 4 = 0 -> off + 4 <= REG_BYTES ->
  let '(s', t') := b_transport s (read_txn off 4) in
  s' = trace_access (fst (read32 off s)) /\ data_ptr t' = Some (le_bytes 4 (snd (read32 off s))).
Proof.
  unfold REG_BYTES. intros H0 Hal H1. unfold b_transport, target_b_transport, access, accept.
  change (data_ptr (_ <| dmi_allowed := false |>)) with (Some (replicate 4 0)).
  change (data_length (_ <| dmi_allowed := false |>)) with 4.
  change (address (_ <| dmi_allowed := false |>)) with off.
  change (command (_ <| dmi_allowed := false |>)) with TLM_READ_COMMAND. cbv zeta.
  rewrite (wrap_small 64), (wrap_small 32) by (split; lia). change (negb (is_supported_length 4)) with false.
  replace (REG_BYTES <? off + 4) with false by (unfold REG_BYTES; lia). rewrite Hal. cbn [orb Z.eqb Pos.eqb andb].
  destruct (read32 off s) as [s' v]. done.
Qed.

(** Reading the low word advances the counter by the increment, and the high word
    read next belongs to the same value. *)
Lemma gtimer_reads_counter s : p_counter_base cfg = true -> is_u64 (m_counter s) ->
  let '(s1, t1) := b_transport s (read_txn PCTL 4) in
  let '(s2, t2) := b_transport s1 (read_txn PCTH 4) in
  let c := u64 (m_counter s + p_counter_increment cfg) in
  m_counter s2 = c /\ data_ptr t1 = Some (le_bytes 4 (c mod 2 ^ 32)) /\ data_ptr t2 = Some (le_bytes 4 (c / 2 ^ 32)).
Proof.
  intros Hbase Hc. pose proof (read_word s PCTL ltac:(by cbv) ltac:(by cbv) ltac:(by cbv)) as H1.
  destruct (b_transport s _) as [s1 t1]. destruct H1 as [E1 D1].
  pose proof (read_word s1 PCTH ltac:(by cbv) ltac:(by cbv) ltac:(by cbv)) as H2.
  destruct (b_transport s1 _) as [s2 t2]. destruct H2 as [E2 D2].
  assert (forall s, read32 PCTH s = (s, u32 (Z.shiftr (m_counter s) 32))) as Eh by (intros; unfold read32; by rewrite Hbase).
  assert (read32 PCTL s = (fst (next_counter_value s), u32 (snd (next_counter_value s)))) as El by (unfold read32; by rewrite Hbase).
  cbv zeta. rewrite D1, D2, E2, Eh, El. cbn [fst snd next_counter_value].
  assert (m_counter s1 = u64 (m_counter s + p_counter_increment cfg)) as Ec.
  { rewrite E1, El. apply trace_access_counter. }
  rewrite (proj1 (trace_access_counter s1)), Ec. split; [done|]. split; [done|]. do 2 f_equal.
  rewrite Z.shiftr_div_pow2 by lia. apply wrap_small.
  pose proof (wrap_range 64 (m_counter s + p_counter_increment cfg) ltac:(lia)) as [Hl Hu].
  split; [apply Z.div_pos; lia|apply Z.div_lt_upper_bound; lia].
Qed.
End host_gtimer.
