(* ===== verification/HostNi710.v ===== *)
(** The host network discovery window [host_ni710ae_nci]
    (systemc-components/host_ni710ae_nci/include/host_ni710ae_nci.h): a root node
    with pointers to the components of a topology, each with a pointer to its
    access-protection unit. *)

From S2P Require Import Prelude Bytes Tlm Memory Access RegBlock.

Definition REG_BYTES : Z := 0x10000.
Definition ROOT_OFFSET : Z := 0x0000.
Definition COMPONENT_BASE : Z := 0x0100.
Definition COMPONENT_STRIDE : Z := 0x0100.
Definition APU_BASE : Z := 0x2000.
Definition APU_STRIDE : Z := 0x1000.
Definition NODE_TYPE_GCN : Z := 0x00.
Definition NODE_TYPE_ASNI : Z := 0x04.
Definition NODE_TYPE_AMNI : Z := 0x05.
Definition NODE_TYPE_SUBFEATURE_APU : Z := 0x00.
Definition DOMAIN_CHILD_INFO : Z := 0x004.
Definition DOMAIN_POINTERS : Z := 0x008.
Definition COMPONENT_NUM_SUBFEATURES : Z := 0x024.
Definition COMPONENT_SUBFEATURES : Z := 0x028.
Definition APU_IIDR : Z := 0x0ffc.

(** [host_ni710ae_nci.h: "enum topology_t : uint32_t {" .. "};"] *)
Definition TOPOLOGY_MHU_MIN : Z := 0.
Definition TOPOLOGY_MHU_MID : Z := 1.
Definition TOPOLOGY_SECONDARY : Z := 2.
Definition TOPOLOGY_PRIMARY_MIN : Z := 3.

(** [host_ni710ae_nci.h: "struct component_desc {" .. "};"] *)
Record component_desc := Desc { desc_type : Z; desc_id : Z }.

(** [host_ni710ae_nci.h: "cci::cci_param<uint32_t> p_topology;" .. "cci::cci_param<unsigned int> p_trace_limit;"] *)
Record nci_config := { p_topology : Z; p_apu_iidr : Z; p_trace : bool; p_trace_limit : Z }.

(** [host_ni710ae_nci.h: node_type_word] *)
Definition node_type_word (type id : Z) : Z := Z.lor (shl 32 id 16) type.

(** [host_ni710ae_nci.h: "static std::vector<component_desc> components_for_topology" .. "seed_discovery_component"] *)
Definition components_for_topology (topology : Z) : list component_desc :=
  if topology =? TOPOLOGY_MHU_MIN then [Desc NODE_TYPE_ASNI 3]
  else if topology =? TOPOLOGY_MHU_MID then [Desc NODE_TYPE_ASNI 4]
  else if topology =? TOPOLOGY_SECONDARY then [Desc NODE_TYPE_ASNI 1]
  else if topology =? TOPOLOGY_PRIMARY_MIN then
    [Desc NODE_TYPE_ASNI 0; Desc NODE_TYPE_ASNI 3; Desc NODE_TYPE_ASNI 4; Desc NODE_TYPE_ASNI 5; Desc NODE_TYPE_AMNI 10]
  else
    [Desc NODE_TYPE_ASNI 0; Desc NODE_TYPE_ASNI 5; Desc NODE_TYPE_ASNI 6; Desc NODE_TYPE_ASNI 7; Desc NODE_TYPE_AMNI 14].

(** [host_ni710ae_nci.h: is_apu_iidr] *)
Definition is_apu_iidr (offset : Z) : bool :=
  if offset <? APU_BASE then false
  else let apu_relative := offset - APU_BASE in apu_relative mod APU_STRIDE =? APU_IIDR.

(** [host_ni710ae_nci.h: write32] *)
Definition write32 (offset value : Z) (m : mem) : mem := if is_apu_iidr offset then m else store32 offset value m.

Section host_ni710ae_nci.
Context (cfg : nci_config).

(** [host_ni710ae_nci.h: seed_discovery_component] *)
Definition seed_discovery_component (m : mem) (index : Z) (desc : component_desc) : mem :=
  let component_offset := COMPONENT_BASE + index * COMPONENT_STRIDE in
  let apu_offset := APU_BASE + index * APU_STRIDE in
  let m := store32 (DOMAIN_POINTERS + index * 4) component_offset m in
  let m := store32 component_offset (node_type_word (desc_type desc) (desc_id desc)) m in
  let m := store32 (component_offset + COMPONENT_NUM_SUBFEATURES) 1 m in
  let m := store32 (component_offset + COMPONENT_SUBFEATURES) NODE_TYPE_SUBFEATURE_APU m in
  let m := store32 (component_offset + COMPONENT_SUBFEATURES + 4) apu_offset m in
  store32 (apu_offset + APU_IIDR) (p_apu_iidr cfg) m.

(** [for (i = 0; i < components.size(); ++i) seed_discovery_component(i, components[i])]. *)
Fixpoint seed_components (m : mem) (i : Z) (components : list component_desc) : mem :=
  match components with
  | [] => m
  | desc :: components => seed_components (seed_discovery_component m i desc) (i + 1) components
  end.

(** [host_ni710ae_nci.h: reset_registers] *)
Definition reset_registers : mem :=
  let components := components_for_topology (p_topology cfg) in
  let m := store32 ROOT_OFFSET (node_type_word NODE_TYPE_GCN 0) ∅ in
  let m := store32 DOMAIN_CHILD_INFO (Z.of_nat (length components)) m in
  seed_components m 0 components.

(** [host_ni710ae_nci.h: "explicit host_ni710ae_nci" .. "&host_ni710ae_nci::transport_dbg);"] *)
Definition initial : regblock := MkBlock reset_registers 0.

(** [host_ni710ae_nci.h: before_end_of_elaboration] *)
Definition before_end_of_elaboration (s : regblock) : regblock := s <| m_regs := reset_registers |>.

(** [host_ni710ae_nci.h: trace_access] *)
Definition trace_access : tlm_payload -> regblock -> regblock := block_trace (p_trace cfg) (p_trace_limit cfg).

(** [host_ni710ae_nci.h: access] *)
Definition access : bool -> regblock -> tlm_payload -> regblock * tlm_payload * bool :=
  block_access REG_BYTES write32 (p_trace cfg) (p_trace_limit cfg).

(** [host_ni710ae_nci.h: b_transport] *)
Definition b_transport : regblock -> tlm_payload -> regblock * tlm_payload := target_b_transport access.

(** [host_ni710ae_nci.h: transport_dbg] *)
Definition transport_dbg : regblock -> tlm_payload -> regblock * tlm_payload * Z := target_transport_dbg access.
End host_ni710ae_nci.

Lemma nci_write32_ok offset v m : 0 <= offset -> offset mod 4 = 0 -> offset + 4 <= REG_BYTES -> is_u32 v ->
  mem_ok REG_BYTES m -> mem_ok REG_BYTES (write32 offset v m).
Proof. intros H0 _ H1 _ Hm. unfold write32. case_if; eauto with regs. Qed.

(** The register socket keeps the contract of a target. *)
Definition nci_target (cfg : nci_config) : TlmTarget regblock :=
  block_target REG_BYTES write32 (p_trace cfg) (p_trace_limit cfg) ltac:(by cbv) nci_write32_ok.

(** * Discovery

    What a driver does with the window: it follows the pointers of the root to the
    components, and their sub-feature pointers to the protection units. *)

Record discovered := Found { found_word : Z; found_apu : Z; found_iidr : Z }.

Definition discover (read : Z -> Z) : list discovered :=
  map (fun i =>
         let component := read (DOMAIN_POINTERS + 4 * i) in
         let apu := read (component + COMPONENT_SUBFEATURES + 4) in
         Found (read component) apu (read (apu + APU_IIDR)))
    (range (read DOMAIN_CHILD_INFO)).

(** Seeding a component does not touch what the others use. *)
Lemma seed_elsewhere cfg m i desc off : 0 <= i < 8 -> 0 <= off ->
  (off < COMPONENT_BASE /\ off + 4 <= DOMAIN_POINTERS + 4 * i) \/
  (COMPONENT_BASE <= off /\ off + 4 <= COMPONENT_BASE + COMPONENT_STRIDE * i) \/
  (APU_BASE <= off /\ off + 4 <= APU_BASE + APU_STRIDE * i) ->
  load32 (seed_discovery_component cfg m i desc) off = load32 m off.
Proof.
  unfold seed_discovery_component, COMPONENT_BASE, COMPONENT_STRIDE, APU_BASE, APU_STRIDE, DOMAIN_POINTERS,
    COMPONENT_NUM_SUBFEATURES, COMPONENT_SUBFEATURES, APU_IIDR. intros Hi H0 Hd. cbv zeta.
  rewrite !load32_store32_ne by lia. done.
Qed.

(** The words of one component. *)
Record seeded (cfg : nci_config) (m : mem) (i : Z) (desc : component_desc) : Prop := {
  seeded_pointer : load32 m (DOMAIN_POINTERS + 4 * i) = COMPONENT_BASE + COMPONENT_STRIDE * i;
  seeded_word : load32 m (COMPONENT_BASE + COMPONENT_STRIDE * i) = node_type_word (desc_type desc) (desc_id desc);
  seeded_apu : load32 m (COMPONENT_BASE + COMPONENT_STRIDE * i + COMPONENT_SUBFEATURES + 4) = APU_BASE + APU_STRIDE * i;
  seeded_iidr : load32 m (APU_BASE + APU_STRIDE * i + APU_IIDR) = p_apu_iidr cfg
}.

Lemma node_type_word_u32 type id : is_u16 type -> is_uint 32 (node_type_word type id).
Proof. intros Ht. apply lor_uint; [lia|by apply wrap_range|]. by apply (is_uint_mono 16). Qed.

Lemma seed_seeds cfg m i desc : 0 <= i < 8 -> is_u16 (desc_type desc) -> is_u32 (p_apu_iidr cfg) ->
  seeded cfg (seed_discovery_component cfg m i desc) i desc.
Proof.
  intros Hi Ht Hp. pose proof (node_type_word_u32 (desc_type desc) (desc_id desc) Ht).
  split; unfold seed_discovery_component, COMPONENT_BASE, COMPONENT_STRIDE, APU_BASE, APU_STRIDE, DOMAIN_POINTERS,
    COMPONENT_NUM_SUBFEATURES, COMPONENT_SUBFEATURES, APU_IIDR; cbv zeta.
  - rewrite !load32_store32_ne by lia. replace (8 + 4 * i) with (8 + i * 4) by lia. rewrite load32_store32_eq by (split; lia). lia.
  - rewrite !load32_store32_ne by lia. replace (256 + 256 * i) with (256 + i * 256) by lia. by rewrite load32_store32_eq.
  - rewrite load32_store32_ne by lia. replace (256 + 256 * i + 40 + 4) with (256 + i * 256 + 40 + 4) by lia.
    rewrite load32_store32_eq by (split; lia). lia.
  - replace (8192 + 4096 * i + 4092) with (8192 + i * 4096 + 4092) by lia. by rewrite load32_store32_eq.
Qed.

Lemma seeded_kept cfg m i desc j desc' : 0 <= i < j -> j < 8 -> seeded cfg m i desc ->
  seeded cfg (seed_discovery_component cfg m j desc') i desc.
Proof.
  unfold COMPONENT_BASE, COMPONENT_STRIDE, APU_BASE, APU_STRIDE, DOMAIN_POINTERS, COMPONENT_SUBFEATURES, APU_IIDR.
  intros Hi Hj [H1 H2 H3 H4]. split; rewrite seed_elsewhere; try done; try lia;
    unfold COMPONENT_BASE, COMPONENT_STRIDE, APU_BASE, APU_STRIDE, DOMAIN_POINTERS, COMPONENT_SUBFEATURES, APU_IIDR; lia.
Qed.

Lemma seed_components_spec cfg done_ todo m :
  Z.of_nat (length done_ + length todo) <= 8 -> is_u32 (p_apu_iidr cfg) -> Forall (fun d => is_u16 (desc_type d)) todo ->
  (forall k d, done_ !! k = Some d -> seeded cfg m (Z.of_nat k) d) ->
  let m' := seed_components cfg m (Z.of_nat (length done_)) todo in
  (forall k d, (done_ ++ todo) !! k = Some d -> seeded cfg m' (Z.of_nat k) d) /\
  load32 m' DOMAIN_CHILD_INFO = load32 m DOMAIN_CHILD_INFO.
Proof.
  intros Hlen Hp Htodo. revert done_ m Hlen. induction Htodo as [|d todo Hd _ IH]; intros done_ m Hlen Hdone; cbv zeta.
  - rewrite app_nil_r. done.
  - cbn [seed_components]. cbn [length] in Hlen.
    replace (Z.of_nat (length done_) + 1) with (Z.of_nat (length (done_ ++ [d]))) by (rewrite length_app; cbn; lia).
    destruct (IH (done_ ++ [d]) (seed_discovery_component cfg m (Z.of_nat (length done_)) d)) as [H1 H2].
    + rewrite length_app. cbn [length]. lia.
    + intros k d' [Hk|[Hk Hk']]%lookup_app_Some.
      * apply seeded_kept; [|lia|by apply Hdone]. apply lookup_lt_Some in Hk. lia.
      * apply list_lookup_singleton_Some in Hk' as [E ->]. replace k with (length done_) by lia. apply seed_seeds; [lia|done|done].
    + rewrite <-app_assoc in H1. split; [exact H1|]. rewrite H2. apply seed_elsewhere; [lia|done|].
      left. unfold DOMAIN_CHILD_INFO, COMPONENT_BASE, DOMAIN_POINTERS. lia.
Qed.

(** The components of a topology are few and have 16-bit types. *)
Lemma topology_small t : Z.of_nat (length (components_for_topology t)) <= 5 /\
  Forall (fun d => is_u16 (desc_type d)) (components_for_topology t).
Proof.
  unfold components_for_topology. repeat case_if; (split; [by cbv|]);
    repeat apply Forall_cons_2; try apply Forall_nil_2; by cbv.
Qed.

(** Discovery from the reset window finds the components of the topology, in
    order, each with its own protection unit that identifies itself; and it does
    so again after any aligned word writes above the discovery words. *)
Lemma nci_discovery (cfg : nci_config) (writes : list (Z * Z)) :
  is_u32 (p_apu_iidr cfg) -> Forall (fun '(o, _) => APU_BASE <= o /\ o mod 4 = 0) writes ->
  discover (load32 (foldl (fun m '(o, v) => write32 o v m) (reset_registers cfg) writes)) =
  imap (fun i d => Found (node_type_word (desc_type d) (desc_id d)) (APU_BASE + APU_STRIDE * Z.of_nat i) (p_apu_iidr cfg))
    (components_for_topology (p_topology cfg)).
Proof.
  intros Hp Hw. destruct (topology_small (p_topology cfg)) as [Hlen Hty]. set (cs := components_for_topology _) in *.
  set (m0 := store32 DOMAIN_CHILD_INFO (Z.of_nat (length cs)) (store32 ROOT_OFFSET (node_type_word NODE_TYPE_GCN 0) ∅)).
  assert (reset_registers cfg = seed_components cfg m0 (Z.of_nat (@length component_desc [])) cs) as -> by done.
  destruct (seed_components_spec cfg [] cs m0) as [Hseed Hcount]; [cbn; lia|done|done|done|].
  revert Hseed Hcount. generalize (seed_components cfg m0 (Z.of_nat (@length component_desc [])) cs). intros m Hseed Hcount.
  unfold m0 in Hcount. rewrite load32_store32_eq in Hcount by (split; lia). cbn [app] in Hseed.
  assert (forall off, 0 <= off -> off mod 4 = 0 -> off < APU_BASE \/ is_apu_iidr off = true ->
    load32 (foldl (fun m '(o, v) => write32 o v m) m writes) off = load32 m off) as Hkept.
  { intros off H0 Hal Hoff. clear Hseed Hcount. revert m. induction Hw as [|[o v] writes [Ho Hal'] _ IH]; intros m; [done|].
    cbn [foldl]. rewrite IH. unfold write32. destruct (is_apu_iidr o) eqn:E; [done|]. apply load32_store32_ne.
    assert (off <> o) by (intros ->; destruct Hoff; [lia|congruence]). lia. }
  unfold discover. rewrite Hkept, Hcount by (first [by cbv|by left; cbv]).
  apply list_eq_same_length with (n := length cs).
  - by rewrite length_imap.
  - unfold range. rewrite length_map, length_seqZ. lia.
  - intros k x y Hk Hx Hy. unfold range in Hx. rewrite list_lookup_fmap, lookup_seqZ_lt in Hx by lia. cbn in Hx.
    rewrite list_lookup_imap in Hy. destruct (cs !! k) as [d|] eqn:Ed; [|done]. cbn in Hy. simplify_eq.
    destruct (Hseed k d Ed) as [H1 H2 H3 H4]. rewrite Z.add_0_l. apply lookup_lt_Some in Ed.
    unfold APU_BASE, APU_STRIDE, DOMAIN_POINTERS, COMPONENT_BASE, COMPONENT_STRIDE, COMPONENT_SUBFEATURES, APU_IIDR in *.
    rewrite (Hkept (8 + 4 * Z.of_nat k)), H1 by lia. rewrite (Hkept (_ + 40 + 4)), H3 by lia.
    rewrite (Hkept (256 + _)), H2 by lia. rewrite Hkept, H4; [done|lia|lia|].
    right. unfold is_apu_iidr, APU_BASE, APU_STRIDE, APU_IIDR. replace (_ <? _) with false by lia. cbv zeta. apply Z.eqb_eq.
    replace (_ - _) with (Z.of_nat k * 4096 + 4092) by lia. by apply mod_pack.
Qed.
