(* ===== verification/HostCmn.v ===== *)
(** The host mesh network configuration [host_cmn_cyprus]
    (systemc-components/host_cmn_cyprus/include/host_cmn_cyprus.h): a sparse window
    of bytes seeded with a discovery tree of nodes. *)

From S2P Require Import Prelude Bytes Vectors Tlm Memory Access RegBlock.

Definition DEFAULT_WINDOW_BYTES : Z := 0x40000000.
Definition CFGM_BASE : Z := 0x00000.
Definition MXP_BASE : Z := 0x10000.
Definition NODE_BASE : Z := 0x20000.
Definition NODE_STRIDE : Z := 0x10000.
Definition CFGM_PERIPH_ID1 : Z := 0x010.
Definition CFGM_CHILD_INFO : Z := 0x080.
Definition CFGM_CHILD_POINTER : Z := 0x100.
Definition MXP_PORT_CONNECT_INFO : Z := 0x008.
Definition MXP_CHILD_INFO : Z := 0x080.
Definition MXP_CHILD_POINTER : Z := 0x100.
Definition MXP_PORT_DISABLE : Z := 0xa70.
Definition NODE_CHILD_INFO : Z := 0x080.
Definition HNS_UNIT_INFO0 : Z := 0x900.
Definition HNS_UNIT_INFO1 : Z := 0x908.
Definition RNSAM_UNIT_INFO0 : Z := 0x900.
Definition RNSAM_UNIT_INFO1 : Z := 0x908.
Definition RNSAM_STATUS : Z := 0x1100.
Definition NODE_TYPE_CFG : Z := 0x002.
Definition NODE_TYPE_XP : Z := 0x006.
Definition NODE_TYPE_RN_SAM : Z := 0x00f.
Definition NODE_TYPE_HN_S : Z := 0x200.
Definition DEVICE_TYPE_HN_S : Z := 0x1a.
Definition DEVICE_TYPE_RN_F_CHIF_ESAM : Z := 0x21.
Definition RNSAM_NONHASH_RCOMP_EN : Z := bit 31.
Definition RNSAM_HTG_RCOMP_EN : Z := bit 27.
Definition RNSAM_RCOMP_LSB_DEFAULT : Z := 20.
(** [host_cmn_cyprus.h: "static constexpr std::array<uint16_t, 8> HNS_NODE_IDS = {" .. "};"] *)
Definition HNS_NODE_IDS : list Z := [64; 88; 128; 152; 192; 216; 256; 280].
Definition RNSAM_NODE_ID : Z := 12.

(** [host_cmn_cyprus.h: "cci::cci_param<uint32_t> p_revision;" .. "cci::cci_param<unsigned int> p_trace_limit;"] *)
Record cmn_config := {
  p_revision : Z;
  p_rcomp_lsb : Z;
  p_window_bytes : Z;
  p_trace : bool;
  p_trace_limit : Z
}.

(** [host_cmn_cyprus.h: node_info] *)
Definition node_info (type node_id logical_id : Z) : Z := Z.lor (Z.lor (shl 64 logical_id 32) (shl 64 node_id 16)) type.

(** [host_cmn_cyprus.h: mxp_node_info] *)
Definition mxp_node_info (node_id logical_id port_count : Z) : Z :=
  Z.lor (shl 64 port_count 48) (node_info NODE_TYPE_XP node_id logical_id).

(** [host_cmn_cyprus.h: load8] *)
Definition load8 (m : mem) (offset : Z) : Z := match m !! offset with None => 0 | Some b => b end.

(** [host_cmn_cyprus.h: load_le] *)
Definition load_le (m : mem) (offset len : Z) : Z :=
  foldl (fun value i => Z.lor value (shl 64 (load8 m (u64 (offset + i))) (i * 8))) 0 (range len).

(** [host_cmn_cyprus.h: store_le] *)
Definition store_le (offset value len : Z) (m : mem) : mem :=
  foldl (fun m i => <[u64 (offset + i) := u8 (Z.shiftr value (i * 8))]> m) m (range len).

(** [host_cmn_cyprus.h: seed64] *)
Definition seed64 (offset value : Z) (m : mem) : mem := store_le offset value 8 m.

(** [host_cmn_cyprus.h: hns_offset] *)
Definition hns_offset (index : Z) : Z := NODE_BASE + index * NODE_STRIDE.

(** [host_cmn_cyprus.h: rnsam_offset] *)
Definition rnsam_offset : Z := NODE_BASE + Z.of_nat (length HNS_NODE_IDS) * NODE_STRIDE.

Section host_cmn_cyprus.
Context (cfg : cmn_config).

(** [host_cmn_cyprus.h: seed_rnsam_node] *)
Definition seed_rnsam_node (m : mem) : mem :=
  let base := rnsam_offset in
  let rcomp_lsb := p_rcomp_lsb cfg in
  let m := seed64 base (node_info NODE_TYPE_RN_SAM RNSAM_NODE_ID 0) m in
  let m := seed64 (base + NODE_CHILD_INFO) 0 m in
  let m := seed64 (base + RNSAM_UNIT_INFO0) (Z.lor RNSAM_NONHASH_RCOMP_EN RNSAM_HTG_RCOMP_EN) m in
  let m := seed64 (base + RNSAM_UNIT_INFO1) (Z.lor (shl 64 rcomp_lsb 5) rcomp_lsb) m in
  seed64 (base + RNSAM_STATUS) 0x2 m.

(** The loop over the home nodes. *)
(** [host_cmn_cyprus.h: "for (unsigned int i = 0; i < HNS_NODE_IDS.size(); ++i) {" .. "seed64(base + HNS_UNIT_INFO1, 0);"] *)
Definition seed_hns_node (m : mem) (i : Z) : mem :=
  let base := hns_offset i in
  let m := seed64 (MXP_BASE + MXP_CHILD_POINTER + i * 8) base m in
  let m := seed64 base (node_info NODE_TYPE_HN_S (arr_get HNS_NODE_IDS i) i) m in
  let m := seed64 (base + NODE_CHILD_INFO) 0 m in
  let m := seed64 (base + HNS_UNIT_INFO0) 0 m in
  seed64 (base + HNS_UNIT_INFO1) 0 m.

(** [host_cmn_cyprus.h: seed_registers] *)
Definition seed_registers : regblock :=
  let m := seed64 CFGM_BASE (node_info NODE_TYPE_CFG 0 0) ∅ in
  let m := seed64 CFGM_PERIPH_ID1 (shl 64 (Z.land (p_revision cfg) 0xf) 4) m in
  let m := seed64 CFGM_CHILD_INFO 1 m in
  let m := seed64 CFGM_CHILD_POINTER MXP_BASE m in
  let m := seed64 MXP_BASE (mxp_node_info 0 0 4) m in
  let m := seed64 (MXP_BASE + MXP_PORT_CONNECT_INFO + 0 * 8) DEVICE_TYPE_HN_S m in
  let m := seed64 (MXP_BASE + MXP_PORT_CONNECT_INFO + 2 * 8) DEVICE_TYPE_RN_F_CHIF_ESAM m in
  let m := seed64 (MXP_BASE + MXP_CHILD_INFO) (Z.of_nat (length HNS_NODE_IDS) + 1) m in
  let m := seed64 (MXP_BASE + MXP_PORT_DISABLE) 0 m in
  let m := foldl seed_hns_node m (range (Z.of_nat (length HNS_NODE_IDS))) in
  let m := seed64 (MXP_BASE + MXP_CHILD_POINTER + Z.of_nat (length HNS_NODE_IDS) * 8) rnsam_offset m in
  MkBlock (seed_rnsam_node m) 0.

(** [host_cmn_cyprus.h: "explicit host_cmn_cyprus" .. "&host_cmn_cyprus::transport_dbg);"] *)
Definition initial : regblock := seed_registers.

(** [host_cmn_cyprus.h: before_end_of_elaboration] *)
Definition before_end_of_elaboration : regblock := seed_registers.

(** [host_cmn_cyprus.h: is_in_window] *)
Definition is_in_window (offset len : Z) : bool :=
  let window := p_window_bytes cfg in (offset <? window) && (len <=? window - offset).

(** [host_cmn_cyprus.h: trace_access] *)
Definition trace_access : tlm_payload -> regblock -> regblock := block_trace (p_trace cfg) (p_trace_limit cfg).

(** [host_cmn_cyprus.h: access] *)
Definition access (debug : bool) (s : regblock) (t : tlm_payload) : regblock * tlm_payload * bool :=
  let offset := address t in
  let len := data_length t in
  match data_ptr t with
  | None => refuse s t TLM_ADDRESS_ERROR_RESPONSE
  | Some data =>
      if negb (is_supported_length len) || negb (is_in_window offset len)
      then refuse s t TLM_ADDRESS_ERROR_RESPONSE
      else
        match command t with
        | TLM_READ_COMMAND =>
            let value := load_le (m_regs s) offset len in
            let t := t <| data_ptr := Some (put_data (take (Z.to_nat len) (le_bytes 8 value)) data) |> in
            accept (trace_access t s) t
        | TLM_WRITE_COMMAND =>
            let value := le_val (get_data len data) in
            accept (trace_access t (s <| m_regs ::= store_le offset value len |>)) t
        | TLM_IGNORE_COMMAND => refuse s t TLM_COMMAND_ERROR_RESPONSE
        end
  end.

(** [host_cmn_cyprus.h: b_transport] *)
Definition b_transport : regblock -> tlm_payload -> regblock * tlm_payload := target_b_transport access.

(** [host_cmn_cyprus.h: transport_dbg] *)
Definition transport_dbg : regblock -> tlm_payload -> regblock * tlm_payload * Z := target_transport_dbg access.
End host_cmn_cyprus.

(** * Reads and writes *)

(** Below 2^64 the byte loops are the block operations of the other components. *)
Lemma store_le_write offset value len m : 0 <= offset -> 0 <= len -> offset + len <= 2 ^ 64 ->
  store_le offset value len m ≈ mem_write offset (le_bytes (Z.to_nat len) value) m.
Proof.
  intros H0 Hl H1. unfold store_le.
  apply (foldl_range_ind _ (fun k m' => m' ≈ mem_write offset (le_bytes (Z.to_nat k) value) m)); [done|done|].
  intros k m' Hk IH i. unfold mem_get at 1. rewrite wrap_small by (split; lia). rewrite mem_get_write, le_bytes_length.
  destruct (Z.eq_dec i (offset + k)) as [->|Hne].
  - rewrite lookup_insert_eq. cbn [default from_option]. replace (_ && _) with true by lia.
    rewrite le_bytes_lookup by lia. cbn. unfold wrap. rewrite Z.shiftr_div_pow2 by lia. f_equal. f_equal. f_equal. lia.
  - rewrite lookup_insert_ne by done. fold (mem_get m' i). rewrite IH, mem_get_write, le_bytes_length.
    destruct (Z.leb_spec offset i); cbn [andb]; [|done].
    destruct (Z.ltb_spec i (offset + Z.of_nat (Z.to_nat k))), (Z.ltb_spec i (offset + Z.of_nat (Z.to_nat (k + 1)))); try lia.
    rewrite !le_bytes_lookup by lia. done.
Qed.

Lemma load_le_read size offset len m : mem_ok size m -> 0 <= offset -> 0 <= len <= 8 -> offset + len <= 2 ^ 64 ->
  load_le m offset len = le_val (mem_read m offset len).
Proof.
  intros Hm H0 Hl H1. unfold load_le. pose proof (mem_read_length m offset len ltac:(lia)) as Hlen.
  apply (le_or_bytes 64 (fun i => load8 m (u64 (offset + i)))); [lia|exact Hlen|by eapply mem_read_ok|].
  intros i Hi. rewrite wrap_small by (split; lia). unfold arr_get. rewrite mem_read_lookup by lia.
  rewrite Z2Nat.id by lia. unfold load8, mem_get. by destruct (m !! _).
Qed.

(** * Discovery

    What a driver does with the window: from the configuration node it follows
    the child pointers to the crosspoint and from there to the nodes. *)

Definition children (read : Z -> Z) (node : Z) : list Z :=
  map (fun i => read (node + CFGM_CHILD_POINTER + 8 * i)) (range (read (node + CFGM_CHILD_INFO) mod 2 ^ 16)).

Definition discover (read : Z -> Z) : list (Z * Z) :=
  flat_map (fun xp => map (fun node => (node, read node)) (children read xp)) (children read CFGM_BASE).

(** Discovery from the seeded window finds the eight home nodes with their
    identifiers and logical numbers and the address-map node, whatever the
    configuration. *)
Lemma cmn_discovery (cfg : cmn_config) :
  discover (fun a => load_le (m_regs (initial cfg)) a 8) =
  map (fun i => (hns_offset i, node_info NODE_TYPE_HN_S (arr_get HNS_NODE_IDS i) i)) (range 8) ++
  [(rnsam_offset, node_info NODE_TYPE_RN_SAM RNSAM_NODE_ID 0)].
Proof. by vm_compute. Qed.
