(* ===== verification/GicViews.v ===== *)
(** The multi-view interrupt controller window [gicx00_multiview]
    (systemc-components/gicx00_multiview/include/gicx00_multiview.h): the
    distributor with its view registers and sixteen redistributors, each an array
    of bytes behind its own socket. *)

From S2P Require Import Prelude Bytes Tlm Memory Access.

Definition DIST_BYTES : Z := 0x10000.
Definition REDIST_BYTES : Z := 0x20000.
Definition REDIST_COUNT : Z := 16.
Definition GICD_CTLR : Z := 0x0000.
Definition GICD_CFGID : Z := 0xf000.
Definition GICD_IVIEWR_BASE : Z := 0xf600.
Definition GICD_IVIEWR_LIMIT : Z := 0xfa00.
Definition GICD_IVIEWR_FIRST : Z := 2.
Definition GICD_IVIEWR_LAST : Z := 61.
Definition GICD_CFGID_VIEW : Z := bit 53.
Definition GICR_PWRR : Z := 0x0024.
Definition GICR_VIEWR : Z := 0x002c.
Definition GICR_FLUSHR : Z := 0x0030.
Definition GICR_VIEWR_MASK : Z := 0x3.
Definition GICR_FLUSHR_RESET : Z := 0x3cfffff0.
Definition GICR_FLUSHR_RW_MASK : Z := 0x3cfffff1.

(** [gicx00_multiview.h: "cci::cci_param<bool> p_trace;" .. "cci::cci_param<unsigned int> p_trace_limit;"] *)
Record gic_config := { p_trace : bool; p_trace_limit : Z }.

(** [gicx00_multiview.h: "std::array<uint8_t, DIST_BYTES> m_dist_regs {};" .. "unsigned int m_trace_count = 0;"] *)
Record gicx00_multiview := MkGic { m_dist_regs : mem; m_redist_regs : list mem; m_trace_count : Z }.

#[export] Instance eta_gicx00_multiview : Eta gicx00_multiview := fun s =>
  MkGic (m_dist_regs s) (m_redist_regs s) (m_trace_count s).

(** [gicx00_multiview.h: store64] *)
Definition store64 (off v : Z) (m : mem) : mem := mem_write off (le_bytes 8 v) m.

Section gicx00_multiview.
Context (cfg : gic_config).

(** The loop over the redistributors. *)
(** [gicx00_multiview.h: "for (auto& regs : m_redist_regs) {" .. "store32(regs, GICR_FLUSHR, GICR_FLUSHR_RESET);"] *)
Definition reset_redist : mem :=
  store32 GICR_FLUSHR GICR_FLUSHR_RESET (store32 GICR_VIEWR 0 (store32 GICR_PWRR 0 ∅)).

(** [gicx00_multiview.h: reset_registers] *)
Definition reset_registers (s : gicx00_multiview) : gicx00_multiview :=
  s <| m_redist_regs := replicate (Z.to_nat REDIST_COUNT) reset_redist |>
    <| m_dist_regs := store64 GICD_CFGID GICD_CFGID_VIEW (store32 GICD_CTLR 0 ∅) |>.

(** [gicx00_multiview.h: "explicit gicx00_multiview" .. "&gicx00_multiview::transport_dbg_redist15);"] *)
Definition initial : gicx00_multiview := reset_registers (MkGic ∅ [] 0).

(** [gicx00_multiview.h: trace_access] *)
Definition trace_access (s : gicx00_multiview) : gicx00_multiview :=
  if negb (p_trace cfg) || (p_trace_limit cfg <=? m_trace_count s) then s
  else s <| m_trace_count ::= fun n => u32 (n + 1) |>.

(** One of the arrays, reached through [get] and [set]. *)
(** [gicx00_multiview.h: access_array] *)
Definition access_array (size : Z) (get : gicx00_multiview -> mem) (set : (mem -> mem) -> gicx00_multiview -> gicx00_multiview)
    (debug : bool) (s : gicx00_multiview) (t : tlm_payload) : gicx00_multiview * tlm_payload * bool :=
  let offset := address t in
  let len := data_length t in
  match data_ptr t with
  | None => refuse s t TLM_ADDRESS_ERROR_RESPONSE
  | Some data =>
      if negb (is_supported_length len) || (size <? offset) || (size - offset <? len)
      then refuse s t TLM_ADDRESS_ERROR_RESPONSE
      else
        match command t with
        | TLM_READ_COMMAND =>
            accept (trace_access s) (t <| data_ptr := Some (put_data (mem_read (get s) offset len) data) |>)
        | TLM_WRITE_COMMAND => accept (trace_access (set (mem_write offset (get_data len data)) s)) t
        | TLM_IGNORE_COMMAND => refuse s t TLM_COMMAND_ERROR_RESPONSE
        end
  end.

(** [gicx00_multiview.h: is_supported_iviewr] *)
Definition is_supported_iviewr (offset len : Z) : bool :=
  if (offset <? GICD_IVIEWR_BASE) || (GICD_IVIEWR_LIMIT <=? offset) || negb (len =? 4) ||
     negb ((offset - GICD_IVIEWR_BASE) mod 4 =? 0)
  then false
  else let index := u32 ((offset - GICD_IVIEWR_BASE) / 4) in (GICD_IVIEWR_FIRST <=? index) && (index <=? GICD_IVIEWR_LAST).

(** [gicx00_multiview.h: is_iviewr_window] *)
Definition is_iviewr_window (offset : Z) : bool := (GICD_IVIEWR_BASE <=? offset) && (offset <? GICD_IVIEWR_LIMIT).

(** [gicx00_multiview.h: access_dist] *)
Definition access_dist (debug : bool) (s : gicx00_multiview) (t : tlm_payload) : gicx00_multiview * tlm_payload * bool :=
  let offset := address t in
  let plain := access_array DIST_BYTES m_dist_regs (fun f s => s <| m_dist_regs ::= f |>) debug s t in
  if is_iviewr_window offset then
    match data_ptr t with
    | None => refuse s t TLM_ADDRESS_ERROR_RESPONSE
    | Some data =>
        if negb (data_length t =? 4) then refuse s t TLM_ADDRESS_ERROR_RESPONSE
        else if negb (is_supported_iviewr offset (data_length t)) then
          match command t with
          | TLM_READ_COMMAND => accept (trace_access s) (t <| data_ptr := Some (put_data (le_bytes 4 0) data) |>)
          | TLM_WRITE_COMMAND => accept (trace_access s) t
          | TLM_IGNORE_COMMAND => refuse s t TLM_COMMAND_ERROR_RESPONSE
          end
        else plain
    end
  else plain.

(** The word a redistributor write is changed to, in the initiator's buffer. *)
(** [gicx00_multiview.h: "uint32_t value = 0;" .. "value &= GICR_FLUSHR_RW_MASK;"] *)
Definition redist_value (offset value : Z) : Z :=
  if offset =? GICR_PWRR then 0
  else if offset =? GICR_VIEWR then Z.land value GICR_VIEWR_MASK
  else if offset =? GICR_FLUSHR then Z.land value GICR_FLUSHR_RW_MASK
  else value.

(** [gicx00_multiview.h: access_redist] *)
Definition access_redist (index : Z) (debug : bool) (s : gicx00_multiview) (t : tlm_payload)
    : gicx00_multiview * tlm_payload * bool :=
  if Z.of_nat (length (m_redist_regs s)) <=? index then refuse s t TLM_ADDRESS_ERROR_RESPONSE
  else
    let offset := address t in
    let t :=
      match data_ptr t with
      | Some data =>
          if (data_length t =? 4) && bool_decide (command t = TLM_WRITE_COMMAND) &&
             ((offset =? GICR_PWRR) || (offset =? GICR_VIEWR) || (offset =? GICR_FLUSHR))
          then t <| data_ptr := Some (put_data (le_bytes 4 (redist_value offset (le_val (get_data 4 data)))) data) |>
          else t
      | None => t
      end in
    access_array REDIST_BYTES (fun s => default ∅ (m_redist_regs s !! Z.to_nat index))
      (fun f s => s <| m_redist_regs ::= alter f (Z.to_nat index) |>) debug s t.

(** [gicx00_multiview.h: b_transport_dist] *)
Definition b_transport_dist : gicx00_multiview -> tlm_payload -> gicx00_multiview * tlm_payload :=
  target_b_transport access_dist.

(** [gicx00_multiview.h: transport_dbg_dist] *)
Definition transport_dbg_dist : gicx00_multiview -> tlm_payload -> gicx00_multiview * tlm_payload * Z :=
  target_transport_dbg access_dist.

(** The sockets of the sixteen redistributors pass their number. *)
(** [gicx00_multiview.h: b_transport_redist] *)
Definition b_transport_redist (index : Z) : gicx00_multiview -> tlm_payload -> gicx00_multiview * tlm_payload :=
  target_b_transport (access_redist index).

(** [gicx00_multiview.h: transport_dbg_redist] *)
Definition transport_dbg_redist (index : Z) : gicx00_multiview -> tlm_payload -> gicx00_multiview * tlm_payload * Z :=
  target_transport_dbg (access_redist index).

(** [gicx00_multiview.h: "void b_transport_redist0(" .. "b_transport_redist(15, trans, delay);"] *)
Definition b_transport_redist_sockets : list (gicx00_multiview -> tlm_payload -> gicx00_multiview * tlm_payload) :=
  map b_transport_redist (range REDIST_COUNT).

(** [gicx00_multiview.h: "unsigned int transport_dbg_redist0(" .. "return transport_dbg_redist(15, trans);"] *)
Definition transport_dbg_redist_sockets
    : list (gicx00_multiview -> tlm_payload -> gicx00_multiview * tlm_payload * Z) :=
  map transport_dbg_redist (range REDIST_COUNT).
End gicx00_multiview.

(** * What accesses touch *)

Definition gic_ok (s : gicx00_multiview) : Prop :=
  mem_ok DIST_BYTES (m_dist_regs s) /\ length (m_redist_regs s) = Z.to_nat REDIST_COUNT /\
  Forall (mem_ok REDIST_BYTES) (m_redist_regs s).

Section accesses.
Context (cfg : gic_config).

Lemma gic_trace_same s : m_dist_regs (trace_access cfg s) = m_dist_regs s /\ m_redist_regs (trace_access cfg s) = m_redist_regs s.
Proof. unfold trace_access. by case_if. Qed.

(** An access to an array leaves it, or writes bytes that fit. *)
Lemma access_array_cases size get set dbg s t s' t' ok : payload_ok t ->
  access_array cfg size get set dbg s t = (s', t', ok) ->
  s' = s \/ s' = trace_access cfg s \/
  exists bs, s' = trace_access cfg (set (mem_write (address t) bs) s) /\ bytes_ok bs /\ 0 <= address t /\
    Z.of_nat (length bs) = data_length t /\ address t + data_length t <= size /\ command t = TLM_WRITE_COMMAND /\
    is_supported_length (data_length t) = true /\ exists d, data_ptr t = Some d /\ bs = get_data (data_length t) d.
Proof.
  intros (H0 & [H1 _] & H2 & Hd) H. unfold access_array, refuse, accept in H.
  destruct (data_ptr t) as [d|]; [|simplify_eq; by left]. destruct Hd as [Hlen Hok].
  destruct (_ || _) eqn:E; [simplify_eq; by left|]. bool_hyps.
  destruct (command t); simplify_eq; [right; by left| |by left].
  right. right. exists (get_data (data_length t) d). split; [done|]. split; [by apply get_data_ok|]. split; [done|].
  split; [by apply get_data_length; lia|]. split; [lia|]. split; [done|]. split; [done|]. by exists d.
Qed.

Lemma dist_regs_ok s f : gic_ok s -> (forall m, mem_ok DIST_BYTES m -> mem_ok DIST_BYTES (f m)) ->
  gic_ok (s <| m_dist_regs ::= f |>).
Proof. intros (H1 & H2 & H3) Hf. split; [by apply Hf|done]. Qed.

Lemma redist_regs_ok s f k : gic_ok s -> (forall m, mem_ok REDIST_BYTES m -> mem_ok REDIST_BYTES (f m)) ->
  gic_ok (s <| m_redist_regs ::= alter f k |>).
Proof.
  intros (H1 & H2 & H3) Hf. split; [done|]. cbn [m_redist_regs set_field]. split; [by rewrite length_alter|].
  apply Forall_alter; [done|]. intros m _ Hm. by apply Hf.
Qed.

Lemma gic_trace_ok s : gic_ok s -> gic_ok (trace_access cfg s).
Proof. destruct (gic_trace_same s) as [E1 E2]. unfold gic_ok. by rewrite E1, E2. Qed.

Lemma gic_dist_inv dbg s t s' t' ok : gic_ok s -> payload_ok t -> access_dist cfg dbg s t = (s', t', ok) ->
  gic_ok s' /\ m_redist_regs s' = m_redist_regs s.
Proof.
  intros Hs Ht H. assert (forall r, access_array cfg DIST_BYTES m_dist_regs (fun f s => s <| m_dist_regs ::= f |>) dbg s t = r ->
    r = (s', t', ok) -> gic_ok s' /\ m_redist_regs s' = m_redist_regs s) as Hplain.
  { intros r <- H'. destruct (access_array_cases _ _ _ _ _ _ _ _ _ Ht H') as [->|[->|(bs & -> & Hbs & Ha & Hl & He & _)]];
      [done|by rewrite (proj2 (gic_trace_same s)); split; [apply gic_trace_ok|]|].
    split; [apply gic_trace_ok|by rewrite (proj2 (gic_trace_same _))]. apply dist_regs_ok; [done|].
    intros m Hm. apply mem_ok_write; [done|done|done|lia]. }
  unfold access_dist, refuse, accept in H. destruct (is_iviewr_window _); [|by eapply Hplain].
  destruct (data_ptr t); [|by simplify_eq]. destruct (negb (_ =? 4)); [by simplify_eq|].
  destruct (negb _); [|by eapply Hplain].
  destruct (command t); simplify_eq; try done; rewrite (proj2 (gic_trace_same s)); split; try done; by apply gic_trace_ok.
Qed.

(** A payload whose word was rewritten is still one an initiator may send. *)
Lemma rewritten_payload t d v : payload_ok t -> data_ptr t = Some d -> data_length t = 4 ->
  payload_ok (t <| data_ptr := Some (put_data (le_bytes 4 v) d) |>).
Proof. intros Ht Ed El. apply (payload_ok_put t d); [done|done|by rewrite le_bytes_length|apply le_bytes_ok]. Qed.

(** A redistributor access touches only its own array. *)
Lemma gic_redist_inv index dbg s t s' t' ok : 0 <= index < REDIST_COUNT -> gic_ok s -> payload_ok t ->
  access_redist cfg index dbg s t = (s', t', ok) ->
  gic_ok s' /\ m_dist_regs s' = m_dist_regs s /\
  forall k, k <> Z.to_nat index -> m_redist_regs s' !! k = m_redist_regs s !! k.
Proof.
  intros Hi Hs Ht H. unfold access_redist in H. destruct (_ <=? index); [unfold refuse in H; by simplify_eq|].
  match type of H with access_array _ _ _ _ _ _ ?u = _ => assert (payload_ok u) as Hu; [|revert Hu H; generalize u] end.
  { destruct (data_ptr t) eqn:Ed; [|done]. destruct ((data_length t =? 4) && _ && _) eqn:E; [|done]. bool_hyps. by apply rewritten_payload. }
  intros u Hu H. destruct (access_array_cases _ _ _ _ _ _ _ _ _ Hu H) as [->|[->|(bs & -> & Hbs & Ha & Hl & He & _)]]; [done| |].
  - destruct (gic_trace_same s) as [-> ->]. split; [by apply gic_trace_ok|done].
  - destruct (gic_trace_same (s <| m_redist_regs ::= alter (mem_write (address u) bs) (Z.to_nat index) |>)) as [-> ->].
    split; [|split; [done|]].
    + apply gic_trace_ok, redist_regs_ok; [done|]. intros m Hm. apply mem_ok_write; [done|done|done|lia].
    + intros k Hk. cbn [m_redist_regs set_field]. by apply list_lookup_alter_ne.
Qed.
End accesses.

(** The sockets of the window. *)
Inductive gic_socket := Dist | Redist (index : Z).

Definition gic_access (cfg : gic_config) (k : gic_socket) : bool -> gicx00_multiview -> tlm_payload -> gicx00_multiview * tlm_payload * bool :=
  match k with Dist => access_dist cfg | Redist index => access_redist cfg index end.

(** The redistributors are isolated: whatever happens on the other sockets, the
    array of one does not change, and the state stays well formed. *)
Lemma gic_views_isolated cfg (txns : list (gic_socket * bool * tlm_payload)) index s :
  gic_ok s -> 0 <= index < REDIST_COUNT ->
  Forall (fun '(k, _, t) => payload_ok t /\ match k with Dist => True | Redist j => 0 <= j < REDIST_COUNT /\ j <> index end) txns ->
  let s' := foldl (fun s '(k, dbg, t) => fst (fst (gic_access cfg k dbg s t))) s txns in
  gic_ok s' /\ m_redist_regs s' !! Z.to_nat index = m_redist_regs s !! Z.to_nat index.
Proof.
  intros Hs Hi Htx. cbv zeta. revert s Hs. induction Htx as [|[[k dbg] t] txns [Ht Hk] _ IH]; intros s Hs; [done|]. cbn [foldl].
  destruct (gic_access cfg k dbg s t) as [[s1 t1] ok] eqn:E. cbn [fst].
  assert (gic_ok s1 /\ m_redist_regs s1 !! Z.to_nat index = m_redist_regs s !! Z.to_nat index) as [Hs1 E1].
  { destruct k as [|j]; cbn [gic_access] in E.
    - destruct (gic_dist_inv cfg dbg s t s1 t1 ok Hs Ht E) as [H1 H2]. by rewrite H2.
    - destruct (gic_redist_inv cfg j dbg s t s1 t1 ok (proj1 Hk) Hs Ht E) as (H1 & _ & H3).
      split; [done|]. apply H3. unfold REDIST_COUNT in *. lia. }
  destruct (IH s1 Hs1) as [H2 H3]. split; [done|]. by rewrite H3.
Qed.

Lemma gic_initial_ok : gic_ok initial.
Proof.
  split; [|split; [done|]].
  - change (mem_ok DIST_BYTES (store64 GICD_CFGID GICD_CFGID_VIEW (store32 GICD_CTLR 0 ∅))). unfold store64. apply mem_ok_write; [apply mem_ok_store32; [apply mem_ok_empty|by cbv|by cbv]|apply le_bytes_ok|by cbv|by cbv].
  - apply Forall_replicate. unfold reset_redist. repeat (apply mem_ok_store32; [|by cbv|by cbv]). apply mem_ok_empty.
Qed.

(** A word written to the view register of a redistributor keeps two bits, but the
    doubleword that covers it keeps them all, and a word write also changes the
    buffer of the initiator. *)
Lemma gic_wide_write_skips_mask : let cfg := {| p_trace := false; p_trace_limit := 128 |} in
  let view s := load32 (default ∅ (m_redist_regs s !! 0%nat)) GICR_VIEWR in
  view (fst (b_transport_redist cfg 0 initial (write_txn GICR_VIEWR 0xff))) = 3 /\
  view (fst (b_transport_redist cfg 0 initial (write_bytes_txn 0x28 (le_bytes 8 (0xff * 2 ^ 32))))) = 0xff /\
  data_ptr (snd (b_transport_redist cfg 0 initial (write_txn GICR_VIEWR 0xff))) = Some (le_bytes 4 3).
Proof. by vm_compute. Qed.
