(* ===== verification/GicMessreg.v ===== *)
(** The interrupt message registers [gic720ae_messreg]
    (systemc-components/gic720ae_messreg/include/gic720ae_messreg.h): a window of
    bytes of configurable size. *)

From S2P Require Import Prelude Bytes Tlm Memory Access RegBlock.

Definition WINDOW_BYTES : Z := 0x10000.

(** [gic720ae_messreg.h: "cci::cci_param<uint64_t> p_window_size;" .. "cci::cci_param<unsigned int> p_trace_limit;"] *)
Record messreg_config := { p_window_size : Z; p_trace : bool; p_trace_limit : Z }.

Section gic720ae_messreg.
Context (cfg : messreg_config).

(** [gic720ae_messreg.h: window_size] *)
Definition window_size : Z :=
  let configured := p_window_size cfg in if configured <? WINDOW_BYTES then configured else WINDOW_BYTES.

(** [gic720ae_messreg.h: is_valid_access] *)
Definition is_valid_access (offset len : Z) (data : option (list Z)) : bool :=
  match data with
  | None => false
  | Some _ => is_supported_length len && (offset <=? window_size) && (len <=? window_size - offset)
  end.

(** [gic720ae_messreg.h: trace_access] *)
Definition trace_access : tlm_payload -> regblock -> regblock := block_trace (p_trace cfg) (p_trace_limit cfg).

(** [gic720ae_messreg.h: access] *)
Definition access (debug : bool) (s : regblock) (t : tlm_payload) : regblock * tlm_payload * bool :=
  let offset := address t in
  let len := data_length t in
  if negb (is_valid_access offset len (data_ptr t)) then refuse s t TLM_ADDRESS_ERROR_RESPONSE
  else
    let data := default [] (data_ptr t) in
    match command t with
    | TLM_READ_COMMAND =>
        let t := t <| data_ptr := Some (put_data (mem_read (m_regs s) offset len) data) |> in
        accept (trace_access t s) t
    | TLM_WRITE_COMMAND => accept (trace_access t (s <| m_regs ::= mem_write offset (get_data len data) |>)) t
    | TLM_IGNORE_COMMAND => refuse s t TLM_COMMAND_ERROR_RESPONSE
    end.

(** [gic720ae_messreg.h: "explicit gic720ae_messreg" .. "target_socket.register_transport_dbg"] *)
Definition initial : regblock := MkBlock ∅ 0.

(** The transport leaves the direct-memory flag alone. *)
(** [gic720ae_messreg.h: b_transport] *)
Definition b_transport (s : regblock) (t : tlm_payload) : regblock * tlm_payload :=
  let '(s, t, _) := access false s t in (s, t).

(** [gic720ae_messreg.h: transport_dbg] *)
Definition transport_dbg : regblock -> tlm_payload -> regblock * tlm_payload * Z := target_transport_dbg access.

(** Writes stay inside the configured window, whatever its size. *)
Lemma messreg_window s t s' t' ok : 0 <= p_window_size cfg -> payload_ok t -> mem_ok window_size (m_regs s) ->
  access false s t = (s', t', ok) -> mem_ok window_size (m_regs s').
Proof.
  intros Hw (H0 & [H1 _] & H2 & Hd) Hm H. unfold access, refuse, accept, trace_access in H.
  destruct (negb _) eqn:E; [by simplify_eq|]. apply negb_false_iff in E. unfold is_valid_access in E.
  destruct (data_ptr t) as [d|]; [|done]. destruct Hd as [Hl Hok]. bool_hyps.
  destruct (command t); simplify_eq; rewrite ?block_trace_regs; try done. cbn.
  apply mem_ok_write; [done|by apply get_data_ok|done|]. rewrite get_data_length; lia.
Qed.
End gic720ae_messreg.

(** What is written to the window is read back. *)
Lemma messreg_roundtrip cfg s off bs : 0 <= off -> off + Z.of_nat (length bs) <= window_size cfg ->
  is_supported_length (Z.of_nat (length bs)) = true ->
  let s' := fst (b_transport cfg s (write_bytes_txn off bs)) in
  data_ptr (snd (b_transport cfg s' (read_txn off (length bs)))) = Some bs.
Proof.
  intros H0 H1 Hl. cbv zeta. unfold b_transport at 2, access, is_valid_access, refuse, accept, trace_access.
  cbn [data_ptr address data_length command write_bytes_txn default from_option]. rewrite Hl.
  replace (off <=? window_size cfg) with true by lia. replace (Z.of_nat (length bs) <=? window_size cfg - off) with true by lia.
  cbn [andb negb fst].
  match goal with |- context [block_trace ?a ?b ?c ?d] => set (s' := block_trace a b c d) end.
  assert (m_regs s' = mem_write off bs (m_regs s)) as Es.
  { unfold s'. rewrite block_trace_regs. cbn. unfold get_data. by rewrite Nat2Z.id, take_ge. }
  unfold b_transport, access, is_valid_access, refuse, accept, trace_access.
  cbn [data_ptr address data_length command read_txn default from_option]. rewrite Hl.
  replace (off <=? window_size cfg) with true by lia. replace (Z.of_nat (length bs) <=? window_size cfg - off) with true by lia.
  cbn. rewrite Es, mem_read_write_eq by done. unfold put_data. by rewrite drop_ge, app_nil_r by by rewrite length_replicate.
Qed.
