(* ===== verification/ResetFanout.v ===== *)
(** The reset fan-out [reset_fanout]
    (systemc-components/reset_fanout/include/reset_fanout.h): changes of the reset
    input are collected and handed to all the outputs a moment later. *)

From S2P Require Import Prelude.

(** [reset_fanout.h: "cci::cci_param<bool> p_trace;" .. "cci::cci_param<unsigned int> p_trace_limit;"] *)
Record fanout_config := { p_trace : bool; p_trace_limit : Z }.

(** [m_event] is a pending notification; [m_written] the vectors handed to
    [reset_out], oldest first. *)
(** [reset_fanout.h: "unsigned int m_trace_count = 0;" .. "sc_core::sc_event m_reset_event;"] *)
Record reset_fanout := MkFanout {
  m_trace_count : Z;
  m_pending_resets : list bool;
  m_last_reset : bool;
  m_have_last_reset : bool;
  m_event : bool;
  m_written : list (list bool)
}.

#[export] Instance eta_reset_fanout : Eta reset_fanout := fun s =>
  MkFanout (m_trace_count s) (m_pending_resets s) (m_last_reset s) (m_have_last_reset s) (m_event s) (m_written s).

Section reset_fanout.
Context (cfg : fanout_config).

(** [reset_fanout.h: trace_write] *)
Definition trace_write (s : reset_fanout) : reset_fanout :=
  if negb (p_trace cfg) || (p_trace_limit cfg <=? m_trace_count s) then s
  else s <| m_trace_count ::= fun n => u32 (n + 1) |>.

Definition initial : reset_fanout := MkFanout 0 [] false false false [].

(** The callback of [reset_in]. *)
(** [reset_fanout.h: "reset_in.register_value_changed_cb(" .. "});"] *)
Definition reset_in (value : bool) (s : reset_fanout) : reset_fanout :=
  if m_have_last_reset s && Bool.eqb value (m_last_reset s) then s
  else
    let s := trace_write (s <| m_have_last_reset := true |> <| m_last_reset := value |>) in
    s <| m_pending_resets ::= fun l => l ++ [value] |> <| m_event := true |>.

(** [reset_fanout.h: emit_reset] *)
Definition emit_reset (s : reset_fanout) : reset_fanout :=
  let pending := m_pending_resets s in
  s <| m_pending_resets := [] |> <| m_written ::= fun l => l ++ [pending] |>.

(** The kernel runs [emit_reset] when a notification is pending. *)
Definition reset_event (s : reset_fanout) : reset_fanout :=
  if m_event s then emit_reset (s <| m_event := false |>) else s.

Inductive fanout_op := ResetIn (value : bool) | ResetEvent.

Definition fanout_run (s : reset_fanout) (op : fanout_op) : reset_fanout :=
  match op with ResetIn value => reset_in value s | ResetEvent => reset_event s end.

Definition inputs (ops : list fanout_op) : list bool :=
  flat_map (fun op => match op with ResetIn v => [v] | ResetEvent => [] end) ops.

(** The changes of a sequence of levels: its values without repetitions. *)
Fixpoint changes (last : option bool) (l : list bool) : list bool :=
  match l with
  | [] => []
  | v :: l => if bool_decide (last = Some v) then changes last l else v :: changes (Some v) l
  end.

Definition last_reset (s : reset_fanout) : option bool := if m_have_last_reset s then Some (m_last_reset s) else None.

Lemma trace_write_same s : m_pending_resets (trace_write s) = m_pending_resets s /\
  last_reset (trace_write s) = last_reset s /\ m_written (trace_write s) = m_written s.
Proof. unfold trace_write. by case_if. Qed.

(** Everything the input did arrives, once per change and in order: what was
    handed on and what is still pending are the changes of the input, and nothing
    is pending without a notification that will hand it on. *)
Lemma fanout_delivers_changes (ops : list fanout_op) :
  let s := foldl fanout_run initial ops in
  concat (m_written s) ++ m_pending_resets s = changes None (inputs ops) /\
  (m_event s = false -> m_pending_resets s = []) /\
  m_pending_resets (reset_event s) = [].
Proof.
  cbv zeta. assert (forall s, (m_event s = false -> m_pending_resets s = []) ->
    let s' := foldl fanout_run s ops in
    concat (m_written s') ++ m_pending_resets s' =
      (concat (m_written s) ++ m_pending_resets s) ++ changes (last_reset s) (inputs ops) /\
    (m_event s' = false -> m_pending_resets s' = [])) as H.
  { induction ops as [|op ops IH]; intros s Hs; cbv zeta; [by rewrite app_nil_r|]. cbn [foldl inputs flat_map].
    destruct op as [v|]; cbn [fanout_run].
    - unfold reset_in. cbn [app changes]. fold (inputs ops).
      destruct (m_have_last_reset s && Bool.eqb v (m_last_reset s)) eqn:E.
      + apply andb_true_iff in E as [E1 E2%eqb_prop]. subst v.
        rewrite bool_decide_eq_true_2 by (unfold last_reset; by rewrite E1). by apply IH.
      + rewrite bool_decide_eq_false_2.
        2:{ unfold last_reset. destruct (m_have_last_reset s); [|done]. intros [= E']. rewrite E' in E. by rewrite eqb_reflx in E. }
        set (s0 := s <| m_have_last_reset := true |> <| m_last_reset := v |>). destruct (trace_write_same s0) as (E1 & E2 & E3).
        destruct (IH ((trace_write s0) <| m_pending_resets ::= fun l => l ++ [v] |> <| m_event := true |>)) as [H1 H2]; [done|].
        split; [|done]. etrans; [exact H1|].
        change (last_reset (_ <| m_event := true |>)) with (last_reset (trace_write s0)).
        change (m_written (_ <| m_event := true |>)) with (m_written (trace_write s0)).
        change (m_pending_resets (_ <| m_event := true |>)) with (m_pending_resets (trace_write s0) ++ [v]).
        rewrite E1, E2, E3. cbn. by rewrite <-!app_assoc.
    - cbn [app]. fold (inputs ops). unfold reset_event. destruct (m_event s) eqn:Ee; [|apply IH; intros _; by apply Hs].
      destruct (IH (emit_reset (s <| m_event := false |>))) as [H1 H2]; [done|]. split; [|done]. rewrite H1.
      cbn [emit_reset m_written m_pending_resets set_field]. rewrite concat_app. cbn. by rewrite !app_nil_r. }
  destruct (H initial) as [H1 H2]; [done|]. split; [exact H1|]. split; [done|].
  unfold reset_event. by destruct (m_event _) eqn:E; [|apply H2].
Qed.
End reset_fanout.
