(* ===== verification/RseAtu.v ===== *)
(** The RSE address translation unit [rse_atu]
    (systemc-components/rse_atu/include/rse_atu.h): a register file of 32
    regions, a translation socket that forwards transactions to the physical
    address, and the DMI grants it derives from downstream grants. *)

From Stdlib Require Import Ascii String.
From S2P Require Import Prelude Bytes Tlm Access.

(** * Constants *)

Definition REG_BYTES : Z := 0x1000.
Definition ATUBC : Z := 0x000.
Definition ATUC : Z := 0x004.
Definition ATUIS : Z := 0x008.
Definition ATUIE : Z := 0x00c.
Definition ATUIC : Z := 0x010.
Definition ATUMA : Z := 0x014.
Definition ATURSLA_BASE : Z := 0x020.
Definition ATURELA_BASE : Z := 0x0a0.
Definition ATURAV_L_BASE : Z := 0x120.
Definition ATURAV_M_BASE : Z := 0x1a0.
Definition ATUROBA_BASE : Z := 0x220.
Definition ATURGPV_BASE : Z := 0x2a0.
Definition REGION_COUNT : Z := 32.
Definition REGION_STRIDE : Z := 4.
Definition ATUBC_RC_OFF : Z := 0.
Definition ATUBC_RC_MASK : Z := Z.shiftl 0x7 ATUBC_RC_OFF.
Definition ATUBC_PS_OFF : Z := 4.
Definition ATUBC_PS_MASK : Z := Z.shiftl 0xf ATUBC_PS_OFF.
Definition ATUIS_MISMATCH_ERROR : Z := 0x1.
Definition ATU_REGION_ROBA_MASK : Z := 0xffff.
Definition ATUROBA_AXPROT1_OFF : Z := 2.
Definition ATUROBA_AXNSE_OFF : Z := 14.
Definition ATU_ROBA_PASSTHROUGH : Z := 0x0.
Definition ATU_ROBA_RESERVED : Z := 0x1.
Definition ATU_ROBA_SET_0 : Z := 0x2.
Definition ATU_ROBA_SET_1 : Z := 0x3.

(** * State *)

(** [rse_atu.h: translation_fault] *)
Inductive translation_fault := none | unmapped | disabled | out_of_range | permission | overflow.

#[export] Instance translation_fault_eq_dec : EqDecision translation_fault.
Proof. solve_decision. Defined.

(** [rse_atu.h: translation_info] *)
Record translation_info := MkInfo {
  region : Z;
  logical_start : Z;
  logical_end : Z;
  offset_pages : Z;
  offset : Z;
  physical : Z;
  fault : translation_fault
}.

#[export] Instance eta_translation_info : Eta translation_info := fun i =>
  MkInfo (region i) (logical_start i) (logical_end i) (offset_pages i) (offset i)
    (physical i) (fault i).

Definition empty_info : translation_info := MkInfo 0 0 0 0 0 0 none.

(** The configuration parameters, and which optional sockets are bound. *)
(** [rse_atu.h: "cci::cci_param<bool> p_trace;" .. "target_socket_type translation_socket;"] *)
Record atu_config := {
  p_trace : bool;
  p_trace_limit : Z;
  p_trace_filter : list ascii;
  p_trace_address_min : Z;
  p_trace_address_max : Z;
  p_build_config : Z;
  p_permitted_security_domains : Z;
  p_enable_dmi : bool;
  initiator_bound : bool;
  translation_bound : bool
}.

(** [m_invalidations] logs the ranges passed to [invalidate_direct_mem_ptr]. *)
(** [rse_atu.h: "std::array<uint8_t, REG_BYTES> m_regs{};" .. "unsigned int m_trace_count = 0;"] *)
Record rse_atu := MkAtu {
  m_regs : mem;
  m_trace_count : Z;
  m_invalidations : list (Z * Z)
}.

#[export] Instance eta_rse_atu : Eta rse_atu := fun s =>
  MkAtu (m_regs s) (m_trace_count s) (m_invalidations s).

(** [tlm::tlm_dmi]: a pointer into host memory and the bus range it backs. *)
Record tlm_dmi := MkDmi { dmi_ptr : Z; start_address : Z; end_address : Z }.

#[export] Instance eta_tlm_dmi : Eta tlm_dmi := fun d =>
  MkDmi (dmi_ptr d) (start_address d) (end_address d).

Definition UINT64_MAX : Z := 2 ^ 64 - 1.

(** * Regions *)

(** [rse_atu.h: in_range] *)
Definition in_range (offset base : Z) : bool :=
  (base <=? offset) && (offset <? base + REGION_COUNT * REGION_STRIDE) &&
  ((offset - base) mod REGION_STRIDE =? 0).

(** [rse_atu.h: is_region_array_offset] *)
Definition is_region_array_offset (offset : Z) : bool :=
  in_range offset ATURSLA_BASE || in_range offset ATURELA_BASE ||
  in_range offset ATURAV_L_BASE || in_range offset ATURAV_M_BASE ||
  in_range offset ATUROBA_BASE || in_range offset ATURGPV_BASE.

(** [rse_atu.h: page_shift] *)
Definition page_shift (m : mem) : Z :=
  u8 (Z.shiftr (Z.land (load32 m ATUBC) ATUBC_PS_MASK) ATUBC_PS_OFF).

(** [rse_atu.h: supported_region_count] *)
Definition supported_region_count (m : mem) : Z :=
  let rc := Z.shiftr (Z.land (load32 m ATUBC) ATUBC_RC_MASK) ATUBC_RC_OFF in
  let count := shl 32 1 rc in
  Z.min count REGION_COUNT.

(** [rse_atu.h: region_offset_pages] *)
Definition region_offset_pages (m : mem) (region : Z) : Z :=
  Z.lor (shl 64 (load32 m (ATURAV_M_BASE + region * REGION_STRIDE)) 32)
        (load32 m (ATURAV_L_BASE + region * REGION_STRIDE)).

(** [rse_atu.h: region_start_page] *)
Definition region_start_page (m : mem) (region : Z) : Z :=
  load32 m (ATURSLA_BASE + region * REGION_STRIDE).

(** [rse_atu.h: region_end_page] *)
Definition region_end_page (m : mem) (region : Z) : Z :=
  load32 m (ATURELA_BASE + region * REGION_STRIDE).

(** [rse_atu.h: region_roba] *)
Definition region_roba (m : mem) (region : Z) : Z :=
  Z.land (load32 m (ATUROBA_BASE + region * REGION_STRIDE)) ATU_REGION_ROBA_MASK.

(** [rse_atu.h: region_configured] *)
Definition region_configured (m : mem) (region : Z) : bool :=
  negb (region_start_page m region =? 0) || negb (region_end_page m region =? 0) ||
  negb (region_offset_pages m region =? 0) || negb (region_roba m region =? 0) ||
  negb (load32 m (ATURGPV_BASE + region * REGION_STRIDE) =? 0).

(** The out-parameter is the option's content. *)
(** [rse_atu.h: roba_field_to_bit] *)
Definition roba_field_to_bit (field : Z) : option bool :=
  let f := Z.land field 0x3 in
  if (f =? ATU_ROBA_PASSTHROUGH) || (f =? ATU_ROBA_SET_0) then Some false
  else if f =? ATU_ROBA_SET_1 then Some true
  else None.

Section rse_atu.
Context (cfg : atu_config).

(** [rse_atu.h: region_security_allowed] *)
Definition region_security_allowed (m : mem) (region : Z) : bool :=
  let roba := region_roba m region in
  match roba_field_to_bit (Z.shiftr roba ATUROBA_AXNSE_OFF),
        roba_field_to_bit (Z.shiftr roba ATUROBA_AXPROT1_OFF) with
  | Some nse, Some prot1 =>
      let domain := Z.lor (shl 32 (Z.b2z nse) 1) (Z.b2z prot1) in
      test (p_permitted_security_domains cfg) (shl 32 1 domain)
  | _, _ => false
  end.

(** [rse_atu.h: reset_registers] *)
Definition reset_registers (s : rse_atu) : rse_atu :=
  s <| m_regs := store32 ATUBC (p_build_config cfg) ∅ |>.

(** [rse_atu.h: "explicit rse_atu" .. "initiator_socket.register_invalidate_direct_mem_ptr"] *)
Definition initial : rse_atu := reset_registers (MkAtu ∅ 0 []).

(** [rse_atu.h: invalidate_translation_dmi] *)
Definition invalidate_translation_dmi (s : rse_atu) : rse_atu :=
  if negb (p_enable_dmi cfg) || negb (translation_bound cfg) then s
  else s <| m_invalidations ::= fun l => l ++ [(0, UINT64_MAX)] |>.

(** [rse_atu.h: invalidate_direct_mem_ptr] *)
Definition invalidate_direct_mem_ptr (start_ end_ : Z) (s : rse_atu) : rse_atu :=
  invalidate_translation_dmi s.

(** [rse_atu.h: write32] *)
Definition write32 (offset value : Z) (s : rse_atu) : rse_atu :=
  let '(mapping_changed, s) :=
    if (offset =? ATUBC) || (offset =? ATUIS) || (offset =? ATUMA) then (false, s)
    else if offset =? ATUIC then
      (false, s <| m_regs ::= fun m =>
         store32 ATUIC value (store32 ATUIS (Z.land (load32 m ATUIS) (not32 value)) m) |>)
    else if (offset =? ATUC) || (offset =? ATUIE) then
      (offset =? ATUC, s <| m_regs ::= store32 offset value |>)
    else if is_region_array_offset offset then
      let value := if in_range offset ATUROBA_BASE then Z.land value ATU_REGION_ROBA_MASK else value in
      (true, s <| m_regs ::= store32 offset value |>)
    else (false, s <| m_regs ::= store32 offset value |>) in
  if mapping_changed then invalidate_translation_dmi s else s.

(** * Trace filter *)

(** [filter.find(',', start)]: the position of the next comma. *)
Fixpoint find_comma (filter : list ascii) : option nat :=
  match filter with
  | [] => None
  | c :: filter => if (c =? ",")%char then Some O else option_map S (find_comma filter)
  end.

(** The loop of [token_matches], [filter] being what remains from [start]. *)
(** [rse_atu.h: token_matches] *)
Fixpoint token_loop (fuel : nat) (filter token : list ascii) : bool :=
  match fuel with
  | O => false
  | S fuel =>
      match find_comma filter with
      | None => bool_decide (filter = token)
      | Some comma =>
          if bool_decide (take comma filter = token) then true
          else token_loop fuel (drop (S comma) filter) token
      end
  end.

(** [rse_atu.h: token_matches] *)
Definition token_matches (filter token : list ascii) : bool :=
  token_loop (S (length filter)) filter token.

(** [rse_atu.h: trace_category_matches] *)
Definition trace_category_matches (category : list ascii) (cmd : tlm_command) : bool :=
  let filter := p_trace_filter cfg in
  if bool_decide (filter = []) || bool_decide (filter = list_ascii_of_string "all") then true
  else if token_matches filter category then true
  else match cmd with
       | TLM_READ_COMMAND => token_matches filter (list_ascii_of_string "read")
       | TLM_WRITE_COMMAND => token_matches filter (list_ascii_of_string "write")
       | TLM_IGNORE_COMMAND => false
       end.

(** [rse_atu.h: trace_range_matches] *)
Definition trace_range_matches (start_ end_ : Z) : bool :=
  let min_address := p_trace_address_min cfg in
  let max_address := p_trace_address_max cfg in
  if (min_address =? 0) && (max_address =? 0) then true
  else if end_ <? min_address then false
  else if negb (max_address =? 0) && (max_address <? start_) then false
  else true.

(** [rse_atu.h: range_end] *)
Definition range_end (start_ len : Z) : Z :=
  if len =? 0 then start_
  else
    let span := len - 1 in
    if UINT64_MAX - span <? start_ then UINT64_MAX else start_ + span.

(** [rse_atu.h: trace_address_matches] *)
Definition trace_address_matches (address len : Z) : bool :=
  trace_range_matches address (range_end address len).

(** [rse_atu.h: trace_translation_address_matches] *)
Definition trace_translation_address_matches (logical len : Z) (info : translation_info)
    (translated : bool) : bool :=
  if trace_address_matches logical len then true
  else translated && trace_address_matches (physical info) len.

(** [rse_atu.h: trace_access] *)
Definition trace_access (t : tlm_payload) (s : rse_atu) : rse_atu :=
  if negb (p_trace cfg) || (p_trace_limit cfg <=? m_trace_count s) ||
     negb (trace_category_matches (list_ascii_of_string "register") (command t)) ||
     negb (trace_address_matches (address t) (data_length t))
  then s else s <| m_trace_count ::= fun n => u32 (n + 1) |>.

(** [rse_atu.h: trace_translation] *)
Definition trace_translation (t : tlm_payload) (logical : Z) (info : translation_info) (len : Z)
    (ok : bool) (s : rse_atu) : rse_atu :=
  if negb (p_trace cfg) || (p_trace_limit cfg <=? m_trace_count s) ||
     negb (trace_category_matches (list_ascii_of_string "translation") (command t)) ||
     negb (trace_translation_address_matches logical len info ok)
  then s else s <| m_trace_count ::= fun n => u32 (n + 1) |>.

(** [rse_atu.h: trace_dmi] *)
Definition trace_dmi (t : tlm_payload) (logical : Z) (info : translation_info) (len : Z)
    (translated : bool) (s : rse_atu) : rse_atu :=
  if negb (p_trace cfg) || (p_trace_limit cfg <=? m_trace_count s) ||
     negb (trace_category_matches (list_ascii_of_string "dmi") (command t)) ||
     negb (trace_translation_address_matches logical len info translated)
  then s else s <| m_trace_count ::= fun n => u32 (n + 1) |>.

(** [rse_atu.h: access] *)
Definition access : bool -> rse_atu -> tlm_payload -> rse_atu * tlm_payload * bool :=
  regfile_access REG_BYTES m_regs (fun f s => s <| m_regs ::= f |>) write32 trace_access.

(** * Translation *)

(** [rse_atu.h: latch_translation_fault] *)
Definition latch_translation_fault (logical : Z) (s : rse_atu) : rse_atu :=
  s <| m_regs ::= fun m =>
    store32 ATUMA (u32 logical)
      (store32 ATUIS (Z.lor (load32 m ATUIS) ATUIS_MISMATCH_ERROR) m) |>.

(** [rse_atu.h: offset_is_negative] *)
Definition offset_is_negative (offset : Z) : bool := test offset (bit 63).

(** [rse_atu.h: negative_offset_delta] *)
Definition negative_offset_delta (offset : Z) : Z := u64 (not64 offset + 1).

(** [rse_atu.h: apply_region_offset] *)
Definition apply_region_offset (logical offset : Z) : option Z :=
  if offset_is_negative offset then
    let delta := negative_offset_delta offset in
    if logical <? delta then None else Some (logical - delta)
  else if UINT64_MAX - offset <? logical then None
  else Some (logical + offset).

(** What [translate_range] does once a region has been selected. *)
(** [rse_atu.h: "const uint64_t shifted_offset = region_offset_pages(region);" .. "info.fault = translation_fault::none;"] *)
Definition translate_in_region (m : mem) (logical region start_ end_ : Z) (info : translation_info)
    : bool * translation_info :=
  let ps := page_shift m in
  let shifted_offset := region_offset_pages m region in
  let info := MkInfo region start_ (end_ - 1) shifted_offset (offset info) (physical info) (fault info) in
  if Z.shiftr UINT64_MAX ps <? shifted_offset then (false, info <| fault := overflow |>)
  else
    let info := info <| offset := shl 64 shifted_offset ps |> in
    match apply_region_offset logical (offset info) with
    | None => (false, info <| fault := overflow |>)
    | Some physical_address =>
        let info := info <| physical := physical_address |> in
        if negb (region_security_allowed m region) then (false, info <| fault := permission |>)
        else (true, info <| fault := none |>)
    end.

(** The loop over the regions. *)
(** [rse_atu.h: "for (uint32_t region = 0; region < supported_region_count(); ++region)" .. "info.fault = pending_fault;"] *)
Fixpoint translate_loop (fuel : nat) (m : mem) (logical access_len region : Z)
    (pending_fault : translation_fault) (info : translation_info) : bool * translation_info :=
  match fuel with
  | O => (false, info <| fault := pending_fault |>)
  | S fuel =>
      if negb (region <? supported_region_count m) then (false, info <| fault := pending_fault |>)
      else if negb (region_configured m region) then
        translate_loop fuel m logical access_len (region + 1) pending_fault info
      else
        let ps := page_shift m in
        let start_ := shl 64 (region_start_page m region) ps in
        let end_ := shl 64 (region_end_page m region + 1) ps in
        if (end_ <=? start_) || (logical <? start_) || (end_ <=? logical) then
          translate_loop fuel m logical access_len (region + 1) pending_fault info
        else if end_ - logical <? access_len then
          translate_loop fuel m logical access_len (region + 1) out_of_range info
        else if negb (test (load32 m ATUC) (shl 32 1 region)) then
          translate_loop fuel m logical access_len (region + 1)
            (match pending_fault with unmapped => disabled | f => f end) info
        else translate_in_region m logical region start_ end_ info
  end.

(** [rse_atu.h: translate_range] *)
Definition translate_range (logical len : Z) (info : translation_info) (latch_fault : bool)
    (s : rse_atu) : bool * translation_info * rse_atu :=
  let access_len := if len =? 0 then 1 else len in
  let '(ok, info) :=
    translate_loop (Z.to_nat REGION_COUNT) (m_regs s) logical access_len 0 unmapped info in
  (ok, info, if negb ok && latch_fault then latch_translation_fault logical s else s).

(** [rse_atu.h: translate_address] *)
Definition translate_address (logical len : Z) (s : rse_atu) : option Z * rse_atu :=
  let '(ok, info, s) := translate_range logical len empty_info true s in
  (if ok then Some (physical info) else None, s).

(** The downstream target behind [initiator_socket], which sees the physical
    address; the caller's payload gets its logical address back. *)
Section downstream.
Context {B : Type} {bus : TlmTarget B}.

(** [rse_atu.h: forward_translation] *)
Definition forward_translation (debug : bool) (sb : rse_atu * B) (t : tlm_payload)
    : (rse_atu * B) * tlm_payload * bool :=
  let '(s, b) := sb in
  if negb (initiator_bound cfg) then
    ((s, b), t <| response_status := TLM_ADDRESS_ERROR_RESPONSE |>, false)
  else
    let logical := address t in
    let len := data_length t in
    let '(translated, info, s) :=
      match data_ptr t with
      | None => (false, empty_info, s)
      | Some _ =>
          if len =? 0 then (false, empty_info, s) else translate_range logical len empty_info true s
      end in
    if negb translated then
      let t := t <| response_status := TLM_ADDRESS_ERROR_RESPONSE |> in
      ((trace_translation t logical info len false s, b), t, false)
    else
      let t := t <| address := physical info |> in
      let '(b, t) :=
        if debug then let '(b, t, _) := target_transport_dbg tlm_access b t in (b, t)
        else target_b_transport tlm_access b t in
      let t := t <| address := logical |> in
      ((trace_translation t logical info len (is_response_ok t) s, b), t, is_response_ok t).

(** [rse_atu.h: translation_b_transport] *)
Definition translation_b_transport (sb : rse_atu * B) (t : tlm_payload)
    : (rse_atu * B) * tlm_payload :=
  let '(sb, t, _) := forward_translation false sb (t <| dmi_allowed := false |>) in (sb, t).

(** [rse_atu.h: translation_transport_dbg] *)
Definition translation_transport_dbg (sb : rse_atu * B) (t : tlm_payload)
    : (rse_atu * B) * tlm_payload * Z :=
  let '(sb, t, ok) := forward_translation true sb t in (sb, t, if ok then data_length t else 0).
End downstream.

(** * Direct memory access *)

(** The window of a grant: the downstream range pulled back through the offset,
    cut to the region and checked against the request. *)
(** [rse_atu.h: "const uint64_t downstream_start = dmi_data.get_start_address();" .. "dmi_data.set_end_address(upstream_end);"] *)
Definition narrow_dmi (logical len : Z) (info : translation_info) (dmi : tlm_dmi) : option tlm_dmi :=
  let downstream_start := start_address dmi in
  let downstream_end := end_address dmi in
  let negative_offset := offset_is_negative (offset info) in
  let range :=
    if negative_offset then
      let delta := negative_offset_delta (offset info) in
      if UINT64_MAX - delta <? downstream_start then None
      else Some (downstream_start + delta,
                 if UINT64_MAX - delta <? downstream_end then UINT64_MAX else downstream_end + delta)
    else
      if downstream_end <? offset info then None
      else Some (if downstream_start <? offset info then 0 else downstream_start - offset info,
                 downstream_end - offset info) in
  match range with
  | None => None
  | Some (logical_start_, logical_end_) =>
      if logical_end_ <? logical_start_ then None
      else
        let upstream_start := Z.max logical_start_ (logical_start info) in
        let upstream_end := Z.min logical_end_ (logical_end info) in
        let request_end := range_end logical len in
        if (upstream_end <? upstream_start) || (logical <? upstream_start) ||
           (upstream_end <? request_end) then None
        else if negb negative_offset && (UINT64_MAX - offset info <? upstream_start) then None
        else
          match apply_region_offset upstream_start (offset info) with
          | None => None
          | Some physical_start =>
              if physical_start <? downstream_start then None
              else Some (MkDmi (dmi_ptr dmi + (physical_start - downstream_start))
                           upstream_start upstream_end)
          end
  end.

(** [grant] is what the downstream target answers to [get_direct_mem_ptr]. *)
(** [rse_atu.h: translation_get_direct_mem_ptr] *)
Definition translation_get_direct_mem_ptr (grant : tlm_payload -> option tlm_dmi) (t : tlm_payload)
    (s : rse_atu) : option tlm_dmi * rse_atu :=
  let logical := address t in
  let len := data_length t in
  if negb (initiator_bound cfg) then (None, trace_dmi t logical empty_info len false s)
  else if negb (p_enable_dmi cfg) then (None, trace_dmi t logical empty_info len false s)
  else
    let '(ok, info, s) := translate_range logical len empty_info false s in
    if negb ok then (None, trace_dmi t logical info len false s)
    else
      match grant (t <| address := physical info |>) with
      | None => (None, trace_dmi t logical info len true s)
      | Some dmi => (narrow_dmi logical len info dmi, trace_dmi t logical info len true s)
      end.
End rse_atu.

(** * Specification *)

(** The first address of a region and the address after its last one. *)
Definition region_first (m : mem) (r : Z) : Z := region_start_page m r * 2 ^ page_shift m.
Definition region_last (m : mem) (r : Z) : Z := (region_end_page m r + 1) * 2 ^ page_shift m.

(** The region holds the first byte of the access; it holds all of them; it is
    switched on in ATUC. *)
Definition contains (m : mem) (logical r : Z) : bool :=
  region_configured m r && (region_first m r <=? logical) && (logical <? region_last m r).
Definition covers (m : mem) (logical len r : Z) : bool :=
  contains m logical r && (logical + len <=? region_last m r).
Definition enabled (m : mem) (r : Z) : bool := Z.testbit (load32 m ATUC) r.

(** The displacement of a region: its page count scaled to bytes, read as a
    signed 64-bit number. *)
Definition displacement (m : mem) (r : Z) : Z :=
  let o := region_offset_pages m r * 2 ^ page_shift m in
  if o <? 2 ^ 63 then o else o - 2 ^ 64.

Inductive translation :=
| Translated (region physical : Z)
| Fault (f : translation_fault).

(** The unit sends an access to the first enabled region that covers all of it;
    a region that only covers its beginning is reported in preference to a
    disabled one. *)
Definition spec_translate (cfg : atu_config) (m : mem) (logical len : Z) : translation :=
  let regions := range (supported_region_count m) in
  match List.find (fun r => covers m logical len r && enabled m r) regions with
  | Some r =>
      if 2 ^ 64 <=? region_offset_pages m r * 2 ^ page_shift m then Fault overflow
      else if (logical + displacement m r <? 0) then Fault overflow
      else if region_security_allowed cfg m r then Translated r (logical + displacement m r)
      else Fault permission
  | None =>
      if existsb (fun r => contains m logical r && negb (covers m logical len r)) regions
      then Fault out_of_range
      else if existsb (covers m logical len) regions then Fault disabled
      else Fault unmapped
  end.

(** * Arithmetic of regions *)

Lemma page_shift_eq m : page_shift m = (load32 m ATUBC / 16) mod 16.
Proof.
  unfold page_shift, ATUBC_PS_MASK, ATUBC_PS_OFF. change 0xf with (Z.ones 4).
  rewrite field_read by lia. change (2 ^ 4) with 16. apply wrap_small.
  pose proof (Z.mod_pos_bound (load32 m ATUBC / 16) 16 ltac:(lia)). split; lia.
Qed.

Lemma page_shift_range m : 0 <= page_shift m < 16.
Proof. rewrite page_shift_eq. apply Z.mod_pos_bound. lia. Qed.

Lemma page_size_range m : 1 <= 2 ^ page_shift m <= 2 ^ 15.
Proof.
  pose proof (page_shift_range m). split.
  - pose proof (Z.pow_pos_nonneg 2 (page_shift m) ltac:(lia) ltac:(lia)). lia.
  - apply Z.pow_le_mono_r; lia.
Qed.

Lemma region_count_range m : 1 <= supported_region_count m <= 32.
Proof.
  unfold supported_region_count, ATUBC_RC_MASK, ATUBC_RC_OFF, REGION_COUNT. change 0x7 with (Z.ones 3).
  rewrite field_read by lia. set (rc := _ mod 2 ^ 3).
  assert (0 <= rc < 8) by (apply Z.mod_pos_bound; lia).
  rewrite shl_bit by lia. unfold bit. rewrite Z.shiftl_1_l.
  pose proof (Z.pow_pos_nonneg 2 rc ltac:(lia) ltac:(lia)). lia.
Qed.

Section regions.
Context (cfg : atu_config) (m : mem).
Hypothesis Hm : mem_ok REG_BYTES m.

Lemma region_pages_u32 r : is_u32 (region_start_page m r) /\ is_u32 (region_end_page m r).
Proof. split; by eapply load32_u32. Qed.

Lemma offset_pages_u64 r : is_u64 (region_offset_pages m r).
Proof.
  apply lor_uint; [lia|apply wrap_range; lia|].
  apply (is_uint_mono 32); [lia|by eapply load32_u32].
Qed.

Lemma region_first_shl r : shl 64 (region_start_page m r) (page_shift m) = region_first m r.
Proof.
  destruct (region_pages_u32 r) as [Hs _]. pose proof (page_size_range m). pose proof (page_shift_range m).
  unfold is_uint in Hs. apply shl_mul; nia.
Qed.

Lemma region_last_shl r : shl 64 (region_end_page m r + 1) (page_shift m) = region_last m r.
Proof.
  destruct (region_pages_u32 r) as [_ He]. pose proof (page_size_range m). pose proof (page_shift_range m).
  unfold is_uint in He. apply shl_mul; nia.
Qed.

Lemma region_last_bound r : region_last m r <= 2 ^ 47.
Proof.
  destruct (region_pages_u32 r) as [_ He]. pose proof (page_size_range m).
  unfold region_last, is_uint in *. nia.
Qed.

Lemma max_shiftr ps x : 0 <= ps < 16 -> 0 <= x ->
  (Z.shiftr UINT64_MAX ps <? x) = (2 ^ 64 <=? x * 2 ^ ps).
Proof.
  intros Hps Hx. rewrite Z.shiftr_div_pow2 by lia. unfold UINT64_MAX.
  assert (2 ^ 64 = 2 ^ (64 - ps) * 2 ^ ps) as E.
  { rewrite <-Z.pow_add_r by lia. f_equal. lia. }
  pose proof (Z.pow_pos_nonneg 2 ps ltac:(lia) ltac:(lia)).
  pose proof (Z.pow_pos_nonneg 2 (64 - ps) ltac:(lia) ltac:(lia)).
  assert ((2 ^ 64 - 1) / 2 ^ ps = 2 ^ (64 - ps) - 1) as ->.
  { symmetry. apply (Z.div_unique _ _ _ (2 ^ ps - 1)); [lia|]. rewrite E. nia. }
  rewrite E. apply eq_true_iff_eq. rewrite Z.ltb_lt, Z.leb_le. nia.
Qed.
End regions.

(** The offset arithmetic is the addition of a signed displacement. *)
Lemma negative_iff o : is_u64 o -> offset_is_negative o = (2 ^ 63 <=? o).
Proof.
  intros [H0 H1]. unfold offset_is_negative. rewrite test_bit by lia.
  rewrite Z.testbit_eqb by lia.
  destruct (Z.leb_spec (2 ^ 63) o).
  - assert (o / 2 ^ 63 = 1) as -> by (symmetry; apply Z.div_unique with (o - 2 ^ 63); lia). done.
  - by rewrite Z.div_small by lia.
Qed.

Lemma negative_delta o : is_u64 o -> 0 < o -> negative_offset_delta o = 2 ^ 64 - o.
Proof.
  intros [H0 H1] Hpos. unfold negative_offset_delta, cnot.
  assert (Z.ldiff (Z.ones 64) o = 2 ^ 64 - 1 - o) as ->.
  { rewrite <-Z.sub_nocarry_ldiff.
    - by rewrite Z.ones_equiv.
    - apply Z.bits_inj'. intros i Hi. rewrite Z.ldiff_spec, Z.bits_0.
      destruct (Z.lt_ge_cases i 64); [by rewrite Z.ones_spec_low, andb_false_r by lia|].
      by rewrite (uint_testbit_high 64 o i) by (done || lia). }
  replace (2 ^ 64 - 1 - o + 1) with (2 ^ 64 - o) by lia. apply wrap_small. split; lia.
Qed.

Definition signed64 (o : Z) : Z := if o <? 2 ^ 63 then o else o - 2 ^ 64.

Lemma apply_region_offset_spec logical o : is_u64 o -> 0 <= logical < 2 ^ 63 ->
  apply_region_offset logical o =
  if logical + signed64 o <? 0 then None else Some (logical + signed64 o).
Proof.
  intros Ho Hl. unfold apply_region_offset, signed64, UINT64_MAX. rewrite negative_iff by done.
  destruct Ho as [H0 H1]. destruct (Z.leb_spec (2 ^ 63) o).
  - rewrite negative_delta by (done || lia). replace (o <? 2 ^ 63) with false by lia.
    replace (logical <? 2 ^ 64 - o) with (logical + (o - 2 ^ 64) <? 0) by lia.
    case_if; [done|f_equal; lia].
  - replace (o <? 2 ^ 63) with true by lia. replace (logical + o <? 0) with false by lia.
    by replace (2 ^ 64 - 1 - o <? logical) with false by lia.
Qed.

(** * The loop implements the specification *)

Lemma select_guard m logical r : (region_last m r <=? region_first m r) ||
  (logical <? region_first m r) || (region_last m r <=? logical) =
  negb ((region_first m r <=? logical) && (logical <? region_last m r)).
Proof. lia. Qed.

Lemma translate_in_region_spec cfg m logical r info :
  mem_ok REG_BYTES m -> 0 <= logical < 2 ^ 63 ->
  let '(ok, info') := translate_in_region cfg m logical r (region_first m r) (region_last m r) info in
  region info' = r /\ logical_start info' = region_first m r /\
  logical_end info' = region_last m r - 1 /\
  if 2 ^ 64 <=? region_offset_pages m r * 2 ^ page_shift m then ok = false /\ fault info' = overflow
  else if logical + displacement m r <? 0 then ok = false /\ fault info' = overflow
  else if region_security_allowed cfg m r then
    ok = true /\ fault info' = none /\ physical info' = logical + displacement m r /\
    offset info' = region_offset_pages m r * 2 ^ page_shift m
  else ok = false /\ fault info' = permission.
Proof.
  intros Hm Hl. unfold translate_in_region.
  pose proof (offset_pages_u64 m Hm r) as Ho. pose proof (page_shift_range m) as Hps.
  rewrite max_shiftr by (try lia; apply Ho).
  destruct (Z.leb_spec (2 ^ 64) (region_offset_pages m r * 2 ^ page_shift m)) as [|Hlt]; [done|].
  pose proof (page_size_range m). cbn [offset set_field].
  rewrite shl_mul by (try lia; apply Ho).
  assert (is_u64 (region_offset_pages m r * 2 ^ page_shift m)) by (destruct Ho; split; nia).
  rewrite apply_region_offset_spec by (done || lia). unfold displacement. fold (signed64 (region_offset_pages m r * 2 ^ page_shift m)).
  destruct (_ <? 0); [done|]. by destruct (region_security_allowed cfg m r).
Qed.

(** What a region contributes to the fault when no region is selected. *)
Definition pending_after (m : mem) (logical len : Z) (p : translation_fault) (rs : list Z) : translation_fault :=
  if existsb (fun r => contains m logical r && negb (covers m logical len r)) rs then out_of_range
  else match p with
       | unmapped => if existsb (covers m logical len) rs then disabled else unmapped
       | p => p
       end.

Lemma translate_loop_spec cfg m logical len fuel r0 p info :
  mem_ok REG_BYTES m -> 1 <= len -> 0 <= r0 ->
  supported_region_count m <= r0 + Z.of_nat fuel ->
  p = unmapped \/ p = disabled \/ p = out_of_range ->
  translate_loop cfg fuel m logical len r0 p info =
  let rs := seqZ r0 (supported_region_count m - r0) in
  match List.find (fun r => covers m logical len r && enabled m r) rs with
  | Some r => translate_in_region cfg m logical r (region_first m r) (region_last m r) info
  | None => (false, info <| fault := pending_after m logical len p rs |>)
  end.
Proof.
  intros Hm Hlen. revert r0 p. induction fuel as [|fuel IH]; intros r0 p Hr0 Hfuel Hp.
  { rewrite seqZ_nil by lia. cbn. by destruct p. }
  cbn [translate_loop]. destruct (Z.ltb_spec r0 (supported_region_count m)) as [Hlt|Hge].
  2:{ rewrite seqZ_nil by lia. cbn. by destruct p. }
  cbn [negb]. rewrite seqZ_cons by lia. replace (Z.pred _) with (supported_region_count m - (r0 + 1)) by lia.
  replace (Z.succ r0) with (r0 + 1) by lia. pose proof (region_count_range m).
  rewrite region_first_shl, region_last_shl, select_guard, shl_bit by (done || lia).
  rewrite test_bit by lia. fold (enabled m r0). cbv zeta. cbn [List.find].
  assert (contains m logical r0 = region_configured m r0 &&
    ((region_first m r0 <=? logical) && (logical <? region_last m r0))) as Ec
    by (unfold contains; by rewrite andb_assoc).
  assert (covers m logical len r0 = contains m logical r0 && (logical + len <=? region_last m r0))
    as Ecov by done.
  destruct (region_configured m r0); cbn [negb andb] in *.
  2:{ rewrite Ec in Ecov. cbn [andb] in Ecov. rewrite Ecov. cbn [andb].
      rewrite IH by (done || lia). unfold pending_after. cbn [existsb]. by rewrite Ec, Ecov. }
  rewrite <-Ec. destruct (contains m logical r0) eqn:Econ; cbn [negb andb] in *.
  2:{ rewrite Ecov. cbn [andb].
      rewrite IH by (done || lia). unfold pending_after. cbn [existsb]. by rewrite Econ, Ecov. }
  replace (region_last m r0 - logical <? len) with (negb (logical + len <=? region_last m r0)) by lia.
  rewrite <-Ecov. destruct (covers m logical len r0) eqn:Ecv; cbn [negb andb].
  - destruct (enabled m r0); cbn [negb]; [done|].
    rewrite IH by (first [done|lia|destruct Hp as [->|[->| ->]]; auto]). unfold pending_after. cbn [existsb].
    rewrite Ecv, Econ. cbn [andb negb orb]. destruct (List.find _ _); [done|].
    by destruct p.
  - rewrite IH by (try lia; auto). unfold pending_after. cbn [existsb].
    rewrite Ecv, Econ. cbn [andb negb orb]. by destruct (List.find _ _); [|case_if].
Qed.

Lemma covers_logical m logical len r : covers m logical len r = true ->
  region_first m r <= logical /\ logical + len <= region_last m r.
Proof. unfold covers, contains. lia. Qed.

(** * Theorems: translation *)

Lemma translate_range_spec cfg s logical len latch :
  mem_ok REG_BYTES (m_regs s) -> is_u64 logical -> is_u32 len ->
  let '(ok, info, s') := translate_range cfg logical len empty_info latch s in
  match spec_translate cfg (m_regs s) logical (Z.max 1 len) with
  | Translated r p =>
      ok = true /\ fault info = none /\ region info = r /\ physical info = p /\
      logical_start info = region_first (m_regs s) r /\
      logical_end info = region_last (m_regs s) r - 1 /\
      offset info = region_offset_pages (m_regs s) r * 2 ^ page_shift (m_regs s) /\ s' = s
  | Fault f =>
      ok = false /\ fault info = f /\
      s' = if latch then latch_translation_fault logical s else s
  end.
Proof.
  intros Hm Hl Hlen. unfold translate_range, spec_translate.
  assert ((if len =? 0 then 1 else len) = Z.max 1 len) as -> by (destruct Hlen; case_if; lia).
  pose proof (region_count_range (m_regs s)).
  rewrite translate_loop_spec by (first [done|lia|by left|change (Z.of_nat (Z.to_nat REGION_COUNT)) with 32; lia]).
  rewrite Z.sub_0_r. change (seqZ 0) with range. cbv zeta.
  destruct (List.find _ _) as [r|] eqn:Ef.
  - apply find_range_some in Ef as (Hr & Hc & _). apply andb_true_iff in Hc as [Hc _].
    destruct (covers_logical _ _ _ _ Hc) as [_ Hup].
    pose proof (region_last_bound (m_regs s) Hm r).
    pose proof (translate_in_region_spec cfg (m_regs s) logical r empty_info Hm) as Hin.
    destruct (translate_in_region _ _ _ _ _ _ _) as [ok info].
    destruct Hin as (H1 & H2 & H3 & H4); [destruct Hl; lia|].
    destruct (2 ^ 64 <=? _); [destruct H4 as [-> ->]; by destruct latch|].
    destruct (_ <? 0); [destruct H4 as [-> ->]; by destruct latch|].
    destruct (region_security_allowed _ _ _); [|destruct H4 as [-> ->]; by destruct latch].
    destruct H4 as (-> & Hf & Hp & Ho). cbn [negb andb]. done.
  - unfold pending_after. cbn [negb andb].
    destruct (existsb (fun r => contains _ _ _ && _) _); [by destruct latch|].
    destruct (existsb _ _); by destruct latch.
Qed.

(** C4. The translation loop refines the specification: for every register
    state, address and length, it reports success exactly when the first enabled
    region that covers the whole access allows it, with that region, its window
    and the displaced address, and otherwise the fault the specification names;
    it changes the state only to latch a fault, and only when asked to. *)
Theorem atu_translate_refines cfg s logical len latch :
  mem_ok REG_BYTES (m_regs s) -> is_u64 logical -> is_u32 len ->
  let '(ok, info, s') := translate_range cfg logical len empty_info latch s in
  match spec_translate cfg (m_regs s) logical (Z.max 1 len) with
  | Translated r p =>
      ok = true /\ fault info = none /\ region info = r /\ physical info = p /\
      logical_start info = region_first (m_regs s) r /\
      logical_end info = region_last (m_regs s) r - 1 /\ s' = s
  | Fault f =>
      ok = false /\ fault info = f /\
      s' = if latch then latch_translation_fault logical s else s
  end.
Proof.
  intros Hm Hl Hlen. pose proof (translate_range_spec cfg s logical len latch Hm Hl Hlen) as H.
  destruct (translate_range _ _ _ _ _ _) as [[ok info] s'].
  destruct (spec_translate _ _ _ _); naive_solver.
Qed.

Lemma spec_translated cfg m logical len r p :
  spec_translate cfg m logical len = Translated r p ->
  0 <= r < supported_region_count m /\ covers m logical len r = true /\ enabled m r = true /\
  (forall r', 0 <= r' < r -> covers m logical len r' && enabled m r' = false) /\
  region_offset_pages m r * 2 ^ page_shift m < 2 ^ 64 /\
  p = logical + displacement m r /\ 0 <= p /\ region_security_allowed cfg m r = true.
Proof.
  unfold spec_translate. destruct (List.find _ _) as [r0|] eqn:Ef.
  - apply find_range_some in Ef as (Hr & Hc & Hall). apply andb_true_iff in Hc as [Hc He].
    destruct (Z.leb_spec (2 ^ 64) (region_offset_pages m r0 * 2 ^ page_shift m)); [done|].
    destruct (Z.ltb_spec (logical + displacement m r0) 0); [done|].
    destruct (region_security_allowed _ _ _) eqn:Es; [|done]. intros [= -> <-]. done.
  - repeat case_if; done.
Qed.

Lemma displacement_signed m r : region_offset_pages m r * 2 ^ page_shift m < 2 ^ 64 ->
  displacement m r = signed64 (region_offset_pages m r * 2 ^ page_shift m).
Proof. done. Qed.

(** Displacing by the signed offset is addition modulo [2 ^ 64], and its sign is
    the one the code tests. *)
Lemma signed64_wrap logical o : is_u64 o -> 0 <= logical + signed64 o < 2 ^ 64 ->
  u64 (logical + o) = logical + signed64 o /\
  if offset_is_negative o then logical + signed64 o < logical else logical <= logical + signed64 o.
Proof.
  intros Ho. rewrite negative_iff by done. destruct Ho as [Ho0 Ho1]. unfold signed64.
  destruct (Z.ltb_spec o (2 ^ 63)); intros Hs.
  - rewrite wrap_small by (split; lia). replace (2 ^ 63 <=? o) with false by lia. lia.
  - replace (2 ^ 63 <=? o) with true by lia. split; [|lia].
    unfold wrap. replace (logical + o) with (logical + (o - 2 ^ 64) + 1 * 2 ^ 64) by lia.
    by rewrite Z.mod_add, Z.mod_small by lia.
Qed.

(** C26. A successful translation moves the whole access without wrapping.  When
    [translate_range] reports success it has changed nothing, the region it names
    is one the unit has and ATUC enables, the window it reports is the one the
    registers of that region give, every byte of the access lies in that window
    and stays in the 64-bit address space once displaced, and the physical address
    is the logical one plus the offset register, which moves it down exactly when
    the offset is negative. *)
Theorem atu_translation_in_bounds cfg s logical len latch info s' :
  mem_ok REG_BYTES (m_regs s) -> is_u64 logical -> is_u32 len ->
  translate_range cfg logical len empty_info latch s = (true, info, s') ->
  s' = s /\ fault info = none /\
  0 <= region info < supported_region_count (m_regs s) /\
  Z.testbit (load32 (m_regs s) ATUC) (region info) = true /\
  logical_start info = region_start_page (m_regs s) (region info) * 2 ^ page_shift (m_regs s) /\
  logical_end info = (region_end_page (m_regs s) (region info) + 1) * 2 ^ page_shift (m_regs s) - 1 /\
  (forall k, 0 <= k < Z.max 1 len ->
     logical_start info <= logical + k <= logical_end info /\ 0 <= physical info + k < 2 ^ 64) /\
  physical info = u64 (logical + offset info) /\
  (if offset_is_negative (offset info) then physical info < logical else logical <= physical info).
Proof.
  intros Hm Hl Hlen E. pose proof (translate_range_spec cfg s logical len latch Hm Hl Hlen) as H. rewrite E in H.
  destruct (spec_translate _ _ _ _) as [r p|f] eqn:Es; [|by destruct H as (? & _)].
  destruct H as (_ & Hf & -> & -> & Hls & Hle & Ho & ->).
  apply spec_translated in Es as (Hr & Hc & He & _ & Hpg & -> & Hp & _).
  destruct (covers_logical _ _ _ _ Hc) as [Hlo Hup]. pose proof (region_last_bound (m_regs s) Hm r) as Hb.
  assert (displacement (m_regs s) r < 2 ^ 63) by (unfold displacement; case_if; lia). pose proof Hl as [Hl0 _].
  assert (is_u64 (offset info)) as Hu.
  { rewrite Ho. pose proof (offset_pages_u64 (m_regs s) Hm r) as [H0 _]. pose proof (page_size_range (m_regs s)). split; nia. }
  rewrite displacement_signed, <-Ho in * by done.
  destruct (signed64_wrap logical (offset info) Hu ltac:(lia)) as [-> Hs].
  split_and!; try done; try lia.
Qed.

(** The displaced window of a downstream grant. *)
Lemma narrow_dmi_sound logical len info dmi d o :
  offset info = o -> is_u64 o -> 0 <= logical -> is_u32 len ->
  0 <= logical_start info <= logical -> logical_end info < 2 ^ 47 ->
  logical + Z.max 1 len <= logical_end info + 1 ->
  0 <= start_address dmi <= end_address dmi -> end_address dmi < 2 ^ 64 ->
  narrow_dmi logical len info dmi = Some d ->
  logical_start info <= start_address d /\ end_address d <= logical_end info /\
  start_address d <= logical /\ logical + Z.max 1 len - 1 <= end_address d /\
  forall a, start_address d <= a <= end_address d ->
    start_address dmi <= a + signed64 o <= end_address dmi /\
    dmi_ptr d + (a - start_address d) = dmi_ptr dmi + (a + signed64 o - start_address dmi).
Proof.
  intros Ho Hu Hl Hlen Hls Hle Hend Hd0 Hd1. unfold narrow_dmi, range_end, UINT64_MAX.
  rewrite Ho, negative_iff by done. pose proof Hu as [Hu0 Hu1]. destruct Hlen as [Hlen0 Hlen1].
  destruct (Z.leb_spec (2 ^ 63) o).
  - rewrite negative_delta by (done || lia).
    destruct (Z.ltb_spec (2 ^ 64 - 1 - (2 ^ 64 - o)) (start_address dmi)); [done|]. cbn [negb andb].
    destruct (_ <? _) eqn:E1; [done|]. destruct (_ || _) eqn:E2; [done|].
    rewrite apply_region_offset_spec by (done || lia).
    assert (signed64 o = o - 2 ^ 64) as -> by (unfold signed64; case_if; lia).
    destruct (_ <? 0) eqn:E3; [done|]. destruct (_ <? start_address dmi) eqn:E4; [done|].
    intros [= <-]. cbn [dmi_ptr start_address end_address].
    repeat case_if; do 4 (split; [lia|]); intros a Ha; lia.
  - destruct (Z.ltb_spec (end_address dmi) o); [done|]. cbn [negb andb].
    assert (signed64 o = o) as Hs by (unfold signed64; case_if; lia).
    set (ls := if start_address dmi <? o then 0 else start_address dmi - o).
    assert (start_address dmi - o <= ls /\ 0 <= ls) as Hls0 by (unfold ls; case_if; lia).
    clearbody ls. destruct (Z.ltb_spec (end_address dmi - o) ls); [done|].
    destruct (_ || _) eqn:E2; [done|]. destruct (Z.ltb_spec (2 ^ 64 - 1 - o) (Z.max ls (logical_start info))); [done|].
    rewrite apply_region_offset_spec, Hs by (done || lia).
    destruct (Z.ltb_spec (Z.max ls (logical_start info) + o) 0); [done|].
    destruct (_ <? start_address dmi) eqn:E4; [done|].
    intros [= <-]. cbn [dmi_ptr start_address end_address].
    repeat case_if; do 4 (split; [lia|]); intros a Ha; lia.
Qed.

(** * The register file *)

Definition atu_inv (s : rse_atu) : Prop := mem_ok REG_BYTES (m_regs s).

Section registers.
Context (cfg : atu_config).

Lemma invalidate_regs s : m_regs (invalidate_translation_dmi cfg s) = m_regs s.
Proof. unfold invalidate_translation_dmi. by case_if. Qed.

Lemma atu_write32_inv offset v s :
  0 <= offset -> offset mod 4 = 0 -> offset + 4 <= REG_BYTES -> is_u32 v ->
  atu_inv s -> atu_inv (write32 cfg offset v s).
Proof.
  intros H0 _ H1 Hv Hs. unfold atu_inv, write32 in *. unfold REG_BYTES in *.
  repeat case_if; cbn; rewrite ?invalidate_regs; unfold ATUIS, ATUIC; cbn; eauto 10 with regs.
Qed.

Lemma atu_trace_access_regs t s : m_regs (trace_access cfg t s) = m_regs s /\
  m_invalidations (trace_access cfg t s) = m_invalidations s.
Proof. unfold trace_access. by case_if. Qed.

Lemma trace_translation_regs t a i l ok s :
  m_regs (trace_translation cfg t a i l ok s) = m_regs s.
Proof. unfold trace_translation. by case_if. Qed.

Lemma trace_dmi_regs t a i l ok s : m_regs (trace_dmi cfg t a i l ok s) = m_regs s.
Proof. unfold trace_dmi. by case_if. Qed.
End registers.

(** The register socket keeps the contract of a target. *)
#[refine] Definition atu_target (cfg : atu_config) : TlmTarget rse_atu :=
  regfile_target REG_BYTES m_regs (fun f s => s <| m_regs ::= f |>) (write32 cfg)
    (trace_access cfg) atu_inv _ _ _ _ _.
Proof.
  - by cbv.
  - done.
  - apply atu_write32_inv.
  - intros f s Hs Hf. by apply Hf.
  - intros t s Hs. unfold atu_inv. by destruct (atu_trace_access_regs cfg t s) as [-> _].
Defined.

(** * Theorems: direct memory access and forwarding *)

(** A byte of the selected region that no earlier enabled region holds goes
    where the region sends it. *)
Lemma spec_translate_byte cfg m r a :
  0 <= r < supported_region_count m -> contains m a r = true -> enabled m r = true ->
  region_offset_pages m r * 2 ^ page_shift m < 2 ^ 64 -> 0 <= a + displacement m r ->
  region_security_allowed cfg m r = true ->
  (forall r', 0 <= r' < r -> contains m a r' && enabled m r' = false) ->
  spec_translate cfg m a 1 = Translated r (a + displacement m r).
Proof.
  intros Hr Hc He Hpg Hp Hsec Hall. unfold spec_translate.
  assert (forall r', covers m a 1 r' = contains m a r') as Ecov.
  { intros r'. unfold covers, contains. lia. }
  assert (List.find (fun r => covers m a 1 r && enabled m r) (range (supported_region_count m)) = Some r) as ->.
  { apply find_range_some. split; [done|]. rewrite Ecov, Hc, He. split; [done|].
    intros r' Hr'. rewrite Ecov. by apply Hall. }
  replace (2 ^ 64 <=? _) with false by lia. replace (_ <? 0) with false by lia. by rewrite Hsec.
Qed.

(** The code translates that byte alone to the same address. *)
Lemma translate_byte cfg s r a latch :
  mem_ok REG_BYTES (m_regs s) -> is_u64 a ->
  0 <= r < supported_region_count (m_regs s) -> contains (m_regs s) a r = true -> enabled (m_regs s) r = true ->
  region_offset_pages (m_regs s) r * 2 ^ page_shift (m_regs s) < 2 ^ 64 -> 0 <= a + displacement (m_regs s) r ->
  region_security_allowed cfg (m_regs s) r = true ->
  let '(ok, info, s') := translate_range cfg a 1 empty_info latch s in
  ok = true /\ region info = r /\ physical info = a + displacement (m_regs s) r /\ s' = s \/
  exists r', 0 <= r' < r /\ contains (m_regs s) a r' = true /\ enabled (m_regs s) r' = true.
Proof.
  intros Hm Ha Hr Hc He Hpg Hp Hsec.
  pose proof (translate_range_spec cfg s a 1 latch Hm Ha ltac:(by split)) as H. change (Z.max 1 1) with 1 in H.
  destruct (translate_range _ _ _ _ _ _) as [[ok info] s'].
  destruct (existsb (fun r' => contains (m_regs s) a r' && enabled (m_regs s) r') (range r)) eqn:Ee.
  - right. apply existsb_exists in Ee as (r' & Hr'%list_elem_of_In%elem_of_range & [? ?]%andb_true_iff). by exists r'.
  - left. rewrite (spec_translate_byte cfg (m_regs s) r a) in H; try done.
    + by destruct H as (-> & _ & -> & -> & _ & _ & _ & ->).
    + intros r' Hr'. apply not_true_iff_false. intros Ht. apply not_true_iff_false in Ee. apply Ee, existsb_exists.
      exists r'. split; [by apply list_elem_of_In, elem_of_range|done].
Qed.

(** C20. A direct-memory grant of the unit is sound, up to shadowing.  When the
    downstream grants are well-formed ranges, a granted window lies inside the
    region the request translates through and holds the whole request; the
    downstream was asked at the translated address; every address of the window,
    displaced, lies in the downstream grant and the returned pointer reaches the
    same host byte.  That byte is the one a transaction at that address is sent to
    by [translate_range], unless an earlier enabled region holds the address too:
    the window is not cut where an earlier region overlaps it
    ([atu_dmi_shadows_region]). *)
Theorem atu_dmi_grant_sound cfg s t grant d s' :
  mem_ok REG_BYTES (m_regs s) -> is_u64 (address t) -> is_u32 (data_length t) ->
  (forall u w, grant u = Some w -> 0 <= start_address w <= end_address w /\ end_address w < 2 ^ 64) ->
  translation_get_direct_mem_ptr cfg grant t s = (Some d, s') ->
  m_regs s' = m_regs s /\
  exists r p w,
    spec_translate cfg (m_regs s) (address t) (Z.max 1 (data_length t)) = Translated r p /\
    grant (t <| address := p |>) = Some w /\
    region_first (m_regs s) r <= start_address d <= address t /\
    address t + Z.max 1 (data_length t) - 1 <= end_address d < region_last (m_regs s) r /\
    forall a, start_address d <= a <= end_address d ->
      start_address w <= a + displacement (m_regs s) r <= end_address w /\
      dmi_ptr d + (a - start_address d) = dmi_ptr w + (a + displacement (m_regs s) r - start_address w) /\
      forall latch, let '(ok, info, s'') := translate_range cfg a 1 empty_info latch s in
        ok = true /\ region info = r /\ physical info = a + displacement (m_regs s) r /\ s'' = s \/
        exists r', 0 <= r' < r /\ contains (m_regs s) a r' = true /\ enabled (m_regs s) r' = true.
Proof.
  intros Hm Ha Hlen Hgrant. unfold translation_get_direct_mem_ptr.
  destruct (negb (initiator_bound cfg)); [done|]. destruct (negb (p_enable_dmi cfg)); [done|].
  pose proof (translate_range_spec cfg s (address t) (data_length t) false Hm Ha Hlen) as Htr.
  destruct (translate_range _ _ _ _ _ _) as [[ok info] s1].
  destruct (spec_translate _ _ _ _) as [r p|f] eqn:Es; [|by destruct Htr as (-> & _)].
  destruct Htr as (-> & _ & _ & Hp & Hls & Hle & Ho & ->). rewrite Hp. cbn [negb].
  destruct (grant _) as [w|] eqn:Eg; [|done]. intros [= En <-].
  rewrite trace_dmi_regs. split; [done|]. exists r, p, w.
  apply spec_translated in Es as Hs. destruct Hs as (Hr & Hc & He & _ & Hpg & _ & _ & Hsec).
  destruct (covers_logical _ _ _ _ Hc) as [Hlo Hup].
  pose proof (region_last_bound (m_regs s) Hm r) as Hb.
  destruct (Hgrant _ _ Eg) as [Hw0 Hw1]. pose proof (offset_pages_u64 (m_regs s) Hm r) as [Hpg0 _].
  pose proof (page_size_range (m_regs s)).
  assert (0 <= region_first (m_regs s) r) as Hfirst.
  { pose proof (region_pages_u32 (m_regs s) Hm r) as [[? _] _]. unfold region_first. nia. }
  destruct (narrow_dmi_sound _ _ _ _ _ _ Ho ltac:(split; nia) ltac:(apply Ha) Hlen
    ltac:(lia) ltac:(lia) ltac:(lia) Hw0 Hw1 En) as (N1 & N2 & N3 & N4 & N5).
  split; [done|]. split; [done|]. split; [lia|]. split; [lia|]. intros a Hin.
  destruct (N5 a Hin) as [P1 P2]. rewrite <-displacement_signed in P1, P2 by done. split; [done|]. split; [done|].
  intros latch. apply translate_byte; try done; [split; lia| |lia].
  unfold covers, contains in *. lia.
Qed.

(** The registers a translation reads. *)
Definition mapping_register (offset : Z) : bool :=
  (offset =? ATUBC) || (offset =? ATUC) || is_region_array_offset offset.

Lemma region_array_offset base r : 0 <= r < 32 ->
  base = ATURSLA_BASE \/ base = ATURELA_BASE \/ base = ATURAV_L_BASE \/ base = ATURAV_M_BASE \/
  base = ATUROBA_BASE \/ base = ATURGPV_BASE ->
  mapping_register (base + r * REGION_STRIDE) = true /\
  0 <= base + r * REGION_STRIDE /\ (base + r * REGION_STRIDE) mod 4 = 0.
Proof.
  intros Hr Hb. assert (in_range (base + r * REGION_STRIDE) base = true) as Hin.
  { unfold in_range, REGION_COUNT, REGION_STRIDE.
    replace (base + r * 4 - base) with (r * 4) by lia. rewrite Z.mod_mul by lia. lia. }
  split.
  - unfold mapping_register, is_region_array_offset.
    destruct Hb as [->|[->|[->|[->|[->| ->]]]]]; rewrite Hin; btauto.
  - unfold REGION_STRIDE. split; [|rewrite Z.mod_add by lia];
      destruct Hb as [->|[->|[->|[->|[->| ->]]]]]; first [reflexivity | unfold ATURSLA_BASE,
        ATURELA_BASE, ATURAV_L_BASE, ATURAV_M_BASE, ATUROBA_BASE, ATURGPV_BASE; lia].
Qed.

(** Translations depend only on the mapping registers. *)
Lemma spec_translate_ext cfg m m' logical len :
  (forall off, mapping_register off = true -> 0 <= off -> off mod 4 = 0 -> load32 m' off = load32 m off) ->
  spec_translate cfg m' logical len = spec_translate cfg m logical len.
Proof.
  intros Hext. assert (page_shift m' = page_shift m) as Eps.
  { unfold page_shift. by rewrite Hext by done. }
  assert (supported_region_count m' = supported_region_count m) as Ecount.
  { unfold supported_region_count. by rewrite Hext by done. }
  pose proof (region_count_range m) as Hcount.
  assert (forall r, 0 <= r < 32 ->
    region_start_page m' r = region_start_page m r /\ region_end_page m' r = region_end_page m r /\
    region_offset_pages m' r = region_offset_pages m r /\ region_roba m' r = region_roba m r /\
    region_configured m' r = region_configured m r) as Hr.
  { intros r Hr. unfold region_configured, region_start_page, region_end_page, region_offset_pages, region_roba.
    pose proof (fun b => region_array_offset b r Hr) as Ho.
    rewrite !Hext by (apply Ho; auto 7). done. }
  assert (forall r, 0 <= r < 32 -> covers m' logical len r = covers m logical len r /\
    contains m' logical r = contains m logical r /\ enabled m' r = enabled m r /\
    displacement m' r = displacement m r /\
    region_security_allowed cfg m' r = region_security_allowed cfg m r) as Hc.
  { intros r H. destruct (Hr r H) as (E1 & E2 & E3 & E4 & E5).
    unfold covers, contains, region_first, region_last, enabled, displacement, region_security_allowed.
    rewrite E1, E2, E3, E4, E5, Eps. by rewrite Hext by done. }
  unfold spec_translate. rewrite Ecount, Eps.
  rewrite (find_ext_in _ (fun r => covers m logical len r && enabled m r))
    by (intros r Hin%elem_of_range; by destruct (Hc r ltac:(lia)) as (-> & _ & -> & _)).
  rewrite (existsb_ext_in (covers m' logical len) (covers m logical len))
    by (intros r Hin%elem_of_range; apply Hc; lia).
  rewrite (existsb_ext_in _ (fun r => contains m logical r && negb (covers m logical len r)))
    by (intros r Hin%elem_of_range; by destruct (Hc r ltac:(lia)) as (-> & -> & _)).
  destruct (List.find _ _) as [r|] eqn:Ef; [|done].
  apply find_range_some in Ef as [Hin _].
  destruct (Hr r ltac:(lia)) as (_ & _ & -> & _). by destruct (Hc r ltac:(lia)) as (_ & _ & _ & -> & ->).
Qed.

(** Aligned registers do not overlap. *)
Lemma load32_store32_aligned m off off' v : off mod 4 = 0 -> off' mod 4 = 0 -> off <> off' ->
  load32 (store32 off v m) off' = load32 m off'.
Proof. intros H1 H2 Hne. apply load32_store32_ne. lia. Qed.

(** C25. No remapping goes unannounced: with direct memory access enabled and
    the translation socket bound, an aligned 32-bit register write either revokes
    the whole address range from the initiators or leaves every translation, of
    every address and length, as it was. *)
Theorem atu_remap_invalidates cfg s offset v :
  p_enable_dmi cfg = true -> translation_bound cfg = true ->
  0 <= offset -> offset mod 4 = 0 ->
  m_invalidations (write32 cfg offset v s) = m_invalidations s ++ [(0, UINT64_MAX)] \/
  (m_invalidations (write32 cfg offset v s) = m_invalidations s /\
   forall logical len,
     spec_translate cfg (m_regs (write32 cfg offset v s)) logical len =
     spec_translate cfg (m_regs s) logical len).
Proof.
  intros Hdmi Hb H0 Hal. unfold write32, invalidate_translation_dmi. rewrite Hdmi, Hb. cbn [negb orb].
  destruct ((offset =? ATUBC) || _ || _) eqn:E1; [by right|].
  destruct (Z.eqb_spec offset ATUIC) as [->|].
  { right. split; [done|]. intros. apply spec_translate_ext. intros off Hmap Hoff Hoal. cbn.
    rewrite !load32_store32_aligned; try done; intros <-; by vm_compute in Hmap. }
  destruct ((offset =? ATUC) || _) eqn:E2.
  { destruct (Z.eqb_spec offset ATUC) as [->|]; [by left|]. right. split; [done|].
    intros. apply spec_translate_ext. intros off Hmap Hoff Hoal. cbn.
    assert (offset = ATUIE) as -> by lia.
    rewrite load32_store32_aligned; try done. intros <-. by vm_compute in Hmap. }
  destruct (is_region_array_offset offset) eqn:E3; [by left|].
  right. split; [done|]. intros. apply spec_translate_ext. intros off Hmap Hoff Hoal. cbn.
  rewrite load32_store32_aligned; try done. intros <-. unfold mapping_register in Hmap.
  rewrite E3 in Hmap. unfold ATUBC, ATUC in *. lia.
Qed.

(** What a forwarded transaction does to the registers. *)
Definition after_fault (debug_null : bool) (logical : Z) (s : rse_atu) : mem :=
  if debug_null then m_regs s else m_regs (latch_translation_fault logical s).

(** Forwarding is transparent.  A transaction the unit can translate
    reaches the downstream target once, unchanged but for its address, and comes
    back with the initiator's own address, the downstream data and status; one it
    cannot translate never reaches the target, is answered with an address error
    and latches the fault and the address, unless it carried no data. *)
Theorem atu_forward_transparent {B} {bus : TlmTarget B} cfg dbg s b t s' b' t' ok :
  mem_ok REG_BYTES (m_regs s) -> payload_ok t -> initiator_bound cfg = true ->
  forward_translation cfg dbg (s, b) t = ((s', b'), t', ok) ->
  address t' = address t /\ data_length t' = data_length t /\ command t' = command t /\
  ok = is_response_ok t' /\
  let nodata := bool_decide (data_ptr t = None) || (data_length t =? 0) in
  match (if nodata then Fault unmapped
         else spec_translate cfg (m_regs s) (address t) (data_length t)) with
  | Translated r p =>
      m_regs s' = m_regs s /\
      exists u okb, tlm_access dbg b (t <| address := p |>
                      <| dmi_allowed := if dbg then dmi_allowed t else false |>) = (b', u, okb) /\
        ok = okb /\ data_ptr t' = data_ptr u /\ response_status t' = response_status u
  | Fault _ =>
      b' = b /\ response_status t' = TLM_ADDRESS_ERROR_RESPONSE /\ data_ptr t' = data_ptr t /\
      m_regs s' = after_fault nodata (address t) s
  end.
Proof.
  intros Hm Ht Hb. unfold forward_translation, after_fault. rewrite Hb. cbn [negb].
  pose proof Ht as (Ha & Hlen & Hend & Hd).
  destruct (data_ptr t) as [d|] eqn:Ed.
  2:{ cbn [negb]. intros [= <- <- <- <-]. rewrite trace_translation_regs. by rewrite Ed. }
  rewrite bool_decide_false by done. cbn [orb].
  destruct (Z.eqb_spec (data_length t) 0) as [E0|E0].
  { cbn [negb]. intros [= <- <- <- <-]. rewrite trace_translation_regs. by rewrite Ed. }
  pose proof (translate_range_spec cfg s (address t) (data_length t) true Hm) as Htr.
  destruct (translate_range _ _ _ _ _ _) as [[ok1 info] s1].
  specialize (Htr ltac:(destruct Hlen; split; lia) Hlen). rewrite Z.max_r in Htr by (destruct Hlen; lia).
  destruct (spec_translate _ _ _ _) as [r p|f].
  2:{ destruct Htr as (-> & _ & ->). cbn [negb]. intros [= <- <- <- <-].
      rewrite trace_translation_regs. by cbn; rewrite Ed. }
  destruct Htr as (-> & _ & _ & -> & _ & _ & _ & ->). cbn [negb].
  unfold target_b_transport, target_transport_dbg.
  destruct dbg; destruct (tlm_access _ b _) as [[b1 u] okb] eqn:Eb; intros [= <- <- <- <-];
    pose proof (target_status _ _ _ _ _ _ Eb) as Hst; pose proof (target_frame _ _ _ _ _ _ Eb) as (F1 & F2 & F3 & F4);
    cbn in F1, F3; (split; [done|]; split; [done|]; split; [done|]; split; [done|]); rewrite trace_translation_regs; (split; [done|]);
    exists u, okb; (split; [by destruct t|]); (split; [|done]); unfold is_response_ok; cbn;
    (destruct okb; [by rewrite Hst|by destruct Hst as [-> | ->]]).
Qed.

(** * A configured unit

    Thirty-two regions of 4 KiB pages; region 0 maps 0x10000-0x1ffff up by 1 MiB,
    region 1 maps 0x20000-0x2ffff down by 64 KiB and is switched off. *)

Definition example_config : atu_config := {|
  p_trace := false; p_trace_limit := 0; p_trace_filter := []; p_trace_address_min := 0;
  p_trace_address_max := 0; p_build_config := 0xc5; p_permitted_security_domains := 0xf;
  p_enable_dmi := true; initiator_bound := true; translation_bound := true |}.

Definition example_state : rse_atu :=
  write32 example_config ATUC 1
    (write32 example_config (ATURAV_M_BASE + 4) 0xffffffff
      (write32 example_config (ATURAV_L_BASE + 4) 0xfffffff0
        (write32 example_config (ATURELA_BASE + 4) 0x2f
          (write32 example_config (ATURSLA_BASE + 4) 0x20
            (write32 example_config ATURAV_L_BASE 0x100
              (write32 example_config ATURELA_BASE 0x1f
                (write32 example_config ATURSLA_BASE 0x10 (initial example_config)))))))).

Lemma atu_example_inv : atu_inv example_state.
Proof.
  repeat (apply atu_write32_inv; [by cbv|done|by cbv|by split|]).
  apply mem_ok_store32; [apply mem_ok_empty|done|by cbv].
Qed.

Lemma example_translates :
  spec_translate example_config (m_regs example_state) 0x10010 4 = Translated 0 0x110010 /\
  spec_translate example_config (m_regs example_state) 0x1fffe 4 = Fault out_of_range /\
  spec_translate example_config (m_regs example_state) 0x20010 4 = Fault disabled.
Proof. vm_compute. done. Qed.

Lemma atu_translate_refines_witness :
  mem_ok REG_BYTES (m_regs example_state) /\
  snd (fst (translate_range example_config 0x1fffe 4 empty_info true example_state)) =
    empty_info <| fault := out_of_range |> /\
  exists info, translate_range example_config 0x10010 4 empty_info true example_state =
    (true, info, example_state) /\ physical info = 0x110010.
Proof.
  split; [exact atu_example_inv|]. split; [by vm_compute|].
  pose proof (atu_translate_refines example_config example_state 0x10010 4 true atu_example_inv
    ltac:(by split) ltac:(by split)) as H.
  destruct example_translates as (E & _). change (Z.max 1 4) with 4 in H. rewrite E in H.
  destruct (translate_range _ _ _ _ _ _) as [[ok info] s'].
  destruct H as (-> & _ & _ & Hp & _ & _ & ->). exists info. split; [exact eq_refl|exact Hp].
Defined.

Lemma atu_translation_in_bounds_witness :
  exists info, translate_range example_config 0x10010 4 empty_info true example_state = (true, info, example_state) /\
    logical_start info <= 0x10013 <= logical_end info /\ physical info = u64 (0x10010 + offset info).
Proof.
  destruct (translate_range example_config 0x10010 4 empty_info true example_state) as [[ok info] s'] eqn:E.
  assert (ok = true) as ->.
  { change ok with (fst (fst (ok, info, s'))). rewrite <-E. by vm_compute. }
  pose proof (atu_translation_in_bounds example_config example_state 0x10010 4 true info s' atu_example_inv
    ltac:(by split) ltac:(by split) E) as (-> & _ & _ & _ & _ & _ & H & Hp & _).
  exists info. split; [exact eq_refl|]. split; [|exact Hp]. destruct (H 3 ltac:(lia)) as [Hk _]. exact Hk.
Defined.

(** A downstream memory at 0x110000 that grants its first 8 KiB. *)
Definition example_grant (t : tlm_payload) : option tlm_dmi :=
  if (0x110000 <=? address t) && (address t <? 0x112000) then Some (MkDmi 0x7000 0x110000 0x111fff)
  else None.

Lemma example_grant_ok u w : example_grant u = Some w ->
  0 <= start_address w <= end_address w /\ end_address w < 2 ^ 64.
Proof. unfold example_grant. case_if; [|done]. intros [= <-]. by cbv. Qed.

Lemma atu_dmi_grant_sound_witness :
  let t := read_txn 0x10010 4 in
  is_u64 (address t) /\
  translation_get_direct_mem_ptr example_config example_grant t example_state =
    (Some (MkDmi 0x7000 0x10000 0x11fff), example_state) /\
  exists r p, spec_translate example_config (m_regs example_state) 0x10010 4 = Translated r p.
Proof.
  cbv zeta. assert (translation_get_direct_mem_ptr example_config example_grant (read_txn 0x10010 4)
    example_state = (Some (MkDmi 0x7000 0x10000 0x11fff), example_state)) as E by (by vm_compute).
  split; [by split|]. split; [exact E|].
  pose proof (atu_dmi_grant_sound example_config example_state (read_txn 0x10010 4) example_grant
    _ example_state atu_example_inv ltac:(by split) ltac:(by split) example_grant_ok E) as H.
  destruct H as (_ & r & p & w & Hs & _). exists r, p. exact Hs.
Defined.

(** Region 1 holds 0x0-0x1ffff and moves it up by 2 MiB, so region 0 lies inside it;
    the downstream grants the 128 KiB there.  The window granted for 0x2000 holds
    0x10010, which a transaction takes through region 0 to another byte. *)
Lemma atu_dmi_shadows_region :
  let s := write32 example_config ATUC 3
    (write32 example_config (ATURAV_M_BASE + 4) 0
      (write32 example_config (ATURAV_L_BASE + 4) 0x200
        (write32 example_config (ATURELA_BASE + 4) 0x1f
          (write32 example_config (ATURSLA_BASE + 4) 0 example_state)))) in
  let grant u := if 0x200000 <=? address u then Some (MkDmi 0x7000 0x200000 0x21ffff) else None in
  fst (translation_get_direct_mem_ptr example_config grant (read_txn 0x2000 4) s) = Some (MkDmi 0x7000 0 0x1ffff) /\
  physical (snd (fst (translate_range example_config 0x2000 4 empty_info true s))) = 0x202000 /\
  physical (snd (fst (translate_range example_config 0x10010 4 empty_info true s))) = 0x110010.
Proof. vm_compute. done. Qed.

Lemma atu_remap_invalidates_witness :
  p_enable_dmi example_config = true /\ ATUC mod 4 = 0 /\
  (m_invalidations (write32 example_config ATUC 3 example_state) =
     m_invalidations example_state ++ [(0, UINT64_MAX)] \/
   forall logical len,
     spec_translate example_config (m_regs (write32 example_config ATUC 3 example_state)) logical len =
     spec_translate example_config (m_regs example_state) logical len).
Proof.
  split; [done|]. split; [done|].
  pose proof (atu_remap_invalidates example_config example_state ATUC 3
    ltac:(done) ltac:(done) ltac:(done) ltac:(done)) as [H|[_ H]]; [left|right]; exact H.
Defined.

(** A second unit stands in for the downstream target. *)
Lemma atu_forward_transparent_witness :
  let t := read_txn 0x10010 4 in
  let r := forward_translation (bus := atu_target example_config) example_config false
             (example_state, example_state) t in
  payload_ok t /\ address (snd (fst r)) = 0x10010 /\ snd r = is_response_ok (snd (fst r)).
Proof.
  cbv zeta. destruct (forward_translation _ _ _ _) as [[[s' b'] t'] ok] eqn:E.
  split; [apply read_txn_ok; [by split|lia]|]. cbn [fst snd].
  pose proof (atu_forward_transparent (bus := atu_target example_config) example_config false
    example_state example_state (read_txn 0x10010 4) s' b' t' ok atu_example_inv
    ltac:(apply read_txn_ok; [by split|lia]) ltac:(done) E) as (H1 & _ & _ & H2 & _).
  split; [exact H1|exact H2].
Defined.

(** A 16-bit write reaches ATUC without going through [write32]: the mapping
    changes and no direct-memory grant is revoked. *)
Lemma atu_halfword_write_keeps_grants :
  let '(s', _, ok) := access example_config false example_state (write_bytes_txn ATUC [0; 0]) in
  ok = true /\ m_invalidations s' = m_invalidations example_state /\
  spec_translate example_config (m_regs s') 0x10010 4 = Fault disabled /\
  spec_translate example_config (m_regs example_state) 0x10010 4 = Translated 0 0x110010.
Proof. vm_compute. done. Qed.

(** Read-only registers can be overwritten the same way. *)
Lemma atu_halfword_write_build_config :
  let '(s', _, ok) := access example_config false example_state (write_bytes_txn ATUBC [0; 0]) in
  ok = true /\ load32 (m_regs s') ATUBC = 0 /\
  load32 (m_regs (write32 example_config ATUBC 0 example_state)) ATUBC = 0xc5.
Proof. vm_compute. done. Qed.
