(* ===== verification/ZenaSsu.v ===== *)
(** The Zena safety status unit [zena_ssu]
    (systemc-components/zena_ssu/include/zena_ssu.h): one error record, an
    unlock key and the four-state safety status machine that drives the safety
    output. *)

From S2P Require Import Prelude Bytes Tlm Access.

(** * Constants *)

Definition REG_BYTES : Z := 0x1000.
Definition ERR_FR : Z := 0x000.
Definition ERR_CTRL : Z := 0x008.
Definition ERR_STATUS : Z := 0x010.
Definition ERR_IMPDEF : Z := 0x800.
Definition SYS_KEY : Z := 0x804.
Definition SYS_STATUS : Z := 0x808.
Definition SYS_CTRL : Z := 0x810.
Definition STATUS_DETAIL : Z := 0x814.
Definition PIDR4 : Z := 0xfd0.
Definition PIDR0 : Z := 0xfe0.
Definition PIDR1 : Z := 0xfe4.
Definition PIDR2 : Z := 0xfe8.
Definition PIDR3 : Z := 0xfec.
Definition CIDR0 : Z := 0xff0.
Definition CIDR1 : Z := 0xff4.
Definition CIDR2 : Z := 0xff8.
Definition CIDR3 : Z := 0xffc.
Definition SYS_KEY_VALUE : Z := 0xbe.
Definition ERR_FR_RESET : Z := 0x2.
Definition ERR_CTRL_ED : Z := bit 0.
Definition ERR_STATUS_SERR_MASK : Z := 0x000000ff.
Definition ERR_STATUS_IERR_MASK : Z := 0x00001f00.
Definition ERR_STATUS_OF : Z := bit 27.
Definition ERR_STATUS_V : Z := bit 30.
Definition ERR_STATUS_W1C_MASK : Z := Z.lor ERR_STATUS_V ERR_STATUS_OF.
Definition ERR_STATUS_RW_WHEN_VALID_MASK : Z := Z.lor ERR_STATUS_SERR_MASK ERR_STATUS_IERR_MASK.
Definition ERR_STATUS_IERR_INC_SEQ : Z := bit 9.
Definition ERR_STATUS_IERR_ERR_IN : Z := bit 12.
Definition ERR_STATUS_SERR_SW : Z := bit 0.
Definition IMPDEF_CR_EN : Z := bit 0.
Definition IMPDEF_NCR_EN : Z := bit 1.
Definition IMPDEF_APB_SW : Z := bit 4.
Definition IMPDEF_INC_SEQ : Z := bit 5.
Definition IMPDEF_APB_PROT : Z := bit 6.
Definition IMPDEF_RW_MASK : Z := Z.lor IMPDEF_CR_EN (Z.lor IMPDEF_NCR_EN (Z.lor IMPDEF_APB_SW (Z.lor IMPDEF_INC_SEQ IMPDEF_APB_PROT))).
Definition SYS_STATUS_TEST : Z := bit 0.
Definition SYS_STATUS_SAFE : Z := bit 1.
Definition SYS_STATUS_ERRN : Z := bit 2.
Definition SYS_STATUS_ERRC : Z := bit 3.

(** * State *)

(** [zena_ssu.h: "cci::cci_param<bool> p_trace;" .. "InitiatorSignalSocket<bool> safety_status;"] *)
Record ssu_config := {
  p_trace : bool;
  p_trace_limit : Z;
  p_enforce_sys_key : bool;
  p_pidr4 : Z;
  p_pidr0 : Z;
  p_pidr1 : Z;
  p_pidr2 : Z;
  p_pidr3 : Z;
  p_cidr0 : Z;
  p_cidr1 : Z;
  p_cidr2 : Z;
  p_cidr3 : Z;
  safety_status_bound : bool
}.

(** [m_outputs] logs the values written to [safety_status], oldest first. *)
(** [zena_ssu.h: "uint32_t m_err_ctrl = ERR_CTRL_ED;" .. "bool m_safety_status = false;"] *)
Record zena_ssu := MkSsu {
  m_err_ctrl : Z;
  m_err_status : Z;
  m_err_impdef : Z;
  m_sys_status : Z;
  m_status_detail : Z;
  m_unlocked : bool;
  m_trace_count : Z;
  m_safety_status : bool;
  m_outputs : list bool
}.

#[export] Instance eta_zena_ssu : Eta zena_ssu := fun s =>
  MkSsu (m_err_ctrl s) (m_err_status s) (m_err_impdef s) (m_sys_status s) (m_status_detail s)
    (m_unlocked s) (m_trace_count s) (m_safety_status s) (m_outputs s).

Section zena_ssu.
Context (cfg : ssu_config).

(** [zena_ssu.h: update_output] *)
Definition update_output (s : zena_ssu) : zena_ssu :=
  let value := (m_sys_status s =? SYS_STATUS_ERRC) || (m_sys_status s =? SYS_STATUS_ERRN) in
  if Bool.eqb value (m_safety_status s) then s
  else
    let s := s <| m_safety_status := value |> in
    if safety_status_bound cfg then s <| m_outputs ::= fun l => l ++ [value] |> else s.

(** [zena_ssu.h: set_sequence_error] *)
Definition set_sequence_error (s : zena_ssu) : zena_ssu :=
  let s :=
    if test (m_err_impdef s) IMPDEF_INC_SEQ then
      s <| m_err_status ::= fun x =>
        Z.lor x (Z.lor ERR_STATUS_V (Z.lor ERR_STATUS_IERR_INC_SEQ ERR_STATUS_SERR_SW)) |>
    else s in
  update_output s.

(** [zena_ssu.h: require_unlock] *)
Definition require_unlock (s : zena_ssu) : bool * zena_ssu :=
  if negb (p_enforce_sys_key cfg) then (true, s)
  else if m_unlocked s then (true, s <| m_unlocked := false |>)
  else (false, set_sequence_error s).

(** [zena_ssu.h: set_fault] *)
Definition set_fault (critical : bool) (s : zena_ssu) : zena_ssu :=
  if negb (test (m_err_ctrl s) ERR_CTRL_ED) then s
  else if critical && negb (test (m_err_impdef s) IMPDEF_CR_EN) then s
  else if negb critical && negb (test (m_err_impdef s) IMPDEF_NCR_EN) then s
  else
    update_output
      (s <| m_err_status ::= fun x =>
         Z.lor x (Z.lor ERR_STATUS_V (Z.lor ERR_STATUS_IERR_ERR_IN ERR_STATUS_SERR_SW)) |>
         <| m_sys_status := if critical then SYS_STATUS_ERRC else SYS_STATUS_ERRN |>).

(** [zena_ssu.h: write_status] *)
Definition write_status (value : Z) (s : zena_ssu) : zena_ssu :=
  let s := s <| m_err_status ::= fun x => Z.land x (not32 (Z.land value ERR_STATUS_W1C_MASK)) |> in
  let s :=
    if test (m_err_status s) ERR_STATUS_V then
      s <| m_err_status ::= fun x =>
        Z.lor (Z.land x (not32 ERR_STATUS_RW_WHEN_VALID_MASK))
              (Z.land value ERR_STATUS_RW_WHEN_VALID_MASK) |>
    else s in
  let s :=
    if negb (test (m_err_status s) ERR_STATUS_V) &&
       ((m_sys_status s =? SYS_STATUS_ERRC) || (m_sys_status s =? SYS_STATUS_ERRN)) then
      s <| m_sys_status := SYS_STATUS_SAFE |>
    else s in
  update_output s.

(** [zena_ssu.h: write_sys_ctrl] *)
Definition write_sys_ctrl (value : Z) (s : zena_ssu) : zena_ssu :=
  let v := Z.land value 0x3 in
  let s :=
    if v =? 0 then s <| m_sys_status := SYS_STATUS_TEST |>
    else if v =? 1 then s <| m_sys_status := SYS_STATUS_SAFE |>
    else if v =? 2 then s <| m_sys_status := SYS_STATUS_ERRN |>
    else if v =? 3 then s <| m_sys_status := SYS_STATUS_ERRC |>
    else s in
  update_output s.

(** [zena_ssu.h: pidcid_value] *)
Definition pidcid_value (offset : Z) : Z :=
  if offset =? PIDR4 then p_pidr4 cfg
  else if offset =? PIDR0 then p_pidr0 cfg
  else if offset =? PIDR1 then p_pidr1 cfg
  else if offset =? PIDR2 then p_pidr2 cfg
  else if offset =? PIDR3 then p_pidr3 cfg
  else if offset =? CIDR0 then p_cidr0 cfg
  else if offset =? CIDR1 then p_cidr1 cfg
  else if offset =? CIDR2 then p_cidr2 cfg
  else if offset =? CIDR3 then p_cidr3 cfg
  else 0.

(** [zena_ssu.h: read32] *)
Definition read32 (s : zena_ssu) (offset : Z) : Z :=
  if offset =? ERR_FR then ERR_FR_RESET
  else if offset =? ERR_CTRL then m_err_ctrl s
  else if offset =? ERR_STATUS then m_err_status s
  else if offset =? ERR_IMPDEF then m_err_impdef s
  else if offset =? SYS_KEY then if m_unlocked s then SYS_KEY_VALUE else 0
  else if offset =? SYS_STATUS then m_sys_status s
  else if offset =? SYS_CTRL then 0
  else if offset =? STATUS_DETAIL then m_status_detail s
  else pidcid_value offset.

(** [zena_ssu.h: write32] *)
Definition write32 (offset value : Z) (s : zena_ssu) : zena_ssu :=
  if offset =? SYS_KEY then
    let s := s <| m_unlocked := (value =? SYS_KEY_VALUE) |> in
    if negb (m_unlocked s) then set_sequence_error s else s
  else
    let '(unlocked, s) := require_unlock s in
    if negb unlocked then s
    else if offset =? ERR_CTRL then
      update_output (s <| m_err_ctrl := Z.land value ERR_CTRL_ED |>)
    else if offset =? ERR_STATUS then write_status value s
    else if offset =? ERR_IMPDEF then
      update_output (s <| m_err_impdef ::= fun x =>
        Z.lor (Z.land x (not32 IMPDEF_RW_MASK)) (Z.land value IMPDEF_RW_MASK) |>)
    else if offset =? SYS_CTRL then write_sys_ctrl value s
    else if offset =? STATUS_DETAIL then s <| m_status_detail := Z.land value 0x0000ffff |>
    else s.

(** [zena_ssu.h: trace_access] *)
Definition trace_access (t : tlm_payload) (s : zena_ssu) : zena_ssu :=
  if negb (p_trace cfg) || (p_trace_limit cfg <=? m_trace_count s) then s
  else s <| m_trace_count ::= fun n => u32 (n + 1) |>.

(** [zena_ssu.h: access] *)
Definition access : bool -> zena_ssu -> tlm_payload -> zena_ssu * tlm_payload * bool :=
  word_access REG_BYTES (fun s offset => read32 s (u32 offset))
    (fun offset => write32 (u32 offset)) trace_access.

(** [zena_ssu.h: reset_registers] *)
Definition reset_registers (s : zena_ssu) : zena_ssu :=
  update_output
    (MkSsu ERR_CTRL_ED 0
       (Z.lor IMPDEF_CR_EN (Z.lor IMPDEF_APB_SW (Z.lor IMPDEF_INC_SEQ IMPDEF_APB_PROT)))
       SYS_STATUS_TEST 0 false (m_trace_count s) false (m_outputs s)).

(** The callbacks of [critical_in] and [non_critical_in]. *)
(** [zena_ssu.h: "critical_in.register_value_changed_cb" .. "set_fault(false);"] *)
Definition fault_in (critical value : bool) (s : zena_ssu) : zena_ssu :=
  if value then set_fault critical s else s.

(** The state the constructor leaves, and [before_end_of_elaboration] resets again. *)
(** [zena_ssu.h: before_end_of_elaboration] *)
Definition initial : zena_ssu :=
  reset_registers (reset_registers
    (MkSsu ERR_CTRL_ED 0
       (Z.lor IMPDEF_CR_EN (Z.lor IMPDEF_APB_SW (Z.lor IMPDEF_INC_SEQ IMPDEF_APB_PROT)))
       SYS_STATUS_TEST 0 false 0 false [])).
End zena_ssu.

(** * Specification *)

(** The safety status and the operations that move it. *)
Inductive safety := Test | Safe | ErrN | ErrC.

Definition safety_code (st : safety) : Z :=
  match st with
  | Test => SYS_STATUS_TEST
  | Safe => SYS_STATUS_SAFE
  | ErrN => SYS_STATUS_ERRN
  | ErrC => SYS_STATUS_ERRC
  end.

Definition is_error (st : safety) : bool :=
  match st with ErrN | ErrC => true | _ => false end.

Inductive safety_op := Report (critical : bool) | Acknowledge | Force (st : safety) | Keep.

Definition safety_next (st : safety) (op : safety_op) : safety :=
  match op with
  | Report critical => if critical then ErrC else ErrN
  | Acknowledge => if is_error st then Safe else st
  | Force st => st
  | Keep => st
  end.

(** What reaches the unit: a transaction, or a change of a fault input. *)
Inductive ssu_event := Transaction (dbg : bool) (t : tlm_payload) | FaultLine (critical value : bool).

Definition ssu_step (cfg : ssu_config) (s : zena_ssu) (e : ssu_event) : zena_ssu :=
  match e with
  | Transaction dbg t => fst (fst (access cfg dbg s t))
  | FaultLine critical value => fault_in cfg critical value s
  end.

(** The value written to SYS_CTRL selects a state. *)
Definition forced (v : Z) : safety :=
  match v mod 4 with 0 => Test | 1 => Safe | 2 => ErrN | _ => ErrC end.

(** The operation an event stands for: fault inputs count when detection and
    their class are enabled; register writes count when the key is in place. *)
Definition event_op (cfg : ssu_config) (s : zena_ssu) (e : ssu_event) : safety_op :=
  match e with
  | FaultLine critical value =>
      if value && Z.testbit (m_err_ctrl s) 0 && Z.testbit (m_err_impdef s) (if critical then 0 else 1)
      then Report critical else Keep
  | Transaction _ t =>
      match word_write REG_BYTES t with
      | Some (offset, v) =>
          if p_enforce_sys_key cfg && negb (m_unlocked s) then Keep
          else if offset =? SYS_CTRL then Force (forced v)
          else if (offset =? ERR_STATUS) && (negb (Z.testbit (m_err_status s) 30) || Z.testbit v 30)
          then Acknowledge else Keep
      | None => Keep
      end
  end.

(** The output line starts low and carries every change once. *)
Fixpoint alternate (b : bool) (n : nat) : list bool :=
  match n with O => [] | S n => b :: alternate (negb b) n end.

Definition outputs_ok (cfg : ssu_config) (s : zena_ssu) : Prop :=
  if safety_status_bound cfg
  then exists n, m_outputs s = alternate true n /\ m_safety_status s = Nat.odd n
  else m_outputs s = [].

Definition ssu_inv (cfg : ssu_config) (s : zena_ssu) : Prop :=
  exists st, m_sys_status s = safety_code st /\ m_safety_status s = is_error st /\ outputs_ok cfg s.

Inductive ssu_reachable (cfg : ssu_config) : zena_ssu -> Prop :=
| ssu_reset : ssu_reachable cfg (initial cfg)
| ssu_event_step s e : ssu_reachable cfg s ->
    match e with Transaction _ t => payload_ok t | FaultLine _ _ => True end ->
    ssu_reachable cfg (ssu_step cfg s e).

(** * The output *)

Lemma safety_code_inj st st' : safety_code st = safety_code st' -> st = st'.
Proof. destruct st, st'; by vm_compute. Qed.

Lemma alternate_app b n : alternate b n ++ [xorb b (Nat.odd n)] = alternate b (S n).
Proof.
  revert b. induction n as [|n IH]; intros b; [by destruct b|].
  transitivity (b :: (alternate (negb b) n ++ [xorb (negb b) (Nat.odd n)])); [|by rewrite IH].
  cbn [alternate app]. do 3 f_equal.
  rewrite Nat.odd_succ, <-Nat.negb_odd. by destruct b, (Nat.odd n).
Qed.

Lemma code_is_error st :
  (safety_code st =? SYS_STATUS_ERRC) || (safety_code st =? SYS_STATUS_ERRN) = is_error st.
Proof. by destruct st. Qed.

Section ssu_proofs.
Context (cfg : ssu_config).

(** [update_output] brings the output in line with the status and touches
    nothing else. *)
Lemma update_output_spec s st :
  m_sys_status s = safety_code st -> outputs_ok cfg s ->
  let s' := update_output cfg s in
  m_sys_status s' = safety_code st /\ m_safety_status s' = is_error st /\ outputs_ok cfg s' /\
  m_err_status s' = m_err_status s /\ m_err_ctrl s' = m_err_ctrl s /\
  m_err_impdef s' = m_err_impdef s /\ m_unlocked s' = m_unlocked s.
Proof.
  intros Hst Hout. unfold update_output. rewrite Hst, code_is_error.
  destruct (Bool.eqb (is_error st) (m_safety_status s)) eqn:E.
  { apply eqb_prop in E. by rewrite <-E. }
  apply eqb_false_iff in E. unfold outputs_ok in *. destruct (safety_status_bound cfg) eqn:Eb; cbn; [|done].
  destruct Hout as (n & Ho & Hl). do 2 (split; [done|]). split; [|done].
  exists (S n). rewrite Ho, <-alternate_app. rewrite Nat.odd_succ, <-Nat.negb_odd.
  rewrite Hl in E. by destruct (is_error st), (Nat.odd n).
Qed.

(** The status after a register write or fault, and the invariant with it. *)
Definition moves_to (s' : zena_ssu) (st : safety) : Prop :=
  m_sys_status s' = safety_code st /\ m_safety_status s' = is_error st /\ outputs_ok cfg s'.

Lemma update_moves s st : m_sys_status s = safety_code st -> outputs_ok cfg s ->
  moves_to (update_output cfg s) st.
Proof.
  intros Hs Ho. unfold moves_to. by destruct (update_output_spec s st Hs Ho) as (-> & -> & ? & _).
Qed.

Lemma sequence_error_moves s st : moves_to s st -> moves_to (set_sequence_error cfg s) st.
Proof.
  intros (H1 & H2 & H3). unfold set_sequence_error. cbv zeta. case_if; by apply update_moves.
Qed.

Lemma write_status_moves v s st : moves_to s st ->
  moves_to (write_status cfg v s)
    (if negb (Z.testbit (m_err_status s) 30) || Z.testbit v 30 then safety_next st Acknowledge else st).
Proof.
  intros (H1 & H2 & H3). unfold write_status. cbv zeta. 
  set (x := Z.land (m_err_status s) (not32 (Z.land v ERR_STATUS_W1C_MASK))).
  assert (Z.testbit x 30 = Z.testbit (m_err_status s) 30 && negb (Z.testbit v 30)) as Ex.
  { unfold x. rewrite Z.land_spec, cnot_testbit, Z.land_spec by lia.
    change (Z.testbit ERR_STATUS_W1C_MASK 30) with true. by rewrite andb_true_r. }
  cbn [m_err_status set_field]. fold x.
  replace (test x ERR_STATUS_V) with (Z.testbit x 30) by (symmetry; by apply test_bit).
  rewrite Ex. destruct (Z.testbit (m_err_status s) 30), (Z.testbit v 30);
    cbn [andb negb orb m_err_status].
  2:{ rewrite (test_bit _ 30) by done.
      rewrite Z.lor_spec, !Z.land_spec, Ex. cbn [negb andb orb].
      change (Z.testbit (not32 ERR_STATUS_RW_WHEN_VALID_MASK) 30) with true. by apply update_moves. }
  all: rewrite (test_bit _ 30), Ex by done; cbn [negb andb orb m_sys_status set_field];
    rewrite H1, code_is_error; destruct st; by apply update_moves.
Qed.

Lemma write_sys_ctrl_moves v s st : moves_to s st ->
  moves_to (write_sys_ctrl cfg v s) (forced v).
Proof.
  intros (H1 & H2 & H3). unfold write_sys_ctrl, forced. rewrite land_3.
  pose proof (Z.mod_pos_bound v 4 ltac:(lia)).
  assert (v mod 4 = 0 \/ v mod 4 = 1 \/ v mod 4 = 2 \/ v mod 4 = 3) as [->|[->|[->| ->]]] by lia;
    by apply update_moves.
Qed.
End ssu_proofs.

(** * The safety machine *)

Section ssu_machine.
Context (cfg : ssu_config).

Lemma unlock_moves s st : moves_to cfg s st ->
  let '(unlocked, s') := require_unlock cfg s in
  unlocked = negb (p_enforce_sys_key cfg && negb (m_unlocked s)) /\ moves_to cfg s' st /\
  (unlocked = true -> m_err_status s' = m_err_status s).
Proof.
  intros H. unfold require_unlock. destruct (p_enforce_sys_key cfg); [|done].
  destruct (m_unlocked s); [done|]. split; [done|]. split; [|done].
  by apply sequence_error_moves.
Qed.

Lemma write32_moves offset v s st : moves_to cfg s st ->
  moves_to cfg (write32 cfg offset v s)
    (safety_next st
       (if p_enforce_sys_key cfg && negb (m_unlocked s) then Keep
        else if offset =? SYS_CTRL then Force (forced v)
        else if (offset =? ERR_STATUS) && (negb (Z.testbit (m_err_status s) 30) || Z.testbit v 30)
        then Acknowledge else Keep)).
Proof.
  intros H. unfold write32. destruct (Z.eqb_spec offset SYS_KEY) as [->|].
  { change (SYS_KEY =? SYS_CTRL) with false. change (SYS_KEY =? ERR_STATUS) with false.
    cbn [andb]. assert (forall b : bool, safety_next st (if b then Keep else Keep) = st) as ->
      by (by intros []).
    cbn [m_unlocked set_field]. destruct (v =? SYS_KEY_VALUE); [done|]. by apply sequence_error_moves. }
  pose proof (unlock_moves s st H) as Hu. destruct (require_unlock cfg s) as [unlocked s'].
  destruct Hu as (-> & Hs' & Hstat). destruct (_ && negb (m_unlocked s)); [done|].
  specialize (Hstat eq_refl). cbn [negb]. rewrite <-Hstat. clear Hstat.
  destruct (Z.eqb_spec offset ERR_CTRL) as [->|].
  { change (ERR_CTRL =? SYS_CTRL) with false. change (ERR_CTRL =? ERR_STATUS) with false.
    apply update_moves; apply Hs'. }
  destruct (Z.eqb_spec offset ERR_STATUS) as [->|].
  { change (ERR_STATUS =? SYS_CTRL) with false. cbn [andb].
    pose proof (write_status_moves cfg v s' st Hs'). by case_if. }
  destruct (Z.eqb_spec offset ERR_IMPDEF) as [->|].
  { change (ERR_IMPDEF =? SYS_CTRL) with false. apply update_moves; apply Hs'. }
  destruct (Z.eqb_spec offset SYS_CTRL) as [->|]; [by apply write_sys_ctrl_moves with st|].
  by case_if.
Qed.

Lemma trace_moves t s st : moves_to cfg s st -> moves_to cfg (trace_access cfg t s) st.
Proof. intros H. unfold trace_access. by case_if. Qed.

Lemma set_fault_moves critical s st : moves_to cfg s st ->
  moves_to cfg (set_fault cfg critical s)
    (if Z.testbit (m_err_ctrl s) 0 && Z.testbit (m_err_impdef s) (if critical then 0 else 1)
     then (if critical then ErrC else ErrN) else st).
Proof.
  intros H. unfold set_fault, ERR_CTRL_ED, IMPDEF_CR_EN, IMPDEF_NCR_EN.
  rewrite !test_bit by lia. destruct (Z.testbit (m_err_ctrl s) 0); [|done]. cbn [negb andb].
  destruct critical; cbn [negb andb];
    (destruct (Z.testbit (m_err_impdef s) _); [|done]); by apply update_moves; [|apply H].
Qed.

Lemma word_write_offset t offset v : 0 <= address t ->
  word_write REG_BYTES t = Some (offset, v) -> payload_ok t -> u32 offset = offset.
Proof.
  intros H0 Hw (_ & _ & Hend & _). unfold word_write in Hw.
  destruct (data_ptr t); [|done]. destruct (command t); try done.
  destruct (_ && _) eqn:E; [|done]. bool_hyps. simplify_eq.
  rewrite wrap_small in H1 by (split; lia). apply wrap_small. unfold REG_BYTES in *. split; lia.
Qed.

Lemma ssu_step_moves s e st :
  (match e with Transaction _ t => payload_ok t | FaultLine _ _ => True end) ->
  moves_to cfg s st -> moves_to cfg (ssu_step cfg s e) (safety_next st (event_op cfg s e)).
Proof.
  intros He H. destruct e as [dbg t|critical value]; cbn [ssu_step event_op].
  - destruct (access cfg dbg s t) as [[s' t'] ok] eqn:Ea. cbn [fst].
    destruct (word_access_effect _ _ _ _ _ _ _ _ _ _ Ea) as (u & [-> | ->]);
      [|apply trace_moves];
      (destruct (word_write REG_BYTES t) as [[offset v]|] eqn:Ew; [|done]);
      rewrite (word_write_offset t offset v (proj1 He) Ew He); by apply write32_moves.
  - unfold fault_in. destruct value; [|done]. cbn [andb].
    pose proof (set_fault_moves critical s st H). by case_if; [destruct critical|].
Qed.

Lemma initial_moves : moves_to cfg (initial cfg) Test.
Proof.
  split; [done|]. split; [done|]. unfold outputs_ok. by destruct (safety_status_bound cfg); [exists O|].
Qed.
End ssu_machine.

(** C21. The unit implements the four-state safety machine.  From any state whose
    status register codes an abstract state, every transaction and every change
    of a fault input moves the status register exactly as the abstract machine
    moves on the operation the event stands for: an enabled fault forces its
    error state, a keyed status write that leaves no valid record acknowledges
    an error into Safe, a keyed SYS_CTRL write forces the chosen state, and
    everything else - reads, debug accesses, unkeyed or sub-word writes, masked
    faults - keeps it. *)
Theorem ssu_refines_safety_machine cfg s e st :
  (match e with Transaction _ t => payload_ok t | FaultLine _ _ => True end) ->
  ssu_inv cfg s -> m_sys_status s = safety_code st ->
  m_sys_status (ssu_step cfg s e) = safety_code (safety_next st (event_op cfg s e)).
Proof.
  intros He (st' & H1 & H2 & H3) Hst.
  assert (st' = st) as -> by (apply safety_code_inj; congruence).
  by destruct (ssu_step_moves cfg s e st He (conj H1 (conj H2 H3))).
Qed.

(** The safety output follows the machine.  In every state reached from
    reset by transactions and fault-input changes, the status register codes one
    of the four states, the output level is high exactly in the two error states,
    and the values written to the line so far alternate from true and end at the
    present level, so no change is lost and none is signalled twice. *)
Theorem ssu_output_follows_status cfg s : ssu_reachable cfg s ->
  exists st n, m_sys_status s = safety_code st /\ m_safety_status s = is_error st /\
    m_outputs s = alternate true n /\ (safety_status_bound cfg = true -> is_error st = Nat.odd n).
Proof.
  intros Hr. assert (exists st, moves_to cfg s st) as (st & H1 & H2 & H3).
  { induction Hr as [|s e Hr [st IH] He]; [exists Test; apply initial_moves|].
    eexists. by apply ssu_step_moves. }
  exists st. unfold outputs_ok in H3. destruct (safety_status_bound cfg).
  - destruct H3 as (n & Ho & Hl). exists n. by rewrite <-Hl, <-H2.
  - by exists O.
Qed.

(** * Register file *)

(** The unit keeps the contract of a target. *)
#[refine] Definition ssu_target (cfg : ssu_config) : TlmTarget zena_ssu :=
  word_target REG_BYTES (fun s offset => read32 cfg s (u32 offset))
    (fun offset => write32 cfg (u32 offset)) (trace_access cfg) (ssu_inv cfg) _ _.
Proof.
  - intros offset v s _ _ (st & H1 & H2 & H3). eexists. by apply write32_moves.
  - intros t s (st & H1 & H2 & H3). eexists. by apply trace_moves.
Defined.

(** * A run of the unit *)

Definition example_config : ssu_config := {|
  p_trace := false; p_trace_limit := 64; p_enforce_sys_key := true; p_pidr4 := 0x4; p_pidr0 := 0xd1;
  p_pidr1 := 0xb3; p_pidr2 := 0x0b; p_pidr3 := 0; p_cidr0 := 0x0d; p_cidr1 := 0xf0; p_cidr2 := 0x05;
  p_cidr3 := 0xb1; safety_status_bound := true |}.

(** A critical fault, then a keyed acknowledgement. *)
Definition example_fault : zena_ssu := ssu_step example_config (initial example_config) (FaultLine true true).
Definition example_keyed : zena_ssu :=
  ssu_step example_config example_fault (Transaction false (write_txn SYS_KEY SYS_KEY_VALUE)).

Lemma example_keyed_reachable : ssu_reachable example_config example_keyed.
Proof.
  repeat apply ssu_event_step; [apply ssu_reset|done|]. by apply write_txn_ok.
Qed.

Lemma example_keyed_inv : ssu_inv example_config example_keyed.
Proof.
  assert (m_sys_status example_keyed = safety_code ErrC /\ m_safety_status example_keyed = is_error ErrC)
    as [E1 E2] by (vm_compute; done).
  exists ErrC. split; [exact E1|]. split; [exact E2|]. exists 1%nat. by vm_compute.
Qed.

Lemma ssu_refines_safety_machine_witness :
  let ack := Transaction false (write_txn ERR_STATUS 0xffffffff) in
  event_op example_config example_keyed ack = Acknowledge /\
  m_sys_status (ssu_step example_config example_keyed ack) = SYS_STATUS_SAFE.
Proof.
  cbv zeta. assert (event_op example_config example_keyed
    (Transaction false (write_txn ERR_STATUS 0xffffffff)) = Acknowledge) as E by (vm_compute; reflexivity).
  split; [exact E|].
  pose proof (ssu_refines_safety_machine example_config example_keyed
    (Transaction false (write_txn ERR_STATUS 0xffffffff)) ErrC
    ltac:(by apply write_txn_ok) example_keyed_inv ltac:(vm_compute; reflexivity)) as H.
  rewrite E in H. exact H.
Defined.

Lemma ssu_output_follows_status_witness :
  ssu_reachable example_config example_keyed /\ m_outputs example_keyed = [true] /\
  exists st, m_sys_status example_keyed = safety_code st /\ m_safety_status example_keyed = is_error st.
Proof.
  split; [exact example_keyed_reachable|]. split; [by vm_compute|].
  pose proof (ssu_output_follows_status example_config example_keyed example_keyed_reachable)
    as (st & n & H1 & H2 & _).
  exists st. split; [exact H1|exact H2].
Defined.
