(* ===== verification/RseKmu.v ===== *)
(** The RSE key management unit [rse_kmu]
    (systemc-components/rse_kmu/include/rse_kmu.h): a register file of 32 key
    slots, seven of them loaded from the OTP image at reset, and the export of a
    slot's key over the initiator socket. *)

From Stdlib Require Import String.
From S2P Require Import Prelude Bytes Tlm Memory Access.

(** * Constants *)

Definition REG_BYTES : Z := 0x1000.
Definition KMUBC : Z := 0x000.
Definition KMUIS : Z := 0x004.
Definition KMUIE : Z := 0x008.
Definition KMUIC : Z := 0x00c.
Definition KMUPRBGSI : Z := 0x010.
Definition KMUKSC_BASE : Z := 0x030.
Definition KMUDKPA_BASE : Z := 0x0b0.
Definition KMUKSK_BASE : Z := 0x130.
Definition KMURD_8 : Z := 0x530.
Definition KMURD_16 : Z := 0x534.
Definition KMURD_32 : Z := 0x538.
Definition PIDR4 : Z := 0xfd0.
Definition PIDR0 : Z := 0xfe0.
Definition PIDR1 : Z := 0xfe4.
Definition PIDR2 : Z := 0xfe8.
Definition PIDR3 : Z := 0xfec.
Definition CIDR0 : Z := 0xff0.
Definition CIDR1 : Z := 0xff4.
Definition CIDR2 : Z := 0xff8.
Definition CIDR3 : Z := 0xffc.
Definition SLOT_COUNT : Z := 32.
Definition HW_SLOT_COUNT : Z := 7.
Definition SLOT_WORDS : Z := 8.
Definition WORD_BYTES : Z := 4.
Definition OTP_HW_KEY_BYTES : Z := SLOT_WORDS * WORD_BYTES.
Definition KMUKSC_STRIDE : Z := WORD_BYTES.
Definition KMUDKPA_STRIDE : Z := WORD_BYTES.
Definition KMUKSK_STRIDE : Z := SLOT_WORDS * WORD_BYTES.
Definition KMUIS_KEC : Z := bit 0.
Definition KMUKSC_LKS : Z := bit 22.
Definition KMUKSC_LKSKR : Z := bit 23.
Definition KMUKSC_VKS : Z := bit 24.
Definition KMUKSC_KSR : Z := bit 25.
Definition KMUKSC_IKS : Z := bit 26.
Definition KMUKSC_KSIP : Z := bit 27.
Definition KMUKSC_EK : Z := bit 28.

(** * State *)

(** The configuration; [otp_image] holds the bytes of the image file, or nothing
    when no path is configured or the file cannot be opened. *)
(** [rse_kmu.h: "cci::cci_param<bool> p_trace;" .. "TargetSignalSocket<bool> reset;"] *)
Record kmu_config := {
  p_trace : bool;
  p_trace_limit : Z;
  p_trace_filter : string;
  otp_image : option (list Z);
  p_build_config : Z;
  p_hw_slot_config : Z;
  p_hw_slot_export_address : Z;
  initiator_bound : bool
}.

(** [rse_kmu.h: "std::array<uint8_t, REG_BYTES> m_regs{};" .. "unsigned int m_trace_count = 0;"] *)
Record rse_kmu := MkKmu { m_regs : mem; m_trace_count : Z }.

#[export] Instance eta_rse_kmu : Eta rse_kmu := fun s => MkKmu (m_regs s) (m_trace_count s).

(** [rse_kmu.h: is_slot_reg] *)
Definition is_slot_reg (offset base : Z) : bool :=
  (base <=? offset) && (offset <? base + SLOT_COUNT * WORD_BYTES) &&
  ((offset - base) mod WORD_BYTES =? 0).

(** [rse_kmu.h: is_key_reg] *)
Definition is_key_reg (offset : Z) : bool :=
  (KMUKSK_BASE <=? offset) && (offset <? KMUKSK_BASE + SLOT_COUNT * KMUKSK_STRIDE).

(** [rse_kmu.h: "const std::array<uint32_t, HW_SLOT_COUNT> otp_offsets = {{" .. "}};"] *)
Definition otp_offsets : list Z :=
  [0xffffffff; 0x00000000; 0x00000020; 0x00000040; 0x00000060; 0x00000080; 0x000000a0].

Section rse_kmu.
Context (cfg : kmu_config).

(** The loop over the hardware slots: seek, read, stop at a short read. *)
(** [rse_kmu.h: "for (uint32_t slot = 1; slot < HW_SLOT_COUNT; ++slot) {" .. "<< std::dec << std::endl;"] *)
Fixpoint load_slots (image : list Z) (slots : list Z) (m : mem) : mem :=
  match slots with
  | [] => m
  | slot :: slots =>
      let bytes := take (Z.to_nat OTP_HW_KEY_BYTES) (drop (Z.to_nat (arr_get otp_offsets slot)) image) in
      let m := mem_write (KMUKSK_BASE + slot * KMUKSK_STRIDE) bytes m in
      if negb (Z.of_nat (length bytes) =? OTP_HW_KEY_BYTES) then m else load_slots image slots m
  end.

(** [rse_kmu.h: load_otp_hardware_keys] *)
Definition load_otp_hardware_keys (m : mem) : mem :=
  match otp_image cfg with
  | None => m
  | Some image => load_slots image (seqZ 1 (HW_SLOT_COUNT - 1)) m
  end.

(** [rse_kmu.h: reset_registers] *)
Definition reset_registers (s : rse_kmu) : rse_kmu :=
  let m := store32 KMUBC (p_build_config cfg) ∅ in
  let m := store32 KMUIS 0x00000000 m in
  let m := store32 KMUIE 0x00000000 m in
  let m := store32 KMUIC 0x00000000 m in
  let m := store32 KMUPRBGSI 0x00000000 m in
  let m := foldl (fun m slot =>
             store32 (KMUDKPA_BASE + slot * KMUDKPA_STRIDE) (p_hw_slot_export_address cfg)
               (store32 (KMUKSC_BASE + slot * KMUKSC_STRIDE) (p_hw_slot_config cfg) m))
             m (range HW_SLOT_COUNT) in
  let m := load_otp_hardware_keys m in
  let m := store32 KMURD_8 0x00000000 m in
  let m := store32 KMURD_16 0x00000000 m in
  let m := store32 KMURD_32 0x00000000 m in
  let m := store32 PIDR4 0x00000004 m in
  let m := store32 PIDR0 0x000000f3 m in
  let m := store32 PIDR1 0x000000b0 m in
  let m := store32 PIDR2 0x0000001b m in
  let m := store32 PIDR3 0x00000000 m in
  let m := store32 CIDR0 0x0000000d m in
  let m := store32 CIDR1 0x000000f0 m in
  let m := store32 CIDR2 0x00000005 m in
  let m := store32 CIDR3 0x000000b1 m in
  s <| m_regs := m |>.

(** [rse_kmu.h: doreset] *)
Definition doreset (value : bool) (s : rse_kmu) : rse_kmu := if value then reset_registers s else s.

(** [rse_kmu.h: "explicit rse_kmu" .. "reset.register_value_changed_cb"] *)
Definition initial : rse_kmu := reset_registers (MkKmu ∅ 0).

(** [rse_kmu.h: trace_filter_matches] *)
Definition trace_filter_matches (offset : Z) : bool :=
  let filter := p_trace_filter cfg in
  if (filter =? "")%string || (filter =? "all")%string then true
  else if (filter =? "key")%string then
    (offset =? KMUIS) || (offset =? KMUIC) || is_slot_reg (u32 offset) KMUKSC_BASE ||
    is_slot_reg (u32 offset) KMUDKPA_BASE || is_key_reg (u32 offset)
  else false.

(** [rse_kmu.h: trace_access] *)
Definition trace_access (t : tlm_payload) (s : rse_kmu) : rse_kmu :=
  if negb (p_trace cfg) || (p_trace_limit cfg <=? m_trace_count s) ||
     negb (trace_filter_matches (address t))
  then s else s <| m_trace_count ::= fun n => u32 (n + 1) |>.

(** The unit with the bus behind [initiator_socket]. *)
Section bus.
Context {B : Type} {bus : TlmTarget B}.

(** [rse_kmu.h: mem_write32] *)
Definition mem_write32 (address value : Z) (b : B) : B * bool :=
  if negb (initiator_bound cfg) then (b, false)
  else
    let '(b, t) := target_b_transport tlm_access b (write_request address 4 (le_bytes 4 value)) in
    (b, is_response_ok t).

(** [rse_kmu.h: export_key] *)
Definition export_key (m : mem) (slot : Z) (b : B) : B :=
  let address := load32 m (KMUDKPA_BASE + slot * KMUDKPA_STRIDE) in
  let address := if address =? 0 then p_hw_slot_export_address cfg else address in
  foldl (fun b word =>
           let key_word := load32 m (KMUKSK_BASE + slot * KMUKSK_STRIDE + word * WORD_BYTES) in
           fst (mem_write32 (u64 (address + word * WORD_BYTES)) key_word b))
        b (range SLOT_WORDS).

(** [rse_kmu.h: write_kmuksc] *)
Definition write_kmuksc (offset value : Z) (sb : rse_kmu * B) : rse_kmu * B :=
  let '(s, b) := sb in
  let slot := (offset - KMUKSC_BASE) / KMUKSC_STRIDE in
  let value :=
    if test value KMUKSC_IKS then Z.lor (Z.land value (not32 KMUKSC_IKS)) KMUKSC_KSIP else value in
  let value :=
    if test value KMUKSC_VKS then Z.lor (Z.land value (not32 KMUKSC_VKS)) KMUKSC_KSR else value in
  let '(value, s, b) :=
    if test value KMUKSC_EK then
      let b := export_key (m_regs s) slot b in
      (Z.lor (Z.land value (not32 KMUKSC_EK)) KMUKSC_KSR,
       s <| m_regs ::= fun m => store32 KMUIS (Z.lor (load32 m KMUIS) KMUIS_KEC) m |>, b)
    else (value, s, b) in
  (s <| m_regs ::= store32 offset value |>, b).

(** [case] labels of the registers [write32] ignores. *)
(** [rse_kmu.h: "case KMUBC:" .. "case CIDR3:"] *)
Definition read_only (offset : Z) : bool :=
  existsb (Z.eqb offset) [KMUBC; KMUIS; KMURD_8; KMURD_16; KMURD_32; PIDR4; PIDR0; PIDR1; PIDR2;
    PIDR3; CIDR0; CIDR1; CIDR2; CIDR3].

(** [rse_kmu.h: write32] *)
Definition write32 (offset value : Z) (sb : rse_kmu * B) : rse_kmu * B :=
  let '(s, b) := sb in
  if read_only offset then (s, b)
  else if offset =? KMUIC then
    (s <| m_regs ::= fun m =>
       store32 KMUIC value (store32 KMUIS (Z.land (load32 m KMUIS) (not32 value)) m) |>, b)
  else if (offset =? KMUIE) || (offset =? KMUPRBGSI) then (s <| m_regs ::= store32 offset value |>, b)
  else if is_slot_reg offset KMUKSC_BASE then write_kmuksc offset value (s, b)
  else (s <| m_regs ::= store32 offset value |>, b).

(** [rse_kmu.h: access] *)
Definition access : bool -> rse_kmu * B -> tlm_payload -> (rse_kmu * B) * tlm_payload * bool :=
  regfile_access REG_BYTES (fun sb => m_regs (fst sb))
    (fun f sb => ((fst sb) <| m_regs ::= f |>, snd sb)) write32
    (fun t sb => (trace_access t (fst sb), snd sb)).
End bus.
End rse_kmu.

(** * Request bits *)

(** A request bit [a] that the unit turns into the status bit [b]. *)
Definition move_bit (v a b : Z) : Z :=
  if test v (bit a) then Z.lor (Z.land v (not32 (bit a))) (bit b) else v.

Lemma move_bit_u32 v a b : is_u32 v -> 0 <= a < 32 -> 0 <= b < 32 -> is_u32 (move_bit v a b).
Proof. intros. unfold move_bit. case_if; eauto with uint. Qed.

Lemma move_bit_testbit v a b i : is_u32 v -> 0 <= a < 32 -> 0 <= b < 32 -> a <> b -> 0 <= i ->
  Z.testbit (move_bit v a b) i =
  if i =? a then false else if i =? b then Z.testbit v b || Z.testbit v a else Z.testbit v i.
Proof.
  intros Hv Ha Hb Hne Hi. unfold move_bit. rewrite test_bit by lia.
  destruct (Z.testbit v a) eqn:E.
  - rewrite land_cnot by (done || lia). autorewrite with bits.
    destruct (Z.eqb_spec i a), (Z.eqb_spec i b); subst; try lia; btauto.
  - destruct (Z.eqb_spec i a), (Z.eqb_spec i b); subst; by rewrite ?orb_false_r.
Qed.

(** * The register file *)

Definition kmu_inv (s : rse_kmu) : Prop := mem_ok REG_BYTES (m_regs s).

Section kmu_proofs.
Context (cfg : kmu_config) {B : Type} {bus : TlmTarget B}.

Lemma write_kmuksc_regs offset v (s : rse_kmu) (b : B) : exists v' kmuis,
  m_regs (fst (write_kmuksc cfg offset v (s, b))) = store32 offset v' (m_regs s) \/
  m_regs (fst (write_kmuksc cfg offset v (s, b))) = store32 offset v' (store32 KMUIS kmuis (m_regs s)).
Proof.
  unfold write_kmuksc. set (v1 := if test v KMUKSC_IKS then _ else v).
  set (v2 := if test v1 KMUKSC_VKS then _ else v1). cbv zeta.
  destruct (test v2 KMUKSC_EK); [exists (Z.lor (Z.land v2 (not32 KMUKSC_EK)) KMUKSC_KSR)|exists v2];
    eexists; [by right|by left].
  Unshelve. exact 0.
Qed.

Lemma kmu_write32_inv offset v (sb : rse_kmu * B) :
  0 <= offset -> offset mod 4 = 0 -> offset + 4 <= REG_BYTES -> is_u32 v ->
  kmu_inv (fst sb) -> kmu_inv (fst (write32 cfg offset v sb)).
Proof.
  intros H0 _ H1 _ Hs. destruct sb as [s b]. unfold kmu_inv, write32, REG_BYTES in *. cbn [fst] in Hs.
  destruct (read_only offset); [done|]. repeat case_if; try (cbn; eauto with regs; fail).
  - cbn. unfold KMUIC, KMUIS. eauto with regs.
  - destruct (write_kmuksc_regs offset v s b) as (v' & k & [-> | ->]); unfold KMUIS; eauto with regs.
Qed.

Lemma kmu_trace_access_regs t s : m_regs (trace_access cfg t s) = m_regs s.
Proof. unfold trace_access. by case_if. Qed.

(** The register socket keeps the contract of a target. *)
#[refine] Definition kmu_target : TlmTarget (rse_kmu * B) :=
  regfile_target REG_BYTES (fun sb => m_regs (fst sb))
    (fun f sb => ((fst sb) <| m_regs ::= f |>, snd sb)) (write32 cfg)
    (fun t sb => (trace_access cfg t (fst sb), snd sb)) (fun sb => kmu_inv (fst sb)) _ _ _ _ _.
Proof.
  - by cbv.
  - done.
  - apply kmu_write32_inv.
  - intros f sb Hs Hf. by apply Hf.
  - intros t sb Hs. unfold kmu_inv. cbn. by rewrite kmu_trace_access_regs.
Defined.

(** * Key export *)

Context {mb : MemoryBus B}.

Lemma mem_write32_view address value b : initiator_bound cfg = true ->
  (forall k, 0 <= k < 4 -> bus_serves (address + k)) ->
  let '(b', ok) := mem_write32 cfg address value b in
  ok = true /\ bus_view b' ≈ mem_write address (le_bytes 4 value) (bus_view b).
Proof.
  intros Hb Hs. unfold mem_write32. rewrite Hb. cbn [negb].
  pose proof (bus_write b address 4 (le_bytes 4 value) ltac:(simpl; lia) Hs) as H.
  destruct (target_b_transport _ _ _) as [b' t']. exact H.
Qed.

(** The address a slot's key is exported to. *)
Definition export_address (m : mem) (slot : Z) : Z :=
  let address := load32 m (KMUDKPA_BASE + slot * KMUDKPA_STRIDE) in
  if address =? 0 then p_hw_slot_export_address cfg else address.

Definition key_offset (slot : Z) : Z := KMUKSK_BASE + slot * KMUKSK_STRIDE.

Lemma export_key_view m slot b :
  mem_ok REG_BYTES m -> initiator_bound cfg = true -> is_u32 (p_hw_slot_export_address cfg) ->
  (forall k, 0 <= k < 32 -> bus_serves (export_address m slot + k)) ->
  bus_view (export_key cfg m slot b) ≈
  mem_write (export_address m slot) (mem_read m (key_offset slot) 32) (bus_view b).
Proof.
  intros Hm Hb Hp Hs. unfold export_key. fold (export_address m slot).
  assert (is_u32 (export_address m slot)) as [Ha0 Ha1].
  { unfold export_address. cbv zeta. case_if; [done|by eapply load32_u32]. }
  apply (foldl_range_ind _ (fun k b' => bus_view b' ≈
    mem_write (export_address m slot) (mem_read m (key_offset slot) (4 * k)) (bus_view b)) b 8); [done|done|].
  intros k b' Hk IH. unfold WORD_BYTES. rewrite wrap_small by (split; lia).
  pose proof (mem_write32_view (export_address m slot + k * 4)
    (load32 m (key_offset slot + k * 4)) b' Hb) as Hw.
  destruct (mem_write32 _ _ _ _) as [b'' ok] eqn:E.
  destruct Hw as [_ Hw]; [intros j Hj; rewrite <-Z.add_assoc; apply Hs; lia|].
  cbn [fst]. rewrite Hw, IH, (le_bytes_load32 REG_BYTES) by done.
  replace (4 * (k + 1)) with (4 * k + 4) by lia. rewrite mem_read_app by lia.
  rewrite <-mem_write_app. rewrite mem_read_length by lia.
  by replace (k * 4) with (4 * k) by lia.
Qed.

(** * Slot control writes *)

(** What a slot control register holds after a write of [v]: invalidate and
    verify requests turn into their status bits, an export into slot-ready. *)
Definition slot_control (v : Z) : Z :=
  let v := if test v KMUKSC_IKS then Z.lor (Z.land v (not32 KMUKSC_IKS)) KMUKSC_KSIP else v in
  let v := if test v KMUKSC_VKS then Z.lor (Z.land v (not32 KMUKSC_VKS)) KMUKSC_KSR else v in
  if test v KMUKSC_EK then Z.lor (Z.land v (not32 KMUKSC_EK)) KMUKSC_KSR else v.

(** A slot control register is written so. *)
Lemma write32_control slot v (sb : rse_kmu * B) : 0 <= slot < SLOT_COUNT ->
  write32 cfg (KMUKSC_BASE + slot * 4) v sb = write_kmuksc cfg (KMUKSC_BASE + slot * 4) v sb.
Proof.
  intros Hslot. unfold SLOT_COUNT in Hslot. unfold write32. destruct sb as [s b].
  assert (read_only (KMUKSC_BASE + slot * 4) = false) as ->.
  { unfold read_only. apply not_true_iff_false. rewrite existsb_exists. intros (x & Hx & E).
    apply Z.eqb_eq in E. subst x. unfold KMUKSC_BASE in Hx. simpl in Hx.
    repeat destruct Hx as [Hx|Hx]; try done; revert Hx; cbv - [Z.add Z.mul]; lia. }
  unfold KMUKSC_BASE, KMUIC, KMUIE, KMUPRBGSI, is_slot_reg, SLOT_COUNT, WORD_BYTES.
  replace (0x30 + slot * 4 =? 0xc) with false by lia. replace (_ || _) with false by lia.
  replace (0x30 + slot * 4 - 0x30) with (slot * 4) by lia. rewrite Z.mod_mul by lia.
  replace (_ && _) with true by lia. fold KMUKSC_BASE. done.
Qed.

Lemma write_kmuksc_eq slot v (s : rse_kmu) (b : B) : is_u32 v ->
  write_kmuksc cfg (KMUKSC_BASE + slot * 4) v (s, b) =
  if Z.testbit v 28 then
    (s <| m_regs := store32 (KMUKSC_BASE + slot * 4) (slot_control v)
           (store32 KMUIS (Z.lor (load32 (m_regs s) KMUIS) KMUIS_KEC) (m_regs s)) |>,
     export_key cfg (m_regs s) slot b)
  else (s <| m_regs := store32 (KMUKSC_BASE + slot * 4) (slot_control v) (m_regs s) |>, b).
Proof.
  intros Hv. unfold write_kmuksc, slot_control. unfold KMUKSC_STRIDE, WORD_BYTES.
  replace (KMUKSC_BASE + slot * 4 - KMUKSC_BASE) with (slot * 4) by lia. rewrite Z.div_mul by lia.
  set (v1 := if test v KMUKSC_IKS then _ else v). set (v2 := if test v1 KMUKSC_VKS then _ else v1).
  cbv zeta. assert (test v2 KMUKSC_EK = Z.testbit v 28) as ->.
  { unfold KMUKSC_EK. rewrite test_bit by lia. change v2 with (move_bit (move_bit v 26 27) 24 25).
    by rewrite !move_bit_testbit by (first [apply move_bit_u32|idtac]; done || lia). }
  by destruct (Z.testbit v 28).
Qed.

Lemma slot_control_bits v i : is_u32 v -> 0 <= i ->
  Z.testbit (slot_control v) i =
  if i =? 28 then false
  else if i =? 25 then Z.testbit v 25 || Z.testbit v 24 || Z.testbit v 28
  else if i =? 24 then false
  else if i =? 26 then false
  else if i =? 27 then Z.testbit v 27 || Z.testbit v 26
  else Z.testbit v i.
Proof.
  intros Hv Hi. change (slot_control v) with (move_bit (move_bit (move_bit v 26 27) 24 25) 28 25).
  assert (is_u32 (move_bit v 26 27)) by (apply move_bit_u32; done || lia).
  assert (is_u32 (move_bit (move_bit v 26 27) 24 25)) by (apply move_bit_u32; done || lia).
  rewrite !(move_bit_testbit _ 28 25), !(move_bit_testbit _ 24 25), !(move_bit_testbit _ 26 27) by (done || lia).
  by destruct (i =? 28), (i =? 25).
Qed.
End kmu_proofs.

(** * Reset *)

Lemma range_7 : range HW_SLOT_COUNT = [0; 1; 2; 3; 4; 5; 6].
Proof. reflexivity. Qed.

(** Key bytes lie above the slot tables and below the identification registers. *)
Lemma key_get_store32 off v m i : is_key_reg i = true ->
  off + 4 <= KMUKSK_BASE \/ KMURD_8 <= off -> mem_get (store32 off v m) i = mem_get m i.
Proof.
  intros Hi Hoff. unfold store32. apply mem_get_write_out. rewrite le_bytes_length.
  unfold is_key_reg, KMURD_8, KMUKSK_BASE, SLOT_COUNT, KMUKSK_STRIDE, SLOT_WORDS, WORD_BYTES in *. lia.
Qed.

(** Loading the slots [first..6] from an image that holds all of them. *)
Lemma load_slots_get image first m i :
  (Z.to_nat 0xc0 <= length image)%nat -> 1 <= first <= 7 ->
  mem_get (load_slots image (seqZ first (7 - first)) m) i =
  if (KMUKSK_BASE + first * 32 <=? i) && (i <? KMUKSK_BASE + 7 * 32)
  then default 0 (image !! Z.to_nat (i - (KMUKSK_BASE + 32))) else mem_get m i.
Proof.
  intros Hlen Hfirst. remember (Z.to_nat (7 - first)) as n eqn:En.
  revert first m Hfirst En. induction n as [|n IH]; intros first m Hfirst En.
  { assert (first = 7) as -> by lia. cbn [load_slots]. by replace (_ && _) with false by lia. }
  rewrite seqZ_cons by lia. cbn [load_slots].
  assert (arr_get otp_offsets first = 32 * (first - 1)) as Eo.
  { assert (first = 1 \/ first = 2 \/ first = 3 \/ first = 4 \/ first = 5 \/ first = 6)
      as [->|[->|[->|[->|[->| ->]]]]] by lia; reflexivity. }
  rewrite Eo. set (bytes := take _ _).
  assert (Z.of_nat (length bytes) = 32) as Eb.
  { unfold bytes. rewrite length_take, length_drop. unfold OTP_HW_KEY_BYTES, SLOT_WORDS, WORD_BYTES. lia. }
  rewrite Eb. change (negb (32 =? OTP_HW_KEY_BYTES)) with false. cbv iota.
  replace (Z.succ first) with (first + 1) by lia. replace (Z.pred (7 - first)) with (7 - (first + 1)) by lia.
  rewrite IH by lia. rewrite mem_get_write, Eb. unfold KMUKSK_STRIDE, SLOT_WORDS, WORD_BYTES.
  destruct (Z.leb_spec (KMUKSK_BASE + (first + 1) * 32) i); cbn [andb].
  - replace (KMUKSK_BASE + first * 32 <=? i) with true by lia. cbn [andb].
    destruct (i <? KMUKSK_BASE + 7 * 32); [done|]. by replace (_ && _) with false by lia.
  - replace (i <? KMUKSK_BASE + first * (8 * 4) + 32) with true by lia.
    replace (KMUKSK_BASE + first * (8 * 4)) with (KMUKSK_BASE + first * 32) by lia.
    replace (i <? KMUKSK_BASE + 7 * 32) with true by lia. rewrite !andb_true_r.
    destruct (Z.leb_spec (KMUKSK_BASE + first * 32) i); [|done].
    unfold bytes. rewrite lookup_take_lt, lookup_drop by (unfold OTP_HW_KEY_BYTES, SLOT_WORDS, WORD_BYTES; lia).
    do 2 f_equal. lia.
Qed.

Lemma get_foldl_unchanged {A} (f : mem -> A -> mem) l m i :
  (forall m x, x ∈ l -> mem_get (f m x) i = mem_get m i) -> mem_get (foldl f m l) i = mem_get m i.
Proof.
  revert m. induction l as [|x l IH]; intros m Hf; [done|]. cbn [foldl].
  rewrite IH by (intros; apply Hf; by apply list_elem_of_further). apply Hf, list_elem_of_here.
Qed.

Lemma load_slots_ok image slots m : bytes_ok image -> Forall (fun slot => 0 <= slot < 7) slots ->
  mem_ok REG_BYTES m -> mem_ok REG_BYTES (load_slots image slots m).
Proof.
  intros Him Hs. revert m. induction Hs as [|slot slots Hslot _ IH]; intros m Hm; [done|].
  cbn [load_slots]. set (bytes := take _ _).
  assert (mem_ok REG_BYTES (mem_write (KMUKSK_BASE + slot * KMUKSK_STRIDE) bytes m)) as Hw.
  { assert (length bytes <= 32)%nat by (unfold bytes; rewrite length_take; cbv [OTP_HW_KEY_BYTES SLOT_WORDS WORD_BYTES]; lia).
    unfold KMUKSK_BASE, KMUKSK_STRIDE, SLOT_WORDS, WORD_BYTES, REG_BYTES in *.
    apply mem_ok_write; [done|by apply Forall_take, Forall_drop|lia|lia]. }
  case_if; [done|by apply IH].
Qed.

(** Reset establishes the memory-safety invariant. *)
Lemma reset_inv cfg s : match otp_image cfg with Some image => bytes_ok image | None => True end ->
  kmu_inv (reset_registers cfg s).
Proof.
  intros Him. unfold kmu_inv, reset_registers, load_otp_hardware_keys. cbv zeta. cbn [m_regs set_field].
  do 12 (apply mem_ok_store32; [|by cbv|by cbv]).
  assert (mem_ok REG_BYTES (foldl (fun m slot =>
    store32 (KMUDKPA_BASE + slot * KMUDKPA_STRIDE) (p_hw_slot_export_address cfg)
      (store32 (KMUKSC_BASE + slot * KMUKSC_STRIDE) (p_hw_slot_config cfg) m))
    (store32 KMUPRBGSI 0 (store32 KMUIC 0 (store32 KMUIE 0 (store32 KMUIS 0
      (store32 KMUBC (p_build_config cfg) ∅))))) (range HW_SLOT_COUNT))) as Hm.
  { rewrite range_7. cbn [foldl]. repeat (apply mem_ok_store32; [|by cbv|by cbv]). apply mem_ok_empty. }
  destruct (otp_image cfg) as [image|]; [|done]. apply load_slots_ok; [done| |done].
  cbv. repeat constructor; congruence.
Qed.

(** Reset loads exactly the provisioned keys.  Whatever the unit held
    before, after a reset with a complete OTP image the key of each of the
    hardware slots 1 to 6 is the 32-byte field of the image at (slot - 1) * 32,
    and every other key byte - slot 0 and the software slots - is zero. *)
Theorem kmu_reset_loads_keys cfg s image i :
  otp_image cfg = Some image -> (Z.to_nat 0xc0 <= length image)%nat -> is_key_reg i = true ->
  mem_get (m_regs (doreset cfg true s)) i =
  let slot := (i - KMUKSK_BASE) / 32 in
  if (1 <=? slot) && (slot <=? 6)
  then default 0 (image !! Z.to_nat ((slot - 1) * 32 + (i - KMUKSK_BASE) mod 32)) else 0.
Proof.
  intros Him Hlen Hi. unfold doreset, reset_registers, load_otp_hardware_keys. rewrite Him. cbv zeta.
  cbn [m_regs set_field]. do 12 rewrite key_get_store32 by (done || (right; by cbv)).
  change (seqZ 1 (HW_SLOT_COUNT - 1)) with (seqZ 1 (7 - 1)). rewrite load_slots_get by (done || lia).
  rewrite get_foldl_unchanged.
  2:{ intros m slot Hs%elem_of_range. unfold HW_SLOT_COUNT in Hs.
      unfold KMUDKPA_BASE, KMUDKPA_STRIDE, KMUKSC_BASE, KMUKSC_STRIDE, WORD_BYTES.
      by rewrite !key_get_store32 by (done || unfold KMUKSK_BASE; lia). }
  do 5 rewrite key_get_store32 by (done || (left; by cbv)).
  change (mem_get ∅ i) with 0. set (d := i - KMUKSK_BASE).
  pose proof (Z.div_mod d 32 ltac:(lia)). pose proof (Z.mod_pos_bound d 32 ltac:(lia)).
  replace ((KMUKSK_BASE + 1 * 32 <=? i) && (i <? KMUKSK_BASE + 7 * 32)) with
    ((1 <=? d / 32) && (d / 32 <=? 6)) by (unfold d in *; lia).
  case_if; [|done]. do 2 f_equal. unfold d in *. lia.
Qed.

(** * Export *)

(** Key export.  With memory behind the initiator socket, writing a slot
    control register with the export bit copies the slot's 32 key bytes to the
    slot's export address and nothing else, reports completion in KMUIS, turns
    the request into the slot-ready bit and leaves every key in place; without
    the export bit the bus sees nothing. *)
Theorem kmu_export_key {B} {bus : TlmTarget B} {mb : MemoryBus B} cfg (s : rse_kmu) (b : B) slot v :
  kmu_inv s -> is_u32 v -> 0 <= slot < SLOT_COUNT -> initiator_bound cfg = true ->
  is_u32 (p_hw_slot_export_address cfg) ->
  (forall k, 0 <= k < 32 -> bus_serves (export_address cfg (m_regs s) slot + k)) ->
  let '(s', b') := write32 cfg (KMUKSC_BASE + slot * 4) v (s, b) in
  let a := export_address cfg (m_regs s) slot in
  (if Z.testbit v 28 then
     mem_read (bus_view b') a 32 = mem_read (m_regs s) (key_offset slot) 32 /\
     (forall i, i < a \/ a + 32 <= i -> mem_get (bus_view b') i = mem_get (bus_view b) i) /\
     Z.testbit (load32 (m_regs s') KMUIS) 0 = true
   else b' = b) /\
  (forall i, is_key_reg i = true -> mem_get (m_regs s') i = mem_get (m_regs s) i) /\
  load32 (m_regs s') (KMUKSC_BASE + slot * 4) = slot_control v /\
  Z.testbit (slot_control v) 28 = false /\
  (Z.testbit v 28 = true -> Z.testbit (slot_control v) 25 = true).
Proof.
  intros Hs Hv Hslot Hb Hp Hserve. rewrite write32_control by done. unfold SLOT_COUNT in Hslot.
  assert (is_u32 (slot_control v)) as Hc.
  { change (slot_control v) with (move_bit (move_bit (move_bit v 26 27) 24 25) 28 25).
    repeat apply move_bit_u32; done || lia. }
  assert (forall w m i, is_key_reg i = true ->
    mem_get (store32 (KMUKSC_BASE + slot * 4) w m) i = mem_get m i) as Hkey.
  { intros w m i Hi. apply key_get_store32; [done|]. unfold KMUKSC_BASE, KMUKSK_BASE. lia. }
  rewrite write_kmuksc_eq by done. destruct (Z.testbit v 28) eqn:E28; cbn [m_regs set_field].
  - split; [split; [|split]|split; [|split]].
    + rewrite export_key_view by done. apply mem_read_write_eq. by rewrite mem_read_length by lia.
    + intros i Hi. rewrite export_key_view by done. apply mem_get_write_out.
      by rewrite mem_read_length by lia.
    + rewrite load32_store32_ne by (unfold KMUKSC_BASE, KMUIS; lia).
      rewrite load32_store32_eq by (apply lor_uint; [lia|by eapply load32_u32|by cbv]).
      by rewrite Z.lor_spec, orb_true_r.
    + intros i Hi. rewrite Hkey by done. apply key_get_store32; [done|left; by cbv].
    + by apply load32_store32_eq.
    + split; [by rewrite slot_control_bits by (done || lia)|]. intros _.
      rewrite slot_control_bits by (done || lia).
      transitivity (Z.testbit v 25 || Z.testbit v 24 || Z.testbit v 28); [done|].
      by rewrite E28, orb_true_r.
  - split; [done|]. split; [by intros; apply Hkey|]. split; [by apply load32_store32_eq|].
    split; [by rewrite slot_control_bits by (done || lia)|done].
Qed.

(** * A unit over a small memory *)

Definition example_config : kmu_config := {|
  p_trace := false; p_trace_limit := 64; p_trace_filter := "all";
  otp_image := Some (map (fun i => i mod 251) (range 0x100)); p_build_config := 0x003d0005;
  p_hw_slot_config := 0x00d60100; p_hw_slot_export_address := 0x400; initiator_bound := true |}.

Lemma kmu_reset_loads_keys_witness :
  is_key_reg (KMUKSK_BASE + 2 * 32 + 5) = true /\
  mem_get (m_regs (doreset example_config true (MkKmu ∅ 0))) (KMUKSK_BASE + 2 * 32 + 5) = 37.
Proof.
  split; [reflexivity|].
  pose proof (kmu_reset_loads_keys example_config (MkKmu ∅ 0) _ (KMUKSK_BASE + 2 * 32 + 5)
    eq_refl ltac:(vm_compute; lia) eq_refl) as H.
  exact H.
Defined.

Lemma kmu_example_inv : kmu_inv (initial example_config).
Proof.
  apply (reset_inv example_config (MkKmu ∅ 0)). apply Forall_fmap, Forall_true. intros i.
  pose proof (Z.mod_pos_bound i 251 ltac:(lia)). split; cbn; lia.
Qed.

(** Slot 1 exports its key to 0x400 of a 4 KiB memory. *)
Lemma kmu_export_key_witness :
  let r := write32 (bus := ram 0x1000) example_config (KMUKSC_BASE + 1 * 4) 0x10000000
             (initial example_config, (∅ : mem)) in
  kmu_inv (initial example_config) /\
  mem_read (snd r) 0x400 32 = mem_read (m_regs (initial example_config)) (key_offset 1) 32.
Proof.
  cbv zeta. split; [exact kmu_example_inv|].
  assert (export_address example_config (m_regs (initial example_config)) 1 = 0x400) as Ea by (vm_compute; reflexivity).
  pose proof (kmu_export_key (bus := ram 0x1000) (mb := ram_bus 0x1000) example_config
    (initial example_config) ∅ 1 0x10000000 kmu_example_inv ltac:(by split) ltac:(by split)
    ltac:(reflexivity) ltac:(by split)) as H.
  rewrite Ea in H. specialize (H ltac:(intros k Hk; cbn; lia)).
  destruct (write32 _ _ _ _) as [s' b']. destruct H as [[H _] _]. exact H.
Defined.
