(* ===== verification/RseLcm.v ===== *)
(** The RSE lifecycle manager [rse_lcm]
    (systemc-components/rse_lcm/include/rse_lcm.h): the lifecycle state
    register, the one-time-programmable window whose bits can only be set, the
    lock taken after provisioning, and the write-back of the window to its image
    file. *)

From Stdlib Require Import String.
From S2P Require Import Prelude Bytes Tlm Memory Access.

(** * Constants *)

Definition REG_BYTES : Z := 0x11000.
Definition LCS_VALUE : Z := 0x000.
Definition KEY_ERR : Z := 0x004.
Definition TP_MODE : Z := 0x008.
Definition FATAL_ERR : Z := 0x00c.
Definition SP_ENABLE : Z := 0x014.
Definition OTP_ADDR_WIDTH : Z := 0x018.
Definition OTP_SIZE : Z := 0x01c.
Definition GPPC : Z := 0x020.
Definition DCU_EN : Z := 0x100.
Definition DCU_LOCK : Z := 0x110.
Definition OTP_WINDOW : Z := 0x1000.
Definition LCS_CM : Z := 0xcccc3c3c.
Definition LCS_DM : Z := 0xdddd5a5a.
Definition LCS_SE : Z := 0xeeeea5a5.
Definition LCM_TRUE : Z := 0xffffffff.
Definition SP_ENABLE_MAGIC : Z := 0x5ec10e1e.
Definition OTP_CM_CONFIG_2 : Z := 0x0e8.
Definition OTP_DM_CONFIG : Z := 0x0ec.

(** * State *)

(** The configuration; [otp_file_writable] says whether the host lets the unit
    create and write the image file. *)
(** [rse_lcm.h: "cci::cci_param<bool> p_trace;" .. "cci::cci_param<bool> p_otp_lock_after_provision;"] *)
Record lcm_config := {
  p_trace : bool;
  p_trace_limit : Z;
  p_otp_image : string;
  p_lcs : Z;
  p_tp_mode : Z;
  p_sp_enable : Z;
  p_otp_size : Z;
  p_gppc : Z;
  p_otp_writeback : bool;
  p_otp_lock_after_provision : bool;
  otp_file_writable : bool
}.

(** [otp_file] is the content of the image file, or nothing when it does not exist. *)
(** [rse_lcm.h: "std::array<uint8_t, REG_BYTES> m_regs{};" .. "unsigned int m_trace_count = 0;"] *)
Record rse_lcm := MkLcm {
  m_regs : mem;
  m_otp_locked : bool;
  m_trace_count : Z;
  otp_file : option (list Z)
}.

#[export] Instance eta_rse_lcm : Eta rse_lcm := fun s =>
  MkLcm (m_regs s) (m_otp_locked s) (m_trace_count s) (otp_file s).

(** [rse_lcm.h: range_includes] *)
Definition range_includes (offset len word_offset : Z) : bool :=
  (offset <=? word_offset) && (word_offset + 4 <=? u64 (offset + len)).

(** [m_regs[offset + i] |= data[i]] for the bytes of [data]. *)
(** [rse_lcm.h: "for (unsigned int i = 0; i < len; ++i) {" .. "m_regs[offset + i] |= data[i];"] *)
Fixpoint mem_or (offset : Z) (data : list Z) (m : mem) : mem :=
  match data with
  | [] => m
  | b :: data => mem_or (offset + 1) data (<[offset := Z.lor (mem_get m offset) b]> m)
  end.

Section rse_lcm.
Context (cfg : lcm_config).

(** [rse_lcm.h: otp_limit] *)
Definition otp_limit : Z :=
  let configured_size := p_otp_size cfg in
  let max_size := REG_BYTES - OTP_WINDOW in
  OTP_WINDOW + Z.min configured_size max_size.

(** [rse_lcm.h: is_otp_access] *)
Definition is_otp_access (offset len : Z) : bool :=
  (OTP_WINDOW <=? offset) && (u64 (offset + len) <=? otp_limit).

(** [rse_lcm.h: update_lcs_from_otp_write] *)
Definition update_lcs_from_otp_write (otp_offset len : Z) (s : rse_lcm) : rse_lcm :=
  let s :=
    if range_includes otp_offset len OTP_CM_CONFIG_2 && (load32 (m_regs s) LCS_VALUE =? LCS_CM)
    then s <| m_regs ::= store32 LCS_VALUE LCS_DM |> else s in
  if range_includes otp_offset len OTP_DM_CONFIG && (load32 (m_regs s) LCS_VALUE =? LCS_DM) then
    let s := s <| m_regs ::= store32 LCS_VALUE LCS_SE |> in
    if p_otp_lock_after_provision cfg then s <| m_otp_locked := true |> else s
  else s.

(** [rse_lcm.h: flush_otp_image] *)
Definition flush_otp_image (s : rse_lcm) : rse_lcm :=
  if negb (p_otp_writeback cfg) then s
  else if (p_otp_image cfg =? "")%string then s
  else
    let bytes := otp_limit - OTP_WINDOW in
    let window := mem_read (m_regs s) OTP_WINDOW bytes in
    if negb (otp_file_writable cfg) then s
    else
      match otp_file s with
      | None => s <| otp_file := Some window |>
      | Some file => s <| otp_file := Some (put_data window file) |>
      end.

(** [rse_lcm.h: write_otp] *)
Definition write_otp (offset len : Z) (data : list Z) (s : rse_lcm) : bool * rse_lcm :=
  if negb (is_otp_access offset len) then (false, s)
  else if m_otp_locked s then (true, s)
  else
    let s := s <| m_regs ::= mem_or offset (get_data len data) |> in
    let s := update_lcs_from_otp_write (offset - OTP_WINDOW) len s in
    (true, flush_otp_image s).

(** [rse_lcm.h: load_otp_image] *)
Definition load_otp_image (s : rse_lcm) : rse_lcm :=
  if (p_otp_image cfg =? "")%string then s
  else
    match otp_file s with
    | None => s
    | Some file =>
        s <| m_regs ::= mem_write OTP_WINDOW (take (Z.to_nat (REG_BYTES - OTP_WINDOW)) file) |>
    end.

(** [rse_lcm.h: reset_registers] *)
Definition reset_registers (s : rse_lcm) : rse_lcm :=
  let m := store32 LCS_VALUE (p_lcs cfg) ∅ in
  let m := store32 KEY_ERR 0x00000000 m in
  let m := store32 TP_MODE (p_tp_mode cfg) m in
  let m := store32 FATAL_ERR 0x00000000 m in
  let m := store32 SP_ENABLE (p_sp_enable cfg) m in
  let m := store32 OTP_ADDR_WIDTH 0x00000010 m in
  let m := store32 OTP_SIZE (p_otp_size cfg) m in
  let m := store32 GPPC (p_gppc cfg) m in
  let m := foldl (fun m i =>
             store32 (DCU_LOCK + i * 4) 0x00000000 (store32 (DCU_EN + i * 4) 0xffffffff m))
             m (range 4) in
  load_otp_image (s <| m_regs := m |> <| m_otp_locked := false |>).

(** [rse_lcm.h: "explicit rse_lcm" .. "target_socket.register_transport_dbg"] *)
Definition initial (file : option (list Z)) : rse_lcm := reset_registers (MkLcm ∅ false 0 file).

(** [rse_lcm.h: write32] *)
Definition write32 (offset value : Z) (s : rse_lcm) : rse_lcm :=
  if (offset =? LCS_VALUE) || (offset =? KEY_ERR) || (offset =? TP_MODE) ||
     (offset =? OTP_ADDR_WIDTH) || (offset =? OTP_SIZE) || (offset =? GPPC) then s
  else if offset =? SP_ENABLE then
    if value =? SP_ENABLE_MAGIC then
      let s := s <| m_regs ::= store32 SP_ENABLE LCM_TRUE |> in
      if p_otp_lock_after_provision cfg then s <| m_otp_locked := true |> else s
    else s <| m_regs ::= store32 SP_ENABLE value |>
  else s <| m_regs ::= store32 offset value |>.

(** What [access] does with the bytes of a write. *)
(** [rse_lcm.h: "if (write_otp(offset, data, len)) {" .. "std::memcpy(&m_regs[offset], data, len);"] *)
Definition write_data (offset len : Z) (data : list Z) (s : rse_lcm) : rse_lcm :=
  let '(handled, s) := write_otp offset len data s in
  if handled then s
  else regfile_write (fun f s => s <| m_regs ::= f |>) write32 offset len data s.

(** [rse_lcm.h: trace_access] *)
Definition trace_access (t : tlm_payload) (s : rse_lcm) : rse_lcm :=
  if negb (p_trace cfg) || (p_trace_limit cfg <=? m_trace_count s) then s
  else s <| m_trace_count ::= fun n => u32 (n + 1) |>.

(** [rse_lcm.h: access] *)
Definition access : bool -> rse_lcm -> tlm_payload -> rse_lcm * tlm_payload * bool :=
  array_access REG_BYTES m_regs (fun _ => write_data) trace_access.
End rse_lcm.

(** * The one-time-programmable window *)

Lemma mem_get_or off bs m i :
  mem_get (mem_or off bs m) i =
  if (off <=? i) && (i <? off + Z.of_nat (length bs))
  then Z.lor (mem_get m i) (default 0 (bs !! Z.to_nat (i - off))) else mem_get m i.
Proof.
  revert off m. induction bs as [|b bs IH]; intros off m; cbn [mem_or].
  - change (Z.of_nat (length [])) with 0. by replace (_ && _) with false by lia.
  - rewrite IH. clear IH. destruct (Z.eq_dec i off) as [->|Hne].
    + replace (off + 1 <=? off) with false by lia. replace (off <=? off) with true by lia.
      cbn [andb]. replace (off <? _) with true by (cbn [length]; lia). rewrite Z.sub_diag.
      unfold mem_get at 1. by rewrite lookup_insert_eq.
    + assert (mem_get (<[off := Z.lor (mem_get m off) b]> m) i = mem_get m i) as ->.
      { unfold mem_get at 1. by rewrite lookup_insert_ne by done. }
      replace ((off + 1 <=? i) && _) with ((off <=? i) && (i <? off + Z.of_nat (length (b :: bs))))
        by (cbn [length]; lia).
      destruct (Z.leb_spec off i); cbn [andb]; [|done]. case_if; [|done].
      by replace (Z.to_nat (i - off)) with (S (Z.to_nat (i - (off + 1)))) by lia.
Qed.

Lemma mem_ok_or size off bs m : mem_ok size m -> bytes_ok bs -> 0 <= off ->
  off + Z.of_nat (length bs) <= size -> mem_ok size (mem_or off bs m).
Proof.
  intros Hm Hbs. revert off m Hm. induction Hbs as [|b bs Hb _ IH]; intros off m Hm H0 H1; [done|].
  cbn [mem_or length] in *. apply IH; try lia. intros i c Hc. destruct (Z.eq_dec i off) as [->|Hne].
  - rewrite lookup_insert_eq in Hc. injection Hc as <-. split; [lia|].
    apply lor_uint; [lia|by eapply mem_get_u8|done].
  - rewrite lookup_insert_ne in Hc by done. by apply Hm.
Qed.

Lemma load32_or_ne off bs off' m : off' + 4 <= off ->
  load32 (mem_or off bs m) off' = load32 m off'.
Proof.
  intros Hdis. unfold load32. f_equal. apply mem_read_ext. intros k Hk. rewrite mem_get_or.
  by replace (_ && _) with false by lia.
Qed.

Lemma mem_get_store32_ne off v m i : i < off \/ off + 4 <= i ->
  mem_get (store32 off v m) i = mem_get m i.
Proof. intros Hi. unfold store32. apply mem_get_write_out. rewrite le_bytes_length. lia. Qed.

Definition lcm_inv (s : rse_lcm) : Prop := mem_ok REG_BYTES (m_regs s).

Section lcm_proofs.
Context (cfg : lcm_config).
Hypothesis otp_size_range : 0 <= p_otp_size cfg.

Lemma otp_limit_range : OTP_WINDOW <= otp_limit cfg <= REG_BYTES.
Proof. unfold otp_limit, OTP_WINDOW, REG_BYTES in *. lia. Qed.

(** The lifecycle update touches the LCS register and the lock only. *)
Lemma update_lcs_get o len s i : 4 <= i ->
  mem_get (m_regs (update_lcs_from_otp_write cfg o len s)) i = mem_get (m_regs s) i.
Proof.
  intros Hi. unfold update_lcs_from_otp_write. cbv zeta. unfold LCS_VALUE.
  repeat case_if; cbn; rewrite ?mem_get_store32_ne by lia; done.
Qed.

Lemma update_lcs_ok o len s : lcm_inv s -> lcm_inv (update_lcs_from_otp_write cfg o len s).
Proof.
  intros Hs. unfold lcm_inv, update_lcs_from_otp_write, LCS_VALUE, REG_BYTES in *. cbv zeta.
  repeat case_if; cbn; eauto with regs.
Qed.

Lemma flush_regs s : m_regs (flush_otp_image cfg s) = m_regs s /\
  m_otp_locked (flush_otp_image cfg s) = m_otp_locked s.
Proof. unfold flush_otp_image. repeat (case_if; [done|]). by destruct (otp_file s). Qed.

Lemma lcm_trace_access_regs t s : m_regs (trace_access cfg t s) = m_regs s /\
  m_otp_locked (trace_access cfg t s) = m_otp_locked s.
Proof. unfold trace_access. by case_if. Qed.

Lemma write32_regs offset v s : exists w,
  m_regs (write32 cfg offset v s) = m_regs s \/ m_regs (write32 cfg offset v s) = store32 offset w (m_regs s).
Proof.
  unfold write32. destruct (_ || (offset =? GPPC)); [by exists 0; left|].
  destruct (Z.eqb_spec offset SP_ENABLE) as [->|]; [|by exists v; right].
  destruct (v =? SP_ENABLE_MAGIC); [exists LCM_TRUE|by exists v; right]. right. by case_if.
Qed.

Lemma write_data_inv offset len d s :
  lcm_inv s -> 0 <= offset -> offset + len <= REG_BYTES -> is_supported_length len = true ->
  len <= Z.of_nat (length d) -> bytes_ok d -> lcm_inv (write_data cfg offset len d s).
Proof.
  intros Hs H0 H1 Hl Hd Hok. pose proof (supported_length_range _ Hl). unfold write_data, write_otp.
  destruct (negb (is_otp_access cfg offset len)).
  - apply (regfile_write_inv REG_BYTES); try done.
    + intros off v s' Ho _ Ho' _ Hs'. unfold lcm_inv, REG_BYTES in *.
      destruct (write32_regs off v s') as (w & [-> | ->]); eauto with regs.
    + intros f s' Hs' Hf. by apply Hf.
  - destruct (m_otp_locked s); [done|]. unfold lcm_inv. destruct (flush_regs
      (update_lcs_from_otp_write cfg (offset - OTP_WINDOW) len
        (s <| m_regs ::= mem_or offset (get_data len d) |>))) as [-> _].
    apply update_lcs_ok. unfold lcm_inv. cbn. apply mem_ok_or; [done|by apply get_data_ok|done|].
    rewrite get_data_length; lia.
Qed.

(** The unit keeps the contract of a target. *)
#[refine] Definition lcm_target : TlmTarget rse_lcm :=
  array_target REG_BYTES m_regs (fun _ => write_data cfg) (trace_access cfg) lcm_inv _
    (fun _ => write_data_inv) _.
Proof.
  - done.
  - intros t s Hs. unfold lcm_inv. by destruct (lcm_trace_access_regs t s) as [-> _].
Defined.
End lcm_proofs.

(** * Accesses that respect the window boundary *)

Section lcm_window.
Context (cfg : lcm_config).
Hypothesis otp_size_range : 0 <= p_otp_size cfg.

(** An access that lies wholly inside or wholly outside the OTP window. *)
Definition respects_window (t : tlm_payload) : Prop :=
  address t + data_length t <= OTP_WINDOW \/ otp_limit cfg <= address t \/
  (OTP_WINDOW <= address t /\ address t + data_length t <= otp_limit cfg).

Lemma is_otp_access_spec t : payload_ok t ->
  is_otp_access cfg (address t) (data_length t) = true <->
  OTP_WINDOW <= address t /\ address t + data_length t <= otp_limit cfg.
Proof.
  intros (H0 & [H1 _] & H2 & _). unfold is_otp_access. rewrite wrap_small by (split; lia). lia.
Qed.

(** A write outside the window leaves the window alone. *)
Lemma outside_write_get offset len d s i :
  0 <= len <= Z.of_nat (length d) -> is_u32 offset -> OTP_WINDOW <= i < otp_limit cfg ->
  offset + len <= OTP_WINDOW \/ otp_limit cfg <= offset ->
  mem_get (m_regs (regfile_write (fun f s => s <| m_regs ::= f |>) (write32 cfg) offset len d s)) i =
  mem_get (m_regs s) i.
Proof.
  intros Hlen Ho Hi Hout. unfold regfile_write. rewrite wrap_small by done. case_if; bool_hyps.
  - subst len. destruct (write32_regs cfg offset (le_val (get_data 4 d)) s) as (w & [-> | ->]); [done|].
    apply mem_get_store32_ne. lia.
  - cbn. apply mem_get_write_out. rewrite get_data_length by lia. lia.
Qed.

Lemma write_data_get offset len d s i :
  0 <= len <= Z.of_nat (length d) -> 0 <= offset -> offset + len <= REG_BYTES ->
  OTP_WINDOW <= i < otp_limit cfg ->
  offset + len <= OTP_WINDOW \/ otp_limit cfg <= offset \/
    (OTP_WINDOW <= offset /\ offset + len <= otp_limit cfg) ->
  mem_get (m_regs (write_data cfg offset len d s)) i =
  if negb (m_otp_locked s) && (offset <=? i) && (i <? offset + len)
  then Z.lor (mem_get (m_regs s) i) (default 0 (d !! Z.to_nat (i - offset)))
  else mem_get (m_regs s) i.
Proof.
  intros Hlen H0 H1 Hi Hout. pose proof (otp_limit_range cfg otp_size_range).
  unfold write_data, write_otp, is_otp_access. unfold REG_BYTES in *.
  rewrite wrap_small by (split; lia). destruct (_ && (offset + len <=? _)) eqn:Ein; cbn [negb].
  - destruct (m_otp_locked s); [done|]. cbn [negb andb].
    destruct (flush_regs cfg (update_lcs_from_otp_write cfg (offset - OTP_WINDOW) len
        (s <| m_regs ::= mem_or offset (get_data len d) |>))) as [-> _].
    rewrite update_lcs_get by (unfold OTP_WINDOW in *; lia). cbn. rewrite mem_get_or.
    rewrite get_data_length by lia. case_if; [|done]. do 2 f_equal.
    unfold get_data. rewrite lookup_take_lt by lia. done.
  - rewrite outside_write_get by (first [done|lia|split; lia]).
    case_if; [lia|done].
Qed.
End lcm_window.

(** C23. The OTP window is write-once.  For every transaction that does not
    straddle the window's ends, each bit of the window that was set stays set, a
    write ORs exactly its own bytes in, a read changes nothing, and once the
    window is locked no byte of it changes. *)
Theorem lcm_otp_write_once cfg dbg s t s' t' ok i :
  0 <= p_otp_size cfg -> payload_ok t -> respects_window cfg t ->
  OTP_WINDOW <= i < otp_limit cfg ->
  access cfg dbg s t = (s', t', ok) ->
  (forall k, Z.testbit (mem_get (m_regs s) i) k = true -> Z.testbit (mem_get (m_regs s') i) k = true) /\
  mem_get (m_regs s') i =
    match command t, data_ptr t with
    | TLM_WRITE_COMMAND, Some d =>
        if ok && negb (m_otp_locked s) && (address t <=? i) && (i <? address t + data_length t)
        then Z.lor (mem_get (m_regs s) i) (default 0 (d !! Z.to_nat (i - address t)))
        else mem_get (m_regs s) i
    | _, _ => mem_get (m_regs s) i
    end.
Proof.
  intros Hsz Ht Hw Hi H.
  assert (mem_get (m_regs s') i = match command t, data_ptr t with
    | TLM_WRITE_COMMAND, Some d =>
        if ok && negb (m_otp_locked s) && (address t <=? i) && (i <? address t + data_length t)
        then Z.lor (mem_get (m_regs s) i) (default 0 (d !! Z.to_nat (i - address t)))
        else mem_get (m_regs s) i
    | _, _ => mem_get (m_regs s) i
    end) as E.
  { destruct (array_access_cases _ _ _ _ _ _ _ _ _ _ H)
      as [(-> & -> & _)|[(d & -> & Ed & Ec & _ & _ & -> & _)|(d & -> & Ed & Ec & Hl & Hr & -> & _)]].
    - by destruct (command t), (data_ptr t).
    - rewrite Ec. by destruct (lcm_trace_access_regs cfg
        (t <| data_ptr := Some (put_data (mem_read (m_regs s) (address t) (data_length t)) d) |>) s) as [-> _].
    - rewrite Ec, Ed. destruct (lcm_trace_access_regs cfg t (write_data cfg (address t) (data_length t) d s)) as [-> _].
      destruct (access_in_range _ t Ht Hr). pose proof Ht as (_ & [? _] & _ & Hd). rewrite Ed in Hd.
      apply write_data_get; [done|lia|done|done|done|exact Hw]. }
  split; [|exact E]. intros k Hk. rewrite E. destruct (command t), (data_ptr t); try done.
  case_if; [|done]. by rewrite Z.lor_spec, Hk.
Qed.

(** * Lifecycle *)

Definition lcs (s : rse_lcm) : Z := load32 (m_regs s) LCS_VALUE.

Inductive lifecycle_step : Z -> Z -> Prop :=
| provision_cm : lifecycle_step LCS_CM LCS_DM
| provision_dm : lifecycle_step LCS_DM LCS_SE.

(** Register writes as words, OTP writes as the window demands, reads at will. *)
Definition well_formed (cfg : lcm_config) (t : tlm_payload) : Prop :=
  command t = TLM_WRITE_COMMAND ->
  (OTP_WINDOW <= address t /\ address t + data_length t <= otp_limit cfg) \/
  (data_length t = 4 /\ address t mod 4 = 0).

(** [lcm_run cfg s s']: well-formed transactions lead from [s] to [s']. *)
Inductive lcm_run (cfg : lcm_config) (s : rse_lcm) : rse_lcm -> Prop :=
| lcm_run_refl : lcm_run cfg s s
| lcm_run_step dbg s1 t s2 t' ok : lcm_run cfg s s1 -> payload_ok t -> well_formed cfg t ->
    access cfg dbg s1 t = (s2, t', ok) -> lcm_run cfg s s2.

Section lifecycle.
Context (cfg : lcm_config).
Hypothesis otp_size_range : 0 <= p_otp_size cfg.

Lemma update_lcs_steps o len s :
  rtc lifecycle_step (lcs s) (lcs (update_lcs_from_otp_write cfg o len s)) /\
  (m_otp_locked s = true -> m_otp_locked (update_lcs_from_otp_write cfg o len s) = true).
Proof.
  unfold update_lcs_from_otp_write, lcs. cbv zeta.
  destruct (range_includes o len OTP_CM_CONFIG_2); cbn [andb].
  - destruct (Z.eqb_spec (load32 (m_regs s) LCS_VALUE) LCS_CM) as [E|]; cbn [m_regs set_field].
    + rewrite load32_store32_eq by (by split). rewrite E. change (LCS_DM =? LCS_DM) with true.
      destruct (range_includes o len OTP_DM_CONFIG); cbn [andb].
      * split; [|by case_if]. transitivity LCS_DM; [apply rtc_once; constructor|].
        replace (load32 _ _) with LCS_SE; [apply rtc_once; constructor|].
        case_if; cbn; by rewrite load32_store32_eq by (by split).
      * split; [|done]. cbn. rewrite load32_store32_eq by (by split). apply rtc_once; constructor.
    + case_if; [|done]. bool_hyps. split; [|by case_if]. rewrite H0.
      replace (load32 _ _) with LCS_SE; [apply rtc_once; constructor|].
      case_if; cbn; by rewrite load32_store32_eq by (by split).
  - case_if; [|done]. bool_hyps. split; [|by case_if]. rewrite H0.
    replace (load32 _ _) with LCS_SE; [apply rtc_once; constructor|].
    case_if; cbn; by rewrite load32_store32_eq by (by split).
Qed.

Lemma write32_lcs offset v s : 0 <= offset -> offset mod 4 = 0 ->
  lcs (write32 cfg offset v s) = lcs s /\
  (m_otp_locked s = true -> m_otp_locked (write32 cfg offset v s) = true).
Proof.
  intros H0 Hal. unfold write32, lcs. destruct (_ || (offset =? GPPC)) eqn:E; [done|].
  assert (4 <= offset) by (unfold LCS_VALUE in E; bool_hyps; lia).
  repeat case_if; cbn; unfold SP_ENABLE, LCS_VALUE; by rewrite ?load32_store32_ne by lia.
Qed.

Lemma write_data_lcs offset len d s :
  len <= Z.of_nat (length d) -> 1 <= len -> 0 <= offset -> offset + len <= REG_BYTES ->
  (OTP_WINDOW <= offset /\ offset + len <= otp_limit cfg) \/ (len = 4 /\ offset mod 4 = 0) ->
  rtc lifecycle_step (lcs s) (lcs (write_data cfg offset len d s)) /\
  (m_otp_locked s = true -> m_otp_locked (write_data cfg offset len d s) = true /\
                            lcs (write_data cfg offset len d s) = lcs s).
Proof.
  intros Hd Hlen H0 H1 Hw. unfold write_data, write_otp, is_otp_access. unfold REG_BYTES in *.
  rewrite wrap_small by (split; lia). destruct (_ && (offset + len <=? _)) eqn:Ein; cbn [negb].
  - destruct (m_otp_locked s) eqn:El; [done|]. split; [|done].
    set (s1 := s <| m_regs ::= mem_or offset (get_data len d) |>).
    destruct (flush_regs cfg (update_lcs_from_otp_write cfg (offset - OTP_WINDOW) len s1)) as [Hf _].
    replace (lcs s) with (lcs s1).
    + unfold lcs at 2. rewrite Hf. apply update_lcs_steps.
    + unfold lcs, s1, LCS_VALUE. cbn. apply load32_or_ne. unfold OTP_WINDOW in *. lia.
  - destruct Hw as [Hw|[-> Hal]]; [lia|]. unfold regfile_write. rewrite Hal, !Z.eqb_refl. cbn [andb].
    rewrite wrap_small by (split; lia).
    destruct (write32_lcs offset (le_val (get_data 4 d)) s H0 Hal) as [-> Hl]. split; [done|].
    intros El. split; [by apply Hl|done].
Qed.

Lemma access_lcs dbg s t s' t' ok : payload_ok t -> well_formed cfg t ->
  access cfg dbg s t = (s', t', ok) ->
  rtc lifecycle_step (lcs s) (lcs s') /\
  (m_otp_locked s = true -> m_otp_locked s' = true /\ lcs s' = lcs s).
Proof.
  intros Ht Hw H. destruct (array_access_cases _ _ _ _ _ _ _ _ _ _ H)
    as [(-> & -> & _)|[(d & -> & Ed & Ec & _ & _ & -> & _)|(d & -> & Ed & Ec & Hl & Hr & -> & _)]]; [done| |].
  - unfold lcs. by destruct (lcm_trace_access_regs cfg
      (t <| data_ptr := Some (put_data (mem_read (m_regs s) (address t) (data_length t)) d) |>) s) as [-> ->].
  - unfold lcs. destruct (lcm_trace_access_regs cfg t (write_data cfg (address t) (data_length t) d s)) as [-> ->].
    destruct (access_in_range _ t Ht Hr). pose proof Ht as (_ & _ & _ & Hd). rewrite Ed in Hd.
    apply supported_length_range in Hl. apply write_data_lcs; try done; [apply Hd|lia|].
    by apply Hw.
Qed.
End lifecycle.

(** The lifecycle only moves forward.  However long a run of word register
    accesses, OTP writes and reads is, the lifecycle state ends where a sequence
    of the two provisioning steps (CM to DM, DM to SE) leads from where it began;
    and from the moment the OTP is locked it stays locked and the lifecycle state
    no longer changes. *)
Theorem lcm_lifecycle_one_way cfg s s' :
  0 <= p_otp_size cfg -> lcm_run cfg s s' ->
  rtc lifecycle_step (lcs s) (lcs s') /\
  (m_otp_locked s = true -> m_otp_locked s' = true /\ lcs s' = lcs s).
Proof.
  intros Hsz Hrun. induction Hrun as [|dbg s1 t s2 t' ok _ [IH1 IH2] Ht Hw H]; [done|].
  destruct (access_lcs cfg _ _ _ _ _ _ Ht Hw H) as [A1 A2]. split; [by etransitivity|].
  intros El. destruct (IH2 El) as [El1 Ec1]. destruct (A2 El1) as [El2 Ec2]. split; [done|congruence].
Qed.

(** * A device in the CM state *)

Definition example_config : lcm_config := {|
  p_trace := false; p_trace_limit := 64; p_otp_image := "otp.bin"; p_lcs := LCS_CM;
  p_tp_mode := 0x2222aa55; p_sp_enable := 0; p_otp_size := 0x10000; p_gppc := 0;
  p_otp_writeback := false; p_otp_lock_after_provision := true; otp_file_writable := true |}.

(** An 8-byte write that provisions both configuration words at once. *)
Definition provision_txn : tlm_payload :=
  write_bytes_txn (OTP_WINDOW + OTP_CM_CONFIG_2) (replicate 8 0xff).

Definition example_state : rse_lcm := initial example_config (Some (replicate 32 0x0f)).
Definition provisioned_state : rse_lcm := fst (fst (access example_config false example_state provision_txn)).

Lemma provision_txn_ok : payload_ok provision_txn.
Proof. apply write_bytes_txn_ok; [by split|simpl; lia|]. apply Forall_replicate. by split. Qed.

Lemma provisioned_run : lcm_run example_config example_state provisioned_state.
Proof.
  unfold provisioned_state.
  apply (lcm_run_step _ _ false example_state provision_txn
    (fst (fst (access example_config false example_state provision_txn)))
    (snd (fst (access example_config false example_state provision_txn)))
    (snd (access example_config false example_state provision_txn))).
  - apply lcm_run_refl.
  - apply provision_txn_ok.
  - intros _. left. by cbv.
  - exact (surjective_pairing_3 (access example_config false example_state provision_txn)).
Qed.

Lemma lcm_lifecycle_one_way_witness :
  lcs example_state = LCS_CM /\ lcs provisioned_state = LCS_SE /\
  m_otp_locked provisioned_state = true /\
  rtc lifecycle_step (lcs example_state) (lcs provisioned_state).
Proof.
  split; [by vm_compute|]. split; [by vm_compute|]. split; [by vm_compute|].
  pose proof (lcm_lifecycle_one_way example_config example_state provisioned_state
    ltac:(by cbv) provisioned_run) as [H _].
  exact H.
Defined.

Lemma lcm_otp_write_once_witness :
  let t := write_bytes_txn OTP_WINDOW [0xf0] in
  payload_ok t /\ respects_window example_config t /\
  mem_get (m_regs (fst (fst (access example_config false example_state t)))) OTP_WINDOW = 0xff.
Proof.
  cbv zeta. assert (payload_ok (write_bytes_txn OTP_WINDOW [0xf0])) as Ht.
  { apply write_bytes_txn_ok; [by split|simpl; lia|]. by repeat constructor. }
  assert (respects_window example_config (write_bytes_txn OTP_WINDOW [0xf0])) as Hw
    by (right; right; by cbv).
  split; [exact Ht|]. split; [exact Hw|].
  pose proof (lcm_otp_write_once example_config false example_state (write_bytes_txn OTP_WINDOW [0xf0])
    _ _ _ OTP_WINDOW ltac:(by cbv) Ht Hw ltac:(by cbv) (surjective_pairing_3 _)) as [_ H].
  rewrite H. vm_compute. reflexivity.
Defined.

(** A write that straddles the start of the window is not recognised as an OTP
    write: it clears fuse bits, even of a locked device. *)
Lemma lcm_straddling_write_clears_otp :
  let '(s', _, ok) := access example_config false provisioned_state
                        (write_bytes_txn (OTP_WINDOW - 4) (replicate 8 0)) in
  m_otp_locked provisioned_state = true /\ ok = true /\
  mem_get (m_regs provisioned_state) OTP_WINDOW = 0x0f /\ mem_get (m_regs s') OTP_WINDOW = 0.
Proof. vm_compute. done. Qed.

(** An 8-byte write reaches the read-only lifecycle register. *)
Lemma lcm_wide_write_moves_lifecycle :
  let '(s', _, ok) := access example_config false provisioned_state
                        (write_bytes_txn LCS_VALUE (le_bytes 8 LCS_CM)) in
  ok = true /\ lcs provisioned_state = LCS_SE /\ lcs s' = LCS_CM.
Proof. vm_compute. done. Qed.
