(* ===== verification/Dma350.v ===== *)
(** The DMA-350 controller model [dma350]
    (systemc-components/dma350/include/dma350.h): the channel register file and
    the copy and fill commands it executes over the initiator socket. *)

From Stdlib Require Import String.
From S2P Require Import Prelude Bytes Tlm Memory Access.

(** * Constants *)

Definition REG_BYTES : Z := 0x2000.
Definition DMASECINFO : Z := 0xfb0.
Definition DMAINFO_IIDR : Z := 0xfc8.
Definition DMAINFO_AIDR : Z := 0xfcc.
Definition CH_BASE : Z := 0x1000.
Definition CH_STRIDE : Z := 0x100.
Definition CH_CMD : Z := 0x000.
Definition CH_STATUS : Z := 0x004.
Definition CH_INTREN : Z := 0x008.
Definition CH_CTRL : Z := 0x00c.
Definition CH_SRCADDR : Z := 0x010.
Definition CH_SRCADDRHI : Z := 0x014.
Definition CH_DESADDR : Z := 0x018.
Definition CH_DESADDRHI : Z := 0x01c.
Definition CH_XSIZE : Z := 0x020.
Definition CH_XSIZEHI : Z := 0x024.
Definition CH_SRCTRANSCFG : Z := 0x028.
Definition CH_DESTRANSCFG : Z := 0x02c.
Definition CH_XADDRINC : Z := 0x030.
Definition CH_FILLVAL : Z := 0x038.
Definition CH_CMD_ENABLE : Z := 0x00000001.
Definition CH_STATUS_INTR_DONE : Z := bit 0.
Definition CH_STATUS_INTR_ERR : Z := bit 1.
Definition CH_STATUS_STAT_DONE : Z := bit 16.
Definition CH_STATUS_STAT_ERR : Z := bit 17.
Definition CH_CTRL_XTYPE_SHIFT : Z := 9.
Definition CH_CTRL_XTYPE_MASK : Z := Z.shiftl 0x7 CH_CTRL_XTYPE_SHIFT.
Definition CH_CTRL_XTYPE_CONTINUE : Z := 0x1.
Definition CH_CTRL_XTYPE_FILL : Z := 0x3.
Definition FILL_CHUNK_BYTES : Z := 256.
Definition COPY_CHUNK_BYTES : Z := 1024.

(** * State *)

(** [dma350.h: "cci::cci_param<bool> p_trace;" .. "initiator_socket_type initiator_socket;"] *)
Record dma_config := {
  p_trace : bool;
  p_trace_limit : Z;
  p_trace_filter : string;
  p_trace_address_min : Z;
  initiator_bound : bool
}.

(** [dma350.h: "std::array<uint8_t, REG_BYTES> m_regs{};" .. "unsigned int m_trace_count = 0;"] *)
Record dma350 := MkDma { m_regs : mem; m_trace_count : Z }.

#[export] Instance eta_dma350 : Eta dma350 := fun s => MkDma (m_regs s) (m_trace_count s).

(** [dma350.h: reset_registers] *)
Definition reset_registers (s : dma350) : dma350 :=
  let m := store32 DMASECINFO 0x00000030 ∅ in
  let m := store32 DMAINFO_IIDR 0x3a00043b m in
  let m := store32 DMAINFO_AIDR 0x00000000 m in
  let m := store32 (CH_BASE + CH_CTRL) 0x00200200 m in
  let m := store32 (CH_BASE + CH_DESTRANSCFG) 0x000f0400 m in
  s <| m_regs := m |>.

(** [dma350.h: "explicit dma350" .. "target_socket.register_transport_dbg"] *)
Definition initial : dma350 := reset_registers (MkDma ∅ 0).

(** * Channel registers *)

(** [static_cast<int16_t>(value & 0xffff)]. *)
(** [dma350.h: sign_extend16] *)
Definition sign_extend16 (value : Z) : Z :=
  let v := Z.land value 0xffff in if v <? 0x8000 then v else v - 0x10000.

(** [dma350.h: transfer_bytes_from_ctrl] *)
Definition transfer_bytes_from_ctrl (ctrl : Z) : Z := shl 32 1 (Z.land ctrl 0x7).

(** [dma350.h: channel_address] *)
Definition channel_address (m : mem) (channel_base low_offset : Z) : Z :=
  Z.lor (load32 m (channel_base + low_offset))
        (shl 64 (load32 m (channel_base + low_offset + 4)) 32).

(** [dma350.h: source_xsize] *)
Definition source_xsize (m : mem) (channel_base : Z) : Z :=
  Z.lor (Z.land (load32 m (channel_base + CH_XSIZE)) 0xffff)
        (shl 32 (Z.land (load32 m (channel_base + CH_XSIZEHI)) 0xffff) 16).

(** [dma350.h: dest_xsize] *)
Definition dest_xsize (m : mem) (channel_base : Z) : Z :=
  Z.lor (Z.land (Z.shiftr (load32 m (channel_base + CH_XSIZE)) 16) 0xffff)
        (shl 32 (Z.land (Z.shiftr (load32 m (channel_base + CH_XSIZEHI)) 16) 0xffff) 16).

(** The content of a fill buffer of [n] bytes. *)
(** [dma350.h: fill_chunk] *)
Definition fill_chunk (n fill_value : Z) : list Z :=
  map (fun i => (Z.shiftr fill_value (Z.land i 0x3 * 8)) mod 256) (range n).

(** [dma350.h: is_copy_trace_offset] *)
Definition is_copy_trace_offset (channel_offset : Z) : bool :=
  existsb (Z.eqb channel_offset) [CH_CMD; CH_STATUS; CH_CTRL; CH_SRCADDR; CH_SRCADDRHI; CH_DESADDR;
    CH_DESADDRHI; CH_XSIZE; CH_XSIZEHI; CH_SRCTRANSCFG; CH_DESTRANSCFG; CH_XADDRINC].

(** [dma350.h: is_fill_trace_offset] *)
Definition is_fill_trace_offset (channel_offset : Z) : bool :=
  existsb (Z.eqb channel_offset) [CH_CMD; CH_STATUS; CH_CTRL; CH_DESADDR; CH_DESADDRHI; CH_XSIZE;
    CH_XSIZEHI; CH_DESTRANSCFG; CH_XADDRINC; CH_FILLVAL].

Section dma350.
Context (cfg : dma_config).

(** * Tracing *)

(** [dma350.h: trace_address_matches] *)
Definition trace_address_matches (m : mem) (channel_base : Z) : bool :=
  let min_address := p_trace_address_min cfg in
  if min_address =? 0 then true
  else (min_address <=? channel_address m channel_base CH_SRCADDR) ||
       (min_address <=? channel_address m channel_base CH_DESADDR).

(** [dma350.h: trace_access_filter_matches] *)
Definition trace_access_filter_matches (m : mem) (offset : Z) : bool :=
  let filter := p_trace_filter cfg in
  if (filter =? "operation")%string then false
  else if (offset <? CH_BASE) || (REG_BYTES <=? offset) then
    (p_trace_address_min cfg =? 0) && ((filter =? "")%string || (filter =? "all")%string)
  else
    let channel_base := u32 (CH_BASE + (offset - CH_BASE) / CH_STRIDE * CH_STRIDE) in
    let channel_offset := u32 ((offset - CH_BASE) mod CH_STRIDE) in
    if negb (trace_address_matches m channel_base) then false
    else if (filter =? "")%string || (filter =? "all")%string then true
    else if (filter =? "copy")%string then is_copy_trace_offset channel_offset
    else if (filter =? "fill")%string then is_fill_trace_offset channel_offset
    else false.

(** [dma350.h: trace_operation_filter_matches] *)
Definition trace_operation_filter_matches (s : dma350) (channel_base : Z) (copy : bool) : bool :=
  if negb (p_trace cfg) || (p_trace_limit cfg <=? m_trace_count s) ||
     negb (trace_address_matches (m_regs s) channel_base) then false
  else
    let filter := p_trace_filter cfg in
    if (filter =? "")%string || (filter =? "all")%string || (filter =? "operation")%string then true
    else if copy then (filter =? "copy")%string else (filter =? "fill")%string.

(** [dma350.h: trace_access] *)
Definition trace_access (t : tlm_payload) (s : dma350) : dma350 :=
  if negb (p_trace cfg) || (p_trace_limit cfg <=? m_trace_count s) ||
     negb (trace_access_filter_matches (m_regs s) (address t))
  then s else s <| m_trace_count ::= fun n => u32 (n + 1) |>.

(** [dma350.h: trace_fill] *)
Definition trace_fill (channel_base : Z) (s : dma350) : dma350 :=
  if negb (trace_operation_filter_matches s channel_base false) then s
  else s <| m_trace_count ::= fun n => u32 (n + 1) |>.

(** [dma350.h: trace_copy] *)
Definition trace_copy (channel_base : Z) (s : dma350) : dma350 :=
  if negb (trace_operation_filter_matches s channel_base true) then s
  else s <| m_trace_count ::= fun n => u32 (n + 1) |>.

(** * Commands *)

Section bus.
Context {B : Type} {bus : TlmTarget B}.

(** [data] is the buffer the bytes are read into, returned as it is left. *)
(** [dma350.h: mem_read] *)
Definition mem_read (address : Z) (data : list Z) (len : Z) (b : B) : B * list Z * bool :=
  if negb (initiator_bound cfg) then (b, data, false)
  else
    let '(b, t) := target_b_transport tlm_access b (read_request address len data) in
    (b, default data (data_ptr t), is_response_ok t).

(** [dma350.h: mem_write] *)
Definition mem_write (address : Z) (data : list Z) (len : Z) (b : B) : B * bool :=
  if negb (initiator_bound cfg) then (b, false)
  else
    let '(b, t) := target_b_transport tlm_access b (write_request address len data) in
    (b, is_response_ok t).

(** The loop of [execute_strided_fill], with [n] elements to go.  The signed
    64-bit address is kept as the unsigned one it is cast to. *)
(** [dma350.h: execute_strided_fill] *)
Fixpoint strided_fill_loop (n : nat) (address dest_inc : Z) (data : list Z) (b : B) : B * bool :=
  match n with
  | O => (b, true)
  | S n =>
      let '(b, ok) := mem_write address data 8 b in
      if negb ok then (b, false)
      else strided_fill_loop n (u64 (address + dest_inc * 8)) dest_inc data b
  end.

(** [dma350.h: execute_strided_fill] *)
Definition execute_strided_fill (dest transfer_count dest_inc fill_value : Z) (b : B) : B * bool :=
  strided_fill_loop (Z.to_nat transfer_count) dest dest_inc (fill_chunk 8 fill_value) b.

(** [while (bytes_remaining != 0)]; each turn but the last moves a full chunk,
    so [bytes_remaining / FILL_CHUNK_BYTES + 1] turns are enough. *)
(** [dma350.h: "uint64_t address = dest;" .. "trace_fill(channel_base, dest, transfer_bytes_total, true);"] *)
Fixpoint fill_loop (fuel : nat) (address bytes_remaining : Z) (chunk : list Z) (b : B) : B * bool :=
  match fuel with
  | O => (b, true)
  | S fuel =>
      if bytes_remaining =? 0 then (b, true)
      else
        let len := Z.min bytes_remaining FILL_CHUNK_BYTES in
        let '(b, ok) := mem_write address chunk len b in
        if negb ok then (b, false)
        else fill_loop fuel (u64 (address + len)) (bytes_remaining - len) chunk b
  end.

(** [dma350.h: execute_fill] *)
Definition execute_fill (channel_base : Z) (sb : dma350 * B) : (dma350 * B) * bool :=
  let '(s, b) := sb in
  let m := m_regs s in
  let dest := load32 m (channel_base + CH_DESADDR) in
  let xsize := load32 m (channel_base + CH_XSIZE) in
  let xaddrinc := load32 m (channel_base + CH_XADDRINC) in
  let fill_value := load32 m (channel_base + CH_FILLVAL) in
  let transfer_count := Z.land (Z.shiftr xsize 16) 0xffff in
  let dest_inc := sign_extend16 (Z.land (Z.shiftr xaddrinc 16) 0xffff) in
  if transfer_count =? 0 then ((s, b), true)
  else if negb (dest_inc =? 1) then
    let '(b, ok) := execute_strided_fill dest transfer_count dest_inc fill_value b in
    ((trace_fill channel_base s, b), ok)
  else
    let total := transfer_count * 8 in
    let '(b, ok) :=
      fill_loop (S (Z.to_nat (total / FILL_CHUNK_BYTES))) dest total
        (fill_chunk FILL_CHUNK_BYTES fill_value) b in
    ((trace_fill channel_base s, b), ok).

(** [while (bytes_remaining != 0)] of the burst copy; [chunk] is the buffer. *)
(** [dma350.h: "std::array<uint8_t, COPY_CHUNK_BYTES> chunk{};" .. "trace_copy(channel_base, source_start, dest_start, bytes_total, true);"] *)
Fixpoint copy_loop (fuel : nat) (source dest bytes_remaining : Z) (chunk : list Z) (b : B) : B * bool :=
  match fuel with
  | O => (b, true)
  | S fuel =>
      if bytes_remaining =? 0 then (b, true)
      else
        let len := Z.min bytes_remaining COPY_CHUNK_BYTES in
        let '(b, chunk, ok) := mem_read source chunk len b in
        if negb ok then (b, false)
        else
          let '(b, ok) := mem_write dest chunk len b in
          if negb ok then (b, false)
          else copy_loop fuel (u64 (source + len)) (u64 (dest + len)) (bytes_remaining - len) chunk b
  end.

(** The element-wise copy, with [n] elements to go. *)
(** [dma350.h: "std::array<uint8_t, 128> transfer{};" .. "dest += static_cast<int64_t>(dest_inc)"] *)
Fixpoint strided_copy_loop (n : nat) (source dest source_inc dest_inc transfer_bytes : Z)
    (transfer : list Z) (b : B) : B * bool :=
  match n with
  | O => (b, true)
  | S n =>
      let '(b, transfer, ok) := mem_read source transfer transfer_bytes b in
      if negb ok then (b, false)
      else
        let '(b, ok) := mem_write dest transfer transfer_bytes b in
        if negb ok then (b, false)
        else strided_copy_loop n (u64 (source + source_inc * transfer_bytes))
               (u64 (dest + dest_inc * transfer_bytes)) source_inc dest_inc transfer_bytes transfer b
  end.

(** [dma350.h: execute_copy] *)
Definition execute_copy (channel_base : Z) (sb : dma350 * B) : (dma350 * B) * bool :=
  let '(s, b) := sb in
  let m := m_regs s in
  let source_start := channel_address m channel_base CH_SRCADDR in
  let dest_start := channel_address m channel_base CH_DESADDR in
  let transfer_count := Z.min (source_xsize m channel_base) (dest_xsize m channel_base) in
  let xaddrinc := load32 m (channel_base + CH_XADDRINC) in
  let source_inc := sign_extend16 xaddrinc in
  let dest_inc := sign_extend16 (Z.shiftr xaddrinc 16) in
  let transfer_bytes := transfer_bytes_from_ctrl (load32 m (channel_base + CH_CTRL)) in
  if transfer_count =? 0 then ((trace_copy channel_base s, b), true)
  else if (source_inc =? 1) && (dest_inc =? 1) then
    let total := transfer_count * transfer_bytes in
    let '(b, ok) :=
      copy_loop (S (Z.to_nat (total / COPY_CHUNK_BYTES))) source_start dest_start total
        (replicate (Z.to_nat COPY_CHUNK_BYTES) 0) b in
    ((trace_copy channel_base s, b), ok)
  else
    let '(b, ok) :=
      strided_copy_loop (Z.to_nat transfer_count) source_start dest_start source_inc dest_inc
        transfer_bytes (replicate 128 0) b in
    ((trace_copy channel_base s, b), ok).

(** [dma350.h: execute_channel] *)
Definition execute_channel (channel_base : Z) (sb : dma350 * B) : (dma350 * B) * bool :=
  let xtype :=
    Z.shiftr (Z.land (load32 (m_regs (fst sb)) (channel_base + CH_CTRL)) CH_CTRL_XTYPE_MASK)
      CH_CTRL_XTYPE_SHIFT in
  if xtype =? CH_CTRL_XTYPE_FILL then execute_fill channel_base sb else execute_copy channel_base sb.

(** [dma350.h: complete_channel] *)
Definition complete_channel (channel_base : Z) (ok : bool) (s : dma350) : dma350 :=
  let intren := load32 (m_regs s) (channel_base + CH_INTREN) in
  let status :=
    if ok then
      if test intren CH_STATUS_INTR_DONE then Z.lor CH_STATUS_STAT_DONE CH_STATUS_INTR_DONE
      else CH_STATUS_STAT_DONE
    else
      if test intren CH_STATUS_INTR_ERR then Z.lor CH_STATUS_STAT_ERR CH_STATUS_INTR_ERR
      else CH_STATUS_STAT_ERR in
  s <| m_regs ::= store32 (channel_base + CH_STATUS) status |>.

(** [dma350.h: clear_channel_status] *)
Definition clear_channel_status (channel_base value : Z) (s : dma350) : dma350 :=
  s <| m_regs ::= fun m =>
    store32 (channel_base + CH_STATUS)
      (Z.land (load32 m (channel_base + CH_STATUS)) (not32 value)) m |>.

(** [dma350.h: write32] *)
Definition write32 (execute_side_effects : bool) (offset value : Z) (sb : dma350 * B) : dma350 * B :=
  let '(s, b) := sb in
  if (CH_BASE <=? offset) && (offset <? REG_BYTES) then
    let ch_offset := (offset - CH_BASE) mod CH_STRIDE in
    let channel_base := offset - ch_offset in
    if ch_offset =? CH_STATUS then (clear_channel_status channel_base value s, b)
    else if ch_offset =? CH_CMD then
      let '(s, b) :=
        if execute_side_effects && test value CH_CMD_ENABLE then
          let s := s <| m_regs ::= store32 (channel_base + CH_STATUS) 0x00000000 |> in
          let '((s, b), ok) := execute_channel channel_base (s, b) in
          (complete_channel channel_base ok s, b)
        else (s, b) in
      (s <| m_regs ::= store32 offset 0x00000000 |>, b)
    else (s <| m_regs ::= store32 offset value |>, b)
  else (s <| m_regs ::= store32 offset value |>, b).

(** Debug accesses run no commands. *)
(** [dma350.h: access] *)
Definition access : bool -> dma350 * B -> tlm_payload -> (dma350 * B) * tlm_payload * bool :=
  array_access REG_BYTES (fun sb => m_regs (fst sb))
    (fun dbg => regfile_write (fun f sb => ((fst sb) <| m_regs ::= f |>, snd sb)) (write32 (negb dbg)))
    (fun t sb => (trace_access t (fst sb), snd sb)).
End bus.
End dma350.

(** * What a channel is programmed to do *)

(** The transfer a channel's registers describe: element addresses and widths. *)
Record transfer := {
  t_src : Z; t_dst : Z; t_count : Z; t_src_step : Z; t_dst_step : Z; t_width : Z
}.

Definition copy_transfer (m : mem) (channel_base : Z) : transfer :=
  let width := transfer_bytes_from_ctrl (load32 m (channel_base + CH_CTRL)) in
  let inc := load32 m (channel_base + CH_XADDRINC) in
  {| t_src := channel_address m channel_base CH_SRCADDR;
     t_dst := channel_address m channel_base CH_DESADDR;
     t_count := Z.min (source_xsize m channel_base) (dest_xsize m channel_base);
     t_src_step := sign_extend16 inc * width; t_dst_step := sign_extend16 (Z.shiftr inc 16) * width;
     t_width := width |}.

(** Fills move 8-byte elements to a 32-bit address. *)
Definition fill_transfer (m : mem) (channel_base : Z) : transfer :=
  let inc := sign_extend16 (Z.land (Z.shiftr (load32 m (channel_base + CH_XADDRINC)) 16) 0xffff) in
  {| t_src := 0; t_dst := load32 m (channel_base + CH_DESADDR);
     t_count := Z.land (Z.shiftr (load32 m (channel_base + CH_XSIZE)) 16) 0xffff;
     t_src_step := 0; t_dst_step := inc * 8; t_width := 8 |}.

(** The elements at [a + i * step] stay inside the address space and the bus
    serves all their bytes. *)
Definition elements_served (serves : Z -> Prop) (a step width n : Z) : Prop :=
  forall i, 0 <= i < n ->
    0 <= a + i * step /\ a + i * step + width <= 2 ^ 64 /\
    forall k, 0 <= k < width -> serves (a + i * step + k).

(** The elements one after the other, each read before it is written. *)
Definition moved_elements (t : transfer) (m : mem) : mem :=
  foldl (copy_element (t_src t) (t_dst t) (t_src_step t) (t_dst_step t) (t_width t)) m (range (t_count t)).

(** Piece [k] of the [n] bytes from [src] to [dst], taken [size] bytes at a time,
    and the number of pieces. *)
Definition copy_piece (src dst size n : Z) (m : mem) (k : Z) : mem :=
  Bytes.mem_write (dst + k * size) (Bytes.mem_read m (src + k * size) (Z.min size (n - k * size))) m.
Definition pieces (size n : Z) : Z := (n + size - 1) / size.

#[export] Instance copy_piece_proper src dst size n : Proper (mem_eq ==> eq ==> mem_eq) (copy_piece src dst size n).
Proof. intros m m' H k _ <-. unfold copy_piece. by rewrite H. Qed.

(** Adjacent elements on both sides. *)
Definition contiguous (t : transfer) : bool := (t_src_step t =? t_width t) && (t_dst_step t =? t_width t).

(** What a copy leaves: adjacent elements move in pieces of 1 KiB, each read whole
    before it is written, and others move one by one. *)
Definition moved (t : transfer) (m : mem) : mem :=
  if contiguous t then
    let n := t_count t * t_width t in
    foldl (copy_piece (t_src t) (t_dst t) COPY_CHUNK_BYTES n) m (range (pieces COPY_CHUNK_BYTES n))
  else moved_elements t m.

Lemma elements_block serves a width n : 0 < width -> 0 < n ->
  elements_served serves a width width n ->
  0 <= a /\ a + n * width <= 2 ^ 64 /\ forall j, 0 <= j < n * width -> serves (a + j).
Proof.
  intros Hw Hn Hs. destruct (Hs 0 ltac:(lia)) as (H0 & _ & _). destruct (Hs (n - 1) ltac:(lia)) as (_ & H1 & _).
  split; [lia|]. split; [lia|]. intros j Hj.
  pose proof (Z.div_mod j width ltac:(lia)). pose proof (Z.mod_pos_bound j width ltac:(lia)).
  destruct (Hs (j / width)) as (_ & _ & Hk).
  { split; [apply Z.div_pos; lia|]. apply Z.div_lt_upper_bound; lia. }
  replace (a + j) with (a + j / width * width + j mod width) by lia. by apply Hk.
Qed.

Lemma wrap_step w a x y : wrap w (wrap w (a + x) + y) = wrap w (a + (x + y)).
Proof. unfold wrap. rewrite Zplus_mod_idemp_l. f_equal. lia. Qed.

(** * Pieces and elements *)

(** The destination does not lie less than a piece ahead of the source within the
    block. *)
Definition copy_overlap_ok (t : transfer) : Prop :=
  t_dst t <= t_src t \/ t_src t + Z.min (t_count t * t_width t) COPY_CHUNK_BYTES <= t_dst t.

(** A piece is so many elements. *)
Lemma piece_elements src dst e w n k m : 0 < w -> 0 < e -> 0 <= k -> k * e < n ->
  dst <= src \/ src + Z.min (n * w) (e * w) <= dst ->
  foldl (copy_element src dst w w w) m (seqZ (k * e) (Z.min e (n - k * e))) ≈ copy_piece src dst (e * w) (n * w) m k.
Proof.
  intros Hw He Hk Hkn Hov. set (l := Z.min e (n - k * e)). unfold copy_piece.
  replace (Z.min (e * w) (n * w - k * (e * w))) with (l * w) by nia.
  rewrite <-copy_elements_block by nia. unfold range.
  replace (seqZ (k * e) l) with (Z.add (k * e) <$> seqZ 0 l) by (rewrite fmap_add_seqZ; f_equal; lia). rewrite foldl_fmap.
  rewrite (foldl_ext_in _ (copy_element (src + k * (e * w)) (dst + k * (e * w)) w w w)); [done|].
  intros m' i _. unfold copy_element. f_equal; [lia|]. f_equal. lia.
Qed.

Lemma pieces_elements src dst e w n j : forall k m, 0 < w -> 0 < e -> 0 <= k ->
  dst <= src \/ src + Z.min (n * w) (e * w) <= dst -> pieces (e * w) (n * w) - k = Z.of_nat j ->
  foldl (copy_piece src dst (e * w) (n * w)) m (seqZ k (Z.of_nat j)) ≈
  foldl (copy_element src dst w w w) m (seqZ (k * e) (n - k * e)).
Proof.
  induction j as [|j IH]; intros k m Hw He Hk Hov Hj; unfold pieces in *.
  - pose proof (Z.mod_pos_bound (n * w + e * w - 1) (e * w) ltac:(nia)).
    pose proof (Z.div_mod (n * w + e * w - 1) (e * w) ltac:(nia)).
    rewrite !seqZ_nil by nia. done.
  - assert (k * e < n) as Hkn.
    { pose proof (Z.div_mod (n * w + e * w - 1) (e * w) ltac:(nia)).
      pose proof (Z.mod_pos_bound (n * w + e * w - 1) (e * w) ltac:(nia)). nia. }
    rewrite seqZ_cons by lia. cbn [foldl]. replace (Z.pred (Z.of_nat (S j))) with (Z.of_nat j) by lia.
    rewrite IH by (done || lia). replace (n - k * e) with (Z.min e (n - k * e) + Z.max 0 (n - Z.succ k * e)) by lia.
    rewrite seqZ_app, foldl_app by lia.
    destruct (Z.le_gt_cases n (Z.succ k * e)).
    + rewrite !(seqZ_nil _ (n - Z.succ k * e)), (seqZ_nil _ (Z.max _ _)) by lia. cbn. by rewrite piece_elements.
    + replace (Z.min e (n - k * e)) with e by lia. replace (Z.max 0 (n - Z.succ k * e)) with (n - Z.succ k * e) by lia.
      replace (k * e + e) with (Z.succ k * e) by lia. apply foldl_mem_proper; [intros x m1 m2 H0; by rewrite H0|].
      rewrite <-(piece_elements src dst e w n k) by done. by replace (Z.min e (n - k * e)) with e by lia.
Qed.

(** * Fill buffers *)

Lemma fill_chunk_length n v : 0 <= n -> Z.of_nat (length (fill_chunk n v)) = n.
Proof. intros. unfold fill_chunk, range. rewrite length_map, length_seqZ. lia. Qed.

Lemma fill_chunk_lookup n v (k : nat) : Z.of_nat k < n ->
  fill_chunk n v !! k = Some ((Z.shiftr v (Z.of_nat k mod 4 * 8)) mod 256).
Proof.
  intros Hk. unfold fill_chunk, range. rewrite list_lookup_fmap, lookup_seqZ_lt by lia.
  cbn. by rewrite land_3.
Qed.

(** The pattern repeats every four bytes, so a slice that starts at a multiple
    of four is the pattern again. *)
Lemma fill_chunk_slice n v off len : 0 <= off -> 0 <= len -> off + len <= n -> off mod 4 = 0 ->
  take (Z.to_nat len) (drop (Z.to_nat off) (fill_chunk n v)) = fill_chunk len v.
Proof.
  intros H0 H1 H2 Hal. pose proof (fill_chunk_length n v ltac:(lia)). pose proof (fill_chunk_length len v H1).
  apply (list_eq_same_length _ _ (Z.to_nat len)); [lia|rewrite length_take, length_drop; lia|].
  intros k x y Hk Hx Hy. rewrite lookup_take_lt, lookup_drop, fill_chunk_lookup in Hx by lia.
  rewrite fill_chunk_lookup in Hy by lia. simplify_eq. do 3 f_equal.
  replace (Z.of_nat (Z.to_nat off + k)) with (off + Z.of_nat k) by lia.
  by rewrite <-Z.add_mod_idemp_l, Hal by lia.
Qed.

Lemma fill_chunk_app n k v : 0 <= n -> 0 <= k -> n mod 4 = 0 ->
  fill_chunk (n + k) v = fill_chunk n v ++ fill_chunk k v.
Proof.
  intros Hn Hk Hal. pose proof (fill_chunk_length (n + k) v ltac:(lia)).
  rewrite <-(take_drop (Z.to_nat n) (fill_chunk (n + k) v)). f_equal.
  - rewrite <-(fill_chunk_slice (n + k) v 0 n) by (done || lia). by rewrite drop_0.
  - rewrite <-(fill_chunk_slice (n + k) v n k) by (done || lia).
    rewrite take_ge; [done|]. rewrite length_drop. lia.
Qed.

(** An element is the fill value, twice. *)
Lemma fill_chunk_word v : fill_chunk 8 v = le_bytes 4 v ++ le_bytes 4 v.
Proof.
  apply (list_eq_same_length _ _ 8); [done|done|]. intros k x y Hk Hx Hy.
  rewrite fill_chunk_lookup in Hx by lia. simplify_eq. rewrite Z.shiftr_div_pow2 by lia.
  destruct (Z.lt_ge_cases (Z.of_nat k) 4).
  - rewrite lookup_app_l, le_bytes_lookup in Hy by (rewrite ?le_bytes_length; lia). simplify_eq.
    rewrite (Z.mod_small (Z.of_nat k)) by lia. do 3 f_equal. lia.
  - rewrite lookup_app_r, le_bytes_length, le_bytes_lookup in Hy by (rewrite ?le_bytes_length; lia).
    simplify_eq. replace (Z.of_nat k mod 4) with (Z.of_nat k - 4) by lia. do 3 f_equal. lia.
Qed.

(** * The loops over a memory bus *)

Section dma_proofs.
Context (cfg : dma_config) {B : Type} {bus : TlmTarget B} {mb : MemoryBus B}.
Hypothesis bound : initiator_bound cfg = true.

Lemma mem_read_spec a n d (b : B) :
  0 < n <= Z.of_nat (length d) -> (forall k, 0 <= k < n -> bus_serves (a + k)) ->
  let '(b', d', ok) := mem_read cfg a d n b in
  ok = true /\ bus_view b' ≈ bus_view b /\ d' = put_data (Bytes.mem_read (bus_view b) a n) d.
Proof.
  intros Hn Hs. unfold mem_read. rewrite bound. cbn [negb]. pose proof (bus_read b a n d Hn Hs) as H.
  destruct (target_b_transport _ _ _) as [b' t']. by destruct H as (H1 & H2 & ->).
Qed.

Lemma mem_write_spec a n d (b : B) :
  0 < n <= Z.of_nat (length d) -> (forall k, 0 <= k < n -> bus_serves (a + k)) ->
  let '(b', ok) := mem_write cfg a d n b in
  ok = true /\ bus_view b' ≈ Bytes.mem_write a (get_data n d) (bus_view b).
Proof.
  intros Hn Hs. unfold mem_write. rewrite bound. cbn [negb]. pose proof (bus_write b a n d Hn Hs) as H.
  by destruct (target_b_transport _ _ _) as [b' t'].
Qed.

(** Reading into a buffer and writing it out moves the bytes. *)
Lemma move_spec src dst n d (b : B) :
  0 < n <= Z.of_nat (length d) ->
  (forall k, 0 <= k < n -> bus_serves (src + k)) -> (forall k, 0 <= k < n -> bus_serves (dst + k)) ->
  let '(b1, d', ok1) := mem_read cfg src d n b in
  let '(b2, ok2) := mem_write cfg dst d' n b1 in
  ok1 = true /\ ok2 = true /\ length d' = length d /\
  bus_view b2 ≈ Bytes.mem_write dst (Bytes.mem_read (bus_view b) src n) (bus_view b).
Proof.
  intros Hn Hs Hd. pose proof (mem_read_spec src n d b Hn Hs) as Hr.
  destruct (mem_read cfg src d n b) as [[b1 d'] ok1]. destruct Hr as (-> & Hv & ->).
  pose proof (mem_read_length (bus_view b) src n ltac:(lia)) as Hl.
  assert (length (put_data (Bytes.mem_read (bus_view b) src n) d) = length d) as Hp
    by (apply put_data_length; lia).
  pose proof (mem_write_spec dst n (put_data (Bytes.mem_read (bus_view b) src n) d) b1 ltac:(lia) Hd) as Hw.
  destruct (mem_write cfg dst _ n b1) as [b2 ok2]. destruct Hw as [-> Hw].
  split; [done|]. split; [done|]. split; [done|]. rewrite Hw, Hv. by rewrite get_put_data.
Qed.

Lemma strided_copy_spec n i src dst sinc dinc w d (b : B) :
  0 < w <= Z.of_nat (length d) -> 0 <= i ->
  elements_served bus_serves src (sinc * w) w (i + Z.of_nat n) ->
  elements_served bus_serves dst (dinc * w) w (i + Z.of_nat n) ->
  let '(b', ok) := strided_copy_loop cfg n (u64 (src + i * (sinc * w))) (u64 (dst + i * (dinc * w)))
                     sinc dinc w d b in
  ok = true /\
  bus_view b' ≈ foldl (copy_element src dst (sinc * w) (dinc * w) w) (bus_view b) (seqZ i (Z.of_nat n)).
Proof.
  revert i d b. induction n as [|n IH]; intros i d b Hw Hi Hs Hd; [done|].
  rewrite seqZ_cons by lia. cbn [strided_copy_loop foldl].
  destruct (Hs i ltac:(lia)) as (S0 & S1 & S2). destruct (Hd i ltac:(lia)) as (D0 & D1 & D2).
  rewrite !wrap_small by (split; lia).
  pose proof (move_spec _ _ w d b Hw S2 D2) as Hm.
  destruct (mem_read cfg _ d w b) as [[b1 d'] ok1]. destruct (mem_write cfg _ d' w b1) as [b2 ok2].
  destruct Hm as (-> & -> & Hl & Hv). cbn [negb].
  replace (src + i * (sinc * w) + sinc * w) with (src + (Z.succ i) * (sinc * w)) by lia.
  replace (dst + i * (dinc * w) + dinc * w) with (dst + (Z.succ i) * (dinc * w)) by lia.
  replace (Z.pred (Z.of_nat (S n))) with (Z.of_nat n) by lia.
  specialize (IH (Z.succ i) d' b2). rewrite Hl in IH.
  replace (Z.succ i + Z.of_nat n) with (i + Z.of_nat (S n)) in IH by lia.
  specialize (IH Hw ltac:(lia) Hs Hd). destruct (strided_copy_loop _ _ _ _ _ _ _ _ _) as [b' ok].
  destruct IH as [-> IH]. split; [done|]. rewrite IH. apply foldl_mem_proper; [|done].
  intros x m m' H. by rewrite H.
Qed.

(** The burst loop moves the pieces of the block one after the other, from piece
    [k] on. *)
Lemma copy_loop_spec fuel k src dst n d (b : B) :
  Z.of_nat (length d) = COPY_CHUNK_BYTES -> 0 <= k -> k * COPY_CHUNK_BYTES < n <= (k + Z.of_nat fuel) * COPY_CHUNK_BYTES ->
  0 <= src -> src + n <= 2 ^ 64 -> 0 <= dst -> dst + n <= 2 ^ 64 ->
  (forall j, 0 <= j < n -> bus_serves (src + j)) -> (forall j, 0 <= j < n -> bus_serves (dst + j)) ->
  let '(b', ok) := copy_loop cfg fuel (u64 (src + k * COPY_CHUNK_BYTES)) (u64 (dst + k * COPY_CHUNK_BYTES))
                     (n - k * COPY_CHUNK_BYTES) d b in
  ok = true /\ bus_view b' ≈ foldl (copy_piece src dst COPY_CHUNK_BYTES n) (bus_view b) (seqZ k (pieces COPY_CHUNK_BYTES n - k)).
Proof.
  unfold COPY_CHUNK_BYTES, pieces. revert k d b. induction fuel as [|fuel IH]; intros k d b Hl Hk Hn S0 S1 D0 D1 Hs Hd; [lia|].
  rewrite seqZ_cons by lia. cbn [copy_loop foldl]. destruct (Z.eqb_spec (n - k * 1024) 0) as [|]; [lia|].
  change COPY_CHUNK_BYTES with 1024. rewrite !(wrap_small 64 (_ + k * 1024)) by (split; lia). set (len := Z.min (n - k * 1024) 1024).
  pose proof (move_spec (src + k * 1024) (dst + k * 1024) len d b ltac:(lia)
    ltac:(intros; rewrite <-Z.add_assoc; apply Hs; lia) ltac:(intros; rewrite <-Z.add_assoc; apply Hd; lia)) as Hm.
  destruct (mem_read cfg _ d len b) as [[b1 d'] ok1]. destruct (mem_write cfg _ d' len b1) as [b2 ok2].
  destruct Hm as (-> & -> & Hl' & Hv). cbn [negb].
  assert (bus_view b2 ≈ copy_piece src dst 1024 n (bus_view b) k) as Hp.
  { rewrite Hv. unfold copy_piece, len. by rewrite Z.min_comm. }
  destruct (Z.le_gt_cases n ((k + 1) * 1024)) as [Hlast|Hmore].
  - replace (n - k * 1024 - len) with 0 by lia. rewrite seqZ_nil by lia. by destruct fuel.
  - replace len with 1024 by lia. specialize (IH (Z.succ k) d' b2 ltac:(lia) ltac:(lia) ltac:(lia) S0 S1 D0 D1 Hs Hd).
    replace (src + k * 1024 + 1024) with (src + Z.succ k * 1024) by lia.
    replace (dst + k * 1024 + 1024) with (dst + Z.succ k * 1024) by lia.
    replace (n - k * 1024 - 1024) with (n - Z.succ k * 1024) by lia.
    destruct (copy_loop _ _ _ _ _ _ _) as [b' ok]. destruct IH as [-> IH]. split; [done|].
    replace (Z.pred _) with ((n + 1024 - 1) / 1024 - Z.succ k) by lia.
    rewrite IH. by apply foldl_mem_proper; [intros x m m' H; by rewrite H|].
Qed.

Lemma strided_fill_spec n i dst dinc d (b : B) :
  Z.of_nat (length d) = 8 -> 0 <= i ->
  elements_served bus_serves dst (dinc * 8) 8 (i + Z.of_nat n) ->
  let '(b', ok) := strided_fill_loop cfg n (u64 (dst + i * (dinc * 8))) dinc d b in
  ok = true /\
  bus_view b' ≈ foldl (fill_element dst (dinc * 8) d) (bus_view b) (seqZ i (Z.of_nat n)).
Proof.
  intros Hw. revert i b. induction n as [|n IH]; intros i b Hi Hd; [done|].
  rewrite seqZ_cons by lia. cbn [strided_fill_loop foldl].
  destruct (Hd i ltac:(lia)) as (D0 & D1 & D2). rewrite wrap_small by (split; lia).
  pose proof (mem_write_spec _ 8 d b ltac:(lia) D2) as Hm.
  destruct (mem_write cfg _ d 8 b) as [b2 ok2]. destruct Hm as [-> Hv]. cbn [negb].
  replace (dst + i * (dinc * 8) + dinc * 8) with (dst + (Z.succ i) * (dinc * 8)) by lia.
  replace (Z.pred (Z.of_nat (S n))) with (Z.of_nat n) by lia.
  specialize (IH (Z.succ i) b2 ltac:(lia)).
  replace (Z.succ i + Z.of_nat n) with (i + Z.of_nat (S n)) in IH by lia. specialize (IH Hd).
  destruct (strided_fill_loop _ _ _ _ _ _) as [b' ok]. destruct IH as [-> IH]. split; [done|].
  rewrite IH. apply foldl_mem_proper; [intros x m m' H; by rewrite H|].
  rewrite Hv. unfold fill_element, get_data. by rewrite take_ge by lia.
Qed.

Lemma fill_loop_spec fuel dst n v (b : B) :
  0 <= n <= FILL_CHUNK_BYTES * Z.of_nat fuel -> 0 <= dst -> dst + n <= 2 ^ 64 ->
  (forall k, 0 <= k < n -> bus_serves (dst + k)) ->
  let '(b', ok) := fill_loop cfg fuel (u64 dst) n (fill_chunk FILL_CHUNK_BYTES v) b in
  ok = true /\ bus_view b' ≈ Bytes.mem_write dst (fill_chunk n v) (bus_view b).
Proof.
  unfold FILL_CHUNK_BYTES. revert dst n b. induction fuel as [|fuel IH]; intros dst n b Hn D0 D1 Hd.
  { assert (n = 0) as -> by lia. done. }
  cbn [fill_loop]. destruct (Z.eqb_spec n 0) as [->|]; [done|]. unfold FILL_CHUNK_BYTES.
  rewrite wrap_small by (split; lia). set (len := Z.min n 256).
  pose proof (fill_chunk_length 256 v ltac:(lia)).
  pose proof (mem_write_spec dst len (fill_chunk 256 v) b ltac:(lia) ltac:(intros; apply Hd; lia)) as Hm.
  destruct (mem_write cfg _ _ len b) as [b2 ok2]. destruct Hm as [-> Hv]. cbn [negb].
  specialize (IH (dst + len) (n - len) b2 ltac:(lia) ltac:(lia) ltac:(lia)).
  specialize (IH ltac:(intros; rewrite <-Z.add_assoc; apply Hd; lia)).
  destruct (fill_loop _ _ _ _ _ _) as [b' ok]. destruct IH as [-> IH]. split; [done|]. rewrite IH, Hv.
  unfold get_data. replace (take (Z.to_nat len) (fill_chunk 256 v)) with (fill_chunk len v)
    by (symmetry; apply (fill_chunk_slice 256 v 0 len); done || lia).
  destruct (Z.le_gt_cases n 256).
  - assert (len = n) as -> by lia. by rewrite Z.sub_diag.
  - replace n with (len + (n - len)) at 2 by lia. rewrite fill_chunk_app by (lia || (unfold len; by rewrite Z.min_r by lia)).
    rewrite <-mem_write_app, fill_chunk_length by lia. done.
Qed.
End dma_proofs.

(** * Commands *)

Lemma transfer_width_range ctrl : 1 <= transfer_bytes_from_ctrl ctrl <= 128.
Proof.
  unfold transfer_bytes_from_ctrl. change 0x7 with (Z.ones 3). rewrite Z.land_ones by lia.
  pose proof (Z.mod_pos_bound ctrl (2 ^ 3) ltac:(lia)). rewrite shl_bit by lia.
  unfold bit. rewrite Z.shiftl_1_l. split.
  - pose proof (Z.pow_pos_nonneg 2 (ctrl mod 2 ^ 3) ltac:(lia) ltac:(lia)). lia.
  - change 128 with (2 ^ 7). apply Z.pow_le_mono_r; lia.
Qed.

(** The width of an element divides a piece. *)
Lemma transfer_width_divides ctrl : exists e, 0 < e /\ COPY_CHUNK_BYTES = e * transfer_bytes_from_ctrl ctrl.
Proof.
  unfold transfer_bytes_from_ctrl. change 0x7 with (Z.ones 3). rewrite Z.land_ones by lia.
  pose proof (Z.mod_pos_bound ctrl (2 ^ 3) ltac:(lia)). rewrite shl_bit by lia. unfold bit. rewrite Z.shiftl_1_l.
  set (k := ctrl mod 2 ^ 3) in *. exists (2 ^ (10 - k)). rewrite <-Z.pow_add_r by lia.
  replace (10 - k + k) with 10 by lia. split; [apply Z.pow_pos_nonneg; lia|done].
Qed.

Lemma moved_agree m base mm : let t := copy_transfer m base in
  0 <= t_count t -> contiguous t = false \/ copy_overlap_ok t -> moved t mm ≈ moved_elements t mm.
Proof.
  intros t Hn Hov. unfold moved. destruct (contiguous t) eqn:Ec; [|done]. destruct Hov as [|Hov]; [done|].
  unfold contiguous in Ec. bool_hyps. unfold moved_elements. rewrite H, H0.
  pose proof (transfer_width_range (load32 m (base + CH_CTRL))) as Hw. change (1 <= t_width t <= 128) in Hw.
  destruct (transfer_width_divides (load32 m (base + CH_CTRL))) as (e & He & Ee). change (COPY_CHUNK_BYTES = e * t_width t) in Ee.
  unfold copy_overlap_ok in Hov. rewrite Ee in *. unfold range at 1.
  rewrite <-(Z2Nat.id (pieces _ _)) by (apply Z.div_pos; nia).
  rewrite pieces_elements; [|lia..|done|rewrite Z2Nat.id; [lia|apply Z.div_pos; nia]].
  by rewrite Z.mul_0_l, Z.sub_0_r.
Qed.

Section dma_commands.
Context (cfg : dma_config) {B : Type} {bus : TlmTarget B} {mb : MemoryBus B}.
Hypothesis bound : initiator_bound cfg = true.

Lemma trace_copy_regs base s : m_regs (trace_copy cfg base s) = m_regs s.
Proof. unfold trace_copy. by case_if. Qed.
Lemma trace_fill_regs base s : m_regs (trace_fill cfg base s) = m_regs s.
Proof. unfold trace_fill. by case_if. Qed.

Lemma execute_copy_spec base s (b : B) :
  let t := copy_transfer (m_regs s) base in
  0 <= t_count t ->
  elements_served bus_serves (t_src t) (t_src_step t) (t_width t) (t_count t) ->
  elements_served bus_serves (t_dst t) (t_dst_step t) (t_width t) (t_count t) ->
  let '((s', b'), ok) := execute_copy cfg base (s, b) in
  ok = true /\ m_regs s' = m_regs s /\ bus_view b' ≈ moved t (bus_view b).
Proof.
  cbv zeta. unfold moved, moved_elements, contiguous, execute_copy. cbn [t_src t_dst t_count t_src_step t_dst_step t_width copy_transfer].
  set (src := channel_address _ _ CH_SRCADDR). set (dst := channel_address _ _ CH_DESADDR).
  set (n := Z.min _ _). set (inc := load32 _ (base + CH_XADDRINC)).
  pose proof (transfer_width_range (load32 (m_regs s) (base + CH_CTRL))) as Hw.
  set (w := transfer_bytes_from_ctrl _) in *. intros Hn Hs Hd.
  replace ((sign_extend16 inc * w =? w) && (sign_extend16 (Z.shiftr inc 16) * w =? w))
    with ((sign_extend16 inc =? 1) && (sign_extend16 (Z.shiftr inc 16) =? 1)).
  2:{ f_equal; apply eq_true_iff_eq; rewrite !Z.eqb_eq; nia. }
  destruct (Z.eqb_spec n 0) as [->|].
  { rewrite trace_copy_regs. by case_if. }
  destruct (_ && _) eqn:Einc; bool_hyps.
  - rewrite H, H0, !Z.mul_1_l in *.
    destruct (elements_block _ _ w n ltac:(lia) ltac:(lia) Hs) as (S0 & S1 & S2).
    destruct (elements_block _ _ w n ltac:(lia) ltac:(lia) Hd) as (D0 & D1 & D2).
    pose proof (copy_loop_spec cfg bound (S (Z.to_nat (n * w / COPY_CHUNK_BYTES))) 0 src dst (n * w)
      (replicate (Z.to_nat COPY_CHUNK_BYTES) 0) b) as H1.
    rewrite Z.mul_0_l, !Z.add_0_r, Z.add_0_l, !Z.sub_0_r in H1. rewrite !wrap_small in H1 by (unfold is_uint; nia).
    destruct (copy_loop _ _ _ _ _ _ _) as [b' ok].
    destruct H1 as [-> H1]; [by rewrite length_replicate|done| |lia..|done|done|].
    { split; [nia|]. pose proof (Z.mod_pos_bound (n * w) COPY_CHUNK_BYTES ltac:(done)).
      pose proof (Z.div_mod (n * w) COPY_CHUNK_BYTES ltac:(done)).
      pose proof (Z.div_pos (n * w) COPY_CHUNK_BYTES ltac:(nia) ltac:(done)). lia. }
    split; [done|]. split; [apply trace_copy_regs|]. exact H1.
  - pose proof (strided_copy_spec cfg bound (Z.to_nat n) 0 src dst (sign_extend16 inc)
      (sign_extend16 (Z.shiftr inc 16)) w (replicate 128 0) b) as H1.
    destruct (Hs 0 ltac:(lia)) as (S0 & S1 & _). destruct (Hd 0 ltac:(lia)) as (D0 & D1 & _).
    rewrite !Z.mul_0_l, !Z.add_0_r, Z2Nat.id, Z.add_0_l in H1 by lia.
    rewrite !wrap_small in H1 by (split; lia).
    destruct (strided_copy_loop _ _ _ _ _ _ _ _ _) as [b' ok].
    destruct H1 as [-> H1]; [rewrite length_replicate; lia|lia|done|done|].
    split; [done|]. split; [apply trace_copy_regs|]. exact H1.
Qed.

Lemma execute_fill_spec base s (b : B) :
  let t := fill_transfer (m_regs s) base in
  let v := load32 (m_regs s) (base + CH_FILLVAL) in
  0 <= t_count t -> elements_served bus_serves (t_dst t) (t_dst_step t) 8 (t_count t) ->
  let '((s', b'), ok) := execute_fill cfg base (s, b) in
  ok = true /\ m_regs s' = m_regs s /\
  bus_view b' ≈ foldl (fill_element (t_dst t) (t_dst_step t) (fill_chunk 8 v))
                  (bus_view b) (range (t_count t)).
Proof.
  cbv zeta. unfold execute_fill. cbn [t_src t_dst t_count t_src_step t_dst_step t_width fill_transfer].
  set (dst := load32 _ (base + CH_DESADDR)). set (n := Z.land _ 0xffff).
  set (inc := sign_extend16 _). set (v := load32 _ (base + CH_FILLVAL)). intros Hn Hd.
  destruct (Z.eqb_spec n 0) as [->|].
  { done. }
  destruct (Z.eqb_spec inc 1) as [->|]; cbn [negb].
  - change (1 * 8) with 8 in *. destruct (elements_block _ _ 8 n ltac:(lia) ltac:(lia) Hd) as (D0 & D1 & D2).
    pose proof (fill_loop_spec cfg bound (S (Z.to_nat (n * 8 / FILL_CHUNK_BYTES))) dst (n * 8) v b) as H1.
    rewrite wrap_small in H1 by (unfold is_uint; lia).
    destruct (fill_loop _ _ _ _ _ _) as [b' ok]. destruct H1 as [-> H1]; [|lia..|done|].
    { unfold FILL_CHUNK_BYTES. split; [lia|]. lia. }
    split; [done|]. split; [apply trace_fill_regs|].
    rewrite (fill_elements_block dst 8 (fill_chunk 8 v) (fill_chunk (n * 8) v) n); [done|done|lia| |].
    + intros k Hk. apply fill_chunk_slice; lia.
    + by apply fill_chunk_length; lia.
  - pose proof (strided_fill_spec cfg bound (Z.to_nat n) 0 dst inc (fill_chunk 8 v) b) as H1.
    destruct (Hd 0 ltac:(lia)) as (D0 & D1 & _).
    rewrite !Z.mul_0_l, !Z.add_0_r, Z2Nat.id, Z.add_0_l, wrap_small in H1 by (lia || split; lia).
    unfold execute_strided_fill. destruct (strided_fill_loop _ _ _ _ _ _) as [b' ok].
    destruct H1 as [-> H1]; [done|done|done|].
    split; [done|]. split; [apply trace_fill_regs|]. exact H1.
Qed.
End dma_commands.

(** * The command register *)

Definition channel_base (ch : Z) : Z := CH_BASE + ch * CH_STRIDE.

(** The status a command leaves: done or error, with the interrupt bit when the
    channel enables it. *)
Definition completion_status (ok : bool) (intren : Z) : Z :=
  if ok then Z.lor CH_STATUS_STAT_DONE (if Z.testbit intren 0 then CH_STATUS_INTR_DONE else 0)
  else Z.lor CH_STATUS_STAT_ERR (if Z.testbit intren 1 then CH_STATUS_INTR_ERR else 0).

Definition dma_inv (s : dma350) : Prop := mem_ok REG_BYTES (m_regs s).

Section dma_status.
Context (cfg : dma_config) {B : Type} {bus : TlmTarget B}.

Lemma execute_regs base (sb : dma350 * B) :
  m_regs (fst (fst (execute_channel cfg base sb))) = m_regs (fst sb).
Proof.
  destruct sb as [s b]. unfold execute_channel. case_if.
  - unfold execute_fill. case_if; [done|].
    case_if; [destruct (execute_strided_fill _ _ _ _ _ _) as [b' ok]|destruct (fill_loop _ _ _ _ _ _) as [b' ok]];
      apply trace_fill_regs.
  - unfold execute_copy. case_if; [apply trace_copy_regs|].
    case_if; [destruct (copy_loop _ _ _ _ _ _ _) as [b' ok]|
              destruct (strided_copy_loop _ _ _ _ _ _ _ _ _) as [b' ok]]; apply trace_copy_regs.
Qed.

Lemma complete_channel_eq base ok s :
  m_regs (complete_channel base ok s) =
  store32 (base + CH_STATUS) (completion_status ok (load32 (m_regs s) (base + CH_INTREN))) (m_regs s).
Proof.
  unfold complete_channel, completion_status, CH_STATUS_INTR_DONE, CH_STATUS_INTR_ERR.
  rewrite !test_bit by lia. by destruct ok; case_if.
Qed.

(** A write to a channel's command register, opened up. *)
Lemma write_cmd side ch v s (b : B) : 0 <= ch < 16 ->
  write32 cfg side (channel_base ch + CH_CMD) v (s, b) =
  if side && Z.testbit v 0 then
    let base := channel_base ch in
    let '((s', b'), ok) :=
      execute_channel cfg base (s <| m_regs ::= store32 (base + CH_STATUS) 0 |>, b) in
    ((complete_channel base ok s') <| m_regs ::= store32 (base + CH_CMD) 0 |>, b')
  else (s <| m_regs ::= store32 (channel_base ch + CH_CMD) 0 |>, b).
Proof.
  intros Hch. unfold write32, channel_base, CH_BASE, CH_STRIDE, CH_CMD, REG_BYTES.
  replace (_ && _) with true by lia.
  replace ((0x1000 + ch * 0x100 + 0 - 0x1000) mod 0x100) with 0.
  2:{ replace (0x1000 + ch * 0x100 + 0 - 0x1000) with (ch * 0x100) by lia. by rewrite Z.mod_mul by lia. }
  change (0 =? CH_STATUS) with false. change (0 =? 0) with true. cbv iota.
  rewrite !Z.sub_0_r, !Z.add_0_r. change CH_CMD_ENABLE with (bit 0). rewrite test_bit by lia.
  case_if; [|done]. by destruct (execute_channel _ _ _) as [[s' b'] ok].
Qed.
End dma_status.

(** The registers that describe a transfer are not the status register. *)
Lemma transfer_status m base v :
  copy_transfer (store32 (base + CH_STATUS) v m) base = copy_transfer m base /\
  fill_transfer (store32 (base + CH_STATUS) v m) base = fill_transfer m base /\
  load32 (store32 (base + CH_STATUS) v m) (base + CH_FILLVAL) = load32 m (base + CH_FILLVAL) /\
  load32 (store32 (base + CH_STATUS) v m) (base + CH_CTRL) = load32 m (base + CH_CTRL) /\
  load32 (store32 (base + CH_STATUS) v m) (base + CH_INTREN) = load32 m (base + CH_INTREN).
Proof.
  unfold copy_transfer, fill_transfer, channel_address, source_xsize, dest_xsize, CH_STATUS, CH_CTRL,
    CH_XADDRINC, CH_SRCADDR, CH_DESADDR, CH_XSIZE, CH_XSIZEHI, CH_FILLVAL, CH_INTREN.
  rewrite !load32_store32_ne by lia. done.
Qed.

Lemma transfer_count_nonneg m base : mem_ok REG_BYTES m ->
  0 <= t_count (copy_transfer m base) /\ 0 <= t_count (fill_transfer m base).
Proof.
  intros Hm. cbn [t_count copy_transfer fill_transfer]. split.
  - apply Z.min_glb; apply Z.lor_nonneg; split;
      try (apply Z.land_nonneg; right; done); apply (wrap_range 32); lia.
  - apply Z.land_nonneg. by right.
Qed.

(** The transfer type field of a channel's control register. *)
Definition xtype (m : mem) (base : Z) : Z :=
  Z.shiftr (Z.land (load32 m (base + CH_CTRL)) CH_CTRL_XTYPE_MASK) CH_CTRL_XTYPE_SHIFT.

(** Completion is faithful.  For any bus, a command write with the enable
    bit runs the channel once and leaves exactly the status the outcome calls
    for - done or error, with the interrupt bit only when enabled - reads back
    zero from the command register, and changes no other register byte, of this
    channel or any other; without the enable bit, or on the debug transport,
    the bus sees nothing. *)
Theorem dma_command_completion {B} {bus : TlmTarget B} cfg side ch v s (b : B) :
  dma_inv s -> 0 <= ch < 16 ->
  let base := channel_base ch in
  let '(s', b') := write32 cfg side (base + CH_CMD) v (s, b) in
  let '((_, b1), ok) := execute_channel cfg base (s <| m_regs ::= store32 (base + CH_STATUS) 0 |>, b) in
  load32 (m_regs s') (base + CH_CMD) = 0 /\
  (forall i, i < base \/ base + 8 <= i -> mem_get (m_regs s') i = mem_get (m_regs s) i) /\
  if side && Z.testbit v 0 then
    b' = b1 /\
    load32 (m_regs s') (base + CH_STATUS) = completion_status ok (load32 (m_regs s) (base + CH_INTREN))
  else b' = b /\ load32 (m_regs s') (base + CH_STATUS) = load32 (m_regs s) (base + CH_STATUS).
Proof.
  intros Hs Hch. cbv zeta. rewrite write_cmd by done. cbv zeta. set (base := channel_base ch).
  pose proof (execute_regs cfg base (s <| m_regs ::= store32 (base + CH_STATUS) 0 |>, b)) as Hr.
  destruct (execute_channel _ _ _) as [[s1 b1] ok]. cbn [fst m_regs set_field] in Hr.
  destruct (transfer_status (m_regs s) base 0) as (_ & _ & _ & _ & Hi).
  assert (forall i off w m, i < base \/ base + 8 <= i -> off = base + CH_CMD \/ off = base + CH_STATUS ->
    mem_get (store32 off w m) i = mem_get m i) as Hout.
  { intros i off w m Hi' Ho. apply mem_get_write_out. rewrite le_bytes_length.
    unfold CH_CMD, CH_STATUS in Ho. lia. }
  assert (forall ok x, is_u32 (completion_status ok x)) as Hc.
  { intros o x. unfold completion_status. destruct o; case_if; by cbv. }
  destruct (side && Z.testbit v 0); cbn [m_regs set_field].
  - rewrite complete_channel_eq, Hr, Hi. split; [by apply load32_store32_eq; split|].
    split; [intros i Hout'; rewrite !Hout by auto; done|]. split; [done|].
    rewrite load32_store32_ne by (unfold CH_CMD, CH_STATUS; lia). by apply load32_store32_eq.
  - split; [by apply load32_store32_eq; split|]. split; [intros i Hout'; by rewrite Hout by auto|].
    split; [done|]. rewrite load32_store32_ne by (unfold CH_CMD, CH_STATUS; lia). done.
Qed.

(** C15. A copy command moves the data, for every programmed transfer and every
    overlap of its ends.  With memory that serves all elements behind the initiator
    socket, the command reports done, and the memory is what the transfer leaves by
    its kind: elements that are not adjacent on both sides move one after the other
    at the programmed strides, and adjacent ones move in pieces of 1 KiB, each read
    whole before it is written.  The pieces leave what the elements one by one would
    leave, unless the destination begins inside the source and less than a piece
    ahead of it ([dma_burst_differs]). *)
Theorem dma_copy_command {B} {bus : TlmTarget B} {mb : MemoryBus B} cfg ch v s (b : B) :
  let base := channel_base ch in
  let t := copy_transfer (m_regs s) base in
  dma_inv s -> 0 <= ch < 16 -> initiator_bound cfg = true -> Z.testbit v 0 = true ->
  xtype (m_regs s) base <> CH_CTRL_XTYPE_FILL ->
  elements_served bus_serves (t_src t) (t_src_step t) (t_width t) (t_count t) ->
  elements_served bus_serves (t_dst t) (t_dst_step t) (t_width t) (t_count t) ->
  let '(s', b') := write32 cfg true (base + CH_CMD) v (s, b) in
  load32 (m_regs s') (base + CH_STATUS) = completion_status true (load32 (m_regs s) (base + CH_INTREN)) /\
  bus_view b' ≈ moved t (bus_view b) /\
  (contiguous t = false \/ copy_overlap_ok t -> bus_view b' ≈ moved_elements t (bus_view b)).
Proof.
  cbv zeta. set (base := channel_base ch). intros Hs Hch Hb Hv Hx Hsrc Hdst.
  unfold base at 1. rewrite write_cmd, Hv by done. cbn [andb]. cbv zeta. fold base.
  destruct (transfer_status (m_regs s) base 0) as (Ht & _ & _ & Hctrl & Hint).
  destruct (transfer_count_nonneg (m_regs s) base Hs) as [Hn _].
  unfold execute_channel. cbn [fst m_regs set_field]. rewrite Hctrl. fold (xtype (m_regs s) base).
  replace (xtype (m_regs s) base =? CH_CTRL_XTYPE_FILL) with false by lia.
  pose proof (execute_copy_spec cfg Hb base (s <| m_regs ::= store32 (base + CH_STATUS) 0 |>) b) as H.
  cbn [m_regs set_field] in H. rewrite Ht in H. specialize (H Hn Hsrc Hdst).
  destruct (execute_copy _ _ _) as [[s1 b1] ok]. destruct H as (-> & Hr & Hview).
  split; [|split; [exact Hview|]].
  - cbn [m_regs set_field]. rewrite complete_channel_eq, Hr, Hint.
    rewrite load32_store32_ne by (unfold CH_CMD, CH_STATUS; lia). apply load32_store32_eq.
    unfold completion_status. case_if; by cbv.
  - intros Hov. rewrite Hview. by apply moved_agree.
Qed.

(** A fill command writes the pattern.  With memory that serves the
    programmed elements, the command reports done and every 8-byte element holds
    the fill value twice over, the bytes between strided elements being
    untouched; the burst of 256-byte chunks gives the same memory. *)
Theorem dma_fill_command {B} {bus : TlmTarget B} {mb : MemoryBus B} cfg ch v s (b : B) :
  let base := channel_base ch in
  let t := fill_transfer (m_regs s) base in
  dma_inv s -> 0 <= ch < 16 -> initiator_bound cfg = true -> Z.testbit v 0 = true ->
  xtype (m_regs s) base = CH_CTRL_XTYPE_FILL ->
  elements_served bus_serves (t_dst t) (t_dst_step t) 8 (t_count t) ->
  let '(s', b') := write32 cfg true (base + CH_CMD) v (s, b) in
  load32 (m_regs s') (base + CH_STATUS) = completion_status true (load32 (m_regs s) (base + CH_INTREN)) /\
  bus_view b' ≈
    foldl (fill_element (t_dst t) (t_dst_step t)
             (le_bytes 4 (load32 (m_regs s) (base + CH_FILLVAL)) ++
              le_bytes 4 (load32 (m_regs s) (base + CH_FILLVAL))))
      (bus_view b) (range (t_count t)).
Proof.
  cbv zeta. set (base := channel_base ch). intros Hs Hch Hb Hv Hx Hdst.
  unfold base at 1. rewrite write_cmd, Hv by done. cbn [andb]. cbv zeta. fold base.
  destruct (transfer_status (m_regs s) base 0) as (_ & Ht & Hval & Hctrl & Hint).
  destruct (transfer_count_nonneg (m_regs s) base Hs) as [_ Hn].
  unfold execute_channel. cbn [fst m_regs set_field]. rewrite Hctrl. fold (xtype (m_regs s) base).
  rewrite Hx, Z.eqb_refl.
  pose proof (execute_fill_spec cfg Hb base (s <| m_regs ::= store32 (base + CH_STATUS) 0 |>) b) as H.
  cbn [m_regs set_field] in H. rewrite Ht, Hval in H. specialize (H Hn Hdst).
  destruct (execute_fill _ _ _) as [[s1 b1] ok]. destruct H as (-> & Hr & Hview).
  rewrite <-fill_chunk_word. split; [|exact Hview].
  cbn [m_regs set_field]. rewrite complete_channel_eq, Hr, Hint.
  rewrite load32_store32_ne by (unfold CH_CMD, CH_STATUS; lia). apply load32_store32_eq.
  unfold completion_status. case_if; by cbv.
Qed.

(** * The register file *)

Section dma_registers.
Context (cfg : dma_config) {B : Type} {bus : TlmTarget B}.

Lemma dma_write32_inv side offset v (sb : dma350 * B) :
  0 <= offset -> offset mod 4 = 0 -> offset + 4 <= REG_BYTES -> is_u32 v ->
  dma_inv (fst sb) -> dma_inv (fst (write32 cfg side offset v sb)).
Proof.
  intros H0 Hal H1 _ Hs. destruct sb as [s b]. unfold dma_inv, REG_BYTES in *. cbn [fst] in Hs.
  destruct (Z.le_gt_cases CH_BASE offset) as [Hle|].
  2:{ unfold write32. replace (_ && _) with false by lia. cbn. eauto with regs. }
  destruct (Z.eq_dec ((offset - CH_BASE) mod CH_STRIDE) CH_CMD) as [E|E].
  - assert (exists ch, 0 <= ch < 16 /\ offset = channel_base ch + CH_CMD) as (ch & Hch & ->).
    { exists ((offset - CH_BASE) / CH_STRIDE).
      unfold channel_base, CH_BASE, CH_STRIDE, CH_CMD in *. lia. }
    rewrite write_cmd by done.
    unfold channel_base, CH_BASE, CH_STRIDE, CH_CMD, CH_STATUS in *. case_if.
    + pose proof (execute_regs cfg (0x1000 + ch * 0x100)
        (s <| m_regs ::= store32 (0x1000 + ch * 0x100 + 4) 0 |>, b)) as Hr. cbn in Hr. cbv zeta.
      destruct (execute_channel _ _ _) as [[s1 b1] ok]. cbn in Hr. cbn [fst m_regs set_field].
      rewrite complete_channel_eq, Hr. unfold CH_STATUS. repeat apply mem_ok_store32; (done || lia).
    + cbn. apply mem_ok_store32; (done || lia).
  - unfold write32. replace ((CH_BASE <=? offset) && (offset <? REG_BYTES)) with true
      by (unfold REG_BYTES in *; lia).
    destruct (Z.eqb_spec ((offset - CH_BASE) mod CH_STRIDE) CH_STATUS) as [E'|].
    + unfold clear_channel_status. cbn [fst m_regs set_field]. rewrite E'.
      apply mem_ok_store32; [done|unfold CH_BASE, CH_STATUS in *; lia..].
    + replace (_ =? CH_CMD) with false by lia. cbn. apply mem_ok_store32; (done || lia).
Qed.

Lemma dma_trace_access_regs t s : m_regs (trace_access cfg t s) = m_regs s.
Proof. unfold trace_access. by case_if. Qed.

(** The controller keeps the contract of a target. *)
#[refine] Definition dma_target : TlmTarget (dma350 * B) :=
  array_target REG_BYTES (fun sb => m_regs (fst sb))
    (fun dbg => regfile_write (fun f sb => ((fst sb) <| m_regs ::= f |>, snd sb)) (write32 cfg (negb dbg)))
    (fun t sb => (trace_access cfg t (fst sb), snd sb)) (fun sb => dma_inv (fst sb)) _ _ _.
Proof.
  - done.
  - intros dbg. refine (regfile_write_inv REG_BYTES _ _ (fun sb => dma_inv (fst sb)) _ _ _).
    + done.
    + apply dma_write32_inv.
    + intros f sb Hs Hf. by apply Hf.
  - intros t sb Hs. unfold dma_inv. cbn. by rewrite dma_trace_access_regs.
Defined.
End dma_registers.

(** * Channel 0 over a small memory *)

Definition example_config : dma_config := {|
  p_trace := false; p_trace_limit := 64; p_trace_filter := "all"; p_trace_address_min := 0;
  initiator_bound := true |}.

(** [n] one-byte elements from 0x100 to 0x200; [ctrl] selects copy or fill. *)
Definition example_state (ctrl : Z) : dma350 :=
  let m := m_regs initial in
  let m := store32 (CH_BASE + CH_CTRL) ctrl m in
  let m := store32 (CH_BASE + CH_INTREN) 1 m in
  let m := store32 (CH_BASE + CH_SRCADDR) 0x100 m in
  let m := store32 (CH_BASE + CH_DESADDR) 0x200 m in
  let m := store32 (CH_BASE + CH_XSIZE) 0x00100010 m in
  let m := store32 (CH_BASE + CH_XADDRINC) 0x00010001 m in
  let m := store32 (CH_BASE + CH_FILLVAL) 0x11223344 m in
  MkDma m 0.

Definition example_memory : mem := Bytes.mem_write 0x100 (range 16) ∅.

Lemma dma_example_inv ctrl : dma_inv (example_state ctrl).
Proof. repeat (apply mem_ok_store32; [|by cbv|by cbv]). apply mem_ok_empty. Qed.

(** A window of the memory is served. *)
Lemma ram_serves a width n : 0 <= a -> 0 <= width -> a + n * width <= 0x1000 ->
  elements_served (bus_serves (MemoryBus := ram_bus 0x1000)) a width width n.
Proof. intros Ha Hw Hn i Hi. split; [nia|]. split; [nia|]. intros k Hk. cbn. nia. Qed.

Lemma dma_command_completion_witness :
  let r := write32 (bus := ram 0x1000) example_config true (channel_base 0 + CH_CMD) 1
             (example_state 0x200, example_memory) in
  dma_inv (example_state 0x200) /\ load32 (m_regs (fst r)) (channel_base 0 + CH_CMD) = 0.
Proof.
  cbv zeta. split; [exact (dma_example_inv 0x200)|].
  pose proof (dma_command_completion (bus := ram 0x1000) example_config true 0 1 (example_state 0x200)
    example_memory (dma_example_inv 0x200) ltac:(lia)) as H.
  cbv zeta in H. destruct (write32 _ _ _ _ _) as [s' b']. destruct (execute_channel _ _ _) as [[s1 b1] ok].
  destruct H as [H _]. exact H.
Defined.

Lemma dma_copy_command_witness :
  let r := write32 (bus := ram 0x1000) example_config true (channel_base 0 + CH_CMD) 1
             (example_state 0x200, example_memory) in
  let t := copy_transfer (m_regs (example_state 0x200)) (channel_base 0) in
  t = {| t_src := 0x100; t_dst := 0x200; t_count := 16; t_src_step := 1; t_dst_step := 1; t_width := 1 |} /\
  load32 (m_regs (fst r)) (channel_base 0 + CH_STATUS) = Z.lor CH_STATUS_STAT_DONE CH_STATUS_INTR_DONE /\
  snd r ≈ moved t example_memory /\ snd r ≈ moved_elements t example_memory.
Proof.
  cbv zeta. assert (copy_transfer (m_regs (example_state 0x200)) (channel_base 0) =
    {| t_src := 0x100; t_dst := 0x200; t_count := 16; t_src_step := 1; t_dst_step := 1; t_width := 1 |})
    as E by (vm_compute; reflexivity).
  split; [exact E|].
  pose proof (dma_copy_command (bus := ram 0x1000) (mb := ram_bus 0x1000) example_config 0 1
    (example_state 0x200) example_memory) as H.
  cbv zeta in H. rewrite E in *.
  specialize (H (dma_example_inv 0x200) ltac:(lia) eq_refl eq_refl ltac:(vm_compute; discriminate)
    ltac:(apply ram_serves; cbn; lia) ltac:(apply ram_serves; cbn; lia)).
  destruct (write32 _ _ _ _ _) as [s' b']. destruct H as (H1 & H2 & H3). cbn [fst snd].
  split; [rewrite H1; vm_compute; reflexivity|]. split; [exact H2|]. apply H3. right. right. by cbv.
Defined.

(** Two bytes moved up by one: the burst reads both before it writes, and moving them
    one by one copies the first twice. *)
Lemma dma_burst_differs :
  let s := (example_state 0x200) <| m_regs ::= fun m =>
    store32 (CH_BASE + CH_XSIZE) 0x00020002 (store32 (CH_BASE + CH_DESADDR) 0x101 m) |> in
  let t := copy_transfer (m_regs s) (channel_base 0) in
  let r := write32 (bus := ram 0x1000) example_config true (channel_base 0 + CH_CMD) 1
             (s, Bytes.mem_write 0x100 [1; 2; 3] ∅) in
  Bytes.mem_read (snd r) 0x100 3 = [1; 1; 2] /\
  Bytes.mem_read (moved_elements t (Bytes.mem_write 0x100 [1; 2; 3] ∅)) 0x100 3 = [1; 1; 1].
Proof. vm_compute. done. Qed.

Lemma dma_fill_command_witness :
  let r := write32 (bus := ram 0x1000) example_config true (channel_base 0 + CH_CMD) 1
             (example_state 0x600, example_memory) in
  xtype (m_regs (example_state 0x600)) (channel_base 0) = CH_CTRL_XTYPE_FILL /\
  snd r ≈ foldl (fill_element 0x200 8 [0x44; 0x33; 0x22; 0x11; 0x44; 0x33; 0x22; 0x11])
            example_memory (range 16).
Proof.
  cbv zeta. split; [vm_compute; reflexivity|].
  assert (fill_transfer (m_regs (example_state 0x600)) (channel_base 0) =
    {| t_src := 0; t_dst := 0x200; t_count := 16; t_src_step := 0; t_dst_step := 8; t_width := 8 |})
    as E by (vm_compute; reflexivity).
  assert (load32 (m_regs (example_state 0x600)) (channel_base 0 + CH_FILLVAL) = 0x11223344) as Ev
    by (vm_compute; reflexivity).
  pose proof (dma_fill_command (bus := ram 0x1000) (mb := ram_bus 0x1000) example_config 0 1
    (example_state 0x600) example_memory) as H.
  cbv zeta in H. rewrite E, Ev in H.
  specialize (H (dma_example_inv 0x600) ltac:(lia) eq_refl eq_refl ltac:(vm_compute; reflexivity)
    ltac:(apply ram_serves; cbn; lia)).
  destruct (write32 _ _ _ _ _) as [s' b']. destruct H as [_ H2]. exact H2.
Defined.

(** A fill ignores the upper half of the destination address, which a copy uses. *)
Lemma dma_fill_drops_high_address m base v :
  fill_transfer (store32 (base + CH_DESADDRHI) v m) base = fill_transfer m base.
Proof.
  unfold fill_transfer, CH_DESADDRHI, CH_XADDRINC, CH_DESADDR, CH_XSIZE.
  by rewrite !load32_store32_ne by lia.
Qed.
