(* ===== verification/StrataFlash.v ===== *)
(** The Strata NOR flash [strata_flash_j3]
    (systemc-components/strata_flash_j3/include/strata_flash_j3.h): the command
    state machine, word and buffered programming, sector erase with its cache of
    erased sectors, the backing file with deferred writes, and direct memory
    access. *)

From Stdlib Require Import Ascii String.
From stdpp Require Import strings.
From S2P Require Import Prelude Bytes Vectors FlashRanges Tlm.

(** * Constants *)

Definition CMD_READ_ARRAY : Z := 0xff.
Definition CMD_READ_ID_CODE : Z := 0x90.
Definition CMD_READ_QUERY : Z := 0x98.
Definition CMD_READ_STATUS_REG : Z := 0x70.
Definition CMD_CLEAR_STATUS_REG : Z := 0x50.
Definition CMD_WRITE_TO_BUFFER : Z := 0xe8.
Definition CMD_WORD_PROGRAM : Z := 0x40.
Definition CMD_BLOCK_ERASE : Z := 0x20.
Definition CMD_LOCK_UNLOCK : Z := 0x60.
Definition CMD_BLOCK_ERASE_ACK : Z := 0xd0.
Definition CMD_LOCK_BLOCK : Z := 0x01.
Definition STATUS_READY : Z := 0x80.
Definition MANUFACTURER_ID : Z := 0x89.
Definition DEVICE_CODE : Z := 0x18.
Definition WRITE_BUFFER_MAX : Z := 256.

(** * State *)

(** [strata_flash_j3.h: "enum class mode {" .. "};"] *)
Inductive mode := read_array | read_id | read_query | read_status.

(** [strata_flash_j3.h: "enum class pending_command {" .. "};"] *)
Inductive pending_command :=
| pending_none
| pending_program
| pending_write_buffer_count
| pending_write_buffer_data
| pending_erase
| pending_lock.

#[export] Instance mode_eq_dec : EqDecision mode.
Proof. solve_decision. Defined.
#[export] Instance pending_command_eq_dec : EqDecision pending_command.
Proof. solve_decision. Defined.

(** The statistics counters, [m_x] under the name [x]. *)
(** [strata_flash_j3.h: "uint64_t m_read_accesses = 0;" .. "uint64_t m_backing_flush_bytes = 0;"] *)
Inductive stat :=
| read_accesses | write_accesses | read_bytes | write_bytes | dmi_read_hints | dmi_requests
| dmi_grants | dmi_reject_disabled | dmi_reject_state | dmi_reject_command | dmi_reject_range
| dmi_invalidations | command_writes | read_array_cmds | read_id_cmds | read_query_cmds
| read_status_cmds | clear_status_cmds | write_buffer_cmds | write_buffer_count_writes
| write_buffer_data_writes | write_buffer_confirm_cmds | write_buffer_ops | write_buffer_bytes
| word_program_cmds | block_erase_cmds | block_erase_ack_cmds | lock_unlock_cmds | lock_block_cmds
| unknown_cmds | program_ops | program_bytes | program_changed_bytes | program_noop_bytes
| compat_ff_sector_erase_ops | sector_erase_ops | sector_erase_bytes | backing_write_ops
| backing_write_bytes | backing_deferred_ranges | backing_deferred_bytes | backing_flush_ops
| backing_flush_bytes.

#[export] Instance stat_eq_dec : EqDecision stat.
Proof. solve_decision. Defined.

(** The counters, what was last reported, and the reports written so far. *)
(** [strata_flash_j3.h: "uint64_t m_last_stats_access = 0;" .. "uint64_t m_last_stats_dmi_request = 0;"] *)
Record stats_state := MkStats {
  counters : stat -> Z;
  m_last_stats_access : Z;
  m_last_stats_dmi_request : Z;
  stats_reports : list (stat -> Z)
}.

(** The parameters copied into members, and changed by parameter callbacks. *)
(** [strata_flash_j3.h: "bool m_stats_collecting = false;" .. "std::string m_backing_file_value;"] *)
Record hot_params := MkHot {
  m_stats_collecting : bool;
  m_trace_enabled : bool;
  m_trace_limit_value : Z;
  m_enable_dmi_value : bool;
  m_program_ff_sets_bits_value : bool;
  m_program_ff_erases_sector_value : bool;
  m_defer_backing_write_value : bool;
  m_defer_backing_flush_interval_value : Z;
  m_sector_size_value : Z;
  m_backing_file_value : string
}.

(** [strata_flash_j3.h: "std::string m_open_dmi_ranges;" .. "bool m_dmi_granted = false;"] *)
Record dmi_state := MkDmiState {
  m_open_dmi_ranges : text;
  m_dmi_ranges : list dmi_range;
  m_dmi_ranges_valid : bool;
  m_dmi_ranges_error_reported : bool;
  m_dmi_granted : bool;
  m_invalidations : list (Z * Z)
}.

(** [host_files] are the files of the host by path; [m_backing_open] says that
    the file at [m_open_backing_file] is open and mapped, shared with it. *)
(** [strata_flash_j3.h: "bool m_backing_dirty = false;" .. "bool m_backing_error_reported = false;"] *)
Record backing_state := MkBacking {
  m_open_backing_file : string;
  m_backing_open : bool;
  m_backing_dirty : bool;
  m_backing_dirty_start : Z;
  m_backing_dirty_end : Z;
  m_backing_deferred_since_flush : Z;
  m_backing_flushing : bool;
  m_backing_error_reported : bool;
  host_files : gmap string (list Z)
}.

(** [strata_flash_j3.h: "uint64_t m_write_buffer_base = 0;" .. "std::vector<bool> m_write_buffer_written;"] *)
Record write_buffer := MkBuffer {
  m_write_buffer_base : Z;
  m_write_buffer : list Z;
  m_write_buffer_written : list bool
}.

(** [strata_flash_j3.h: "std::vector<uint8_t> m_sector_erased;" .. "uint64_t m_sector_erased_map_size = 0;"] *)
Record sector_map := MkSectors { m_sector_erased : list bool; m_sector_erased_map_size : Z }.

(** [strata_flash_j3.h: "std::vector<uint8_t> m_data;" .. "unsigned int m_trace_count = 0;"] *)
Record flash := MkFlash {
  m_data : list Z;
  m_mode : mode;
  m_pending : pending_command;
  m_status : Z;
  m_trace_count : Z;
  buf : write_buffer;
  sec : sector_map;
  bak : backing_state;
  dmi : dmi_state;
  sta : stats_state;
  hot : hot_params
}.

#[export] Instance eta_stats_state : Eta stats_state := fun s =>
  MkStats (counters s) (m_last_stats_access s) (m_last_stats_dmi_request s) (stats_reports s).
#[export] Instance eta_hot_params : Eta hot_params := fun s =>
  MkHot (m_stats_collecting s) (m_trace_enabled s) (m_trace_limit_value s) (m_enable_dmi_value s)
    (m_program_ff_sets_bits_value s) (m_program_ff_erases_sector_value s)
    (m_defer_backing_write_value s) (m_defer_backing_flush_interval_value s)
    (m_sector_size_value s) (m_backing_file_value s).
#[export] Instance eta_dmi_state : Eta dmi_state := fun s =>
  MkDmiState (m_open_dmi_ranges s) (m_dmi_ranges s) (m_dmi_ranges_valid s)
    (m_dmi_ranges_error_reported s) (m_dmi_granted s) (m_invalidations s).
#[export] Instance eta_backing_state : Eta backing_state := fun s =>
  MkBacking (m_open_backing_file s) (m_backing_open s) (m_backing_dirty s) (m_backing_dirty_start s)
    (m_backing_dirty_end s) (m_backing_deferred_since_flush s) (m_backing_flushing s)
    (m_backing_error_reported s) (host_files s).
#[export] Instance eta_write_buffer : Eta write_buffer := fun s =>
  MkBuffer (m_write_buffer_base s) (m_write_buffer s) (m_write_buffer_written s).
#[export] Instance eta_sector_map : Eta sector_map := fun s =>
  MkSectors (m_sector_erased s) (m_sector_erased_map_size s).
#[export] Instance eta_flash : Eta flash := fun s =>
  MkFlash (m_data s) (m_mode s) (m_pending s) (m_status s) (m_trace_count s) (buf s) (sec s) (bak s)
    (dmi s) (sta s) (hot s).

(** The parameters read at their point of use. *)
(** [strata_flash_j3.h: "cci::cci_param<bool> p_trace;" .. "gs::loader<> load;"] *)
Record flash_config := {
  p_size : Z;
  p_dmi_ranges : text;
  p_stats_file : string;
  p_stats_interval : Z;
  target_bound : bool
}.

Section flash.
Context (cfg : flash_config).

(** * Statistics *)

(** [strata_flash_j3.h: stats_enabled] *)
Definition stats_enabled (s : flash) : bool := m_stats_collecting (hot s).

(** [strata_flash_j3.h: count_stat] *)
Definition count_stat_by (c : stat) (delta : Z) (s : flash) : flash :=
  if stats_enabled s then
    s <| sta ::= fun st => st <| counters ::= fun f k =>
      if bool_decide (k = c) then u64 (f k + delta) else f k |> |>
  else s.
Definition count_stat (c : stat) : flash -> flash := count_stat_by c 1.

(** The report holds the counters as they are. *)
(** [strata_flash_j3.h: write_stats_file] *)
Definition write_stats_file (s : flash) : flash :=
  if (p_stats_file cfg =? "")%string then s
  else s <| sta ::= fun st => st <| stats_reports ::= fun l => l ++ [counters st] |> |>.

(** [strata_flash_j3.h: maybe_write_stats] *)
Definition maybe_write_stats (s : flash) : flash :=
  let interval := p_stats_interval cfg in
  let total_accesses := u64 (counters (sta s) read_accesses + counters (sta s) write_accesses) in
  if (interval =? 0) || (p_stats_file cfg =? "")%string || (total_accesses =? 0) ||
     (total_accesses =? m_last_stats_access (sta s)) || negb (total_accesses mod interval =? 0)
  then s
  else write_stats_file (s <| sta ::= fun st => st <| m_last_stats_access := total_accesses |> |>).

(** [strata_flash_j3.h: maybe_write_dmi_stats] *)
Definition maybe_write_dmi_stats (force : bool) (s : flash) : flash :=
  let interval := p_stats_interval cfg in
  let requests := counters (sta s) dmi_requests in
  if (interval =? 0) || (p_stats_file cfg =? "")%string || (requests =? 0) ||
     (negb force && ((requests =? m_last_stats_dmi_request (sta s)) || negb (requests mod interval =? 0)))
  then s
  else write_stats_file (s <| sta ::= fun st => st <| m_last_stats_dmi_request := requests |> |>).

(** * The cache of erased sectors *)

(** [strata_flash_j3.h: sector_count] *)
Definition sector_count (s : flash) : Z :=
  let sector_size := m_sector_size_value (hot s) in
  if (sector_size =? 0) || (vec_size (m_data s) =? 0) then 0
  else u64 (vec_size (m_data s) + sector_size - 1) / sector_size.

(** [strata_flash_j3.h: initialize_sector_erased_map] *)
Definition initialize_sector_erased_map (s : flash) : flash :=
  s <| sec := MkSectors (replicate (Z.to_nat (sector_count s)) true) (m_sector_size_value (hot s)) |>.

(** [strata_flash_j3.h: ensure_storage] *)
Definition ensure_storage (s : flash) : flash :=
  match m_data s with
  | _ :: _ => s
  | [] => initialize_sector_erased_map (s <| m_data := replicate (Z.to_nat (p_size cfg)) 0xff |>)
  end.

(** The bytes of a sector, and whether all of them are erased. *)
Definition sector_start (s : flash) (index : Z) : Z := u64 (index * m_sector_size_value (hot s)).
Definition sector_end (s : flash) (index : Z) : Z :=
  Z.min (u64 (sector_start s index + m_sector_size_value (hot s))) (vec_size (m_data s)).

(** [strata_flash_j3.h: "std::all_of(m_data.begin() + start, m_data.begin() + end," .. "m_sector_erased[index] = erased ? 1 : 0;"] *)
Definition sector_erased_now (s : flash) (index : Z) : bool :=
  forallb (fun v => v =? 0xff)
    (slice (sector_start s index) (sector_end s index - sector_start s index) (m_data s)).

(** [strata_flash_j3.h: rebuild_sector_erased_map] *)
Definition rebuild_sector_erased_map (s : flash) : flash :=
  let sectors := sector_count s in
  if (m_sector_size_value (hot s) =? 0) || (vec_size (m_data s) =? 0)
  then s <| sec := MkSectors (replicate (Z.to_nat sectors) true) (m_sector_size_value (hot s)) |>
  else s <| sec := MkSectors (map (sector_erased_now s) (range sectors)) (m_sector_size_value (hot s)) |>.

(** [strata_flash_j3.h: ensure_sector_erased_map] *)
Definition ensure_sector_erased_map (s : flash) : flash :=
  if negb (m_sector_erased_map_size (sec s) =? m_sector_size_value (hot s)) ||
     negb (vec_size (m_sector_erased (sec s)) =? sector_count s)
  then rebuild_sector_erased_map s else s.

(** [m_sector_erased[index] = value] when the index is in the map. *)
Definition set_sector_erased (index : Z) (value : bool) (s : flash) : flash :=
  if index <? vec_size (m_sector_erased (sec s))
  then s <| sec ::= fun c => c <| m_sector_erased ::= <[Z.to_nat index := value]> |> |> else s.

(** [strata_flash_j3.h: refresh_sector_erased_range] *)
Definition refresh_sector_erased_range (offset len : Z) (s : flash) : flash :=
  let sector_size := m_sector_size_value (hot s) in
  if (len =? 0) || (sector_size =? 0) || (vec_size (m_data s) =? 0) then s
  else
    let s := ensure_sector_erased_map s in
    let first := offset / sector_size in
    let last := (offset + len - 1) / sector_size in
    foldl (fun s index => set_sector_erased index (sector_erased_now s index) s)
      s (seqZ first (last - first + 1)).

(** [strata_flash_j3.h: mark_programmed_byte] *)
Definition mark_programmed_byte (offset : Z) (s : flash) : flash :=
  let sector_size := m_sector_size_value (hot s) in
  if (sector_size =? 0) || (vec_size (m_data s) =? 0) || (arr_get (m_data s) offset =? 0xff) then s
  else
    let s := ensure_sector_erased_map s in
    set_sector_erased (offset / sector_size) false s.

(** [strata_flash_j3.h: mark_programmed_range] *)
Definition mark_programmed_range (offset len : Z) (s : flash) : flash :=
  let sector_size := m_sector_size_value (hot s) in
  if (len =? 0) || (sector_size =? 0) || (vec_size (m_data s) =? 0) then s
  else
    let s := ensure_sector_erased_map s in
    foldl (fun s pos =>
             if arr_get (m_data s) pos =? 0xff then s
             else set_sector_erased (pos / sector_size) false s)
      s (seqZ offset len).

(** [strata_flash_j3.h: sector_is_erased] *)
Definition sector_is_erased (start_ : Z) (s : flash) : bool * flash :=
  let sector_size := m_sector_size_value (hot s) in
  if (sector_size =? 0) || (vec_size (m_data s) =? 0) then (false, s)
  else
    let s := ensure_sector_erased_map s in
    let index := start_ / sector_size in
    (default false (m_sector_erased (sec s) !! Z.to_nat index), s).

(** [strata_flash_j3.h: mark_sector_erased] *)
Definition mark_sector_erased (start_ : Z) (s : flash) : flash :=
  let sector_size := m_sector_size_value (hot s) in
  if (sector_size =? 0) || (vec_size (m_data s) =? 0) then s
  else
    let s := ensure_sector_erased_map s in
    set_sector_erased (start_ / sector_size) true s.

(** * The backing file *)

Definition upd_bak (f : backing_state -> backing_state) (s : flash) : flash := s <| bak ::= f |>.

(** [strata_flash_j3.h: report_backing_error_once] *)
Definition report_backing_error_once (s : flash) : flash :=
  upd_bak (fun b => b <| m_backing_error_reported := true |>) s.

(** Unmapping and closing, what [close_backing_file] does after its flush. *)
(** [strata_flash_j3.h: "if (m_backing_map != nullptr) {" .. "m_open_backing_file.clear();"] *)
Definition close_handle (s : flash) : flash :=
  upd_bak (fun b => b <| m_backing_open := false |> <| m_open_backing_file := ""%string |>) s.

(** [close_backing_file] flushes unless a flush is what is closing the file, so
    the recursion through it is one level deep; [flush] is the outer level. *)
(** [strata_flash_j3.h: close_backing_file] *)
Definition close_backing_file_with (flush : flash -> flash) (s : flash) : flash :=
  close_handle (if m_backing_flushing (bak s) then s else flush s).

(** [strata_flash_j3.h: ensure_backing_file] *)
Definition ensure_backing_file_with (flush : flash -> flash) (s : flash) : bool * flash :=
  let path := m_backing_file_value (hot s) in
  if (path =? "")%string then (false, close_backing_file_with flush s)
  else if m_backing_open (bak s) && (path =? m_open_backing_file (bak s))%string then (true, s)
  else
    let s := close_backing_file_with flush s in
    let s := upd_bak (fun b => b <| m_backing_error_reported := false |>) s in
    match host_files (bak s) !! path with
    | None => (false, report_backing_error_once s)
    | Some [] => (false, close_backing_file_with flush (report_backing_error_once s))
    | Some _ => (true, upd_bak (fun b => b <| m_backing_open := true |> <| m_open_backing_file := path |>) s)
    end.

(** The mapped file, and its size. *)
Definition backing_map (s : flash) : list Z := default [] (host_files (bak s) !! m_open_backing_file (bak s)).

(** [strata_flash_j3.h: write_backing_range_now] *)
Definition write_backing_range_now_with (flush : flash -> flash) (offset len : Z) (s : flash) : bool * flash :=
  if len =? 0 then (false, s)
  else
    let '(ok, s) := ensure_backing_file_with flush s in
    if negb ok then (false, s)
    else if (vec_size (m_data s) <? offset) || (vec_size (m_data s) - offset <? len) then (false, s)
    else
      let map := backing_map s in
      if (vec_size map <? offset) || (vec_size map - offset <? len)
      then (false, report_backing_error_once s)
      else
        (true, upd_bak (fun b => b <| host_files ::=
           <[m_open_backing_file b := splice offset (slice offset len (m_data s)) map]> |>) s).

(** [strata_flash_j3.h: flush_deferred_backing] *)
Definition flush_deferred_backing (s : flash) : flash :=
  if negb (m_backing_dirty (bak s)) then s
  else
    let offset := m_backing_dirty_start (bak s) in
    let len := u64 (m_backing_dirty_end (bak s) - m_backing_dirty_start (bak s) + 1) in
    if (m_backing_file_value (hot s) =? "")%string then s
    else
      let s := upd_bak (fun b => b <| m_backing_flushing := true |>) s in
      let '(flushed, s) := write_backing_range_now_with id offset len s in
      let s := upd_bak (fun b => b <| m_backing_flushing := false |>) s in
      if negb flushed then s
      else
        let s := upd_bak (fun b => b <| m_backing_dirty := false |>
                                     <| m_backing_deferred_since_flush := 0 |>) s in
        count_stat_by backing_flush_bytes len (count_stat backing_flush_ops s).

(** [strata_flash_j3.h: close_backing_file] *)
Definition close_backing_file : flash -> flash := close_backing_file_with flush_deferred_backing.

(** [strata_flash_j3.h: ensure_backing_file] *)
Definition ensure_backing_file : flash -> bool * flash := ensure_backing_file_with flush_deferred_backing.

(** [strata_flash_j3.h: write_backing_range_now] *)
Definition write_backing_range_now : Z -> Z -> flash -> bool * flash :=
  write_backing_range_now_with flush_deferred_backing.

(** [strata_flash_j3.h: mark_backing_dirty] *)
Definition mark_backing_dirty (offset len : Z) (s : flash) : flash :=
  if len =? 0 then s
  else
    let end_ := offset + len - 1 in
    upd_bak (fun b =>
      if negb (m_backing_dirty b) then
        b <| m_backing_dirty_start := offset |> <| m_backing_dirty_end := end_ |> <| m_backing_dirty := true |>
      else
        b <| m_backing_dirty_start ::= fun x => Z.min x offset |>
          <| m_backing_dirty_end ::= fun x => Z.max x end_ |>) s.

(** [strata_flash_j3.h: write_backing_range] *)
Definition write_backing_range (offset len : Z) (s : flash) : flash :=
  if (len =? 0) || (m_backing_file_value (hot s) =? "")%string then s
  else if (vec_size (m_data s) <? offset) || (vec_size (m_data s) - offset <? len) then s
  else
    let s := count_stat_by backing_write_bytes len (count_stat backing_write_ops s) in
    if m_defer_backing_write_value (hot s) then
      let s := count_stat_by backing_deferred_bytes len (count_stat backing_deferred_ranges s) in
      let s := mark_backing_dirty offset len s in
      let s := upd_bak (fun b => b <| m_backing_deferred_since_flush ::= fun n => u64 (n + 1) |>) s in
      if negb (m_defer_backing_flush_interval_value (hot s) =? 0) &&
         (m_defer_backing_flush_interval_value (hot s) <=? m_backing_deferred_since_flush (bak s))
      then flush_deferred_backing s else s
    else snd (write_backing_range_now offset len s).

(** * Reading *)

(** [strata_flash_j3.h: read_byte] *)
Definition read_byte (s : flash) (offset : Z) : Z :=
  match m_mode s with
  | read_array => arr_get (m_data s) offset
  | read_id =>
      if offset =? 0 then MANUFACTURER_ID else if offset =? 4 then DEVICE_CODE else 0
  | read_query =>
      if offset =? 0x10 then 0x51 else if offset =? 0x11 then 0x52 else if offset =? 0x12 then 0x59 else 0
  | read_status => m_status s
  end.

(** The bytes a read of [len] bytes returns. *)
(** [strata_flash_j3.h: "if (m_mode == mode::read_array) {" .. "data[i] = read_byte(offset + i);"] *)
Definition read_bytes_at (s : flash) (offset len : Z) : list Z :=
  match m_mode s with
  | read_array => slice offset len (m_data s)
  | read_status => replicate (Z.to_nat len) (m_status s)
  | _ => map (fun i => read_byte s (offset + i)) (range len)
  end.

(** * Programming and erasing *)

(** Every operation ends ready, showing its status. *)
(** [strata_flash_j3.h: "m_status = STATUS_READY;" .. "m_pending = pending_command::none;"] *)
Definition finish (s : flash) : flash :=
  s <| m_status := STATUS_READY |> <| m_mode := read_status |> <| m_pending := pending_none |>.

(** [strata_flash_j3.h: is_sector_aligned_program_ff_erase] *)
Definition is_sector_aligned_program_ff_erase (offset : Z) (data : list Z) (len : Z) (s : flash) : bool :=
  let sector_size := m_sector_size_value (hot s) in
  m_program_ff_erases_sector_value (hot s) && (len =? 1) && (arr_get data 0 =? 0xff) &&
  negb (sector_size =? 0) && (offset mod sector_size =? 0).

(** [strata_flash_j3.h: erase_sector] *)
Definition erase_sector (offset : Z) (s : flash) : flash :=
  let sector_size := m_sector_size_value (hot s) in
  let start_ := offset / sector_size * sector_size in
  let end_ := Z.min (u64 (start_ + sector_size)) (vec_size (m_data s)) in
  let s := count_stat_by sector_erase_bytes (end_ - start_) (count_stat sector_erase_ops s) in
  let '(erased, s) := sector_is_erased start_ s in
  if erased then finish s
  else
    let s := s <| m_data ::= fill_range start_ end_ 0xff |> in
    let s := mark_sector_erased start_ s in
    let s := write_backing_range start_ (end_ - start_) s in
    finish s.

(** The value a byte takes when [data] is programmed over [old]. *)
(** [strata_flash_j3.h: "uint8_t new_value = old_value & data[i];" .. "new_value = 0xff;"] *)
Definition program_value (s : flash) (old data : Z) : Z :=
  if m_program_ff_sets_bits_value (hot s) && (data =? 0xff) then 0xff else Z.land old data.

(** One turn of the loop: the array and what has changed so far. *)
(** [strata_flash_j3.h: "for (unsigned int i = 0; i < len; ++i) {" .. "last_changed = i;"] *)
Definition program_step (s : flash) (offset : Z) (data : list Z) (acc : list Z * Z * Z * Z) (i : Z)
    : list Z * Z * Z * Z :=
  let '(mem, first_changed, last_changed, changed) := acc in
  let old_value := arr_get mem (offset + i) in
  let new_value := program_value s old_value (arr_get data i) in
  if new_value =? old_value then acc
  else (arr_set (offset + i) new_value mem, Z.min first_changed i, i, changed + 1).

(** [strata_flash_j3.h: program] *)
Definition program (offset : Z) (data : list Z) (len : Z) (s : flash) : flash :=
  if is_sector_aligned_program_ff_erase offset data len s then
    let s := count_stat compat_ff_sector_erase_ops (count_stat_by program_bytes len (count_stat program_ops s)) in
    erase_sector offset s
  else if negb (stats_enabled s) && (len =? 1) then
    let old_value := arr_get (m_data s) offset in
    let new_value := program_value s old_value (arr_get data 0) in
    let s :=
      if negb (new_value =? old_value) then
        let s := s <| m_data ::= arr_set offset new_value |> in
        let s := mark_programmed_byte offset s in
        write_backing_range offset 1 s
      else s in
    finish s
  else
    let s := count_stat_by program_bytes len (count_stat program_ops s) in
    let '(mem, first_changed, last_changed, changed) :=
      foldl (program_step s offset data) (m_data s, len, 0, 0) (range len) in
    let s := s <| m_data := mem |> in
    let s := count_stat_by program_noop_bytes (len - changed) (count_stat_by program_changed_bytes changed s) in
    let s :=
      if negb (first_changed =? len) then
        let s := mark_programmed_range (offset + first_changed) (last_changed - first_changed + 1) s in
        write_backing_range (offset + first_changed) (last_changed - first_changed + 1) s
      else s in
    finish s.

(** * The write buffer *)

(** [strata_flash_j3.h: clear_write_buffer] *)
Definition clear_write_buffer (s : flash) : flash := s <| buf := MkBuffer 0 [] [] |>.

(** [strata_flash_j3.h: count_value] *)
Definition count_value (data : list Z) (len : Z) : Z := if len =? 0 then 0 else arr_get data 0 + 1.

(** [strata_flash_j3.h: write_buffer_complete] *)
Definition write_buffer_complete (s : flash) : bool :=
  match m_write_buffer_written (buf s) with
  | [] => false
  | written => forallb id written
  end.

(** [strata_flash_j3.h: begin_write_buffer] *)
Definition begin_write_buffer (offset : Z) (data : list Z) (len : Z) (s : flash) : flash :=
  let count := count_value data len in
  let s := count_stat write_buffer_count_writes s in
  if (count =? 0) || (WRITE_BUFFER_MAX <? count) || (vec_size (m_data s) <? offset) ||
     (vec_size (m_data s) - offset <? count)
  then finish (clear_write_buffer s)
  else
    s <| buf := MkBuffer offset (replicate (Z.to_nat count) 0xff) (replicate (Z.to_nat count) false) |>
      <| m_status := STATUS_READY |> <| m_mode := read_status |> <| m_pending := pending_write_buffer_data |>.

(** [strata_flash_j3.h: collect_write_buffer_data] *)
Definition collect_write_buffer_data (offset : Z) (data : list Z) (len : Z) (s : flash) : flash :=
  let base := m_write_buffer_base (buf s) in
  let size := vec_size (m_write_buffer (buf s)) in
  if (size =? 0) || (offset <? base) || (base + size <? offset)
  then (clear_write_buffer s) <| m_pending := pending_none |>
  else
    let relative := offset - base in
    if size <=? relative then (clear_write_buffer s) <| m_pending := pending_none |>
    else
      let copy_len := Z.min len (size - relative) in
      let s := s <| buf ::= fun w =>
        w <| m_write_buffer ::= splice relative (get_data copy_len data) |>
          <| m_write_buffer_written ::= splice relative (replicate (Z.to_nat copy_len) true) |> |> in
      let s := count_stat write_buffer_data_writes s in
      s <| m_status := STATUS_READY |> <| m_mode := read_status |>.

(** [strata_flash_j3.h: confirm_write_buffer] *)
Definition confirm_write_buffer (s : flash) : flash :=
  let s := count_stat write_buffer_confirm_cmds s in
  let s :=
    if write_buffer_complete s then
      let size := vec_size (m_write_buffer (buf s)) in
      let s := count_stat_by write_buffer_bytes size (count_stat write_buffer_ops s) in
      program (m_write_buffer_base (buf s)) (m_write_buffer (buf s)) size s
    else finish s in
  clear_write_buffer s.

(** * Commands *)

(** [target_socket->invalidate_direct_mem_ptr] is logged in [m_invalidations]. *)
(** [strata_flash_j3.h: invalidate_dmi] *)
Definition invalidate_dmi (s : flash) : flash :=
  if negb (m_dmi_granted (dmi s)) || negb (m_enable_dmi_value (hot s)) ||
     (vec_size (m_data s) =? 0) || negb (target_bound cfg)
  then s
  else
    let s := s <| dmi ::= fun d => d <| m_invalidations ::= fun l => l ++ [(0, vec_size (m_data s) - 1)] |> |> in
    let s := count_stat dmi_invalidations s in
    s <| dmi ::= fun d => d <| m_dmi_granted := false |> |>.

(** The counter of a command. *)
(** [strata_flash_j3.h: "switch (command) {" .. "count_stat(m_unknown_cmds);"] *)
Definition command_stat (command : Z) : stat :=
  if command =? CMD_READ_ARRAY then read_array_cmds
  else if command =? CMD_READ_ID_CODE then read_id_cmds
  else if command =? CMD_READ_QUERY then read_query_cmds
  else if command =? CMD_READ_STATUS_REG then read_status_cmds
  else if command =? CMD_CLEAR_STATUS_REG then clear_status_cmds
  else if command =? CMD_WRITE_TO_BUFFER then write_buffer_cmds
  else if command =? CMD_WORD_PROGRAM then word_program_cmds
  else if command =? CMD_BLOCK_ERASE then block_erase_cmds
  else if command =? CMD_BLOCK_ERASE_ACK then block_erase_ack_cmds
  else if command =? CMD_LOCK_UNLOCK then lock_unlock_cmds
  else if command =? CMD_LOCK_BLOCK then lock_block_cmds
  else unknown_cmds.

(** [strata_flash_j3.h: record_command] *)
Definition record_command (command : Z) (s : flash) : flash :=
  if negb (stats_enabled s) then s else count_stat (command_stat command) (count_stat command_writes s).

(** The second switch of [handle_command]. *)
(** [strata_flash_j3.h: handle_command] *)
Definition start_command (command : Z) (s : flash) : flash :=
  if command =? CMD_READ_ARRAY then s <| m_mode := read_array |>
  else if command =? CMD_READ_ID_CODE then s <| m_mode := read_id |>
  else if command =? CMD_READ_QUERY then s <| m_mode := read_query |>
  else if (command =? CMD_READ_STATUS_REG) || (command =? CMD_CLEAR_STATUS_REG) then
    s <| m_status := STATUS_READY |> <| m_mode := read_status |>
  else if command =? CMD_WRITE_TO_BUFFER then
    (clear_write_buffer s) <| m_status := STATUS_READY |> <| m_mode := read_status |>
      <| m_pending := pending_write_buffer_count |>
  else if command =? CMD_WORD_PROGRAM then s <| m_pending := pending_program |>
  else if command =? CMD_BLOCK_ERASE then s <| m_pending := pending_erase |>
  else if command =? CMD_LOCK_UNLOCK then s <| m_pending := pending_lock |>
  else s <| m_mode := read_array |> <| m_pending := pending_none |>.

(** [strata_flash_j3.h: handle_command] *)
Definition handle_command (offset command : Z) (s : flash) : flash :=
  let s := record_command command s in
  match m_pending s with
  | pending_program | pending_none => start_command command s
  | pending_write_buffer_count | pending_write_buffer_data =>
      start_command command ((clear_write_buffer s) <| m_pending := pending_none |>)
  | pending_erase =>
      if command =? CMD_BLOCK_ERASE_ACK then erase_sector offset s
      else start_command command (s <| m_pending := pending_none |>)
  | pending_lock =>
      if (command =? CMD_LOCK_BLOCK) || (command =? CMD_BLOCK_ERASE_ACK) then finish s
      else start_command command (s <| m_pending := pending_none |>)
  end.

(** [strata_flash_j3.h: write] *)
Definition write (offset : Z) (data : list Z) (len : Z) (s : flash) : flash :=
  match m_pending s with
  | pending_program => program offset data len s
  | pending_write_buffer_count => begin_write_buffer offset data len s
  | pending_write_buffer_data =>
      if write_buffer_complete s && (len =? 1) && (arr_get data 0 =? CMD_BLOCK_ERASE_ACK)
      then confirm_write_buffer s
      else collect_write_buffer_data offset data len s
  | _ => handle_command offset (arr_get data 0) (invalidate_dmi s)
  end.

(** * Direct memory access *)

(** [strata_flash_j3.h: report_dmi_range_error_once] *)
Definition report_dmi_range_error_once (s : flash) : flash :=
  s <| dmi ::= fun d => d <| m_dmi_ranges_error_reported := true |> |>.

(** [strata_flash_j3.h: refresh_dmi_ranges] *)
Definition refresh_dmi_ranges (s : flash) : flash :=
  let s := ensure_storage s in
  let spec := remove_spaces (p_dmi_ranges cfg) in
  if bool_decide (spec = m_open_dmi_ranges (dmi s)) then s
  else
    let s := s <| dmi ::= fun d => MkDmiState spec [] true false (m_dmi_granted d) (m_invalidations d) |> in
    match spec with
    | [] => s
    | _ =>
        match parse_spec (vec_size (m_data s)) spec with
        | Some ranges => s <| dmi ::= fun d => d <| m_dmi_ranges := ranges |> |>
        | None => report_dmi_range_error_once (s <| dmi ::= fun d => d <| m_dmi_ranges_valid := false |> |>)
        end
    end.

(** [strata_flash_j3.h: find_dmi_range] *)
Definition find_dmi_range (offset len : Z) (s : flash) : option dmi_range * flash :=
  let s := ensure_storage s in
  let size := vec_size (m_data s) in
  if (size =? 0) || (size <=? offset) || (negb (len =? 0) && (size - offset <? len)) then (None, s)
  else
    let s := refresh_dmi_ranges s in
    if negb (m_dmi_ranges_valid (dmi s)) then (None, s)
    else
      let last := if len =? 0 then offset else offset + len - 1 in
      match m_open_dmi_ranges (dmi s) with
      | [] => (Some (MkRange 0 (size - 1)), s)
      | _ => (List.find (fun r => (start r <=? offset) && (last <=? end_ r)) (m_dmi_ranges (dmi s)), s)
      end.

(** Where a grant points: into the array or into the mapped backing file. *)
Inductive host_ptr := ArrayPtr (offset : Z) | BackingPtr (path : string) (offset : Z).

Record flash_grant := MkGrant { grant_ptr : host_ptr; grant_start : Z; grant_end : Z }.

(** [count_stat(reason); if (stats_enabled()) maybe_write_dmi_stats(false); return false]. *)
(** [strata_flash_j3.h: "count_stat(m_dmi_reject_disabled);" .. "return false;"] *)
Definition reject_dmi (reason : stat) (s : flash) : option flash_grant * flash :=
  let s := count_stat reason s in
  (None, if stats_enabled s then maybe_write_dmi_stats false s else s).

(** Where a grant of a range points, once what is pending is flushed. *)
(** [strata_flash_j3.h: "uint8_t* dmi_ptr = m_data.data() + range.start;" .. "trans.set_extension(&m_backing_file_dmi);"] *)
Definition grant_pointer (range : dmi_range) (s : flash) : host_ptr * flash :=
  let s := flush_deferred_backing s in
  if negb (m_backing_file_value (hot s) =? "")%string then
    let '(ok, s) := ensure_backing_file s in
    if ok && (end_ range <? vec_size (backing_map s))
    then (BackingPtr (m_open_backing_file (bak s)) (start range), s)
    else (ArrayPtr (start range), s)
  else (ArrayPtr (start range), s).

(** [strata_flash_j3.h: get_direct_mem_ptr] *)
Definition get_direct_mem_ptr (t : tlm_payload) (s : flash) : option flash_grant * flash :=
  let s := count_stat dmi_requests (ensure_storage s) in
  if negb (m_enable_dmi_value (hot s)) then reject_dmi dmi_reject_disabled s
  else if negb (bool_decide (m_mode s = read_array)) || negb (bool_decide (m_pending s = pending_none)) then
    reject_dmi dmi_reject_state s
  else if bool_decide (command t = TLM_WRITE_COMMAND) then reject_dmi dmi_reject_command s
  else
    match find_dmi_range (address t) (data_length t) s with
    | (None, s) => reject_dmi dmi_reject_range s
    | (Some range, s) =>
        let '(ptr, s) := grant_pointer range s in
        let s := count_stat dmi_grants s in
        let s := if stats_enabled s
                 then maybe_write_dmi_stats (counters (sta s) dmi_grants =? 1) s else s in
        (Some (MkGrant ptr (start range) (end_ range)),
         s <| dmi ::= fun d => d <| m_dmi_granted := true |> |>)
    end.

(** * Transactions *)

(** [strata_flash_j3.h: in_range] *)
Definition in_range (offset len : Z) (s : flash) : bool * flash :=
  let s := ensure_storage s in
  ((offset <=? vec_size (m_data s)) && (len <=? vec_size (m_data s) - offset), s).

(** [strata_flash_j3.h: trace_access] *)
Definition trace_access (s : flash) : flash :=
  if negb (m_trace_enabled (hot s)) || (m_trace_limit_value (hot s) <=? m_trace_count s) then s
  else s <| m_trace_count ::= fun n => u32 (n + 1) |>.

(** [strata_flash_j3.h: fast_access] *)
Definition fast_access (s : flash) (t : tlm_payload) : flash * tlm_payload * bool :=
  let offset := address t in
  let len := data_length t in
  match data_ptr t with
  | None => (s, t <| response_status := TLM_ADDRESS_ERROR_RESPONSE |>, false)
  | Some data =>
      if len =? 0 then (s, t <| response_status := TLM_ADDRESS_ERROR_RESPONSE |>, false)
      else
        let '(ok, s) := in_range offset len s in
        if negb ok then (s, t <| response_status := TLM_ADDRESS_ERROR_RESPONSE |>, false)
        else
          let t := t <| dmi_allowed := false |> in
          match command t with
          | TLM_READ_COMMAND =>
              (s, t <| data_ptr := Some (put_data (read_bytes_at s offset len) data) |>
                    <| response_status := TLM_OK_RESPONSE |>, true)
          | TLM_WRITE_COMMAND =>
              (write offset data len s, t <| response_status := TLM_OK_RESPONSE |>, true)
          | TLM_IGNORE_COMMAND => (s, t <| response_status := TLM_COMMAND_ERROR_RESPONSE |>, false)
          end
  end.

(** The body of [access] after its shortcut. *)
(** [strata_flash_j3.h: access] *)
Definition full_access (s : flash) (t : tlm_payload) : flash * tlm_payload * bool :=
  let offset := address t in
  let len := data_length t in
  match data_ptr t with
  | None => (s, t <| response_status := TLM_ADDRESS_ERROR_RESPONSE |>, false)
  | Some data =>
      if len =? 0 then (s, t <| response_status := TLM_ADDRESS_ERROR_RESPONSE |>, false)
      else
        let '(ok, s) := in_range offset len s in
        if negb ok then (s, t <| response_status := TLM_ADDRESS_ERROR_RESPONSE |>, false)
        else
          let t := t <| dmi_allowed := false |> in
          let result :=
            match command t with
            | TLM_READ_COMMAND =>
                let s := count_stat_by read_bytes len (count_stat read_accesses s) in
                let t := t <| data_ptr := Some (put_data (read_bytes_at s offset len) data) |> in
                let '(allowed, s) :=
                  if m_enable_dmi_value (hot s) && bool_decide (m_mode s = read_array) &&
                     bool_decide (m_pending s = pending_none) then
                    let '(range, s) := find_dmi_range offset len s in
                    (match range with Some _ => true | None => false end, s)
                  else (false, s) in
                let s := if allowed : bool then count_stat dmi_read_hints s else s in
                Some (s, t <| dmi_allowed := allowed |>)
            | TLM_WRITE_COMMAND =>
                let s := count_stat_by write_bytes len (count_stat write_accesses s) in
                Some (write offset data len s, t)
            | TLM_IGNORE_COMMAND => None
            end in
          match result with
          | None => (s, t <| response_status := TLM_COMMAND_ERROR_RESPONSE |>, false)
          | Some (s, t) =>
              let s := trace_access s in
              let s := if stats_enabled s then maybe_write_stats s else s in
              (s, t <| response_status := TLM_OK_RESPONSE |>, true)
          end
  end.

(** [strata_flash_j3.h: access] *)
Definition access (dbg : bool) (s : flash) (t : tlm_payload) : flash * tlm_payload * bool :=
  if negb dbg && negb (stats_enabled s) && negb (m_trace_enabled (hot s)) && negb (m_enable_dmi_value (hot s))
  then fast_access s t else full_access s t.

(** * Loading and parameters *)

(** [strata_flash_j3.h: load_image] *)
Definition load_image (data : list Z) (offset len : Z) (s : flash) : flash :=
  let s := ensure_storage s in
  if (vec_size (m_data s) <? offset) || (vec_size (m_data s) - offset <? len) then s
  else
    let s := s <| m_data ::= splice offset (get_data len data) |> in
    refresh_sector_erased_range offset len s.

(** The callbacks that run when a parameter is written. *)
(** [strata_flash_j3.h: register_hot_param_callbacks] *)
Inductive param_write :=
| write_trace (v : bool)
| write_trace_limit (v : Z)
| write_enable_dmi (v : bool)
| write_program_ff_sets_bits (v : bool)
| write_program_ff_erases_sector (v : bool)
| write_defer_backing_write (v : bool)
| write_defer_backing_flush_interval (v : Z)
| write_sector_size (v : Z)
| write_backing_file (v : string).

(** [strata_flash_j3.h: register_hot_param_callbacks] *)
Definition post_write (p : param_write) (s : flash) : flash :=
  match p with
  | write_trace v => s <| hot ::= fun h => h <| m_trace_enabled := v |> |>
  | write_trace_limit v => s <| hot ::= fun h => h <| m_trace_limit_value := v |> |>
  | write_enable_dmi v => s <| hot ::= fun h => h <| m_enable_dmi_value := v |> |>
  | write_program_ff_sets_bits v => s <| hot ::= fun h => h <| m_program_ff_sets_bits_value := v |> |>
  | write_program_ff_erases_sector v =>
      s <| hot ::= fun h => h <| m_program_ff_erases_sector_value := v |> |>
  | write_defer_backing_write v =>
      (flush_deferred_backing s) <| hot ::= fun h => h <| m_defer_backing_write_value := v |> |>
  | write_defer_backing_flush_interval v =>
      (flush_deferred_backing s) <| hot ::= fun h => h <| m_defer_backing_flush_interval_value := v |> |>
  | write_sector_size v =>
      rebuild_sector_erased_map (s <| hot ::= fun h => h <| m_sector_size_value := v |> |>)
  | write_backing_file v =>
      (flush_deferred_backing s) <| hot ::= fun h => h <| m_backing_file_value := v |> |>
  end.

(** [strata_flash_j3.h: "~strata_flash_j3() override" .. "close_backing_file();"] *)
Definition destroy (s : flash) : flash :=
  close_backing_file (write_stats_file (flush_deferred_backing s)).

(** The state the constructor leaves, with the parameters and the host's files. *)
(** [strata_flash_j3.h: refresh_hot_params] *)
Definition initial (params : hot_params) (files : gmap string (list Z)) : flash :=
  MkFlash [] read_array pending_none STATUS_READY 0 (MkBuffer 0 [] []) (MkSectors [] 0)
    (MkBacking "" false false 0 0 0 false false files) (MkDmiState [] [] true false false [])
    (MkStats (fun _ => 0) 0 0 [])
    (params <| m_stats_collecting :=
       negb (p_stats_interval cfg =? 0) || negb (p_stats_file cfg =? "")%string |>).
End flash.

(** * What backing and statistics leave alone

    [core s] is [s] without its backing file and its statistics. *)

Definition core (s : flash) : flash :=
  s <| bak := MkBacking "" false false 0 0 0 false false ∅ |> <| sta := MkStats (fun _ => 0) 0 0 [] |>.

Section core_lemmas.
Context (cfg : flash_config).

Lemma core_count c d s : core (count_stat_by c d s) = core s.
Proof. unfold count_stat_by. by case_if. Qed.

Lemma core_count1 c s : core (count_stat c s) = core s.
Proof. apply core_count. Qed.

Lemma core_upd_bak f s : core (upd_bak f s) = core s.
Proof. done. Qed.

Lemma core_report s : core (report_backing_error_once s) = core s.
Proof. done. Qed.

Lemma core_write_stats s : core (write_stats_file cfg s) = core s.
Proof. unfold write_stats_file. by case_if. Qed.

Lemma core_maybe_stats s : core (maybe_write_stats cfg s) = core s.
Proof. unfold maybe_write_stats. cbv zeta. case_if; [done|]. by rewrite core_write_stats. Qed.

Lemma core_maybe_dmi_stats force s : core (maybe_write_dmi_stats cfg force s) = core s.
Proof. unfold maybe_write_dmi_stats. cbv zeta. case_if; [done|]. by rewrite core_write_stats. Qed.

(** A flush that leaves the core alone makes the backing operations leave it alone. *)
Section with_flush.
Context (flush : flash -> flash) (flush_core : forall s, core (flush s) = core s).

Lemma core_close_with s : core (close_backing_file_with flush s) = core s.
Proof. unfold close_backing_file_with, close_handle. rewrite core_upd_bak. case_if; [done|apply flush_core]. Qed.

Lemma core_ensure_with s : core (snd (ensure_backing_file_with flush s)) = core s.
Proof.
  unfold ensure_backing_file_with. case_if; [apply core_close_with|]. case_if; [done|].
  cbv zeta. destruct (host_files _ !! _) as [[|b f]|]; cbn [snd];
    rewrite ?core_close_with, ?core_report, ?core_upd_bak; apply core_close_with.
Qed.

Lemma core_write_now_with off len s : core (snd (write_backing_range_now_with flush off len s)) = core s.
Proof.
  unfold write_backing_range_now_with. case_if; [done|]. pose proof (core_ensure_with s) as H.
  destruct (ensure_backing_file_with flush s) as [ok s']. cbn [snd] in H.
  destruct ok; [|done]. cbn [negb]. case_if; [done|]. cbv zeta. by case_if.
Qed.
End with_flush.

Lemma core_flush s : core (flush_deferred_backing s) = core s.
Proof.
  unfold flush_deferred_backing. case_if; [done|]. cbv zeta. case_if; [done|].
  pose proof (core_write_now_with id (fun _ => eq_refl) (m_backing_dirty_start (bak s))
    (u64 (m_backing_dirty_end (bak s) - m_backing_dirty_start (bak s) + 1))
    (upd_bak (fun b => b <| m_backing_flushing := true |>) s)) as H.
  destruct (write_backing_range_now_with _ _ _ _) as [ok s']. cbn [snd] in H. rewrite core_upd_bak in H.
  destruct ok; cbn [negb]; by rewrite ?core_count, ?core_count1.
Qed.

Lemma core_ensure s : core (snd (ensure_backing_file s)) = core s.
Proof. apply core_ensure_with, core_flush. Qed.

Lemma core_write_backing off len s : core (write_backing_range off len s) = core s.
Proof.
  unfold write_backing_range. case_if; [done|]. case_if; [done|]. cbv zeta. case_if.
  - set (s' := upd_bak (fun b => b <| m_backing_deferred_since_flush ::= _ |>) _).
    assert (core s' = core s) as Hs'.
    { unfold s'. rewrite core_upd_bak. unfold mark_backing_dirty. cbv zeta.
      case_if; rewrite ?core_upd_bak, !core_count, !core_count1, !core_count, !core_count1; done. }
    case_if; [by rewrite core_flush|done].
  - unfold write_backing_range_now. rewrite core_write_now_with by apply core_flush.
    by rewrite core_count, core_count1.
Qed.
End core_lemmas.

Lemma core_eq s s' : core s = core s' ->
  m_data s = m_data s' /\ m_mode s = m_mode s' /\ m_pending s = m_pending s' /\
  m_status s = m_status s' /\ buf s = buf s' /\ sec s = sec s' /\ dmi s = dmi s' /\ hot s = hot s' /\
  m_trace_count s = m_trace_count s'.
Proof. destruct s, s'. cbn. intros H. injection H as -> -> -> -> -> -> -> -> ->. done. Qed.

(** * The cache of erased sectors is sound *)

Definition sector_params_ok (s : flash) : Prop :=
  0 < m_sector_size_value (hot s) < 2 ^ 62 /\ vec_size (m_data s) < 2 ^ 62.

(** A sector the cache calls erased holds only 0xff. *)
Definition flags_sound (sector_size : Z) (erased : list bool) (data : list Z) : Prop :=
  forall index i, erased !! Z.to_nat index = Some true -> 0 <= index ->
    index * sector_size <= i < (index + 1) * sector_size -> i < vec_size data -> arr_get data i = 0xff.

Definition cache_valid (s : flash) : Prop :=
  m_sector_erased_map_size (sec s) = m_sector_size_value (hot s) /\
  vec_size (m_sector_erased (sec s)) = sector_count s.

Definition cache_sound (s : flash) : Prop :=
  cache_valid s -> flags_sound (m_sector_size_value (hot s)) (m_sector_erased (sec s)) (m_data s).

Lemma sector_count_spec s : sector_params_ok s ->
  sector_count s = (vec_size (m_data s) + m_sector_size_value (hot s) - 1) / m_sector_size_value (hot s).
Proof.
  intros [Hss Hsz]. unfold sector_count, vec_size in *.
  replace (m_sector_size_value (hot s) =? 0) with false by lia. cbn [orb].
  destruct (Z.eqb_spec (Z.of_nat (length (m_data s))) 0) as [->|].
  - symmetry. apply Z.div_small. lia.
  - rewrite wrap_small; [done|]. split; lia.
Qed.

Lemma sector_index_range s i : sector_params_ok s -> 0 <= i < vec_size (m_data s) ->
  0 <= i / m_sector_size_value (hot s) < sector_count s.
Proof.
  intros Hp Hi. rewrite sector_count_spec by done. destruct Hp as [Hss _].
  split; [apply Z.div_pos; lia|]. set (ss := m_sector_size_value (hot s)) in *.
  apply Z.div_lt_upper_bound; [lia|].
  pose proof (Z.div_mod (vec_size (m_data s) + ss - 1) ss ltac:(lia)).
  pose proof (Z.mod_pos_bound (vec_size (m_data s) + ss - 1) ss ltac:(lia)). lia.
Qed.

Lemma sector_erased_now_spec s index : sector_params_ok s -> 0 <= index < sector_count s ->
  sector_erased_now s index = true ->
  forall i, index * m_sector_size_value (hot s) <= i < (index + 1) * m_sector_size_value (hot s) ->
    i < vec_size (m_data s) -> arr_get (m_data s) i = 0xff.
Proof.
  intros Hp Hin H i Hi Hlt. rewrite sector_count_spec in Hin by done. pose proof Hp as [Hss Hsz].
  set (ss := m_sector_size_value (hot s)) in *.
  assert (index * ss < vec_size (m_data s)).
  { pose proof (Z.div_mod (vec_size (m_data s) + ss - 1) ss ltac:(lia)).
    pose proof (Z.mod_pos_bound (vec_size (m_data s) + ss - 1) ss ltac:(lia)). nia. }
  assert (sector_start s index = index * ss) as Es by (apply wrap_small; split; [nia|lia]).
  assert (sector_end s index = Z.min (index * ss + ss) (vec_size (m_data s))) as Ee.
  { unfold sector_end. rewrite Es. fold ss. rewrite wrap_small by (split; [nia|lia]). done. }
  unfold sector_erased_now in H. rewrite Es, Ee in H.
  apply Z.eqb_eq. apply (forallb_slice (fun v => v =? 0xff)) with (i := i) in H; [done|nia|lia|lia|lia].
Qed.

Lemma rebuild_valid s : sector_params_ok s ->
  let s' := rebuild_sector_erased_map s in
  core s' = core (s <| sec := sec s' |>) /\ cache_valid s' /\ cache_sound s'.
Proof.
  intros Hp. unfold rebuild_sector_erased_map. cbv zeta. pose proof Hp as [Hss _].
  replace (m_sector_size_value (hot s) =? 0) with false by lia. cbn [orb].
  destruct (Z.eqb_spec (vec_size (m_data s)) 0) as [E|E].
  - assert (sector_count s = 0) as Ec.
    { unfold sector_count. rewrite E. by rewrite orb_true_r. }
    rewrite Ec. split; [done|]. split.
    + split; [done|]. cbn. symmetry. exact Ec.
    + intros _ index i Hi. by destruct (Z.to_nat index).
  - split; [done|]. assert (0 <= sector_count s).
    { rewrite sector_count_spec by done. apply Z.div_pos; unfold vec_size; lia. }
    split.
    + split; [done|]. cbn. unfold vec_size at 1, range. rewrite length_map, length_seqZ.
      transitivity (sector_count s); [lia|done].
    + intros _ index i Hi Hidx Hrange Hlt. cbn in *. unfold range in Hi.
      rewrite list_lookup_fmap in Hi.
      destruct (seqZ 0 (sector_count s) !! Z.to_nat index) as [k|] eqn:Ek; [|done].
      apply lookup_seqZ in Ek as [-> Hk]. cbn in Hi. injection Hi as Hi.
      replace (0 + Z.of_nat (Z.to_nat index)) with index in Hi by lia.
      by apply (sector_erased_now_spec s index Hp ltac:(lia) Hi).
Qed.

Lemma ensure_valid s : sector_params_ok s -> cache_sound s ->
  let s' := ensure_sector_erased_map s in
  core s' = core (s <| sec := sec s' |>) /\ cache_valid s' /\ cache_sound s'.
Proof.
  intros Hp Hs. cbv zeta. unfold ensure_sector_erased_map. case_if; [by apply rebuild_valid|].
  bool_hyps. split; [by destruct s|]. split; [|done]. by split.
Qed.

(** Only the cache of [s'] differs from [s]. *)
Definition only_sec (s s' : flash) : Prop := core s' = core (s <| sec := sec s' |>).

Lemma only_sec_fields s s' : only_sec s s' ->
  m_data s' = m_data s /\ hot s' = hot s /\ m_mode s' = m_mode s /\ m_pending s' = m_pending s /\
  buf s' = buf s /\ dmi s' = dmi s /\ m_trace_count s' = m_trace_count s /\ m_status s' = m_status s.
Proof. unfold only_sec. intros H. apply core_eq in H. cbn in H. tauto. Qed.

Lemma only_sec_refl s : only_sec s s.
Proof. by destruct s. Qed.

Lemma only_sec_trans s s' s'' : only_sec s s' -> only_sec s' s'' -> only_sec s s''.
Proof. unfold only_sec. intros H H'. rewrite H'. apply core_eq in H. cbn in H.
  destruct s, s', s''. cbn in *. naive_solver. Qed.

Lemma only_sec_set index v s : only_sec s (set_sector_erased index v s).
Proof. unfold set_sector_erased. case_if; [done|apply only_sec_refl]. Qed.

Lemma set_sector_lookup index v s j :
  0 <= index -> 0 <= j -> m_sector_erased (sec (set_sector_erased index v s)) !! Z.to_nat j =
  if (j =? index) && (index <? vec_size (m_sector_erased (sec s))) then Some v
  else m_sector_erased (sec s) !! Z.to_nat j.
Proof.
  intros Hi Hj. unfold set_sector_erased. destruct (Z.ltb_spec index (vec_size (m_sector_erased (sec s)))).
  - rewrite andb_true_r. cbn. destruct (Z.eqb_spec j index) as [->|].
    + apply list_lookup_insert_eq. unfold vec_size in *. lia.
    + apply list_lookup_insert_ne. lia.
  - by rewrite andb_false_r.
Qed.

Lemma set_sector_size index v s :
  vec_size (m_sector_erased (sec (set_sector_erased index v s))) = vec_size (m_sector_erased (sec s)) /\
  m_sector_erased_map_size (sec (set_sector_erased index v s)) = m_sector_erased_map_size (sec s).
Proof. unfold set_sector_erased. case_if; [|done]. cbn. unfold vec_size. by rewrite length_insert. Qed.

Lemma only_sec_params s s' : only_sec s s' -> sector_params_ok s -> sector_params_ok s'.
Proof. intros H. unfold sector_params_ok. by destruct (only_sec_fields _ _ H) as (-> & -> & _). Qed.

Lemma only_sec_count s s' : only_sec s s' -> sector_count s' = sector_count s.
Proof. intros H. unfold sector_count. by destruct (only_sec_fields _ _ H) as (-> & -> & _). Qed.

Lemma set_sector_valid index v s : cache_valid s -> cache_valid (set_sector_erased index v s).
Proof.
  intros [H1 H2]. unfold cache_valid. destruct (set_sector_size index v s) as [-> ->].
  rewrite (only_sec_count _ _ (only_sec_set index v s)).
  by destruct (only_sec_fields _ _ (only_sec_set index v s)) as (_ & -> & _).
Qed.

(** The flags speak about the bytes outside [off, off + len). *)
Definition flags_sound_outside (s : flash) (off len : Z) : Prop :=
  forall index i, m_sector_erased (sec s) !! Z.to_nat index = Some true -> 0 <= index ->
    index * m_sector_size_value (hot s) <= i < (index + 1) * m_sector_size_value (hot s) ->
    i < vec_size (m_data s) -> i < off \/ off + len <= i -> arr_get (m_data s) i = 0xff.

(** After a write to [off, off + len), bringing the cache up to date leaves flags
    that are sound outside the written range. *)
Lemma ensure_outside s d0 off len : sector_params_ok s ->
  vec_size d0 = vec_size (m_data s) ->
  (cache_valid s -> flags_sound (m_sector_size_value (hot s)) (m_sector_erased (sec s)) d0) ->
  (forall i, 0 <= i -> i < off \/ off + len <= i -> arr_get (m_data s) i = arr_get d0 i) ->
  let s' := ensure_sector_erased_map s in
  only_sec s s' /\ cache_valid s' /\ flags_sound_outside s' off len.
Proof.
  intros Hp Hsz Hsound Hout. cbv zeta. unfold ensure_sector_erased_map. case_if.
  - destruct (rebuild_valid s Hp) as (H1 & H2 & H3). split; [exact H1|]. split; [done|].
    intros index i Hi Hidx Hr Hlt _. by eapply (H3 H2).
  - bool_hyps. split; [apply only_sec_refl|]. assert (cache_valid s) as Hv by done. split; [done|].
    intros index i Hi Hidx Hr Hlt Ho. destruct Hp as [Hss _].
    rewrite Hout by (done || nia). rewrite <-Hsz in Hlt. by eapply (Hsound Hv).
Qed.

(** Clearing the flag of a position's sector accounts for that position. *)
Lemma clear_flag_outside s pos len : sector_params_ok s -> 0 <= pos < vec_size (m_data s) -> 0 <= len ->
  cache_valid s -> flags_sound_outside s pos (len + 1) ->
  flags_sound_outside (set_sector_erased (pos / m_sector_size_value (hot s)) false s) (pos + 1) len.
Proof.
  intros Hp Hpos Hlen [_ Hv] H index i Hi Hidx Hr Hlt Ho.
  pose proof (sector_index_range s pos Hp Hpos) as Hrange.
  destruct (only_sec_fields _ _ (only_sec_set (pos / m_sector_size_value (hot s)) false s)) as (Ed & Eh & _).
  rewrite Ed, Eh in *. rewrite set_sector_lookup in Hi by lia. rewrite Hv in Hi.
  destruct (Z.eqb_spec index (pos / m_sector_size_value (hot s))) as [->|Hne].
  - replace (_ <? sector_count s) with true in Hi by lia. done.
  - cbn [andb] in Hi. apply (H index i); try done.
    destruct (Z.eq_dec i pos) as [->|]; [|lia]. exfalso. apply Hne.
    apply Z.div_unique with (pos - index * m_sector_size_value (hot s)); lia.
Qed.

Lemma mark_range_sound s d0 off len :
  sector_params_ok s -> vec_size d0 = vec_size (m_data s) ->
  (cache_valid s -> flags_sound (m_sector_size_value (hot s)) (m_sector_erased (sec s)) d0) ->
  (forall i, 0 <= i -> i < off \/ off + len <= i -> arr_get (m_data s) i = arr_get d0 i) ->
  0 <= off -> 0 <= len -> off + len <= vec_size (m_data s) ->
  let s' := mark_programmed_range off len s in only_sec s s' /\ cache_sound s'.
Proof.
  intros Hp Hsz Hsound Hout Ho Hl Hend. cbv zeta. unfold mark_programmed_range. pose proof Hp as [Hss _].
  replace (m_sector_size_value (hot s) =? 0) with false by lia. rewrite orb_false_r.
  destruct (Z.eqb_spec len 0) as [->|]; cbn [orb].
  { split; [apply only_sec_refl|]. intros Hv index i Hi Hidx Hr Hlt. rewrite Hout by nia.
    rewrite <-Hsz in Hlt. by eapply (Hsound Hv). }
  replace (vec_size (m_data s) =? 0) with false by lia.
  destruct (ensure_outside s d0 off len Hp Hsz Hsound Hout) as (E1 & E2 & E3).
  set (s1 := ensure_sector_erased_map s) in *.
  assert (forall s2, only_sec s s2 -> m_data s2 = m_data s /\ hot s2 = hot s) as Hf.
  { intros s2 H. by destruct (only_sec_fields _ _ H) as (-> & -> & _). }
  pose proof (foldl_seqZ_ind (fun s2 pos => if arr_get (m_data s2) pos =? 0xff then s2
             else set_sector_erased (pos / m_sector_size_value (hot s)) false s2)
    (fun k s2 => only_sec s s2 /\ cache_valid s2 /\ flags_sound_outside s2 k (off + len - k))
    s1 off len Hl) as Hind.
  destruct Hind as (F1 & F2 & F3).
  - by replace (off + len - off) with len by lia.
  - intros k s2 Hk (I1 & I2 & I3). destruct (Hf s2 I1) as [Ed Eh].
    destruct (Z.eqb_spec (arr_get (m_data s2) k) 0xff) as [Hff|].
    + split; [done|]. split; [done|]. intros index i Hi Hidx Hr Hlt Ho'.
      destruct (Z.eq_dec i k) as [->|]; [done|]. apply (I3 index i); try done. lia.
    + split; [eapply only_sec_trans; [exact I1|apply only_sec_set]|].
      split; [by apply set_sector_valid|]. rewrite <-Eh.
      apply clear_flag_outside; [by eapply only_sec_params|rewrite Ed; lia|lia|done|].
      by replace (off + len - (k + 1) + 1) with (off + len - k) by lia.
  - split; [done|]. intros _ index i Hi Hidx Hr Hlt. apply (F3 index i); try done. lia.
Qed.

Lemma mark_byte_sound s d0 off :
  sector_params_ok s -> vec_size d0 = vec_size (m_data s) ->
  (cache_valid s -> flags_sound (m_sector_size_value (hot s)) (m_sector_erased (sec s)) d0) ->
  (forall i, 0 <= i -> i <> off -> arr_get (m_data s) i = arr_get d0 i) -> 0 <= off < vec_size (m_data s) ->
  let s' := mark_programmed_byte off s in only_sec s s' /\ cache_sound s'.
Proof.
  intros Hp Hsz Hsound Hout Ho. cbv zeta. unfold mark_programmed_byte. pose proof Hp as [Hss _].
  replace (m_sector_size_value (hot s) =? 0) with false by lia. replace (vec_size (m_data s) =? 0) with false by lia.
  cbn [orb]. destruct (Z.eqb_spec (arr_get (m_data s) off) 0xff) as [Hff|].
  - split; [apply only_sec_refl|]. intros Hv index i Hi Hidx Hr Hlt.
    destruct (Z.eq_dec i off) as [->|]; [done|]. rewrite Hout by (done || nia). rewrite <-Hsz in Hlt. by eapply (Hsound Hv).
  - destruct (ensure_outside s d0 off 1 Hp Hsz Hsound ltac:(intros; apply Hout; lia)) as (E1 & E2 & E3).
    destruct (only_sec_fields _ _ E1) as (Ed & Eh & _).
    pose proof (clear_flag_outside (ensure_sector_erased_map s) off 0 ltac:(by eapply only_sec_params)
      ltac:(by rewrite Ed) ltac:(lia) E2 E3) as Hc. rewrite Eh in Hc.
    split; [eapply only_sec_trans; [exact E1|apply only_sec_set]|]. intros Hv index i Hi Hidx Hr Hlt.
    apply (Hc index i); try done. lia.
Qed.

Lemma cache_sound_core s s' : core s = core s' -> cache_sound s -> cache_sound s'.
Proof.
  intros H. apply core_eq in H as (H1 & _ & _ & _ & _ & H2 & _ & H3 & _).
  unfold cache_sound, cache_valid, sector_count. by rewrite H1, H2, H3.
Qed.

(** * The flash without its cache, files and statistics *)

(** What a NOR flash is: an array of bytes and the state of its command set. *)
Record nor := MkNor {
  n_data : list Z; n_mode : mode; n_pending : pending_command; n_status : Z; n_buf : write_buffer }.

#[export] Instance eta_nor : Eta nor := fun n =>
  MkNor (n_data n) (n_mode n) (n_pending n) (n_status n) (n_buf n).

Definition abs (s : flash) : nor := MkNor (m_data s) (m_mode s) (m_pending s) (m_status s) (buf s).

Lemma abs_core s s' : core s = core s' -> abs s = abs s' /\ hot s = hot s' /\ dmi s = dmi s'.
Proof. intros (H1 & H2 & H3 & H0 & H4 & _ & H5 & H6 & _)%core_eq. unfold abs. by rewrite H1, H2, H3, H0, H4. Qed.

Definition nor_ready (n : nor) : nor := n <| n_status := STATUS_READY |> <| n_mode := read_status |>.
Definition nor_finish (n : nor) : nor := (nor_ready n) <| n_pending := pending_none |>.

(** A sector reads all ones after an erase. *)
Definition nor_erase (h : hot_params) (offset : Z) (n : nor) : nor :=
  let ss := m_sector_size_value h in
  let first := offset / ss * ss in
  nor_finish (n <| n_data ::= fun d => fill_range first (Z.min (first + ss) (vec_size d)) 0xff d |>).

(** Programming clears the bits the data has clear; the two compatibility options
    let 0xff set a byte, or erase the sector it starts. *)
Definition programmed (h : hot_params) (old data : Z) : Z :=
  if m_program_ff_sets_bits_value h && (data =? 0xff) then 0xff else Z.land old data.

Definition program_block (h : hot_params) (offset : Z) (data : list Z) (len : Z) (d : list Z) : list Z :=
  splice offset (map (fun i => programmed h (arr_get d (offset + i)) (arr_get data i)) (range len)) d.

Definition erases_by_ff (h : hot_params) (offset : Z) (data : list Z) (len : Z) : bool :=
  m_program_ff_erases_sector_value h && (len =? 1) && (arr_get data 0 =? 0xff) &&
  (offset mod m_sector_size_value h =? 0).

Definition nor_program (h : hot_params) (offset : Z) (data : list Z) (len : Z) (n : nor) : nor :=
  if erases_by_ff h offset data len then nor_erase h offset n
  else nor_finish (n <| n_data ::= program_block h offset data len |>).

(** What the concrete operations share: the abstract state moves as given, the
    parameters and grants stay, and the cache stays sound. *)
Definition refines_to (s s' : flash) (n : nor) : Prop :=
  abs s' = n /\ hot s' = hot s /\ dmi s' = dmi s /\ cache_sound s'.

Lemma refines_to_core s s' s'' n : core s' = core s'' -> refines_to s s'' n -> refines_to s s' n.
Proof.
  unfold refines_to. intros H (H1 & H2 & H3 & H4). destruct (abs_core _ _ H) as (-> & -> & ->).
  split; [done|]. split; [done|]. split; [done|]. by eapply cache_sound_core.
Qed.

(** * Erase *)

Section erase.
Context (s : flash).
Hypothesis Hp : sector_params_ok s.
Hypothesis Hsound : cache_sound s.

Lemma sector_is_erased_spec first : 0 <= first < vec_size (m_data s) ->
  let '(erased, s') := sector_is_erased first s in
  only_sec s s' /\ cache_sound s' /\
  (erased = true -> forall i, first / m_sector_size_value (hot s) * m_sector_size_value (hot s) <= i <
      (first / m_sector_size_value (hot s) + 1) * m_sector_size_value (hot s) ->
    i < vec_size (m_data s) -> arr_get (m_data s) i = 0xff).
Proof.
  intros Hf. unfold sector_is_erased. pose proof Hp as [Hss _].
  replace (m_sector_size_value (hot s) =? 0) with false by lia. replace (vec_size (m_data s) =? 0) with false by lia.
  cbn [orb]. destruct (ensure_valid s Hp Hsound) as (E1 & E2 & E3). split; [exact E1|]. split; [done|].
  destruct (only_sec_fields _ _ E1) as (Ed & Eh & _). intros He i Hi Hlt.
  destruct (m_sector_erased _ !! _) as [b|] eqn:Eb; [|done]. cbn in He. subst b.
  rewrite <-Ed. rewrite <-Eh in Eb. apply (E3 E2 (first / m_sector_size_value (hot s)) i).
  - by rewrite <-Eh.
  - apply Z.div_pos; lia.
  - by rewrite Eh.
  - by rewrite Ed.
Qed.
End erase.

Lemma mark_sector_erased_spec s d0 first :
  let ss := m_sector_size_value (hot s) in
  sector_params_ok s -> vec_size d0 = vec_size (m_data s) ->
  (cache_valid s -> flags_sound ss (m_sector_erased (sec s)) d0) ->
  (forall i, 0 <= i -> i < first \/ Z.min (first + ss) (vec_size d0) <= i -> arr_get (m_data s) i = arr_get d0 i) ->
  (forall i, first <= i < Z.min (first + ss) (vec_size d0) -> arr_get (m_data s) i = 0xff) ->
  first mod ss = 0 -> 0 <= first < vec_size (m_data s) ->
  let s' := mark_sector_erased first s in only_sec s s' /\ cache_sound s'.
Proof.
  cbv zeta. intros Hp Hsz Hsound Hout Hin Hal Hf. pose proof Hp as [Hss _]. unfold mark_sector_erased.
  set (ss := m_sector_size_value (hot s)) in *.
  replace (ss =? 0) with false by lia. replace (vec_size (m_data s) =? 0) with false by lia. cbn [orb].
  set (len := Z.min (first + ss) (vec_size d0) - first).
  destruct (ensure_outside s d0 first len Hp Hsz Hsound) as (E1 & E2 & E3).
  { intros i Hi0 Hi. apply Hout; [done|]. unfold len in Hi. lia. }
  destruct (only_sec_fields _ _ E1) as (Ed & Eh & _).
  set (s1 := ensure_sector_erased_map s) in *.
  split; [eapply only_sec_trans; [exact E1|apply only_sec_set]|]. intros Hv index i Hi Hidx Hr Hlt.
  destruct (only_sec_fields _ _ (only_sec_set (first / ss) true s1)) as (Ed2 & Eh2 & _).
  rewrite Ed2, Eh2, Eh, Ed in *. fold ss in Hr.
  rewrite set_sector_lookup in Hi by (try lia; apply Z.div_pos; lia).
  pose proof (Z.div_mod first ss ltac:(lia)).
  destruct (Z.eqb_spec index (first / ss)) as [->|Hne].
  - apply Hin. rewrite Hsz. nia.
  - cbn [andb] in Hi. rewrite <-Ed. apply (E3 index i); try done.
    + by rewrite Eh.
    + by rewrite Ed.
    + unfold len. rewrite Hsz. destruct (Z.lt_ge_cases index (first / ss)); nia.
Qed.

Lemma finish_refines s s' n : refines_to s s' n -> refines_to s (finish s') (nor_finish n).
Proof. intros (H1 & H2 & H3 & H4). subst n. done. Qed.

(** The sector a position lies in starts at or before it, in the array. *)
Lemma sector_first offset ss : 0 < ss -> 0 <= offset ->
  0 <= offset / ss * ss <= offset /\ offset < offset / ss * ss + ss /\ (offset / ss * ss) mod ss = 0 /\
  offset / ss * ss / ss * ss = offset / ss * ss.
Proof.
  intros Hss Ho. pose proof (Z.div_mod offset ss ltac:(lia)). pose proof (Z.mod_pos_bound offset ss ltac:(lia)).
  pose proof (Z.div_pos offset ss). rewrite Z.mod_mul, Z.div_mul by lia. nia.
Qed.

(** Filling a sector that is not known to be erased, and noting that it now is. *)
Lemma fill_sector_spec s first :
  let ss := m_sector_size_value (hot s) in
  let d' := fill_range first (Z.min (first + ss) (vec_size (m_data s))) 0xff (m_data s) in
  sector_params_ok s -> cache_sound s -> first mod ss = 0 -> 0 <= first < vec_size (m_data s) ->
  let s' := mark_sector_erased first (s <| m_data := d' |>) in
  only_sec (s <| m_data := d' |>) s' /\ cache_sound s'.
Proof.
  cbv zeta. intros Hp Hs Hal Hf. pose proof Hp as [Hss Hsz]. set (ss := m_sector_size_value (hot s)) in *.
  set (d' := fill_range first _ _ _).
  assert (vec_size d' = vec_size (m_data s)) as Esz by (unfold d'; rewrite fill_range_size by lia; done).
  assert (forall i, 0 <= i -> arr_get d' i =
    if (first <=? i) && (i <? Z.min (first + ss) (vec_size (m_data s))) then 0xff else arr_get (m_data s) i) as Hget
    by (intros i Hi; unfold d'; by rewrite fill_range_get by lia).
  set (s1 := s <| m_data := d' |>). assert (m_data s1 = d' /\ hot s1 = hot s) as [Ed Eh] by done.
  apply (mark_sector_erased_spec s1 (m_data s) first); rewrite ?Eh; fold ss.
  - split; [by rewrite Eh|by rewrite Ed, Esz].
  - by rewrite Ed.
  - intros [V1 V2]. apply Hs. split; [exact V1|]. unfold sector_count in *. by rewrite Ed, Eh, Esz in V2.
  - intros i Hi0 Hi. rewrite Ed, Hget by done. by replace (_ && _) with false by lia.
  - intros i Hi. rewrite Ed, Hget by lia. by replace (_ && _) with true by lia.
  - done.
  - rewrite Ed, Esz. lia.
Qed.

(** Erasing with the cache does what erasing without it would. *)
Lemma erase_refines s offset : sector_params_ok s -> cache_sound s -> 0 <= offset < vec_size (m_data s) ->
  refines_to s (erase_sector offset s) (nor_erase (hot s) offset (abs s)).
Proof.
  intros Hp Hsound Ho. pose proof Hp as [Hss Hsz]. unfold erase_sector, nor_erase.
  set (ss := m_sector_size_value (hot s)) in *. set (first := offset / ss * ss).
  destruct (sector_first offset ss ltac:(lia) ltac:(lia)) as (Hfirst & _ & Hal & Edm). fold first in Hfirst, Hal, Edm.
  rewrite wrap_small by (split; lia). cbv zeta.
  set (s0 := count_stat_by sector_erase_bytes _ _).
  assert (core s0 = core s) as Hc0 by (unfold s0; by rewrite core_count, core_count1).
  destruct (core_eq _ _ Hc0) as (Ed & Em & Epd & Est & Ebuf & Esec & Edmi & Ehot & _).
  assert (sector_params_ok s0) as Hp0 by (unfold sector_params_ok; by rewrite Ed, Ehot).
  assert (cache_sound s0) as Hs0 by (by eapply cache_sound_core; [symmetry|]).
  pose proof (sector_is_erased_spec s0 Hp0 Hs0 first ltac:(rewrite Ed; lia)) as He.
  destruct (sector_is_erased first s0) as [erased s1]. destruct He as (H1 & H2 & H3).
  destruct (only_sec_fields _ _ H1) as (F1 & F2 & F3 & F4 & F5 & F6 & _ & F8).
  rewrite Ehot, Ed in H3. fold ss in H3. cbn [n_data abs].
  assert (m_data s1 = m_data s /\ hot s1 = hot s) as [Ed1 Eh1] by (split; congruence).
  destruct erased; apply finish_refines.
  - split; [|split; [congruence|split; [congruence|done]]].
    unfold abs. cbn. rewrite F1, F3, F4, F5, F8, Ed, Em, Epd, Est, Ebuf. f_equal.
    apply vec_ext.
    + pose proof (fill_range_size first (Z.min (first + ss) (vec_size (m_data s))) 0xff (m_data s)
        ltac:(lia) ltac:(lia)) as Hf. unfold vec_size in *. lia.
    + intros i Hi. rewrite fill_range_get by lia. case_if; [|done]. apply H3; try done; nia.
  - eapply refines_to_core; [apply core_write_backing|].
    pose proof (fill_sector_spec s1 first) as Hfill. cbv zeta in Hfill. rewrite Ed1, Eh1 in Hfill. fold ss in Hfill.
    change (s1 <| m_data ::= fill_range first (Z.min (first + ss) (vec_size (m_data s))) 0xff |>)
      with (s1 <| m_data := fill_range first (Z.min (first + ss) (vec_size (m_data s))) 0xff (m_data s1) |>).
    rewrite Ed1. destruct Hfill as [G1 G2];
      [by unfold sector_params_ok; rewrite Ed1, Eh1|done|done|lia|].
    destruct (only_sec_fields _ _ G1) as (K1 & K2 & K3 & K4 & K5 & K6 & _ & K8).
    split; [|split; [rewrite K2; exact Eh1|split; [rewrite K6; cbn; congruence|done]]].
    unfold abs. rewrite K1, K3, K4, K5, K8. cbn. rewrite F3, F4, F5, F8, Em, Epd, Est, Ebuf. done.
Qed.

Lemma core_finish s s' : core s = core s' -> core (finish s) = core (finish s').
Proof.
  intros H. change (finish (core s) = finish (core s')). by rewrite H.
Qed.

Lemma core_set_data d s s' : core s = core s' -> core (s <| m_data := d |>) = core (s' <| m_data := d |>).
Proof.
  intros H. change ((core s) <| m_data := d |> = (core s') <| m_data := d |>). by rewrite H.
Qed.

(** * Program *)

Lemma arr_get_map (f : Z -> Z) n i : 0 <= i < n -> arr_get (map f (range n)) i = f i.
Proof.
  intros Hi. unfold arr_get, range. rewrite list_lookup_fmap, lookup_seqZ_lt by lia. cbn. f_equal. lia.
Qed.

Lemma flash_map_range_size (f : Z -> Z) n : 0 <= n -> vec_size (map f (range n)) = n.
Proof. intros. unfold vec_size, range. rewrite length_map, length_seqZ. lia. Qed.

Lemma program_block_get h offset data len d i :
  0 <= offset -> 0 <= len -> offset + len <= vec_size d -> 0 <= i ->
  arr_get (program_block h offset data len d) i =
  if (offset <=? i) && (i <? offset + len) then programmed h (arr_get d i) (arr_get data (i - offset))
  else arr_get d i.
Proof.
  intros Ho Hl Hend Hi. unfold program_block. rewrite splice_get by (rewrite ?flash_map_range_size; lia).
  rewrite flash_map_range_size by done. case_if; [|done]. bool_hyps. rewrite arr_get_map by lia.
  do 2 f_equal. lia.
Qed.

Lemma program_block_size h offset data len d : 0 <= offset -> 0 <= len -> offset + len <= vec_size d ->
  vec_size (program_block h offset data len d) = vec_size d.
Proof. intros. apply splice_size; rewrite ?flash_map_range_size; lia. Qed.

Lemma arr_set_size i v l : vec_size (arr_set i v l) = vec_size l.
Proof. unfold vec_size. by rewrite arr_set_length. Qed.

Lemma arr_get_set i v l j : 0 <= i < vec_size l -> 0 <= j ->
  arr_get (arr_set i v l) j = if j =? i then v else arr_get l j.
Proof.
  intros Hi Hj. unfold vec_size in Hi. destruct (Z.eqb_spec j i) as [->|].
  - by apply arr_get_set_eq.
  - by apply arr_get_set_ne; lia.
Qed.

(** What the programming loop has done after [k] bytes. *)
Definition done_upto (h : hot_params) (offset : Z) (data : list Z) (len : Z) (d : list Z) (k : Z)
    (acc : list Z * Z * Z * Z) : Prop :=
  let '(mem, first, last, changed) := acc in
  length mem = length d /\
  (forall i, 0 <= i -> arr_get mem i = if (offset <=? i) && (i <? offset + k)
     then programmed h (arr_get d i) (arr_get data (i - offset)) else arr_get d i) /\
  if first =? len then mem = d
  else 0 <= first <= last /\ last < k /\
    forall i, 0 <= i -> i < offset + first \/ offset + last + 1 <= i -> arr_get mem i = arr_get d i.

Lemma done_step s offset data len d k acc : 0 <= offset -> offset + len <= vec_size d -> 0 <= k < len ->
  done_upto (hot s) offset data len d k acc ->
  done_upto (hot s) offset data len d (k + 1) (program_step s offset data acc k).
Proof.
  intros Ho Hend Hk. destruct acc as [[[mem first] last] changed]. intros (H1 & H2 & H3). unfold program_step.
  change (program_value s) with (programmed (hot s)).
  assert (arr_get mem (offset + k) = arr_get d (offset + k)) as Eold.
  { rewrite H2 by lia. by replace (_ && _) with false by lia. }
  rewrite Eold. set (v := programmed (hot s) (arr_get d (offset + k)) (arr_get data k)).
  assert (offset + k - offset = k) as Ek by lia. unfold vec_size in Hend.
  destruct (Z.eqb_spec v (arr_get d (offset + k))) as [Ev|Ev]; unfold done_upto.
  - split; [done|]. split.
    + intros i Hi. rewrite H2 by done. destruct (Z.eq_dec i (offset + k)) as [->|].
      * replace ((offset <=? offset + k) && (offset + k <? offset + k)) with false by lia.
        replace (_ && _) with true by lia. rewrite Ek. by symmetry.
      * replace (i <? offset + (k + 1)) with (i <? offset + k) by lia. done.
    + destruct (first =? len); [done|]. destruct H3 as (A & B & C). split; [done|]. split; [lia|done].
  - split; [by rewrite arr_set_length|]. split.
    + intros i Hi. rewrite arr_get_set by (unfold vec_size; lia). destruct (Z.eqb_spec i (offset + k)) as [->|].
      * replace (_ && _) with true by lia. by rewrite Ek.
      * rewrite H2 by done. by replace (i <? offset + (k + 1)) with (i <? offset + k) by lia.
    + destruct (Z.eqb_spec (Z.min first k) len); [lia|].
      split; [destruct (Z.eqb_spec first len); lia|]. split; [lia|]. intros i Hi Hr.
      rewrite arr_get_set by (unfold vec_size; lia). replace (i =? offset + k) with false by lia.
      destruct (Z.eqb_spec first len) as [Ef|]; [by subst mem|].
      destruct (Z.lt_ge_cases i (offset + first)); [apply H3; lia|].
      rewrite H2 by done. by replace (_ && _) with false by lia.
Qed.

Lemma program_loop_spec s offset data len d :
  0 <= offset -> 0 <= len -> offset + len <= vec_size d ->
  let '(mem, first, last, changed) :=
    foldl (program_step s offset data) (d, len, 0, 0) (range len) in
  mem = program_block (hot s) offset data len d /\
  if first =? len then mem = d
  else 0 <= first <= last /\ last < len /\
       forall i, 0 <= i -> i < offset + first \/ offset + last + 1 <= i -> arr_get mem i = arr_get d i.
Proof.
  intros Ho Hl Hend.
  pose proof (foldl_seqZ_ind (program_step s offset data) (done_upto (hot s) offset data len d) (d, len, 0, 0) 0 len Hl) as H.
  destruct (foldl (program_step s offset data) (d, len, 0, 0) (range len)) as [[[mem first] last] changed] eqn:E.
  unfold range in E. rewrite E in H. destruct H as (H1 & H2 & H3).
  - cbn. rewrite Z.eqb_refl. split; [done|]. split; [|done]. intros i Hi. by replace (_ && _) with false by lia.
  - intros k acc Hk. apply done_step; lia.
  - split; [|exact H3]. apply vec_ext.
    + pose proof (program_block_size (hot s) offset data len d Ho Hl Hend). unfold vec_size in *. lia.
    + intros i Hi. rewrite program_block_get by lia. apply H2. lia.
Qed.

Lemma refines_after_write s s0 s2 d' : core s0 = core s -> sector_params_ok s ->
  vec_size d' = vec_size (m_data s) ->
  only_sec (s0 <| m_data := d' |>) s2 -> cache_sound s2 ->
  refines_to s (finish s2) (nor_finish ((abs s) <| n_data := d' |>)).
Proof.
  intros Hc Hp Hsz Hs2 Hcs. destruct (core_eq _ _ Hc) as (Ed & Em & Epd & Est & Ebuf & _ & Edmi & Ehot & _).
  destruct (only_sec_fields _ _ Hs2) as (K1 & K2 & K3 & K4 & K5 & K6 & _ & K8). cbn in *.
  apply finish_refines. split; [|split; [congruence|split; [congruence|done]]].
  unfold abs. cbn. congruence.
Qed.

Lemma cache_hyp s s0 d' : core s0 = core s -> cache_sound s -> vec_size d' = vec_size (m_data s) ->
  cache_valid (s0 <| m_data := d' |>) ->
  flags_sound (m_sector_size_value (hot (s0 <| m_data := d' |>)))
    (m_sector_erased (sec (s0 <| m_data := d' |>))) (m_data s).
Proof.
  intros Hc Hcs Hsz [V1 V2]. destruct (core_eq _ _ Hc) as (Ed & Em & Epd & _ & Ebuf & Esec & Edmi & Ehot & _).
  cbn in *. rewrite Ehot, Esec in *. apply Hcs. split; [done|]. rewrite V2. unfold sector_count. cbn.
  by rewrite Hsz.
Qed.

(** The one-byte shortcut of [program]. *)
Definition program_byte (offset : Z) (data : list Z) (s : flash) : flash :=
  let v := program_value s (arr_get (m_data s) offset) (arr_get data 0) in
  finish (if negb (v =? arr_get (m_data s) offset)
          then write_backing_range offset 1 (mark_programmed_byte offset (s <| m_data ::= arr_set offset v |>)) else s).

(** The loop of [program] and what follows it. *)
Definition program_range (offset : Z) (data : list Z) (len : Z) (s : flash) : flash :=
  let '(mem, first_changed, last_changed, changed) :=
    foldl (program_step s offset data) (m_data s, len, 0, 0) (range len) in
  let s := count_stat_by program_noop_bytes (len - changed)
    (count_stat_by program_changed_bytes changed (s <| m_data := mem |>)) in
  finish (if negb (first_changed =? len)
          then write_backing_range (offset + first_changed) (last_changed - first_changed + 1)
                 (mark_programmed_range (offset + first_changed) (last_changed - first_changed + 1) s) else s).

Lemma program_cases offset data len s : program offset data len s =
  if is_sector_aligned_program_ff_erase offset data len s
  then erase_sector offset (count_stat compat_ff_sector_erase_ops (count_stat_by program_bytes len (count_stat program_ops s)))
  else if negb (stats_enabled s) && (len =? 1) then program_byte offset data s
  else program_range offset data len (count_stat_by program_bytes len (count_stat program_ops s)).
Proof. done. Qed.

Lemma program_block_one h offset data d : 0 <= offset < vec_size d ->
  program_block h offset data 1 d = arr_set offset (programmed h (arr_get d offset) (arr_get data 0)) d.
Proof.
  intros Ho. pose proof (program_block_size h offset data 1 d ltac:(lia) ltac:(lia) ltac:(lia)) as Hbs.
  apply vec_ext; [rewrite arr_set_length; unfold vec_size in Hbs; lia|]. intros i Hi. rewrite Hbs in Hi.
  rewrite program_block_get, arr_get_set by lia. destruct (Z.eqb_spec i offset) as [->|].
  - replace (_ && _) with true by lia. by rewrite Z.sub_diag.
  - by replace (_ && _) with false by lia.
Qed.

Lemma arr_set_same offset d : 0 <= offset < vec_size d -> arr_set offset (arr_get d offset) d = d.
Proof.
  intros Ho. apply vec_ext; [by rewrite arr_set_length|]. intros i Hi. rewrite arr_set_size in Hi.
  rewrite arr_get_set by lia. by destruct (Z.eqb_spec i offset) as [->|].
Qed.

Lemma program_byte_refines s offset data : sector_params_ok s -> cache_sound s -> 0 <= offset < vec_size (m_data s) ->
  refines_to s (program_byte offset data s)
    (nor_finish ((abs s) <| n_data := program_block (hot s) offset data 1 (m_data s) |>)).
Proof.
  intros Hp Hcs Ho. pose proof Hp as [Hss Hsz]. unfold program_byte. cbv zeta. rewrite program_block_one by done.
  change (program_value s) with (programmed (hot s)).
  set (v := programmed (hot s) (arr_get (m_data s) offset) (arr_get data 0)).
  destruct (Z.eqb_spec v (arr_get (m_data s) offset)) as [Ev|Ev]; cbn [negb].
  - rewrite Ev, arr_set_same by done. by apply finish_refines.
  - destruct (mark_byte_sound (s <| m_data := arr_set offset v (m_data s) |>) (m_data s) offset) as [G1 G2].
    + split; [done|cbn; by rewrite arr_set_size].
    + cbn. by rewrite arr_set_size.
    + intros Hv. by apply (cache_hyp s s (arr_set offset v (m_data s))); [|done|rewrite arr_set_size|].
    + intros i Hi Hne. cbn. rewrite arr_get_set by lia. by replace (i =? offset) with false by lia.
    + cbn. rewrite arr_set_size. lia.
    + set (s2 := mark_programmed_byte _ _) in *.
      apply (refines_to_core _ _ (finish s2)); [apply core_finish, core_write_backing|].
      apply (refines_after_write s s s2 (arr_set offset v (m_data s))); try done. by rewrite arr_set_size.
Qed.

Lemma program_range_refines s offset data len : sector_params_ok s -> cache_sound s ->
  0 <= offset -> 1 <= len -> offset + len <= vec_size (m_data s) ->
  refines_to s (program_range offset data len s)
    (nor_finish ((abs s) <| n_data := program_block (hot s) offset data len (m_data s) |>)).
Proof.
  intros Hp Hcs Ho Hl Hend. pose proof Hp as [Hss Hsz]. unfold program_range.
  pose proof (program_loop_spec s offset data len (m_data s) Ho ltac:(lia) Hend) as Hloop.
  pose proof (program_block_size (hot s) offset data len (m_data s) Ho ltac:(lia) Hend) as Hbs.
  destruct (foldl _ _ _) as [[[mem first] last] changed].
  destruct Hloop as [-> Hch]. set (d' := program_block (hot s) offset data len (m_data s)) in *.
  cbv zeta. set (s1 := count_stat_by program_noop_bytes _ _).
  assert (core s1 = core (s <| m_data := d' |>)) as Hc1 by (unfold s1; by rewrite !core_count).
  destruct (Z.eqb_spec first len) as [Ef|Ef]; cbn [negb].
  - apply finish_refines. eapply refines_to_core; [exact Hc1|]. rewrite Hch. by destruct s.
  - destruct Hch as (Hf & Hl' & Hout).
    set (s2 := mark_programmed_range (offset + first) (last - first + 1) s1).
    apply (refines_to_core _ _ (finish s2)); [apply core_finish, core_write_backing|].
    destruct (core_eq _ _ Hc1) as (Ed2 & _ & _ & _ & _ & Esec2 & _ & Ehot2 & _). cbn in Ed2, Esec2, Ehot2.
    destruct (mark_range_sound s1 (m_data s) (offset + first) (last - first + 1)) as [G1 G2].
    + split; [by rewrite Ehot2|by rewrite Ed2, Hbs].
    + by rewrite Ed2.
    + rewrite Ehot2, Esec2. intros [V1 V2]. apply Hcs. rewrite Ehot2, Esec2 in *.
      split; [done|]. rewrite V2. unfold sector_count. by rewrite Ehot2, Ed2, Hbs.
    + intros i Hi Hr. rewrite Ed2. apply Hout; lia.
    + lia.
    + lia.
    + rewrite Ed2, Hbs. lia.
    + apply (refines_after_write s s s2 d'); try done.
      unfold only_sec in *. fold s2 in G1. rewrite G1.
      change ((core s1) <| sec := sec s2 |> = (core (s <| m_data := d' |>)) <| sec := sec s2 |>).
      by rewrite Hc1.
Qed.

(** Carrying a refinement across counting. *)
Lemma refines_counted s s0 s' n : core s0 = core s -> refines_to s0 s' n -> refines_to s s' n.
Proof.
  intros H (H1 & H2 & H3 & H4). destruct (abs_core _ _ H) as (_ & E1 & E2).
  split; [done|]. split; [congruence|]. split; [congruence|done].
Qed.

Lemma counted_inv s s0 : core s0 = core s -> sector_params_ok s -> cache_sound s -> sector_params_ok s0 /\ cache_sound s0.
Proof.
  intros H Hp Hs. split; [|by eapply cache_sound_core; [symmetry|]].
  apply core_eq in H as (Ed & _ & _ & _ & _ & _ & _ & Eh & _). unfold sector_params_ok. by rewrite Ed, Eh.
Qed.

Lemma program_refines s offset data len : sector_params_ok s -> cache_sound s ->
  0 <= offset -> 1 <= len -> offset + len <= vec_size (m_data s) ->
  refines_to s (program offset data len s) (nor_program (hot s) offset data len (abs s)).
Proof.
  intros Hp Hcs Ho Hl Hend. pose proof Hp as [Hss Hsz]. rewrite program_cases. unfold nor_program.
  assert (is_sector_aligned_program_ff_erase offset data len s = erases_by_ff (hot s) offset data len) as ->.
  { unfold is_sector_aligned_program_ff_erase, erases_by_ff.
    replace (m_sector_size_value (hot s) =? 0) with false by lia. cbn [negb]. by rewrite andb_true_r. }
  case_if.
  - set (s0 := count_stat compat_ff_sector_erase_ops _).
    assert (core s0 = core s) as Hc0 by (unfold s0; by rewrite !core_count1, core_count, core_count1).
    destruct (abs_core _ _ Hc0) as (Ea & Eh & _). destruct (counted_inv s s0 Hc0 Hp Hcs) as [Hp0 Hs0].
    apply core_eq in Hc0 as Hf. destruct Hf as (Ed & _). rewrite <-Ea, <-Eh.
    apply (refines_counted s s0 _ _ Hc0), erase_refines; [done|done|rewrite Ed; lia].
  - case_if; [bool_hyps; subst len; apply program_byte_refines; (done || lia)|].
    set (s0 := count_stat_by program_bytes len (count_stat program_ops s)).
    assert (core s0 = core s) as Hc0 by (unfold s0; by rewrite core_count, core_count1).
    destruct (abs_core _ _ Hc0) as (Ea & Eh & _). destruct (counted_inv s s0 Hc0 Hp Hcs) as [Hp0 Hs0].
    apply core_eq in Hc0 as Hf. destruct Hf as (Ed & _).
    change ((abs s) <| n_data ::= program_block (hot s) offset data len |>)
      with ((abs s) <| n_data := program_block (hot s) offset data len (m_data s) |>).
    rewrite <-Ea, <-Eh, <-Ed. apply (refines_counted s s0 _ _ Hc0), program_range_refines; try done. by rewrite Ed.
Qed.

(** * The command set *)

Definition nor_clear (n : nor) : nor := n <| n_buf := MkBuffer 0 [] [] |>.

Definition nor_complete (n : nor) : bool :=
  negb (bool_decide (m_write_buffer_written (n_buf n) = [])) && forallb id (m_write_buffer_written (n_buf n)).

(** A buffered write announces its byte count less one, then fills the buffer at
    consecutive addresses from the first, then is confirmed. *)
Definition nor_begin (offset : Z) (data : list Z) (n : nor) : nor :=
  let count := arr_get data 0 + 1 in
  if (WRITE_BUFFER_MAX <? count) || (vec_size (n_data n) <? offset + count)
  then nor_finish (nor_clear n)
  else (nor_ready n) <| n_pending := pending_write_buffer_data |>
         <| n_buf := MkBuffer offset (replicate (Z.to_nat count) 0xff) (replicate (Z.to_nat count) false) |>.

Definition nor_collect (offset : Z) (data : list Z) (len : Z) (n : nor) : nor :=
  let base := m_write_buffer_base (n_buf n) in
  let size := vec_size (m_write_buffer (n_buf n)) in
  if (base <=? offset) && (offset <? base + size) then
    let copy_len := Z.min len (base + size - offset) in
    (nor_ready n) <| n_buf ::= fun w =>
      w <| m_write_buffer ::= splice (offset - base) (get_data copy_len data) |>
        <| m_write_buffer_written ::= splice (offset - base) (replicate (Z.to_nat copy_len) true) |> |>
  else (nor_clear n) <| n_pending := pending_none |>.

Definition nor_confirm (h : hot_params) (n : nor) : nor :=
  let w := n_buf n in
  nor_clear (nor_program h (m_write_buffer_base w) (m_write_buffer w) (vec_size (m_write_buffer w)) n).

(** The command a first write cycle starts. *)
Definition nor_start (command : Z) (n : nor) : nor :=
  if command =? CMD_READ_ARRAY then n <| n_mode := read_array |>
  else if command =? CMD_READ_ID_CODE then n <| n_mode := read_id |>
  else if command =? CMD_READ_QUERY then n <| n_mode := read_query |>
  else if (command =? CMD_READ_STATUS_REG) || (command =? CMD_CLEAR_STATUS_REG) then nor_ready n
  else if command =? CMD_WRITE_TO_BUFFER then
    (nor_ready (nor_clear n)) <| n_pending := pending_write_buffer_count |>
  else if command =? CMD_WORD_PROGRAM then n <| n_pending := pending_program |>
  else if command =? CMD_BLOCK_ERASE then n <| n_pending := pending_erase |>
  else if command =? CMD_LOCK_UNLOCK then n <| n_pending := pending_lock |>
  else n <| n_mode := read_array |> <| n_pending := pending_none |>.

Definition nor_write (h : hot_params) (offset : Z) (data : list Z) (len : Z) (n : nor) : nor :=
  let command := arr_get data 0 in
  match n_pending n with
  | pending_program => nor_program h offset data len n
  | pending_write_buffer_count => nor_begin offset data n
  | pending_write_buffer_data =>
      if nor_complete n && (len =? 1) && (command =? CMD_BLOCK_ERASE_ACK)
      then nor_confirm h n else nor_collect offset data len n
  | pending_none => nor_start command n
  | pending_erase =>
      if command =? CMD_BLOCK_ERASE_ACK then nor_erase h offset n
      else nor_start command (n <| n_pending := pending_none |>)
  | pending_lock =>
      if (command =? CMD_LOCK_BLOCK) || (command =? CMD_BLOCK_ERASE_ACK) then nor_finish n
      else nor_start command (n <| n_pending := pending_none |>)
  end.

(** What a read shows in each mode. *)
Definition nor_read (offset len : Z) (n : nor) : list Z :=
  map (fun i =>
    let a := offset + i in
    match n_mode n with
    | read_array => arr_get (n_data n) a
    | read_id => if a =? 0 then MANUFACTURER_ID else if a =? 4 then DEVICE_CODE else 0
    | read_query => if a =? 0x10 then 0x51 else if a =? 0x11 then 0x52 else if a =? 0x12 then 0x59 else 0
    | read_status => n_status n
    end) (range len).

(** The buffer of a flash: its cells are bytes of a block inside the array. *)
Definition buffer_ok (n : nor) : Prop :=
  let w := n_buf n in
  length (m_write_buffer_written w) = length (m_write_buffer w) /\ 0 <= m_write_buffer_base w /\
  (m_write_buffer w <> [] -> m_write_buffer_base w + vec_size (m_write_buffer w) <= vec_size (n_data n)).

Section machine.
Context (cfg : flash_config).

Lemma clear_refines s s' n : refines_to s s' n -> refines_to s (clear_write_buffer s') (nor_clear n).
Proof. intros (H1 & H2 & H3 & H4). subst n. done. Qed.

Lemma complete_abs s : length (m_write_buffer_written (buf s)) = length (m_write_buffer (buf s)) ->
  write_buffer_complete s = nor_complete (abs s).
Proof.
  intros Hl. unfold write_buffer_complete, nor_complete. cbn [n_buf abs].
  by destruct (m_write_buffer_written (buf s)).
Qed.

Lemma start_refines command s : cache_sound s ->
  refines_to s (start_command command s) (nor_start command (abs s)).
Proof. intros Hs. unfold start_command, nor_start. by repeat case_if. Qed.

Lemma restart_refines command s : cache_sound s ->
  refines_to s (start_command command (s <| m_pending := pending_none |>))
    (nor_start command ((abs s) <| n_pending := pending_none |>)).
Proof. intros Hs. unfold start_command, nor_start. by repeat case_if. Qed.

Lemma begin_refines s offset data len : cache_sound s -> 1 <= len -> 0 <= arr_get data 0 ->
  refines_to s (begin_write_buffer offset data len s) (nor_begin offset data (abs s)).
Proof.
  intros Hs Hl Hd. unfold begin_write_buffer, count_value, nor_begin. cbv zeta.
  replace (len =? 0) with false by lia. set (count := arr_get data 0 + 1).
  set (s0 := count_stat write_buffer_count_writes s).
  assert (core s0 = core s) as Hc by apply core_count1. apply (refines_counted s s0); [done|].
  destruct (core_eq _ _ Hc) as (Ed & _). destruct (abs_core _ _ Hc) as (Ea & _). rewrite <-Ea.
  assert (cache_sound s0) by (by eapply cache_sound_core; [symmetry|]).
  replace ((count =? 0) || (WRITE_BUFFER_MAX <? count) || (vec_size (m_data s0) <? offset) ||
    (vec_size (m_data s0) - offset <? count)) with
    ((WRITE_BUFFER_MAX <? count) || (vec_size (n_data (abs s0)) <? offset + count)) by (cbn [n_data abs]; lia).
  case_if; [by apply finish_refines, clear_refines|]. done.
Qed.

Lemma collect_refines s offset data len : cache_sound s -> 1 <= len ->
  refines_to s (collect_write_buffer_data offset data len s) (nor_collect offset data len (abs s)).
Proof.
  intros Hs Hl. unfold collect_write_buffer_data, nor_collect. cbn [n_buf abs]. cbv zeta.
  set (base := m_write_buffer_base (buf s)). set (size := vec_size (m_write_buffer (buf s))).
  assert (0 <= size) by (unfold size, vec_size; lia).
  destruct ((base <=? offset) && (offset <? base + size)) eqn:E; bool_hyps.
  - replace (_ || (base + size <? offset)) with false by lia. replace (size <=? offset - base) with false by lia.
    replace (size - (offset - base)) with (base + size - offset) by lia.
    match goal with |- refines_to _ ((count_stat _ ?x) <| _ := _ |> <| _ := _ |>) _ => set (s1 := x) end.
    assert (core (count_stat write_buffer_data_writes s1) = core s1) as Hc by apply core_count1.
    destruct (core_eq _ _ Hc) as (C1 & C2 & C3 & C4 & C5 & C6 & C7 & C8 & _).
    split; [|split; [by cbn; rewrite C8|split; [by cbn; rewrite C7|]]].
    + unfold abs. cbn. by rewrite C1, C3, C5.
    + unfold cache_sound, cache_valid, sector_count. cbn. by rewrite C1, C6, C8.
  - case_if; [done|]. by replace (size <=? offset - base) with true by lia.
Qed.

Lemma confirm_refines s : sector_params_ok s -> cache_sound s -> buffer_ok (abs s) ->
  write_buffer_complete s = true ->
  refines_to s (confirm_write_buffer s) (nor_confirm (hot s) (abs s)).
Proof.
  intros Hp Hs (Hlen & Hbase & Hend) Hcomplete. cbn in Hlen, Hbase, Hend. unfold confirm_write_buffer, nor_confirm.
  set (s0 := count_stat write_buffer_confirm_cmds s). cbv zeta.
  assert (core s0 = core s) as Hc by apply core_count1.
  destruct (core_eq _ _ Hc) as (_ & _ & _ & _ & Ebuf & _ & _ & _ & _).
  assert (write_buffer_complete s0 = true) as -> by (unfold write_buffer_complete in *; by rewrite Ebuf).
  set (s1 := count_stat_by write_buffer_bytes _ _).
  assert (core s1 = core s) as Hc1 by (unfold s1; by rewrite core_count, core_count1).
  destruct (core_eq _ _ Hc1) as (Ed1 & _ & _ & _ & Eb1 & _ & _ & Eh1 & _).
  destruct (abs_core _ _ Hc1) as (Ea1 & _). destruct (counted_inv s s1 Hc1 Hp Hs) as [Hp1 Hs1].
  apply clear_refines, (refines_counted s s1); [done|]. rewrite <-Eh1, <-Ea1. cbn [n_buf abs]. rewrite Ebuf, Eb1.
  assert (m_write_buffer (buf s) <> []) as Hne.
  { intros E. unfold write_buffer_complete in Hcomplete. rewrite E in Hlen.
    by destruct (m_write_buffer_written (buf s)). }
  assert (1 <= vec_size (m_write_buffer (buf s))) by (unfold vec_size; destruct (m_write_buffer (buf s)); [done|cbn; lia]).
  apply program_refines; try done. rewrite Ed1. by apply Hend.
Qed.

Lemma invalidate_spec s : 
  let s' := invalidate_dmi cfg s in
  abs s' = abs s /\ hot s' = hot s /\ sec s' = sec s /\
  (if m_dmi_granted (dmi s) && m_enable_dmi_value (hot s) && negb (vec_size (m_data s) =? 0) && target_bound cfg
   then dmi s' = (dmi s) <| m_invalidations ::= fun l => l ++ [(0, vec_size (m_data s) - 1)] |> <| m_dmi_granted := false |>
   else s' = s).
Proof.
  cbv zeta. unfold invalidate_dmi.
  destruct (m_dmi_granted (dmi s)), (m_enable_dmi_value (hot s)), (vec_size (m_data s) =? 0), (target_bound cfg);
    cbn [negb orb andb]; try done.
  cbv zeta. set (s1 := s <| dmi ::= _ |>).
  assert (core (count_stat dmi_invalidations s1) = core s1) as Hc by apply core_count1.
  apply core_eq in Hc as (C1 & C2 & C3 & C4 & C5 & C6 & C7 & C8 & _).
  unfold abs. cbn. by rewrite C1, C2, C3, C4, C5, C6, C7, C8.
Qed.

Lemma record_core command s : core (record_command command s) = core s.
Proof. unfold record_command. case_if; [done|]. by rewrite !core_count1. Qed.

Lemma handle_refines s offset command : sector_params_ok s -> cache_sound s -> 0 <= offset < vec_size (m_data s) ->
  m_pending s = pending_none \/ m_pending s = pending_erase \/ m_pending s = pending_lock ->
  refines_to s (handle_command offset command s)
    (match m_pending s with
     | pending_none => nor_start command (abs s)
     | pending_erase =>
         if command =? CMD_BLOCK_ERASE_ACK then nor_erase (hot s) offset (abs s)
         else nor_start command ((abs s) <| n_pending := pending_none |>)
     | _ =>
         if (command =? CMD_LOCK_BLOCK) || (command =? CMD_BLOCK_ERASE_ACK) then nor_finish (abs s)
         else nor_start command ((abs s) <| n_pending := pending_none |>)
     end).
Proof.
  intros Hp Hs Ho Hpend. unfold handle_command. cbv zeta.
  pose proof (record_core command s) as Hc. set (s0 := record_command command s) in *.
  destruct (core_eq _ _ Hc) as (Ed & _ & Epd & _ & _ & _ & _ & Eh & _). destruct (abs_core _ _ Hc) as (Ea & _).
  destruct (counted_inv s s0 Hc Hp Hs) as [Hp0 Hs0]. apply (refines_counted s s0); [done|].
  rewrite Epd, <-Ea, <-Eh. destruct Hpend as [E|[E|E]]; rewrite E.
  - by apply start_refines.
  - case_if; [apply erase_refines; by rewrite ?Ed|].
    by apply restart_refines.
  - case_if; [by apply finish_refines|].
    by apply restart_refines.
Qed.

(** Every write does to the abstract flash what the command set says. *)
Lemma write_refines s offset data len :
  sector_params_ok s -> cache_sound s -> buffer_ok (abs s) ->
  0 <= offset -> 1 <= len -> offset + len <= vec_size (m_data s) -> 0 <= arr_get data 0 ->
  let s' := write cfg offset data len s in
  abs s' = nor_write (hot s) offset data len (abs s) /\ hot s' = hot s /\ cache_sound s' /\
  dmi s' = match m_pending s with
           | pending_program | pending_write_buffer_count | pending_write_buffer_data => dmi s
           | _ => dmi (invalidate_dmi cfg s)
           end.
Proof.
  cbv zeta. intros Hp Hs Hbuf Ho Hl Hend Hd. unfold write, nor_write. cbn [n_pending abs].
  destruct (invalidate_spec s) as (I1 & I2 & I3 & _).
  assert (m_data (invalidate_dmi cfg s) = m_data s /\ m_pending (invalidate_dmi cfg s) = m_pending s) as [I4 I5]
    by (unfold abs in I1; by injection I1).
  assert (sector_params_ok (invalidate_dmi cfg s)) as Hp' by (unfold sector_params_ok; by rewrite I2, I4).
  assert (cache_sound (invalidate_dmi cfg s)) as Hs'
    by (unfold cache_sound, cache_valid, sector_count; by rewrite I2, I3, I4).
  pose proof (handle_refines (invalidate_dmi cfg s) offset (arr_get data 0) Hp' Hs') as Hh.
  rewrite I1, I2, I4, I5 in Hh. specialize (Hh ltac:(lia)).
  destruct (m_pending s) eqn:E.
  - destruct Hh as (H1 & H2 & H3 & H4); [by left|]. rewrite H1, H2, H3. done.
  - destruct (program_refines s offset data len Hp Hs Ho Hl Hend) as (-> & -> & -> & ?). done.
  - destruct (begin_refines s offset data len Hs Hl Hd) as (-> & -> & -> & ?). done.
  - rewrite complete_abs by apply Hbuf. destruct (nor_complete (abs s)) eqn:Ec; cbn [andb].
    + case_if.
      * destruct (confirm_refines s Hp Hs Hbuf) as (-> & -> & -> & ?); [|done].
        rewrite complete_abs by apply Hbuf. done.
      * destruct (collect_refines s offset data len Hs Hl) as (-> & -> & -> & ?). done.
    + destruct (collect_refines s offset data len Hs Hl) as (-> & -> & -> & ?). done.
  - destruct Hh as (H1 & H2 & H3 & H4); [by right; left|]. rewrite H1, H2, H3. done.
  - destruct Hh as (H1 & H2 & H3 & H4); [by right; right|]. rewrite H1, H2, H3. done.
Qed.
End machine.
