(* ===== verification/FlashCorrect.v ===== *)
(** The flash as its users see it: what every transaction does to the abstract
    NOR flash, the erase and programming sequences of the command set, the
    direct-memory grants, the file behind the array, and the shortcut in
    [access].  Models nothing; see StrataFlash for the definitions. *)

From Stdlib Require Import String.
From S2P Require Import Prelude Bytes Vectors FlashRanges Tlm StrataFlash.

(** * What every transaction keeps *)

(** The buffer lies inside the array, everything stored is a byte, and the status
    register only ever reads ready. *)
Definition nor_ok (n : nor) : Prop :=
  buffer_ok n /\ bytes_ok (n_data n) /\ bytes_ok (m_write_buffer (n_buf n)) /\ n_status n = STATUS_READY.

Definition flash_inv (s : flash) : Prop :=
  m_data s <> [] /\ sector_params_ok s /\ cache_sound s /\ nor_ok (abs s).

Lemma splice_ok off bs l : bytes_ok bs -> bytes_ok l -> bytes_ok (splice off bs l).
Proof. intros Hb Hl. unfold splice. repeat apply Forall_app_2; [by apply Forall_take|done|by apply Forall_drop]. Qed.

Lemma fill_range_ok s e x l : is_u8 x -> bytes_ok l -> bytes_ok (fill_range s e x l).
Proof. intros Hx Hl. apply splice_ok; [by apply Forall_replicate|done]. Qed.

Lemma programmed_u8 h old data : is_u8 old -> is_u8 data -> is_u8 (programmed h old data).
Proof.
  intros Ho Hd. unfold programmed. case_if; [by cbv|]. by apply land_uint_l.
Qed.

Lemma program_block_ok h offset data len d : bytes_ok d -> bytes_ok data -> bytes_ok (program_block h offset data len d).
Proof.
  intros Hd Hdata. apply splice_ok; [|done]. apply Forall_fmap, Forall_true. intros i.
  apply programmed_u8; by apply bytes_get.
Qed.

Lemma nor_erase_ok h offset n : 0 < m_sector_size_value h -> 0 <= offset < vec_size (n_data n) -> nor_ok n ->
  nor_ok (nor_erase h offset n) /\ vec_size (n_data (nor_erase h offset n)) = vec_size (n_data n).
Proof.
  intros Hss Ho ((B1 & B2 & B3) & Hd & Hb & Hst). unfold nor_erase. set (ss := m_sector_size_value h) in *.
  pose proof (Z.div_mod offset ss ltac:(lia)). pose proof (Z.mod_pos_bound offset ss Hss).
  pose proof (Z.div_pos offset ss). cbn [n_data].
  assert (vec_size (fill_range (offset / ss * ss) (Z.min (offset / ss * ss + ss) (vec_size (n_data n))) 0xff (n_data n)) =
    vec_size (n_data n)) as Hsz by (apply fill_range_size; nia).
  split; [|exact Hsz]. split; [|split; [by apply fill_range_ok|done]].
  split; [done|]. split; [done|]. intros Hne. cbn. rewrite Hsz. by apply B3.
Qed.

Lemma nor_program_ok h offset data len n : 0 < m_sector_size_value h ->
  0 <= offset -> 1 <= len -> offset + len <= vec_size (n_data n) -> bytes_ok data -> nor_ok n ->
  nor_ok (nor_program h offset data len n) /\
  vec_size (n_data (nor_program h offset data len n)) = vec_size (n_data n).
Proof.
  intros Hss Ho Hl Hend Hdata Hn. unfold nor_program. case_if; [apply nor_erase_ok; by (done || lia)|].
  destruct Hn as ((B1 & B2 & B3) & Hd & Hb & Hst).
  pose proof (program_block_size h offset data len (n_data n) Ho ltac:(lia) Hend) as Hsz.
  split; [|exact Hsz]. split; [|split; [by apply program_block_ok|done]].
  split; [done|]. split; [done|]. intros Hne. cbn. rewrite Hsz. by apply B3.
Qed.

(** The buffer matters to the invariant only through its cells. *)
Lemma nor_ok_with n n' : nor_ok n -> n_data n' = n_data n ->
  n_status n' = STATUS_READY -> n_buf n' = n_buf n \/ n_buf n' = MkBuffer 0 [] [] -> nor_ok n'.
Proof.
  intros (B & Hd & Hb & Hst) Ed Es [Eb|Eb]; unfold nor_ok, buffer_ok in *; rewrite Ed, Eb, Es.
  - done.
  - by split_and!; try done; constructor.
Qed.

Lemma nor_begin_ok offset data n : 0 <= offset -> 0 <= arr_get data 0 -> nor_ok n ->
  nor_ok (nor_begin offset data n) /\ n_data (nor_begin offset data n) = n_data n.
Proof.
  intros Ho Hd0 Hn. pose proof Hn as ((B1 & B2 & B3) & Hd & Hb & Hst). unfold nor_begin. cbv zeta.
  case_if; (split; [|done]).
  - apply (nor_ok_with n); first [done|by right].
  - bool_hyps. split; [|split; [done|split; [by apply Forall_replicate|done]]].
    split; [cbn; by rewrite !length_replicate|]. split; [done|]. intros _. cbn. unfold vec_size at 1.
    rewrite length_replicate. lia.
Qed.

Lemma nor_collect_ok offset data len n : 1 <= len <= vec_size data -> bytes_ok data -> nor_ok n ->
  nor_ok (nor_collect offset data len n) /\ n_data (nor_collect offset data len n) = n_data n.
Proof.
  intros Hl Hdata Hn. pose proof Hn as ((B1 & B2 & B3) & Hd & Hb & Hst). unfold nor_collect. cbv zeta. case_if; (split; [|done]).
  - bool_hyps. set (base := m_write_buffer_base (n_buf n)) in *. set (w := m_write_buffer (n_buf n)) in *.
    set (copy := Z.min len (base + vec_size w - offset)).
    assert (vec_size (get_data copy data) = copy) as Hg by (apply get_data_length; unfold vec_size in *; lia).
    split; [|split; [done|split; [by apply splice_ok; [apply get_data_ok|]|done]]].
    split; [|split; [done|]].
    + cbn. fold base w copy. rewrite (splice_length _ _ w) by (rewrite ?Hg; lia).
      rewrite splice_length by (unfold vec_size in *; rewrite ?length_replicate; lia). done.
    + intros _. cbn. fold base w copy. rewrite splice_size by (rewrite ?Hg; lia). apply B3. fold w.
      intros E. rewrite E in *. unfold vec_size in *. cbn in *. lia.
  - apply (nor_ok_with n); first [done|by right].
Qed.

Lemma nor_start_ok command n : nor_ok n -> nor_ok (nor_start command n) /\ n_data (nor_start command n) = n_data n.
Proof.
  intros Hn. pose proof Hn as (_ & _ & _ & Hst). unfold nor_start.
  repeat (case_if; [split; [apply (nor_ok_with n); first [done|by left|by right]|done]|]).
  split; [apply (nor_ok_with n); first [done|by left]|done].
Qed.

(** The command set keeps the abstract flash well formed and its size. *)
Lemma nor_write_ok h offset data len n : 0 < m_sector_size_value h ->
  0 <= offset -> 1 <= len <= vec_size data -> offset + len <= vec_size (n_data n) -> bytes_ok data -> nor_ok n ->
  nor_ok (nor_write h offset data len n) /\
  vec_size (n_data (nor_write h offset data len n)) = vec_size (n_data n).
Proof.
  intros Hss Ho Hl Hend Hdata Hn. pose proof (bytes_get data 0 Hdata) as [Hd0 _].
  assert (forall n', nor_ok n' /\ n_data n' = n_data n -> nor_ok n' /\ vec_size (n_data n') = vec_size (n_data n)) as Hsame
    by (intros n' [? ->]; done).
  assert (nor_ok (n <| n_pending := pending_none |>)) as Hn' by exact Hn.
  unfold nor_write. destruct (n_pending n).
  - by apply Hsame, nor_start_ok.
  - apply nor_program_ok; by (done || lia).
  - by apply Hsame, nor_begin_ok.
  - case_if; [|by apply Hsame, nor_collect_ok].
    pose proof Hn as ((B1 & B2 & B3) & Hd & Hb & Hst). bool_hyps.
    assert (m_write_buffer (n_buf n) <> []) as Hne.
    { intros E. unfold nor_complete in *. rewrite E in B1. by destruct (m_write_buffer_written (n_buf n)). }
    assert (1 <= vec_size (m_write_buffer (n_buf n))) by (unfold vec_size; destruct (m_write_buffer _); cbn; [done|lia]).
    unfold nor_confirm. cbv zeta.
    destruct (nor_program_ok h (m_write_buffer_base (n_buf n)) (m_write_buffer (n_buf n))
      (vec_size (m_write_buffer (n_buf n))) n) as [P1 P2]; try done; [by apply B3|].
    split; [|exact P2]. eapply nor_ok_with; [exact P1|done|by destruct P1 as (_ & _ & _ & ?)|by right].
  - case_if; [by apply nor_erase_ok; [|lia|]|]. by apply (Hsame _ (nor_start_ok _ _ Hn')).
  - case_if; [|by apply (Hsame _ (nor_start_ok _ _ Hn'))].
    split; [apply (nor_ok_with n); first [done|by left]|done].
Qed.

(** * Transactions *)

(** The configured ranges are the parsed parameter. *)
Definition dmi_ranges_ok (s : flash) : Prop :=
  m_dmi_ranges_valid (dmi s) = true -> m_open_dmi_ranges (dmi s) <> [] ->
  parse_spec (vec_size (m_data s)) (m_open_dmi_ranges (dmi s)) = Some (m_dmi_ranges (dmi s)).

(** Two states a transaction's bookkeeping moves between: the flash itself, its
    parameters, its cache and its outstanding grant are the same. *)
Definition same_view (s s' : flash) : Prop :=
  abs s' = abs s /\ hot s' = hot s /\ sec s' = sec s /\ bak s' = bak s /\
  m_dmi_granted (dmi s') = m_dmi_granted (dmi s) /\ m_invalidations (dmi s') = m_invalidations (dmi s) /\
  (dmi_ranges_ok s -> dmi_ranges_ok s').

#[export] Instance same_view_preorder : PreOrder same_view.
Proof.
  split; [by repeat split|]. intros s s' s'' (H1 & H2 & H3 & H4 & H5 & H7 & H6) (K1 & K2 & K3 & K4 & K5 & K7 & K6).
  unfold same_view. split_and!; try congruence. by intros H%H6%K6.
Qed.

Lemma same_view_core s s' : core s' = core s -> bak s' = bak s -> same_view s s'.
Proof.
  intros H Hbak. destruct (abs_core _ _ H) as (E1 & E2 & E3). apply core_eq in H as (E5 & _ & _ & _ & _ & E4 & _).
  unfold same_view, dmi_ranges_ok. by rewrite E3, E5.
Qed.

Lemma same_view_data s s' : same_view s s' -> m_data s' = m_data s /\ m_mode s' = m_mode s /\ m_pending s' = m_pending s.
Proof. intros (H & _). unfold abs in H. by injection H. Qed.

Lemma same_view_inv s s' : same_view s s' -> flash_inv s -> flash_inv s'.
Proof.
  intros Hv. destruct (same_view_data _ _ Hv) as (Ed & _ & _). destruct Hv as (H1 & H2 & H3 & _).
  unfold flash_inv, sector_params_ok, cache_sound, cache_valid, sector_count. by rewrite H1, H2, H3, Ed.
Qed.

Section access.
Context (cfg : flash_config).

Lemma ensure_storage_full s : m_data s <> [] -> ensure_storage cfg s = s.
Proof. unfold ensure_storage. by destruct (m_data s). Qed.

Lemma ensure_storage_hot s : hot (ensure_storage cfg s) = hot s /\ sta (ensure_storage cfg s) = sta s.
Proof. unfold ensure_storage. by destruct (m_data s). Qed.

Lemma trace_view s : same_view s (trace_access s).
Proof. unfold trace_access. by case_if. Qed.

Lemma count_view c d s : same_view s (count_stat_by c d s).
Proof. apply same_view_core; [apply core_count|]. unfold count_stat_by. by case_if. Qed.

Lemma stats_view s : same_view s (if stats_enabled s then maybe_write_stats cfg s else s).
Proof.
  case_if; [|done]. apply same_view_core; [apply core_maybe_stats|]. unfold maybe_write_stats. cbv zeta.
  case_if; [done|]. unfold write_stats_file. by case_if.
Qed.

Lemma refresh_dmi_view s : m_data s <> [] -> same_view s (refresh_dmi_ranges cfg s).
Proof.
  intros Hd. unfold refresh_dmi_ranges. rewrite ensure_storage_full by done. cbv zeta. case_if; [done|].
  destruct (remove_spaces _) as [|c spec] eqn:Esp; [by split_and!; try done; intros _ ??|].
  destruct (parse_spec _ _) as [rs|] eqn:Er; split_and!; try done. by intros _ ??.
Qed.

Lemma find_dmi_view s offset len : m_data s <> [] -> same_view s (snd (find_dmi_range cfg offset len s)).
Proof.
  intros Hd. unfold find_dmi_range. rewrite ensure_storage_full by done. cbv zeta. case_if; [done|].
  pose proof (refresh_dmi_view s Hd) as H. case_if; [done|]. by destruct (m_open_dmi_ranges _).
Qed.

(** What a read in range leaves, and what a write leaves, whatever is traced and
    counted on the way. *)
Lemma access_shape dbg s t d : data_ptr t = Some d -> 1 <= data_length t ->
  let s1 := ensure_storage cfg s in
  flash_inv s1 -> address t + data_length t <= vec_size (m_data s1) -> 0 <= address t ->
  let '(s', t', ok) := access cfg dbg s t in
  match command t with
  | TLM_READ_COMMAND =>
      same_view s1 s' /\ response_status t' = TLM_OK_RESPONSE /\ ok = true /\
      data_ptr t' = Some (put_data (read_bytes_at s1 (address t) (data_length t)) d)
  | TLM_WRITE_COMMAND =>
      exists s2, same_view s1 s2 /\ same_view (write cfg (address t) d (data_length t) s2) s' /\
        response_status t' = TLM_OK_RESPONSE /\ ok = true /\ data_ptr t' = Some d
  | TLM_IGNORE_COMMAND => s' = s1 /\ response_status t' = TLM_COMMAND_ERROR_RESPONSE /\ ok = false /\ data_ptr t' = Some d
  end.
Proof.
  cbv zeta. intros Ed Hl Hinv Hend Ho. pose proof Hinv as (Hne & _).
  assert ((address t <=? vec_size (m_data (ensure_storage cfg s))) &&
    (data_length t <=? vec_size (m_data (ensure_storage cfg s)) - address t) = true) as Hin by lia.
  unfold access, fast_access, full_access, in_range. rewrite Ed.
  replace (data_length t =? 0) with false by lia. cbv zeta. rewrite Hin. cbn [negb].
  change (command (t <| dmi_allowed := false |>)) with (command t).
  set (s1 := ensure_storage cfg s) in *. case_if; destruct (command t).
  - done.
  - by exists s1.
  - done.
  - set (s2 := count_stat_by read_bytes _ _).
    assert (same_view s1 s2) as Hv2 by (unfold s2, count_stat; by rewrite <-!count_view).
    destruct (same_view_data _ _ Hv2) as (Ed2 & Em2 & _).
    assert (read_bytes_at s2 (address t) (data_length t) = read_bytes_at s1 (address t) (data_length t)) as Er.
    { destruct Hv2 as (Ea & _). unfold abs in Ea. injection Ea as E1 E2 E3 E4 E5.
      unfold read_bytes_at, read_byte. by rewrite E1, E2, E4. }
    case_if.
    + pose proof (find_dmi_view s2 (address t) (data_length t) ltac:(by rewrite Ed2)) as Hf.
      destruct (find_dmi_range cfg (address t) (data_length t) s2) as [[r|] s3]; cbn [snd] in Hf;
        (split; [|by cbn; rewrite Er]); rewrite <-stats_view, <-trace_view; [unfold count_stat; rewrite <-count_view|];
        by rewrite <-Hf.
    + split; [by rewrite <-stats_view, <-trace_view|by cbn; rewrite Er].
  - set (s2 := count_stat_by write_bytes _ _).
    exists s2. split; [unfold s2, count_stat; by rewrite <-!count_view|]. split; [|done].
    by rewrite <-stats_view, <-trace_view.
  - done.
Qed.

Lemma read_refines s offset len : 0 <= offset -> 0 <= len -> offset + len <= vec_size (m_data s) ->
  read_bytes_at s offset len = nor_read offset len (abs s).
Proof.
  intros Ho Hl Hend. apply vec_ext; unfold read_bytes_at, nor_read; cbn [n_mode abs n_data n_status].
  - rewrite length_map. destruct (m_mode s); rewrite ?length_map, ?length_replicate; unfold range; rewrite ?length_seqZ; try done.
    pose proof (slice_length offset len (m_data s) Ho Hl Hend). lia.
  - intros i Hi. assert (0 <= i < len) as Hil.
    { destruct (m_mode s); unfold vec_size in Hi; rewrite ?length_map, ?length_replicate in Hi; unfold range in Hi;
        rewrite ?length_seqZ in Hi; try lia. pose proof (slice_length offset len (m_data s) Ho Hl Hend). lia. }
    rewrite arr_get_map by done. destruct (m_mode s) eqn:E.
    + by rewrite slice_get by lia.
    + rewrite arr_get_map by done. unfold read_byte. by rewrite E.
    + rewrite arr_get_map by done. unfold read_byte. by rewrite E.
    + unfold arr_get. by rewrite lookup_replicate_2 by lia.
Qed.

(** A write in range moves the abstract flash as the command set does and keeps the invariant. *)
Lemma write_inv s d offset len : flash_inv s -> 0 <= offset -> 1 <= len <= vec_size d -> offset + len <= vec_size (m_data s) ->
  bytes_ok d ->
  let s' := write cfg offset d len s in
  abs s' = nor_write (hot s) offset d len (abs s) /\ hot s' = hot s /\ flash_inv s'.
Proof.
  cbv zeta. intros (Hne & Hp & Hs & Hn) Ho Hl Hend Hd. pose proof (bytes_get d 0 Hd) as [Hd0 _].
  destruct (write_refines cfg s offset d len Hp Hs ltac:(by destruct Hn) Ho ltac:(lia) Hend Hd0) as (H1 & H2 & H3 & _).
  split; [exact H1|]. split; [exact H2|]. pose proof Hp as [Hss Hsz].
  destruct (nor_write_ok (hot s) offset d len (abs s) ltac:(lia) Ho Hl Hend Hd Hn) as [N1 N2]. rewrite <-H1 in N1, N2.
  change (n_data (abs (write cfg offset d len s))) with (m_data (write cfg offset d len s)) in N2.
  change (n_data (abs s)) with (m_data s) in N2. unfold vec_size in N2, Hsz.
  split; [|split; [|split; [exact H3|exact N1]]].
  - intros E. rewrite E in N2. by destruct (m_data s).
  - unfold sector_params_ok, vec_size. rewrite H2, N2. done.
Qed.

(** The abstract flash a state stands for, and what a byte of its array holds. *)
Definition view (s : flash) : nor := abs (ensure_storage cfg s).
Definition holds (s : flash) (i : Z) : Z := arr_get (n_data (view s)) i.
Definition array_size (s : flash) : Z := vec_size (n_data (view s)).

(** The transactions the flash serves: a buffer, at least one byte, inside the array. *)
Definition serves (s : flash) (t : tlm_payload) : bool :=
  match data_ptr t with Some _ => true | None => false end && negb (data_length t =? 0) &&
  (address t + data_length t <=? array_size s) && negb (bool_decide (command t = TLM_IGNORE_COMMAND)).

(** What a served transaction does. *)
Lemma access_served dbg s t d :
  flash_inv (ensure_storage cfg s) -> payload_ok t -> data_ptr t = Some d -> serves s t = true ->
  let '(s', t', ok) := access cfg dbg s t in
  flash_inv (ensure_storage cfg s') /\ hot s' = hot s /\ ok = true /\ response_status t' = TLM_OK_RESPONSE /\
  match command t with
  | TLM_READ_COMMAND =>
      view s' = view s /\ data_ptr t' = Some (put_data (nor_read (address t) (data_length t) (view s)) d)
  | _ => view s' = nor_write (hot s) (address t) d (data_length t) (view s) /\ data_ptr t' = Some d
  end.
Proof.
  intros Hinv Hpay Ed Hs. unfold serves, array_size, view in *. destruct (ensure_storage_hot s) as [Eh _].
  pose proof Hpay as (Ha & Hl & _ & Hd). rewrite Ed in Hd, Hs. destruct Hd as [Hlen Hok]. unfold is_uint in Hl.
  cbn [andb n_data abs] in Hs. bool_hyps.
  pose proof (access_shape dbg s t d Ed ltac:(lia) Hinv ltac:(lia) Ha) as Hsh.
  destruct (access cfg dbg s t) as [[s' t'] ok]. destruct (command t); [|destruct Hsh as (s2 & Hv2 & Hw & Hst & -> & Hdt)|done].
  - destruct Hsh as (Hv & Hst & -> & Hdt). destruct (same_view_data _ _ Hv) as (Ed' & _). pose proof Hv as (Va & Vh & _).
    pose proof Hinv as (Hne & _). rewrite (ensure_storage_full s') by (by rewrite Ed').
    rewrite Hdt, read_refines by lia. split; [by eapply same_view_inv|]. split; [congruence|]. done.
  - pose proof (same_view_inv _ _ Hv2 Hinv) as Hinv2. destruct (same_view_data _ _ Hv2) as (Ed2 & _).
    pose proof Hv2 as (Va2 & Vh2 & _).
    destruct (write_inv s2 d (address t) (data_length t) Hinv2 Ha ltac:(unfold vec_size; lia) ltac:(rewrite Ed2; lia) Hok)
      as (W1 & W2 & W3).
    pose proof (same_view_inv _ _ Hw W3) as Hinv'. pose proof Hinv' as (Hne' & _). pose proof Hw as (Ua & Uh & _).
    rewrite (ensure_storage_full s') by done. split; [done|]. split; [congruence|]. split; [done|]. split; [done|].
    split; [|done]. by rewrite Ua, W1, Va2, Vh2, Eh.
Qed.

(** A transaction the flash does not serve leaves it as it was, its array allocated or not. *)
Lemma access_refused dbg s t : payload_ok t -> serves s t = false ->
  let '(s', t', ok) := access cfg dbg s t in
  (s' = s \/ s' = ensure_storage cfg s) /\ ok = false /\ data_ptr t' = data_ptr t /\
  (response_status t' = TLM_ADDRESS_ERROR_RESPONSE \/ response_status t' = TLM_COMMAND_ERROR_RESPONSE).
Proof.
  intros (Ha & Hl & _) Hs. unfold is_uint in Hl. unfold serves, array_size, view in Hs. cbn [n_data abs] in Hs.
  unfold access, fast_access, full_access, in_range.
  destruct (data_ptr t) as [d|] eqn:Ed; [|by case_if; split_and!; auto].
  destruct (Z.eqb_spec (data_length t) 0); [by case_if; split_and!; auto|]. cbn [negb andb] in Hs. cbv zeta.
  change (command (t <| dmi_allowed := false |>)) with (command t).
  destruct ((address t <=? _) && _) eqn:Hin; cbn [negb].
  - replace (_ <=? _) with true in Hs by lia. cbn [andb] in Hs. apply negb_false_iff, bool_decide_eq_true in Hs.
    rewrite Hs. by case_if; split_and!; auto.
  - by case_if; split_and!; auto.
Qed.

Lemma ensure_storage_twice s s' : flash_inv (ensure_storage cfg s) -> s' = s \/ s' = ensure_storage cfg s ->
  ensure_storage cfg s' = ensure_storage cfg s.
Proof. intros (Hne & _) [->| ->]; [done|by apply ensure_storage_full]. Qed.

(** C1. The flash refines the abstract NOR flash.  A transaction that has a
    buffer, asks for at least one byte and stays inside the array moves the array
    and the command state exactly as the command set says (a read moves nothing
    and returns what the mode shows), whatever the erased-sector cache, the
    backing file, the counters, the trace and the transport are; any other is
    refused, with an error status, and moves nothing.  The invariant is kept. *)
Theorem flash_refines_nor dbg s t s' t' ok :
  flash_inv (ensure_storage cfg s) -> payload_ok t -> access cfg dbg s t = (s', t', ok) ->
  let data := default [] (data_ptr t) in
  flash_inv (ensure_storage cfg s') /\ hot s' = hot s /\ ok = serves s t /\
  (ok = true <-> response_status t' = TLM_OK_RESPONSE) /\
  view s' = (if ok && bool_decide (command t = TLM_WRITE_COMMAND)
             then nor_write (hot s) (address t) data (data_length t) (view s) else view s) /\
  data_ptr t' = (if ok && bool_decide (command t = TLM_READ_COMMAND)
                 then Some (put_data (nor_read (address t) (data_length t) (view s)) data) else data_ptr t).
Proof.
  intros Hinv Hpay Hacc. cbv zeta. destruct (serves s t) eqn:Hs.
  - destruct (data_ptr t) as [d|] eqn:Ed; [|unfold serves in Hs; by rewrite Ed in Hs].
    pose proof (access_served dbg s t d Hinv Hpay Ed Hs) as H. rewrite Hacc in H.
    destruct H as (H1 & H2 & -> & H3 & H4). split; [done|]. split; [done|]. split; [done|]. split; [done|].
    unfold serves in Hs. cbn [default andb]. destruct (command t); [|done|]; [by destruct H4|].
    by rewrite andb_false_r in Hs.
  - pose proof (access_refused dbg s t Hpay Hs) as Hr. rewrite Hacc in Hr.
    destruct Hr as (Hs' & -> & Hdt & Hst). unfold view. rewrite (ensure_storage_twice _ _ Hinv Hs').
    split; [done|]. split; [by destruct Hs' as [->| ->]; [|apply ensure_storage_hot]|]. split; [done|].
    split; [by destruct Hst as [-> | ->]|]. done.
Qed.

(** * Command sequences *)

(** One bus write of one byte, and a sequence of them. *)
Definition send (s : flash) (cycle : Z * Z) : flash :=
  fst (fst (access cfg false s (write_bytes_txn (fst cycle) [snd cycle]))).
Definition send_all (s : flash) (cycles : list (Z * Z)) : flash := foldl send s cycles.

(** The byte a read at [a] returns. *)
Definition fetch (s : flash) (a : Z) : Z :=
  arr_get (default [] (data_ptr (snd (fst (access cfg false s (read_txn a 1)))))) 0.

(** A cycle addresses the array with a byte. *)
Definition cycle_ok (s : flash) (cycle : Z * Z) : Prop := 0 <= fst cycle < array_size s /\ is_u8 (snd cycle).

Lemma send_spec s cycle : flash_inv (ensure_storage cfg s) -> cycle_ok s cycle ->
  flash_inv (ensure_storage cfg (send s cycle)) /\ hot (send s cycle) = hot s /\
  view (send s cycle) = nor_write (hot s) (fst cycle) [snd cycle] 1 (view s) /\
  array_size (send s cycle) = array_size s.
Proof.
  destruct cycle as [a v]. intros Hinv [Ha Hv]. cbn [fst snd] in *. unfold send. cbn [fst snd].
  assert (array_size s < 2 ^ 62) as Hsz by (destruct Hinv as (_ & [_ H] & _); exact H).
  assert (bytes_ok [v]) as Hb by (by constructor). assert (vec_size [v] = 1) as Hv1 by done.
  assert (payload_ok (write_bytes_txn a [v])) as Hpay.
  { unfold payload_ok, is_uint. cbn [address data_length data_ptr write_bytes_txn length]. split_and!; done || lia. }
  assert (serves s (write_bytes_txn a [v]) = true) as Hs.
  { unfold serves. cbn [address data_length data_ptr write_bytes_txn length command]. rewrite bool_decide_eq_false_2 by done. lia. }
  pose proof (access_served false s _ [v] Hinv Hpay eq_refl Hs) as H.
  destruct (access cfg false s (write_bytes_txn a [v])) as [[s' t'] ok]. cbn [fst].
  destruct H as (H1 & H2 & _ & _ & H3 & _).
  change (view s' = nor_write (hot s) a [v] 1 (view s)) in H3. split_and!; try done.
  unfold array_size. rewrite H3. destruct Hinv as (_ & [Hss _] & _ & Hn). rewrite (proj1 (ensure_storage_hot s)) in Hss.
  apply nor_write_ok; try done; unfold array_size in *; lia.
Qed.

Lemma fetch_spec s a : flash_inv (ensure_storage cfg s) -> 0 <= a < array_size s ->
  fetch s a = match n_mode (view s) with
    | read_array => holds s a
    | read_id => if a =? 0 then MANUFACTURER_ID else if a =? 4 then DEVICE_CODE else 0
    | read_query => if a =? 0x10 then 0x51 else if a =? 0x11 then 0x52 else if a =? 0x12 then 0x59 else 0
    | read_status => STATUS_READY
    end.
Proof.
  intros Hinv Ha. unfold fetch, holds.
  assert (array_size s < 2 ^ 62) as Hsz by (destruct Hinv as (_ & [_ H] & _); exact H).
  assert (payload_ok (read_txn a 1)) as Hpay.
  { unfold payload_ok, is_uint. cbn [address data_length data_ptr read_txn]. split_and!; try lia; [cbn; lia|].
    by repeat constructor. }
  assert (serves s (read_txn a 1) = true) as Hs.
  { unfold serves. cbn [address data_length data_ptr read_txn command]. rewrite bool_decide_eq_false_2 by done. lia. }
  pose proof (access_served false s _ [0] Hinv Hpay eq_refl Hs) as H.
  destruct (access cfg false s (read_txn a 1)) as [[s' t'] ok]. cbn [fst snd]. destruct H as (_ & _ & _ & _ & _ & H).
  rewrite H. destruct Hinv as (_ & _ & _ & _ & _ & _ & Hst).
  cbn [read_txn address data_length default]. change (nor_read a (Z.of_nat 1)) with (nor_read a 1).
  unfold nor_read. change (range 1) with [0]. cbn [map]. rewrite Z.add_0_r.
  unfold put_data, arr_get at 1. change (Z.to_nat 0) with 0%nat. cbn.
  by destruct (m_mode _).
Qed.

Lemma nor_erase_get h offset n i : 0 < m_sector_size_value h -> 0 <= offset < vec_size (n_data n) ->
  0 <= i < vec_size (n_data n) ->
  arr_get (n_data (nor_erase h offset n)) i =
  if i / m_sector_size_value h =? offset / m_sector_size_value h then 0xff else arr_get (n_data n) i.
Proof.
  intros Hss Ho Hi. unfold nor_erase. set (ss := m_sector_size_value h) in *. cbn.
  pose proof (Z.div_mod offset ss ltac:(lia)). pose proof (Z.mod_pos_bound offset ss Hss).
  pose proof (Z.div_mod i ss ltac:(lia)). pose proof (Z.mod_pos_bound i ss Hss). pose proof (Z.div_pos offset ss).
  rewrite fill_range_get by nia. destruct (Z.eqb_spec (i / ss) (offset / ss)) as [E|E].
  - by replace (_ && _) with true by nia.
  - by replace (_ && _) with false by nia.
Qed.

Lemma cycle_ok_next s cycle next : flash_inv (ensure_storage cfg s) -> cycle_ok s cycle ->
  cycle_ok s next -> cycle_ok (send s cycle) next.
Proof. intros Hinv Hc [H1 H2]. destruct (send_spec s cycle Hinv Hc) as (_ & _ & _ & E). split; [by rewrite E|done]. Qed.

(** Block erase: the two cycles 0x20, 0xd0 leave every byte of the addressed
    sector at 0xff and every other byte as it was, whether or not the sector
    cache let the erase be skipped; reads then show the ready status until a
    0xff cycle, after which they show the array. *)
Theorem flash_erase_command s a b c :
  flash_inv (ensure_storage cfg s) -> n_pending (view s) = pending_none ->
  0 <= a < array_size s -> 0 <= b < array_size s -> 0 <= c < array_size s ->
  let ss := m_sector_size_value (hot s) in
  let erased := send_all s [(b, CMD_BLOCK_ERASE); (a, CMD_BLOCK_ERASE_ACK)] in
  let shown := send erased (c, CMD_READ_ARRAY) in
  (forall i, 0 <= i < array_size s ->
    fetch erased i = STATUS_READY /\
    fetch shown i = if i / ss =? a / ss then 0xff else holds s i) /\
  n_pending (view shown) = pending_none.
Proof.
  intros Hinv Hp Ha Hb Hc. cbv zeta. unfold send_all. cbn [foldl].
  assert (cycle_ok s (b, CMD_BLOCK_ERASE)) as C1 by (split; [done|by cbv]).
  destruct (send_spec s _ Hinv C1) as (I1 & H1 & V1 & S1). set (s1 := send s _) in *.
  assert (cycle_ok s1 (a, CMD_BLOCK_ERASE_ACK)) as C2 by (split; [cbn; lia|by cbv]).
  destruct (send_spec s1 _ I1 C2) as (I2 & H2 & V2 & S2). set (s2 := send s1 _) in *.
  assert (cycle_ok s2 (c, CMD_READ_ARRAY)) as C3 by (split; [cbn; lia|by cbv]).
  destruct (send_spec s2 _ I2 C3) as (I3 & H3 & V3 & S3). set (s3 := send s2 _) in *.
  cbn [fst snd] in *. unfold nor_write in V1. rewrite Hp in V1.
  change (view s1 = (view s) <| n_pending := pending_erase |>) in V1.
  rewrite V1, H1 in V2. change (view s2 = nor_erase (hot s) a ((view s) <| n_pending := pending_erase |>)) in V2.
  rewrite V2 in V3.
  change (view s3 = (nor_erase (hot s) a ((view s) <| n_pending := pending_erase |>)) <| n_mode := read_array |>) in V3.
  split; [|by rewrite V3].
  intros i Hi. rewrite !fetch_spec by (done || lia). unfold holds. rewrite V2, V3. split; [done|].
  change (arr_get (n_data (nor_erase (hot s) a ((view s) <| n_pending := pending_erase |>))) i =
    if i / m_sector_size_value (hot s) =? a / m_sector_size_value (hot s) then 0xff else arr_get (n_data (view s)) i).
  destruct Hinv as (_ & [Hss _] & _). destruct (ensure_storage_hot s) as [Eh _].
  rewrite Eh in Hss. by rewrite nor_erase_get by (done || lia).
Qed.

(** The bus cycles of a buffered write: the command, the byte count less one, the
    bytes at consecutive addresses, the confirmation. *)
Definition write_buffer_cycles (base : Z) (data : list Z) : list (Z * Z) :=
  (base, CMD_WRITE_TO_BUFFER) :: (base, vec_size data - 1) ::
  zip (seqZ base (vec_size data)) data ++ [(base, CMD_BLOCK_ERASE_ACK)].

(** A buffer of which [m] bytes are still to come. *)
Definition loading (base : Z) (pre : list Z) (m : nat) (n : nor) : nor :=
  (nor_ready n) <| n_pending := pending_write_buffer_data |>
    <| n_buf := MkBuffer base (pre ++ replicate m 0xff) (replicate (length pre) true ++ replicate m false) |>.

Lemma loading_complete base pre m n : (0 < length pre + m)%nat ->
  nor_complete (loading base pre m n) = (m =? 0)%nat.
Proof.
  intros Hlen. unfold nor_complete, loading. cbn [n_buf set_field m_write_buffer_written nor_ready].
  assert (forallb id (replicate (length pre) true ++ replicate m false) = (m =? 0)%nat) as ->.
  { rewrite forallb_app. assert (forallb id (replicate (length pre) true) = true) as ->
      by (apply forallb_forall; by intros x Hx%list_elem_of_In%elem_of_replicate_inv). by destruct m. }
  destruct m; [|by rewrite andb_false_r]. rewrite andb_true_r. destruct pre; [cbn in Hlen; lia|done].
Qed.

Lemma loading_step h base pre m n v :
  nor_write h (base + vec_size pre) [v] 1 (loading base pre (S m) n) = loading base (pre ++ [v]) m n.
Proof.
  unfold nor_write. change (n_pending (loading base pre (S m) n)) with pending_write_buffer_data.
  rewrite loading_complete by lia. cbn [Nat.eqb andb]. unfold nor_collect. cbv zeta.
  change (n_buf (loading base pre (S m) n)) with
    (MkBuffer base (pre ++ replicate (S m) 0xff) (replicate (length pre) true ++ replicate (S m) false)).
  cbn [m_write_buffer_base m_write_buffer]. set (w := pre ++ replicate (S m) 0xff).
  assert (vec_size w = vec_size pre + 1 + Z.of_nat m) as Hw
    by (unfold w, vec_size; rewrite length_app, length_replicate; lia).
  assert (0 <= vec_size pre) by (unfold vec_size; lia).
  replace (_ && _) with true by lia. replace (Z.min 1 _) with 1 by lia.
  replace (base + vec_size pre - base) with (vec_size pre) by lia.
  change (get_data 1 [v]) with [v]. change (replicate (Z.to_nat 1) true) with [true].
  unfold loading, nor_ready. cbn. unfold w. do 2 f_equal.
  - rewrite splice_middle. by rewrite <-app_assoc.
  - pose proof (splice_middle (replicate (length pre) true) false true (replicate m false)) as E.
    unfold vec_size in *. rewrite length_replicate in E. rewrite length_app, replicate_add, <-app_assoc. exact E.
Qed.

Lemma send_loading s base rest pre n : flash_inv (ensure_storage cfg s) -> 0 <= base ->
  base + vec_size pre + vec_size rest <= array_size s -> bytes_ok rest ->
  view s = loading base pre (length rest) n ->
  let s' := send_all s (zip (seqZ (base + vec_size pre) (vec_size rest)) rest) in
  flash_inv (ensure_storage cfg s') /\ hot s' = hot s /\ array_size s' = array_size s /\
  view s' = loading base (pre ++ rest) 0 n.
Proof.
  revert s pre. induction rest as [|v rest IH]; intros s pre Hinv Hb Hend Hok Hv.
  { cbn. split; [done|]. split; [done|]. split; [done|]. by rewrite app_nil_r. }
  cbv zeta. assert (vec_size (v :: rest) = 1 + vec_size rest) as E by (unfold vec_size; cbn [length]; lia).
  assert (0 <= vec_size rest /\ 0 <= vec_size pre) as [? ?] by (unfold vec_size; lia).
  rewrite E in *. rewrite seqZ_cons by lia. cbn [zip zip_with]. unfold send_all. cbn [foldl].
  replace (Z.pred (1 + vec_size rest)) with (vec_size rest) by lia.
  inversion Hok as [|? ? Hv8 Hok']; subst.
  assert (cycle_ok s (base + vec_size pre, v)) as Hc by (split; [cbn; lia|done]).
  destruct (send_spec s _ Hinv Hc) as (I1 & H1 & V1 & S1). set (s1 := send s _) in *. cbn [fst snd] in *.
  rewrite Hv in V1. cbn [length] in V1. rewrite loading_step in V1.
  assert (vec_size (pre ++ [v]) = vec_size pre + 1) as E2 by (unfold vec_size; rewrite length_app; cbn; lia).
  destruct (IH s1 (pre ++ [v])) as (I2 & H2 & S2 & V2); [done|done|lia|done|exact V1|].
  rewrite E2 in *. replace (Z.succ (base + vec_size pre)) with (base + (vec_size pre + 1)) by lia.
  split; [exact I2|]. split; [unfold send_all in *; congruence|]. split; [unfold send_all in *; congruence|].
  unfold send_all in V2. rewrite V2. by rewrite <-app_assoc.
Qed.

Lemma loading_begin h base (data : list Z) n : 1 <= vec_size data <= WRITE_BUFFER_MAX -> base + vec_size data <= vec_size (n_data n) ->
  n_pending n = pending_write_buffer_count ->
  nor_write h base [vec_size data - 1] 1 n = loading base [] (length data) n.
Proof.
  intros Hl Hend Hp. unfold nor_write. rewrite Hp. unfold nor_begin.
  change (arr_get [vec_size data - 1] 0) with (vec_size data - 1). cbv zeta.
  replace (vec_size data - 1 + 1) with (vec_size data) by lia.
  replace (_ || _) with false by lia. unfold vec_size. by rewrite Nat2Z.id.
Qed.

Lemma loading_confirm h base (data : list Z) n : (0 < length data)%nat ->
  nor_write h base [CMD_BLOCK_ERASE_ACK] 1 (loading base data 0 n) =
  nor_clear (nor_program h base data (vec_size data) (loading base data 0 n)).
Proof.
  intros Hl. unfold nor_write. change (n_pending (loading base data 0 n)) with pending_write_buffer_data.
  rewrite loading_complete by lia. cbn [Nat.eqb andb]. change (_ && _) with true. unfold nor_confirm.
  change (n_buf (loading base data 0 n)) with (MkBuffer base (data ++ []) (replicate (length data) true ++ [])).
  cbv zeta. cbn [m_write_buffer_base m_write_buffer]. by rewrite app_nil_r.
Qed.

(** Buffered programming: the command, the byte count, the bytes in address
    order and the confirmation leave exactly the announced block programmed with
    exactly those bytes, every other byte as it was, and the buffer empty; a byte
    of data that equals the confirmation code is data as long as some byte is
    still missing. *)
Theorem flash_write_buffer_programs s base data :
  flash_inv (ensure_storage cfg s) -> n_pending (view s) = pending_none ->
  0 <= base -> 1 <= vec_size data <= WRITE_BUFFER_MAX -> base + vec_size data <= array_size s -> bytes_ok data ->
  erases_by_ff (hot s) base data (vec_size data) = false ->
  let s' := send_all s (write_buffer_cycles base data) in
  (forall i, 0 <= i < array_size s ->
    holds s' i = if (base <=? i) && (i <? base + vec_size data)
                 then programmed (hot s) (holds s i) (arr_get data (i - base)) else holds s i) /\
  n_pending (view s') = pending_none /\ n_mode (view s') = read_status /\ m_write_buffer (n_buf (view s')) = [].
Proof.
  intros Hinv Hp Hb Hl Hend Hok Hff. cbv zeta. unfold WRITE_BUFFER_MAX in *. unfold send_all, write_buffer_cycles. cbn [foldl].
  rewrite foldl_app. cbn [foldl]. assert (cycle_ok s (base, CMD_WRITE_TO_BUFFER)) as C1 by (split; [cbn; lia|by cbv]).
  destruct (send_spec s _ Hinv C1) as (I1 & H1 & V1 & S1). set (s1 := send s _) in *. cbn [fst snd] in *.
  assert (n_data (view s1) = n_data (view s) /\ n_pending (view s1) = pending_write_buffer_count) as [D1 P1].
  { rewrite V1. unfold nor_write. by rewrite Hp. }
  assert (cycle_ok s1 (base, vec_size data - 1)) as C2 by (split; cbn; [lia|split; lia]).
  destruct (send_spec s1 _ I1 C2) as (I2 & H2 & V2 & S2). set (s2 := send s1 _) in *. cbn [fst snd] in *.
  rewrite loading_begin in V2 by (rewrite ?D1; done || (unfold array_size in Hend; lia)).
  destruct (send_loading s2 base data [] (view s1) I2 Hb) as (I3 & H3 & S3 & V3);
    [change (vec_size (@nil Z)) with 0; lia|done|exact V2|].
  change (vec_size (@nil Z)) with 0 in *. rewrite Z.add_0_r in *. unfold send_all in *.
  set (s3 := foldl send s2 _) in *. cbn [app] in V3.
  assert (cycle_ok s3 (base, CMD_BLOCK_ERASE_ACK)) as C4 by (split; [cbn; lia|by cbv]).
  destruct (send_spec s3 _ I3 C4) as (I4 & H4 & V4 & S4). set (s4 := send s3 _) in *. cbn [fst snd] in *.
  rewrite V3, loading_confirm in V4 by (unfold vec_size in Hl; lia).
  rewrite H3, H2, H1 in V4. unfold nor_program in V4. rewrite Hff in V4. rewrite V4. split; [|done].
  intros i Hi. unfold holds. rewrite V4.
  change (n_data (nor_clear _)) with (program_block (hot s) base data (vec_size data) (n_data (view s1))).
  rewrite D1. rewrite program_block_get by (unfold array_size in *; lia). done.
Qed.

(** * Only an erase sets bits *)

Lemma programmed_clears h old data : m_program_ff_sets_bits_value h = false ->
  Z.land (programmed h old data) old = programmed h old data.
Proof.
  intros H. unfold programmed. rewrite H. cbn [andb]. rewrite <-Z.land_assoc, (Z.land_comm data old), Z.land_assoc.
  by rewrite Z.land_diag.
Qed.

Lemma nor_program_clears h offset data len n i :
  m_program_ff_sets_bits_value h = false -> m_program_ff_erases_sector_value h = false ->
  0 <= offset -> 0 <= len -> offset + len <= vec_size (n_data n) -> 0 <= i ->
  let new := arr_get (n_data (nor_program h offset data len n)) i in
  Z.land new (arr_get (n_data n) i) = new.
Proof.
  intros H1 H2 Ho Hl Hend Hi. cbv zeta. unfold nor_program, erases_by_ff. rewrite H2. cbn [andb].
  change (n_data (nor_finish _)) with (program_block h offset data len (n_data n)).
  rewrite program_block_get by done. case_if; [by apply programmed_clears|apply Z.land_diag].
Qed.

Lemma nor_write_clears h offset data len n i : 0 < m_sector_size_value h ->
  m_program_ff_sets_bits_value h = false -> m_program_ff_erases_sector_value h = false ->
  0 <= offset -> 1 <= len <= vec_size data -> offset + len <= vec_size (n_data n) -> bytes_ok data -> nor_ok n ->
  0 <= i < vec_size (n_data n) ->
  let new := arr_get (n_data (nor_write h offset data len n)) i in
  Z.land new (arr_get (n_data n) i) = new \/
  n_pending n = pending_erase /\ arr_get data 0 = CMD_BLOCK_ERASE_ACK /\
  i / m_sector_size_value h = offset / m_sector_size_value h /\ new = 0xff.
Proof.
  intros Hss H1 H2 Ho Hl Hend Hdata Hn Hi. cbv zeta. pose proof (bytes_get data 0 Hdata) as [Hd0 _].
  assert (forall n', n_data n' = n_data n -> Z.land (arr_get (n_data n') i) (arr_get (n_data n) i) = arr_get (n_data n') i)
    as Hsame by (intros n' ->; apply Z.land_diag).
  assert (nor_ok (n <| n_pending := pending_none |>)) as Hn' by exact Hn.
  unfold nor_write. destruct (n_pending n) eqn:E.
  - left. by apply Hsame, nor_start_ok.
  - left. apply nor_program_clears; (done || lia).
  - left. by apply Hsame, nor_begin_ok.
  - left. case_if; [|by apply Hsame, nor_collect_ok]. bool_hyps. pose proof Hn as ((B1 & B2 & B3) & _).
    assert (m_write_buffer (n_buf n) <> []) as Hne.
    { intros E'. unfold nor_complete in *. rewrite E' in B1. by destruct (m_write_buffer_written (n_buf n)). }
    apply nor_program_clears; try done; [unfold vec_size; lia|by apply B3|lia].
  - case_if.
    + bool_hyps. rewrite nor_erase_get by (done || lia). case_if; [right; bool_hyps; done|left; apply Z.land_diag].
    + left. by apply (Hsame _ (proj2 (nor_start_ok _ _ Hn'))).
  - left. case_if; [by apply Hsame|]. by apply (Hsame _ (proj2 (nor_start_ok _ _ Hn'))).
Qed.

(** With the two compatibility options off, no transaction sets a bit of the
    array except an erase confirmation, and that one sets only the bytes of the
    addressed sector, to 0xff. *)
Theorem flash_bits_only_cleared dbg s t i :
  flash_inv (ensure_storage cfg s) -> payload_ok t ->
  m_program_ff_sets_bits_value (hot s) = false -> m_program_ff_erases_sector_value (hot s) = false ->
  0 <= i < array_size s ->
  let '(s', _, _) := access cfg dbg s t in
  Z.land (holds s' i) (holds s i) = holds s' i \/
  (n_pending (view s) = pending_erase /\ command t = TLM_WRITE_COMMAND /\
   arr_get (default [] (data_ptr t)) 0 = CMD_BLOCK_ERASE_ACK /\
   i / m_sector_size_value (hot s) = address t / m_sector_size_value (hot s) /\ holds s' i = 0xff).
Proof.
  intros Hinv Hpay H1 H2 Hi. destruct (serves s t) eqn:Hs.
  - destruct (data_ptr t) as [d|] eqn:Ed; [|unfold serves in Hs; by rewrite Ed in Hs].
    pose proof (access_served dbg s t d Hinv Hpay Ed Hs) as H.
    destruct (access cfg dbg s t) as [[s' t'] ok]. destruct H as (_ & _ & _ & _ & H). unfold holds. cbn [default].
    pose proof Hpay as (Ha & Hl & _ & Hd). rewrite Ed in Hd. destruct Hd as [Hlen Hok]. unfold is_uint in Hl.
    unfold serves, array_size in *. rewrite Ed in Hs. cbn [andb] in Hs. bool_hyps.
    destruct Hinv as (_ & [Hss _] & _ & Hn). rewrite (proj1 (ensure_storage_hot s)) in Hss.
    destruct (command t); [left|destruct H as [-> _]|done].
    + destruct H as [-> _]. apply Z.land_diag.
    + destruct (nor_write_clears (hot s) (address t) d (data_length t) (view s) i) as [Hc|Hc];
        try done; [lia|unfold vec_size; lia|lia|by left|right; tauto].
  - pose proof (access_refused dbg s t Hpay Hs) as Hr. destruct (access cfg dbg s t) as [[s' t'] ok].
    destruct Hr as (Hs' & _). left. unfold holds, view. rewrite (ensure_storage_twice _ _ Hinv Hs'). apply Z.land_diag.
Qed.

(** * Direct memory access *)

(** While a grant is outstanding the flash shows its array and waits for a
    command; the configured ranges are the parsed parameter. *)
Definition dmi_inv (s : flash) : Prop :=
  (m_dmi_granted (dmi s) = true ->
   n_mode (view s) = read_array /\ n_pending (view s) = pending_none /\ m_enable_dmi_value (hot s) = true) /\
  dmi_ranges_ok (ensure_storage cfg s).

Lemma ensure_storage_dmi s : dmi (ensure_storage cfg s) = dmi s.
Proof. unfold ensure_storage. by destruct (m_data s). Qed.

Lemma ensure_storage_id s : flash_inv (ensure_storage cfg s) -> ensure_storage cfg (ensure_storage cfg s) = ensure_storage cfg s.
Proof. intros (Hne & _). by apply ensure_storage_full. Qed.

Lemma dmi_inv_same s s' : same_view s s' -> ensure_storage cfg s = s -> ensure_storage cfg s' = s' ->
  dmi_inv s -> dmi_inv s'.
Proof.
  unfold dmi_inv, view. intros (H1 & H2 & _ & _ & H4 & _ & H6) -> -> [I1 I2]. rewrite H4, H1, H2. split; [done|by apply H6].
Qed.

(** A write while a grant is outstanding only starts a command, after telling
    every initiator to drop the whole array. *)
Lemma write_dmi s d offset len : flash_inv s -> dmi_inv s -> target_bound cfg = true ->
  0 <= offset -> 1 <= len <= vec_size d -> offset + len <= vec_size (m_data s) -> bytes_ok d ->
  let s' := write cfg offset d len s in
  m_dmi_granted (dmi s') = false /\ dmi_ranges_ok s' /\
  (m_dmi_granted (dmi s) = true ->
   m_data s' = m_data s /\ m_invalidations (dmi s') = m_invalidations (dmi s) ++ [(0, vec_size (m_data s) - 1)]).
Proof.
  cbv zeta. intros Hinv [Hg Hr] Hb Ho Hl Hend Hd. pose proof Hinv as (Hne & Hp & Hs & Hn).
  unfold view in Hg. rewrite ensure_storage_full in Hg, Hr by done.
  pose proof (bytes_get d 0 Hd) as [Hd0 _]. pose proof Hp as [Hss _]. pose proof Hn as [Hbuf _].
  destruct (write_refines cfg s offset d len Hp Hs Hbuf Ho ltac:(lia) Hend Hd0) as (W1 & _ & _ & W4).
  destruct (nor_write_ok (hot s) offset d len (abs s) ltac:(lia) Ho Hl Hend Hd Hn) as [_ Hsz]. rewrite <-W1 in Hsz.
  cbn [n_data abs] in Hsz. destruct (invalidate_spec cfg s) as (_ & _ & _ & I4). rewrite Hb, andb_true_r in I4.
  replace (vec_size (m_data s) =? 0) with false in I4 by lia. cbn [negb] in I4. rewrite andb_true_r in I4.
  destruct (m_dmi_granted (dmi s)) eqn:Eg; cbn [andb] in I4.
  - destruct (Hg eq_refl) as (Gm & Gp & Ge). cbn [n_mode n_pending abs] in Gm, Gp. rewrite Ge in I4. rewrite Gp in W4.
    assert (n_data (abs (write cfg offset d len s)) = n_data (abs s)) as Hdata.
    { rewrite W1. unfold nor_write. cbn [n_pending abs]. rewrite Gp. by apply nor_start_ok. }
    cbn [n_data abs] in Hdata. unfold dmi_ranges_ok. rewrite W4, I4, Hdata. done.
  - rewrite I4 in W4. replace (match m_pending s with
       | pending_program | pending_write_buffer_count | pending_write_buffer_data => dmi s | _ => dmi s end)
      with (dmi s) in W4 by (by destruct (m_pending s)).
    unfold dmi_ranges_ok. rewrite W4, Hsz. done.
Qed.

(** C22. No write changes the array under an outstanding direct-memory grant: the
    array can only change in a transaction that starts with no grant
    outstanding, and a write that finds one only starts a command, withdraws the
    grant and tells every initiator, once, to drop the whole array.  Grants are
    outstanding only while the flash shows its array and no command is pending. *)
Theorem flash_dmi_revoked_before_change dbg s t s' t' ok :
  flash_inv (ensure_storage cfg s) -> dmi_inv s -> target_bound cfg = true -> payload_ok t ->
  access cfg dbg s t = (s', t', ok) ->
  dmi_inv s' /\
  (m_dmi_granted (dmi s) = true ->
   n_data (view s') = n_data (view s) /\
   if ok && bool_decide (command t = TLM_WRITE_COMMAND)
   then m_dmi_granted (dmi s') = false /\
        m_invalidations (dmi s') = m_invalidations (dmi s) ++ [(0, array_size s - 1)]
   else m_dmi_granted (dmi s') = true /\ m_invalidations (dmi s') = m_invalidations (dmi s)).
Proof.
  intros Hinv Hdmi Hb Hpay Hacc. destruct (serves s t) eqn:Hs; [unfold serves in Hs|].
  - destruct (data_ptr t) as [d|] eqn:Ed; [|done]. cbn [andb] in Hs. unfold array_size, view in *. cbn [n_data abs] in *.
    bool_hyps. pose proof Hpay as (Ha & Hl & _ & Hd). rewrite Ed in Hd. destruct Hd as [Hlen Hok]. unfold is_uint in Hl.
    pose proof (access_shape dbg s t d Ed ltac:(lia) Hinv ltac:(lia) Ha) as Hsh. rewrite Hacc in Hsh.
    pose proof (ensure_storage_id s Hinv) as Eid. rewrite <-(ensure_storage_dmi s).
    set (s1 := ensure_storage cfg s) in *.
    assert (dmi_inv s1) as Hdmi1 by (destruct Hdmi as [I1 I2]; unfold dmi_inv, view in *; fold s1 in I1, I2;
      rewrite Eid; unfold s1 in *; by rewrite (proj1 (ensure_storage_hot s)), ensure_storage_dmi).
    destruct (command t) eqn:Ec; [destruct Hsh as (Hv & _ & -> & _)|destruct Hsh as (s2 & Hv2 & Hw & _ & -> & _)|done].
    + destruct (same_view_data _ _ Hv) as (Edv & _). pose proof Hinv as (Hne & _).
      assert (ensure_storage cfg s' = s') as Eid' by (apply ensure_storage_full; by rewrite Edv).
      split; [by apply (dmi_inv_same s1)|]. rewrite Eid', Edv. intros Hg. pose proof Hv as (_ & _ & _ & _ & Vg & Vi & _).
      cbn. by rewrite Vg, Vi.
    + pose proof (same_view_inv _ _ Hv2 Hinv) as Hinv2. destruct (same_view_data _ _ Hv2) as (Ed2 & _). pose proof Hinv2 as (Hne2 & _).
      assert (dmi_inv s2) as Hdmi2 by (apply (dmi_inv_same s1); try done; by apply ensure_storage_full).
      destruct (write_dmi s2 d (address t) (data_length t) Hinv2 Hdmi2 Hb Ha ltac:(unfold vec_size; lia)
        ltac:(rewrite Ed2; lia) Hok) as (W1 & W2 & W3).
      destruct (write_inv s2 d (address t) (data_length t) Hinv2 Ha ltac:(unfold vec_size; lia) ltac:(rewrite Ed2; lia) Hok)
        as (_ & _ & Hwinv).
      pose proof (same_view_inv _ _ Hw Hwinv) as (Hne' & _). destruct (same_view_data _ _ Hw) as (Edw & _).
      pose proof Hw as (_ & _ & _ & _ & U1 & U2 & U3). pose proof Hv2 as (_ & _ & _ & _ & V1 & V2 & _).
      unfold dmi_inv, view. rewrite (ensure_storage_full s') by done. rewrite U1, U2, W1, Edw.
      split; [split; [done|by apply U3]|]. intros Hg. rewrite <-V1 in Hg. destruct (W3 Hg) as [-> ->].
      cbn. by rewrite Ed2, V2.
  - pose proof (access_refused dbg s t Hpay Hs) as Hr. rewrite Hacc in Hr. destruct Hr as (Hs' & -> & _).
    unfold dmi_inv, view in *. rewrite (ensure_storage_twice _ _ Hinv Hs'). cbn [andb].
    destruct Hs' as [->| ->]; rewrite ?ensure_storage_dmi, ?(proj1 (ensure_storage_hot s)); done.
Qed.

(** * The shortcut *)

Lemma count_off c d s : stats_enabled s = false -> count_stat_by c d s = s.
Proof. intros H. unfold count_stat_by. by rewrite H. Qed.

Lemma quiet_end s h : hot s = h -> m_stats_collecting h = false -> m_trace_enabled h = false ->
  (if stats_enabled (trace_access s) then maybe_write_stats cfg (trace_access s) else trace_access s) = s.
Proof. intros Hh Hs Ht. unfold trace_access, stats_enabled. rewrite Hh, Ht. cbn [negb orb]. by rewrite Hh, Hs. Qed.

(** With statistics, tracing and direct memory access off, a transaction takes
    the shortcut of [access] and has the same effect, on every part of the state
    and of the payload, as the full body, which the debug transport runs. *)
Theorem flash_shortcut_same s t :
  flash_inv (ensure_storage cfg s) -> payload_ok t ->
  stats_enabled s = false -> m_trace_enabled (hot s) = false -> m_enable_dmi_value (hot s) = false ->
  access cfg false s t = access cfg true s t.
Proof.
  intros Hinv Hpay Hs Ht Hd. destruct (ensure_storage_hot s) as [Eh _].
  pose proof Hpay as (Ha & Hl & _ & Hdp). unfold is_uint in Hl.
  unfold access. rewrite Hs, Ht, Hd. cbn [negb andb]. unfold fast_access, full_access, in_range.
  destruct (data_ptr t) as [d|]; [|done]. destruct Hdp as [Hlen Hok]. case_if; [done|]. cbv zeta. bool_hyps.
  set (s1 := ensure_storage cfg s) in *. assert (stats_enabled s1 = false) as Hs1 by (unfold stats_enabled; by rewrite Eh).
  destruct ((address t <=? vec_size (m_data s1)) && _) eqn:Hin; cbn [negb]; [|done]. bool_hyps.
  change (command (t <| dmi_allowed := false |>)) with (command t). unfold count_stat.
  destruct (command t); [| |done]; rewrite !count_off by (rewrite ?count_off; done).
  - rewrite Eh, Hd. cbn [andb]. by rewrite (quiet_end s1 (hot s)).
  - destruct (write_inv s1 d (address t) (data_length t) Hinv Ha ltac:(unfold vec_size; lia) ltac:(lia) Hok) as (_ & Wh & _).
    rewrite Eh in Wh. by rewrite (quiet_end (write cfg (address t) d (data_length t) s1) (hot s)).
Qed.
End access.

(** * The device as constructed *)

(** A device of a sensible size starts in every invariant, before it allocates its array. *)
Lemma flash_initial_inv cfg params files : 0 < p_size cfg < 2 ^ 62 -> 0 < m_sector_size_value params < 2 ^ 62 ->
  flash_inv (ensure_storage cfg (initial cfg params files)) /\ dmi_inv cfg (initial cfg params files).
Proof.
  intros Hsize Hss. set (s := ensure_storage cfg (initial cfg params files)).
  assert (m_data s = replicate (Z.to_nat (p_size cfg)) 0xff) as Ed by done.
  assert (vec_size (m_data s) = p_size cfg) as Ev by (rewrite Ed; unfold vec_size; rewrite length_replicate; lia).
  assert (flash_inv s) as Hinv.
  { split; [|split; [|split]].
    - intros E. rewrite E in Ev. cbn in Ev. unfold vec_size in Ev. cbn in Ev. lia.
    - split; [exact Hss|rewrite Ev; lia].
    - intros _ index i _ Hi Hr Hlt. rewrite Ed. apply arr_get_replicate. rewrite Ev in Hlt.
      change (m_sector_size_value (hot s)) with (m_sector_size_value params) in Hr. nia.
    - split; [done|]. split; [cbn [n_data abs]; rewrite Ed; by apply Forall_replicate|]. split; [constructor|done]. }
  split; [exact Hinv|]. split; [done|by intros _ ?].
Qed.

(** * Witnesses *)

Definition small_config : flash_config :=
  {| p_size := 64; p_dmi_ranges := []; p_stats_file := ""; p_stats_interval := 0; target_bound := true |}.

Definition small_params (dmi_on : bool) : hot_params := MkHot false false 0 dmi_on false false false 0 16 "".

Definition small_flash (dmi_on : bool) : flash := initial small_config (small_params dmi_on) ∅.

Lemma small_inv dmi_on : flash_inv (ensure_storage small_config (small_flash dmi_on)) /\ dmi_inv small_config (small_flash dmi_on).
Proof. apply flash_initial_inv; by cbv. Qed.

Lemma flash_refines_nor_witness :
  let s := small_flash true in
  let t := write_bytes_txn 5 [CMD_WORD_PROGRAM] in
  let '(s', t', ok) := access small_config false s t in
  flash_inv (ensure_storage small_config s) /\ payload_ok t /\ ok = true /\
  view small_config s' = nor_write (hot s) 5 [CMD_WORD_PROGRAM] 1 (view small_config s).
Proof.
  cbv zeta. assert (payload_ok (write_bytes_txn 5 [CMD_WORD_PROGRAM])) as Hp
    by (apply write_bytes_txn_ok; [done|cbn; lia|by repeat constructor]).
  pose proof (flash_refines_nor small_config false (small_flash true) (write_bytes_txn 5 [CMD_WORD_PROGRAM]) _ _ _
    (proj1 (small_inv true)) Hp (surjective_pairing_3 _)) as (_ & _ & Hok & _ & Hv & _).
  rewrite (surjective_pairing_3 (access small_config false (small_flash true) (write_bytes_txn 5 [CMD_WORD_PROGRAM]))).
  split; [exact (proj1 (small_inv true))|]. split; [exact Hp|].
  assert (serves small_config (small_flash true) (write_bytes_txn 5 [CMD_WORD_PROGRAM]) = true) as Hs by (vm_compute; reflexivity).
  rewrite Hs in Hok. split; [exact Hok|]. rewrite Hok in Hv. exact Hv.
Defined.

Lemma flash_erase_command_witness :
  let erased := send_all small_config (small_flash true) [(0, CMD_BLOCK_ERASE); (20, CMD_BLOCK_ERASE_ACK)] in
  n_pending (view small_config (small_flash true)) = pending_none /\
  fetch small_config erased 20 = STATUS_READY /\
  fetch small_config (send small_config erased (0, CMD_READ_ARRAY)) 20 = 0xff.
Proof.
  cbv zeta. split; [reflexivity|].
  destruct (flash_erase_command small_config (small_flash true) 20 0 0 (proj1 (small_inv true)) eq_refl
    ltac:(by cbv) ltac:(by cbv) ltac:(by cbv)) as [H _].
  destruct (H 20 ltac:(by cbv)) as [H1 H2]. split; [exact H1|]. etransitivity; [exact H2|]. vm_compute. reflexivity.
Defined.

Lemma flash_write_buffer_programs_witness :
  let data := [0x12; CMD_BLOCK_ERASE_ACK; 0x34] in
  let s' := send_all small_config (small_flash true) (write_buffer_cycles 8 data) in
  bytes_ok data /\ holds small_config s' 9 = CMD_BLOCK_ERASE_ACK /\ n_pending (view small_config s') = pending_none.
Proof.
  cbv zeta. assert (bytes_ok [0x12; CMD_BLOCK_ERASE_ACK; 0x34]) as Hb by (by repeat constructor).
  destruct (flash_write_buffer_programs small_config (small_flash true) 8 [0x12; CMD_BLOCK_ERASE_ACK; 0x34]
    (proj1 (small_inv true)) eq_refl ltac:(by cbv) ltac:(by cbv) ltac:(by cbv) Hb eq_refl) as (H1 & H2 & _).
  assert (array_size small_config (small_flash true) = 64) as Hsz by (vm_compute; reflexivity).
  specialize (H1 9 ltac:(rewrite Hsz; lia)). split; [exact Hb|]. split; [|exact H2].
  refine (eq_trans H1 _). vm_compute. reflexivity.
Defined.

Lemma flash_bits_only_cleared_witness :
  let s := send small_config (small_flash true) (0, CMD_WORD_PROGRAM) in
  let t := write_bytes_txn 9 [0x5a] in
  flash_inv (ensure_storage small_config s) /\ payload_ok t /\
  let '(s', _, _) := access small_config false s t in
  Z.land (holds small_config s' 9) (holds small_config s 9) = holds small_config s' 9 \/
  (n_pending (view small_config s) = pending_erase /\ command t = TLM_WRITE_COMMAND /\
   arr_get (default [] (data_ptr t)) 0 = CMD_BLOCK_ERASE_ACK /\
   9 / m_sector_size_value (hot s) = address t / m_sector_size_value (hot s) /\ holds small_config s' 9 = 0xff).
Proof.
  cbv zeta. assert (payload_ok (write_bytes_txn 9 [0x5a])) as Hp
    by (apply write_bytes_txn_ok; [done|cbn; lia|by repeat constructor]).
  destruct (send_spec small_config (small_flash true) (0, CMD_WORD_PROGRAM) (proj1 (small_inv true)) ltac:(by cbv)) as (Hinv & Hh & _).
  split; [exact Hinv|]. split; [exact Hp|].
  exact (flash_bits_only_cleared small_config false (send small_config (small_flash true) (0, CMD_WORD_PROGRAM))
    (write_bytes_txn 9 [0x5a]) 9 Hinv Hp eq_refl eq_refl ltac:(by cbv)).
Defined.

Lemma flash_dmi_revoked_before_change_witness :
  let s := (ensure_storage small_config (small_flash true)) <| dmi ::= fun d => d <| m_dmi_granted := true |> |> in
  let t := write_bytes_txn 9 [CMD_WORD_PROGRAM] in
  flash_inv (ensure_storage small_config s) /\ dmi_inv small_config s /\ payload_ok t /\
  m_dmi_granted (dmi (fst (fst (access small_config false s t)))) = false.
Proof.
  cbv zeta. set (s := (ensure_storage small_config (small_flash true)) <| dmi ::= _ |>).
  assert (payload_ok (write_bytes_txn 9 [CMD_WORD_PROGRAM])) as Hp
    by (apply write_bytes_txn_ok; [done|cbn; lia|by repeat constructor]).
  assert (flash_inv (ensure_storage small_config s)) as Hinv by exact (proj1 (small_inv true)).
  assert (dmi_inv small_config s) as Hd by (split; [done|by intros _ ?]).
  destruct (flash_dmi_revoked_before_change small_config false s (write_bytes_txn 9 [CMD_WORD_PROGRAM]) _ _ _
    Hinv Hd eq_refl Hp (surjective_pairing_3 _)) as [_ H].
  split; [exact Hinv|]. split; [exact Hd|]. split; [exact Hp|]. destruct (H eq_refl) as [_ H'].
  assert (snd (access small_config false s (write_bytes_txn 9 [CMD_WORD_PROGRAM])) = true) as E by (vm_compute; reflexivity).
  rewrite E in H'. exact (proj1 H').
Defined.

Lemma flash_shortcut_same_witness :
  let t := write_bytes_txn 9 [CMD_WORD_PROGRAM] in
  payload_ok t /\ access small_config false (small_flash false) t = access small_config true (small_flash false) t.
Proof.
  cbv zeta. assert (payload_ok (write_bytes_txn 9 [CMD_WORD_PROGRAM])) as Hp
    by (apply write_bytes_txn_ok; [done|cbn; lia|by repeat constructor]).
  split; [exact Hp|].
  exact (flash_shortcut_same small_config (small_flash false) (write_bytes_txn 9 [CMD_WORD_PROGRAM])
    (proj1 (small_inv false)) Hp eq_refl eq_refl eq_refl).
Defined.
