(* ===== verification/FlashBacking.v ===== *)
(** The file behind the flash array and the memory a direct-memory grant exposes:
    the file holds the array outside the range still to be flushed, all of it once
    the device is destroyed, and what a grant points to is the array.  Models
    nothing; see StrataFlash for the definitions. *)

From Stdlib Require Import Ascii String.
From S2P Require Import Prelude Bytes Vectors FlashRanges Tlm StrataFlash FlashCorrect.

(** * The file holds the array *)

Definition dirty_at (b : backing_state) (i : Z) : bool :=
  m_backing_dirty b && (m_backing_dirty_start b <=? i) && (i <=? m_backing_dirty_end b).

(** The bytes of the host file. *)
Definition file_byte (s : flash) (i : Z) : Z :=
  arr_get (default [] (host_files (bak s) !! m_backing_file_value (hot s))) i.

(** A backing file is configured and covers the array, and the pending range lies in it. *)
Definition backing_ok (s : flash) : Prop :=
  m_backing_file_value (hot s) <> ""%string /\
  (m_backing_open (bak s) = true -> m_open_backing_file (bak s) = m_backing_file_value (hot s)) /\
  (m_backing_dirty (bak s) = true -> 0 <= m_backing_dirty_start (bak s) <= m_backing_dirty_end (bak s) /\
     m_backing_dirty_end (bak s) < vec_size (m_data s)) /\
  0 < vec_size (m_data s) < 2 ^ 62 /\
  exists f, host_files (bak s) !! m_backing_file_value (hot s) = Some f /\ vec_size (m_data s) <= vec_size f.

(** The host file holds the array outside the pending range and the [n] bytes from [a]. *)
Definition agrees_except (a n : Z) (s : flash) : Prop :=
  forall i, 0 <= i < vec_size (m_data s) -> dirty_at (bak s) i = false -> ~ (a <= i < a + n) ->
    file_byte s i = arr_get (m_data s) i.

Definition backed (s : flash) : Prop := backing_ok s /\ agrees_except 0 0 s.

(** What backing depends on. *)
Definition keeps (s s' : flash) : Prop := bak s' = bak s /\ hot s' = hot s /\ m_data s' = m_data s.

#[export] Instance keeps_preorder : PreOrder keeps.
Proof.
  split; [done|]. intros s s' s'' (H1 & H2 & H3) (K1 & K2 & K3). repeat split; congruence.
Qed.

#[export] Instance backing_ok_proper : Proper (keeps ==> impl) backing_ok.
Proof. intros s s' (H1 & H2 & H3). unfold backing_ok. by rewrite H1, H2, H3. Qed.

#[export] Instance agrees_proper a n : Proper (keeps ==> impl) (agrees_except a n).
Proof. intros s s' (H1 & H2 & H3). unfold agrees_except, file_byte. by rewrite H1, H2, H3. Qed.

#[export] Instance backed_proper : Proper (keeps ==> impl) backed.
Proof. intros s s' H [H1 H2]. split; by rewrite <-H. Qed.

Lemma keeps_count c d s : keeps s (count_stat_by c d s).
Proof. unfold count_stat_by. by case_if. Qed.

Lemma keeps_set_sector index v s : keeps s (set_sector_erased index v s).
Proof. unfold set_sector_erased. by case_if. Qed.

Lemma keeps_ensure_sector s : keeps s (ensure_sector_erased_map s).
Proof. unfold ensure_sector_erased_map, rebuild_sector_erased_map. cbv zeta. by repeat case_if. Qed.

Lemma keeps_foldl {A} (f : flash -> A -> flash) s l : (forall s x, keeps s (f s x)) -> keeps s (foldl f s l).
Proof. intros Hf. revert s. induction l as [|x l IH]; intros s; [done|]. cbn. etrans; [apply Hf|apply IH]. Qed.

Lemma keeps_mark_range offset len s : keeps s (mark_programmed_range offset len s).
Proof.
  unfold mark_programmed_range. case_if; [done|]. cbv zeta. etrans; [apply keeps_ensure_sector|].
  apply keeps_foldl. intros s' x. case_if; [done|apply keeps_set_sector].
Qed.

Lemma keeps_mark_byte offset s : keeps s (mark_programmed_byte offset s).
Proof.
  unfold mark_programmed_byte. case_if; [done|]. cbv zeta. etrans; [apply keeps_ensure_sector|apply keeps_set_sector].
Qed.

Lemma keeps_mark_sector start_ s : keeps s (mark_sector_erased start_ s).
Proof.
  unfold mark_sector_erased. case_if; [done|]. cbv zeta. etrans; [apply keeps_ensure_sector|apply keeps_set_sector].
Qed.

Lemma keeps_is_erased start_ s : keeps s (snd (sector_is_erased start_ s)).
Proof. unfold sector_is_erased. case_if; [done|]. apply keeps_ensure_sector. Qed.

Lemma keeps_view s s' : same_view s s' -> keeps s s'.
Proof. intros H. destruct (same_view_data _ _ H) as (E & _). by destruct H as (_ & H1 & _ & H2 & _). Qed.

Lemma keeps_invalidate cfg s : keeps s (invalidate_dmi cfg s).
Proof.
  unfold invalidate_dmi. case_if; [done|]. cbv zeta.
  set (s1 := s <| dmi ::= _ |>). pose proof (keeps_count dmi_invalidations 1 s1) as H. exact H.
Qed.

(** Backing steps that leave the array alone and only bring the file closer to it. *)
Definition progress (s s' : flash) : Prop :=
  hot s' = hot s /\ m_data s' = m_data s /\ backing_ok s' /\
  (forall i, dirty_at (bak s') i = true -> dirty_at (bak s) i = true) /\
  forall i, 0 <= i < vec_size (m_data s) -> dirty_at (bak s') i = false ->
    dirty_at (bak s) i = true \/ file_byte s i = arr_get (m_data s) i -> file_byte s' i = arr_get (m_data s) i.

Lemma progress_refl s : backing_ok s -> progress s s.
Proof. intros H. do 3 (split; [done|]). split; [done|]. intros i _ Hd [E|E]; congruence. Qed.

Lemma progress_trans s s' s'' : progress s s' -> progress s' s'' -> progress s s''.
Proof.
  intros (H1 & H2 & H3 & H4 & H5) (K1 & K2 & K3 & K4 & K5). rewrite H2 in *.
  split; [congruence|]. split; [congruence|]. split; [done|]. split; [auto|].
  intros i Hi Hd Hor. apply K5; [done|done|]. destruct (dirty_at (bak s') i) eqn:E; [by left|right; auto].
Qed.

Lemma progress_agrees s s' a n : progress s s' -> agrees_except a n s -> agrees_except a n s'.
Proof.
  intros (H1 & H2 & H3 & H4 & H5) Ha i Hi Hd Hx. rewrite H2 in *. apply H5; [done|done|].
  destruct (dirty_at (bak s) i) eqn:E; [by left|right; auto].
Qed.

Lemma progress_clean s s' : progress s s' -> m_backing_dirty (bak s) = false -> m_backing_dirty (bak s') = false.
Proof.
  intros (_ & _ & (_ & _ & B3 & _) & H & _) Hc. destruct (m_backing_dirty (bak s')) eqn:E; [|done].
  destruct (B3 eq_refl) as [D _]. specialize (H (m_backing_dirty_start (bak s'))). unfold dirty_at in H. rewrite E, Hc in H.
  cbn [andb] in H. replace (_ && _) with true in H by lia. by specialize (H eq_refl).
Qed.

(** A step that changes only which file is open makes progress. *)
Lemma progress_handle s s' : backing_ok s -> hot s' = hot s -> m_data s' = m_data s ->
  host_files (bak s') = host_files (bak s) -> dirty_at (bak s') = dirty_at (bak s) ->
  m_backing_dirty (bak s') = m_backing_dirty (bak s) ->
  m_backing_dirty_start (bak s') = m_backing_dirty_start (bak s) ->
  m_backing_dirty_end (bak s') = m_backing_dirty_end (bak s) ->
  (m_backing_open (bak s') = true -> m_open_backing_file (bak s') = m_backing_file_value (hot s)) ->
  progress s s'.
Proof.
  intros (B1 & B2 & B3 & B4 & B5) Hh Hd Hf Hda Hdi Hds Hde Ho.
  split; [done|]. split; [done|]. split; [|split; [by rewrite Hda|]].
  - unfold backing_ok. by rewrite Hh, Hd, Hf, Hdi, Hds, Hde.
  - intros i Hi E [E'|E']; [congruence|]. unfold file_byte in *. by rewrite Hf, Hh.
Qed.

Section with_flush.
Context (flush : flash -> flash) (flush_ok : forall s, backing_ok s -> progress s (flush s)).

Lemma close_progress s : backing_ok s -> progress s (close_backing_file_with flush s) /\
  m_backing_open (bak (close_backing_file_with flush s)) = false.
Proof.
  intros Hok. unfold close_backing_file_with. set (s1 := if m_backing_flushing (bak s) then s else flush s).
  assert (progress s s1) as H1 by (unfold s1; case_if; [by apply progress_refl|by apply flush_ok]).
  split; [|done]. eapply progress_trans; [exact H1|]. apply progress_handle; try done. by destruct H1 as (_ & _ & ? & _).
Qed.

Lemma ensure_progress s : backing_ok s ->
  let '(ok, s') := ensure_backing_file_with flush s in
  ok = true /\ progress s s' /\ m_open_backing_file (bak s') = m_backing_file_value (hot s) /\
  m_backing_open (bak s') = true.
Proof.
  intros Hok. pose proof Hok as (B1 & B2 & _). unfold ensure_backing_file_with. cbv zeta.
  rewrite (proj2 (String.eqb_neq (m_backing_file_value (hot s)) "") B1).
  destruct (m_backing_open (bak s) && _) eqn:Eo.
  { bool_hyps. split; [done|]. split; [by apply progress_refl|]. auto. }
  destruct (close_progress s Hok) as [H1 H2]. set (s1 := close_backing_file_with flush s) in *.
  pose proof H1 as (Hh & Hd & Hok1 & _). pose proof Hok1 as (_ & _ & _ & Hsz & f & Hf & Hlen). rewrite Hh in Hf.
  change (host_files (bak (upd_bak (fun b : backing_state => b <| m_backing_error_reported := false |>) s1))) with (host_files (bak s1)).
  rewrite Hf. destruct f as [|x f]; [change (vec_size (@nil Z)) with 0 in Hlen; lia|].
  split; [done|]. split; [|done]. eapply progress_trans; [exact H1|]. apply progress_handle; try done. intros _. by rewrite Hh.
Qed.

Lemma write_now_progress offset len s : backing_ok s -> 0 <= offset -> 1 <= len -> offset + len <= vec_size (m_data s) ->
  let '(ok, s') := write_backing_range_now_with flush offset len s in
  ok = true /\ progress s s' /\
  forall i, offset <= i < offset + len -> file_byte s' i = arr_get (m_data s) i.
Proof.
  intros Hok Ho Hl Hend. unfold write_backing_range_now_with. replace (len =? 0) with false by lia.
  pose proof (ensure_progress s Hok) as He. destruct (ensure_backing_file_with flush s) as [ok s1].
  destruct He as (-> & H1 & Hopen & Hop). cbn [negb]. pose proof H1 as (Hh & Hd & Hok1 & Hdi & Hset). rewrite Hd.
  replace (_ || _) with false by lia. pose proof Hok1 as (B1 & B2 & B3 & B4 & f & Hf & Hlen). rewrite Hh, Hd in *.
  assert (backing_map s1 = f) as Em by (unfold backing_map; by rewrite Hopen, Hf). rewrite Em. cbv zeta.
  replace (_ || _) with false by lia. set (s' := upd_bak _ s1). split; [done|].
  assert (vec_size (slice offset len (m_data s)) = len) as Hsl by (apply slice_length; lia).
  assert (host_files (bak s') !! m_backing_file_value (hot s) = Some (splice offset (slice offset len (m_data s)) f)) as Hf'
    by (unfold s'; cbn; rewrite Hopen; apply lookup_insert_eq).
  assert (forall i, 0 <= i -> file_byte s' i =
    if (offset <=? i) && (i <? offset + len) then arr_get (m_data s) i else file_byte s1 i) as Hb.
  { intros i Hi. unfold file_byte. change (hot s') with (hot s1). rewrite Hh, Hf', Hf. cbn [default from_option id].
    rewrite splice_get by lia. rewrite Hsl. case_if; [|done]. bool_hyps. rewrite slice_get by lia. f_equal. lia. }
  split.
  - eapply progress_trans; [exact H1|]. split; [done|]. split; [done|]. split; [|split; [done|]].
    + unfold backing_ok. change (hot s') with (hot s1). change (m_data s') with (m_data s1). rewrite Hh, Hd.
      do 4 (split; [done|]). eexists. split; [exact Hf'|].
      by rewrite splice_size by lia.
    + intros i Hi E [E'|E']; [change (bak s') with (bak s') in *; unfold dirty_at in *; cbn in E; congruence|].
      rewrite Hb by lia. rewrite Hd in *. by case_if.
  - intros i Hi. rewrite Hb by lia. by replace (_ && _) with true by lia.
Qed.
End with_flush.

Lemma flush_progress s : backing_ok s ->
  progress s (flush_deferred_backing s) /\ m_backing_dirty (bak (flush_deferred_backing s)) = false.
Proof.
  intros Hok. pose proof Hok as (B1 & B2 & B3 & B4 & f & Hf & Hlen). unfold flush_deferred_backing.
  destruct (m_backing_dirty (bak s)) eqn:Ed; cbn [negb]; [|split; [by apply progress_refl|done]].
  destruct (B3 eq_refl) as [D1 D2]. cbv zeta. rewrite (proj2 (String.eqb_neq (m_backing_file_value (hot s)) "") B1).
  set (first := m_backing_dirty_start (bak s)) in *. set (last := m_backing_dirty_end (bak s)) in *.
  rewrite wrap_small by (split; lia). set (s1 := upd_bak (fun b : backing_state => b <| m_backing_flushing := true |>) s).
  assert (backing_ok s1) as Hok1 by exact Hok.
  pose proof (write_now_progress id progress_refl first (last - first + 1) s1 Hok1 ltac:(lia) ltac:(lia)
    ltac:(change (m_data s1) with (m_data s); lia)) as Hw.
  destruct (write_backing_range_now_with id first (last - first + 1) s1) as [ok s2].
  destruct Hw as (-> & (Hh & Hd & Hok2 & Hdi & Hset) & Hrange). cbn [negb].
  set (s3 := count_stat_by backing_flush_bytes _ _).
  assert (bak s3 = (bak s2) <| m_backing_flushing := false |> <| m_backing_dirty := false |> <| m_backing_deferred_since_flush := 0 |>
    /\ hot s3 = hot s2 /\ m_data s3 = m_data s2) as (Eb & Eh & Edata).
  { set (s4 := upd_bak (fun b : backing_state => b <| m_backing_dirty := false |> <| m_backing_deferred_since_flush := 0 |>)
      (upd_bak (fun b : backing_state => b <| m_backing_flushing := false |>) s2)) in *.
    assert (keeps s4 s3) as (-> & -> & ->) by (unfold s3, count_stat; by rewrite <-!keeps_count). done. }
  change (hot s1) with (hot s) in *. change (m_data s1) with (m_data s) in *.
  split; [|by rewrite Eb]. split; [congruence|]. split; [congruence|]. split.
  { destruct Hok2 as (C1 & C2 & C3 & C4 & C5). unfold backing_ok. rewrite Eb, Eh, Edata. cbn. by do 4 (split; [done|]). }
  split; [by intros i; rewrite Eb|]. intros i Hi _ Hor. assert (file_byte s3 i = file_byte s2 i) as ->
    by (unfold file_byte; by rewrite Eb, Eh).
  destruct (Z.le_gt_cases first i) as [G1|G1]; [destruct (Z.le_gt_cases i last) as [G2|G2]|]; [apply Hrange; lia|..];
    (assert (dirty_at (bak s) i = false) as E by (unfold dirty_at; fold first last; lia);
     destruct Hor as [Hor|Hor]; [congruence|]; apply Hset; [done| |by right];
     destruct (dirty_at (bak s2) i) eqn:E2; [apply Hdi in E2; change (bak s1) with ((bak s) <| m_backing_flushing := true |>) in E2;
       unfold dirty_at in *; cbn in E2; congruence|done]).
Qed.

Lemma flush_is_progress s : backing_ok s -> progress s (flush_deferred_backing s).
Proof. intros H. by apply flush_progress. Qed.

(** What a backing write promises: the file is brought in step with the array on
    the given range, or the range is left to a later flush. *)
Definition in_step (s s' : flash) : Prop :=
  backed s' /\ hot s' = hot s /\
  (m_defer_backing_write_value (hot s) = false -> m_backing_dirty (bak s) = false -> m_backing_dirty (bak s') = false).

Lemma dirty_marked offset len s i : 1 <= len ->
  (m_backing_dirty (bak s) = true -> m_backing_dirty_start (bak s) <= m_backing_dirty_end (bak s)) ->
  dirty_at (bak (mark_backing_dirty offset len s)) i = false ->
  dirty_at (bak s) i = false /\ ~ (offset <= i < offset + len).
Proof.
  intros Hl Hb. unfold mark_backing_dirty. replace (len =? 0) with false by lia. cbv zeta.
  unfold upd_bak, dirty_at. destruct (m_backing_dirty (bak s)) eqn:E; cbn; rewrite ?E; cbn; lia.
Qed.

Lemma mark_dirty_backed offset len s : backing_ok s -> 0 <= offset -> 1 <= len -> offset + len <= vec_size (m_data s) ->
  agrees_except offset len s -> backed (mark_backing_dirty offset len s).
Proof.
  intros (B1 & B2 & B3 & B4 & B5) Ho Hl Hend Ha.
  set (s' := mark_backing_dirty offset len s).
  assert (hot s' = hot s /\ m_data s' = m_data s /\ host_files (bak s') = host_files (bak s) /\
    m_backing_open (bak s') = m_backing_open (bak s) /\ m_open_backing_file (bak s') = m_open_backing_file (bak s) /\
    m_backing_dirty (bak s') = true /\
    0 <= m_backing_dirty_start (bak s') <= m_backing_dirty_end (bak s') /\
    m_backing_dirty_end (bak s') < vec_size (m_data s)) as (Eh & Ed & Ef & Eo & Eof & Edi & D1 & D2).
  { unfold s', mark_backing_dirty. replace (len =? 0) with false by lia. cbv zeta. unfold upd_bak.
    destruct (m_backing_dirty (bak s)) eqn:E; cbn; rewrite E; cbn; do 5 (split; [done|]); [|split; [done|lia]].
    destruct (B3 eq_refl). split; [done|lia]. }
  split.
  - unfold backing_ok. rewrite Eh, Ed, Ef, Eo, Eof.
    do 2 (split; [done|]). split; [intros _; split; assumption|]. by split.
  - intros i Hi Hd _. rewrite Ed in *. unfold file_byte. rewrite Ef, Eh.
    destruct (dirty_marked offset len s i Hl) as [Hd' Hr]; [intros E; by apply B3|done|].
    by apply Ha.
Qed.

Lemma write_backing_backed offset len s : backing_ok s -> 0 <= offset -> 1 <= len -> offset + len <= vec_size (m_data s) ->
  agrees_except offset len s -> in_step s (write_backing_range offset len s).
Proof.
  intros Hok Ho Hl Hend Ha. unfold write_backing_range. pose proof Hok as (B1 & _).
  rewrite (proj2 (String.eqb_neq (m_backing_file_value (hot s)) "") B1). replace (len =? 0) with false by lia. cbn [orb].
  replace (_ || _) with false by lia. cbv zeta. set (s0 := count_stat_by backing_write_bytes len _).
  assert (keeps s s0) as Hk by (unfold s0, count_stat; by rewrite <-!keeps_count).
  rewrite Hk in Hok. rewrite Hk in Ha. destruct Hk as (Eb & Eh & Ed). unfold in_step. rewrite <-Eh, <-Eb. rewrite <-Ed in Hend.
  destruct (m_defer_backing_write_value (hot s0)).
  - set (s1 := count_stat_by backing_deferred_bytes len _).
    assert (keeps s0 s1) as Hk1 by (unfold s1, count_stat; by rewrite <-!keeps_count).
    rewrite Hk1 in Hok. rewrite Hk1 in Ha. destruct Hk1 as (Eb1 & Eh1 & Ed1). rewrite <-Eh1. rewrite <-Ed1 in Hend.
    pose proof (mark_dirty_backed offset len s1 Hok Ho Hl Hend Ha) as Hm.
    assert (hot (mark_backing_dirty offset len s1) = hot s1 /\ m_data (mark_backing_dirty offset len s1) = m_data s1) as [Eh2 Ed2]
      by (unfold mark_backing_dirty; by case_if).
    set (s2 := upd_bak _ (mark_backing_dirty offset len s1)).
    assert (backed s2) as [H2 H2'] by exact Hm.
    case_if; [|by split].
    pose proof (flush_is_progress s2 H2) as Hp. pose proof Hp as (Fh & Fd & Fok & _).
    split; [split; [done|by eapply progress_agrees]|]. split; [by rewrite Fh|done].
  - pose proof (write_now_progress _ flush_is_progress offset len s0 Hok Ho Hl Hend) as Hw.
    unfold write_backing_range_now. destruct (write_backing_range_now_with _ offset len s0) as [ok s'].
    destruct Hw as (_ & Hp & Hr). cbn [snd]. pose proof Hp as (Fh & Fd & Fok & _).
    split; [split; [done|]|]; [|split; [done|intros _; by eapply progress_clean]].
    intros i Hi Hd _. destruct ((offset <=? i) && (i <? offset + len)) eqn:E; bool_hyps.
    + rewrite Fd. apply Hr. lia.
    + apply (progress_agrees _ _ offset len Hp Ha); [done|done|lia].
Qed.

(** A change of the array confined to a range, written back, keeps the file in step. *)
Lemma change_backed s s1 offset len : backed s -> bak s1 = bak s -> hot s1 = hot s ->
  vec_size (m_data s1) = vec_size (m_data s) ->
  (forall i, 0 <= i < vec_size (m_data s) -> ~ (offset <= i < offset + len) -> arr_get (m_data s1) i = arr_get (m_data s) i) ->
  backing_ok s1 /\ agrees_except offset len s1.
Proof.
  intros [Hok Ha] Eb Eh Es Hout. split.
  - unfold backing_ok in *. by rewrite Eb, Eh, Es.
  - intros i Hi Hd Hr. rewrite Es in Hi. rewrite Hout by done. unfold file_byte. rewrite Eb, Eh in *. apply Ha; [done|done|lia].
Qed.

Lemma in_step_keeps s s0 s' s'' : keeps s s0 -> keeps s' s'' -> in_step s0 s' -> in_step s s''.
Proof.
  intros (K1 & K2 & K3) Hk (H1 & H2 & H3). rewrite Hk in H1. destruct Hk as (L1 & L2 & L3).
  split; [done|]. split; [congruence|]. by rewrite L1, <-K1, <-K2.
Qed.

Lemma in_step_same s s' : keeps s s' -> backed s -> in_step s s'.
Proof. intros Hk Hb. rewrite Hk in Hb. destruct Hk as (K1 & K2 & K3). split; [done|]. by rewrite K1. Qed.

(** A change confined to a range, the cache brought up to date, then written back. *)
Lemma change_in_step s s1 s2 s' offset len : backed s -> 0 <= offset -> 1 <= len -> offset + len <= vec_size (m_data s) ->
  bak s1 = bak s -> hot s1 = hot s -> vec_size (m_data s1) = vec_size (m_data s) ->
  (forall i, 0 <= i < vec_size (m_data s) -> ~ (offset <= i < offset + len) -> arr_get (m_data s1) i = arr_get (m_data s) i) ->
  keeps s1 s2 -> keeps (write_backing_range offset len s2) s' -> in_step s s'.
Proof.
  intros Hb Ho Hl Hend Eb Eh Es Hout Hk Hk'. destruct (change_backed s s1 offset len Hb Eb Eh Es Hout) as [H1 H2].
  rewrite Hk in H1. rewrite Hk in H2. pose proof Hk as (K1 & K2 & K3).
  pose proof (write_backing_backed offset len s2 H1 Ho Hl ltac:(rewrite K3; lia) H2) as (W1 & W2 & W3).
  rewrite Hk' in W1. destruct Hk' as (L1 & L2 & L3). split; [done|]. split; [congruence|].
  rewrite L1. rewrite K1, K2, Eb, Eh in W3. exact W3.
Qed.

Lemma erase_in_step s offset : sector_params_ok s -> backed s -> 0 <= offset < vec_size (m_data s) ->
  in_step s (erase_sector offset s).
Proof.
  intros [Hss Hsz] Hb Ho. unfold erase_sector. set (ss := m_sector_size_value (hot s)) in *. set (first := offset / ss * ss).
  pose proof (Z.div_mod offset ss ltac:(lia)). pose proof (Z.mod_pos_bound offset ss ltac:(lia)).
  assert (0 <= first <= offset) as Hfirst by (unfold first; pose proof (Z.div_pos offset ss); nia).
  rewrite wrap_small by (split; lia). cbv zeta. set (s0 := count_stat_by sector_erase_bytes _ _).
  set (last := Z.min (first + ss) (vec_size (m_data s))).
  assert (keeps s s0) as Hk0 by (unfold s0, count_stat; by rewrite <-!keeps_count).
  pose proof (keeps_is_erased first s0) as Hk1. destruct (sector_is_erased first s0) as [erased s1]. cbn [snd] in Hk1.
  assert (keeps s s1) as Hk by (by etrans). destruct erased; [by apply in_step_same|].
  set (s2 := s1 <| m_data ::= fill_range first last 0xff |>). pose proof Hk as (K1 & K2 & K3).
  apply (change_in_step s s2 (mark_sector_erased first s2) _ first (last - first)); try done; try lia.
  - unfold s2. cbn. rewrite K3, fill_range_size by lia. done.
  - intros i Hi Hr. unfold s2. cbn [m_data set_field]. rewrite K3, fill_range_get by lia. by replace (_ && _) with false by lia.
  - apply keeps_mark_sector.
Qed.

Lemma program_in_step s offset data len : sector_params_ok s -> backed s ->
  0 <= offset -> 1 <= len -> offset + len <= vec_size (m_data s) ->
  in_step s (program offset data len s).
Proof.
  intros Hp Hb Ho Hl Hend. unfold program. case_if; [|case_if; cbv zeta].
  - set (s0 := count_stat compat_ff_sector_erase_ops _).
    assert (keeps s s0) as Hk by (unfold s0, count_stat; by rewrite <-!keeps_count). pose proof Hk as (K1 & K2 & K3).
    eapply (in_step_keeps s s0); [exact Hk|reflexivity|]. apply erase_in_step; [|by rewrite <-Hk|rewrite K3; lia].
    unfold sector_params_ok. by rewrite K2, K3.
  - bool_hyps. set (v := program_value s (arr_get (m_data s) offset) (arr_get data 0)).
    case_if; [|by apply in_step_same]. set (s1 := s <| m_data ::= arr_set offset v |>).
    apply (change_in_step s s1 (mark_programmed_byte offset s1) _ offset 1); try done; try lia.
    + unfold s1. cbn. apply arr_set_size.
    + intros i Hi Hr. unfold s1. cbn [m_data set_field]. rewrite arr_get_set by lia. by replace (i =? offset) with false by lia.
    + apply keeps_mark_byte.
  - set (s0 := count_stat_by program_bytes len (count_stat program_ops s)).
    assert (keeps s s0) as Hk by (unfold s0, count_stat; by rewrite <-!keeps_count). pose proof Hk as (K1 & K2 & K3).
    rewrite K3. pose proof (program_loop_spec s0 offset data len (m_data s) Ho ltac:(lia) Hend) as Hloop.
    destruct (foldl _ _ _) as [[[mem first] last] changed]. destruct Hloop as [Emem Hch].
    pose proof (program_block_size (hot s0) offset data len (m_data s) Ho ltac:(lia) Hend) as Hsz. rewrite <-Emem in Hsz.
    set (s1 := count_stat_by program_noop_bytes _ _).
    assert (keeps (s0 <| m_data := mem |>) s1) as Hk1 by (unfold s1; by rewrite <-!keeps_count).
    destruct Hk1 as (L1 & L2 & L3). cbn in L1, L2, L3.
    destruct (Z.eqb_spec first len); cbn [negb].
    + apply in_step_same; [|done]. split; [cbn; congruence|split; [cbn; congruence|cbn; congruence]].
    + destruct Hch as (Hf & Hl' & Hout).
      apply (change_in_step s s1 (mark_programmed_range (offset + first) (last - first + 1) s1) _ (offset + first) (last - first + 1));
        try done; try lia; try congruence.
      * intros i Hi Hr. rewrite L3. apply Hout; lia.
      * apply keeps_mark_range.
Qed.

Section commands.
Context (cfg : flash_config).

Lemma start_keeps command s : keeps s (start_command command s).
Proof. unfold start_command. by repeat case_if. Qed.

Lemma handle_in_step s offset command : sector_params_ok s -> backed s -> 0 <= offset < vec_size (m_data s) ->
  in_step s (handle_command offset command s).
Proof.
  intros Hp Hb Ho. unfold handle_command. cbv zeta. set (s0 := record_command command s).
  assert (keeps s s0) as Hk by (unfold s0, record_command, count_stat; case_if; [done|by rewrite <-!keeps_count]).
  pose proof Hk as (K1 & K2 & K3). rewrite Hk in Hb.
  eapply (in_step_keeps s s0); [exact Hk|reflexivity|].
  assert (sector_params_ok s0) by (unfold sector_params_ok; by rewrite K2, K3).
  destruct (m_pending s0).
  - apply in_step_same; [apply start_keeps|done].
  - apply in_step_same; [apply start_keeps|done].
  - apply in_step_same; [|done]. by rewrite <-start_keeps.
  - apply in_step_same; [|done]. by rewrite <-start_keeps.
  - case_if; [apply erase_in_step; by rewrite ?K3|]. apply in_step_same; [|done]. by rewrite <-start_keeps.
  - case_if; (apply in_step_same; [|done]); [done|by rewrite <-start_keeps].
Qed.

Lemma write_in_step s offset data len : sector_params_ok s -> backed s -> buffer_ok (abs s) ->
  0 <= offset -> 1 <= len -> offset + len <= vec_size (m_data s) ->
  in_step s (write cfg offset data len s).
Proof.
  intros Hp Hb (Hlen & Hbase & Hbuf) Ho Hl Hend. cbn in Hlen, Hbase, Hbuf. unfold write. pose proof (keeps_invalidate cfg s) as Hi.
  assert (in_step s (handle_command offset (arr_get data 0) (invalidate_dmi cfg s))) as Hh.
  { eapply (in_step_keeps s _); [exact Hi|reflexivity|]. pose proof Hi as (K1 & K2 & K3).
    apply handle_in_step; [unfold sector_params_ok; by rewrite K2, K3|by rewrite <-Hi|rewrite K3; lia]. }
  destruct (m_pending s); try exact Hh.
  - by apply program_in_step.
  - unfold begin_write_buffer, count_stat. cbv zeta.
    pose proof (keeps_count write_buffer_count_writes 1 s) as Hk. case_if; (apply in_step_same; [|done]); exact Hk.
  - case_if.
    + bool_hyps. unfold confirm_write_buffer, count_stat. cbv zeta.
      set (s0 := count_stat_by write_buffer_confirm_cmds 1 s).
      assert (keeps s s0) as Hk by (unfold s0; by rewrite <-keeps_count).
      assert (buf s0 = buf s) as Ebuf by (unfold s0, count_stat_by; by case_if).
      assert (write_buffer_complete s0 = true) as -> by (unfold write_buffer_complete in *; by rewrite Ebuf).
      set (s1 := count_stat_by write_buffer_bytes _ _).
      assert (buf s1 = buf s) as Ebuf1 by (unfold s1, count_stat_by; by repeat case_if).
      assert (keeps s s1) as Hk1 by (unfold s1; by rewrite <-!keeps_count). pose proof Hk1 as (K1 & K2 & K3).
      eapply (in_step_keeps s s1); [exact Hk1|reflexivity|]. rewrite Ebuf, Ebuf1.
      assert (m_write_buffer (buf s) <> []) as Hne.
      { intros E. unfold write_buffer_complete in *. rewrite E in Hlen. by destruct (m_write_buffer_written (buf s)). }
      assert (1 <= vec_size (m_write_buffer (buf s))) by (unfold vec_size; destruct (m_write_buffer (buf s)); [done|cbn; lia]).
      eapply (in_step_keeps s1 s1); [reflexivity| |apply (program_in_step s1 (m_write_buffer_base (buf s)) (m_write_buffer (buf s)) (vec_size (m_write_buffer (buf s))))];
        [done|unfold sector_params_ok; by rewrite K2, K3|by rewrite <-Hk1|done|done|rewrite K3; by apply Hbuf].
    + unfold collect_write_buffer_data, count_stat. cbv zeta. case_if; [by apply in_step_same|].
      case_if; [by apply in_step_same|]. apply in_step_same; [|done].
      match goal with |- keeps s ((count_stat_by ?c ?d ?x) <| _ := _ |> <| _ := _ |>) => pose proof (keeps_count c d x) as Hk end.
      exact Hk.
Qed.

(** * Grants *)

(** The byte [k] bytes into the memory a grant exposes. *)
Definition pointed (s : flash) (g : flash_grant) (k : Z) : Z :=
  match grant_ptr g with
  | ArrayPtr o => arr_get (m_data s) (o + k)
  | BackingPtr path o => arr_get (default [] (host_files (bak s) !! path)) (o + k)
  end.

(** The window is the whole array, or one of the configured ranges cut to it. *)
Definition configured (size : Z) (r : dmi_range) : Prop :=
  match remove_spaces (p_dmi_ranges cfg) with
  | [] => r = MkRange 0 (size - 1)
  | spec => exists rs, parse_spec size spec = Some rs /\ In r rs
  end.

Lemma refresh_open s : m_data s <> [] ->
  m_open_dmi_ranges (dmi (refresh_dmi_ranges cfg s)) = remove_spaces (p_dmi_ranges cfg).
Proof.
  intros Hd. unfold refresh_dmi_ranges. rewrite ensure_storage_full by done. cbv zeta. case_bool_decide; [done|].
  destruct (remove_spaces _) as [|c spec]; [done|]. by destruct (parse_spec _ _).
Qed.

Lemma find_dmi_spec s offset len r s' : m_data s <> [] -> dmi_ranges_ok s -> 0 <= offset -> 0 <= len ->
  find_dmi_range cfg offset len s = (Some r, s') ->
  configured (vec_size (m_data s)) r /\ range_ok (vec_size (m_data s)) r /\
  start r <= offset /\ offset + Z.max len 1 - 1 <= end_ r.
Proof.
  intros Hd Hr Ho Hl. unfold find_dmi_range. rewrite ensure_storage_full by done. cbv zeta.
  destruct (_ || _) eqn:E; [done|]. bool_hyps.
  pose proof (refresh_dmi_view cfg s Hd) as Hv. destruct (same_view_data _ _ Hv) as (Ed & _).
  pose proof (refresh_open s Hd) as Eo. destruct Hv as (_ & _ & _ & _ & _ & _ & Hr'). specialize (Hr' Hr).
  set (s1 := refresh_dmi_ranges cfg s) in *. destruct (m_dmi_ranges_valid (dmi s1)) eqn:Ev; cbn [negb]; [|done].
  unfold dmi_ranges_ok in Hr'. rewrite Ev, Ed in Hr'. specialize (Hr' eq_refl). unfold configured. rewrite Eo in *.
  destruct (remove_spaces _) as [|c spec].
  - intros Hf. simplify_eq. cbn. unfold range_ok. cbn. split_and!; try done; lia.
  - intros Hf. injection Hf as Hf _. specialize (Hr' ltac:(done)). apply find_some in Hf as [Hin Hf]. bool_hyps.
    assert (range_ok (vec_size (m_data s)) r) as Hok.
    { apply parse_ranges_ok in Hr'. rewrite Forall_forall in Hr'. by apply Hr', list_elem_of_In. }
    split; [by eexists|]. split; [done|]. split; [lia|]. destruct (Z.eqb_spec len 0); lia.
Qed.

Lemma reject_view reason s : same_view s (snd (reject_dmi cfg reason s)).
Proof.
  unfold reject_dmi. cbn [snd]. case_if; [|apply count_view].
  etrans; [apply (count_view reason 1)|]. apply same_view_core; [apply core_maybe_dmi_stats|].
  unfold maybe_write_dmi_stats. cbv zeta. case_if; [done|]. unfold write_stats_file. by case_if.
Qed.

Lemma grant_pointer_core s r : core (snd (grant_pointer r s)) = core s.
Proof.
  unfold grant_pointer. cbv zeta. pose proof (core_flush s) as Hf. case_if; [|exact Hf].
  pose proof (core_ensure (flush_deferred_backing s)) as He. destruct (ensure_backing_file _) as [ok s']. cbn [snd] in He.
  case_if; cbn [snd]; congruence.
Qed.

Lemma ensure_file_progress s : backing_ok s ->
  let '(ok, s') := ensure_backing_file s in
  ok = true /\ progress s s' /\ m_open_backing_file (bak s') = m_backing_file_value (hot s) /\ m_backing_open (bak s') = true.
Proof. apply (ensure_progress _ flush_is_progress). Qed.

Lemma grant_pointer_backed s r : backed s -> in_step s (snd (grant_pointer r s)) /\
  m_backing_dirty (bak (snd (grant_pointer r s))) = false.
Proof.
  intros [Hok Hag]. unfold grant_pointer. cbv zeta. destruct (flush_progress s Hok) as [Hp Hclean].
  pose proof (progress_agrees _ _ 0 0 Hp Hag) as Hag1. pose proof Hp as (Eh & _ & Hok1 & _).
  rewrite Eh, (proj2 (String.eqb_neq _ _) (proj1 Hok)). cbn [negb].
  pose proof (ensure_file_progress _ Hok1) as He. destruct (ensure_backing_file _) as [ok s2]. destruct He as (_ & Hp2 & _).
  pose proof (progress_clean _ _ Hp2 Hclean) as Hclean2. pose proof Hp2 as (Eh2 & _ & Hok2 & _).
  assert (in_step s s2).
  { split; [split; [done|by eapply progress_agrees]|]. split; [congruence|done]. }
  by case_if.
Qed.

Lemma grant_pointer_spec s r : range_ok (vec_size (m_data s)) r ->
  m_backing_file_value (hot s) = ""%string \/ backed s ->
  forall k, 0 <= k <= end_ r - start r ->
    pointed (snd (grant_pointer r s)) (MkGrant (fst (grant_pointer r s)) (start r) (end_ r)) k = arr_get (m_data s) (start r + k).
Proof.
  intros [Hr0 Hr1] Hb k Hk. pose proof (grant_pointer_core s r) as Hc. apply core_eq in Hc as (Ed & _ & _ & _ & _ & _ & _ & Eh & _).
  assert (backed s -> in_step s (snd (grant_pointer r s)) /\ m_backing_dirty (bak (snd (grant_pointer r s))) = false) as Hbk
    by apply grant_pointer_backed.
  unfold grant_pointer in *. cbv zeta in *. destruct (abs_core _ _ (core_flush s)) as (_ & Ehf & _). rewrite Ehf in *.
  destruct (String.eqb_spec (m_backing_file_value (hot s)) "") as [E|E]; cbn [negb fst snd] in *; [by unfold pointed; cbn; rewrite Ed|].
  destruct Hb as [?|Hb]; [done|]. pose proof Hb as [Hok _]. destruct (flush_progress s Hok) as [(_ & _ & Hok1 & _) _].
  pose proof (ensure_file_progress _ Hok1) as He. destruct (ensure_backing_file _) as [ok s2].
  destruct He as (-> & _ & Eopen & _). rewrite Ehf in Eopen. cbn [andb] in *. destruct (Hbk Hb) as [[[_ Hag] _] Hclean].
  case_if; cbn [fst snd] in *; unfold pointed; cbn [grant_ptr]; [|by rewrite Ed].
  specialize (Hag (start r + k)). unfold file_byte in Hag. rewrite Ed, Eh in Hag. rewrite Eopen.
  apply Hag; [lia|unfold dirty_at; by rewrite Hclean|lia].
Qed.

(** The state in which a request looks for a range. *)
Definition asking (s : flash) : flash := count_stat dmi_requests (ensure_storage cfg s).

Lemma asking_view s : same_view (ensure_storage cfg s) (asking s).
Proof. apply (count_view dmi_requests 1). Qed.

Lemma reject_inv reason s g s' s0 : same_view s0 s -> reject_dmi cfg reason s = (g, s') -> g = None /\ same_view s0 s'.
Proof.
  intros Hv H. pose proof (reject_view reason s) as Hr. rewrite H in Hr. unfold reject_dmi in H. simplify_eq.
  split; [done|]. by etrans.
Qed.

Lemma get_dmi_none t s s' : flash_inv (ensure_storage cfg s) ->
  get_direct_mem_ptr cfg t s = (None, s') -> same_view (ensure_storage cfg s) s'.
Proof.
  intros (Hne & _). unfold get_direct_mem_ptr. cbv zeta. fold (asking s). pose proof (asking_view s) as Hv.
  destruct (same_view_data _ _ Hv) as (Ed & _).
  repeat (case_if; [by intros Hj; eapply reject_inv|]).
  pose proof (find_dmi_view cfg (asking s) (address t) (data_length t) ltac:(by rewrite Ed)) as Hf.
  destruct (find_dmi_range cfg (address t) (data_length t) (asking s)) as [[r|] s2]; cbn [snd] in Hf.
  - by destruct (grant_pointer r s2).
  - intros Hj. eapply reject_inv; [|exact Hj]. by etrans.
Qed.

Lemma get_dmi_some t s g s' :
  get_direct_mem_ptr cfg t s = (Some g, s') ->
  exists r s2, find_dmi_range cfg (address t) (data_length t) (asking s) = (Some r, s2) /\
    g = MkGrant (fst (grant_pointer r s2)) (start r) (end_ r) /\
    core s' = core ((snd (grant_pointer r s2)) <| dmi ::= fun d => d <| m_dmi_granted := true |> |>) /\
    keeps (snd (grant_pointer r s2)) s' /\
    m_enable_dmi_value (hot (asking s)) = true /\ m_mode (asking s) = read_array /\ m_pending (asking s) = pending_none /\
    command t <> TLM_WRITE_COMMAND.
Proof.
  unfold get_direct_mem_ptr. cbv zeta. fold (asking s).
  assert (forall reason s0, reject_dmi cfg reason s0 <> (Some g, s')) as Hrej by (unfold reject_dmi; congruence).
  repeat (case_if; [by intros ?%Hrej|]). bool_hyps.
  destruct (find_dmi_range cfg (address t) (data_length t) (asking s)) as [[r|] s2]; [|by intros ?%Hrej].
  destruct (grant_pointer r s2) as [p s3] eqn:Eg. intros Hgrant. injection Hgrant as <- <-. exists r, s2. rewrite Eg. cbn [fst snd].
  set (s4 := if stats_enabled (count_stat dmi_grants s3) then _ else _).
  assert (core s4 = core s3 /\ keeps s3 s4) as [Hc Hk].
  { unfold s4. case_if; [|split; [apply core_count1|apply keeps_count]]. split.
    - by rewrite core_maybe_dmi_stats, core_count1.
    - etrans; [apply (keeps_count dmi_grants 1)|]. unfold maybe_write_dmi_stats. cbv zeta. case_if; [done|].
      unfold write_stats_file. by case_if. }
  split; [done|]. split; [done|]. split; [|split; [exact Hk|by repeat case_bool_decide]].
  change ((core s4) <| dmi ::= fun d => d <| m_dmi_granted := true |> |> = (core s3) <| dmi ::= fun d => d <| m_dmi_granted := true |> |>).
  by rewrite Hc.
Qed.

Lemma get_dmi_core t s g s' : flash_inv (ensure_storage cfg s) ->
  get_direct_mem_ptr cfg t s = (g, s') ->
  abs s' = view cfg s /\ hot s' = hot s /\ sec s' = sec (ensure_storage cfg s) /\
  m_dmi_granted (dmi s') = (match g with Some _ => true | None => m_dmi_granted (dmi s) end) /\
  (dmi_ranges_ok (ensure_storage cfg s) -> dmi_ranges_ok s').
Proof.
  intros Hinv Hget. destruct (ensure_storage_hot cfg s) as [Eh _]. rewrite <-(ensure_storage_dmi cfg s), <-Eh. unfold view.
  destruct g as [g|].
  - destruct (get_dmi_some t s g s' Hget) as (r & s2 & Hf & _ & Hc & _). pose proof Hinv as (Hne & _).
    pose proof (asking_view s) as Hv. destruct (same_view_data _ _ Hv) as (Ed & _).
    pose proof (find_dmi_view cfg (asking s) (address t) (data_length t) ltac:(by rewrite Ed)) as Hv2. rewrite Hf in Hv2. cbn [snd] in Hv2.
    assert (same_view (ensure_storage cfg s) s2) as (V1 & V2 & V3 & _ & _ & _ & V4) by (by etrans).
    pose proof (grant_pointer_core s2 r) as Hg. assert (core s' = core (s2 <| dmi ::= fun d => d <| m_dmi_granted := true |> |>)) as Hc'.
    { rewrite Hc. change ((core (snd (grant_pointer r s2))) <| dmi ::= fun d => d <| m_dmi_granted := true |> |> =
        (core s2) <| dmi ::= fun d => d <| m_dmi_granted := true |> |>). by rewrite Hg. }
    destruct (abs_core _ _ Hc') as (-> & -> & Edmi). apply core_eq in Hc' as (Ed' & _ & _ & _ & _ & -> & _).
    split; [exact V1|]. split; [exact V2|]. split; [exact V3|]. split; [by rewrite Edmi|].
    intros Hr. specialize (V4 Hr). unfold dmi_ranges_ok in *. rewrite Edmi, Ed'. exact V4.
  - destruct (get_dmi_none t s s' Hinv Hget) as (V1 & V2 & V3 & _ & V4 & _ & V5). done.
Qed.

(** A request keeps the flash as it is; what it does to the grants it also does to the invariant. *)
Lemma get_dmi_inv t s g s' : flash_inv (ensure_storage cfg s) -> get_direct_mem_ptr cfg t s = (g, s') ->
  flash_inv s' /\ ensure_storage cfg s' = s' /\ view cfg s' = view cfg s /\ hot s' = hot s /\ (dmi_inv cfg s -> dmi_inv cfg s').
Proof.
  intros Hinv Hget. destruct (get_dmi_core t s g s' Hinv Hget) as (Ea & Eh & Es & Eg & Er).
  destruct (ensure_storage_hot cfg s) as [Eh1 _]. unfold view in *.
  assert (m_data s' = m_data (ensure_storage cfg s)) as Ed by (unfold abs in Ea; by injection Ea).
  assert (flash_inv s') as Hinv'.
  { unfold flash_inv, sector_params_ok, cache_sound, cache_valid, sector_count in *. rewrite Ea, Eh, Es, Ed, <-Eh1. exact Hinv. }
  pose proof Hinv' as (Hne' & _). pose proof (ensure_storage_full cfg s' Hne') as Eid.
  split; [done|]. split; [done|]. rewrite Eid. split; [done|]. split; [done|].
  intros [I1 I2]. unfold dmi_inv, view. rewrite Eid, Ea, Eh. split; [|by apply Er].
  rewrite Eg. destruct g as [g|]; [intros _|exact I1].
  destruct (get_dmi_some t s g s' Hget) as (r & s2 & _ & _ & _ & _ & G1 & G2 & G3 & _).
  destruct (same_view_data _ _ (asking_view s)) as (_ & Em & Ep). destruct (asking_view s) as (_ & Ehh & _).
  cbn [n_mode n_pending abs]. rewrite <-Em, <-Ep, <-Eh1, <-Ehh. done.
Qed.

(** C27. A direct-memory grant is sound: it is given only while the flash shows its
    array, for a request that is not a write; the window holds the request, lies
    in the array, and is the whole array or one of the configured ranges; and
    every byte the granted memory shows, in the array or in the mapped backing
    file, is the byte of the flash, provided no backing file is configured or the
    file is kept in step.  A request never changes the flash. *)
Theorem flash_dmi_grant_sound s t g s' :
  flash_inv (ensure_storage cfg s) -> dmi_inv cfg s -> 0 <= address t -> 0 <= data_length t ->
  m_backing_file_value (hot s) = ""%string \/ backed (ensure_storage cfg s) ->
  get_direct_mem_ptr cfg t s = (g, s') ->
  view cfg s' = view cfg s /\ dmi_inv cfg s' /\
  match g with
  | None => m_dmi_granted (dmi s') = m_dmi_granted (dmi s)
  | Some g =>
      m_enable_dmi_value (hot s) = true /\ command t <> TLM_WRITE_COMMAND /\
      n_mode (view cfg s) = read_array /\ n_pending (view cfg s) = pending_none /\
      configured (array_size cfg s) (MkRange (grant_start g) (grant_end g)) /\
      0 <= grant_start g <= address t /\ address t + Z.max (data_length t) 1 - 1 <= grant_end g < array_size cfg s /\
      forall k, 0 <= k <= grant_end g - grant_start g -> pointed s' g k = holds cfg s (grant_start g + k)
  end.
Proof.
  intros Hinv Hdmi Ha Hl Hb Hget. destruct (get_dmi_inv t s g s' Hinv Hget) as (_ & _ & Hv & _ & Hd).
  split; [done|]. split; [by apply Hd|]. destruct g as [g|]; [|by destruct (get_dmi_core t s None s' Hinv Hget) as (_ & _ & _ & ? & _)].
  destruct (get_dmi_some t s g s' Hget) as (r & s2 & Hf & -> & _ & Hk & G1 & G2 & G3 & G4). pose proof Hinv as (Hne & _).
  destruct (ensure_storage_hot cfg s) as [Eh1 _].
  pose proof (asking_view s) as Hva. destruct (same_view_data _ _ Hva) as (Ed & Em & Ep). pose proof Hva as (_ & Eha & _ & _ & _ & _ & Hra).
  pose proof (find_dmi_view cfg (asking s) (address t) (data_length t) ltac:(by rewrite Ed)) as Hvf. rewrite Hf in Hvf. cbn [snd] in Hvf.
  destruct (find_dmi_spec (asking s) (address t) (data_length t) r s2 ltac:(by rewrite Ed) (Hra (proj2 Hdmi)) Ha Hl Hf) as (F1 & F2 & F3 & F4).
  assert (same_view (ensure_storage cfg s) s2) as Hv2 by (by etrans). destruct (same_view_data _ _ Hv2) as (Ed2 & _).
  rewrite Ed in F1, F2. unfold view, array_size, holds, view in *. cbn [n_mode n_pending n_data abs grant_start grant_end] in *.
  split; [by rewrite <-Eh1, <-Eha|]. split; [done|]. split; [by rewrite <-Em|]. split; [by rewrite <-Ep|].
  destruct r as [rs re]. split; [exact F1|]. destruct F2 as [F2 F2']. cbn [start end_] in *. split; [lia|]. split; [lia|].
  intros k Hrange. rewrite <-Ed2. pose proof (grant_pointer_spec s2 (MkRange rs re)) as Hg. cbn [start end_] in Hg. rewrite <-Hg.
  - unfold pointed. destruct Hk as (-> & _ & ->). done.
  - unfold range_ok. cbn. rewrite Ed2. lia.
  - destruct Hb as [Hb|Hb]; [left|right; by rewrite <-(keeps_view _ _ Hv2)].
    destruct (keeps_view _ _ Hv2) as (_ & -> & _). by rewrite Eh1.
  - done.
Qed.

(** * Runs *)

(** What reaches the device from outside: transactions and requests for memory. *)
Inductive flash_event := Transport (dbg : bool) (t : tlm_payload) | DmiRequest (t : tlm_payload).

Definition event_payload (e : flash_event) : tlm_payload := match e with Transport _ t | DmiRequest t => t end.

Definition flash_step (s : flash) (e : flash_event) : flash :=
  match e with
  | Transport dbg t => fst (fst (access cfg dbg s t))
  | DmiRequest t => snd (get_direct_mem_ptr cfg t s)
  end.

Definition flash_run (s : flash) (es : list flash_event) : flash := foldl flash_step s es.

Lemma access_in_step dbg s t : flash_inv (ensure_storage cfg s) -> backed (ensure_storage cfg s) -> payload_ok t ->
  let s' := fst (fst (access cfg dbg s t)) in
  flash_inv (ensure_storage cfg s') /\ in_step (ensure_storage cfg s) (ensure_storage cfg s') /\
  (m_data s <> [] -> m_data s' <> []).
Proof.
  intros Hinv Hb Hpay. cbv zeta. destruct (serves cfg s t) eqn:Hs.
  - unfold serves, array_size, view in Hs. destruct (data_ptr t) as [d|] eqn:Ed; [|done]. cbn [andb n_data abs] in Hs. bool_hyps.
    pose proof Hpay as (Ha & Hl & _ & Hd). rewrite Ed in Hd. destruct Hd as [Hlen Hok]. unfold is_uint in Hl.
    pose proof (access_shape cfg dbg s t d Ed ltac:(lia) Hinv ltac:(lia) Ha) as Hsh.
    destruct (access cfg dbg s t) as [[s' t'] ok]. cbn [fst].
    destruct (command t); [destruct Hsh as (Hv & _)|destruct Hsh as (s2 & Hv2 & Hw & _)|done].
    + pose proof (same_view_inv _ _ Hv Hinv) as Hinv'. pose proof Hinv' as (Hne' & _).
      rewrite (ensure_storage_full cfg s') by done. split; [done|]. split; [apply in_step_same; [by apply keeps_view|done]|done].
    + pose proof (same_view_inv _ _ Hv2 Hinv) as Hinv2. destruct (same_view_data _ _ Hv2) as (Ed2 & _).
      pose proof Hinv2 as (_ & Hp2 & _ & Hn2 & _).
      destruct (write_inv cfg s2 d (address t) (data_length t) Hinv2 Ha ltac:(unfold vec_size; lia) ltac:(rewrite Ed2; lia) Hok)
        as (_ & _ & W3).
      pose proof (same_view_inv _ _ Hw W3) as Hinv'. pose proof Hinv' as (Hne' & _).
      rewrite (ensure_storage_full cfg s') by done. split; [done|]. rewrite (keeps_view _ _ Hv2) in Hb.
      split; [|done]. apply (in_step_keeps _ s2 _ _ (keeps_view _ _ Hv2) (keeps_view _ _ Hw)).
      apply write_in_step; try done; [lia|rewrite Ed2; lia].
  - pose proof (access_refused cfg dbg s t Hpay Hs) as Hr. destruct (access cfg dbg s t) as [[s' t'] ok].
    destruct Hr as (Hs' & _). cbn [fst]. rewrite (ensure_storage_twice cfg _ _ Hinv Hs').
    split; [done|]. split; [by apply in_step_same|]. pose proof Hinv as (Hne & _). by destruct Hs' as [->| ->].
Qed.

Lemma dmi_in_step t s : flash_inv (ensure_storage cfg s) -> backed (ensure_storage cfg s) ->
  let s' := snd (get_direct_mem_ptr cfg t s) in
  flash_inv (ensure_storage cfg s') /\ in_step (ensure_storage cfg s) (ensure_storage cfg s').
Proof.
  intros Hinv Hb. cbv zeta. destruct (get_direct_mem_ptr cfg t s) as [g s'] eqn:Hget. cbn [snd].
  destruct (get_dmi_inv t s g s' Hinv Hget) as (Hinv' & Eid & _). rewrite Eid. split; [done|].
  destruct g as [g|]; [|apply in_step_same; [apply keeps_view; by eapply get_dmi_none|done]].
  destruct (get_dmi_some t s g s' Hget) as (r & s2 & Hf & _ & _ & Hk & _). pose proof Hinv as (Hne & _).
  pose proof (asking_view s) as Hva. destruct (same_view_data _ _ Hva) as (Ed & _).
  pose proof (find_dmi_view cfg (asking s) (address t) (data_length t) ltac:(by rewrite Ed)) as Hvf. rewrite Hf in Hvf. cbn [snd] in Hvf.
  assert (same_view (ensure_storage cfg s) s2) as Hv2 by (by etrans). rewrite (keeps_view _ _ Hv2) in Hb.
  destruct (grant_pointer_backed s2 r Hb) as [Hg _]. by eapply (in_step_keeps _ s2); [apply keeps_view|exact Hk|].
Qed.

Lemma run_in_step s es : flash_inv s -> backed s -> Forall (fun e => payload_ok (event_payload e)) es ->
  flash_inv (flash_run s es) /\ in_step s (flash_run s es).
Proof.
  intros Hinv Hb Hes. unfold flash_run. revert s Hinv Hb. induction Hes as [|e es He _ IH]; intros s Hinv Hb; cbn [foldl].
  { split; [done|]. by apply in_step_same. }
  pose proof Hinv as (Hne & _). pose proof (ensure_storage_full cfg s Hne) as Eid.
  assert (flash_inv (ensure_storage cfg (flash_step s e)) /\ in_step (ensure_storage cfg s) (ensure_storage cfg (flash_step s e)) /\
    m_data (flash_step s e) <> []) as (Hinv1 & Hs1 & Hne1).
  { rewrite <-Eid in Hinv, Hb. destruct e as [dbg t|t]; cbn [flash_step event_payload] in *.
    - destruct (access_in_step dbg s t Hinv Hb He) as (H1 & H2 & H3). auto.
    - destruct (dmi_in_step t s Hinv Hb) as [H1 H2]. split; [done|]. split; [done|].
      destruct (get_direct_mem_ptr cfg t s) as [g s'] eqn:Hget. by destruct (get_dmi_inv t s g s' Hinv Hget) as ((? & _) & _). }
  rewrite Eid in Hs1. rewrite (ensure_storage_full cfg (flash_step s e)) in Hinv1, Hs1 by done.
  destruct Hs1 as (S1 & S2 & S3). destruct (IH _ Hinv1 S1) as (Hinv2 & T1 & T2 & T3). split; [done|]. split; [done|].
  split; [congruence|]. rewrite S2 in T3. auto.
Qed.

Lemma destroy_spec s : backed s -> forall i, 0 <= i < vec_size (m_data s) -> file_byte (destroy cfg s) i = arr_get (m_data s) i.
Proof.
  intros [Hok Hag] i Hi. unfold destroy, close_backing_file. destruct (flush_progress s Hok) as [Hp Hclean].
  pose proof (progress_agrees _ _ 0 0 Hp Hag) as Hag1. pose proof Hp as (_ & Ed & Hok1 & _).
  set (s1 := flush_deferred_backing s) in *. assert (keeps s1 (write_stats_file cfg s1)) as Hk by (unfold write_stats_file; by case_if).
  rewrite Hk in Hok1. rewrite Hk in Hag1. destruct Hk as (Kb & _ & Kd). set (s2 := write_stats_file cfg s1) in *.
  destruct (close_progress _ flush_is_progress s2 Hok1) as [Hp2 _]. pose proof (progress_agrees _ _ 0 0 Hp2 Hag1) as Hag2.
  pose proof (progress_clean _ _ Hp2 ltac:(by rewrite Kb)) as Hclean2. pose proof Hp2 as (_ & Ed2 & _).
  rewrite <-Ed, <-Kd, <-Ed2. apply Hag2; [by rewrite Ed2, Kd, Ed|unfold dirty_at; by rewrite Hclean2|lia].
Qed.

(** C19. The backing file follows the array.  Starting in step, and through any
    sequence of transactions and requests for direct memory, the host file holds
    every byte of the array outside the range still to be flushed; without
    deferred writes it holds the whole array after every step; and once the
    device is destroyed it holds the whole array in either mode. *)
Theorem flash_backing_follows s es :
  flash_inv s -> backed s -> Forall (fun e => payload_ok (event_payload e)) es ->
  let s' := flash_run s es in
  forall i, 0 <= i < array_size cfg s' ->
    (dirty_at (bak s') i = false -> file_byte s' i = holds cfg s' i) /\
    (m_defer_backing_write_value (hot s) = false -> m_backing_dirty (bak s) = false -> file_byte s' i = holds cfg s' i) /\
    file_byte (destroy cfg s') i = holds cfg s' i.
Proof.
  intros Hinv Hb Hes. cbv zeta. destruct (run_in_step s es Hinv Hb Hes) as ((Hne & _) & Hb' & _ & Hclean).
  set (s' := flash_run s es) in *. unfold array_size, holds, view. rewrite ensure_storage_full by done. cbn [n_data abs].
  intros i Hi. pose proof Hb' as [_ Hag]. split; [|split].
  - intros Hd. apply Hag; [done|done|lia].
  - intros H1 H2. apply Hag; [done|unfold dirty_at; by rewrite Hclean|lia].
  - by apply destroy_spec.
Qed.
End commands.

(** * Witnesses *)

Lemma flash_dmi_grant_sound_witness :
  exists g s', get_direct_mem_ptr small_config (read_txn 20 4) (small_flash true) = (Some g, s') /\
    grant_start g <= 20 /\ 23 <= grant_end g < array_size small_config (small_flash true) /\
    pointed s' g (20 - grant_start g) = holds small_config (small_flash true) 20.
Proof.
  destruct (get_direct_mem_ptr small_config (read_txn 20 4) (small_flash true)) as [[g|] s'] eqn:E; [|vm_compute in E; discriminate].
  exists g, s'. split; [exact eq_refl|].
  destruct (flash_dmi_grant_sound small_config (small_flash true) (read_txn 20 4) (Some g) s'
    (proj1 (small_inv true)) (proj2 (small_inv true)) ltac:(by cbv) ltac:(by cbv) (or_introl eq_refl) E)
    as (_ & _ & _ & _ & _ & _ & _ & H1 & H2 & H3).
  change (address (read_txn 20 4)) with 20 in H1, H2. change (Z.max (data_length (read_txn 20 4)) 1) with 4 in H2.
  split; [lia|]. split; [lia|]. rewrite (H3 (20 - grant_start g)) by lia. f_equal. lia.
Defined.

(** A deferred-write device over a file of erased bytes. *)
Definition filed_flash : flash :=
  ensure_storage small_config (initial small_config
    (MkHot false false 0 true false false true 0 16 "flash.bin")
    (<["flash.bin"%string := replicate 64 0xff]> ∅)).

Definition filed_events : list flash_event :=
  [Transport false (write_bytes_txn 9 [CMD_WORD_PROGRAM]); Transport false (write_bytes_txn 9 [0x5a]);
   Transport true (write_bytes_txn 9 [CMD_READ_ARRAY])].

Lemma filed_backed : backed filed_flash.
Proof.
  split.
  - split; [done|]. split; [done|]. split; [done|]. split; [by cbv|]. exists (replicate 64 0xff).
    split; [by apply lookup_insert_eq|by cbv].
  - intros i Hi _ _. unfold file_byte. change (host_files (bak filed_flash) !! m_backing_file_value (hot filed_flash)) with
      (Some (replicate 64 0xff)). change (m_data filed_flash) with (replicate 64 0xff). done.
Qed.

Lemma flash_backing_follows_witness :
  flash_inv filed_flash /\ backed filed_flash /\
  Forall (fun e => payload_ok (event_payload e)) filed_events /\
  let s' := flash_run small_config filed_flash filed_events in
  file_byte s' 9 = 0xff /\ file_byte (destroy small_config s') 9 = 0x5a.
Proof.
  assert (flash_inv filed_flash) as Hinv
    by exact (proj1 (flash_initial_inv small_config (MkHot false false 0 true false false true 0 16 "flash.bin")
      (<["flash.bin"%string := replicate 64 0xff]> ∅) ltac:(by cbv) ltac:(by cbv))).
  assert (Forall (fun e => payload_ok (event_payload e)) filed_events) as Hes.
  { repeat (apply Forall_cons; split; [apply write_bytes_txn_ok; [done|cbn; lia|by repeat constructor]|]). constructor. }
  assert (0 <= 9 < array_size small_config (flash_run small_config filed_flash filed_events)) as Hi by (vm_compute; by split).
  destruct (flash_backing_follows small_config filed_flash filed_events Hinv filed_backed Hes 9 Hi) as (_ & _ & H).
  split; [exact Hinv|]. split; [exact filed_backed|]. split; [exact Hes|]. cbv zeta. split; [vm_compute; reflexivity|].
  refine (eq_trans H _). vm_compute. reflexivity.
Defined.

(** * Two limits of the protection *)

(** A device whose backing file is half its array, its window the first sixteen bytes. *)
Definition short_config : flash_config :=
  {| p_size := 64; p_dmi_ranges := list_ascii_of_string "0-15"; p_stats_file := ""; p_stats_interval := 0; target_bound := true |}.

Definition short_flash : flash :=
  ensure_storage short_config (initial short_config
    (MkHot false false 0 true false false true 0 16 "flash.bin")
    (<["flash.bin"%string := replicate 32 0xff]> ∅)).

(** The pending range reaches past the end of the file, so no flush ever succeeds,
    and the grant points to a file the programmed byte never reached. *)
Lemma flash_short_file_stale_grant :
  let s := send_all short_config short_flash
    [(9, CMD_WORD_PROGRAM); (9, 0x5a); (40, CMD_WORD_PROGRAM); (40, 0x11); (0, CMD_READ_ARRAY)] in
  match get_direct_mem_ptr short_config (read_txn 9 1) s with
  | (Some g, s') => pointed s' g 9 = 0xff /\ holds short_config s' 9 = 0x5a /\ m_backing_dirty (bak s') = true
  | _ => False
  end.
Proof. vm_compute. by repeat split. Qed.

(** Switching direct memory access off while a grant is outstanding leaves the
    grant in the initiators' hands: later writes change the array and revoke nothing. *)
Lemma flash_disable_dmi_keeps_grant :
  let granted := snd (get_direct_mem_ptr small_config (read_txn 9 1) (small_flash true)) in
  let s := send_all small_config (post_write (write_enable_dmi false) granted) [(9, CMD_WORD_PROGRAM); (9, 0x5a)] in
  holds small_config granted 9 = 0xff /\ holds small_config s 9 = 0x5a /\ m_invalidations (dmi s) = [] /\
  m_dmi_granted (dmi s) = true.
Proof. vm_compute. by repeat split. Qed.
