(* ===== verification/MhuFrame.v ===== *)
(** One frame of the message handling unit [mhu320ae]
    (systemc-components/mhu320ae/include/mhu320ae.h, class mhu320ae_frame_model):
    the doorbell channels of a postbox or a mailbox, their masks and interrupt
    status, and the combined interrupt words. *)

From S2P Require Import Prelude Bytes.

(** * Constants *)

Definition REG_SPACE_SIZE : Z := 0x30000.
Definition CTRL_BLK_ID : Z := 0x000.
Definition CTRL_FEAT_SPT0 : Z := 0x010.
Definition CTRL_FEAT_SPT1 : Z := 0x014.
Definition CTRL_DBCH_CFG0 : Z := 0x020.
Definition CTRL_DBCH_INT_ST0 : Z := 0x400.
Definition CTRL_IIDR : Z := 0xfc8.
Definition CTRL_AIDR : Z := 0xfcc.
Definition DBCW0 : Z := 0x1000.
Definition DBCW_STRIDE : Z := 0x20.
Definition DBCH_CHANNELS : Z := 128.
Definition DBCW_END : Z := DBCW0 + DBCW_STRIDE * DBCH_CHANNELS.
Definition DBCW_ST : Z := 0x00.
Definition DBCW_ST_MSK : Z := 0x04.
Definition DBCW_CLR : Z := 0x08.
Definition DBCW_SET : Z := 0x0c.
Definition DBCW_INT_ST : Z := 0x10.
Definition DBCW_INT_CLR : Z := 0x14.
Definition DBCW_INT_EN : Z := 0x18.
Definition DBCW_CTRL : Z := 0x1c.
Definition DBCW_NOTIFY_CHANNEL : Z := DBCH_CHANNELS - 1.
Definition MHU_NOTIFY_VALUE : Z := 1234.
Definition PBX_DBCW_ST : Z := DBCW0 + 0x00.
Definition PBX_DBCW_SET : Z := DBCW0 + 0x0c.
Definition PBX_DBCW_INT_ST : Z := DBCW0 + 0x10.
Definition PBX_DBCW_INT_CLR : Z := DBCW0 + 0x14.
Definition PBX_DBCW_INT_EN : Z := DBCW0 + 0x18.
Definition PBX_DBCW_CTRL : Z := DBCW0 + 0x1c.
Definition MBX_DBCW_ST : Z := DBCW0 + 0x00.
Definition MBX_DBCW_ST_MSK : Z := DBCW0 + 0x04.
Definition MBX_DBCW_CLR : Z := DBCW0 + 0x08.
Definition MBX_DBCW_MSK_ST : Z := DBCW0 + 0x10.
Definition MBX_DBCW_MSK_SET : Z := DBCW0 + 0x14.
Definition MBX_DBCW_MSK_CLR : Z := DBCW0 + 0x18.
Definition MBX_DBCW_CTRL : Z := DBCW0 + 0x1c.

(** * State *)

(** [m_regs] is the byte image of the register space; the five words of every
    channel are kept apart from it and mirrored into it. *)
(** [mhu320ae.h: "std::array<uint8_t, REG_SPACE_SIZE> m_regs {};" .. "unsigned int m_channel_count = DBCH_CHANNELS;"] *)
Record mhu_frame := MkFrame {
  m_regs : mem;
  m_db_status : list Z;
  m_db_mask : list Z;
  m_db_int_status : list Z;
  m_db_int_enable : list Z;
  m_db_ctrl : list Z;
  m_is_mbx : bool;
  m_channel_count : Z
}.

#[export] Instance eta_mhu_frame : Eta mhu_frame := fun s =>
  MkFrame (m_regs s) (m_db_status s) (m_db_mask s) (m_db_int_status s) (m_db_int_enable s) (m_db_ctrl s)
    (m_is_mbx s) (m_channel_count s).

(** A frame as declared. *)
Definition new_frame : mhu_frame :=
  let zeros := replicate (Z.to_nat DBCH_CHANNELS) 0 in MkFrame ∅ zeros zeros zeros zeros zeros false DBCH_CHANNELS.

(** * Registers *)

(** [store<uint32_t>]. *)
(** [mhu320ae.h: store] *)
Definition store (offset value : Z) (s : mhu_frame) : mhu_frame :=
  if u64 (offset + 4) <=? REG_SPACE_SIZE then s <| m_regs ::= store32 offset value |> else s.

(** [load<uint32_t>]. *)
(** [mhu320ae.h: load] *)
Definition load (s : mhu_frame) (offset : Z) : Z :=
  if u64 (offset + 4) <=? REG_SPACE_SIZE then load32 (m_regs s) offset else 0.

(** [mhu320ae.h: decode_dbch_offset] *)
Definition decode_dbch_offset (s : mhu_frame) (offset : Z) : option (Z * Z) :=
  if (offset <? DBCW0) || (DBCW_END <=? offset) then None
  else
    let relative := offset - DBCW0 in
    let channel := relative / DBCW_STRIDE in
    if channel <? m_channel_count s then Some (channel, relative mod DBCW_STRIDE) else None.

(** [mhu320ae.h: status] *)
Definition status (s : mhu_frame) (channel : Z) : Z := arr_get (m_db_status s) channel.

(** [mhu320ae.h: channel_masked_status] *)
Definition channel_masked_status (s : mhu_frame) (channel : Z) : Z :=
  Z.land (arr_get (m_db_status s) channel) (not32 (arr_get (m_db_mask s) channel)).

(** [mhu320ae.h: store_channel_regs] *)
Definition store_channel_regs (channel : Z) (s : mhu_frame) : mhu_frame :=
  let base := DBCW0 + DBCW_STRIDE * channel in
  let s := store (base + DBCW_ST) (arr_get (m_db_status s) channel) s in
  let s :=
    if m_is_mbx s then
      store (base + DBCW_INT_ST) (arr_get (m_db_mask s) channel)
        (store (base + DBCW_ST_MSK) (channel_masked_status s channel) s)
    else
      store (base + DBCW_INT_EN) (arr_get (m_db_int_enable s) channel)
        (store (base + DBCW_INT_ST) (arr_get (m_db_int_status s) channel) s) in
  store (base + DBCW_CTRL) (arr_get (m_db_ctrl s) channel) s.

(** [mhu320ae.h: set_status] *)
Definition set_status (channel value : Z) (s : mhu_frame) : mhu_frame :=
  store_channel_regs channel (s <| m_db_status ::= arr_set channel value |>).

(** [mhu320ae.h: set_status_bits] *)
Definition set_status_bits (channel value : Z) (s : mhu_frame) : mhu_frame :=
  store_channel_regs channel (s <| m_db_status ::= fun a => arr_set channel (Z.lor (arr_get a channel) value) a |>).

(** [mhu320ae.h: clear_status_bits] *)
Definition clear_status_bits (channel mask : Z) (s : mhu_frame) : mhu_frame :=
  store_channel_regs channel
    (s <| m_db_status ::= fun a => arr_set channel (Z.land (arr_get a channel) (not32 mask)) a |>).

(** [mhu320ae.h: set_mask_bits] *)
Definition set_mask_bits (channel mask : Z) (s : mhu_frame) : mhu_frame :=
  store_channel_regs channel (s <| m_db_mask ::= fun a => arr_set channel (Z.lor (arr_get a channel) mask) a |>).

(** [mhu320ae.h: clear_mask_bits] *)
Definition clear_mask_bits (channel mask : Z) (s : mhu_frame) : mhu_frame :=
  store_channel_regs channel
    (s <| m_db_mask ::= fun a => arr_set channel (Z.land (arr_get a channel) (not32 mask)) a |>).

(** [mhu320ae.h: set_int_status_bits] *)
Definition set_int_status_bits (channel value : Z) (s : mhu_frame) : mhu_frame :=
  store_channel_regs channel
    (s <| m_db_int_status ::= fun a => arr_set channel (Z.lor (arr_get a channel) value) a |>).

(** [mhu320ae.h: clear_int_status_bits] *)
Definition clear_int_status_bits (channel mask : Z) (s : mhu_frame) : mhu_frame :=
  store_channel_regs channel
    (s <| m_db_int_status ::= fun a => arr_set channel (Z.land (arr_get a channel) (not32 mask)) a |>).

(** [mhu320ae.h: set_int_enable] *)
Definition set_int_enable (channel value : Z) (s : mhu_frame) : mhu_frame :=
  store_channel_regs channel (s <| m_db_int_enable ::= arr_set channel value |>).

(** [mhu320ae.h: set_ctrl] *)
Definition set_ctrl (channel value : Z) (s : mhu_frame) : mhu_frame :=
  store_channel_regs channel (s <| m_db_ctrl ::= arr_set channel value |>).

(** [mhu320ae.h: clear_all_status] *)
Definition clear_all_status (s : mhu_frame) : mhu_frame :=
  foldl (fun s channel => set_status channel 0 s) s (range DBCH_CHANNELS).

(** * Interrupts *)

(** Whether a channel asks for the interrupt of its frame. *)
(** [mhu320ae.h: "const bool asserted =" .. "m_db_int_enable[channel]) != 0);"] *)
Definition asserted (s : mhu_frame) (channel : Z) : bool :=
  if m_is_mbx s then negb (channel_masked_status s channel =? 0)
  else negb (Z.land (arr_get (m_db_int_status s) channel) (arr_get (m_db_int_enable s) channel) =? 0).

(** [mhu320ae.h: combined_dbch_int_st] *)
Definition combined_dbch_int_st (s : mhu_frame) (word : Z) : Z :=
  let first := word * 32 in
  let last := Z.min (first + 32) (m_channel_count s) in
  foldl (fun status channel => if asserted s channel then Z.lor status (shl 32 1 (channel - first)) else status)
    0 (seqZ first (last - first)).

(** [mhu320ae.h: refresh_combined_irq_regs] *)
Definition refresh_combined_irq_regs (s : mhu_frame) : mhu_frame :=
  foldl (fun s word => store (CTRL_DBCH_INT_ST0 + word * 4) (combined_dbch_int_st s word) s) s (range 4).

(** [mhu320ae.h: any_combined_irq] *)
Definition any_combined_irq (s : mhu_frame) : bool :=
  existsb (fun word => negb (combined_dbch_int_st s word =? 0)) (range 4).

(** [mhu320ae.h: configure] *)
Definition configure (is_mbx : bool) (channel_count feat_spt0 feat_spt1 iidr aidr : Z) (s : mhu_frame) : mhu_frame :=
  let s := s <| m_is_mbx := is_mbx |> <| m_channel_count := Z.max 1 (Z.min channel_count DBCH_CHANNELS) |> in
  let s := s <| m_db_mask ::= map (fun _ => if is_mbx then 0xffffffff else 0) |> in
  let s := store CTRL_BLK_ID (if is_mbx then 1 else 0) s in
  let s := store CTRL_FEAT_SPT0 feat_spt0 s in
  let s := store CTRL_FEAT_SPT1 feat_spt1 s in
  let s := store CTRL_DBCH_CFG0 (m_channel_count s - 1) s in
  let s := store CTRL_IIDR iidr s in
  let s := store CTRL_AIDR aidr s in
  let s := foldl (fun s channel => store_channel_regs channel s) s (range DBCH_CHANNELS) in
  refresh_combined_irq_regs s.

(** [mhu320ae.h: read32] *)
Definition read32 (s : mhu_frame) (offset : Z) : Z :=
  if (CTRL_DBCH_INT_ST0 <=? offset) && (offset <? CTRL_DBCH_INT_ST0 + 16) &&
     ((offset - CTRL_DBCH_INT_ST0) mod 4 =? 0)
  then combined_dbch_int_st s ((offset - CTRL_DBCH_INT_ST0) / 4)
  else
    match decode_dbch_offset s offset with
    | None => load s offset
    | Some (channel, reg_offset) =>
        if m_is_mbx s then
          if reg_offset =? DBCW_ST then arr_get (m_db_status s) channel
          else if reg_offset =? DBCW_ST_MSK then channel_masked_status s channel
          else if reg_offset =? DBCW_INT_ST then arr_get (m_db_mask s) channel
          else if reg_offset =? DBCW_CTRL then arr_get (m_db_ctrl s) channel
          else load s offset
        else
          if reg_offset =? DBCW_ST then arr_get (m_db_status s) channel
          else if reg_offset =? DBCW_INT_ST then arr_get (m_db_int_status s) channel
          else if reg_offset =? DBCW_INT_EN then arr_get (m_db_int_enable s) channel
          else if reg_offset =? DBCW_CTRL then arr_get (m_db_ctrl s) channel
          else load s offset
    end.

(** [mhu320ae.h: copy_read] *)
Definition copy_read (s : mhu_frame) (offset len : Z) : list Z := mem_read (m_regs s) offset len.

(** [mhu320ae.h: copy_write] *)
Definition copy_write (offset : Z) (data : list Z) (s : mhu_frame) : mhu_frame :=
  s <| m_regs ::= mem_write offset data |>.

(** * Only the byte image changes when registers are mirrored *)

Definition same_channels (s s' : mhu_frame) : Prop := s' = s <| m_regs := m_regs s' |>.

#[export] Instance same_channels_preorder : PreOrder same_channels.
Proof.
  split; [by intros []|]. intros [] [] [] H H'. unfold same_channels in *. cbn in *. congruence.
Qed.

Lemma same_channels_fields s s' : same_channels s s' ->
  m_db_status s' = m_db_status s /\ m_db_mask s' = m_db_mask s /\ m_db_int_status s' = m_db_int_status s /\
  m_db_int_enable s' = m_db_int_enable s /\ m_db_ctrl s' = m_db_ctrl s /\ m_is_mbx s' = m_is_mbx s /\
  m_channel_count s' = m_channel_count s.
Proof. intros ->. done. Qed.

Lemma store_same offset v s : same_channels s (store offset v s).
Proof. unfold store. case_if; [done|reflexivity]. Qed.

Lemma store_channel_same channel s : same_channels s (store_channel_regs channel s).
Proof.
  unfold store_channel_regs. cbv zeta. etrans; [|apply store_same].
  case_if; (etrans; [|apply store_same]); (etrans; [|apply store_same]); apply store_same.
Qed.

Lemma foldl_same {A} (f : mhu_frame -> A -> mhu_frame) s l : (forall s x, same_channels s (f s x)) -> same_channels s (foldl f s l).
Proof. intros Hf. revert s. induction l as [|x l IH]; intros s; [reflexivity|]. cbn. etrans; [apply Hf|apply IH]. Qed.

Lemma refresh_same s : same_channels s (refresh_combined_irq_regs s).
Proof. apply foldl_same. intros s' w. apply store_same. Qed.

Lemma masked_same s s' channel : same_channels s s' -> channel_masked_status s' channel = channel_masked_status s channel.
Proof. intros H. unfold channel_masked_status. by destruct (same_channels_fields _ _ H) as (-> & -> & _). Qed.

Lemma asserted_same s s' channel : same_channels s s' -> asserted s' channel = asserted s channel.
Proof.
  intros H. unfold asserted. rewrite (masked_same _ _ _ H).
  by destruct (same_channels_fields _ _ H) as (_ & _ & -> & -> & _ & -> & _).
Qed.

(** * The frame is well formed *)

Definition words_ok (l : list Z) : Prop := arr_ok 128 32 l.

Definition frame_ok (s : mhu_frame) : Prop :=
  mem_ok REG_SPACE_SIZE (m_regs s) /\ words_ok (m_db_status s) /\ words_ok (m_db_mask s) /\
  words_ok (m_db_int_status s) /\ words_ok (m_db_int_enable s) /\ words_ok (m_db_ctrl s) /\
  1 <= m_channel_count s <= DBCH_CHANNELS.

Lemma store_ok offset v s : 0 <= offset < 2 ^ 63 -> frame_ok s -> frame_ok (store offset v s).
Proof.
  intros Ho (H & Hs). unfold store. destruct (Z.leb_spec (u64 (offset + 4)) REG_SPACE_SIZE); [|by split].
  rewrite wrap_small in * by (split; lia). split; [|exact Hs]. cbn. apply mem_ok_store32; [done|lia|lia].
Qed.

Lemma store_channel_ok channel s : 0 <= channel < DBCH_CHANNELS -> frame_ok s -> frame_ok (store_channel_regs channel s).
Proof.
  unfold DBCH_CHANNELS. intros Hc Hs. unfold store_channel_regs, DBCW0, DBCW_STRIDE, DBCW_ST, DBCW_INT_ST, DBCW_ST_MSK,
    DBCW_INT_EN, DBCW_CTRL. cbv zeta.
  apply store_ok; [lia|]. case_if; repeat (apply store_ok; [lia|]); done.
Qed.

(** The mirror of a channel whose words change to a well-formed array. *)
Ltac frame_solve :=
  match goal with H : frame_ok _ |- _ => destruct H as (?&?&?&?&?&?&?) end;
  unfold frame_ok; cbn; split_and!; try done; try lia; eauto 6 with uint.

Section channel_ops.
Context (s : mhu_frame) (channel value : Z).
Hypothesis Hs : frame_ok s.
Hypothesis Hc : 0 <= channel < DBCH_CHANNELS.
Hypothesis Hv : is_u32 value.

Lemma words_get l i : words_ok l -> is_u32 (arr_get l i).
Proof. by apply arr_ok_get. Qed.

Lemma words_set l i v : words_ok l -> is_u32 v -> words_ok (arr_set i v l).
Proof. by apply arr_ok_set. Qed.

Hint Resolve words_get words_set : uint.

Lemma set_status_ok : frame_ok (set_status channel value s).
Proof using Hs Hc Hv. apply store_channel_ok; [done|]. frame_solve. Qed.
Lemma set_status_bits_ok : frame_ok (set_status_bits channel value s).
Proof using Hs Hc Hv. apply store_channel_ok; [done|]. frame_solve. Qed.
Lemma clear_status_bits_ok : frame_ok (clear_status_bits channel value s).
Proof using Hs Hc. apply store_channel_ok; [done|]. frame_solve. Qed.
Lemma set_mask_bits_ok : frame_ok (set_mask_bits channel value s).
Proof using Hs Hc Hv. apply store_channel_ok; [done|]. frame_solve. Qed.
Lemma clear_mask_bits_ok : frame_ok (clear_mask_bits channel value s).
Proof using Hs Hc. apply store_channel_ok; [done|]. frame_solve. Qed.
Lemma set_int_status_bits_ok : frame_ok (set_int_status_bits channel value s).
Proof using Hs Hc Hv. apply store_channel_ok; [done|]. frame_solve. Qed.
Lemma clear_int_status_bits_ok : frame_ok (clear_int_status_bits channel value s).
Proof using Hs Hc. apply store_channel_ok; [done|]. frame_solve. Qed.
Lemma set_int_enable_ok : frame_ok (set_int_enable channel value s).
Proof using Hs Hc Hv. apply store_channel_ok; [done|]. frame_solve. Qed.
Lemma set_ctrl_ok : frame_ok (set_ctrl channel value s).
Proof using Hs Hc Hv. apply store_channel_ok; [done|]. frame_solve. Qed.
End channel_ops.

Lemma foldl_frame_ok {A} (f : mhu_frame -> A -> mhu_frame) s l :
  (forall s x, x ∈ l -> frame_ok s -> frame_ok (f s x)) -> frame_ok s -> frame_ok (foldl f s l).
Proof.
  revert s. induction l as [|x l IH]; intros s Hf Hs; [done|]. cbn. apply IH.
  - intros s' y Hy. apply Hf. by right.
  - apply Hf; [by left|done].
Qed.

Lemma clear_all_ok s : frame_ok s -> frame_ok (clear_all_status s).
Proof.
  apply foldl_frame_ok. intros s' c Hc%elem_of_range Hs. apply set_status_ok; [done|done|by cbv].
Qed.

Lemma refresh_ok s : frame_ok s -> frame_ok (refresh_combined_irq_regs s).
Proof.
  apply foldl_frame_ok. intros s' w Hw%elem_of_range. apply store_ok. unfold CTRL_DBCH_INT_ST0. lia.
Qed.

Lemma configure_ok is_mbx count f0 f1 iidr aidr : 0 <= count ->
  frame_ok (configure is_mbx count f0 f1 iidr aidr new_frame).
Proof.
  intros Hcount. unfold configure. cbv zeta. apply refresh_ok, foldl_frame_ok.
  - intros s c Hc%elem_of_range. by apply store_channel_ok.
  - repeat (apply store_ok; [by cbv|]). unfold frame_ok, new_frame, DBCH_CHANNELS, words_ok. cbn.
    assert (arr_ok 128 32 (replicate (Z.to_nat 128) 0)) as Hz by (apply (arr_ok_replicate 128); by cbv).
    split; [apply mem_ok_empty|]. split; [exact Hz|]. split; [|do 3 (split; [exact Hz|]); lia].
    split; [by rewrite length_map, length_replicate|]. apply Forall_fmap, Forall_true. intros x. cbn. case_if; by cbv.
Qed.

(** * The combined interrupt *)

(** Bit [j] of word [w] is the request of channel [32 w + j]. *)
Lemma combined_testbit s word j : 0 <= j < 32 ->
  Z.testbit (combined_dbch_int_st s word) j = (word * 32 + j <? m_channel_count s) && asserted s (word * 32 + j).
Proof.
  intros Hj. unfold combined_dbch_int_st. cbv zeta. set (first := word * 32).
  set (n := Z.min (first + 32) (m_channel_count s) - first). destruct (Z.lt_ge_cases n 0) as [Hn|Hn].
  { unfold seqZ. replace (Z.to_nat n) with 0%nat by lia. cbn. rewrite Z.bits_0.
    by replace (first + j <? m_channel_count s) with false by lia. }
  assert (forall l acc, (forall c, c ∈ l -> 0 <= c - first < 32) ->
    Z.testbit (foldl (fun st c => if asserted s c then Z.lor st (shl 32 1 (c - first)) else st) acc l) j =
    Z.testbit acc j || existsb (fun c => (c =? first + j) && asserted s c) l) as H.
  { induction l as [|c l IH]; intros acc Hl; cbn [foldl existsb]; [by rewrite orb_false_r|].
    rewrite IH by (intros c' Hc'; apply Hl; by right).
    pose proof (Hl c ltac:(by left)) as Hc. rewrite orb_assoc. f_equal.
    destruct (asserted s c); [|by rewrite andb_false_r, orb_false_r].
    rewrite Z.lor_spec, shl_bit, bit_testbit, andb_true_r by lia. f_equal.
    destruct (Z.eqb_spec j (c - first)), (Z.eqb_spec c (first + j)); (done || lia). }
  rewrite H by (intros c Hc%elem_of_seqZ; lia). rewrite Z.bits_0. cbn [orb].
  destruct (Z.ltb_spec (first + j) (m_channel_count s)); cbn [andb].
  - destruct (asserted s (first + j)) eqn:E.
    + apply existsb_exists. exists (first + j). rewrite E, Z.eqb_refl. split; [|done].
      apply list_elem_of_In, elem_of_seqZ. lia.
    + apply not_true_iff_false. intros (c & _ & Hc)%existsb_exists. bool_hyps. subst c. congruence.
  - apply not_true_iff_false. intros (c & Hc & Hc')%existsb_exists. bool_hyps.
    apply list_elem_of_In, elem_of_seqZ in Hc. lia.
Qed.

Lemma combined_uint s word : is_u32 (combined_dbch_int_st s word).
Proof.
  unfold combined_dbch_int_st. cbv zeta. generalize (seqZ (word * 32) (Z.min (word * 32 + 32) (m_channel_count s) - word * 32)).
  assert (forall l acc, is_u32 acc -> is_u32 (foldl (fun st c => if asserted s c then Z.lor st (shl 32 1 (c - word * 32)) else st) acc l)) as H.
  { induction l as [|c l IH]; intros acc Hacc; [done|]. cbn [foldl]. apply IH. case_if; [|done].
    apply lor_uint; [lia|done|]. unfold shl. apply wrap_range. lia. }
  intros l. apply H. by cbv.
Qed.

Lemma combined_nonzero s word : negb (combined_dbch_int_st s word =? 0) = true <->
  exists j, 0 <= j < 32 /\ word * 32 + j < m_channel_count s /\ asserted s (word * 32 + j) = true.
Proof.
  rewrite negb_true_iff, Z.eqb_neq. split.
  - intros Hne. pose proof (combined_uint s word) as Hu.
    assert (0 <= Z.log2 (combined_dbch_int_st s word) < 32) as Hl.
    { split; [apply Z.log2_nonneg|]. apply Z.log2_lt_pow2; [destruct Hu; lia|apply Hu]. }
    pose proof (Z.bit_log2 (combined_dbch_int_st s word) ltac:(destruct Hu; lia)) as Hb.
    rewrite combined_testbit in Hb by done. bool_hyps. eexists. split; [exact Hl|]. split; [lia|done].
  - intros (j & Hj & Hc & Ha) E. pose proof (combined_testbit s word j Hj) as Hb.
    rewrite E, Z.bits_0, Ha, andb_true_r in Hb. lia.
Qed.

(** The interrupt of a frame is the request of any of its channels. *)
Lemma any_combined_spec s : m_channel_count s <= DBCH_CHANNELS ->
  any_combined_irq s = existsb (asserted s) (range (m_channel_count s)).
Proof.
  unfold DBCH_CHANNELS. intros Hc. apply eq_true_iff_eq. unfold any_combined_irq. rewrite !existsb_range. split.
  - intros (w & Hw & Hn). apply combined_nonzero in Hn as (j & Hj & Hlt & Ha). exists (w * 32 + j). split; [lia|done].
  - intros (c & Hc' & Ha). exists (c / 32). pose proof (Z.div_mod c 32 ltac:(lia)). pose proof (Z.mod_pos_bound c 32 ltac:(lia)).
    split; [lia|]. apply combined_nonzero. exists (c mod 32). replace (c / 32 * 32 + c mod 32) with c by lia. split_and!; (done || lia).
Qed.

Lemma any_combined_same s s' : same_channels s s' -> any_combined_irq s' = any_combined_irq s.
Proof.
  intros H. unfold any_combined_irq. apply existsb_ext_in. intros w _. do 2 f_equal. unfold combined_dbch_int_st. cbv zeta.
  destruct (same_channels_fields _ _ H) as (_ & _ & _ & _ & _ & _ & ->). apply foldl_ext_in. intros a c _.
  by rewrite (asserted_same _ _ _ H).
Qed.
