(* ===== verification/MhuDevice.v ===== *)
(** One message handling unit [mhu320ae]
    (systemc-components/mhu320ae/include/mhu320ae.h): its configuration, the
    state next to the frame, the signals it drives, its accesses to system
    memory, and the byte-vector helpers of the message responders. *)

From Stdlib Require Import String Ascii.
From S2P Require Import Prelude Bytes Vectors Tlm Memory MhuFrame.

(** * Constants *)

Definition SCMI_PERF_DOMAIN_COUNT : Z := 1.
Definition PSA_MAX_IOVEC : Z := 4.
Definition TFM_MEASUREMENT_SLOT_COUNT : Z := 32.
Definition SCMI_SYS_POWER_SHUTDOWN : Z := 0.
Definition SCMI_SYS_POWER_COLD_RESET : Z := 1.
Definition SCMI_SYS_POWER_WARM_RESET : Z := 2.

(** * Configuration and state *)

(** The CCI parameters, and which output sockets are bound. *)
(** [mhu320ae.h: "cci::cci_param<std::string> p_pair;" .. "cci::cci_param<std::string> p_trace_file;"] *)
Record mhu_config := MkMhuConfig {
  p_pair : string;
  p_protocol : string;
  p_frame : string;
  p_channel_count : Z;
  p_feat_spt0 : Z;
  p_feat_spt1 : Z;
  p_iidr : Z;
  p_aidr : Z;
  p_direct_boot_compat : bool;
  p_scmi_transport : string;
  p_tx_shmem : Z;
  p_rx_shmem : Z;
  p_scmi_channel_stride : Z;
  p_scmi_channel_base_index : Z;
  p_scmi_channel_count : Z;
  p_init_shmem : bool;
  p_ack_bit : Z;
  p_power_domain_version : Z;
  p_sys_power_version : Z;
  p_power_domain_attributes : Z;
  p_power_domain_name : string;
  p_assert_power_on_reset : bool;
  p_power_domain_reset_delay_ns : Z;
  p_power_domain_reset_assert_on_power_off : bool;
  p_power_domain_reset_pulse_on_power_on : bool;
  p_system_power_reset_delay_ns : Z;
  p_system_power_reset_pulse_width_ns : Z;
  p_doorbell_ack_trigger_channel : Z;
  p_doorbell_ack_trigger_value : Z;
  p_doorbell_ack_channel : Z;
  p_doorbell_ack_value : Z;
  p_doorbell_ack_seed_address : Z;
  p_rpmsg_ns_enable : bool;
  p_rpmsg_ns_name : string;
  p_rpmsg_ns_remote_addr : Z;
  p_rpmsg_ns_vring_address : Z;
  p_rpmsg_ns_vring_num : Z;
  p_rpmsg_ns_vring_align : Z;
  p_rpmsg_ns_signal_channel : Z;
  p_rpmsg_ns_signal_value : Z;
  p_rpmsg_ns_signal_delay_ns : Z;
  p_rpmsg_ns_poll_period_ns : Z;
  p_rpmsg_ns_max_polls : Z;
  p_synthetic_txdone_delay_ns : Z;
  (** What [load_doorbell_ack_seed_words] (MhuSeed) finds in the configuration. *)
  seed_words : list Z;
  irq_bound : bool;
  power_on_reset_bound : bool;
  power_domain_reset_bound : list bool
}.

(** [mhu320ae.h: "struct ps_entry {" .. "};"] *)
Record ps_entry := PsEntry { ps_data : list Z; ps_flags : Z }.

(** [mhu320ae.h: "struct measurement_entry {" .. "};"] *)
Record measurement_entry := Measurement {
  valid : bool;
  locked : bool;
  algorithm : Z;
  sw_type : list Z;
  version : list Z;
  signer_id : list Z;
  measurement : list Z
}.

Definition no_measurement : measurement_entry := Measurement false false 0 [] [] [] [].

(** [mhu320ae.h: "struct synthetic_postbox_completion {" .. "};"] *)
Record synthetic_postbox_completion := Completion { c_channel : Z; c_mask : Z }.

(** The kernel events a device notifies, and what it does on its outputs. *)
Inductive mhu_event :=
| PowerOnResetEvent | PowerDomainResetEvent | SystemPowerResetEvent
| RpmsgNsEvent | SyntheticPostboxCompletionEvent.

Inductive mhu_signal :=
| SigIrq (level : bool)
| SigPowerOnReset (asserted : bool)
| SigPowerDomainReset (domain_id : Z) (asserted : bool)
| SigSystemReset (asserted : bool)
| Notify (event : mhu_event) (delay_ns : Z)
| Wait (delay_ns : Z).

(** [outputs]: what the device did on its outputs, oldest first. *)
(** [mhu320ae.h: "mhu320ae_frame_model m_frame;" .. "std::array<measurement_entry, TFM_MEASUREMENT_SLOT_COUNT> m_measurements {};"] *)
Record mhu320ae := MkMhu {
  m_frame : mhu_frame;
  m_power_domain_states : list Z;
  m_performance_levels : list Z;
  m_power_domain_state : Z;
  m_pending_power_on_reset : bool;
  m_pending_power_domain_reset_valid : bool;
  m_pending_power_domain_reset_id : Z;
  m_pending_power_domain_reset_state : Z;
  m_pending_system_power_reset_valid : bool;
  m_pending_system_power_state : Z;
  m_rpmsg_ns_pending : bool;
  m_rpmsg_ns_sent : bool;
  m_rpmsg_ns_last_avail_idx : Z;
  m_rpmsg_ns_poll_count : Z;
  m_synthetic_postbox_completions : list synthetic_postbox_completion;
  m_ps_store : gmap Z ps_entry;
  m_measurements : list measurement_entry;
  outputs : list mhu_signal
}.

#[export] Instance eta_mhu320ae : Eta mhu320ae := fun s =>
  MkMhu (m_frame s) (m_power_domain_states s) (m_performance_levels s) (m_power_domain_state s)
    (m_pending_power_on_reset s) (m_pending_power_domain_reset_valid s) (m_pending_power_domain_reset_id s)
    (m_pending_power_domain_reset_state s) (m_pending_system_power_reset_valid s)
    (m_pending_system_power_state s) (m_rpmsg_ns_pending s) (m_rpmsg_ns_sent s) (m_rpmsg_ns_last_avail_idx s)
    (m_rpmsg_ns_poll_count s) (m_synthetic_postbox_completions s) (m_ps_store s) (m_measurements s) (outputs s).

(** A device as constructed. *)
Definition new_mhu : mhu320ae :=
  MkMhu new_frame (replicate 256 0) (replicate (Z.to_nat SCMI_PERF_DOMAIN_COUNT) 0) 0 false false 0 0 false 0
    false false 0 0 [] ∅ (replicate (Z.to_nat TFM_MEASUREMENT_SLOT_COUNT) no_measurement) [].

Definition emit (x : mhu_signal) (s : mhu320ae) : mhu320ae := s <| outputs ::= fun l => l ++ [x] |>.

(** * Byte vectors *)

(** [mhu320ae.h: append_u32] *)
Definition append_u32 (out : list Z) (value : Z) : list Z :=
  out ++ [Z.land value 0xff; Z.land (Z.shiftr value 8) 0xff; Z.land (Z.shiftr value 16) 0xff;
          Z.land (Z.shiftr value 24) 0xff].

(** [mhu320ae.h: append_u16] *)
Definition append_u16 (out : list Z) (value : Z) : list Z :=
  out ++ [Z.land value 0xff; Z.land (Z.shiftr value 8) 0xff].

(** [mhu320ae.h: read_le32] *)
Definition read_le32 (inp : list Z) (offset : Z) : Z :=
  if vec_size inp <? u64 (offset + 4) then 0
  else Z.lor (Z.lor (Z.lor (arr_get inp offset) (shl 32 (arr_get inp (offset + 1)) 8))
                    (shl 32 (arr_get inp (offset + 2)) 16))
             (shl 32 (arr_get inp (offset + 3)) 24).

(** [mhu320ae.h: read_le16] *)
Definition read_le16 (inp : list Z) (offset : Z) : Z :=
  if vec_size inp <? u64 (offset + 2) then 0
  else u16 (Z.lor (arr_get inp offset) (Z.shiftl (arr_get inp (offset + 1)) 8)).

(** [mhu320ae.h: read_le64] *)
Definition read_le64 (inp : list Z) (offset : Z) : Z :=
  if vec_size inp <? u64 (offset + 8) then 0
  else foldl (fun value byte => Z.lor value (shl 64 (arr_get inp (offset + byte)) (byte * 8))) 0 (range 8).

(** [mhu320ae.h: align_up] *)
Definition align_up (value align : Z) : Z :=
  if align =? 0 then value else Z.land (u64 (value + align - 1)) (not64 (u64 (align - 1))).

(** The bytes of a C string: up to the first NUL. *)
Fixpoint c_str (s : string) : list Z :=
  match s with
  | EmptyString => []
  | String c s => let b := Z.of_N (N_of_ascii c) in if b =? 0 then [] else b :: c_str s
  end.

(** [std::strncpy] of at most [n] bytes into [size] zero bytes. *)
Definition strncpy_zeros (size n : Z) (s : string) : list Z :=
  let bytes := take (Z.to_nat n) (c_str s) in bytes ++ replicate (Z.to_nat size - length bytes) 0.

(** [mhu320ae.h: fixed_string] *)
Definition fixed_string (value : string) : list Z := strncpy_zeros 16 15 value.

(** [mhu320ae.h: fixed_param_string] *)
Definition fixed_param_string (value : string) : list Z := strncpy_zeros 16 15 value.

(** * Accesses to system memory *)

Section memory.
Context {B : Type} {bus : TlmTarget B}.

(** What a transaction of the device returns: the bus, whether the response is
    ok, and the buffer. *)
(** [mhu320ae.h: mem_access] *)
Definition mem_access (command : tlm_command) (address : Z) (data : list Z) (len : Z) (b : B) : B * bool * list Z :=
  let '(b, t) := target_b_transport tlm_access b
                   (Payload command address (Some data) len TLM_INCOMPLETE_RESPONSE false) in
  (b, is_response_ok t, default [] (data_ptr t)).

(** [mhu320ae.h: mem_read32] *)
Definition mem_read32 (address : Z) (b : B) : B * Z :=
  let '(b, _, value) := mem_access TLM_READ_COMMAND address (le_bytes 4 0) 4 b in (b, le_val value).

(** [mhu320ae.h: mem_read16] *)
Definition mem_read16 (address : Z) (b : B) : B * Z :=
  let '(b, _, value) := mem_access TLM_READ_COMMAND address (le_bytes 2 0) 2 b in (b, le_val value).

(** [mhu320ae.h: mem_read64] *)
Definition mem_read64 (address : Z) (b : B) : B * Z :=
  let '(b, _, value) := mem_access TLM_READ_COMMAND address (le_bytes 8 0) 8 b in (b, le_val value).

(** [mhu320ae.h: mem_write] *)
Definition mem_write_vec (address : Z) (data : list Z) (len : Z) (b : B) : B :=
  fst (fst (mem_access TLM_WRITE_COMMAND address (take (Z.to_nat len) data) len b)).

(** [mhu320ae.h: mem_write32] *)
Definition mem_write32 (address value : Z) (b : B) : B := mem_write_vec address (le_bytes 4 value) 4 b.

(** [mhu320ae.h: mem_write16] *)
Definition mem_write16 (address value : Z) (b : B) : B := mem_write_vec address (le_bytes 2 value) 2 b.

(** [mhu320ae.h: mem_read_bytes] *)
Definition mem_read_bytes (address : Z) (out : list Z) (b : B) : B * bool * list Z :=
  if vec_size out =? 0 then (b, true, out) else mem_access TLM_READ_COMMAND address out (u32 (vec_size out)) b.

(** [mhu320ae.h: mem_write_bytes] *)
Definition mem_write_bytes (address : Z) (inp : list Z) (b : B) : B * bool :=
  if vec_size inp =? 0 then (b, true)
  else fst (mem_access TLM_WRITE_COMMAND address inp (u32 (vec_size inp)) b).
End memory.

(** * The device on its own *)

Section device.
Context (cfg : mhu_config).

(** [mhu320ae.h: is_mbx] *)
Definition is_mbx : bool := (p_frame cfg =? "mbx")%string.

(** [mhu320ae.h: channel_count] *)
Definition channel_count : Z := Z.max 1 (Z.min (p_channel_count cfg) DBCH_CHANNELS).

(** [mhu320ae.h: notify_channel] *)
Definition notify_channel : Z := channel_count - 1.

(** [mhu320ae.h: scmi_channel_in_range] *)
Definition scmi_channel_in_range (channel : Z) : bool :=
  let base := p_scmi_channel_base_index cfg in
  (base <=? channel) && (channel - base <? p_scmi_channel_count cfg).

(** [mhu320ae.h: scmi_shmem] *)
Definition scmi_shmem (channel : Z) : Z :=
  let base := p_scmi_channel_base_index cfg in
  let slot := if base <=? channel then channel - base else channel in
  u64 (p_tx_shmem cfg + u64 (p_scmi_channel_stride cfg * slot)).

(** [mhu320ae.h: write_power_on_reset] *)
Definition write_power_on_reset (asserted : bool) (s : mhu320ae) : mhu320ae :=
  if power_on_reset_bound cfg then emit (SigPowerOnReset asserted) s else s.

(** [mhu320ae.h: write_power_domain_reset] *)
Definition write_power_domain_reset (domain_id : Z) (asserted : bool) (s : mhu320ae) : mhu320ae :=
  if (domain_id <? vec_size (power_domain_reset_bound cfg)) &&
     default false (power_domain_reset_bound cfg !! Z.to_nat domain_id)
  then emit (SigPowerDomainReset domain_id asserted) s else s.

(** [mhu320ae.h: write_system_reset] *)
Definition write_system_reset (asserted : bool) (s : mhu320ae) : mhu320ae := emit (SigSystemReset asserted) s.

(** [mhu320ae.h: power_state_is_on] *)
Definition power_state_is_on (power_state : Z) : bool := Z.land power_state 0xf =? 1.

(** [mhu320ae.h: power_state_is_off] *)
Definition power_state_is_off (power_state : Z) : bool := Z.land power_state 0xf =? 0.

(** [mhu320ae.h: sys_power_state_is_reset] *)
Definition sys_power_state_is_reset (system_state : Z) : bool :=
  (system_state =? SCMI_SYS_POWER_COLD_RESET) || (system_state =? SCMI_SYS_POWER_WARM_RESET).

(** [mhu320ae.h: drive_power_domain_reset] *)
Definition drive_power_domain_reset (domain_id power_state : Z) (s : mhu320ae) : mhu320ae :=
  if power_state_is_on power_state then
    let s := if p_power_domain_reset_pulse_on_power_on cfg then write_power_domain_reset domain_id true s else s in
    write_power_on_reset false (write_power_domain_reset domain_id false s)
  else if power_state_is_off power_state then
    if p_power_domain_reset_assert_on_power_off cfg then
      write_power_on_reset true (write_power_domain_reset domain_id true s)
    else s
  else s.

(** [mhu320ae.h: apply_power_domain_state] *)
Definition apply_power_domain_state (domain_id power_state : Z) (s : mhu320ae) : mhu320ae :=
  let s := if domain_id <? 256 then s <| m_power_domain_states ::= arr_set domain_id power_state |> else s in
  let s := s <| m_power_domain_state := power_state |> in
  let s := s <| m_pending_power_domain_reset_id := domain_id |>
             <| m_pending_power_domain_reset_state := power_state |>
             <| m_pending_power_domain_reset_valid := true |> in
  emit (Notify PowerDomainResetEvent (p_power_domain_reset_delay_ns cfg)) s.

(** [mhu320ae.h: read_power_domain_state] *)
Definition read_power_domain_state (s : mhu320ae) (domain_id : Z) : Z :=
  if domain_id <? 256 then arr_get (m_power_domain_states s) domain_id else m_power_domain_state s.

(** [mhu320ae.h: schedule_power_on_reset] *)
Definition schedule_power_on_reset (asserted : bool) (s : mhu320ae) : mhu320ae :=
  emit (Notify PowerOnResetEvent 0) (s <| m_pending_power_on_reset := asserted |>).

(** [mhu320ae.h: emit_power_on_reset] *)
Definition emit_power_on_reset (s : mhu320ae) : mhu320ae := write_power_on_reset (m_pending_power_on_reset s) s.

(** One turn of the thread, from one event to the next. *)
(** [mhu320ae.h: emit_power_domain_reset] *)
Definition emit_power_domain_reset (s : mhu320ae) : mhu320ae :=
  if negb (m_pending_power_domain_reset_valid s) then s
  else
    let domain_id := m_pending_power_domain_reset_id s in
    let power_state := m_pending_power_domain_reset_state s in
    let s := s <| m_pending_power_domain_reset_valid := false |> in
    drive_power_domain_reset domain_id power_state s.

(** [mhu320ae.h: schedule_system_power_reset] *)
Definition schedule_system_power_reset (system_state : Z) (s : mhu320ae) : mhu320ae :=
  if negb (sys_power_state_is_reset system_state) then s
  else
    let s := s <| m_pending_system_power_state := system_state |>
               <| m_pending_system_power_reset_valid := true |> in
    emit (Notify SystemPowerResetEvent (p_system_power_reset_delay_ns cfg)) s.

(** One turn of the thread, from one event to the next. *)
(** [mhu320ae.h: emit_system_power_reset] *)
Definition emit_system_power_reset (s : mhu320ae) : mhu320ae :=
  if negb (m_pending_system_power_reset_valid s) then s
  else
    let s := s <| m_pending_system_power_reset_valid := false |> in
    let s := write_system_reset true s in
    let s := emit (Wait (p_system_power_reset_pulse_width_ns cfg)) s in
    write_system_reset false s.

(** [mhu320ae.h: update_combined_irq] *)
Definition update_combined_irq (s : mhu320ae) : mhu320ae :=
  let s := s <| m_frame ::= refresh_combined_irq_regs |> in
  if irq_bound cfg then emit (SigIrq (any_combined_irq (m_frame s))) s else s.

(** [mhu320ae.h: signal_doorbell_channel] *)
Definition signal_doorbell_channel (channel value : Z) (s : mhu320ae) : mhu320ae :=
  if channel_count <=? channel then s
  else update_combined_irq (s <| m_frame ::= set_status_bits channel value |>).

(** [mhu320ae.h: signal_doorbell] *)
Definition signal_doorbell (b : Z) (s : mhu320ae) : mhu320ae :=
  if 32 <=? b then s else signal_doorbell_channel 0 (shl 32 1 b) s.

(** [mhu320ae.h: clear_postbox_doorbell_channel] *)
Definition clear_postbox_doorbell_channel (channel mask : Z) (s : mhu320ae) : mhu320ae :=
  if channel_count <=? channel then s
  else
    let had_pending_transfer := test (status (m_frame s) channel) mask in
    let ack_empty_transfer :=
      negb (p_pair cfg =? "ap_si_cl1")%string || negb (p_protocol cfg =? "doorbell")%string in
    let s := s <| m_frame ::= clear_status_bits channel mask |> in
    let s := if had_pending_transfer || ack_empty_transfer then s <| m_frame ::= set_int_status_bits channel 1 |> else s in
    update_combined_irq s.

(** [mhu320ae.h: set_mbx_mask] *)
Definition set_mbx_mask (channel mask : Z) (s : mhu320ae) : mhu320ae :=
  update_combined_irq (s <| m_frame ::= set_mask_bits channel mask |>).

(** [mhu320ae.h: clear_mbx_mask] *)
Definition clear_mbx_mask (channel mask : Z) (s : mhu320ae) : mhu320ae :=
  update_combined_irq (s <| m_frame ::= clear_mask_bits channel mask |>).

(** [mhu320ae.h: clear_postbox_interrupt] *)
Definition clear_postbox_interrupt (channel mask : Z) (s : mhu320ae) : mhu320ae :=
  update_combined_irq (s <| m_frame ::= clear_int_status_bits channel mask |>).

(** [mhu320ae.h: complete_synthetic_postbox_transfer] *)
Definition complete_synthetic_postbox_transfer (channel mask : Z) (s : mhu320ae) : mhu320ae :=
  if (channel_count <=? channel) || (mask =? 0) then s
  else
    let s := s <| m_synthetic_postbox_completions ::= fun q => q ++ [Completion channel mask] |> in
    emit (Notify SyntheticPostboxCompletionEvent (p_synthetic_txdone_delay_ns cfg)) s.

(** The loop; each turn removes the front of the queue, so the length of the
    queue is fuel enough. *)
(** [mhu320ae.h: "while (!m_synthetic_postbox_completions.empty()) {" .. "completion.mask);"] *)
Fixpoint drain_completions (fuel : nat) (s : mhu320ae) : mhu320ae :=
  match fuel with
  | O => s
  | S fuel =>
      match m_synthetic_postbox_completions s with
      | [] => s
      | completion :: rest =>
          let s := s <| m_synthetic_postbox_completions := rest |> in
          drain_completions fuel (clear_postbox_doorbell_channel (c_channel completion) (c_mask completion) s)
      end
  end.

(** [mhu320ae.h: emit_synthetic_postbox_completions] *)
Definition emit_synthetic_postbox_completions (s : mhu320ae) : mhu320ae :=
  drain_completions (length (m_synthetic_postbox_completions s)) s.

(** [mhu320ae.h: schedule_rpmsg_ns_injection] *)
Definition schedule_rpmsg_ns_injection (s : mhu320ae) : mhu320ae :=
  if negb (p_rpmsg_ns_enable cfg) || m_rpmsg_ns_sent s then s
  else emit (Notify RpmsgNsEvent 0) (s <| m_rpmsg_ns_pending := true |>).

(** [mhu320ae.h: "for (unsigned int byte = 0; byte < sizeof(word) && msg.size() < length;" .. "msg.push_back((word >> (byte * 8)) & 0xffu);"] *)
Definition push_word_bytes (length_ word : Z) (msg : list Z) : list Z :=
  foldl (fun msg byte => if vec_size msg <? length_ then msg ++ [Z.land (Z.shiftr word (byte * 8)) 0xff] else msg)
    msg (range 4).

(** [mhu320ae.h: read_doorbell_message] *)
Definition read_doorbell_message (s : mhu320ae) : list Z :=
  let length_ := status (m_frame s) 0 in
  foldl (fun msg channel =>
           if vec_size msg <? length_ then push_word_bytes length_ (status (m_frame s) channel) msg else msg)
    [] (seqZ 1 (notify_channel - 1)).

(** The word of a message at [offset]. *)
(** [mhu320ae.h: "uint32_t word = 0;" .. "word |= static_cast<uint32_t>(msg[offset + byte]) << (byte * 8);"] *)
Definition message_word (msg : list Z) (offset : Z) : Z :=
  let chunk := Z.min 4 (vec_size msg - offset) in
  foldl (fun word byte => Z.lor word (shl 32 (arr_get msg (offset + byte)) (byte * 8))) 0 (range chunk).

(** The loop over the words of [msg]: one channel each, up to the notification
    channel. *)
(** [mhu320ae.h: "for (size_t offset = 0; offset < msg.size() && channel < notify;" .. "m_frame.set_status(channel, word);"] *)
Definition load_words (msg : list Z) (f : mhu_frame) : mhu_frame :=
  foldl (fun f channel =>
           let offset := 4 * (channel - 1) in
           if offset <? vec_size msg then set_status channel (message_word msg offset) f else f)
    f (seqZ 1 (notify_channel - 1)).

(** [mhu320ae.h: load_mbx_message] *)
Definition load_mbx_message (msg : list Z) (s : mhu320ae) : mhu320ae :=
  let s := s <| m_frame ::= clear_all_status |> in
  let s := s <| m_frame ::= set_status 0 (u32 (vec_size msg)) |> in
  let s := s <| m_frame ::= load_words msg |> in
  let s := s <| m_frame ::= set_status notify_channel MHU_NOTIFY_VALUE |> in
  update_combined_irq s.

(** [mhu320ae.h: clear_postbox_transfer] *)
Definition clear_postbox_transfer (s : mhu320ae) : mhu320ae :=
  let s := s <| m_frame ::= clear_all_status |> in
  let s := s <| m_frame ::= set_int_status_bits notify_channel 1 |> in
  update_combined_irq s.
End device.
