(* ===== verification/MhuScmi.v ===== *)
(** The SCMI responders of the message handling unit
    (systemc-components/mhu320ae/include/mhu320ae.h): base, power domain, system
    power, performance and PFDI monitor protocols, each from a request to a
    status and a payload, and the messages in shared memory. *)

From Stdlib Require Import String.
From S2P Require Import Prelude Bytes Vectors Tlm Memory MhuFrame MhuDevice.

(** * Constants *)

Definition SCMI_CHAN_STATUS : Z := 0x04.
Definition SCMI_LENGTH : Z := 0x14.
Definition SCMI_HEADER : Z := 0x18.
Definition SCMI_PAYLOAD : Z := 0x1c.
Definition SCMI_CHAN_FREE : Z := 1.
Definition SCMI_SUCCESS : Z := 0.
Definition SCMI_ERR_SUPPORT : Z := u32 (-1).
Definition SCMI_ERR_PARAM : Z := u32 (-2).
Definition SCMI_PROTOCOL_BASE : Z := 0x10.
Definition SCMI_PROTOCOL_POWER_DOMAIN : Z := 0x11.
Definition SCMI_PROTOCOL_SYS_POWER : Z := 0x12.
Definition SCMI_PROTOCOL_PERFORMANCE : Z := 0x13.
Definition SCMI_PROTOCOL_PFDI_MONITOR : Z := 0x90.
Definition SCMI_MSG_PROTOCOL_MESSAGE_ATTRIBUTES : Z := 0x2.
Definition SCMI_SYS_POWER_STATE_SET : Z := 0x3.
Definition SCMI_SYS_POWER_STATE_NOTIFY : Z := 0x5.
Definition SCMI_PERFORMANCE_VERSION : Z := 0x00040000.
Definition SCMI_PERF_DOMAIN_ATTRIBUTES : Z := 0x3.
Definition SCMI_PERF_DESCRIBE_LEVELS : Z := 0x4.
Definition SCMI_PERF_LIMITS_SET : Z := 0x5.
Definition SCMI_PERF_LIMITS_GET : Z := 0x6.
Definition SCMI_PERF_LEVEL_SET : Z := 0x7.
Definition SCMI_PERF_LEVEL_GET : Z := 0x8.
Definition SCMI_PERF_NOTIFY_LIMITS : Z := 0x9.
Definition SCMI_PERF_NOTIFY_LEVEL : Z := 0xa.
Definition SCMI_PERF_OPP_COUNT : Z := 3.
Definition SCMI_PERF_MIN_LEVEL : Z := 1000.
Definition SCMI_PERF_MAX_LEVEL : Z := 2000.
Definition SCMI_PERF_SUSTAINED_FREQ_KHZ : Z := 2000000.
Definition SCMI_PERF_DOMAIN_SUPPORTS_SET_LIMITS : Z := bit 31.
Definition SCMI_PERF_DOMAIN_SUPPORTS_SET_LEVEL : Z := bit 30.
Definition SCMI_PERF_DOMAIN_SUPPORTS_LIMIT_NOTIFY : Z := bit 29.
Definition SCMI_PERF_DOMAIN_SUPPORTS_LEVEL_NOTIFY : Z := bit 28.
Definition SCMI_PFDI_MONITOR_VERSION : Z := 0x00020000.

(** * Messages *)

(** [mhu320ae.h: msg_id] *)
Definition msg_id (header : Z) : Z := Z.land header 0xff.

(** [mhu320ae.h: protocol_id] *)
Definition protocol_id (header : Z) : Z := Z.land (Z.shiftr header 10) 0xff.

(** What a responder leaves: the device, the status word and the payload. *)
Definition scmi_reply : Type := mhu320ae * Z * list Z.

Section scmi.
Context (cfg : mhu_config).

(** [mhu320ae.h: scmi_supported_protocols] *)
Definition scmi_supported_protocols : list Z :=
  if (p_scmi_transport cfg =? "pfdi-monitor")%string then [SCMI_PROTOCOL_BASE; SCMI_PROTOCOL_PFDI_MONITOR]
  else [SCMI_PROTOCOL_BASE; SCMI_PROTOCOL_POWER_DOMAIN; SCMI_PROTOCOL_SYS_POWER; SCMI_PROTOCOL_PERFORMANCE].

(** Zeros up to a multiple of four; three turns are enough. *)
(** [mhu320ae.h: "while ((payload.size() - sizeof(uint32_t)) % sizeof(uint32_t) != 0) {" .. "payload.push_back(0);"] *)
Fixpoint pad_words (fuel : nat) (payload : list Z) : list Z :=
  match fuel with
  | O => payload
  | S fuel => if negb ((vec_size payload - 4) mod 4 =? 0) then pad_words fuel (payload ++ [0]) else payload
  end.

(** [mhu320ae.h: respond_scmi_base] *)
Definition respond_scmi_base (header status : Z) (payload : list Z) : Z * list Z :=
  match msg_id header with
  | 0x0 => (status, append_u32 payload 0x00020001)
  | 0x1 => (status, [u8 (vec_size scmi_supported_protocols); 1; 0; 0])
  | 0x2 => (status, append_u32 payload 0)
  | 0x3 => (status, fixed_string "QBox")
  | 0x4 => (status, fixed_string "RD-Aspen")
  | 0x5 => (status, append_u32 payload 1)
  | 0x6 =>
      let protocols := scmi_supported_protocols in
      (status, pad_words 3 (append_u32 payload (u32 (vec_size protocols)) ++ protocols))
  | 0x7 => (status, append_u32 payload 0 ++ fixed_string "platform")
  | 0x8 => (status, payload)
  | _ => (SCMI_ERR_SUPPORT, payload)
  end.

(** [mhu320ae.h: respond_scmi_power_domain] *)
Definition respond_scmi_power_domain (header : Z) (request : list Z) (status : Z) (payload : list Z)
    (s : mhu320ae) : scmi_reply :=
  match msg_id header with
  | 0x0 => (s, status, append_u32 payload (p_power_domain_version cfg))
  | 0x2 =>
      match read_le32 request 0 with
      | 0x4 | 0x5 => (s, status, append_u32 payload 0)
      | _ => (s, SCMI_ERR_SUPPORT, append_u32 payload 0)
      end
  | 0x3 =>
      (s, status, append_u32 payload (p_power_domain_attributes cfg) ++ fixed_param_string (p_power_domain_name cfg))
  | 0x4 => (apply_power_domain_state cfg (read_le32 request 4) (read_le32 request 8) s, status, payload)
  | 0x5 => (s, status, append_u32 payload (read_power_domain_state s (read_le32 request 0)))
  | _ => (s, SCMI_ERR_SUPPORT, payload)
  end.

(** [mhu320ae.h: respond_scmi_sys_power] *)
Definition respond_scmi_sys_power (header : Z) (request : list Z) (status : Z) (payload : list Z)
    (s : mhu320ae) : scmi_reply :=
  match msg_id header with
  | 0x0 => (s, status, append_u32 payload (p_sys_power_version cfg))
  | 0x2 =>
      let status := match read_le32 request 0 with 0x3 | 0x5 => status | _ => SCMI_ERR_SUPPORT end in
      (s, status, append_u32 payload 0)
  | 0x3 =>
      let system_state := read_le32 request 4 in
      (schedule_system_power_reset cfg system_state s, status, payload)
  | 0x5 => (s, status, payload)
  | _ => (s, SCMI_ERR_SUPPORT, payload)
  end.

(** [mhu320ae.h: "const auto valid_domain = [](uint32_t domain) {" .. "};"] *)
Definition valid_domain (domain : Z) : bool := domain <? SCMI_PERF_DOMAIN_COUNT.

(** [mhu320ae.h: "const auto opp_level = [](unsigned int index) {" .. "return 2000u;"] *)
Definition opp_level (index : Z) : Z := match index with 0 => 1000 | 1 => 1500 | _ => 2000 end.

(** [mhu320ae.h: "const auto opp_power = [](unsigned int index) {" .. "return 300u;"] *)
Definition opp_power (index : Z) : Z := match index with 0 => 100 | 1 => 200 | _ => 300 end.

(** [mhu320ae.h: "const auto append_opp = [&](unsigned int index) {" .. "append_u32(payload, index);"] *)
Definition append_opp (payload : list Z) (index : Z) : list Z :=
  let level := opp_level index in
  let payload := append_u32 payload level in
  let payload := append_u32 payload (opp_power index) in
  let payload := append_u16 payload 1000 in
  let payload := append_u16 payload 0 in
  let payload := append_u32 payload (u32 (level * 1000)) in
  append_u32 payload index.

(** [std::to_string] of a domain number; only domain 0 exists. *)
Definition domain_name (domain : Z) : string := if domain =? 0 then "APCPU0" else "APCPU".

(** [mhu320ae.h: respond_scmi_performance] *)
Definition respond_scmi_performance (header : Z) (request : list Z) (status : Z) (payload : list Z)
    (s : mhu320ae) : scmi_reply :=
  let domain := read_le32 request 0 in
  match msg_id header with
  | 0x0 => (s, status, append_u32 payload SCMI_PERFORMANCE_VERSION)
  | 0x1 =>
      let payload := append_u16 (append_u16 payload SCMI_PERF_DOMAIN_COUNT) 0 in
      (s, status, append_u32 (append_u32 (append_u32 payload 0) 0) 0)
  | 0x2 =>
      if domain <=? SCMI_PERF_NOTIFY_LEVEL then (s, status, append_u32 payload 0)
      else (s, SCMI_ERR_SUPPORT, append_u32 payload 0)
  | 0x3 =>
      if negb (valid_domain domain) then (s, SCMI_ERR_PARAM, payload)
      else
        let payload := append_u32 payload
          (Z.lor (Z.lor (Z.lor SCMI_PERF_DOMAIN_SUPPORTS_SET_LIMITS SCMI_PERF_DOMAIN_SUPPORTS_SET_LEVEL)
                        SCMI_PERF_DOMAIN_SUPPORTS_LIMIT_NOTIFY) SCMI_PERF_DOMAIN_SUPPORTS_LEVEL_NOTIFY) in
        let payload := append_u32 payload 0 in
        let payload := append_u32 payload SCMI_PERF_SUSTAINED_FREQ_KHZ in
        let payload := append_u32 payload SCMI_PERF_MAX_LEVEL in
        (s, status, payload ++ fixed_param_string (domain_name domain))
  | 0x4 =>
      let skip := read_le32 request 4 in
      if negb (valid_domain domain) then (s, SCMI_ERR_PARAM, payload)
      else
        let returned := if skip <? SCMI_PERF_OPP_COUNT then SCMI_PERF_OPP_COUNT - skip else 0 in
        let payload := append_u16 (append_u16 payload (u16 returned)) 0 in
        (s, status, foldl append_opp payload (seqZ skip (SCMI_PERF_OPP_COUNT - skip)))
  | 0x5 => (s, if negb (valid_domain domain) then SCMI_ERR_PARAM else status, payload)
  | 0x6 =>
      if negb (valid_domain domain) then (s, SCMI_ERR_PARAM, payload)
      else (s, status, append_u32 (append_u32 payload SCMI_PERF_MAX_LEVEL) SCMI_PERF_MIN_LEVEL)
  | 0x7 =>
      let level := read_le32 request 4 in
      if negb (valid_domain domain) then (s, SCMI_ERR_PARAM, payload)
      else
        (s <| m_performance_levels ::= arr_set domain (if negb (level =? 0) then level else SCMI_PERF_MAX_LEVEL) |>,
         status, payload)
  | 0x8 =>
      if negb (valid_domain domain) then (s, SCMI_ERR_PARAM, payload)
      else
        let level :=
          if negb (arr_get (m_performance_levels s) domain =? 0) then arr_get (m_performance_levels s) domain
          else SCMI_PERF_MAX_LEVEL in
        (s, status, append_u32 payload level)
  | 0x9 | 0xa => (s, if negb (valid_domain domain) then SCMI_ERR_PARAM else status, payload)
  | _ => (s, SCMI_ERR_SUPPORT, payload)
  end.

(** [mhu320ae.h: respond_scmi_pfdi_monitor] *)
Definition respond_scmi_pfdi_monitor (header status : Z) (payload : list Z) : Z * list Z :=
  match msg_id header with
  | 0x0 => (status, append_u32 payload SCMI_PFDI_MONITOR_VERSION)
  | 0x3 | 0x4 => (status, payload)
  | _ => (SCMI_ERR_SUPPORT, payload)
  end.

(** The switch over the protocols. *)
(** [mhu320ae.h: "switch (protocol_id(header)) {" .. "status = SCMI_ERR_SUPPORT;"] *)
Definition respond_protocol (header : Z) (request : list Z) (s : mhu320ae) : scmi_reply :=
  let protocol := protocol_id header in
  if protocol =? SCMI_PROTOCOL_BASE then
    let '(status, payload) := respond_scmi_base header SCMI_SUCCESS [] in (s, status, payload)
  else if protocol =? SCMI_PROTOCOL_POWER_DOMAIN then respond_scmi_power_domain header request SCMI_SUCCESS [] s
  else if protocol =? SCMI_PROTOCOL_SYS_POWER then respond_scmi_sys_power header request SCMI_SUCCESS [] s
  else if protocol =? SCMI_PROTOCOL_PERFORMANCE then respond_scmi_performance header request SCMI_SUCCESS [] s
  else if protocol =? SCMI_PROTOCOL_PFDI_MONITOR then
    if (p_scmi_transport cfg =? "pfdi-monitor")%string then
      let '(status, payload) := respond_scmi_pfdi_monitor header SCMI_SUCCESS [] in (s, status, payload)
    else (s, SCMI_ERR_SUPPORT, [])
  else (s, SCMI_ERR_SUPPORT, []).

(** * Shared memory *)

Section memory.
Context {B : Type} {bus : TlmTarget B}.

(** [mhu320ae.h: write_scmi_response] *)
Definition write_scmi_response (channel header status : Z) (payload : list Z) (b : B) : B :=
  let shmem := scmi_shmem cfg channel in
  let length := u32 (8 + vec_size payload) in
  let b := mem_write32 (u64 (shmem + SCMI_LENGTH)) length b in
  let b := mem_write32 (u64 (shmem + SCMI_HEADER)) header b in
  let b := mem_write32 (u64 (shmem + SCMI_PAYLOAD)) status b in
  let b :=
    if vec_size payload =? 0 then b
    else mem_write_vec (u64 (shmem + SCMI_PAYLOAD + 4)) payload (u32 (vec_size payload)) b in
  mem_write32 (u64 (shmem + SCMI_CHAN_STATUS)) SCMI_CHAN_FREE b.

(** [mhu320ae.h: read_scmi_request_payload] *)
Definition read_scmi_request_payload (channel length : Z) (b : B) : B * list Z :=
  let shmem := scmi_shmem cfg channel in
  if length <=? 4 then (b, [])
  else
    let payload := replicate (Z.to_nat (length - 4)) 0 in
    let '(b, _, payload) :=
      mem_access TLM_READ_COMMAND (u64 (shmem + SCMI_PAYLOAD)) payload (u32 (vec_size payload)) b in
    (b, payload).
End memory.
End scmi.
