(* ===== verification/MhuPsa.v ===== *)
(** The PSA services behind the message handling unit
    (systemc-components/mhu320ae/include/mhu320ae.h): the embedded and
    pointer-access request formats, protected storage, measured boot, the
    firmware update query, and the replies. *)

From Stdlib Require Import String.
From S2P Require Import Prelude Bytes Vectors Tlm Memory MhuFrame MhuDevice.

(** * Constants *)

Definition RSE_COMMS_PROTOCOL_EMBED : Z := 0.
Definition RSE_COMMS_PROTOCOL_POINTER_ACCESS : Z := 1.
Definition PSA_SUCCESS : Z := 0.
Definition TFM_PROTECTED_STORAGE_SERVICE_HANDLE : Z := 0x40000101.
Definition TFM_PS_SET : Z := 1001.
Definition TFM_PS_GET : Z := 1002.
Definition TFM_PS_GET_INFO : Z := 1003.
Definition TFM_PS_REMOVE : Z := 1004.
Definition TFM_PS_GET_SUPPORT : Z := 1005.
Definition TFM_MEASURED_BOOT_HANDLE : Z := 0x40000110.
Definition TFM_MEASURED_BOOT_READ : Z := 1001.
Definition TFM_MEASURED_BOOT_EXTEND : Z := 1002.
Definition TFM_FIRMWARE_UPDATE_SERVICE_HANDLE : Z := 0x40000104.
Definition TFM_FWU_QUERY : Z := 1010.
Definition TFM_FWU_COMPONENT_COUNT : Z := 5.
Definition PSA_FWU_COMPONENT_INFO_SIZE : Z := 44.
Definition PSA_FWU_READY : Z := 0.
Definition PSA_FWU_FLAG_VOLATILE_STAGING : Z := 0x00000001.
Definition ESRT_FW_TYPE_SYSTEMFIRMWARE : Z := 0x00000001.
Definition TFM_MEASUREMENT_VALUE_MAX_SIZE : Z := 64.
Definition TFM_SIGNER_ID_MAX_SIZE : Z := 64.
Definition TFM_VERSION_MAX_SIZE : Z := 14.
Definition TFM_SW_TYPE_MAX_SIZE : Z := 32.
Definition PSA_ERROR_NOT_SUPPORTED : Z := -134.
Definition PSA_ERROR_INVALID_ARGUMENT : Z := -135.
Definition PSA_ERROR_DOES_NOT_EXIST : Z := -140.
Definition PSA_ERROR_COMMUNICATION_FAILURE : Z := -145.

(** * Requests *)

(** [mhu320ae.h: "struct rse_ps_request {" .. "};"] *)
Record rse_ps_request := Request {
  protocol : Z;
  seq : Z;
  client_id : Z;
  handle : Z;
  ctrl : Z;
  type : Z;
  in_len : Z;
  out_len : Z;
  inputs : list (list Z);
  out_caps : list Z;
  out_ptrs : list Z
}.

#[export] Instance eta_rse_ps_request : Eta rse_ps_request := fun r =>
  Request (protocol r) (seq r) (client_id r) (handle r) (ctrl r) (type r) (in_len r) (out_len r) (inputs r)
    (out_caps r) (out_ptrs r).

Definition new_request : rse_ps_request :=
  Request RSE_COMMS_PROTOCOL_EMBED 0 0 0 0 0 0 0 (replicate 4 []) (replicate 4 0) (replicate 4 0).

(** A vector of an array of vectors. *)
Definition vec_at (l : list (list Z)) (i : Z) : list Z := default [] (l !! Z.to_nat i).

(** [mhu320ae.h: rse_ctrl_type] *)
Definition rse_ctrl_type (ctrl : Z) : Z := Z.land ctrl 0xffff.

(** [mhu320ae.h: rse_ctrl_out_len] *)
Definition rse_ctrl_out_len (ctrl : Z) : Z := Z.land (Z.shiftr ctrl 16) 0x7.

(** [mhu320ae.h: rse_ctrl_in_len] *)
Definition rse_ctrl_in_len (ctrl : Z) : Z := Z.land (Z.shiftr ctrl 24) 0x7.

(** A parser leaves what it filled in, and the error it stopped at. *)
Definition parsed : Type := rse_ps_request * option Z.

(** Both formats: the words after the header, and the vector counts. *)
(** [mhu320ae.h: "out.handle = read_le32(request, 4);" .. "out.out_len = rse_ctrl_out_len(out.ctrl);"] *)
Definition parse_control (request : list Z) (out : rse_ps_request) : rse_ps_request :=
  let out := out <| handle := read_le32 request 4 |> in
  let out := out <| ctrl := read_le32 request 8 |> in
  let out := out <| type := rse_ctrl_type (ctrl out) |> in
  let out := out <| in_len := rse_ctrl_in_len (ctrl out) |> in
  out <| out_len := rse_ctrl_out_len (ctrl out) |>.

(** [mhu320ae.h: "if (out.in_len > PSA_MAX_IOVEC || out.out_len > PSA_MAX_IOVEC ||" .. "out.in_len + out.out_len > PSA_MAX_IOVEC) {"] *)
Definition too_many_vectors (out : rse_ps_request) : bool :=
  (PSA_MAX_IOVEC <? in_len out) || (PSA_MAX_IOVEC <? out_len out) || (PSA_MAX_IOVEC <? in_len out + out_len out).

(** The loop over the input vectors of an embedded request, [i] the next
    vector and [offset] its place in the message. *)
(** [mhu320ae.h: "if (offset + io_sizes[i] > request.size()) {" .. "offset += io_sizes[i];"] *)
Fixpoint embed_inputs (n : nat) (request io_sizes : list Z) (i offset : Z) (out : rse_ps_request) : parsed :=
  match n with
  | O => (out, None)
  | S n =>
      let size := arr_get io_sizes i in
      if vec_size request <? offset + size then (out, Some PSA_ERROR_INVALID_ARGUMENT)
      else
        embed_inputs n request io_sizes (i + 1) (offset + size)
          (out <| inputs ::= fun l => <[Z.to_nat i := slice offset size request]> l |>)
  end.

(** [mhu320ae.h: parse_rse_ps_embed_request] *)
Definition parse_rse_ps_embed_request (request : list Z) (out : rse_ps_request) : parsed :=
  if vec_size request <? 4 + 4 * 2 + 2 * PSA_MAX_IOVEC then (out, Some PSA_ERROR_INVALID_ARGUMENT)
  else
    let out := parse_control request out in
    if too_many_vectors out then (out, Some PSA_ERROR_INVALID_ARGUMENT)
    else
      let io_sizes := map (fun i => read_le16 request (12 + 2 * i)) (range PSA_MAX_IOVEC) in
      let offset := 12 + 2 * PSA_MAX_IOVEC in
      match embed_inputs (Z.to_nat (in_len out)) request io_sizes 0 offset out with
      | (out, Some e) => (out, Some e)
      | (out, None) =>
          (foldl (fun out i => out <| out_caps ::= arr_set i (arr_get io_sizes (in_len out + i)) |>)
             out (range (out_len out)), None)
      end.

Section memory.
Context {B : Type} {bus : TlmTarget B}.

(** The loop over the input vectors of a pointer request. *)
(** [mhu320ae.h: "out.inputs[i].resize(io_sizes[i]);" .. "return false;"] *)
Fixpoint pointer_inputs (n : nat) (io_sizes host_ptrs : list Z) (i : Z) (out : rse_ps_request) (b : B) : B * parsed :=
  match n with
  | O => (b, (out, None))
  | S n =>
      let '(b, ok, data) :=
        mem_read_bytes (arr_get host_ptrs i) (replicate (Z.to_nat (arr_get io_sizes i)) 0) b in
      let out := out <| inputs ::= fun l => <[Z.to_nat i := data]> l |> in
      if negb ok then (b, (out, Some PSA_ERROR_COMMUNICATION_FAILURE))
      else pointer_inputs n io_sizes host_ptrs (i + 1) out b
  end.

(** [mhu320ae.h: parse_rse_ps_pointer_request] *)
Definition parse_rse_ps_pointer_request (request : list Z) (out : rse_ps_request) (b : B) : B * parsed :=
  let min_size := 4 + 4 * 2 + 4 * PSA_MAX_IOVEC + 8 * PSA_MAX_IOVEC in
  if vec_size request <? min_size then (b, (out, Some PSA_ERROR_INVALID_ARGUMENT))
  else
    let out := parse_control request out in
    if too_many_vectors out then (b, (out, Some PSA_ERROR_INVALID_ARGUMENT))
    else
      let io_sizes := map (fun i => read_le32 request (12 + 4 * i)) (range PSA_MAX_IOVEC) in
      let host_ptrs := map (fun i => read_le64 request (12 + 4 * PSA_MAX_IOVEC + 8 * i)) (range PSA_MAX_IOVEC) in
      match pointer_inputs (Z.to_nat (in_len out)) io_sizes host_ptrs 0 out b with
      | (b, (out, Some e)) => (b, (out, Some e))
      | (b, (out, None)) =>
          (b, (foldl (fun out i =>
                        let source := in_len out + i in
                        out <| out_caps ::= arr_set i (arr_get io_sizes source) |>
                            <| out_ptrs ::= arr_set i (arr_get host_ptrs source) |>)
                 out (range (out_len out)), None))
      end.

(** [mhu320ae.h: parse_rse_ps_request] *)
Definition parse_rse_ps_request (request : list Z) (out : rse_ps_request) (b : B) : B * parsed :=
  if vec_size request <? 4 then (b, (out, Some PSA_ERROR_INVALID_ARGUMENT))
  else
    let out := out <| protocol := arr_get request 0 |> <| seq := arr_get request 1 |> in
    let out := out <| client_id := Z.lor (arr_get request 2) (Z.shiftl (arr_get request 3) 8) |> in
    if protocol out =? RSE_COMMS_PROTOCOL_EMBED then (b, parse_rse_ps_embed_request request out)
    else if protocol out =? RSE_COMMS_PROTOCOL_POINTER_ACCESS then parse_rse_ps_pointer_request request out b
    else (b, (out, Some PSA_ERROR_NOT_SUPPORTED)).
End memory.

(** * Services *)

(** The output vectors of a reply and their sizes. *)
Record ps_outputs := Outputs { out_vecs : list (list Z); out_sizes : list Z }.

#[export] Instance eta_ps_outputs : Eta ps_outputs := fun o => Outputs (out_vecs o) (out_sizes o).

Definition no_outputs : ps_outputs := Outputs (replicate 4 []) (replicate 4 0).

(** What a service leaves: its state, the outputs and the status. *)
Definition service_result (S : Type) : Type := S * ps_outputs * Z.

(** [mhu320ae.h: set_ps_output] *)
Definition set_ps_output (request : rse_ps_request) (index : Z) (value : list Z) (o : ps_outputs) : ps_outputs * Z :=
  if (out_len request <=? index) || (PSA_MAX_IOVEC <=? index) then (o, PSA_ERROR_INVALID_ARGUMENT)
  else if arr_get (out_caps request) index <? vec_size value then (o, PSA_ERROR_INVALID_ARGUMENT)
  else
    (o <| out_vecs ::= <[Z.to_nat index := value]> |>
       <| out_sizes ::= arr_set index (u32 (vec_size value)) |>, PSA_SUCCESS).

(** [mhu320ae.h: append_at_u32] *)
Definition append_at_u32 (out : list Z) (offset value : Z) : list Z :=
  if vec_size out <? offset + 4 then out
  else
    arr_set (offset + 3) (Z.land (Z.shiftr value 24) 0xff)
      (arr_set (offset + 2) (Z.land (Z.shiftr value 16) 0xff)
        (arr_set (offset + 1) (Z.land (Z.shiftr value 8) 0xff)
          (arr_set offset (Z.land value 0xff) out))).

(** [mhu320ae.h: fwu_component_max_size] *)
Definition fwu_component_max_size (component : Z) : Z :=
  match component with
  | 0 => 0x00020000 | 1 => 0x00040000 | 2 => 0x00100000 | 3 => 0x00240000 | 4 => 0x00100000 | _ => 0
  end.

(** [mhu320ae.h: fwu_component_location] *)
Definition fwu_component_location (component : Z) : Z :=
  match component with
  | 0 => 0x00007000 | 1 => 0x00027000 | 2 => 0x00067000 | 3 => 0x00007000 | 4 => 0x00167000 | _ => 0
  end.

(** [mhu320ae.h: fwu_component_info] *)
Definition fwu_component_info (component : Z) : list Z :=
  let info := replicate (Z.to_nat PSA_FWU_COMPONENT_INFO_SIZE) 0 in
  let info := arr_set 0 (Z.land PSA_FWU_READY 0xff) info in
  let info := arr_set 8 1 info in
  let info := append_at_u32 info 16 (fwu_component_max_size component) in
  let info := append_at_u32 info 20 PSA_FWU_FLAG_VOLATILE_STAGING in
  let info := append_at_u32 info 24 (fwu_component_location component) in
  let info := append_at_u32 info 28 ESRT_FW_TYPE_SYSTEMFIRMWARE in
  append_at_u32 info 32 0x01000000.

(** [mhu320ae.h: handle_rse_fwu_request] *)
Definition handle_rse_fwu_request (request : rse_ps_request) (o : ps_outputs) : ps_outputs * Z :=
  if negb (type request =? TFM_FWU_QUERY) then (o, PSA_ERROR_NOT_SUPPORTED)
  else if (in_len request <? 1) || (out_len request <? 1) || (vec_size (vec_at (inputs request) 0) =? 0)
  then (o, PSA_ERROR_INVALID_ARGUMENT)
  else
    let component := arr_get (vec_at (inputs request) 0) 0 in
    if TFM_FWU_COMPONENT_COUNT <=? component then (o, PSA_ERROR_DOES_NOT_EXIST)
    else set_ps_output request 0 (fwu_component_info component) o.

(** [mhu320ae.h: bounded_bytes] *)
Definition bounded_bytes (inp : list Z) (offset size max_size : Z) : list Z :=
  if vec_size inp <=? offset then []
  else
    let available := vec_size inp - offset in
    let count := Z.min (Z.min size max_size) available in
    slice offset count inp.

Definition measurement_at (l : list measurement_entry) (i : Z) : measurement_entry :=
  default no_measurement (l !! Z.to_nat i).

(** [mhu320ae.h: "std::vector<uint8_t> metadata(56, 0);" .. "metadata[55] = static_cast<uint8_t>(entry.version.size());"] *)
Definition measurement_metadata (entry : measurement_entry) : list Z :=
  let metadata := replicate 56 0 in
  let metadata := arr_set 0 (if locked entry then 1 else 0) metadata in
  let metadata := arr_set 4 (Z.land (algorithm entry) 0xff) metadata in
  let metadata := arr_set 5 (Z.land (Z.shiftr (algorithm entry) 8) 0xff) metadata in
  let metadata := arr_set 6 (Z.land (Z.shiftr (algorithm entry) 16) 0xff) metadata in
  let metadata := arr_set 7 (Z.land (Z.shiftr (algorithm entry) 24) 0xff) metadata in
  let metadata := splice 8 (sw_type entry) metadata in
  let metadata := arr_set 40 (u8 (vec_size (sw_type entry))) metadata in
  let metadata := splice 41 (version entry) metadata in
  arr_set 55 (u8 (vec_size (version entry))) metadata.

(** [mhu320ae.h: handle_rse_measured_boot_request] *)
Definition handle_rse_measured_boot_request (request : rse_ps_request) (s : mhu320ae) (o : ps_outputs)
    : service_result mhu320ae :=
  let input := vec_at (inputs request) in
  if type request =? TFM_MEASURED_BOOT_EXTEND then
    if (in_len request <? 4) || (vec_size (input 0) <? 41) then (s, o, PSA_ERROR_INVALID_ARGUMENT)
    else
      let index := arr_get (input 0) 0 in
      if TFM_MEASUREMENT_SLOT_COUNT <=? index then (s, o, PSA_ERROR_INVALID_ARGUMENT)
      else
        let sw_type_size := arr_get (input 0) 40 in
        let entry := Measurement true (negb (arr_get (input 0) 1 =? 0)) (read_le32 (input 0) 4)
          (bounded_bytes (input 0) 8 sw_type_size TFM_SW_TYPE_MAX_SIZE)
          (bounded_bytes (input 2) 0 (vec_size (input 2)) TFM_VERSION_MAX_SIZE)
          (bounded_bytes (input 1) 0 (vec_size (input 1)) TFM_SIGNER_ID_MAX_SIZE)
          (bounded_bytes (input 3) 0 (vec_size (input 3)) TFM_MEASUREMENT_VALUE_MAX_SIZE) in
        (s <| m_measurements ::= <[Z.to_nat index := entry]> |>, o, PSA_SUCCESS)
  else if type request =? TFM_MEASURED_BOOT_READ then
    if (in_len request <? 1) || (out_len request <? 1) || (vec_size (input 0) =? 0)
    then (s, o, PSA_ERROR_INVALID_ARGUMENT)
    else
      let index := arr_get (input 0) 0 in
      if (TFM_MEASUREMENT_SLOT_COUNT <=? index) || negb (valid (measurement_at (m_measurements s) index))
      then (s, o, PSA_ERROR_DOES_NOT_EXIST)
      else
        let entry := measurement_at (m_measurements s) index in
        let '(o, status) := set_ps_output request 0 (measurement_metadata entry) o in
        if negb (status =? PSA_SUCCESS) || (out_len request <? 2) then (s, o, status)
        else
          let '(o, status) := set_ps_output request 1 (measurement entry) o in
          if negb (status =? PSA_SUCCESS) || (out_len request <? 3) then (s, o, status)
          else
            let '(o, status) := set_ps_output request 2 (signer_id entry) o in (s, o, status)
  else (s, o, PSA_ERROR_NOT_SUPPORTED).

(** The protected storage service. *)
(** [mhu320ae.h:2227-2298] handle_rse_ps_request *)
Definition handle_ps_storage (request : rse_ps_request) (s : mhu320ae) (o : ps_outputs) : service_result mhu320ae :=
  let input := vec_at (inputs request) in
  let uid := read_le64 (input 0) 0 in
  if type request =? TFM_PS_SET then
    if (in_len request <? 3) || (vec_size (input 0) <? 8) || (vec_size (input 2) <? 4)
    then (s, o, PSA_ERROR_INVALID_ARGUMENT)
    else
      (s <| m_ps_store ::= <[uid := PsEntry (input 1) (read_le32 (input 2) 0)]> |>, o, PSA_SUCCESS)
  else if type request =? TFM_PS_GET then
    if (in_len request <? 2) || (out_len request <? 1) || (vec_size (input 0) <? 8) || (vec_size (input 1) <? 4)
    then (s, o, PSA_ERROR_INVALID_ARGUMENT)
    else
      let offset := read_le32 (input 1) 0 in
      match m_ps_store s !! uid with
      | None => (s, o, PSA_ERROR_DOES_NOT_EXIST)
      | Some e =>
          if vec_size (ps_data e) <? offset then (s, o, PSA_ERROR_INVALID_ARGUMENT)
          else
            let available := vec_size (ps_data e) - offset in
            let copy_len := Z.min available (arr_get (out_caps request) 0) in
            let '(o, status) := set_ps_output request 0 (slice offset copy_len (ps_data e)) o in (s, o, status)
      end
  else if type request =? TFM_PS_GET_INFO then
    if (in_len request <? 1) || (out_len request <? 1) || (vec_size (input 0) <? 8)
    then (s, o, PSA_ERROR_INVALID_ARGUMENT)
    else
      match m_ps_store s !! uid with
      | None => (s, o, PSA_ERROR_DOES_NOT_EXIST)
      | Some e =>
          let size := u32 (vec_size (ps_data e)) in
          let info := append_u32 (append_u32 (append_u32 [] size) size) (ps_flags e) in
          let '(o, status) := set_ps_output request 0 info o in (s, o, status)
      end
  else if type request =? TFM_PS_REMOVE then
    if (in_len request <? 1) || (vec_size (input 0) <? 8) then (s, o, PSA_ERROR_INVALID_ARGUMENT)
    else
      match m_ps_store s !! uid with
      | None => (s, o, PSA_ERROR_DOES_NOT_EXIST)
      | Some _ => (s <| m_ps_store ::= delete uid |>, o, PSA_SUCCESS)
      end
  else if type request =? TFM_PS_GET_SUPPORT then
    if out_len request <? 1 then (s, o, PSA_ERROR_INVALID_ARGUMENT)
    else let '(o, status) := set_ps_output request 0 (append_u32 [] 0) o in (s, o, status)
  else (s, o, PSA_ERROR_NOT_SUPPORTED).

(** [mhu320ae.h: handle_rse_ps_request] *)
Definition handle_rse_ps_request (request : rse_ps_request) (s : mhu320ae) (o : ps_outputs) : service_result mhu320ae :=
  if handle request =? TFM_MEASURED_BOOT_HANDLE then handle_rse_measured_boot_request request s o
  else if handle request =? TFM_FIRMWARE_UPDATE_SERVICE_HANDLE then
    let '(o, status) := handle_rse_fwu_request request o in (s, o, status)
  else if negb (handle request =? TFM_PROTECTED_STORAGE_SERVICE_HANDLE) then (s, o, PSA_ERROR_NOT_SUPPORTED)
  else handle_ps_storage request s o.

(** * Replies *)

Section reply.
Context {B : Type} {bus : TlmTarget B}.

(** The loop that stores the outputs of a pointer request; it stops at the
    first failure. *)
(** [mhu320ae.h: "for (unsigned int i = 0; i < parsed.out_len; ++i) {" .. "break;"] *)
Fixpoint pointer_outputs (n : nat) (ptrs : list Z) (vecs : list (list Z)) (i : Z) (b : B) : B * bool :=
  match n with
  | O => (b, true)
  | S n =>
      let '(b, ok) := mem_write_bytes (arr_get ptrs i) (vec_at vecs i) b in
      if negb ok then (b, false) else pointer_outputs n ptrs vecs (i + 1) b
  end.

(** The reply message. *)
(** [mhu320ae.h: "std::vector<uint8_t> reply;" .. "return reply;"] *)
Definition encode_reply (r : rse_ps_request) (status : Z) (o : ps_outputs) : list Z :=
  let reply := [protocol r; seq r] in
  let reply := append_u16 reply (client_id r) in
  let reply := append_u32 reply (u32 status) in
  if protocol r =? RSE_COMMS_PROTOCOL_POINTER_ACCESS then
    foldl (fun reply i => append_u32 reply (arr_get (out_sizes o) i)) reply (range PSA_MAX_IOVEC)
  else
    let reply := foldl (fun reply i => append_u16 reply (u16 (arr_get (out_sizes o) i))) reply (range PSA_MAX_IOVEC) in
    if status =? PSA_SUCCESS then
      foldl (fun reply i => reply ++ vec_at (out_vecs o) i) reply (range (out_len r))
    else reply.

(** [mhu320ae.h: build_rse_ps_reply] *)
Definition build_rse_ps_reply (request : list Z) (s : mhu320ae) (b : B) : mhu320ae * B * list Z :=
  let '(b, (r, error)) := parse_rse_ps_request request new_request b in
  let '(s, o, status) :=
    match error with
    | None => handle_rse_ps_request r s no_outputs
    | Some e => (s, no_outputs, e)
    end in
  let r :=
    match error with
    | Some _ =>
        if 4 <=? vec_size request then
          r <| protocol := arr_get request 0 |> <| seq := arr_get request 1 |>
            <| client_id := Z.lor (arr_get request 2) (Z.shiftl (arr_get request 3) 8) |>
        else r
    | None => r
    end in
  let '(b, o, status) :=
    if (status =? PSA_SUCCESS) && (protocol r =? RSE_COMMS_PROTOCOL_POINTER_ACCESS) then
      let '(b, ok) := pointer_outputs (Z.to_nat (out_len r)) (out_ptrs r) (out_vecs o) 0 b in
      if ok then (b, o, status)
      else (b, o <| out_sizes := replicate 4 0 |>, PSA_ERROR_COMMUNICATION_FAILURE)
    else (b, o, status) in
  (s, b, encode_reply r status o).
End reply.

(** [mhu320ae.h: build_rse_success_reply] *)
Definition build_rse_success_reply (request : list Z) : list Z :=
  let protocol := if 1 <=? vec_size request then arr_get request 0 else RSE_COMMS_PROTOCOL_EMBED in
  let seq := if 2 <=? vec_size request then arr_get request 1 else 0 in
  let client_lo := if 3 <=? vec_size request then arr_get request 2 else 0 in
  let client_hi := if 4 <=? vec_size request then arr_get request 3 else 0 in
  let reply := append_u32 [protocol; seq; client_lo; client_hi] PSA_SUCCESS in
  if protocol =? RSE_COMMS_PROTOCOL_POINTER_ACCESS then
    foldl (fun reply _ => append_u32 reply 0) reply (range PSA_MAX_IOVEC)
  else foldl (fun reply _ => append_u16 reply 0) reply (range PSA_MAX_IOVEC).
