(* ===== verification/MhuInv.v ===== *)
(** The state of a message handling unit (MhuDevice, the model of mhu320ae.h)
    stays well formed and its interrupt line follows its doorbells: what every
    operation of a device on its own keeps.  First the byte vectors of messages as
    little-endian numbers: what the appenders and readers compute. *)

From Stdlib Require Import String.
From S2P Require Import Prelude Bytes Vectors Tlm Memory MhuFrame MhuDevice MhuScmi MhuPsa.

(** * Appending *)

Lemma append_u32_eq out v : append_u32 out v = out ++ le_bytes 4 v.
Proof.
  unfold append_u32. cbn [le_bytes]. change 0xff with (Z.ones 8).
  rewrite !Z.land_ones, !Z.shiftr_div_pow2, !Z.div_div by lia. done.
Qed.

Lemma append_u16_eq out v : append_u16 out v = out ++ le_bytes 2 v.
Proof.
  unfold append_u16. cbn [le_bytes]. change 0xff with (Z.ones 8).
  rewrite !Z.land_ones, !Z.shiftr_div_pow2 by lia. done.
Qed.

(** * Reading *)

Lemma slice_arr off n l i : 0 <= off -> 0 <= i < n -> arr_get (slice off n l) i = arr_get l (off + i).
Proof. apply slice_get. Qed.

Lemma slice_bytes off n l : bytes_ok l -> bytes_ok (slice off n l).
Proof. intros H. by apply Forall_take, Forall_drop. Qed.

Lemma slice_vec_size {A} off n (l : list A) : 0 <= off -> 0 <= n -> off + n <= vec_size l -> vec_size (slice off n l) = n.
Proof. intros. unfold vec_size. rewrite slice_length; lia. Qed.

Lemma shl_0 w x : is_uint w x -> shl w x 0 = x.
Proof. intros H. unfold shl. rewrite Z.shiftl_0_r. by apply wrap_small. Qed.

Section read.
Context (l : list Z) (offset : Z).
Hypothesis Hl : bytes_ok l.
Hypothesis Ho : 0 <= offset.
Hypothesis Hsize : vec_size l < 2 ^ 63.

Lemma read_le32_val : offset + 4 <= vec_size l -> read_le32 l offset = le_val (slice offset 4 l).
Proof using Hl Ho Hsize.
  intros H. unfold read_le32. rewrite wrap_small by (split; lia).
  replace (vec_size l <? offset + 4) with false by lia.
  rewrite <-(le_or_bytes 32 (fun i => arr_get l (offset + i)) 4 (slice offset 4 l));
    [|lia|by apply slice_vec_size|by apply slice_bytes|intros i Hi; by rewrite slice_arr by lia].
  change (range 4) with [0; 1; 2; 3]. cbn [foldl]. rewrite Z.lor_0_l, Z.add_0_r, shl_0; [done|]. eapply is_uint_mono; [|by apply bytes_get]. lia.
Qed.

Lemma read_le16_val : offset + 2 <= vec_size l -> read_le16 l offset = le_val (slice offset 2 l).
Proof using Hl Ho Hsize.
  intros H. unfold read_le16. rewrite wrap_small by (split; lia).
  replace (vec_size l <? offset + 2) with false by lia.
  rewrite <-(le_or_bytes 16 (fun i => arr_get l (offset + i)) 2 (slice offset 2 l));
    [|lia|by apply slice_vec_size|by apply slice_bytes|intros i Hi; by rewrite slice_arr by lia].
  pose proof (bytes_get l (offset + 1) Hl) as [H1 H1']. pose proof (bytes_get l offset Hl) as H0.
  change (range 2) with [0; 1]. cbn [foldl]. rewrite Z.lor_0_l, Z.add_0_r, shl_0 by (eapply is_uint_mono; [|done]; lia). rewrite Z.shiftl_mul_pow2 by lia.
  rewrite shl_mul by lia. apply wrap_small. apply lor_uint; [lia|eapply is_uint_mono; [|done]; lia|]. split; lia.
Qed.

Lemma read_le64_val : offset + 8 <= vec_size l -> read_le64 l offset = le_val (slice offset 8 l).
Proof using Hl Ho Hsize.
  intros H. unfold read_le64. rewrite wrap_small by (split; lia).
  replace (vec_size l <? offset + 8) with false by lia.
  apply (le_or_bytes 64 (fun i => arr_get l (offset + i))); [lia|by apply slice_vec_size|by apply slice_bytes|].
  intros i Hi. by rewrite slice_arr by lia.
Qed.

(** The word of a message at [offset]: the bytes that are left, at most four. *)
Lemma message_word_val : offset < vec_size l ->
  message_word l offset = le_val (slice offset (Z.min 4 (vec_size l - offset)) l).
Proof using Hl Ho.
  intros H. unfold message_word. cbv zeta.
  apply (le_or_bytes 32 (fun i => arr_get l (offset + i))); [lia|apply slice_vec_size; lia|by apply slice_bytes|].
  intros i Hi. by rewrite slice_arr by lia.
Qed.
End read.

(** * Well-formed configurations and states *)

(** Parameters within the ranges of their C types. *)
Record config_ok (cfg : mhu_config) : Prop := {
  ok_channel_count : 0 <= p_channel_count cfg;
  ok_ack_bit : 0 <= p_ack_bit cfg;
  ok_ack_channel : 0 <= p_doorbell_ack_channel cfg;
  ok_ack_value : is_u32 (p_doorbell_ack_value cfg);
  ok_ns_channel : 0 <= p_rpmsg_ns_signal_channel cfg;
  ok_ns_value : is_u32 (p_rpmsg_ns_signal_value cfg);
  ok_seed_words : Forall is_u32 (seed_words cfg)
}.

Definition measurement_ok (e : measurement_entry) : Prop :=
  is_u32 (algorithm e) /\
  (vec_size (sw_type e) <= 32 /\ bytes_ok (sw_type e)) /\ (vec_size (version e) <= 14 /\ bytes_ok (version e)) /\
  (vec_size (signer_id e) <= 64 /\ bytes_ok (signer_id e)) /\
  (vec_size (measurement e) <= 64 /\ bytes_ok (measurement e)).

Definition ps_entry_ok (uid : Z) (e : ps_entry) : Prop := is_u64 uid /\ bytes_ok (ps_data e) /\ is_u32 (ps_flags e).

Section invariant.
Context (cfg : mhu_config).

(** A frame configured for [cfg]. *)
Definition frame_conf (f : mhu_frame) : Prop :=
  frame_ok f /\ m_is_mbx f = is_mbx cfg /\ m_channel_count f = channel_count cfg.

Definition completion_ok (c : synthetic_postbox_completion) : Prop :=
  0 <= c_channel c < channel_count cfg /\ is_u32 (c_mask c) /\ c_mask c <> 0.

(** The parts of the state next to the frame. *)
Definition power_ok (s : mhu320ae) : Prop :=
  arr_ok 256 32 (m_power_domain_states s) /\ arr_ok 1 32 (m_performance_levels s) /\
  is_u32 (m_power_domain_state s) /\ is_u32 (m_pending_power_domain_reset_id s) /\
  is_u32 (m_pending_power_domain_reset_state s) /\ is_u32 (m_pending_system_power_state s).
Definition rpmsg_ok (s : mhu320ae) : Prop :=
  is_u16 (m_rpmsg_ns_last_avail_idx s) /\ is_u32 (m_rpmsg_ns_poll_count s).
Definition stores_ok (s : mhu320ae) : Prop :=
  map_Forall ps_entry_ok (m_ps_store s) /\
  length (m_measurements s) = 32%nat /\ Forall measurement_ok (m_measurements s).

Definition dev_ok (s : mhu320ae) : Prop :=
  frame_conf (m_frame s) /\ power_ok s /\ rpmsg_ok s /\
  Forall completion_ok (m_synthetic_postbox_completions s) /\ stores_ok s.

(** The level last written to the interrupt line. *)
Definition last_irq (l : list mhu_signal) : option bool :=
  foldl (fun a x => match x with SigIrq b => Some b | _ => a end) None l.

Definition irq_ok (s : mhu320ae) : Prop :=
  irq_bound cfg = true -> last_irq (outputs s) = Some (any_combined_irq (m_frame s)).

Definition dev_inv (s : mhu320ae) : Prop := dev_ok s /\ irq_ok s.

Lemma channel_count_range : 1 <= channel_count cfg <= 128.
Proof. unfold channel_count, DBCH_CHANNELS. lia. Qed.

Lemma notify_range : 0 <= notify_channel cfg < 128.
Proof. unfold notify_channel. pose proof channel_count_range. lia. Qed.

(** * Frames *)

(** An operation on a channel changes neither the kind of the frame nor the
    number of channels. *)
Lemma frame_conf_channel channel f f' : 0 <= channel < DBCH_CHANNELS -> frame_ok (store_channel_regs channel f') ->
  m_is_mbx f' = m_is_mbx f -> m_channel_count f' = m_channel_count f ->
  frame_conf f -> frame_conf (store_channel_regs channel f').
Proof.
  intros Hc Hok Hm Hn (_ & Hmbx & Hcount). split; [done|].
  destruct (same_channels_fields _ _ (store_channel_same channel f')) as (_ & _ & _ & _ & _ & -> & ->).
  by rewrite Hm, Hn.
Qed.

Section channels.
Context (channel value : Z) (f : mhu_frame).
Hypothesis Hf : frame_conf f.
Hypothesis Hc : 0 <= channel < 128.
Hypothesis Hv : is_u32 value.

Local Ltac by_channel lem := apply (frame_conf_channel channel f); [done|by apply lem; [apply Hf|..]|done|done|done].

Lemma set_status_conf : frame_conf (set_status channel value f).
Proof using Hf Hc Hv. by_channel set_status_ok. Qed.
Lemma set_status_bits_conf : frame_conf (set_status_bits channel value f).
Proof using Hf Hc Hv. by_channel set_status_bits_ok. Qed.
Lemma clear_status_bits_conf : frame_conf (clear_status_bits channel value f).
Proof using Hf Hc. by_channel clear_status_bits_ok. Qed.
Lemma set_mask_bits_conf : frame_conf (set_mask_bits channel value f).
Proof using Hf Hc Hv. by_channel set_mask_bits_ok. Qed.
Lemma clear_mask_bits_conf : frame_conf (clear_mask_bits channel value f).
Proof using Hf Hc. by_channel clear_mask_bits_ok. Qed.
Lemma set_int_status_bits_conf : frame_conf (set_int_status_bits channel value f).
Proof using Hf Hc Hv. by_channel set_int_status_bits_ok. Qed.
Lemma clear_int_status_bits_conf : frame_conf (clear_int_status_bits channel value f).
Proof using Hf Hc. by_channel clear_int_status_bits_ok. Qed.
Lemma set_int_enable_conf : frame_conf (set_int_enable channel value f).
Proof using Hf Hc Hv. by_channel set_int_enable_ok. Qed.
Lemma set_ctrl_conf : frame_conf (set_ctrl channel value f).
Proof using Hf Hc Hv. by_channel set_ctrl_ok. Qed.
End channels.

Lemma foldl_conf {A} (g : mhu_frame -> A -> mhu_frame) f l :
  (forall f x, x ∈ l -> frame_conf f -> frame_conf (g f x)) -> frame_conf f -> frame_conf (foldl g f l).
Proof.
  revert f. induction l as [|x l IH]; intros f Hg Hf; [done|]. cbn. apply IH.
  - intros f' y Hy. apply Hg. by right.
  - apply Hg; [by left|done].
Qed.

Lemma clear_all_conf f : frame_conf f -> frame_conf (clear_all_status f).
Proof. apply foldl_conf. intros f' c Hc%elem_of_range Hf'. by apply set_status_conf. Qed.

Lemma refresh_conf f : frame_conf f -> frame_conf (refresh_combined_irq_regs f).
Proof.
  intros (Hok & Hm & Hn). destruct (same_channels_fields _ _ (refresh_same f)) as (_ & _ & _ & _ & _ & Em & En).
  split; [by apply refresh_ok|]. by rewrite Em, En.
Qed.

Lemma store_conf offset v f : 0 <= offset < 2 ^ 63 -> frame_conf f -> frame_conf (store offset v f).
Proof.
  intros Ho (Hok & Hm & Hn). destruct (same_channels_fields _ _ (store_same offset v f)) as (_ & _ & _ & _ & _ & Em & En).
  split; [by apply store_ok|]. by rewrite Em, En.
Qed.

Lemma copy_write_conf offset data f : 0 <= offset -> offset + vec_size data <= REG_SPACE_SIZE -> bytes_ok data ->
  frame_conf f -> frame_conf (copy_write offset data f).
Proof.
  intros H0 H1 Hd ((Hm & Hok) & Hmbx). split; [|done]. split; [|done]. by apply mem_ok_write.
Qed.

Lemma copy_write_same offset data f : same_channels f (copy_write offset data f).
Proof. done. Qed.

(** * Whole devices *)

Lemma last_irq_snoc l x : last_irq (l ++ [x]) = match x with SigIrq b => Some b | _ => last_irq l end.
Proof. unfold last_irq. by rewrite foldl_app. Qed.

(** Changing the frame, then refreshing the interrupt. *)
Lemma update_inv s g : dev_ok s -> frame_conf (g (m_frame s)) ->
  dev_inv (update_combined_irq cfg (s <| m_frame ::= g |>)).
Proof.
  intros (_ & Hs) Hg. unfold update_combined_irq. apply refresh_conf in Hg. unfold dev_inv, irq_ok. case_if.
  - split; [by split|]. intros _. unfold emit. cbn. by rewrite last_irq_snoc.
  - split; [by split|]. intros H'. congruence.
Qed.

Lemma update_dev_inv s : dev_ok s -> dev_inv (update_combined_irq cfg s).
Proof. intros Hs. pose proof (update_inv s id Hs) as H. destruct s. apply H, Hs. Qed.

(** Mirroring the registers alone leaves the interrupt as it was. *)
Lemma mirror_inv s g : dev_inv s -> frame_conf (g (m_frame s)) -> same_channels (m_frame s) (g (m_frame s)) ->
  dev_inv (s <| m_frame ::= g |>).
Proof.
  intros [(_ & Hs) Hi] Hg Hsame. split; [by split|]. intros Hb. cbn. rewrite (any_combined_same _ _ Hsame). by apply Hi.
Qed.

(** A signal on another output. *)
Lemma emit_inv x s : match x with SigIrq _ => False | _ => True end -> dev_inv s -> dev_inv (emit x s).
Proof.
  intros Hx [Hs Hi]. split; [exact Hs|]. intros Hb. unfold emit. cbn. rewrite last_irq_snoc.
  destruct x; [done|..]; by apply Hi.
Qed.

(** Changing the state next to the frame and the outputs. *)
Lemma aside_inv s s' : m_frame s' = m_frame s -> outputs s' = outputs s -> dev_inv s -> dev_ok s' -> dev_inv s'.
Proof. intros Hf Ho [_ Hi] Hs'. split; [done|]. unfold irq_ok. by rewrite Hf, Ho. Qed.

Section handlers.
Context (s : mhu320ae).
Hypothesis Hs : dev_inv s.

Local Ltac frame_of := destruct Hs as [Hok _]; pose proof (proj1 Hok) as Hconf; pose proof channel_count_range.

Lemma signal_doorbell_channel_inv channel value : 0 <= channel -> is_u32 value ->
  dev_inv (signal_doorbell_channel cfg channel value s).
Proof using Hs.
  intros Hc Hv. frame_of. unfold signal_doorbell_channel. destruct (Z.leb_spec (channel_count cfg) channel); [done|].
  apply update_inv; [done|]. apply set_status_bits_conf; (done || lia).
Qed.

Lemma signal_doorbell_inv b : 0 <= b -> dev_inv (signal_doorbell cfg b s).
Proof using Hs.
  intros Hb. unfold signal_doorbell. case_if; [done|]. apply signal_doorbell_channel_inv; [done|].
  unfold shl. apply wrap_range. lia.
Qed.

Lemma clear_postbox_doorbell_channel_inv channel mask : 0 <= channel ->
  dev_inv (clear_postbox_doorbell_channel cfg channel mask s).
Proof using Hs.
  intros Hc. frame_of. unfold clear_postbox_doorbell_channel. destruct (Z.leb_spec (channel_count cfg) channel); [done|].
  cbv zeta. pose proof (clear_status_bits_conf channel mask _ Hconf ltac:(lia)).
  case_if; [|by apply update_inv]. apply update_inv; [by split; [|apply Hok]|].
  apply set_int_status_bits_conf; [done|lia|by cbv].
Qed.

Lemma set_mbx_mask_inv channel mask : 0 <= channel < 128 -> is_u32 mask -> dev_inv (set_mbx_mask cfg channel mask s).
Proof using Hs. intros Hc Hm. frame_of. apply update_inv; [done|]. by apply set_mask_bits_conf. Qed.

Lemma clear_mbx_mask_inv channel mask : 0 <= channel < 128 -> dev_inv (clear_mbx_mask cfg channel mask s).
Proof using Hs. intros Hc. frame_of. apply update_inv; [done|]. by apply clear_mask_bits_conf. Qed.

Lemma clear_postbox_interrupt_inv channel mask : 0 <= channel < 128 ->
  dev_inv (clear_postbox_interrupt cfg channel mask s).
Proof using Hs. intros Hc. frame_of. apply update_inv; [done|]. by apply clear_int_status_bits_conf. Qed.

Lemma complete_synthetic_inv channel mask : 0 <= channel -> is_u32 mask ->
  dev_inv (complete_synthetic_postbox_transfer cfg channel mask s).
Proof using Hs.
  intros Hc Hm. unfold complete_synthetic_postbox_transfer. case_if; [done|]. bool_hyps. apply emit_inv; [done|].
  destruct Hs as [(H1 & H2 & H3 & H4 & H5) _]. apply (aside_inv s); [done|done|done|].
  do 3 (split; [done|]). split; [|done]. cbn. apply Forall_app_2; [done|]. constructor; [|done].
  split; cbn; [lia|]. split; [done|lia].
Qed.

Lemma schedule_rpmsg_inv : dev_inv (schedule_rpmsg_ns_injection cfg s).
Proof using Hs. unfold schedule_rpmsg_ns_injection. case_if; [done|]. by apply emit_inv. Qed.

Lemma clear_postbox_transfer_inv : dev_inv (clear_postbox_transfer cfg s).
Proof using Hs.
  frame_of. unfold clear_postbox_transfer. cbv zeta. pose proof (clear_all_conf _ Hconf). apply update_inv.
  - split; [done|apply Hok].
  - apply set_int_status_bits_conf; [done|apply notify_range|by cbv].
Qed.

Lemma message_word_uint msg offset : bytes_ok msg -> is_u32 (message_word msg offset).
Proof using.
  intros Hm. unfold message_word. cbv zeta. apply (foldl_uint 32); [lia|by cbv|].
  intros x. unfold shl. apply wrap_range. lia.
Qed.

Lemma load_words_conf msg f : bytes_ok msg -> frame_conf f -> frame_conf (load_words cfg msg f).
Proof using.
  intros Hm. apply foldl_conf. intros f' c Hc%elem_of_seqZ Hf'. cbv zeta. case_if; [|done].
  pose proof notify_range. apply set_status_conf; [done|lia|by apply message_word_uint].
Qed.

Lemma load_mbx_message_inv msg : bytes_ok msg -> dev_inv (load_mbx_message cfg msg s).
Proof using Hs.
  intros Hm. frame_of. unfold load_mbx_message. cbv zeta. apply update_inv.
  - split; [|apply Hok]. cbn. apply load_words_conf; [done|]. apply set_status_conf; [by apply clear_all_conf|lia|].
    apply wrap_range. lia.
  - apply set_status_conf; [|apply notify_range|by cbv]. cbn. apply load_words_conf; [done|].
    apply set_status_conf; [by apply clear_all_conf|lia|]. apply wrap_range. lia.
Qed.

Lemma write_power_on_reset_inv asserted : dev_inv (write_power_on_reset cfg asserted s).
Proof using Hs. unfold write_power_on_reset. case_if; [|done]. by apply emit_inv. Qed.

Lemma write_power_domain_reset_inv d asserted : dev_inv (write_power_domain_reset cfg d asserted s).
Proof using Hs. unfold write_power_domain_reset. case_if; [|done]. by apply emit_inv. Qed.
End handlers.
End invariant.

(** * The bus keeps bytes *)

(** A bus that keeps its state well formed and fills buffers with bytes, for
    every transaction a device can build. *)
Class ByteBus (B : Type) {bus : TlmTarget B} :=
  byte_bus (b : B) command address data len :
    target_inv b -> bytes_ok data -> 0 <= len <= vec_size data ->
    let '(b', ok, data') := mem_access command address data len b in
    target_inv b' /\ bytes_ok data' /\ length data' = length data.

#[refine] Definition ram_byte_bus size : ByteBus mem (bus := ram size) := _.
Proof.
  intros m c a d len Hm Hd Hlen. change (mem_ok size m) in Hm. unfold vec_size in Hlen. unfold mem_access, target_b_transport, ram, tlm_access, ram_access. cbn.
  destruct (Z.leb_spec 0 a); cbn [andb]; [|done]. destruct (Z.leb_spec (a + len) size); [|done]. destruct c; cbn; [|..].
  - split; [done|]. split; [apply put_data_ok; [by eapply mem_read_ok|done]|].
    apply put_data_length. pose proof (mem_read_length m a len ltac:(lia)). lia.
  - split; [|done]. apply mem_ok_write; [done|by apply get_data_ok|done|]. rewrite get_data_length; lia.
  - done.
Defined.

(** * The responders *)

Lemma append_u32_ok out v : bytes_ok out -> bytes_ok (append_u32 out v).
Proof. intros H. apply Forall_app_2; [done|]. repeat (apply Forall_cons_2; [eauto with uint|]). apply Forall_nil_2. Qed.

Lemma append_u16_ok out v : bytes_ok out -> bytes_ok (append_u16 out v).
Proof. intros H. apply Forall_app_2; [done|]. repeat (apply Forall_cons_2; [eauto with uint|]). apply Forall_nil_2. Qed.

Lemma append_u32_size out v : vec_size (append_u32 out v) = vec_size out + 4.
Proof. unfold append_u32, vec_size. rewrite length_app. simpl. lia. Qed.

Lemma append_u16_size out v : vec_size (append_u16 out v) = vec_size out + 2.
Proof. unfold append_u16, vec_size. rewrite length_app. simpl. lia. Qed.

Lemma c_str_ok s : bytes_ok (c_str s).
Proof.
  induction s as [|c s IH]; [constructor|]. cbn. case_if; [constructor|]. constructor; [|done].
  pose proof (Ascii.N_ascii_bounded c). split; lia.
Qed.

Lemma strncpy_ok size n s : bytes_ok (strncpy_zeros size n s).
Proof. apply Forall_app_2; [apply Forall_take, c_str_ok|]. apply Forall_replicate. by cbv. Qed.

Lemma strncpy_size size n s : 0 <= n <= size -> vec_size (strncpy_zeros size n s) = size.
Proof.
  intros H. unfold strncpy_zeros, vec_size. cbv zeta. rewrite length_app, length_replicate, length_take. lia.
Qed.

(** Literal byte lists are checked by computation. *)
Lemma bytes_okb l : forallb (fun b => (0 <=? b) && (b <? 256)) l = true -> bytes_ok l.
Proof. intros H. apply Forall_forall. intros x Hx%list_elem_of_In. rewrite forallb_forall in H. apply H in Hx. split; lia. Qed.

Lemma read_le32_u32 l offset : bytes_ok l -> is_u32 (read_le32 l offset).
Proof.
  intros H. unfold read_le32. case_if; [by cbv|].
  repeat (apply lor_uint; [lia| |]); [|unfold shl; apply wrap_range; lia..].
  eapply is_uint_mono; [|by apply bytes_get]. lia.
Qed.

Lemma read_le64_u64 l offset : is_u64 (read_le64 l offset).
Proof.
  unfold read_le64. case_if; [by cbv|]. apply (foldl_uint 64); [lia|by cbv|]. intros x. unfold shl. apply wrap_range. lia.
Qed.

Lemma bytes_nil_ok : bytes_ok [].
Proof. constructor. Qed.

Lemma bytes_app_ok l l' : bytes_ok l -> bytes_ok l' -> bytes_ok (l ++ l').
Proof. apply Forall_app_2. Qed.

Lemma fixed_string_ok s : bytes_ok (fixed_string s).
Proof. apply strncpy_ok. Qed.

Lemma fixed_param_string_ok s : bytes_ok (fixed_param_string s).
Proof. apply strncpy_ok. Qed.

Lemma fixed_param_string_size s : vec_size (fixed_param_string s) = 16.
Proof. by apply strncpy_size. Qed.

Lemma vec_size_app {A} (l l' : list A) : vec_size (l ++ l') = vec_size l + vec_size l'.
Proof. unfold vec_size. rewrite length_app. lia. Qed.

Create HintDb mhu.
#[export] Hint Resolve append_u32_ok append_u16_ok bytes_app_ok bytes_nil_ok strncpy_ok fixed_string_ok
  fixed_param_string_ok read_le32_u32 read_le64_u64 : mhu.
#[export] Hint Extern 4 (is_uint _ _) => (cbv; split; congruence) : mhu.

Section responders.
Context (cfg : mhu_config).

Lemma power_inv s s' : m_frame s' = m_frame s -> outputs s' = outputs s -> m_ps_store s' = m_ps_store s ->
  m_measurements s' = m_measurements s -> m_rpmsg_ns_last_avail_idx s' = m_rpmsg_ns_last_avail_idx s ->
  m_rpmsg_ns_poll_count s' = m_rpmsg_ns_poll_count s ->
  m_synthetic_postbox_completions s' = m_synthetic_postbox_completions s ->
  dev_inv cfg s -> power_ok s' -> dev_inv cfg s'.
Proof.
  intros Ef Eo Ep Em Ei Ec Eq Hs Hp. apply (aside_inv _ s); [done|done|done|]. destruct Hs as [(H1 & _ & H3 & H4 & H5) _].
  unfold dev_ok, rpmsg_ok, stores_ok. rewrite Ef, Ep, Em, Ei, Ec, Eq. by do 4 (split; [done|]).
Qed.

Lemma apply_power_domain_state_inv s d v : is_u32 d -> is_u32 v -> dev_inv cfg s ->
  dev_inv cfg (apply_power_domain_state cfg d v s).
Proof.
  intros Hd Hv Hs. unfold apply_power_domain_state. cbv zeta. apply emit_inv; [done|].
  pose proof (proj1 (proj2 (proj1 Hs))) as (H1 & H2 & H3 & H4 & H5 & H6).
  case_if; (apply (power_inv s); [done..|]); unfold power_ok; cbn; eauto 10 with uint.
Qed.

Lemma schedule_system_power_reset_inv s v : is_u32 v -> dev_inv cfg s ->
  dev_inv cfg (schedule_system_power_reset cfg v s).
Proof.
  intros Hv Hs. unfold schedule_system_power_reset. case_if; [done|]. apply emit_inv; [done|].
  pose proof (proj1 (proj2 (proj1 Hs))) as (H1 & H2 & H3 & H4 & H5 & H6).
  apply (power_inv s); [done..|]. unfold power_ok. cbn. eauto 10 with uint.
Qed.

Hint Resolve apply_power_domain_state_inv schedule_system_power_reset_inv : mhu.

(** What every responder leaves: a sound device, a status word and a payload of
    bytes that fits the shared memory of a channel. *)
Definition reply_ok (r : scmi_reply) : Prop :=
  let '(s, status, payload) := r in
  dev_inv cfg s /\ is_u32 status /\ bytes_ok payload /\ vec_size payload <= 64.

Lemma reply_ok_intro s status payload : dev_inv cfg s -> is_u32 status -> bytes_ok payload -> vec_size payload <= 64 ->
  reply_ok (s, status, payload).
Proof. done. Qed.

Local Ltac sizes :=
  cbn [vec_size]; repeat rewrite ?vec_size_app, ?append_u32_size, ?append_u16_size, ?fixed_param_string_size;
  try done; cbn; lia.
Local Ltac reply := apply reply_ok_intro; [eauto with mhu|eauto with mhu|eauto 10 with mhu|sizes].

Lemma base_payload header status p : respond_scmi_base cfg header SCMI_SUCCESS [] = (status, p) ->
  is_u32 status /\ bytes_ok p /\ vec_size p <= 64.
Proof.
  unfold respond_scmi_base, scmi_supported_protocols.
  repeat case_match; intros [= <- <-]; (split; [by cbv|split; [|by cbv]]);
    by apply bytes_okb.
Qed.

Lemma pfdi_payload header status p : respond_scmi_pfdi_monitor header SCMI_SUCCESS [] = (status, p) ->
  is_u32 status /\ bytes_ok p /\ vec_size p <= 64.
Proof.
  unfold respond_scmi_pfdi_monitor.
  repeat case_match; intros [= <- <-]; (split; [by cbv|split; [|by cbv]]); by apply bytes_okb.
Qed.

Lemma power_domain_reply header request s : bytes_ok request -> dev_inv cfg s ->
  reply_ok (respond_scmi_power_domain cfg header request SCMI_SUCCESS [] s).
Proof.
  intros Hr Hs. unfold respond_scmi_power_domain.
  repeat case_match; reply.
Qed.

Lemma sys_power_reply header request s : bytes_ok request -> dev_inv cfg s ->
  reply_ok (respond_scmi_sys_power cfg header request SCMI_SUCCESS [] s).
Proof.
  intros Hr Hs. unfold respond_scmi_sys_power.
  repeat case_match; reply.
Qed.
Lemma append_opp_ok p i : bytes_ok p -> bytes_ok (append_opp p i).
Proof. unfold append_opp. eauto 10 with mhu. Qed.

Lemma append_opp_size p i : vec_size (append_opp p i) = vec_size p + 20.
Proof. unfold append_opp. cbv zeta. repeat rewrite ?append_u32_size, ?append_u16_size. lia. Qed.

Lemma append_opps p l : bytes_ok p ->
  bytes_ok (foldl append_opp p l) /\ vec_size (foldl append_opp p l) = vec_size p + 20 * Z.of_nat (length l).
Proof.
  revert p. induction l as [|i l IH]; intros p Hp; cbn; [split; [done|lia]|].
  destruct (IH (append_opp p i) (append_opp_ok p i Hp)) as [H1 H2]. split; [done|].
  rewrite H2, append_opp_size. lia.
Qed.

Lemma performance_level_inv s d v : is_u32 v -> dev_inv cfg s -> dev_inv cfg (s <| m_performance_levels ::= arr_set d v |>).
Proof.
  intros Hv Hs. pose proof (proj1 (proj2 (proj1 Hs))) as (H1 & H2 & H3 & H4 & H5 & H6).
  apply (power_inv s); [done..|]. unfold power_ok. cbn. eauto 10 with uint.
Qed.

Hint Resolve performance_level_inv : mhu.

Lemma performance_reply header request s : bytes_ok request -> dev_inv cfg s ->
  reply_ok (respond_scmi_performance header request SCMI_SUCCESS [] s).
Proof.
  intros Hr Hs. unfold respond_scmi_performance. cbv zeta. pose proof (read_le32_u32 request 0 Hr) as Hd.
  pose proof (read_le32_u32 request 4 Hr) as Hl.
  repeat case_match; try reply.
  all: set (p' := append_u16 _ _);
    destruct (append_opps p' (seqZ (read_le32 request 4) (SCMI_PERF_OPP_COUNT - read_le32 request 4)))
      as [Hb Hsz]; [unfold p'; eauto with mhu|]; apply reply_ok_intro; [done|eauto with mhu|done|];
    rewrite Hsz; unfold p'; rewrite !append_u16_size, length_seqZ; unfold SCMI_PERF_OPP_COUNT in *; change (vec_size (@nil Z)) with 0;
    destruct Hl; lia.
Qed.
Lemma respond_protocol_ok header request s : bytes_ok request -> dev_inv cfg s ->
  reply_ok (respond_protocol cfg header request s).
Proof.
  intros Hr Hs. unfold respond_protocol. cbv zeta.
  destruct (_ =? SCMI_PROTOCOL_BASE).
  { destruct (respond_scmi_base _ _ _ _) as [status p] eqn:E. apply base_payload in E as (?&?&?). by apply reply_ok_intro. }
  destruct (_ =? SCMI_PROTOCOL_POWER_DOMAIN); [by apply power_domain_reply|].
  destruct (_ =? SCMI_PROTOCOL_SYS_POWER); [by apply sys_power_reply|].
  destruct (_ =? SCMI_PROTOCOL_PERFORMANCE); [by apply performance_reply|].
  assert (reply_ok (s, SCMI_ERR_SUPPORT, [])) as Hno by (apply reply_ok_intro; [done|by cbv|constructor|by cbv]).
  destruct (_ =? SCMI_PROTOCOL_PFDI_MONITOR); [|done]. destruct (String.eqb _ _); [|done].
  destruct (respond_scmi_pfdi_monitor _ _ _) as [status p] eqn:E. apply pfdi_payload in E as (?&?&?).
  by apply reply_ok_intro.
Qed.
End responders.

(** * Accesses to memory *)

Section memory.
Context {B : Type} {bus : TlmTarget B} {bb : ByteBus B}.
Implicit Types b : B.

Lemma mem_write_vec_inv a d n b : target_inv b -> bytes_ok d -> 0 <= n <= vec_size d -> target_inv (mem_write_vec a d n b).
Proof.
  intros Hb Hd Hn. unfold mem_write_vec.
  pose proof (byte_bus b TLM_WRITE_COMMAND a (take (Z.to_nat n) d) n Hb) as H.
  destruct (mem_access _ _ _ _ b) as [[b' ok] d']. apply H; [by apply Forall_take|]. unfold vec_size in *. rewrite length_take. lia.
Qed.

Lemma mem_write32_inv a v b : target_inv b -> target_inv (mem_write32 a v b).
Proof. intros Hb. apply mem_write_vec_inv; [done|apply le_bytes_ok|by cbv]. Qed.

Lemma mem_write16_inv a v b : target_inv b -> target_inv (mem_write16 a v b).
Proof. intros Hb. apply mem_write_vec_inv; [done|apply le_bytes_ok|by cbv]. Qed.

(** A read of a word of [n] bytes. *)
Lemma mem_read_word (n : nat) a b : target_inv b -> Z.of_nat n < 2 ^ 32 ->
  let '(b', _, v) := mem_access TLM_READ_COMMAND a (le_bytes n 0) (Z.of_nat n) b in
  target_inv b' /\ is_uint (8 * Z.of_nat n) (le_val v).
Proof.
  intros Hb Hn. pose proof (byte_bus b TLM_READ_COMMAND a (le_bytes n 0) (Z.of_nat n) Hb (le_bytes_ok _ _)) as H.
  destruct (mem_access _ _ _ _ b) as [[b' ok] v]. destruct H as (Hb' & Hv & Hl).
  { unfold vec_size. rewrite le_bytes_length. lia. }
  split; [done|]. rewrite le_bytes_length in Hl. rewrite <-Hl. by apply le_val_range.
Qed.

Lemma mem_read32_inv a b : target_inv b -> let '(b', v) := mem_read32 a b in target_inv b' /\ is_u32 v.
Proof.
  intros Hb. pose proof (mem_read_word 4 a b Hb ltac:(lia)) as H. unfold mem_read32. change 4 with (Z.of_nat 4).
  destruct (mem_access _ _ _ _ b) as [[b' ok] v]. exact H.
Qed.

Lemma mem_read16_inv a b : target_inv b -> let '(b', v) := mem_read16 a b in target_inv b' /\ is_u16 v.
Proof.
  intros Hb. pose proof (mem_read_word 2 a b Hb ltac:(lia)) as H. unfold mem_read16. change 2 with (Z.of_nat 2).
  destruct (mem_access _ _ _ _ b) as [[b' ok] v]. exact H.
Qed.

Lemma mem_read64_inv a b : target_inv b -> let '(b', v) := mem_read64 a b in target_inv b' /\ is_u64 v.
Proof.
  intros Hb. pose proof (mem_read_word 8 a b Hb ltac:(lia)) as H. unfold mem_read64. change 8 with (Z.of_nat 8).
  destruct (mem_access _ _ _ _ b) as [[b' ok] v]. exact H.
Qed.

Lemma u32_size_le {A} (l : list A) : 0 <= u32 (vec_size l) <= vec_size l.
Proof.
  unfold vec_size, wrap. pose proof (Z.mod_pos_bound (Z.of_nat (length l)) (2 ^ 32) ltac:(lia)).
  pose proof (Z.mod_le (Z.of_nat (length l)) (2 ^ 32)). lia.
Qed.

Lemma mem_read_bytes_inv a out b : target_inv b -> bytes_ok out ->
  let '(b', _, data) := mem_read_bytes a out b in target_inv b' /\ bytes_ok data /\ length data = length out.
Proof.
  intros Hb Ho. unfold mem_read_bytes. case_if; [done|]. apply byte_bus; [done|done|apply u32_size_le].
Qed.

Lemma mem_write_bytes_inv a inp b : target_inv b -> bytes_ok inp -> target_inv (fst (mem_write_bytes a inp b)).
Proof.
  intros Hb Hi. unfold mem_write_bytes. case_if; [done|].
  pose proof (byte_bus b TLM_WRITE_COMMAND a inp _ Hb Hi (u32_size_le inp)) as H.
  destruct (mem_access _ _ _ _ b) as [[b' ok] d]. apply H.
Qed.

Lemma write_scmi_response_inv cfg channel header status payload b : target_inv b -> bytes_ok payload ->
  target_inv (write_scmi_response cfg channel header status payload b).
Proof.
  intros Hb Hp. unfold write_scmi_response. cbv zeta. apply mem_write32_inv.
  case_if; repeat apply mem_write32_inv; [done|]. apply mem_write_vec_inv; [|done|apply u32_size_le].
  by repeat apply mem_write32_inv.
Qed.

Lemma read_scmi_request_inv cfg channel length b : target_inv b ->
  let '(b', p) := read_scmi_request_payload cfg channel length b in target_inv b' /\ bytes_ok p.
Proof.
  intros Hb. unfold read_scmi_request_payload. cbv zeta. case_if; [split; [done|apply bytes_nil_ok]|].
  set (p := replicate _ 0).
  pose proof (byte_bus b TLM_READ_COMMAND (u64 (scmi_shmem cfg channel + SCMI_PAYLOAD)) p (u32 (vec_size p)) Hb) as H.
  destruct (mem_access _ _ _ _ b) as [[b' ok] d]. destruct H as (H1 & H2 & _); [|apply u32_size_le|done].
  apply Forall_replicate. by cbv.
Qed.
End memory.
