(* ===== verification/MhuServices.v ===== *)
(** Properties of the PSA services (MhuPsa, the model of the PSA part of
    mhu320ae.h): every message is answered, a refused one changes nothing, the
    state stays well formed, and protected storage gives back what was put in. *)

From Stdlib Require Import String.
From S2P Require Import Prelude Bytes Vectors Tlm Memory MhuFrame MhuDevice MhuPsa MhuInv.

(** * Well-formed requests and outputs *)

Definition request_ok (r : rse_ps_request) : Prop :=
  is_u8 (protocol r) /\ is_u8 (seq r) /\ Forall bytes_ok (inputs r).

Definition outputs_ok (o : ps_outputs) : Prop := Forall bytes_ok (out_vecs o).

Lemma vec_at_ok l i : Forall bytes_ok l -> bytes_ok (vec_at l i).
Proof.
  intros H. unfold vec_at. destruct (l !! Z.to_nat i) eqn:E; [|apply bytes_nil_ok]. by eapply Forall_lookup_1 in H.
Qed.

Lemma mhu_splice_ok off bs l : bytes_ok bs -> bytes_ok l -> bytes_ok (splice off bs l).
Proof. intros. unfold splice. repeat apply bytes_app_ok; [by apply Forall_take|done|by apply Forall_drop]. Qed.

Lemma arr_set_bytes i v l : is_u8 v -> bytes_ok l -> bytes_ok (arr_set i v l).
Proof. intros. by apply Forall_insert. Qed.

Lemma set_vec_ok (i : nat) v l : bytes_ok v -> Forall bytes_ok l -> Forall bytes_ok (<[i := v]> l).
Proof. intros. by apply Forall_insert. Qed.

Lemma new_request_ok : request_ok new_request.
Proof. split; [by cbv|]. split; [by cbv|]. repeat (apply Forall_cons_2; [apply bytes_nil_ok|]). apply Forall_nil_2. Qed.

Lemma no_outputs_ok : outputs_ok no_outputs.
Proof. repeat (apply Forall_cons_2; [apply bytes_nil_ok|]). apply Forall_nil_2. Qed.

#[export] Hint Resolve vec_at_ok slice_bytes mhu_splice_ok arr_set_bytes set_vec_ok : mhu.

(** * Parsing *)

Lemma parse_control_ok request r : request_ok r -> request_ok (parse_control request r).
Proof. done. Qed.

Lemma embed_inputs_ok n request sizes i offset r : bytes_ok request -> request_ok r ->
  request_ok (fst (embed_inputs n request sizes i offset r)).
Proof.
  intros Hm. revert i offset r. induction n as [|n IH]; intros i offset r Hr; cbn [embed_inputs]; [done|]. cbv zeta.
  case_if; [done|]. apply IH. destruct Hr as (?&?&?). split; [done|]. split; [done|]. cbn. eauto with mhu.
Qed.

Lemma foldl_request_ok (f : rse_ps_request -> Z -> rse_ps_request) r l :
  (forall r i, request_ok r -> request_ok (f r i)) -> request_ok r -> request_ok (foldl f r l).
Proof. intros Hf. revert r. induction l as [|i l IH]; intros r Hr; [done|]. apply IH. by apply Hf. Qed.

Lemma parse_embed_ok request r : bytes_ok request -> request_ok r ->
  request_ok (fst (parse_rse_ps_embed_request request r)).
Proof.
  intros Hm Hr. unfold parse_rse_ps_embed_request. case_if; [done|]. cbv zeta. case_if; [done|].
  set (sizes := map _ _).
  pose proof (embed_inputs_ok (Z.to_nat (in_len (parse_control request r))) request sizes 0 (12 + 2 * PSA_MAX_IOVEC) _
    Hm (parse_control_ok request r Hr)) as Hok.
  destruct (embed_inputs _ _ _ _ _ _) as [r' [e|]]; [done|]. by apply foldl_request_ok.
Qed.

Section bus.
Context {B : Type} {bus : TlmTarget B}.
Implicit Types b : B.

Lemma pointer_inputs_ok {bb : ByteBus B} n sizes ptrs i r b : request_ok r -> target_inv b ->
  let '(b', (r', _)) := pointer_inputs n sizes ptrs i r b in target_inv b' /\ request_ok r'.
Proof.
  revert i r b. induction n as [|n IH]; intros i r b Hr Hb; cbn [pointer_inputs]; [done|].
  pose proof (mem_read_bytes_inv (arr_get ptrs i) (replicate (Z.to_nat (arr_get sizes i)) 0) b Hb
    ltac:(by apply Forall_replicate; cbv)) as H.
  destruct (mem_read_bytes _ _ b) as [[b' ok] d]. destruct H as (Hb' & Hd & _). cbv zeta.
  assert (request_ok (r <| inputs ::= fun l => <[Z.to_nat i := d]> l |>)) as Hr'.
  { destruct Hr as (?&?&?). split; [done|]. split; [done|]. cbn. eauto with mhu. }
  case_if; [done|]. by apply IH.
Qed.

Lemma parse_pointer_ok {bb : ByteBus B} request r b : request_ok r -> target_inv b ->
  let '(b', (r', _)) := parse_rse_ps_pointer_request request r b in target_inv b' /\ request_ok r'.
Proof.
  intros Hr Hb. unfold parse_rse_ps_pointer_request. cbv zeta. case_if; [done|]. case_if; [done|].
  set (sizes := map _ _). set (ptrs := map _ _).
  pose proof (pointer_inputs_ok (Z.to_nat (in_len (parse_control request r))) sizes ptrs 0 _ b
    (parse_control_ok request r Hr) Hb) as H.
  destruct (pointer_inputs _ _ _ _ _ b) as [b' [r' [e|]]]; [done|]. destruct H as [? ?]. split; [done|].
  by apply foldl_request_ok.
Qed.

Lemma parse_request_ok {bb : ByteBus B} request b : bytes_ok request -> target_inv b ->
  let '(b', (r', _)) := parse_rse_ps_request request new_request b in target_inv b' /\ request_ok r'.
Proof.
  intros Hm Hb. unfold parse_rse_ps_request. case_if; [split; [done|apply new_request_ok]|]. cbv zeta.
  set (r := _ <| client_id := _ |>). assert (request_ok r) as Hr.
  { destruct new_request_ok as (_&_&?). split; [by apply bytes_get|]. split; [by apply bytes_get|done]. }
  case_if; [pose proof (parse_embed_ok request r Hm Hr); by destruct (parse_rse_ps_embed_request _ _)|].
  case_if; [by apply parse_pointer_ok|done].
Qed.
End bus.

(** * Services *)

(** A service ends in success or in one of the PSA errors it reports; what
    changes the device succeeds and returns no data. *)
Definition service_status (status : Z) : Prop :=
  status = PSA_SUCCESS \/ status = PSA_ERROR_NOT_SUPPORTED \/ status = PSA_ERROR_INVALID_ARGUMENT \/
  status = PSA_ERROR_DOES_NOT_EXIST.

Definition refuses_unchanged (s : mhu320ae) (o : ps_outputs) (r : service_result mhu320ae) : Prop :=
  let '(s', o', status) := r in service_status status /\ (s' = s \/ status = PSA_SUCCESS /\ o' = o).

Lemma set_ps_output_status r i v o : service_status (snd (set_ps_output r i v o)).
Proof. unfold set_ps_output. repeat case_if; cbn; unfold service_status; auto. Qed.

Lemma refused s o o' e : service_status e -> refuses_unchanged s o (s, o', e).
Proof. split; [done|by left]. Qed.

Local Ltac refused := apply refused; unfold service_status; auto 6.

Lemma set_output_refuses r i v s o :
  refuses_unchanged s o (let '(o', status) := set_ps_output r i v o in (s, o', status)).
Proof. pose proof (set_ps_output_status r i v o) as H. destruct (set_ps_output _ _ _ _). by apply refused. Qed.

Lemma storage_refuses r s o : refuses_unchanged s o (handle_ps_storage r s o).
Proof.
  unfold handle_ps_storage. cbv zeta.
  repeat first [case_if|destruct (m_ps_store s !! _)]; try (refused; fail); try apply set_output_refuses;
    (split; [by left|by right]).
Qed.

Lemma measured_boot_refuses r s o : refuses_unchanged s o (handle_rse_measured_boot_request r s o).
Proof.
  unfold handle_rse_measured_boot_request. cbv zeta.
  case_if; [repeat (case_if; [refused|]); split; [by left|by right]|].
  case_if; [|refused]. repeat (case_if; [refused|]).
  pose proof (set_ps_output_status r 0 (measurement_metadata (measurement_at (m_measurements s)
    (arr_get (vec_at (inputs r) 0) 0))) o). destruct (set_ps_output _ 0 _ _) as [o1 e1]. case_if; [by apply refused|].
  pose proof (set_ps_output_status r 1 (measurement (measurement_at (m_measurements s)
    (arr_get (vec_at (inputs r) 0) 0))) o1). destruct (set_ps_output _ 1 _ _) as [o2 e2]. case_if; [by apply refused|].
  pose proof (set_ps_output_status r 2 (signer_id (measurement_at (m_measurements s)
    (arr_get (vec_at (inputs r) 0) 0))) o2). destruct (set_ps_output _ 2 _ _). by apply refused.
Qed.

Lemma fwu_status r o : service_status (snd (handle_rse_fwu_request r o)).
Proof.
  unfold handle_rse_fwu_request. cbv zeta. repeat (case_if; [unfold service_status; cbn; auto|]).
  apply set_ps_output_status.
Qed.

Lemma service_refuses r s o : refuses_unchanged s o (handle_rse_ps_request r s o).
Proof.
  unfold handle_rse_ps_request. case_if; [apply measured_boot_refuses|]. case_if.
  - pose proof (fwu_status r o) as H. destruct (handle_rse_fwu_request r o). by apply refused.
  - case_if; [refused|]. apply storage_refuses.
Qed.

(** * What makes a request acceptable *)

(** The fields of a request, as its format lays them out. *)
Definition control_word (request : list Z) : Z := le_val (slice 8 4 request).
Definition vectors_in (request : list Z) : Z := control_word request / 2 ^ 24 mod 8.
Definition vectors_out (request : list Z) : Z := control_word request / 2 ^ 16 mod 8.
Definition size_field (request : list Z) (i : Z) : Z := le_val (slice (12 + 2 * i) 2 request).
Definition sum (l : list Z) : Z := foldr Z.add 0 l.

Definition embed_well_formed (request : list Z) : bool :=
  (20 <=? vec_size request) && (vectors_in request + vectors_out request <=? 4) &&
  (20 + sum (map (size_field request) (range (vectors_in request))) <=? vec_size request).

Definition pointer_well_formed (request : list Z) : bool :=
  (60 <=? vec_size request) && (vectors_in request + vectors_out request <=? 4).

(** The error of a request no service is asked to serve. *)
Definition parse_fault (request : list Z) : option Z :=
  if vec_size request <? 4 then Some PSA_ERROR_INVALID_ARGUMENT
  else if arr_get request 0 =? 0 then
    if embed_well_formed request then None else Some PSA_ERROR_INVALID_ARGUMENT
  else if arr_get request 0 =? 1 then
    if pointer_well_formed request then None else Some PSA_ERROR_INVALID_ARGUMENT
  else Some PSA_ERROR_NOT_SUPPORTED.

Lemma arr_get_map_range (f : Z -> Z) n i : 0 <= i < n -> arr_get (map f (range n)) i = f i.
Proof. intros Hi. unfold arr_get, range. rewrite list_lookup_fmap, lookup_seqZ_lt by lia. cbn. f_equal. lia. Qed.

Lemma seqZ_cons_nat i (n : nat) : seqZ i (Z.of_nat (S n)) = i :: seqZ (i + 1) (Z.of_nat n).
Proof. rewrite seqZ_cons by lia. f_equal; unfold Z.succ; f_equal; lia. Qed.

Section parse.
Context (request : list Z).
Hypothesis Hr : bytes_ok request.
Hypothesis Hsize : vec_size request < 2 ^ 32.

Lemma size_field_range i : 0 <= i -> 14 + 2 * i <= vec_size request -> 0 <= size_field request i < 2 ^ 16.
Proof using Hr.
  intros Hi Hs. unfold size_field. pose proof (le_val_range _ (slice_bytes (12 + 2 * i) 2 request Hr)) as H.
  pose proof (slice_vec_size (12 + 2 * i) 2 request ltac:(lia) ltac:(lia) ltac:(lia)) as E. unfold vec_size in E.
  by rewrite E in H.
Qed.

Lemma parse_control_fields r : 20 <= vec_size request ->
  in_len (parse_control request r) = vectors_in request /\ out_len (parse_control request r) = vectors_out request /\
  handle (parse_control request r) = le_val (slice 4 4 request) /\
  type (parse_control request r) = control_word request mod 2 ^ 16.
Proof using Hr Hsize.
  intros Hs. unfold parse_control, rse_ctrl_in_len, rse_ctrl_out_len, rse_ctrl_type, vectors_in, vectors_out, control_word.
  cbn -[Z.land Z.shiftr Z.pow Z.modulo Z.div]. rewrite !read_le32_val by (done || lia).
  change 7 with (Z.ones 3). change 0xffff with (Z.ones 16).
  rewrite !Z.land_ones, !Z.shiftr_div_pow2 by lia. done.
Qed.

Lemma vectors_range : 0 <= vectors_in request < 8 /\ 0 <= vectors_out request < 8.
Proof using. split; apply Z.mod_pos_bound; lia. Qed.

Lemma too_many_spec r : 20 <= vec_size request ->
  too_many_vectors (parse_control request r) = negb (vectors_in request + vectors_out request <=? 4).
Proof using Hr Hsize.
  intros Hs. destruct (parse_control_fields r Hs) as (Ei & Eo & _). unfold too_many_vectors, PSA_MAX_IOVEC.
  rewrite Ei, Eo. pose proof vectors_range. lia.
Qed.

(** The input vectors fit exactly when their sizes add up to what is there. *)
Lemma embed_inputs_fault n sizes i offset r : 0 <= i -> (forall k, i <= k < i + Z.of_nat n -> 0 <= arr_get sizes k) ->
  offset <= vec_size request ->
  snd (embed_inputs n request sizes i offset r) =
  if offset + sum (map (arr_get sizes) (seqZ i (Z.of_nat n))) <=? vec_size request then None
  else Some PSA_ERROR_INVALID_ARGUMENT.
Proof using.
  revert i offset r. induction n as [|n IH]; intros i offset r Hi Hp Ho.
  { change (sum _) with 0. by replace (offset + 0 <=? vec_size request) with true by lia. }
  rewrite seqZ_cons_nat. cbn [embed_inputs map sum foldr]. cbv zeta.
  assert (0 <= sum (map (arr_get sizes) (seqZ (i + 1) (Z.of_nat n)))) as Hsum.
  { assert (forall l, (forall k, k ∈ l -> 0 <= arr_get sizes k) -> 0 <= sum (map (arr_get sizes) l)) as H.
    { induction l as [|k l IHl]; intros Hl; cbn; [done|]. pose proof (Hl k ltac:(by left)).
      pose proof (IHl (fun k' Hk' => Hl k' (list_elem_of_further k' k l Hk'))). unfold sum in *. lia. }
    apply H. intros k Hk%elem_of_seqZ. apply Hp. lia. }
  pose proof (Hp i ltac:(lia)). destruct (Z.ltb_spec (vec_size request) (offset + arr_get sizes i)).
  - replace (offset + _ <=? vec_size request) with false; [done|]. unfold sum in *. lia.
  - rewrite IH; [|lia|intros k Hk; apply Hp; lia|lia]. unfold sum. by rewrite Z.add_assoc.
Qed.

Lemma parse_embed_fault r :
  snd (parse_rse_ps_embed_request request r) =
  if embed_well_formed request then None else Some PSA_ERROR_INVALID_ARGUMENT.
Proof using Hr Hsize.
  unfold parse_rse_ps_embed_request, embed_well_formed. change (4 + 4 * 2 + 2 * PSA_MAX_IOVEC) with 20.
  destruct (Z.ltb_spec (vec_size request) 20) as [Hs|Hs].
  { by replace (20 <=? vec_size request) with false by lia. }
  replace (20 <=? vec_size request) with true by lia. cbv zeta. rewrite too_many_spec by done.
  destruct (Z.leb_spec (vectors_in request + vectors_out request) 4) as [Hn|Hn]; cbn [negb andb]; [|done].
  destruct (parse_control_fields r Hs) as (Ei & _). pose proof vectors_range as [[Hi0 _] [Ho0 _]].
  set (sizes := map _ _). change (12 + 2 * PSA_MAX_IOVEC) with 20.
  assert (forall k, 0 <= k < vectors_in request -> arr_get sizes k = size_field request k) as Hk.
  { intros k Hk. unfold sizes, PSA_MAX_IOVEC. rewrite arr_get_map_range by lia. apply read_le16_val; (done || lia). }
  pose proof (embed_inputs_fault (Z.to_nat (vectors_in request)) sizes 0 20 (parse_control request r) ltac:(lia)) as H.
  rewrite Z2Nat.id in H by done. rewrite Ei.
  destruct (embed_inputs _ _ _ _ _ _) as [r' e]. cbn [snd] in H. rewrite H; [..|done]; clear H.
  - erewrite (map_ext_in _ (size_field request)).
    + unfold range. by case_if.
    + intros k Hk'%list_elem_of_In. apply elem_of_seqZ in Hk'. apply Hk. lia.
  - intros k Hk'. rewrite Hk by lia. apply size_field_range; lia.
Qed.
End parse.

(** * Replies *)

Lemma foldl_app_ext {A} (f : list Z -> A -> list Z) l acc : (forall a x, exists tail, f a x = a ++ tail) ->
  exists tail, foldl f acc l = acc ++ tail.
Proof.
  intros Hf. revert acc. induction l as [|x l IH]; intros acc; [exists []; by rewrite app_nil_r|].
  destruct (Hf acc x) as [t1 E1]. destruct (IH (f acc x)) as [t2 E2]. exists (t1 ++ t2). cbn. by rewrite E2, E1, app_assoc.
Qed.

(** The identification of a request that its reply repeats. *)
Definition message_id (request : list Z) : list Z :=
  if 4 <=? vec_size request then take 4 request else [0; 0; 0; 0].

(** Every reply starts with the identification and the status. *)
Lemma encode_reply_prefix r status o : exists tail,
  encode_reply r status o = [protocol r; seq r] ++ le_bytes 2 (client_id r) ++ le_bytes 4 (u32 status) ++ tail.
Proof.
  unfold encode_reply. cbv zeta. rewrite append_u32_eq, append_u16_eq, <-!app_assoc.
  set (pre := [protocol r; seq r] ++ _ ++ _). case_if.
  - destruct (foldl_app_ext (fun reply i => append_u32 reply (arr_get (out_sizes o) i)) (range PSA_MAX_IOVEC) pre)
      as [t ->]; [intros; rewrite append_u32_eq; eauto|]. exists t. unfold pre. by rewrite <-!app_assoc.
  - destruct (foldl_app_ext (fun reply i => append_u16 reply (u16 (arr_get (out_sizes o) i))) (range PSA_MAX_IOVEC) pre)
      as [t ->]; [intros; rewrite append_u16_eq; eauto|]. case_if; [|exists t; unfold pre; by rewrite <-!app_assoc].
    destruct (foldl_app_ext (fun reply i => reply ++ vec_at (out_vecs o) i) (range (out_len r)) (pre ++ t))
      as [t' ->]; [eauto|]. exists (t ++ t'). unfold pre. by rewrite <-!app_assoc.
Qed.

Lemma client_id_bytes lo hi : is_u8 lo -> is_u8 hi -> le_bytes 2 (Z.lor lo (Z.shiftl hi 8)) = [lo; hi].
Proof.
  intros Hlo [H0 H1]. rewrite Z.lor_comm, lor_pack by (done || lia). cbn [le_bytes]. change (2 ^ 8) with 256 in *.
  rewrite mod_pack, div_pack, Z.mod_small by (done || lia). done.
Qed.

Lemma message_id_fields request : bytes_ok request -> 4 <= vec_size request ->
  [arr_get request 0; arr_get request 1] ++
  le_bytes 2 (Z.lor (arr_get request 2) (Z.shiftl (arr_get request 3) 8)) = message_id request.
Proof.
  intros Hr Hs. rewrite client_id_bytes by by apply bytes_get. unfold message_id.
  replace (4 <=? vec_size request) with true by lia. unfold vec_size in Hs.
  destruct request as [|a [|b [|c [|d rest]]]]; cbn in Hs; try lia. done.
Qed.

Definition id_fields (r : rse_ps_request) : list Z := [protocol r; seq r] ++ le_bytes 2 (client_id r).

Lemma embed_inputs_id n request sizes i offset r : id_fields (fst (embed_inputs n request sizes i offset r)) = id_fields r.
Proof. revert i offset r. induction n as [|n IH]; intros i offset r; cbn [embed_inputs]; [done|]. cbv zeta. case_if; [done|]. by rewrite IH. Qed.

Lemma foldl_id (f : rse_ps_request -> Z -> rse_ps_request) r l : (forall r i, id_fields (f r i) = id_fields r) ->
  id_fields (foldl f r l) = id_fields r.
Proof. intros Hf. revert r. induction l as [|i l IH]; intros r; [done|]. cbn [foldl]. rewrite IH. apply Hf. Qed.

Lemma parse_embed_id request r : id_fields (fst (parse_rse_ps_embed_request request r)) = id_fields r.
Proof.
  unfold parse_rse_ps_embed_request. case_if; [done|]. cbv zeta. case_if; [done|]. set (sizes := map _ _).
  pose proof (embed_inputs_id (Z.to_nat (in_len (parse_control request r))) request sizes 0 (12 + 2 * PSA_MAX_IOVEC)
    (parse_control request r)) as H.
  destruct (embed_inputs _ _ _ _ _ _) as [r' [e|]]; [done|]. cbn [fst]. by rewrite foldl_id.
Qed.

Section bus.
Context {B : Type} {bus : TlmTarget B}.
Implicit Types b : B.

Lemma pointer_inputs_id n sizes ptrs i r b : id_fields (fst (snd (pointer_inputs n sizes ptrs i r b))) = id_fields r.
Proof.
  revert i r b. induction n as [|n IH]; intros i r b; cbn [pointer_inputs]; [done|].
  destruct (mem_read_bytes _ _ b) as [[b' ok] d]. cbv zeta. case_if; [done|]. by rewrite IH.
Qed.

Lemma parse_pointer_id request r b : id_fields (fst (snd (parse_rse_ps_pointer_request request r b))) = id_fields r.
Proof.
  unfold parse_rse_ps_pointer_request. cbv zeta. case_if; [done|]. case_if; [done|]. set (sizes := map _ _). set (ptrs := map _ _).
  pose proof (pointer_inputs_id (Z.to_nat (in_len (parse_control request r))) sizes ptrs 0 (parse_control request r) b) as H.
  destruct (pointer_inputs _ _ _ _ _ b) as [b' [r' [e|]]]; [done|]. cbn [fst snd]. by rewrite foldl_id.
Qed.

(** Parsing keeps the identification, and a faulty request stops it before the
    bus is reached. *)
Lemma parse_request_id request b : bytes_ok request -> 4 <= vec_size request ->
  id_fields (fst (snd (parse_rse_ps_request request new_request b))) = message_id request.
Proof.
  intros Hr Hs. unfold parse_rse_ps_request. replace (vec_size request <? 4) with false by lia. cbv zeta.
  rewrite <-message_id_fields by done.
  case_if; [cbn [snd]; by rewrite parse_embed_id|]. case_if; [by rewrite parse_pointer_id|done].
Qed.

Lemma parse_request_fault request b : bytes_ok request -> vec_size request < 2 ^ 32 ->
  match parse_fault request with
  | Some e => exists r, parse_rse_ps_request request new_request b = (b, (r, Some e))
  | None => let '(_, (_, e)) := parse_rse_ps_request request new_request b in
            e = None \/ e = Some PSA_ERROR_COMMUNICATION_FAILURE
  end.
Proof.
  intros Hr Hs. unfold parse_fault, parse_rse_ps_request. case_if; [eauto|]. cbv zeta. set (r := _ <| client_id := _ |>).
  change (protocol r) with (arr_get request 0). unfold RSE_COMMS_PROTOCOL_EMBED, RSE_COMMS_PROTOCOL_POINTER_ACCESS.
  case_if.
  { pose proof (parse_embed_fault request Hr Hs r) as H. destruct (parse_rse_ps_embed_request request r) as [r' e].
    cbn [snd] in H. subst e. destruct (embed_well_formed request); eauto. }
  case_if; [|eauto]. unfold pointer_well_formed, parse_rse_ps_pointer_request.
  change (4 + 4 * 2 + 4 * PSA_MAX_IOVEC + 8 * PSA_MAX_IOVEC) with 60. cbv zeta.
  destruct (Z.ltb_spec (vec_size request) 60) as [Hp|Hp].
  { replace (60 <=? vec_size request) with false by lia. cbn [andb]. eauto. }
  replace (60 <=? vec_size request) with true by lia. rewrite too_many_spec by (done || lia).
  destruct (vectors_in request + vectors_out request <=? 4); cbn [negb andb]; [|eauto].
  assert (forall n sizes ptrs i r b, let '(_, (_, e)) := pointer_inputs n sizes ptrs i r b in
            e = None \/ e = Some PSA_ERROR_COMMUNICATION_FAILURE) as H.
  { clear. induction n as [|n IH]; intros sizes ptrs i r b; cbn [pointer_inputs]; [by left|].
    destruct (mem_read_bytes _ _ b) as [[b' ok] d]. cbv zeta. case_if; [by right|apply IH]. }
  specialize (H (Z.to_nat (in_len (parse_control request r))) (map (fun i => read_le32 request (12 + 4 * i)) (range PSA_MAX_IOVEC))
    (map (fun i => read_le64 request (12 + 4 * PSA_MAX_IOVEC + 8 * i)) (range PSA_MAX_IOVEC)) 0 (parse_control request r) b).
  destruct (pointer_inputs _ _ _ _ _ b) as [b' [r' [e|]]]; [exact H|by left].
Qed.

(** Nothing is stored for empty outputs, so it cannot fail. *)
Lemma pointer_outputs_empty n ptrs i b : pointer_outputs n ptrs (replicate 4 []) i b = (b, true).
Proof.
  revert i. induction n as [|n IH]; intros i; cbn [pointer_outputs]; [done|].
  replace (vec_at (replicate 4 []) i) with (@nil Z).
  - cbn. apply IH.
  - unfold vec_at. destruct (replicate 4 [] !! Z.to_nat i) eqn:E; [|done]. by apply lookup_replicate in E as [-> _].
Qed.
End bus.

(** * Refusals *)

Definition psa_status (status : Z) : Prop := service_status status \/ status = PSA_ERROR_COMMUNICATION_FAILURE.

(** What is left of a reply after its request was parsed: the identification of
    the request, a status, and no change of the device with an error. *)
Definition answers (request : list Z) (s s' : mhu320ae) (reply : list Z) (status : Z) : Prop :=
  psa_status status /\ (status <> PSA_SUCCESS -> s' = s) /\
  exists tail, reply = message_id request ++ le_bytes 4 (u32 status) ++ tail.

Section refusal.
Context {B : Type} {bus : TlmTarget B}.
Implicit Types b : B.

Lemma answers_intro request s s' r status o : id_fields r = message_id request ->
  psa_status status -> (status <> PSA_SUCCESS -> s' = s) -> answers request s s' (encode_reply r status o) status.
Proof.
  intros Hid Hst Hs. split; [done|]. split; [done|]. destruct (encode_reply_prefix r status o) as [tail E].
  exists tail. rewrite E, <-Hid. unfold id_fields. by rewrite <-!app_assoc.
Qed.

(** The request whose reply is built: the parsed one, or the bare identification. *)
Lemma reply_id request b : bytes_ok request ->
  let '(_, (r, error)) := parse_rse_ps_request request new_request b in
  id_fields (match error with
             | Some _ =>
                 if 4 <=? vec_size request then
                   r <| protocol := arr_get request 0 |> <| seq := arr_get request 1 |>
                     <| client_id := Z.lor (arr_get request 2) (Z.shiftl (arr_get request 3) 8) |>
                 else r
             | None => r
             end) = message_id request.
Proof.
  intros Hr. destruct (Z.leb_spec 4 (vec_size request)) as [H4|H4].
  - pose proof (parse_request_id request b Hr H4) as Hid. destruct (parse_rse_ps_request _ _ b) as [b' [r [e|]]]; [|done].
    by rewrite <-message_id_fields.
  - unfold parse_rse_ps_request. replace (vec_size request <? 4) with true by lia.
    unfold message_id. by replace (4 <=? vec_size request) with false by lia.
Qed.

(** C29. Every message to the PSA services is answered with its own identification
    and one of the PSA status codes.  An error status means that nothing
    changed: no object was stored or removed, no measurement extended, whatever
    the request asked for.  A message that breaks its format - too short, too
    many vectors, vectors longer than the message - or names an unknown
    protocol gets the error the format calls for, and is refused before the bus
    is reached. *)
Theorem psa_refusal_changes_nothing request s b :
  bytes_ok request -> vec_size request < 2 ^ 32 ->
  let '(s', b', reply) := build_rse_ps_reply request s b in
  exists status, answers request s s' reply status /\
    (forall e, parse_fault request = Some e -> status = e /\ b' = b).
Proof.
  intros Hr Hs. unfold build_rse_ps_reply.
  pose proof (parse_request_fault request b Hr Hs) as Hf. pose proof (reply_id request b Hr) as Hid.
  destruct (parse_fault request) as [e|] eqn:Ef.
  - destruct Hf as [r E]. rewrite E in *. set (r' := if 4 <=? _ then _ else r) in *.
    assert (e = PSA_ERROR_INVALID_ARGUMENT \/ e = PSA_ERROR_NOT_SUPPORTED) as He.
    { unfold parse_fault in Ef. repeat case_if; simplify_eq; auto. }
    replace (e =? PSA_SUCCESS) with false by (by destruct He as [-> | ->]). cbn [andb].
    exists e. split; [|by intros ? [= <-]]. apply answers_intro; [done| |done].
    unfold psa_status, service_status. destruct He as [-> | ->]; auto.
  - destruct (parse_rse_ps_request _ _ b) as [b1 [r [e|]]].
    { destruct Hf as [?|[= ->]]; [done|]. exists PSA_ERROR_COMMUNICATION_FAILURE. split; [|done].
      apply answers_intro; [done|by right|done]. }
    pose proof (service_refuses r s no_outputs) as Hsv. destruct (handle_rse_ps_request r s no_outputs) as [[s' o] status].
    destruct Hsv as [Hst Hch]. destruct (Z.eqb_spec status PSA_SUCCESS) as [->|Hne]; cbn [andb].
    + destruct (protocol r =? RSE_COMMS_PROTOCOL_POINTER_ACCESS).
      * destruct (pointer_outputs _ _ _ _ b1) as [b2 ok] eqn:Ep. destruct ok.
        { exists PSA_SUCCESS. split; [|done]. apply answers_intro; [done|by left; left|done]. }
        exists PSA_ERROR_COMMUNICATION_FAILURE. split; [|done]. apply answers_intro; [done|by right|]. intros _.
        destruct Hch as [?|[_ ->]]; [done|]. unfold no_outputs in Ep. cbn [out_vecs] in Ep.
        rewrite pointer_outputs_empty in Ep. done.
      * exists PSA_SUCCESS. split; [|done]. apply answers_intro; [done|by left; left|done].
    + exists status. split; [|done]. apply answers_intro; [done|by left|]. intros _. by destruct Hch as [?|[? _]].
Qed.
End refusal.

(** * The services keep the device well formed *)

Section keep.
Context (cfg : mhu_config).

Lemma ps_store_inv s f : dev_inv cfg s -> map_Forall ps_entry_ok (f (m_ps_store s)) -> dev_inv cfg (s <| m_ps_store ::= f |>).
Proof. intros [(H1 & H2 & H3 & H4 & _ & H5) Hi] Hf. split; [|exact Hi]. by do 4 (split; [done|]). Qed.

Lemma measurements_inv s g : dev_inv cfg s -> length (g (m_measurements s)) = 32%nat ->
  Forall measurement_ok (g (m_measurements s)) -> dev_inv cfg (s <| m_measurements ::= g |>).
Proof. intros [(H1 & H2 & H3 & H4 & H5 & _) Hi] Hl Hg. split; [|exact Hi]. by do 4 (split; [done|]). Qed.

Lemma set_ps_output_ok r i v o : bytes_ok v -> outputs_ok o -> outputs_ok (fst (set_ps_output r i v o)).
Proof. intros Hv Ho. unfold set_ps_output. repeat case_if; [done..|]. unfold outputs_ok. cbn. by apply set_vec_ok. Qed.

Lemma append_at_u32_ok l off v : bytes_ok l -> bytes_ok (append_at_u32 l off v).
Proof. intros H. unfold append_at_u32. case_if; [done|]. repeat apply arr_set_bytes; eauto with uint. Qed.

Lemma bounded_bytes_ok l off n k : bytes_ok l -> bytes_ok (bounded_bytes l off n k).
Proof. intros H. unfold bounded_bytes. case_if; [apply bytes_nil_ok|]. by apply slice_bytes. Qed.

Lemma bounded_bytes_size l off n k : 0 <= k -> vec_size (bounded_bytes l off n k) <= k.
Proof.
  intros H. unfold bounded_bytes. case_if; [done|]. cbv zeta. unfold slice, vec_size. rewrite length_take. lia.
Qed.

Lemma measurement_at_ok l i : Forall measurement_ok l -> measurement_ok (measurement_at l i).
Proof.
  intros H. unfold measurement_at. destruct (l !! Z.to_nat i) eqn:E; [by eapply Forall_lookup_1 in H|].
  split; [by cbv|]. repeat split; try (by cbv); apply bytes_nil_ok.
Qed.

Lemma metadata_ok e : measurement_ok e -> bytes_ok (measurement_metadata e).
Proof.
  intros (Ha & (_ & Hsw) & (_ & Hv) & _). unfold measurement_metadata. cbv zeta.
  apply arr_set_bytes; [apply wrap_range; lia|]. apply mhu_splice_ok; [done|].
  apply arr_set_bytes; [apply wrap_range; lia|]. apply mhu_splice_ok; [done|].
  do 4 (apply arr_set_bytes; [eauto with uint|]). apply arr_set_bytes; [by case_if; cbv|].
  apply Forall_replicate. by cbv.
Qed.

(** The copies of the measured-boot read stay inside the metadata record. *)
Lemma metadata_size e : measurement_ok e -> vec_size (measurement_metadata e) = 56.
Proof.
  intros (_ & (Hsw & _) & (Hv & _) & _). unfold measurement_metadata. cbv zeta.
  assert (forall i v l, vec_size (arr_set i v l) = vec_size l) as Hset.
  { intros. unfold vec_size. by rewrite arr_set_length. }
  set (m0 := arr_set 7 _ _). assert (vec_size m0 = 56) as H0 by (unfold m0; by rewrite !Hset).
  assert (vec_size (splice 8 (sw_type e) m0) = 56) as H1 by (rewrite splice_size; lia).
  rewrite Hset, splice_size; rewrite ?Hset; lia.
Qed.

Definition service_ok (r : service_result mhu320ae) : Prop := let '(s, o, _) := r in dev_inv cfg s /\ outputs_ok o.

Lemma set_output_ok r i v s o : dev_inv cfg s -> outputs_ok o -> bytes_ok v ->
  service_ok (let '(o', status) := set_ps_output r i v o in (s, o', status)).
Proof. intros Hs Ho Hv. pose proof (set_ps_output_ok r i v o Hv Ho). by destruct (set_ps_output _ _ _ _). Qed.

Lemma storage_ok r s o : request_ok r -> dev_inv cfg s -> outputs_ok o -> service_ok (handle_ps_storage r s o).
Proof.
  intros (_ & _ & Hin) Hs Ho. pose proof Hs as [(_ & _ & _ & _ & Hps & _) _]. unfold handle_ps_storage. cbv zeta.
  case_if.
  { case_if; [done|]. split; [|done]. apply ps_store_inv; [done|]. apply map_Forall_insert_2; [|done].
    split; cbn; eauto with mhu. }
  repeat case_if; try done; try (destruct (m_ps_store s !! _) as [e|] eqn:Ee; [|done]).
  - case_if; [done|]. apply set_output_ok; [done|done|]. apply slice_bytes, (Hps _ _ Ee).
  - apply set_output_ok; eauto with mhu.
  - split; [|done]. apply ps_store_inv; [done|]. by apply map_Forall_delete.
  - apply set_output_ok; eauto with mhu.
Qed.

Lemma measured_boot_ok r s o : request_ok r -> dev_inv cfg s -> outputs_ok o ->
  service_ok (handle_rse_measured_boot_request r s o).
Proof.
  intros (_ & _ & Hin) Hs Ho. pose proof Hs as [(_ & _ & _ & _ & _ & Hl & Hm) _].
  unfold handle_rse_measured_boot_request. cbv zeta. case_if.
  { case_if; [done|]. case_if; [done|]. split; [|done]. apply measurements_inv; [done|by rewrite length_insert|].
    apply Forall_insert; [done|].
    split; [cbn; eauto with mhu|]. cbn. repeat split; (apply bounded_bytes_size; done) || (apply bounded_bytes_ok; eauto with mhu). }
  case_if; [|done]. repeat (case_if; [done|]). set (e := measurement_at _ _).
  assert (measurement_ok e) as He by by apply measurement_at_ok.
  pose proof (set_ps_output_ok r 0 _ o (metadata_ok e He) Ho) as H1. destruct (set_ps_output r 0 _ o) as [o1 e1].
  case_if; [done|]. destruct He as (_ & _ & _ & [_ Hsg] & [_ Hms]).
  pose proof (set_ps_output_ok r 1 _ o1 Hms H1) as H2. destruct (set_ps_output r 1 _ o1) as [o2 e2].
  case_if; [done|]. by apply set_output_ok.
Qed.

Lemma fwu_ok r o : outputs_ok o -> outputs_ok (fst (handle_rse_fwu_request r o)).
Proof.
  intros Ho. unfold handle_rse_fwu_request. cbv zeta. repeat (case_if; [done|]). apply set_ps_output_ok; [|done].
  unfold fwu_component_info. cbv zeta. repeat apply append_at_u32_ok. repeat (apply arr_set_bytes; [by cbv|]).
  apply Forall_replicate. by cbv.
Qed.

Lemma service_keeps r s o : request_ok r -> dev_inv cfg s -> outputs_ok o -> service_ok (handle_rse_ps_request r s o).
Proof.
  intros Hr Hs Ho. unfold handle_rse_ps_request. case_if; [by apply measured_boot_ok|]. case_if.
  - pose proof (fwu_ok r o Ho). by destruct (handle_rse_fwu_request r o).
  - case_if; [done|]. by apply storage_ok.
Qed.
End keep.

Section keep_reply.
Context (cfg : mhu_config) {B : Type} {bus : TlmTarget B} {bb : ByteBus B}.

Lemma pointer_outputs_inv n ptrs vecs i (b : B) : target_inv b -> Forall bytes_ok vecs ->
  target_inv (fst (pointer_outputs n ptrs vecs i b)).
Proof.
  intros Hb Hv. revert i b Hb. induction n as [|n IH]; intros i b Hb; cbn [pointer_outputs]; [done|].
  pose proof (mem_write_bytes_inv (arr_get ptrs i) (vec_at vecs i) b Hb ltac:(eauto with mhu)) as H.
  destruct (mem_write_bytes _ _ b) as [b' ok]. case_if; [done|]. by apply IH.
Qed.

Lemma foldl_bytes_ok {A} (f : list Z -> A -> list Z) l acc : (forall a x, bytes_ok a -> bytes_ok (f a x)) ->
  bytes_ok acc -> bytes_ok (foldl f acc l).
Proof. intros Hf. revert acc. induction l as [|x l IH]; intros acc Ha; [done|]. apply IH. by apply Hf. Qed.

Lemma encode_reply_ok r status o : is_u8 (protocol r) -> is_u8 (seq r) -> outputs_ok o -> bytes_ok (encode_reply r status o).
Proof.
  intros Hp Hs Ho. unfold encode_reply. cbv zeta.
  assert (bytes_ok (append_u32 (append_u16 [protocol r; seq r] (client_id r)) (u32 status))) as H.
  { apply append_u32_ok, append_u16_ok. do 2 (apply Forall_cons_2; [done|]). apply Forall_nil_2. }
  case_if; [apply foldl_bytes_ok; [|done]; eauto with mhu|].
  case_if; repeat (apply foldl_bytes_ok; [intros; eauto with mhu|]); done.
Qed.

Lemma build_reply_inv request s b : bytes_ok request -> dev_inv cfg s -> target_inv b ->
  let '(s', b', reply) := build_rse_ps_reply request s b in dev_inv cfg s' /\ target_inv b' /\ bytes_ok reply.
Proof.
  intros Hr Hs Hb. unfold build_rse_ps_reply. pose proof (parse_request_ok request b Hr Hb) as H.
  destruct (parse_rse_ps_request _ _ b) as [b1 [r error]]. destruct H as [Hb1 Hrq].
  pose proof (service_keeps cfg r s no_outputs Hrq Hs no_outputs_ok) as Hsv.
  set (res := match error with None => _ | Some _ => _ end).
  assert (service_ok cfg res) as Hres by (unfold res; destruct error; [split; [done|apply no_outputs_ok]|done]).
  clearbody res. destruct res as [[s1 o] status]. destruct Hres as [Hs1 Ho].
  set (r' := match error with None => _ | Some _ => _ end).
  assert (is_u8 (protocol r') /\ is_u8 (seq r')) as [Hp Hq].
  { unfold r'. destruct Hrq as (?&?&_). destruct error; [|done]. case_if; [|done].
    split; by apply bytes_get. }
  clearbody r'. case_if; [|by split; [|split; [|apply encode_reply_ok]]].
  pose proof (pointer_outputs_inv (Z.to_nat (out_len r')) (out_ptrs r') (out_vecs o) 0 b1 Hb1 Ho) as Hb2.
  destruct (pointer_outputs _ _ _ _ b1) as [b2 ok]. case_if; (split; [done|split; [done|by apply encode_reply_ok]]).
Qed.

Lemma success_reply_ok request : bytes_ok request -> bytes_ok (build_rse_success_reply request).
Proof.
  intros Hr. unfold build_rse_success_reply. cbv zeta. set (p := if 1 <=? _ then _ else _).
  assert (forall i k, is_u8 k -> forall c : bool, is_u8 (if c then arr_get request i else k)) as H.
  { intros i k Hk [|]; [by apply bytes_get|done]. }
  assert (bytes_ok (append_u32 [p; if 2 <=? vec_size request then arr_get request 1 else 0;
    if 3 <=? vec_size request then arr_get request 2 else 0; if 4 <=? vec_size request then arr_get request 3 else 0]
    PSA_SUCCESS)) as Hpre.
  { apply append_u32_ok. do 4 (apply Forall_cons_2; [by apply H|]). apply Forall_nil_2. }
  case_if; (apply foldl_bytes_ok; [eauto with mhu|done]).
Qed.
End keep_reply.

(** * Embedded requests *)

(** A request in the embedded format, as a client lays it out. *)
Definition embed_control (ty : Z) (ins : list (list Z)) (caps : list Z) : Z :=
  ty + 2 ^ 16 * vec_size caps + 2 ^ 24 * vec_size ins.
Definition embed_sizes (ins : list (list Z)) (caps : list Z) : list Z :=
  map vec_size ins ++ caps ++ replicate (4 - length ins - length caps) 0.
Definition embed_message (sq client hd ty : Z) (ins : list (list Z)) (caps : list Z) : list Z :=
  [RSE_COMMS_PROTOCOL_EMBED; sq] ++ le_bytes 2 client ++ le_bytes 4 hd ++ le_bytes 4 (embed_control ty ins caps) ++
  concat (map (le_bytes 2) (embed_sizes ins caps)) ++ concat ins.

(** What a client may send. *)
Definition sendable (sq client hd ty : Z) (ins : list (list Z)) (caps : list Z) : Prop :=
  is_u8 sq /\ is_u16 client /\ is_u32 hd /\ is_u16 ty /\ (length ins + length caps <= 4)%nat /\
  Forall (fun v => bytes_ok v /\ vec_size v < 2 ^ 16) ins /\ Forall is_u16 caps.

(** Reading the vectors of a message one after the other. *)
Lemma embed_inputs_concat sizes rest : forall pre request i done_ m r,
  request = pre ++ concat rest -> Z.of_nat (length done_) = i ->
  (forall k : nat, (k < length rest)%nat -> arr_get sizes (i + Z.of_nat k) = vec_size (vec_at rest (Z.of_nat k))) ->
  inputs r = done_ ++ replicate (length rest + m) [] ->
  embed_inputs (length rest) request sizes i (vec_size pre) r =
  (r <| inputs := done_ ++ rest ++ replicate m [] |>, None).
Proof.
  induction rest as [|x rest IH]; intros pre request i done_ m r Er Ei Hk Hin; cbn [embed_inputs length].
  { cbn [app length plus] in *. destruct r. cbn in *. by subst. }
  cbv zeta. pose proof (Hk 0%nat ltac:(cbn; lia)) as Hx. rewrite Z.add_0_r in Hx. change (vec_at _ _) with x in Hx.
  rewrite Hx. cbn [concat] in Er. assert (vec_size request = vec_size pre + vec_size x + vec_size (concat rest)) as Hs.
  { subst request. rewrite !vec_size_app. lia. }
  replace (vec_size request <? vec_size pre + vec_size x) with false by (unfold vec_size in *; lia).
  assert (slice (vec_size pre) (vec_size x) request = x) as -> by (subst request; apply slice_middle).
  replace (vec_size pre + vec_size x) with (vec_size (pre ++ x)) by apply vec_size_app.
  erewrite (IH (pre ++ x) request (i + 1) (done_ ++ [x]) m).
  - destruct r. cbn. rewrite <-!app_assoc. done.
  - by rewrite <-app_assoc.
  - rewrite length_app. cbn. lia.
  - intros k Hlt. pose proof (Hk (S k) ltac:(cbn; lia)) as H. replace (i + 1 + Z.of_nat k) with (i + Z.of_nat (S k)) by lia.
    rewrite H. f_equal. unfold vec_at. rewrite !Nat2Z.id. done.
  - cbn. rewrite Hin. cbn [length plus replicate]. replace (Z.to_nat i) with (length done_) by lia.
    rewrite insert_app_r_alt, Nat.sub_diag by lia. cbn. by rewrite <-app_assoc.
Qed.

Lemma concat_words_size l : vec_size (concat (map (le_bytes 2) l)) = 2 * vec_size l.
Proof.
  unfold vec_size. induction l as [|x l IH]; [done|]. cbn [map concat]. rewrite length_app, le_bytes_length. cbn [length]. lia.
Qed.

(** Element [i] of a run of 16-bit words in a message. *)
Lemma slice_words pre l post i : 0 <= i < vec_size l ->
  slice (vec_size pre + 2 * i) 2 (pre ++ concat (map (le_bytes 2) l) ++ post) = le_bytes 2 (arr_get l i).
Proof.
  intros Hi. destruct (lookup_lt_is_Some_2 l (Z.to_nat i)) as [x Hx]; [unfold vec_size in Hi; lia|].
  unfold arr_get. rewrite Hx. cbn [default]. rewrite <-(take_drop_middle l (Z.to_nat i) x Hx) at 1.
  rewrite map_app, concat_app. cbn [map concat]. rewrite <-!app_assoc.
  set (a := concat (map (le_bytes 2) (take _ l))). rewrite (app_assoc pre a).
  replace (vec_size pre + 2 * i) with (vec_size (pre ++ a)).
  2:{ rewrite vec_size_app. unfold a. rewrite concat_words_size. unfold vec_size in *. rewrite length_take. lia. }
  change 2 with (vec_size (le_bytes 2 x)) at 1. apply slice_middle.
Qed.

Lemma Forall_concat_bytes ls : Forall bytes_ok ls -> bytes_ok (concat ls).
Proof. induction 1; [apply bytes_nil_ok|]. by apply bytes_app_ok. Qed.

Section message.
Context (sq client hd ty : Z) (ins : list (list Z)) (caps : list Z).
Hypothesis H : sendable sq client hd ty ins caps.
Let msg := embed_message sq client hd ty ins caps.

Lemma ins_size : 0 <= vec_size ins <= 4 /\ 0 <= vec_size caps <= 4 /\ vec_size ins + vec_size caps <= 4.
Proof using H. destruct H as (_&_&_&_&Hl&_). unfold vec_size. lia. Qed.

Lemma sizes_length : vec_size (embed_sizes ins caps) = 4.
Proof using H.
  destruct H as (_&_&_&_&Hl&_). unfold embed_sizes, vec_size. rewrite !length_app, length_map, length_replicate. lia.
Qed.

Lemma sizes_u16 : Forall is_u16 (embed_sizes ins caps).
Proof using H.
  destruct H as (_&_&_&_&_&Hin&Hc). repeat apply Forall_app_2; [|done|apply Forall_replicate; by cbv].
  apply Forall_fmap. eapply Forall_impl; [exact Hin|]. intros v [_ Hv]. split; [unfold vec_size; lia|exact Hv].
Qed.

Lemma control_value : is_u32 (embed_control ty ins caps) /\
  embed_control ty ins caps / 2 ^ 24 mod 8 = vec_size ins /\ embed_control ty ins caps / 2 ^ 16 mod 8 = vec_size caps /\
  embed_control ty ins caps mod 2 ^ 16 = ty.
Proof using H.
  pose proof ins_size as (Hi & Hc & _). destruct H as (_&_&_&[Ht0 Ht1]&_). unfold embed_control.
  change (2 ^ 24) with 16777216. change (2 ^ 16) with 65536 in *. split; [split; lia|].
  split; [|split]; (Z.to_euclidean_division_equations; lia).
Qed.

Lemma embed_message_bytes : bytes_ok msg.
Proof using H.
  destruct H as (Hs&_&_&_&_&Hin&_). unfold msg, embed_message. repeat apply bytes_app_ok; try apply le_bytes_ok.
  - apply Forall_cons_2; [by cbv|]. apply Forall_cons_2; [done|]. apply Forall_nil_2.
  - apply Forall_concat_bytes, Forall_fmap, Forall_true. intros x. apply le_bytes_ok.
  - apply Forall_concat_bytes. eapply Forall_impl; [exact Hin|]. by intros v [? _].
Qed.

Let pre : list Z := [RSE_COMMS_PROTOCOL_EMBED; sq] ++ le_bytes 2 client ++ le_bytes 4 hd ++ le_bytes 4 (embed_control ty ins caps).
Let head : list Z := pre ++ concat (map (le_bytes 2) (embed_sizes ins caps)).

Lemma head_size : vec_size head = 20.
Proof using H. unfold head. rewrite vec_size_app, concat_words_size, sizes_length. done. Qed.

Lemma message_split : msg = head ++ concat ins.
Proof using. unfold msg, embed_message, head, pre. by rewrite <-!app_assoc. Qed.

Lemma message_size : vec_size msg = 20 + vec_size (concat ins).
Proof using H. by rewrite message_split, vec_size_app, head_size. Qed.

Lemma message_handle : slice 4 4 msg = le_bytes 4 hd.
Proof using.
  unfold msg, embed_message. rewrite (app_assoc [_; _]).
  exact (slice_middle ([RSE_COMMS_PROTOCOL_EMBED; sq] ++ le_bytes 2 client) (le_bytes 4 hd) _).
Qed.

Lemma message_control : slice 8 4 msg = le_bytes 4 (embed_control ty ins caps).
Proof using.
  unfold msg, embed_message. rewrite (app_assoc [_; _]), (app_assoc ([_; _] ++ _)).
  exact (slice_middle (([RSE_COMMS_PROTOCOL_EMBED; sq] ++ le_bytes 2 client) ++ le_bytes 4 hd) (le_bytes 4 _) _).
Qed.

Lemma message_size_field i : 0 <= i < 4 -> slice (12 + 2 * i) 2 msg = le_bytes 2 (arr_get (embed_sizes ins caps) i).
Proof using H.
  intros Hi. rewrite message_split. unfold head. rewrite <-app_assoc. apply (slice_words pre). by rewrite sizes_length.
Qed.

Lemma concat_size_bound : vec_size (concat ins) < 2 ^ 20.
Proof using H.
  pose proof ins_size as ([_ Hn] & _). destruct H as (_&_&_&_&_&Hin&_).
  change (2 ^ 16) with 65536 in Hin. assert (vec_size (concat ins) <= vec_size ins * 65536); [|lia]. clear - Hin. unfold vec_size.
  induction Hin as [|v l [_ Hv] _ IH]; [done|]. cbn [concat length]. rewrite length_app. unfold vec_size in Hv.
  lia.
Qed.

Lemma message_sizes : map (fun i => read_le16 msg (12 + 2 * i)) (range PSA_MAX_IOVEC) = embed_sizes ins caps.
Proof using H.
  pose proof message_size as Hs. pose proof concat_size_bound as Hcb. assert (0 <= vec_size (concat ins)) by (unfold vec_size; lia).
  assert (length (embed_sizes ins caps) = 4%nat) as Hl by (pose proof sizes_length as E; unfold vec_size in E; lia).
  pose proof sizes_u16 as Hu. revert Hl Hu. generalize message_size_field. generalize (embed_sizes ins caps). intros l Hf Hl Hu.
  destruct l as [|a [|b [|c [|d [|]]]]]; try done. change (range PSA_MAX_IOVEC) with [0; 1; 2; 3].
  inversion_clear Hu as [|? ? Ha Hu1]. inversion_clear Hu1 as [|? ? Hb Hu2]. inversion_clear Hu2 as [|? ? Hc Hu3].
  inversion_clear Hu3 as [|? ? Hd _]. cbn [map].
  repeat f_equal; (rewrite read_le16_val; [|apply embed_message_bytes|lia|lia|lia]);
    rewrite Hf by lia; by apply le_val_le_bytes.
Qed.

(** The request a client's message stands for. *)
Definition sent_request : rse_ps_request :=
  Request RSE_COMMS_PROTOCOL_EMBED sq client hd (embed_control ty ins caps) ty (vec_size ins) (vec_size caps)
    (ins ++ replicate (4 - length ins) []) (caps ++ replicate (4 - length caps) 0) (replicate 4 0).

Lemma message_first : arr_get msg 0 = RSE_COMMS_PROTOCOL_EMBED /\ arr_get msg 1 = sq /\
  Z.lor (arr_get msg 2) (Z.shiftl (arr_get msg 3) 8) = client /\ message_id msg = [RSE_COMMS_PROTOCOL_EMBED; sq] ++ le_bytes 2 client.
Proof using H.
  destruct H as (_&[Hc0 Hc1]&_). split; [done|]. split; [done|]. split.
  - change (arr_get msg 2) with (client mod 256). change (arr_get msg 3) with (client / 256 mod 256).
    change (2 ^ 16) with 65536 in Hc1. rewrite Z.lor_comm, lor_pack by (first [lia|apply Z.mod_pos_bound; lia]).
    change (2 ^ 8) with 256. rewrite (Z.mod_small (client / 256)) by (Z.to_euclidean_division_equations; lia).
    pose proof (Z.div_mod client 256). lia.
  - unfold message_id. pose proof message_size as Hs. assert (0 <= vec_size (concat ins)) by (unfold vec_size; lia).
    by replace (4 <=? vec_size msg) with true by lia.
Qed.

Lemma parse_control_sent r : protocol r = RSE_COMMS_PROTOCOL_EMBED -> seq r = sq -> client_id r = client ->
  inputs r = replicate 4 [] -> out_caps r = replicate 4 0 -> out_ptrs r = replicate 4 0 ->
  parse_control msg r = Request RSE_COMMS_PROTOCOL_EMBED sq client hd (embed_control ty ins caps) ty (vec_size ins)
    (vec_size caps) (replicate 4 []) (replicate 4 0) (replicate 4 0).
Proof using H.
  intros E1 E2 E3 E4 E5 E6. pose proof message_size as Hs. pose proof concat_size_bound.
  assert (0 <= vec_size (concat ins)) by (unfold vec_size; lia).
  destruct control_value as (Hc & Hi & Ho & Ht). destruct H as (_&_&Hh&_).
  destruct (parse_control_fields msg embed_message_bytes ltac:(lia) r ltac:(lia)) as (F1 & F2 & F3 & F4).
  unfold vectors_in, vectors_out, control_word in F1, F2, F4. rewrite message_control in F1, F2, F4. rewrite message_handle in F3.
  rewrite le_val_le_bytes in F1, F2, F3, F4 by done.
  assert (ctrl (parse_control msg r) = embed_control ty ins caps) as F5.
  { change (read_le32 msg 8 = embed_control ty ins caps).
    rewrite read_le32_val, message_control by (apply embed_message_bytes || lia). by apply le_val_le_bytes. }
  change (protocol (parse_control msg r) = RSE_COMMS_PROTOCOL_EMBED) in E1. change (seq (parse_control msg r) = sq) in E2.
  change (client_id (parse_control msg r) = client) in E3. change (inputs (parse_control msg r) = replicate 4 []) in E4.
  change (out_caps (parse_control msg r) = replicate 4 0) in E5. change (out_ptrs (parse_control msg r) = replicate 4 0) in E6.
  destruct (parse_control msg r). cbn in *. congruence.
Qed.

Lemma sizes_out i : 0 <= i < vec_size caps -> arr_get (embed_sizes ins caps) (vec_size ins + i) = arr_get caps i.
Proof using.
  intros Hi. unfold arr_get, embed_sizes, vec_size in *. rewrite lookup_app_r by (rewrite length_map; lia).
  rewrite length_map, lookup_app_l by lia. do 2 f_equal. lia.
Qed.

Lemma sizes_in (k : nat) : (k < length ins)%nat -> arr_get (embed_sizes ins caps) (Z.of_nat k) = vec_size (vec_at ins (Z.of_nat k)).
Proof using.
  intros Hk. unfold arr_get, embed_sizes, vec_at. rewrite Nat2Z.id, lookup_app_l by (rewrite length_map; lia).
  rewrite list_lookup_fmap. destruct (ins !! k) eqn:E; [done|]. apply lookup_ge_None in E. lia.
Qed.

(** The vectors a service may fill: their capacities follow the input sizes. *)
Lemma caps_loop r : in_len r = vec_size ins -> out_caps r = replicate 4 0 ->
  foldl (fun out i => out <| out_caps ::= arr_set i (arr_get (embed_sizes ins caps) (in_len out + i)) |>) r
    (range (vec_size caps)) = r <| out_caps := caps ++ replicate (4 - length caps) 0 |>.
Proof using H.
  intros Ei Er. pose proof ins_size as (_ & [_ Hc] & _).
  pose proof (foldl_range_ind (fun out i => out <| out_caps ::= arr_set i (arr_get (embed_sizes ins caps) (in_len out + i)) |>)
    (fun k r' => r' = r <| out_caps := take (Z.to_nat k) caps ++ replicate (4 - Z.to_nat k) 0 |>) r (vec_size caps)) as Hind.
  rewrite Hind; clear Hind.
  - unfold vec_size. rewrite Nat2Z.id, take_ge by lia. done.
  - unfold vec_size. lia.
  - destruct r. cbn in *. by subst.
  - intros k r' Hk ->. change (in_len (r <| out_caps := _ |>)) with (in_len r). rewrite Ei, sizes_out by done.
    destruct r. cbn. f_equal.
    unfold arr_set, vec_size in *. destruct (lookup_lt_is_Some_2 caps (Z.to_nat k)) as [x Hx]; [lia|].
    unfold arr_get. rewrite Hx. cbn [default]. replace (Z.to_nat (k + 1)) with (S (Z.to_nat k)) by lia.
    rewrite (take_S_r _ _ x Hx). replace (4 - Z.to_nat k)%nat with (S (4 - S (Z.to_nat k))) by lia.
    cbn [replicate]. rewrite insert_app_r_alt by (rewrite length_take; lia). rewrite length_take.
    replace (_ - _)%nat with 0%nat by lia. cbn. by rewrite <-app_assoc.
Qed.

(** A client's message is parsed back to the request it stands for. *)
Lemma parse_sent {B : Type} {bus : TlmTarget B} (b : B) :
  parse_rse_ps_request msg new_request b = (b, (sent_request, None)).
Proof using H.
  pose proof message_size as Hs. pose proof concat_size_bound. assert (0 <= vec_size (concat ins)) by (unfold vec_size; lia).
  unfold parse_rse_ps_request. replace (vec_size msg <? 4) with false by lia. cbv zeta.
  destruct message_first as (Hp & Hq & Hid & _). set (r := _ <| client_id := _ |>).
  change (protocol r) with (arr_get msg 0). rewrite Hp. cbn [Z.eqb RSE_COMMS_PROTOCOL_EMBED]. f_equal.
  unfold parse_rse_ps_embed_request. change (4 + 4 * 2 + 2 * PSA_MAX_IOVEC) with 20.
  replace (vec_size msg <? 20) with false by lia. cbv zeta.
  rewrite too_many_spec by (apply embed_message_bytes || lia).
  rewrite (parse_control_sent r) by done. pose proof ins_size as (? & ? & ?).
  assert ((vectors_in msg + vectors_out msg <=? 4) = true) as ->.
  { unfold vectors_in, vectors_out, control_word. rewrite message_control.
    destruct control_value as (? & E1 & E2 & _). rewrite le_val_le_bytes, E1, E2 by done. lia. }
  cbn [negb in_len out_len]. rewrite message_sizes. unfold vec_size at 1. rewrite Nat2Z.id.
  change (12 + 2 * PSA_MAX_IOVEC) with 20. rewrite <-head_size.
  rewrite (embed_inputs_concat (embed_sizes ins caps) ins head msg 0 [] (4 - length ins)).
  - rewrite caps_loop by done. done.
  - apply message_split.
  - done.
  - intros k Hk. by apply sizes_in.
  - replace (length ins + (4 - length ins))%nat with 4%nat; [done|]. unfold vec_size in *. lia.
Qed.
End message.

(** * Protected storage *)

Lemma read_le64_bytes u : is_u64 u -> read_le64 (le_bytes 8 u) 0 = u.
Proof.
  intros Hu. rewrite read_le64_val by (by try apply le_bytes_ok). unfold slice. rewrite drop_0, take_ge by done.
  by apply le_val_le_bytes.
Qed.

Lemma read_le32_bytes u : is_u32 u -> read_le32 (le_bytes 4 u) 0 = u.
Proof.
  intros Hu. rewrite read_le32_val by (by try apply le_bytes_ok). unfold slice. rewrite drop_0, take_ge by done.
  by apply le_val_le_bytes.
Qed.

(** The reply to an embedded request: the status, the sizes of the outputs and,
    on success, the outputs. *)
Definition embed_reply (sq client status : Z) (o : ps_outputs) (n : Z) : list Z :=
  [RSE_COMMS_PROTOCOL_EMBED; sq] ++ le_bytes 2 client ++ le_bytes 4 (u32 status) ++
  concat (map (fun i => le_bytes 2 (u16 (arr_get (out_sizes o) i))) (range 4)) ++
  (if status =? PSA_SUCCESS then concat (map (vec_at (out_vecs o)) (range n)) else []).

Lemma foldl_concat {A} (f : A -> list Z) (g : list Z -> A -> list Z) l acc : (forall a x, g a x = a ++ f x) ->
  foldl g acc l = acc ++ concat (map f l).
Proof.
  intros Hg. revert acc. induction l as [|x l IH]; intros acc; [by rewrite app_nil_r|]. cbn. by rewrite IH, Hg, app_assoc.
Qed.

Lemma encode_reply_embed r status o : protocol r = RSE_COMMS_PROTOCOL_EMBED ->
  encode_reply r status o = embed_reply (seq r) (client_id r) status o (out_len r).
Proof.
  intros Hp. unfold encode_reply, embed_reply. rewrite Hp. cbv zeta.
  change (RSE_COMMS_PROTOCOL_EMBED =? RSE_COMMS_PROTOCOL_POINTER_ACCESS) with false. cbv match.
  rewrite (foldl_concat (fun i => le_bytes 2 (u16 (arr_get (out_sizes o) i)))
    (fun reply i => append_u16 reply (u16 (arr_get (out_sizes o) i)))) by (intros; apply append_u16_eq).
  rewrite (foldl_concat (vec_at (out_vecs o)) (fun reply i => reply ++ vec_at (out_vecs o) i)) by done. rewrite append_u32_eq, append_u16_eq.
  case_if; by rewrite <-!app_assoc, ?app_nil_r.
Qed.

Section storage.
Context {B : Type} {bus : TlmTarget B}.

(** A client's message is answered by the service it names. *)
Lemma reply_to_sent sq client hd ty ins caps s (b : B) : sendable sq client hd ty ins caps ->
  build_rse_ps_reply (embed_message sq client hd ty ins caps) s b =
  let '(s', o, status) := handle_rse_ps_request (sent_request sq client hd ty ins caps) s no_outputs in
  (s', b, embed_reply sq client status o (vec_size caps)).
Proof.
  intros H. unfold build_rse_ps_reply. rewrite parse_sent by done.
  destruct (handle_rse_ps_request _ s no_outputs) as [[s' o] status].
  change (protocol (sent_request _ _ _ _ _ _) =? RSE_COMMS_PROTOCOL_POINTER_ACCESS) with false.
  rewrite andb_false_r. cbv match. by rewrite encode_reply_embed.
Qed.

Definition ps_message sq client ty ins caps : list Z :=
  embed_message sq client TFM_PROTECTED_STORAGE_SERVICE_HANDLE ty ins caps.
Definition ps_set_message sq client uid data flags : list Z :=
  ps_message sq client TFM_PS_SET [le_bytes 8 uid; data; le_bytes 4 flags] [].
Definition ps_get_message sq client uid offset cap : list Z :=
  ps_message sq client TFM_PS_GET [le_bytes 8 uid; le_bytes 4 offset] [cap].
Definition ps_remove_message sq client uid : list Z := ps_message sq client TFM_PS_REMOVE [le_bytes 8 uid] [].

(** The reply to a request for [cap] bytes at [offset] of an object. *)
Definition ps_get_reply sq client (object : option (list Z)) offset cap : list Z :=
  match object with
  | None => embed_reply sq client PSA_ERROR_DOES_NOT_EXIST no_outputs 1
  | Some data =>
      if vec_size data <? offset then embed_reply sq client PSA_ERROR_INVALID_ARGUMENT no_outputs 1
      else
        let n := Z.min (vec_size data - offset) cap in
        [RSE_COMMS_PROTOCOL_EMBED; sq] ++ le_bytes 2 client ++ le_bytes 4 PSA_SUCCESS ++
        le_bytes 2 n ++ replicate 6 0 ++ slice offset n data
  end.

Lemma sendable_ps sq client ty ins caps : is_u8 sq -> is_u16 client -> is_u16 ty -> (length ins + length caps <= 4)%nat ->
  Forall (fun v => bytes_ok v /\ vec_size v < 2 ^ 16) ins -> Forall is_u16 caps ->
  sendable sq client TFM_PROTECTED_STORAGE_SERVICE_HANDLE ty ins caps.
Proof. intros. split; [done|]. split; [done|]. split; [by cbv|]. done. Qed.

Lemma word_input n v : bytes_ok (le_bytes n v) /\ vec_size (le_bytes n v) = Z.of_nat n.
Proof. split; [apply le_bytes_ok|]. unfold vec_size. by rewrite le_bytes_length. Qed.

Lemma ps_set_reply sq client uid data flags s (b : B) : is_u8 sq -> is_u16 client -> is_u64 uid -> is_u32 flags ->
  bytes_ok data -> vec_size data < 2 ^ 16 ->
  build_rse_ps_reply (ps_set_message sq client uid data flags) s b =
  (s <| m_ps_store ::= <[uid := PsEntry data flags]> |>, b, embed_reply sq client PSA_SUCCESS no_outputs 0).
Proof.
  intros Hq Hc Hu Hf Hd Hs. unfold ps_set_message, ps_message. rewrite reply_to_sent.
  2:{ apply sendable_ps; [done|done|by cbv|by cbn; lia| |constructor].
      repeat (apply Forall_cons_2; [first [done|by destruct (word_input 8 uid) as [? ->]|by destruct (word_input 4 flags) as [? ->]]|]).
      constructor. }
  unfold handle_rse_ps_request, handle_ps_storage, sent_request. cbn [handle type in_len inputs]. cbv zeta.
  change (vec_at _ 0) with (le_bytes 8 uid). change (vec_at _ 1) with data. change (vec_at _ 2) with (le_bytes 4 flags).
  rewrite read_le64_bytes, read_le32_bytes by done. done.
Qed.

Lemma ps_get_reply_eq sq client uid offset cap s (b : B) : is_u8 sq -> is_u16 client -> is_u64 uid -> is_u32 offset ->
  is_u16 cap ->
  build_rse_ps_reply (ps_get_message sq client uid offset cap) s b =
  (s, b, ps_get_reply sq client (ps_data <$> m_ps_store s !! uid) offset cap).
Proof.
  intros Hq Hc Hu Ho Hcap. unfold ps_get_message, ps_message. rewrite reply_to_sent.
  2:{ apply sendable_ps; [done|done|by cbv|by cbn; lia| |by apply Forall_cons_2; [|apply Forall_nil_2]].
      repeat (apply Forall_cons_2; [first [by destruct (word_input 8 uid) as [? ->]|by destruct (word_input 4 offset) as [? ->]]|]).
      apply Forall_nil_2. }
  unfold handle_rse_ps_request, handle_ps_storage, sent_request, ps_get_reply. cbn [handle type in_len inputs out_len out_caps].
  cbv zeta. change (vec_at _ 0) with (le_bytes 8 uid). change (vec_at _ 1) with (le_bytes 4 offset).
  rewrite read_le64_bytes, read_le32_bytes by done. cbn -[le_bytes slice no_outputs embed_reply set_ps_output].
  destruct (m_ps_store s !! uid) as [e|]; cbn -[le_bytes slice no_outputs embed_reply set_ps_output]; [|done].
  destruct (Z.ltb_spec (vec_size (ps_data e)) offset) as [Hlt|Hge]; [done|].
  set (n := Z.min _ _). unfold set_ps_output. cbn [out_len out_caps sent_request].
  change (arr_get _ 0) with cap in n |- *.
  assert (0 <= n <= cap) as Hn by (unfold n; destruct Hcap; unfold vec_size in *; lia).
  assert (vec_size (slice offset n (ps_data e)) = n) as Hsl by (destruct Ho; apply slice_vec_size; lia).
  rewrite Hsl. change (vec_size [cap]) with 1. replace (cap <? n) with false by lia. cbn [orb Z.leb].
  change ((1 <=? 0) || (PSA_MAX_IOVEC <=? 0)) with false. cbv match. f_equal.
  unfold embed_reply. change (range 4) with [0; 1; 2; 3]. change (range 1) with [0].
  change (u32 PSA_SUCCESS) with PSA_SUCCESS. cbn -[le_bytes slice wrap n].
  rewrite (wrap_small 32 n) by (destruct Hcap; split; lia).
  change (arr_get (arr_set 0 n _) 0) with n. rewrite (wrap_small 16 n) by (destruct Hcap; split; lia).
  rewrite !app_nil_r. done.
Qed.

Lemma ps_remove_reply sq client uid s (b : B) : is_u8 sq -> is_u16 client -> is_u64 uid -> is_Some (m_ps_store s !! uid) ->
  build_rse_ps_reply (ps_remove_message sq client uid) s b =
  (s <| m_ps_store ::= delete uid |>, b, embed_reply sq client PSA_SUCCESS no_outputs 0).
Proof.
  intros Hq Hc Hu [e He]. unfold ps_remove_message, ps_message. rewrite reply_to_sent.
  2:{ apply sendable_ps; [done|done|by cbv|by cbn; lia| |constructor].
      apply Forall_cons_2; [by destruct (word_input 8 uid) as [? ->]|]. constructor. }
  unfold handle_rse_ps_request, handle_ps_storage, sent_request. cbn [handle type in_len inputs]. cbv zeta.
  change (vec_at _ 0) with (le_bytes 8 uid). rewrite read_le64_bytes by done. rewrite He. done.
Qed.

(** C30. What a client puts into protected storage is what clients get back, at
    the level of the messages themselves: after the message that sets an object,
    a message that asks for any part of it is answered with exactly those bytes
    of the data that was sent, cut to the capacity the client offers, from every
    later state that still holds the object; asking past its end is refused.
    Other objects are untouched, and after the message that removes it the
    object does not exist. *)
Theorem ps_set_get_remove sq client uid data flags s (b : B) :
  is_u8 sq -> is_u16 client -> is_u64 uid -> is_u32 flags -> bytes_ok data -> vec_size data < 2 ^ 16 ->
  exists s1, build_rse_ps_reply (ps_set_message sq client uid data flags) s b =
      (s1, b, embed_reply sq client PSA_SUCCESS no_outputs 0) /\
    (forall uid', uid' <> uid -> m_ps_store s1 !! uid' = m_ps_store s !! uid') /\
    (forall s2 b2 offset cap, m_ps_store s2 !! uid = m_ps_store s1 !! uid -> is_u32 offset -> is_u16 cap ->
       build_rse_ps_reply (ps_get_message sq client uid offset cap) s2 b2 =
       (s2, b2, ps_get_reply sq client (Some data) offset cap)) /\
    (exists s3, build_rse_ps_reply (ps_remove_message sq client uid) s1 b =
         (s3, b, embed_reply sq client PSA_SUCCESS no_outputs 0) /\
       forall offset cap, is_u32 offset -> is_u16 cap ->
         build_rse_ps_reply (ps_get_message sq client uid offset cap) s3 b =
         (s3, b, ps_get_reply sq client None offset cap)).
Proof.
  intros Hq Hc Hu Hf Hd Hs. eexists. split; [by apply ps_set_reply|]. split; [|split].
  - intros uid' Hne. cbn. by rewrite lookup_insert_ne.
  - intros s2 b2 offset cap E Ho Hcap. rewrite ps_get_reply_eq by done. rewrite E. cbn. by rewrite lookup_insert_eq.
  - eexists. split; [apply ps_remove_reply; [done|done|done|]; cbn; by rewrite lookup_insert_eq|].
    intros offset cap Ho Hcap. rewrite ps_get_reply_eq by done. cbn. by rewrite lookup_delete_eq.
Qed.
End storage.

(** A device that stores three bytes under the name 7 and gives two of them back. *)
Lemma ps_set_get_remove_witness : exists s1,
  build_rse_ps_reply (bus := ram 256) (ps_set_message 1 2 7 [10; 20; 30] 0) new_mhu ∅ =
    (s1, ∅, embed_reply 1 2 PSA_SUCCESS no_outputs 0) /\
  build_rse_ps_reply (bus := ram 256) (ps_get_message 1 2 7 1 16) s1 ∅ =
    (s1, ∅, [0; 1; 2; 0; 0; 0; 0; 0; 2; 0; 0; 0; 0; 0; 0; 0; 20; 30]).
Proof.
  destruct (ps_set_get_remove (bus := ram 256) 1 2 7 [10; 20; 30] 0 new_mhu ∅) as (s1 & E & _ & Hget & _);
    [split; lia..|by apply bytes_okb|by cbv|].
  exists s1. split; [exact E|].
  refine (eq_trans (Hget s1 ∅ 1 16 eq_refl _ _) _); [split; lia|split; lia|]. vm_compute. reflexivity.
Defined.

(** A message with two vectors of 0xffff bytes that are not there is refused. *)
Lemma psa_refusal_changes_nothing_witness : exists reply,
  build_rse_ps_reply (bus := ram 256)
    [0; 9; 1; 0; 1; 1; 0; 64; 233; 3; 0; 2; 255; 255; 255; 255; 0; 0; 0; 0] new_mhu ∅ = (new_mhu, ∅, reply) /\
  take 8 reply = [0; 9; 1; 0; 121; 255; 255; 255].
Proof.
  pose proof (psa_refusal_changes_nothing (bus := ram 256)
    [0; 9; 1; 0; 1; 1; 0; 64; 233; 3; 0; 2; 255; 255; 255; 255; 0; 0; 0; 0] new_mhu ∅ ltac:(by apply bytes_okb) ltac:(by cbv)) as H.
  destruct (build_rse_ps_reply _ _ _) as [[s' b'] reply]. destruct H as (status & (_ & Hs & tail & Hr) & He).
  destruct (He PSA_ERROR_INVALID_ARGUMENT ltac:(vm_compute; reflexivity)) as [-> ->].
  exists reply. rewrite (Hs ltac:(by cbv)), Hr. split; [done|]. vm_compute. reflexivity.
Defined.

(** An extension replaces a measurement that was stored as locked: the lock is
    recorded and reported, and never looked at. *)
Lemma measured_boot_ignores_lock : exists r s o s',
  locked (measurement_at (m_measurements s) 4) = true /\ measurement (measurement_at (m_measurements s) 4) = [1; 2] /\
  handle_rse_measured_boot_request r s o = (s', o, PSA_SUCCESS) /\
  measurement (measurement_at (m_measurements s') 4) = [9].
Proof.
  exists (sent_request 0 0 TFM_MEASURED_BOOT_HANDLE TFM_MEASURED_BOOT_EXTEND
            [4 :: replicate 40 0; []; []; [9]] []),
         (new_mhu <| m_measurements ::= <[4%nat := Measurement true true 0 [] [] [] [1; 2]]> |>), no_outputs.
  eexists. split; [done|]. split; [done|]. split; [vm_compute; reflexivity|]. done.
Qed.
