(* ===== verification/Mhu.v ===== *)
(** The message handling units [mhu320ae] of a platform
    (systemc-components/mhu320ae/include/mhu320ae.h): postboxes and mailboxes
    that find each other by the name of their pair, the memory they share, the
    register writes and transactions, and the events of the simulation. *)

From Stdlib Require Import String.
From stdpp Require Import strings.
From S2P Require Import Prelude Bytes Vectors Tlm Memory MhuFrame MhuDevice MhuScmi MhuPsa.

(** * Constants *)

Definition VRING_DESC_F_WRITE : Z := 2.
Definition VRING_DESC_SIZE : Z := 16.
Definition VRING_AVAIL_HEADER_SIZE : Z := 4.
Definition VRING_USED_HEADER_SIZE : Z := 4.
Definition VRING_USED_ELEM_SIZE : Z := 8.
Definition RPMSG_NS_ADDR : Z := 53.
Definition RPMSG_NS_CREATE : Z := 0.
Definition RPMSG_NAME_SIZE : Z := 32.
Definition RPMSG_NS_MSG_SIZE : Z := RPMSG_NAME_SIZE + 8.

(** * The platform *)

(** The devices by number, the static members that let them find each other, and
    the memory behind their initiator sockets. *)
(** [mhu320ae.h: "static inline mhu320ae* s_mbx = nullptr;" .. "static inline std::unordered_map<std::string, mhu320ae*> s_pbx_by_pair;"] *)
Record world (B : Type) := World {
  devices : gmap Z mhu320ae;
  s_mbx : option Z;
  s_pbx : option Z;
  s_mbx_by_pair : gmap string Z;
  s_pbx_by_pair : gmap string Z;
  memory : B
}.
Arguments World {B}.
Arguments devices {B}.
Arguments s_mbx {B}.
Arguments s_pbx {B}.
Arguments s_mbx_by_pair {B}.
Arguments s_pbx_by_pair {B}.
Arguments memory {B}.

#[export] Instance eta_world B : Eta (world B) := fun w =>
  World (devices w) (s_mbx w) (s_pbx w) (s_mbx_by_pair w) (s_pbx_by_pair w) (memory w).

Definition dev {B} (w : world B) (i : Z) : mhu320ae := default new_mhu (devices w !! i).

(** [f] applied to device [i]. *)
Definition on {B} (i : Z) (f : mhu320ae -> mhu320ae) (w : world B) : world B :=
  w <| devices ::= <[i := f (dev w i)]> |>.

(** [f] applied to the device behind a pointer, nothing for a null one. *)
Definition on_some {B} (i : option Z) (f : mhu320ae -> mhu320ae) (w : world B) : world B :=
  match i with Some i => on i f w | None => w end.

Section platform.
Context (cfgs : Z -> mhu_config) {B : Type} {bus : TlmTarget B}.
Implicit Types (w : world B) (this : Z).

(** [mhu320ae.h: paired_mbx] *)
Definition paired_mbx this w : option Z :=
  match s_mbx_by_pair w !! p_pair (cfgs this) with
  | Some i => Some i
  | None => if negb (p_pair (cfgs this) =? "")%string then None else s_mbx w
  end.

(** [mhu320ae.h: paired_pbx] *)
Definition paired_pbx this w : option Z :=
  match s_pbx_by_pair w !! p_pair (cfgs this) with
  | Some i => Some i
  | None => if negb (p_pair (cfgs this) =? "")%string then None else s_pbx w
  end.

(** * SCMI *)

(** [mhu320ae.h: respond_scmi] *)
Definition respond_scmi this (channel : Z) w : world B :=
  let cfg := cfgs this in
  let shmem := scmi_shmem cfg channel in
  let '(b, length) := mem_read32 (u64 (shmem + SCMI_LENGTH)) (memory w) in
  let '(b, header) := mem_read32 (u64 (shmem + SCMI_HEADER)) b in
  let '(b, request) := read_scmi_request_payload cfg channel length b in
  let '(s, status, payload) := respond_protocol cfg header request (dev w this) in
  let b := write_scmi_response cfg channel header status payload b in
  let w := on this (fun _ => s) w <| memory := b |> in
  let w := match paired_mbx this w with
           | Some mbx => on mbx (signal_doorbell (cfgs mbx) (p_ack_bit cfg)) w
           | None => w
           end in
  if (protocol_id header =? SCMI_PROTOCOL_POWER_DOMAIN) && (msg_id header =? 0x5) &&
     m_pending_power_domain_reset_valid (dev w this)
  then on this (emit (Notify PowerDomainResetEvent 0)) w
  else w.

(** * Doorbells *)

(** [mhu320ae.h: clear_mbx_doorbell_channel] *)
Definition clear_mbx_doorbell_channel this (channel mask : Z) w : world B :=
  if channel_count (cfgs this) <=? channel then w
  else
    let w := on this (fun s => update_combined_irq (cfgs this) (s <| m_frame ::= clear_status_bits channel mask |>)) w in
    match paired_pbx this w with
    | Some pbx => on pbx (clear_postbox_doorbell_channel (cfgs pbx) channel mask) w
    | None => w
    end.

(** [mhu320ae.h: seed_doorbell_ack_memory] *)
Definition seed_doorbell_ack_memory this w : world B :=
  let words := seed_words (cfgs this) in
  if vec_size words =? 0 then w
  else
    let data := foldl append_u32 [] words in
    let '(b, _, _) := mem_access TLM_WRITE_COMMAND (p_doorbell_ack_seed_address (cfgs this)) data
                        (u32 (vec_size data)) (memory w) in
    w <| memory := b |>.

(** [mhu320ae.h: respond_rse_doorbell] *)
Definition respond_rse_doorbell this w : world B :=
  let cfg := cfgs this in
  let request := read_doorbell_message cfg (dev w this) in
  let reply := build_rse_success_reply request in
  let w := on this (clear_postbox_transfer cfg) w in
  match paired_mbx this w with
  | Some mbx => on mbx (load_mbx_message (cfgs mbx) reply) w
  | None => w
  end.

(** The proxy branch of [write_postbox_doorbell]. *)
(** [mhu320ae.h: "const auto request = read_doorbell_message();" .. "mbx->load_mbx_message(reply);"] *)
Definition respond_rse_ps this w : world B :=
  let cfg := cfgs this in
  let request := read_doorbell_message cfg (dev w this) in
  let '(s, b, reply) := build_rse_ps_reply request (dev w this) (memory w) in
  let w := on this (fun _ => s) w <| memory := b |> in
  let w := on this (clear_postbox_transfer cfg) w in
  match paired_mbx this w with
  | Some mbx => on mbx (load_mbx_message (cfgs mbx) reply) w
  | None => w
  end.

(** [mhu320ae.h: write_postbox_doorbell] *)
Definition write_postbox_doorbell this (channel value : Z) w : world B :=
  let cfg := cfgs this in
  let w := on this (fun s => update_combined_irq cfg (s <| m_frame ::= set_status_bits channel value |>)) w in
  if (p_protocol cfg =? "rse-ps-proxy")%string then
    if (channel =? notify_channel cfg) && (value =? MHU_NOTIFY_VALUE) then respond_rse_ps this w else w
  else if negb (p_protocol cfg =? "doorbell")%string then
    match paired_mbx this w with
    | Some mbx => on mbx (signal_doorbell_channel (cfgs mbx) channel value) w
    | None => w
    end
  else if negb (p_doorbell_ack_trigger_value cfg =? 0) && (channel =? p_doorbell_ack_trigger_channel cfg) &&
          (Z.land value (p_doorbell_ack_trigger_value cfg) =? p_doorbell_ack_trigger_value cfg) then
    match paired_mbx this w with
    | Some mbx =>
        let w := seed_doorbell_ack_memory this w in
        let w := on mbx (signal_doorbell_channel (cfgs mbx) (p_doorbell_ack_channel cfg) (p_doorbell_ack_value cfg)) w in
        on this (complete_synthetic_postbox_transfer cfg channel value) w
    | None => w
    end
  else
    let w := on this (schedule_rpmsg_ns_injection cfg) w in
    if p_rpmsg_ns_enable cfg then on this (complete_synthetic_postbox_transfer cfg channel value) w else w.

(** * The name-service announcement *)

(** [mhu320ae.h: rpmsg_ns_avail_address] *)
Definition rpmsg_ns_avail_address this : Z :=
  u64 (p_rpmsg_ns_vring_address (cfgs this) + p_rpmsg_ns_vring_num (cfgs this) * VRING_DESC_SIZE).

(** [mhu320ae.h: rpmsg_ns_used_address] *)
Definition rpmsg_ns_used_address this : Z :=
  let avail_end := u64 (rpmsg_ns_avail_address this + VRING_AVAIL_HEADER_SIZE +
                        u32 (p_rpmsg_ns_vring_num (cfgs this) + 1) * 2) in
  align_up avail_end (p_rpmsg_ns_vring_align (cfgs this)).

(** [mhu320ae.h: build_rpmsg_ns_message] *)
Definition build_rpmsg_ns_message this : list Z :=
  let remote_addr := p_rpmsg_ns_remote_addr (cfgs this) in
  let msg := append_u32 [] remote_addr in
  let msg := append_u32 msg RPMSG_NS_ADDR in
  let msg := append_u32 msg 0 in
  let msg := append_u16 msg RPMSG_NS_MSG_SIZE in
  let msg := append_u16 msg 0 in
  let msg := msg ++ strncpy_zeros RPMSG_NAME_SIZE (RPMSG_NAME_SIZE - 1) (p_rpmsg_ns_name (cfgs this)) in
  let msg := append_u32 msg remote_addr in
  append_u32 msg RPMSG_NS_CREATE.

(** The end of a poll, once the descriptor is known: the message goes into its
    buffer, the buffer onto the used ring, and the mailbox is signalled. *)
(** [mhu320ae.h: "const uint64_t desc = vring + (desc_id * VRING_DESC_SIZE);" .. "rpmsg-ns-signaled"] *)
Definition use_rpmsg_ns_desc this (avail_idx desc_id : Z) w : world B * bool :=
  let cfg := cfgs this in
  let vring_num := p_rpmsg_ns_vring_num cfg in
  let used := rpmsg_ns_used_address this in
  let desc := u64 (p_rpmsg_ns_vring_address cfg + desc_id * VRING_DESC_SIZE) in
  let '(b, buffer_addr) := mem_read64 desc (memory w) in
  let '(b, buffer_len) := mem_read32 (u64 (desc + 8)) b in
  let '(b, flags) := mem_read16 (u64 (desc + 8 + 4)) b in
  let w := w <| memory := b |> in
  let message := build_rpmsg_ns_message this in
  if negb (test flags VRING_DESC_F_WRITE) || (buffer_len <? vec_size message) then (w, false)
  else
    let '(b, ok, _) := mem_access TLM_WRITE_COMMAND buffer_addr message (u32 (vec_size message)) (memory w) in
    let w := w <| memory := b |> in
    if negb ok then (w, false)
    else
      let '(b, used_idx) := mem_read16 (u64 (used + 2)) (memory w) in
      let used_elem := u64 (used + VRING_USED_HEADER_SIZE + used_idx mod vring_num * VRING_USED_ELEM_SIZE) in
      let b := mem_write32 used_elem desc_id b in
      let b := mem_write32 (u64 (used_elem + 4)) (vec_size message) b in
      let b := mem_write16 (u64 (used + 2)) (u16 (used_idx + 1)) b in
      let w := w <| memory := b |> in
      let w := on this (fun s => s <| m_rpmsg_ns_last_avail_idx := avail_idx |> <| m_rpmsg_ns_sent := true |>) w in
      match paired_mbx this w with
      | Some mbx =>
          let w := if negb (p_rpmsg_ns_signal_delay_ns cfg =? 0)
                   then on this (emit (Wait (p_rpmsg_ns_signal_delay_ns cfg))) w else w in
          (on mbx (signal_doorbell_channel (cfgs mbx) (p_rpmsg_ns_signal_channel cfg)
                     (p_rpmsg_ns_signal_value cfg)) w, true)
      | None => (w, true)
      end.

(** One poll of the receive ring: whether to stop polling. *)
(** [mhu320ae.h: inject_rpmsg_ns_once] *)
Definition inject_rpmsg_ns_once this w : world B * bool :=
  let cfg := cfgs this in
  let vring_num := p_rpmsg_ns_vring_num cfg in
  let s := dev w this in
  if negb (p_rpmsg_ns_enable cfg) || m_rpmsg_ns_sent s || (vring_num =? 0) then (w, true)
  else
    let avail := rpmsg_ns_avail_address this in
    let '(b, avail_idx) := mem_read16 (u64 (avail + 2)) (memory w) in
    let w := w <| memory := b |> in
    if avail_idx =? m_rpmsg_ns_last_avail_idx s then
      (on this (fun s => s <| m_rpmsg_ns_poll_count ::= fun n => u32 (n + 1) |>) w, false)
    else
      let w := on this (fun s => s <| m_rpmsg_ns_poll_count ::= fun _ => 0 |>) w in
      let slot := u16 (m_rpmsg_ns_last_avail_idx s mod vring_num) in
      let '(b, desc_id) := mem_read16 (u64 (avail + VRING_AVAIL_HEADER_SIZE + slot * 2)) (memory w) in
      let w := w <| memory := b |> in
      if vring_num <=? desc_id then (w, false) else use_rpmsg_ns_desc this avail_idx desc_id w.

(** What the other processes and the firmware do while the worker waits for the
    [k]-th time. *)
Variable env : nat -> world B -> world B.

(** The polls of one round; [n] are left and [k] waits are over. *)
(** [mhu320ae.h: "for (unsigned int poll = 0; poll < p_rpmsg_ns_max_polls.get_value();" .. "sc_core::SC_NS));"] *)
Fixpoint rpmsg_ns_polls (n k : nat) this w : world B * nat :=
  match n with
  | O => (w, k)
  | S n =>
      let '(w, stop) := inject_rpmsg_ns_once this w in
      if stop then (w, k)
      else
        let w := on this (emit (Wait (p_rpmsg_ns_poll_period_ns (cfgs this)))) w in
        rpmsg_ns_polls n (S k) this (env k w)
  end.

(** A turn of the worker; [fuel] bounds the rounds, each of which needs a new
    doorbell while the one before polled. *)
(** [mhu320ae.h: rpmsg_ns_worker] *)
Fixpoint rpmsg_ns_worker (fuel k : nat) this w : world B * nat :=
  match fuel with
  | O => (w, k)
  | S fuel =>
      if m_rpmsg_ns_pending (dev w this) && negb (m_rpmsg_ns_sent (dev w this)) then
        let w := on this (fun s => s <| m_rpmsg_ns_pending := false |>) w in
        let '(w, k) := rpmsg_ns_polls (Z.to_nat (p_rpmsg_ns_max_polls (cfgs this))) k this w in
        rpmsg_ns_worker fuel k this w
      else (w, k)
  end.

(** * Registers *)

(** [mhu320ae.h: write32] *)
Definition write32 this (offset value : Z) w : world B :=
  let cfg := cfgs this in
  let otherwise := on this (fun s => s <| m_frame ::= store offset value |>) w in
  let set_ctrl_reg channel :=
    on this (fun s => update_combined_irq cfg (s <| m_frame ::= set_ctrl channel value |>)) w in
  match decode_dbch_offset (m_frame (dev w this)) offset with
  | Some (channel, reg_offset) =>
      if negb (is_mbx cfg) then
        if reg_offset =? DBCW_SET then
          if (p_protocol cfg =? "scmi")%string && scmi_channel_in_range cfg channel then respond_scmi this channel w
          else
            let w := write_postbox_doorbell this channel value w in
            if p_direct_boot_compat cfg && (p_protocol cfg =? "doorbell")%string &&
               (channel =? notify_channel cfg) && (value =? MHU_NOTIFY_VALUE)
            then respond_rse_doorbell this w else w
        else if reg_offset =? DBCW_INT_CLR then on this (clear_postbox_interrupt cfg channel value) w
        else if reg_offset =? DBCW_INT_EN then
          on this (fun s => update_combined_irq cfg (s <| m_frame ::= set_int_enable channel value |>)) w
        else if reg_offset =? DBCW_CTRL then set_ctrl_reg channel
        else otherwise
      else
        if reg_offset =? DBCW_CLR then clear_mbx_doorbell_channel this channel value w
        else if reg_offset =? DBCW_INT_CLR then on this (set_mbx_mask cfg channel value) w
        else if reg_offset =? DBCW_INT_EN then on this (clear_mbx_mask cfg channel value) w
        else if reg_offset =? DBCW_CTRL then set_ctrl_reg channel
        else otherwise
  | None => otherwise
  end.

(** The result is nothing when the code copies through a null data pointer. *)
(** [mhu320ae.h: b_transport] *)
Definition b_transport this (t : tlm_payload) w : option (world B * tlm_payload) :=
  let offset := address t in
  let len := data_length t in
  let t := t <| dmi_allowed := false |> in
  if (REG_SPACE_SIZE <? u64 (offset + len)) || negb (is_supported_length len) then
    Some (w, t <| response_status := TLM_ADDRESS_ERROR_RESPONSE |>)
  else
    match command t, data_ptr t with
    | TLM_IGNORE_COMMAND, _ => Some (w, t <| response_status := TLM_COMMAND_ERROR_RESPONSE |>)
    | _, None => None
    | TLM_READ_COMMAND, Some data =>
        let f := m_frame (dev w this) in
        let value := if len =? 4 then le_bytes 4 (read32 f offset) else copy_read f offset len in
        Some (w, t <| data_ptr := Some (put_data value data) |> <| response_status := TLM_OK_RESPONSE |>)
    | TLM_WRITE_COMMAND, Some data =>
        let w :=
          if len =? 4 then write32 this offset (le_val (get_data 4 data)) w
          else on this (fun s => s <| m_frame ::= copy_write offset (get_data len data) |>) w in
        Some (w, t <| response_status := TLM_OK_RESPONSE |>)
    end.

(** * The simulation *)

(** [mhu320ae.h: end_of_elaboration] *)
Definition end_of_elaboration this w : world B :=
  let cfg := cfgs this in
  let mbx := is_mbx cfg in
  let w := on this (fun s => s <| m_frame ::=
             configure mbx (channel_count cfg) (p_feat_spt0 cfg) (p_feat_spt1 cfg) (p_iidr cfg) (p_aidr cfg) |>) w in
  let w :=
    if mbx then w <| s_mbx := Some this |> <| s_mbx_by_pair ::= <[p_pair cfg := this]> |>
    else w <| s_pbx := Some this |> <| s_pbx_by_pair ::= <[p_pair cfg := this]> |> in
  on this (update_combined_irq cfg) w.

(** [mhu320ae.h: start_of_simulation] *)
Definition start_of_simulation this w : world B :=
  let cfg := cfgs this in
  let w :=
    if negb (is_mbx cfg) && p_init_shmem cfg then
      let b := foldl (fun b channel =>
                        mem_write32 (u64 (p_tx_shmem cfg + u64 (p_scmi_channel_stride cfg * channel) + SCMI_CHAN_STATUS))
                          SCMI_CHAN_FREE b)
                 (memory w) (range (p_scmi_channel_count cfg)) in
      w <| memory := mem_write32 (u64 (p_rx_shmem cfg + SCMI_CHAN_STATUS)) SCMI_CHAN_FREE b |>
    else w in
  if negb (is_mbx cfg) && p_assert_power_on_reset cfg then on this (schedule_power_on_reset true) w else w.
End platform.
