(* ===== verification/MhuSeed.v ===== *)
(** Seed words of the doorbell acknowledgement (mhu320ae/include/mhu320ae.h): what the
    message handling unit finds in the configuration when it is built, and that the order
    in which the configuration lists its presets does not matter. *)

From Stdlib Require Import Ascii.
From stdpp Require Import strings sorting.
From S2P Require Import Prelude.

Open Scope string_scope.

(** * Names *)

Fixpoint all_of (p : ascii -> bool) (s : string) : bool := match s with "" => true | String c s => p c && all_of p s end.

Definition isdigit (c : ascii) : bool := let n := Z.of_nat (nat_of_ascii c) in ((48 <=? n) && (n <=? 57))%Z.

(** [child.find('.') != std::string::npos]. *)
Definition has_dot (s : string) : bool := negb (all_of (fun c => negb (Ascii.eqb c ".")) s).

(** [std::stoul] of digits: it throws what no [unsigned long] holds. *)
Fixpoint decimal (value : Z) (s : string) : Z :=
  match s with "" => value | String c s => decimal (10 * value + (Z.of_nat (nat_of_ascii c) - 48))%Z s end.
Definition stoul (s : string) : option Z := let value := decimal 0 s in if (value <? 2 ^ 64)%Z then Some value else None.

Definition suffix (prefix s : string) : string := String.substring (String.length prefix) (String.length s - String.length prefix) s.

(** * The words *)

Section load.
(** What the configuration broker holds: the names of its presets in the order it lists
    them, and the values that are unsigned integers.  [std::sort] by the indices is the
    library's. *)
Context (name : string) (presets : list string) (cci_get : string -> option Z) (sort : list (Z * Z) -> list (Z * Z)).

Definition base : string := name ++ ".doorbell_ack_seed_words".

(** The index a preset names, if it names one. *)
(** [mhu320ae.h: 1542-1551] load_doorbell_ack_seed_words *)
Definition index_name (preset : string) : option string :=
  let child := suffix (base ++ ".") preset in
  if has_dot child then None
  else if String.eqb child "" || negb (all_of isdigit child) then None else Some child.

(** [None] is the exception of a number that is too large. *)
(** [mhu320ae.h: 1541-1560] load_doorbell_ack_seed_words *)
Fixpoint indexed_words (presets : list string) : option (list (Z * Z)) :=
  match presets with
  | [] => Some []
  | preset :: presets =>
      match index_name preset with
      | None => indexed_words presets
      | Some child =>
          match cci_get (base ++ "." ++ child) with
          | None => indexed_words presets
          | Some value =>
              match stoul child, indexed_words presets with
              | Some index, Some words => Some ((u32 index, value) :: words)
              | _, _ => None
              end
          end
      end
  end.

(** [mhu320ae.h: load_doorbell_ack_seed_words] *)
Definition load_doorbell_ack_seed_words (direct_words : list Z) : option (list Z) :=
  match direct_words with
  | _ :: _ => Some direct_words
  | [] => match indexed_words (List.filter (String.prefix (base ++ ".")) presets) with Some words => Some (map snd (sort words)) | None => None end
  end.
End load.

(** The comparison of the sort. *)
(** [mhu320ae.h: 1563-1565] load_doorbell_ack_seed_words *)
Definition by_index (x y : Z * Z) : Prop := (fst x <= fst y)%Z.

#[export] Instance by_index_dec x y : Decision (by_index x y).
Proof. unfold by_index. apply _. Defined.

(** What [std::sort] promises: the same pairs, none before one of a smaller index. *)
Definition sorts (sort : list (Z * Z) -> list (Z * Z)) : Prop :=
  forall l, sort l ≡ₚ l /\ StronglySorted by_index (sort l).

(** * The order of the presets *)

Lemma sorted_unique l l' : l ≡ₚ l' -> NoDup (map fst l) -> StronglySorted by_index l ->
  StronglySorted by_index l' -> l = l'.
Proof.
  intros Hp Hn Hs Hs'. apply (StronglySorted_unique_strong by_index); [|done..].
  intros [i v] [j w] Hx Hy Hij Hji. unfold by_index in *. cbn in *. assert (i = j) as <- by lia. rewrite <-Hp in Hy.
  apply list_elem_of_lookup in Hx as [p Hx], Hy as [q Hy].
  assert (p = q) as <- by (apply (NoDup_lookup _ p q i Hn); by rewrite list_lookup_fmap, ?Hx, ?Hy). congruence.
Qed.

Lemma indexed_words_perm name cci_get ps ps' : ps ≡ₚ ps' ->
  match indexed_words name cci_get ps, indexed_words name cci_get ps' with
  | Some l, Some l' => l ≡ₚ l'
  | None, None => True
  | _, _ => False
  end.
Proof.
  induction 1 as [|p ps ps' Hp IH|p q ps|ps1 ps2 ps3 _ IH1 _ IH2]; cbn [indexed_words].
  - done.
  - repeat case_match; simplify_eq; try done. by constructor.
  - repeat (case_match; simplify_eq); try done. by constructor.
  - destruct (indexed_words _ _ ps1), (indexed_words _ _ ps2), (indexed_words _ _ ps3); try done. by etrans.
Qed.

(** However the configuration lists its presets, and whatever sort the library has, the
    words are the same, in the order of their indices: unless two presets name one index. *)
Lemma seed_words_order name cci_get ps ps' sort sort' words : sorts sort -> sorts sort' -> ps ≡ₚ ps' ->
  indexed_words name cci_get (List.filter (String.prefix (base name ++ ".")) ps) = Some words -> NoDup (map fst words) ->
  load_doorbell_ack_seed_words name ps cci_get sort [] = load_doorbell_ack_seed_words name ps' cci_get sort' [].
Proof.
  intros Hs Hs' Hp Hw Hn. unfold load_doorbell_ack_seed_words.
  assert (List.filter (String.prefix (base name ++ ".")) ps ≡ₚ List.filter (String.prefix (base name ++ ".")) ps') as Hf.
  { clear -Hp. induction Hp; cbn [List.filter]; repeat case_match; eauto using Permutation. }
  pose proof (indexed_words_perm name cci_get _ _ Hf) as Hi. rewrite Hw in Hi |- *. case_match; [|done].
  destruct (Hs words) as [P S], (Hs' l) as [P' S']. do 2 f_equal. apply sorted_unique; [by rewrite P, P'| |done..]. by rewrite P.
Qed.

(** Presets below other names, with a name that is not a number or without a value are left
    out; the words come by their indices and not by the text of their names. *)
Example seed_words_example :
  load_doorbell_ack_seed_words "mhu"
    ["mhu.doorbell_ack_seed_words.10"; "mhu.doorbell_ack_seed_words.9"; "mhu.doorbell_ack_seed_words.x"; "mhu.pair";
     "mhu.doorbell_ack_seed_words.2"; "mhu.doorbell_ack_seed_words.1.2"]
    (fun n => if String.eqb n "mhu.doorbell_ack_seed_words.10" then Some 7%Z
              else if String.eqb n "mhu.doorbell_ack_seed_words.9" then Some 8%Z else None)
    (merge_sort by_index) [] = Some [8; 7]%Z.
Proof. by vm_compute. Qed.
