(* ===== verification/MhuWorld.v ===== *)
(** The message handling units of a platform (Mhu, the model of mhu320ae.h) as a
    system that moves by transactions and events: in every state it can reach,
    every device is well formed and every interrupt line follows the doorbells
    behind it. *)

From Stdlib Require Import String.
From stdpp Require Import strings.
From S2P Require Import Prelude Bytes Vectors Tlm Memory MhuFrame MhuDevice MhuScmi MhuPsa MhuInv MhuServices Mhu.

(** * Devices of a platform *)

Section lens.
Context {B : Type}.
Implicit Types w : world B.

Lemma dev_on i j f w : dev (on i f w) j = if decide (i = j) then f (dev w i) else dev w j.
Proof.
  unfold dev, on. cbn. destruct (decide (i = j)) as [<-|Hne]; [by rewrite lookup_insert_eq|by rewrite lookup_insert_ne].
Qed.

Lemma dev_on_eq i f w : dev (on i f w) i = f (dev w i).
Proof. rewrite dev_on. by rewrite decide_True. Qed.

Lemma dev_on_ne i j f w : i <> j -> dev (on i f w) j = dev w j.
Proof. intros H. rewrite dev_on. by rewrite decide_False. Qed.

Lemma memory_on i f w : memory (on i f w) = memory w.
Proof. done. Qed.
End lens.

(** * The system *)

Section system.
Context (cfgs : Z -> mhu_config) {B : Type} {bus : TlmTarget B} (ids : list Z).
Implicit Types (w : world B) (this i : Z).

(** After elaboration and the start of the simulation, with empty devices and the
    memory [b]. *)
Definition elaborated (b : B) : world B :=
  foldl (fun w i => end_of_elaboration cfgs i w) (World ∅ None None ∅ ∅ b) ids.
Definition started (b : B) : world B := foldl (fun w i => start_of_simulation cfgs i w) (elaborated b) ids.

(** What can happen next: a transaction, one of the events a device waits for, a
    poll of the announcement worker, or another initiator writing memory. *)
Inductive mhu_step : world B -> world B -> Prop :=
| step_transport i t w w' t' : i ∈ ids -> payload_ok t -> b_transport cfgs i t w = Some (w', t') -> mhu_step w w'
| step_power_on i w : i ∈ ids -> mhu_step w (on i (emit_power_on_reset (cfgs i)) w)
| step_power_domain i w : i ∈ ids -> mhu_step w (on i (emit_power_domain_reset (cfgs i)) w)
| step_system_power i w : i ∈ ids -> mhu_step w (on i (emit_system_power_reset (cfgs i)) w)
| step_completions i w : i ∈ ids -> mhu_step w (on i (emit_synthetic_postbox_completions (cfgs i)) w)
| step_round i w : i ∈ ids -> mhu_step w (on i (fun s => s <| m_rpmsg_ns_pending := false |>) w)
| step_poll i w : i ∈ ids -> mhu_step w (fst (inject_rpmsg_ns_once cfgs i w))
| step_wait i w : i ∈ ids -> mhu_step w (on i (emit (Wait (p_rpmsg_ns_poll_period_ns (cfgs i)))) w)
| step_memory b w : target_inv b -> mhu_step w (w <| memory := b |>).

Inductive mhu_reachable (b : B) : world B -> Prop :=
| reach_start : mhu_reachable b (started b)
| reach_step w w' : mhu_reachable b w -> mhu_step w w' -> mhu_reachable b w'.

Definition world_inv w : Prop := target_inv (memory w) /\ forall i, i ∈ ids -> dev_inv (cfgs i) (dev w i).

Context {bb : ByteBus B}.
Hypothesis Hcfg : forall i, config_ok (cfgs i).

(** * Every operation keeps the system well formed *)

Lemma world_inv_on i f w : (dev_inv (cfgs i) (dev w i) -> dev_inv (cfgs i) (f (dev w i))) ->
  world_inv w -> world_inv (on i f w).
Proof using.
  intros Hf [Hb Hw]. split; [done|]. intros j Hj. rewrite dev_on. destruct (decide (i = j)) as [<-|]; auto.
Qed.

Lemma world_inv_memory b w : target_inv b -> world_inv w -> world_inv (w <| memory := b |>).
Proof using. intros Hb [_ Hw]. by split. Qed.

Lemma world_inv_device i w s : dev_inv (cfgs i) s -> world_inv w -> world_inv (on i (fun _ => s) w).
Proof using. intros Hs. by apply world_inv_on. Qed.

Lemma world_inv_doorbell i channel value w : 0 <= channel -> is_u32 value -> world_inv w ->
  world_inv (on i (signal_doorbell_channel (cfgs i) channel value) w).
Proof using. intros Hc Hv. apply world_inv_on. intros Hs. by apply signal_doorbell_channel_inv. Qed.

Lemma respond_scmi_inv this channel w : this ∈ ids -> world_inv w -> world_inv (respond_scmi cfgs this channel w).
Proof using bb Hcfg.
  intros Hi Hw. pose proof Hw as [Hb Hdev]. unfold respond_scmi. cbv zeta.
  pose proof (mem_read32_inv (u64 (scmi_shmem (cfgs this) channel + SCMI_LENGTH)) (memory w) Hb) as H1.
  destruct (mem_read32 _ (memory w)) as [b1 len]. destruct H1 as [Hb1 _].
  pose proof (mem_read32_inv (u64 (scmi_shmem (cfgs this) channel + SCMI_HEADER)) b1 Hb1) as H2.
  destruct (mem_read32 _ b1) as [b2 header]. destruct H2 as [Hb2 _].
  pose proof (read_scmi_request_inv (cfgs this) channel len b2 Hb2) as H3.
  destruct (read_scmi_request_payload _ _ _ b2) as [b3 request]. destruct H3 as [Hb3 Hreq].
  pose proof (respond_protocol_ok (cfgs this) header request (dev w this) Hreq (Hdev _ Hi)) as H4.
  destruct (respond_protocol _ _ _ _) as [[s st] payload]. destruct H4 as (Hs & _ & Hp & _).
  set (w1 := on this (fun _ => s) w <| memory := _ |>).
  assert (world_inv w1) as Hw1.
  { unfold w1. apply world_inv_device; [done|]. apply world_inv_memory; [by apply write_scmi_response_inv|done]. }
  set (w2 := match paired_mbx _ _ _ with None => _ | Some _ => _ end).
  assert (world_inv w2) as Hw2.
  { unfold w2. destruct (paired_mbx _ _ _); [|done]. apply world_inv_on; [|done]. intros H.
    apply signal_doorbell_inv; [done|]. apply Hcfg. }
  clearbody w2. case_if; [|done]. apply world_inv_on; [|done]. by apply emit_inv.
Qed.

Lemma clear_mbx_inv this channel mask w : 0 <= channel -> world_inv w ->
  world_inv (clear_mbx_doorbell_channel cfgs this channel mask w).
Proof using.
  intros Hc Hw. unfold clear_mbx_doorbell_channel. destruct (Z.leb_spec (channel_count (cfgs this)) channel); [done|].
  cbv zeta. set (w1 := on this _ w).
  assert (world_inv w1) as Hw1.
  { unfold w1. apply world_inv_on; [|done]. intros [Hs _]. pose proof (channel_count_range (cfgs this)).
    apply update_inv; [done|]. apply clear_status_bits_conf; [apply Hs|lia]. }
  clearbody w1. destruct (paired_pbx _ _ _); [|done]. apply world_inv_on; [|done]. intros H'.
  by apply clear_postbox_doorbell_channel_inv.
Qed.

Lemma seed_memory_inv this w : world_inv w -> world_inv (seed_doorbell_ack_memory cfgs this w).
Proof using bb.
  intros Hw. unfold seed_doorbell_ack_memory. case_if; [done|].
  assert (bytes_ok (foldl append_u32 [] (seed_words (cfgs this)))) as Hd.
  { apply foldl_bytes_ok; [intros; eauto with mhu|apply bytes_nil_ok]. }
  set (data := foldl _ _ _) in *.
  pose proof (byte_bus (memory w) TLM_WRITE_COMMAND (p_doorbell_ack_seed_address (cfgs this)) data _ (proj1 Hw) Hd
    (u32_size_le data)) as H'.
  destruct (mem_access _ _ _ _ _) as [[b ok] d]. apply world_inv_memory; [apply H'|done].
Qed.

Lemma read_message_ok cfg s : bytes_ok (read_doorbell_message cfg s).
Proof using.
  unfold read_doorbell_message. apply foldl_bytes_ok; [|apply bytes_nil_ok]. intros m c Hm. case_if; [|done].
  unfold push_word_bytes. apply foldl_bytes_ok; [|done]. intros m' k Hm'. case_if; [|done].
  apply bytes_app_ok; [done|]. apply Forall_cons_2; [eauto with uint|]. apply Forall_nil_2.
Qed.

Lemma world_inv_load i msg w : bytes_ok msg -> world_inv w -> world_inv (on i (load_mbx_message (cfgs i) msg) w).
Proof using. intros Hm. apply world_inv_on. intros Hs. by apply load_mbx_message_inv. Qed.

Lemma respond_rse_inv this w : world_inv w -> world_inv (respond_rse_doorbell cfgs this w).
Proof using.
  intros Hw. unfold respond_rse_doorbell. cbv zeta. set (w1 := on this _ w).
  assert (world_inv w1) by (unfold w1; apply world_inv_on; [apply clear_postbox_transfer_inv|done]). clearbody w1.
  destruct (paired_mbx _ _ _); [|done]. apply world_inv_load; [|done]. apply success_reply_ok, read_message_ok.
Qed.

Lemma respond_ps_inv this w : this ∈ ids -> world_inv w -> world_inv (respond_rse_ps cfgs this w).
Proof using bb.
  intros Hi Hw. pose proof Hw as [Hb Hdev]. unfold respond_rse_ps. cbv zeta.
  pose proof (build_reply_inv (cfgs this) (read_doorbell_message (cfgs this) (dev w this)) (dev w this) (memory w)
    (read_message_ok _ _) (Hdev _ Hi) Hb) as H'.
  destruct (build_rse_ps_reply _ _ _) as [[s b] reply]. destruct H' as (Hs & Hb' & Hr).
  set (w1 := on this (clear_postbox_transfer _) _).
  assert (world_inv w1).
  { unfold w1. apply world_inv_on; [apply clear_postbox_transfer_inv|]. apply world_inv_device; [done|]. by apply world_inv_memory. }
  clearbody w1. destruct (paired_mbx _ _ _); [|done]. by apply world_inv_load.
Qed.

Lemma write_postbox_inv this channel value w : this ∈ ids -> 0 <= channel < 128 -> is_u32 value -> world_inv w ->
  world_inv (write_postbox_doorbell cfgs this channel value w).
Proof using bb Hcfg.
  intros Hi Hc Hv Hw. unfold write_postbox_doorbell. cbv zeta. set (w1 := on this _ w).
  assert (world_inv w1) as Hw1.
  { unfold w1. apply world_inv_on; [|done]. intros [Hs _]. apply update_inv; [done|]. apply set_status_bits_conf; [apply Hs|done|done]. }
  clearbody w1. case_if; [case_if; [by apply respond_ps_inv|done]|].
  case_if; [destruct (paired_mbx _ _ _); [|done]; apply world_inv_doorbell; (done || lia)|].
  case_if.
  - destruct (paired_mbx _ _ _) as [mbx|]; [|done].
    apply world_inv_on; [intros; by apply complete_synthetic_inv; [|lia|]|].
    apply world_inv_doorbell; [apply Hcfg..|]. by apply seed_memory_inv.
  - assert (world_inv (on this (schedule_rpmsg_ns_injection (cfgs this)) w1)) by (apply world_inv_on; [apply schedule_rpmsg_inv|done]).
    case_if; [|done]. apply world_inv_on; [|done]. intros. apply complete_synthetic_inv; [done|lia|done].
Qed.

Lemma rpmsg_inv cfg s f : dev_inv cfg s -> m_frame (f s) = m_frame s -> outputs (f s) = outputs s ->
  power_ok (f s) -> rpmsg_ok (f s) -> m_synthetic_postbox_completions (f s) = m_synthetic_postbox_completions s ->
  stores_ok (f s) -> dev_inv cfg (f s).
Proof using.
  intros Hs Ef Eo Hp Hr Eq Hst. apply (aside_inv _ s); [done|done|done|]. destruct Hs as [(H1 & H2 & _ & H4 & H5) _].
  unfold dev_ok. rewrite Ef, Eq. by do 4 (split; [done|]).
Qed.

Lemma poll_count_inv cfg s g : dev_inv cfg s -> is_u32 (g (m_rpmsg_ns_poll_count s)) ->
  dev_inv cfg (s <| m_rpmsg_ns_poll_count ::= g |>).
Proof using.
  intros Hs Hg. pose proof Hs as [(_ & H2 & [H3 _] & _ & H5) _].
  by apply (rpmsg_inv _ s (fun s : mhu320ae => s <| m_rpmsg_ns_poll_count ::= g |>)).
Qed.

Lemma announced_inv cfg s idx : dev_inv cfg s -> is_u16 idx ->
  dev_inv cfg (s <| m_rpmsg_ns_last_avail_idx := idx |> <| m_rpmsg_ns_sent := true |>).
Proof using.
  intros Hs Hg. pose proof Hs as [(_ & H2 & [_ H3] & _ & H5) _].
  by apply (rpmsg_inv _ s (fun s : mhu320ae => s <| m_rpmsg_ns_last_avail_idx := idx |> <| m_rpmsg_ns_sent := true |>)).
Qed.

Lemma ns_message_ok this : bytes_ok (build_rpmsg_ns_message cfgs this).
Proof using. unfold build_rpmsg_ns_message. cbv zeta. eauto 12 with mhu. Qed.

Lemma use_desc_inv this avail_idx desc_id w : this ∈ ids -> is_u16 avail_idx -> world_inv w ->
  world_inv (fst (use_rpmsg_ns_desc cfgs this avail_idx desc_id w)).
Proof using bb Hcfg.
  intros Hi Hidx Hw. unfold use_rpmsg_ns_desc. cbv zeta. set (desc := u64 (p_rpmsg_ns_vring_address _ + _)).
  pose proof (mem_read64_inv desc _ (proj1 Hw)) as H3.
  destruct (mem_read64 desc (memory w)) as [b3 addr]. destruct H3 as [Hb3 _].
  pose proof (mem_read32_inv (u64 (desc + 8)) _ Hb3) as H4. destruct (mem_read32 _ b3) as [b4 len]. destruct H4 as [Hb4 _].
  pose proof (mem_read16_inv (u64 (desc + 8 + 4)) _ Hb4) as H5. destruct (mem_read16 _ b4) as [b5 flags]. destruct H5 as [Hb5 _].
  apply (world_inv_memory b5) in Hw; [|done]. set (w4 := w <| memory := b5 |>) in *. clearbody w4. case_if; [done|].
  set (message := build_rpmsg_ns_message cfgs this).
  pose proof (byte_bus (memory w4) TLM_WRITE_COMMAND addr message _ (proj1 Hw) (ns_message_ok this) (u32_size_le message)) as H6.
  destruct (mem_access _ _ _ _ _) as [[b6 ok] d]. destruct H6 as [Hb6 _].
  apply (world_inv_memory b6) in Hw; [|done]. set (w5 := w4 <| memory := b6 |>) in *. clearbody w5. case_if; [done|].
  pose proof (mem_read16_inv (u64 (rpmsg_ns_used_address cfgs this + 2)) _ (proj1 Hw)) as H7.
  destruct (mem_read16 _ (memory w5)) as [b7 used_idx]. destruct H7 as [Hb7 _].
  set (w6 := on this _ _). assert (world_inv w6) as Hw6.
  { unfold w6. apply world_inv_on; [intros Hs; by apply announced_inv|]. apply world_inv_memory; [|done].
    by apply mem_write16_inv, mem_write32_inv, mem_write32_inv. }
  clearbody w6. destruct (paired_mbx _ _ _) as [mbx|]; [|done]. cbn [fst]. apply world_inv_doorbell; [apply Hcfg..|].
  case_if; [|done]. apply world_inv_on; [|done]. by apply emit_inv.
Qed.

Lemma inject_inv this w : this ∈ ids -> world_inv w -> world_inv (fst (inject_rpmsg_ns_once cfgs this w)).
Proof using bb Hcfg.
  intros Hi Hw. unfold inject_rpmsg_ns_once. cbv zeta. case_if; [done|].
  pose proof (mem_read16_inv (u64 (rpmsg_ns_avail_address cfgs this + 2)) _ (proj1 Hw)) as H1.
  destruct (mem_read16 _ (memory w)) as [b1 idx]. destruct H1 as [Hb1 Hidx].
  apply (world_inv_memory b1) in Hw; [|done]. set (w1 := w <| memory := b1 |>) in *. clearbody w1. case_if.
  { apply world_inv_on; [|done]. intros Hs. apply poll_count_inv; [done|]. apply wrap_range. lia. }
  set (w2 := on this _ w1). assert (world_inv w2) as Hw2.
  { unfold w2. apply world_inv_on; [|done]. intros Hs. apply poll_count_inv; [done|by cbv]. }
  clearbody w2. pose proof (mem_read16_inv (u64 (rpmsg_ns_avail_address cfgs this + VRING_AVAIL_HEADER_SIZE +
    u16 (m_rpmsg_ns_last_avail_idx (dev w this) mod p_rpmsg_ns_vring_num (cfgs this)) * 2)) _ (proj1 Hw2)) as H2.
  destruct (mem_read16 _ (memory w2)) as [b2 desc_id]. destruct H2 as [Hb2 _].
  apply (world_inv_memory b2) in Hw2; [|done]. set (w3 := w2 <| memory := b2 |>) in *. clearbody w3. case_if; [done|].
  by apply use_desc_inv.
Qed.

Lemma decode_range f offset channel reg : decode_dbch_offset f offset = Some (channel, reg) ->
  0 <= channel < m_channel_count f /\ 0 <= reg < 32.
Proof using.
  unfold decode_dbch_offset. case_if; [done|]. cbv zeta. case_if; [|done]. intros [= <- <-]. bool_hyps.
  unfold DBCW0, DBCW_STRIDE in *. pose proof (Z.div_pos (offset - 4096) 32). pose proof (Z.mod_pos_bound (offset - 4096) 32). lia.
Qed.

Lemma write32_inv this offset value w : this ∈ ids -> 0 <= offset < 2 ^ 63 -> is_u32 value -> world_inv w ->
  world_inv (write32 cfgs this offset value w).
Proof using bb Hcfg.
  intros Hi Ho Hv Hw. unfold write32. cbv zeta. pose proof (proj2 Hw _ Hi) as [[(Hfo & Hmb & Hcc) _] _].
  assert (forall g, (forall s, dev_inv (cfgs this) s -> frame_conf (cfgs this) (g (m_frame s))) ->
    world_inv (on this (fun s => update_combined_irq (cfgs this) (s <| m_frame ::= g |>)) w)) as Hup.
  { intros g Hg. apply world_inv_on; [|done]. intros Hs. apply update_inv; [apply Hs|by apply Hg]. }
  assert (world_inv (on this (fun s => s <| m_frame ::= store offset value |>) w)) as Hst.
  { apply world_inv_on; [|done]. intros Hs. apply mirror_inv; [done|apply store_conf; [done|apply Hs]|apply store_same]. }
  destruct (decode_dbch_offset _ offset) as [[channel reg]|] eqn:Ed; [|done].
  apply decode_range in Ed as [Hc Hr]. rewrite Hcc in Hc. pose proof (channel_count_range (cfgs this)).
  assert (0 <= channel < 128) as Hc' by lia.
  assert (world_inv (on this (fun s => update_combined_irq (cfgs this) (s <| m_frame ::= set_ctrl channel value |>)) w)) as Hctl.
  { apply Hup. intros s Hs. apply set_ctrl_conf; [apply Hs|done|done]. }
  case_if.
  - case_if.
    { case_if; [by apply respond_scmi_inv|]. pose proof (write_postbox_inv this channel value w Hi Hc' Hv Hw).
      case_if; [by apply respond_rse_inv|done]. }
    case_if; [apply world_inv_on; [|done]; intros; by apply clear_postbox_interrupt_inv|].
    case_if; [apply Hup; intros s Hs; apply set_int_enable_conf; [apply Hs|done|done]|]. by case_if.
  - case_if; [apply clear_mbx_inv; [lia|done]|].
    case_if; [apply world_inv_on; [|done]; intros; by apply set_mbx_mask_inv|].
    case_if; [apply world_inv_on; [|done]; intros; by apply clear_mbx_mask_inv|]. by case_if.
Qed.

Lemma b_transport_inv this t w w' t' : this ∈ ids -> payload_ok t -> b_transport cfgs this t w = Some (w', t') ->
  world_inv w -> world_inv w'.
Proof using bb Hcfg.
  intros Hi (H0 & [H1 H1'] & H2 & Hd) H' Hw. unfold b_transport in H'. cbv zeta in H'. cbn in H'. case_if; [by simplify_eq|].
  bool_hyps. rewrite wrap_small in * by (split; lia). unfold REG_SPACE_SIZE in *.
  destruct (command t), (data_ptr t) as [d|]; simplify_eq; try done. destruct Hd as [Hl Hb].
  pose proof (supported_length_range (data_length t) ltac:(done)).
  case_if.
  - apply write32_inv; [done|lia| |done]. pose proof (le_val_range _ (get_data_ok 4 d Hb)) as Hr.
    rewrite get_data_length in Hr by lia. exact Hr.
  - apply world_inv_on; [|done]. intros Hs. apply mirror_inv; [done| |apply copy_write_same].
    apply copy_write_conf; [done| |by apply get_data_ok|apply Hs]. unfold vec_size. rewrite get_data_length by lia.
    unfold REG_SPACE_SIZE. lia.
Qed.

Lemma drain_inv cfg fuel s : dev_inv cfg s -> dev_inv cfg (drain_completions cfg fuel s).
Proof using.
  revert s. induction fuel as [|fuel IH]; intros s Hs; cbn [drain_completions]; [done|].
  destruct (m_synthetic_postbox_completions s) as [|c rest] eqn:E; [done|]. cbv zeta. apply IH.
  pose proof Hs as [(H1 & H2 & H3 & H4 & H5) Hirq]. rewrite E in H4. inversion_clear H4 as [|? ? [Hc _] Hrest].
  apply clear_postbox_doorbell_channel_inv; [|lia]. split; [|exact Hirq]. by do 4 (split; [done|]).
Qed.

(** Flags and pending requests next to the frame. *)
Lemma flags_inv cfg s s' : m_frame s' = m_frame s -> outputs s' = outputs s -> power_ok s' -> rpmsg_ok s' ->
  m_synthetic_postbox_completions s' = m_synthetic_postbox_completions s -> stores_ok s' -> dev_inv cfg s -> dev_inv cfg s'.
Proof using. intros Ef Eo Hp Hr Eq Hst Hs. by apply (rpmsg_inv cfg s (fun _ => s')). Qed.

Lemma emit_power_domain_inv cfg s : dev_inv cfg s -> dev_inv cfg (emit_power_domain_reset cfg s).
Proof using.
  intros Hs. unfold emit_power_domain_reset. case_if; [done|]. cbv zeta. unfold drive_power_domain_reset.
  assert (dev_inv cfg (s <| m_pending_power_domain_reset_valid := false |>)) as H1.
  { pose proof Hs as [(_ & H2 & H3 & _ & H5) _]. by apply (flags_inv cfg s). }
  repeat case_if; try done; repeat first [apply write_power_on_reset_inv|apply write_power_domain_reset_inv]; done.
Qed.

Lemma emit_system_power_inv cfg s : dev_inv cfg s -> dev_inv cfg (emit_system_power_reset cfg s).
Proof using.
  intros Hs. unfold emit_system_power_reset. case_if; [done|]. cbv zeta. do 3 (apply emit_inv; [done|]).
  pose proof Hs as [(_ & H2 & H3 & _ & H5) _]. by apply (flags_inv cfg s).
Qed.

Lemma pending_inv cfg s : dev_inv cfg s -> dev_inv cfg (s <| m_rpmsg_ns_pending := false |>).
Proof using. intros Hs. pose proof Hs as [(_ & H2 & H3 & _ & H5) _]. by apply (flags_inv cfg s). Qed.

Lemma step_inv w w' : mhu_step w w' -> world_inv w -> world_inv w'.
Proof using bb Hcfg.
  intros [i t w0 w0' t' Hi Ht H'|i w0 Hi|i w0 Hi|i w0 Hi|i w0 Hi|i w0 Hi|i w0 Hi|i w0 Hi|b w0 Hb] Hw.
  - by eapply b_transport_inv.
  - apply world_inv_on; [|done]. intros Hs. by apply write_power_on_reset_inv.
  - apply world_inv_on; [|done]. by apply emit_power_domain_inv.
  - apply world_inv_on; [|done]. by apply emit_system_power_inv.
  - apply world_inv_on; [|done]. by apply drain_inv.
  - apply world_inv_on; [|done]. by apply pending_inv.
  - by apply inject_inv.
  - apply world_inv_on; [|done]. by apply emit_inv.
  - by apply world_inv_memory.
Qed.

Lemma configured_conf cfg : frame_conf cfg (configure (is_mbx cfg) (channel_count cfg) (p_feat_spt0 cfg) (p_feat_spt1 cfg)
  (p_iidr cfg) (p_aidr cfg) new_frame).
Proof using.
  pose proof (channel_count_range cfg). split; [apply configure_ok; lia|]. unfold configure. cbv zeta.
  match goal with |- context [refresh_combined_irq_regs ?f] =>
    destruct (same_channels_fields _ _ (refresh_same f)) as (_ & _ & _ & _ & _ & -> & ->) end.
  match goal with |- context [foldl ?g ?f ?l] =>
    destruct (same_channels_fields _ _ (foldl_same g f l (fun s c => store_channel_same c s))) as (_ & _ & _ & _ & _ & -> & ->) end.
  repeat (match goal with |- context [store ?o ?v ?f] =>
    destruct (same_channels_fields _ _ (store_same o v f)) as (_ & _ & _ & _ & _ & -> & ->) end).
  split; [done|]. cbn. unfold DBCH_CHANNELS. lia.
Qed.

Lemma new_dev_ok cfg g : frame_conf cfg (g new_frame) -> dev_ok cfg (new_mhu <| m_frame ::= g |>).
Proof using.
  intros Hf. split; [done|]. split; [|split; [|split; [constructor|]]].
  - do 2 (split; [apply (arr_ok_replicate _ 32); by cbv|]). by cbv.
  - by cbv.
  - split; [apply map_Forall_empty|]. split; [done|]. apply Forall_replicate. split; [by cbv|].
    repeat split; (by cbv) || apply bytes_nil_ok.
Qed.

Lemma elaborate_dev i w j : dev (end_of_elaboration cfgs i w) j =
  if decide (i = j) then
    update_combined_irq (cfgs i) ((dev w i) <| m_frame ::=
      configure (is_mbx (cfgs i)) (channel_count (cfgs i)) (p_feat_spt0 (cfgs i)) (p_feat_spt1 (cfgs i)) (p_iidr (cfgs i))
        (p_aidr (cfgs i)) |>)
  else dev w j.
Proof using.
  unfold end_of_elaboration. cbv zeta. rewrite dev_on. set (w1 := on i _ w).
  assert (forall k, dev (if is_mbx (cfgs i) then w1 <| s_mbx := Some i |> <| s_mbx_by_pair ::= <[p_pair (cfgs i) := i]> |>
    else w1 <| s_pbx := Some i |> <| s_pbx_by_pair ::= <[p_pair (cfgs i) := i]> |>) k = dev w1 k) as E by (intros; by case_if).
  rewrite !E. unfold w1. rewrite !dev_on. rewrite (decide_True (P := i = i)) by done. by case_decide.
Qed.

Lemma elaborated_inv b : NoDup ids -> target_inv b -> world_inv (elaborated b).
Proof using.
  intros Hnd Hb. unfold elaborated.
  assert (forall l w, NoDup l -> (forall i, i ∈ l -> dev w i = new_mhu) ->
    let w' := foldl (fun w i => end_of_elaboration cfgs i w) w l in
    memory w' = memory w /\ (forall i, i ∈ l -> dev_inv (cfgs i) (dev w' i)) /\ (forall i, i ∉ l -> dev w' i = dev w i)) as H'.
  { induction l as [|i l IH]; intros w Hl Hnew; [by split_and!; [|intros i Hi; apply elem_of_nil in Hi|]|].
    apply NoDup_cons in Hl as [Hi Hl]. cbn [foldl].
    destruct (IH (end_of_elaboration cfgs i w) Hl) as (Hm & Hin & Hout).
    { intros j Hj. rewrite elaborate_dev, decide_False by (intros ->; done). apply Hnew. by right. }
    split; [rewrite Hm; unfold end_of_elaboration; cbv zeta; by destruct (is_mbx _)|]. split.
    - intros j [->|Hj]%elem_of_cons; [|by apply Hin]. rewrite Hout by done. rewrite elaborate_dev, decide_True by done.
      rewrite Hnew by by left. apply update_dev_inv, new_dev_ok, configured_conf.
    - intros j Hj. apply not_elem_of_cons in Hj as [Hne Hj]. rewrite Hout by done. by rewrite elaborate_dev, decide_False. }
  destruct (H' ids (World ∅ None None ∅ ∅ b) Hnd) as (Hm & Hin & _); [by intros i _|].
  split; [by rewrite Hm|exact Hin].
Qed.

Lemma start_inv i w : world_inv w -> world_inv (start_of_simulation cfgs i w).
Proof using bb.
  intros Hw. unfold start_of_simulation. cbv zeta. set (w1 := if negb _ && p_init_shmem _ then _ else w).
  assert (world_inv w1) as Hw1.
  { unfold w1. case_if; [|done]. apply world_inv_memory; [|done]. apply mem_write32_inv.
    generalize (range (p_scmi_channel_count (cfgs i))). destruct Hw as [Hb _]. revert Hb. generalize (memory w). intros b Hb l.
    revert b Hb. induction l as [|c l IH]; intros b Hb; [done|]. cbn. apply IH. by apply mem_write32_inv. }
  clearbody w1. case_if; [|done]. apply world_inv_on; [|done]. intros Hs. apply emit_inv; [done|].
  pose proof Hs as [(_ & H2 & H3 & _ & H5) _]. by apply (flags_inv _ (dev w1 i)).
Qed.

Lemma mhu_reachable_inv b w : NoDup ids -> target_inv b -> mhu_reachable b w -> world_inv w.
Proof using bb Hcfg.
  intros Hnd Hb. induction 1 as [|w w' _ IH Hstep]; [|by eapply step_inv].
  unfold started. pose proof (elaborated_inv b Hnd Hb) as H'. revert H'. generalize (elaborated b). clear Hnd.
  assert (forall l w, world_inv w -> world_inv (foldl (fun w i => start_of_simulation cfgs i w) w l)) as Hf; [|by intros; apply Hf].
  induction l as [|i l IH]; intros w Hw; [done|]. cbn. apply IH. by apply start_inv.
Qed.
End system.

(** * The interrupt lines *)

(** A read of a combined status word. *)
Lemma read_combined f k : 0 <= k < 4 -> read32 f (CTRL_DBCH_INT_ST0 + 4 * k) = combined_dbch_int_st f k.
Proof.
  intros Hk. unfold read32, CTRL_DBCH_INT_ST0.
  replace ((1024 <=? 1024 + 4 * k) && (1024 + 4 * k <? 1024 + 16) && ((1024 + 4 * k - 1024) mod 4 =? 0)) with true.
  - f_equal. replace (1024 + 4 * k - 1024) with (k * 4) by lia. by rewrite Z.div_mul.
  - symmetry. replace (1024 + 4 * k - 1024) with (k * 4) by lia. rewrite Z.mod_mul by lia. lia.
Qed.

(** C18. In every state the platform can reach - through register transactions of
    any kind to any device, the doorbells these ring in other devices, messages
    loaded into mailboxes, deferred completions, announcements and resets - the
    level last written to a device's interrupt line is high exactly when some
    channel asks for it: in a mailbox, a doorbell is set and not masked; in a
    postbox, a completed transfer has not been cleared and is enabled.  The
    combined status words read by software name exactly those channels. *)
Theorem mhu_irq_follows_doorbells (cfgs : Z -> mhu_config) {B : Type} {bus : TlmTarget B} {bb : ByteBus B}
    (ids : list Z) (b : B) w i :
  (forall i, config_ok (cfgs i)) -> NoDup ids -> target_inv b -> mhu_reachable cfgs ids b w -> i ∈ ids ->
  let f := m_frame (dev w i) in
  let wants channel :=
    if is_mbx (cfgs i) then negb (Z.ldiff (arr_get (m_db_status f) channel) (arr_get (m_db_mask f) channel) =? 0)
    else negb (Z.land (arr_get (m_db_int_status f) channel) (arr_get (m_db_int_enable f) channel) =? 0) in
  (irq_bound (cfgs i) = true ->
     last_irq (outputs (dev w i)) = Some (existsb wants (range (channel_count (cfgs i))))) /\
  (forall channel, 0 <= channel < channel_count (cfgs i) ->
     Z.testbit (read32 f (CTRL_DBCH_INT_ST0 + 4 * (channel / 32))) (channel mod 32) = wants channel).
Proof.
  intros Hcfg Hnd Hb Hr Hi f wants. destruct (mhu_reachable_inv cfgs ids Hcfg b w Hnd Hb Hr) as [_ Hw].
  destruct (Hw i Hi) as [((Hok & Hm & Hc) & _) Hirq]. pose proof (channel_count_range (cfgs i)) as Hcount.
  assert (forall channel, asserted f channel = wants channel) as Ha.
  { intros c. unfold asserted, wants, channel_masked_status. fold f in Hm. rewrite Hm. case_if; [|done].
    rewrite land_cnot; [done| |lia]. destruct Hok as (_ & Hst & _). by apply (arr_ok_get 128 32). }
  split.
  - intros Hbound. rewrite (Hirq Hbound). f_equal. fold f in Hc |- *. rewrite any_combined_spec by (rewrite Hc; unfold DBCH_CHANNELS; lia).
    rewrite Hc. apply existsb_ext_in. intros c _. apply Ha.
  - intros c Hcr. pose proof (Z.div_mod c 32 ltac:(lia)). pose proof (Z.mod_pos_bound c 32 ltac:(lia)).
    rewrite read_combined, combined_testbit by lia. fold f in Hc. rewrite Hc.
    replace (c / 32 * 32 + c mod 32) with c by lia. rewrite Ha. by replace (c <? channel_count (cfgs i)) with true by lia.
Qed.

(** C28. Every device of every reachable state is well formed: each array has the
    length it is declared with and each word stays within its type, pending
    completions name configured channels, stored objects and measurements are
    byte strings, and a measurement never outgrows the fields it was declared
    for, so that the copies into the metadata record of a measured-boot read
    stay inside its 56 bytes. *)
Theorem mhu_state_well_formed (cfgs : Z -> mhu_config) {B : Type} {bus : TlmTarget B} {bb : ByteBus B}
    (ids : list Z) (b : B) w i :
  (forall i, config_ok (cfgs i)) -> NoDup ids -> target_inv b -> mhu_reachable cfgs ids b w -> i ∈ ids ->
  dev_ok (cfgs i) (dev w i) /\
  Forall (fun e => vec_size (measurement_metadata e) = 56) (m_measurements (dev w i)).
Proof.
  intros Hcfg Hnd Hb Hr Hi. destruct (mhu_reachable_inv cfgs ids Hcfg b w Hnd Hb Hr) as [_ Hw].
  destruct (Hw i Hi) as [Hok _]. split; [done|]. destruct Hok as (_&_&_&_&_&_&Hm).
  eapply Forall_impl; [exact Hm|]. apply metadata_size.
Qed.

(** * A platform of one pair *)

(** A postbox and a mailbox joined by the name of their pair. *)
Definition example_cfg (frame protocol : string) : mhu_config :=
  MkMhuConfig "rse" protocol frame 128 1 0 0x43b 0x20 false "mailbox" 0x100 0x200 0 0 1 true 0 0x20000 0x20000 0 "AP"
    false 1 true false 1 1 0 0 0 0 0 false "" 1024 0 32 16 0 1 0 100000 1000 1000 [] true false [].
Definition example_cfgs (protocol : string) (i : Z) : mhu_config :=
  if i =? 0 then example_cfg "pbx" protocol else example_cfg "mbx" protocol.

Lemma example_config_ok protocol i : config_ok (example_cfgs protocol i).
Proof. unfold example_cfgs. case_if; (split; cbn; first [apply Forall_nil_2|lia|split; lia]). Qed.

Lemma example_reached : mhu_reachable (bus := ram 0x1000) (example_cfgs "doorbell") [0; 1] ∅
  (started (bus := ram 0x1000) (example_cfgs "doorbell") [0; 1] ∅).
Proof. apply (@reach_start _ mem (ram 0x1000)). Qed.

(** The mailbox of a started platform: channel 37 does not ask for the interrupt. *)
Lemma mhu_irq_follows_doorbells_witness :
  Z.testbit (read32 (m_frame (dev (started (bus := ram 0x1000) (example_cfgs "doorbell") [0; 1] ∅) 1)) 0x404) 5 = false.
Proof.
  destruct (mhu_irq_follows_doorbells (bus := ram 0x1000) (bb := ram_byte_bus 0x1000) (example_cfgs "doorbell") [0; 1] ∅
    (started (bus := ram 0x1000) (example_cfgs "doorbell") [0; 1] ∅) 1 (example_config_ok "doorbell")) as [_ H].
  - by apply (bool_decide_unpack _).
  - apply mem_ok_empty.
  - apply example_reached.
  - right. left.
  - refine (eq_trans (H 37 ltac:(unfold channel_count, DBCH_CHANNELS; cbn; lia)) _). vm_compute. reflexivity.
Defined.

Lemma mhu_state_well_formed_witness :
  dev_ok (example_cfgs "doorbell" 1) (dev (started (bus := ram 0x1000) (example_cfgs "doorbell") [0; 1] ∅) 1).
Proof.
  destruct (mhu_state_well_formed (bus := ram 0x1000) (bb := ram_byte_bus 0x1000) (example_cfgs "doorbell") [0; 1] ∅
    (started (bus := ram 0x1000) (example_cfgs "doorbell") [0; 1] ∅) 1 (example_config_ok "doorbell")) as [H _].
  - by apply (bool_decide_unpack _).
  - apply mem_ok_empty.
  - apply example_reached.
  - right. left.
  - exact H.
Defined.

(** The bounds check adds in 64 bits: an access just below 2^64 passes it. *)
Lemma mhu_bounds_check_wraps (cfgs : Z -> mhu_config) (w : world mem) : exists t',
  b_transport (bus := ram 0) cfgs 0 (Payload TLM_READ_COMMAND (2 ^ 64 - 4) (Some [0; 0; 0; 0]) 4 TLM_INCOMPLETE_RESPONSE false) w =
    Some (w, t') /\ response_status t' = TLM_OK_RESPONSE.
Proof. eexists. split; [done|done]. Qed.
