(* ===== verification/MhuTransport.v ===== *)
(** The message transport of the units (Mhu, the model of mhu320ae.h): a message
    in the doorbell words of a mailbox, and a request posted through a postbox. *)

From Stdlib Require Import String.
From stdpp Require Import strings.
From S2P Require Import Prelude Bytes Vectors Tlm Memory MhuFrame MhuDevice MhuPsa MhuInv MhuServices Mhu MhuWorld.

(** * The doorbell words *)

Lemma status_same f f' c : same_channels f f' -> status f' c = status f c.
Proof. intros H. unfold status. by destruct (same_channels_fields _ _ H) as (-> & _). Qed.

Lemma status_set c v f c' : frame_ok f -> 0 <= c < 128 -> 0 <= c' ->
  status (set_status c v f) c' = if c' =? c then v else status f c'.
Proof.
  intros (_ & [Hl _] & _) Hc Hc'. unfold set_status. rewrite (status_same _ _ _ (store_channel_same _ _)).
  unfold status. cbn. destruct (Z.eqb_spec c' c) as [->|Hne]; [apply arr_get_set_eq; lia|apply arr_get_set_ne; lia].
Qed.

Lemma status_set_bits c v f c' : frame_ok f -> 0 <= c < 128 -> 0 <= c' ->
  status (set_status_bits c v f) c' = if c' =? c then Z.lor (status f c) v else status f c'.
Proof.
  intros (_ & [Hl _] & _) Hc Hc'. unfold set_status_bits. rewrite (status_same _ _ _ (store_channel_same _ _)).
  unfold status. cbn. destruct (Z.eqb_spec c' c) as [->|Hne]; [apply arr_get_set_eq; lia|apply arr_get_set_ne; lia].
Qed.

Lemma status_set_int c v f c' : status (set_int_status_bits c v f) c' = status f c'.
Proof. unfold set_int_status_bits. by rewrite (status_same _ _ _ (store_channel_same _ _)). Qed.

Lemma status_refresh f c : status (refresh_combined_irq_regs f) c = status f c.
Proof. apply status_same, refresh_same. Qed.

Lemma status_update cfg s c : status (m_frame (update_combined_irq cfg s)) c = status (m_frame s) c.
Proof. unfold update_combined_irq. case_if; apply status_refresh. Qed.

Lemma status_clear_all f c : frame_ok f -> 0 <= c < 128 -> status (clear_all_status f) c = 0.
Proof.
  intros Hf Hc. unfold clear_all_status.
  pose proof (foldl_range_ind (fun f channel => set_status channel 0 f)
    (fun k f' => frame_ok f' /\ forall c, 0 <= c < k -> status f' c = 0) f DBCH_CHANNELS ltac:(unfold DBCH_CHANNELS; lia)) as H.
  apply H; [split; [done|lia]| |unfold DBCH_CHANNELS; lia].
  intros k f' Hk [Hok Hz]. unfold DBCH_CHANNELS in Hk. split; [apply set_status_ok; [done|done|by cbv]|].
  intros c' Hc'. rewrite status_set by (done || lia). case_if; [done|]. apply Hz. lia.
Qed.

(** * Reading a message *)

Lemma take_take_app {A} n (a b : list A) : take n (take n a ++ b) = take n (a ++ b).
Proof.
  destruct (decide (length a <= n)%nat) as [H|H]; [by rewrite (take_ge a n H)|].
  rewrite (take_app_le a b), take_app_le by (rewrite ?length_take; lia). rewrite take_take. f_equal. lia.
Qed.

Lemma push_cut len (x : Z) msg : vec_size msg <= len ->
  (if vec_size msg <? len then msg ++ [x] else msg) = take (Z.to_nat len) (msg ++ [x]).
Proof.
  intros H. unfold vec_size in *. case_if.
  - by rewrite take_ge by (rewrite length_app; cbn; lia).
  - rewrite take_app_le, take_ge by lia. done.
Qed.

(** A loop that appends while there is room. *)
Lemma push_loop {A} len (f : A -> Z) l msg : vec_size msg <= len ->
  foldl (fun msg x => if vec_size msg <? len then msg ++ [f x] else msg) msg l =
  take (Z.to_nat len) (msg ++ map f l).
Proof.
  revert msg. induction l as [|x l IH]; intros msg H; cbn [foldl map].
  { rewrite app_nil_r, take_ge by (unfold vec_size in H; lia). done. }
  rewrite push_cut, IH by done || (unfold vec_size; rewrite length_take; unfold vec_size in H; lia).
  by rewrite take_take_app, <-app_assoc.
Qed.

Lemma push_word_eq len word msg : vec_size msg <= len ->
  push_word_bytes len word msg = take (Z.to_nat len) (msg ++ le_bytes 4 word).
Proof.
  intros H. unfold push_word_bytes. rewrite push_loop by done. do 2 f_equal.
  change (range 4) with [0; 1; 2; 3]. cbn [map le_bytes]. change 0xff with (Z.ones 8).
  rewrite !Z.land_ones, !Z.shiftr_div_pow2, !Z.div_div by lia. by rewrite Z.div_1_r.
Qed.

Lemma take_size {A} len (l : list A) : 0 <= len -> vec_size (take (Z.to_nat len) l) <= len.
Proof. intros H. unfold vec_size. rewrite length_take. lia. Qed.

Lemma read_message_eq cfg s : 0 <= status (m_frame s) 0 ->
  read_doorbell_message cfg s =
  take (Z.to_nat (status (m_frame s) 0))
    (concat (map (fun c => le_bytes 4 (status (m_frame s) c)) (seqZ 1 (notify_channel cfg - 1)))).
Proof.
  intros H0. unfold read_doorbell_message. cbv zeta. set (len := status _ 0) in *.
  assert (forall l msg, vec_size msg <= len ->
    foldl (fun msg c => if vec_size msg <? len then push_word_bytes len (status (m_frame s) c) msg else msg) msg l =
    take (Z.to_nat len) (msg ++ concat (map (fun c => le_bytes 4 (status (m_frame s) c)) l))) as H; [|by apply H].
  induction l as [|c l IH]; intros msg Hm; cbn [foldl map concat].
  { rewrite app_nil_r, take_ge by (unfold vec_size in Hm; lia). done. }
  assert ((if vec_size msg <? len then push_word_bytes len (status (m_frame s) c) msg else msg) =
    take (Z.to_nat len) (msg ++ le_bytes 4 (status (m_frame s) c))) as ->.
  { case_if; [by apply push_word_eq|]. rewrite take_app_le, take_ge by (unfold vec_size in *; lia). done. }
  rewrite IH by by apply take_size. by rewrite take_take_app, <-app_assoc.
Qed.

(** * The words of a message *)

Lemma le_val_zeros n : le_val (replicate n 0) = 0.
Proof. induction n as [|n IH]; [done|]. cbn. by rewrite IH. Qed.

Lemma le_bytes_pad n bs : bytes_ok bs -> (length bs <= n)%nat ->
  le_bytes n (le_val bs) = bs ++ replicate (n - length bs) 0.
Proof.
  intros Hb Hn. assert (le_val bs = le_val (bs ++ replicate (n - length bs) 0)) as ->.
  { rewrite le_val_app, le_val_zeros. lia. }
  apply le_bytes_val; [apply bytes_app_ok; [done|apply Forall_replicate; by cbv]|].
  rewrite length_app, length_replicate. lia.
Qed.

(** The word a message puts into channel [c]. *)
Definition channel_word (msg : list Z) (c : Z) : Z :=
  if 4 * (c - 1) <? vec_size msg then message_word msg (4 * (c - 1)) else 0.

Lemma channel_word_u32 msg c : bytes_ok msg -> is_u32 (channel_word msg c).
Proof. intros H. unfold channel_word. case_if; [by apply message_word_uint|by cbv]. Qed.

Lemma channel_word_bytes msg c n : bytes_ok msg -> 1 <= c <= n ->
  le_bytes 4 (channel_word msg c) =
  take 4 (drop (Z.to_nat (4 * (c - 1))) (msg ++ replicate (Z.to_nat (4 * n)) 0)).
Proof.
  intros Hm Hc. unfold channel_word. set (off := 4 * (c - 1)). destruct (Z.ltb_spec off (vec_size msg)) as [Hlt|Hge].
  - rewrite message_word_val by (done || lia). set (k := Z.min 4 (vec_size msg - off)).
    assert (vec_size (slice off k msg) = k) as Hk by (apply slice_vec_size; lia).
    rewrite le_bytes_pad by (try (by apply slice_bytes); unfold vec_size in Hk; lia).
    rewrite drop_app_le by (unfold vec_size in Hlt; lia). unfold slice in *. unfold vec_size in *.
    destruct (Z.le_gt_cases 4 (Z.of_nat (length msg) - off)) as [H4|H4].
    + replace k with 4 in * by lia. change (Z.to_nat 4) with 4%nat in *. rewrite take_app_le by (rewrite length_drop; lia).
      replace (4 - _)%nat with 0%nat by lia. apply app_nil_r.
    + rewrite take_app_ge by (rewrite length_drop; lia). rewrite take_replicate. f_equal.
      * apply take_ge. rewrite length_drop. lia.
      * f_equal. rewrite length_drop. lia.
  - rewrite drop_app_ge, drop_replicate, take_replicate by (unfold vec_size in Hge; lia).
    change (le_bytes 4 0) with (replicate 4 0). f_equal. unfold vec_size in *. lia.
Qed.

Lemma channel_words msg (n : nat) total : bytes_ok msg -> Z.of_nat n <= total ->
  concat (map (fun c => le_bytes 4 (channel_word msg c)) (seqZ 1 (Z.of_nat n))) =
  take (4 * n) (msg ++ replicate (Z.to_nat (4 * total)) 0).
Proof.
  intros Hm. induction n as [|n IH]; intros Hn; [done|].
  rewrite Nat2Z.inj_succ, <-Z.add_1_r, seqZ_app, map_app, concat_app, IH by lia. cbn [seqZ map concat].
  change (seqZ (1 + Z.of_nat n) 1) with [0 + (1 + Z.of_nat n)]. cbn [map concat]. rewrite app_nil_r, Z.add_0_l.
  rewrite (channel_word_bytes msg _ total) by (done || lia).
  replace (Z.to_nat (4 * (1 + Z.of_nat n - 1))) with (4 * n)%nat by lia.
  rewrite take_take_drop. f_equal. lia.
Qed.

(** What a reader sees when the words of a message are in the channels. *)
Lemma read_words cfg s msg : bytes_ok msg -> vec_size msg < 2 ^ 32 ->
  (1 <= notify_channel cfg -> status (m_frame s) 0 = vec_size msg) -> 0 <= status (m_frame s) 0 ->
  (forall c, 1 <= c < notify_channel cfg -> status (m_frame s) c = channel_word msg c) ->
  read_doorbell_message cfg s = take (Z.to_nat (4 * (notify_channel cfg - 1))) msg.
Proof.
  intros Hm Hs H0 Hp Hc. rewrite read_message_eq by done. pose proof (notify_range cfg).
  destruct (Z.le_gt_cases 1 (notify_channel cfg)) as [H1|H1].
  - set (n := notify_channel cfg - 1) in *. erewrite map_ext_in.
    2:{ intros c Hin%list_elem_of_In%elem_of_seqZ. rewrite (Hc c) by (unfold n in Hin; lia). done. }
    replace n with (Z.of_nat (Z.to_nat n)) at 1 by lia. rewrite (channel_words msg (Z.to_nat n) n) by (done || lia).
    rewrite H0, take_take by done. unfold vec_size.
    destruct (Z.le_gt_cases (Z.of_nat (length msg)) (4 * n)).
    + rewrite (take_ge msg) by lia. rewrite take_app_le, take_ge by lia. done.
    + rewrite take_app_le by lia. f_equal. lia.
  - replace (Z.to_nat (4 * (notify_channel cfg - 1))) with 0%nat by lia.
    unfold seqZ. replace (Z.to_nat (notify_channel cfg - 1)) with 0%nat by lia. cbn. by rewrite take_nil.
Qed.

(** * A message loaded into a mailbox *)

Lemma load_words_status cfg msg f c : frame_conf cfg f -> bytes_ok msg -> 0 <= c < 128 ->
  status (load_words cfg msg f) c =
  if (1 <=? c) && (c <? notify_channel cfg) && (4 * (c - 1) <? vec_size msg) then message_word msg (4 * (c - 1))
  else status f c.
Proof.
  intros Hf Hm Hc. pose proof (notify_range cfg). unfold load_words.
  destruct (Z.le_gt_cases 1 (notify_channel cfg)) as [H1|H1].
  2:{ unfold seqZ. replace (Z.to_nat (notify_channel cfg - 1)) with 0%nat by lia. cbn [foldl seq map fmap].
      replace ((1 <=? c) && (c <? notify_channel cfg)) with false by lia. done. }
  set (step := fun (f : mhu_frame) channel => _).
  pose proof (foldl_seqZ_ind step (fun k f' => frame_conf cfg f' /\
    status f' c = if (1 <=? c) && (c <? k) && (4 * (c - 1) <? vec_size msg) then message_word msg (4 * (c - 1)) else status f c)
    f 1 (notify_channel cfg - 1) ltac:(lia)) as Hind.
  destruct Hind as [_ E].
  - split; [done|]. by replace ((1 <=? c) && (c <? 1)) with false by lia.
  - intros k f' Hk [Hf' Hst]. unfold step. cbv zeta. destruct (Z.ltb_spec (4 * (k - 1)) (vec_size msg)) as [Hlt|Hge].
    + split; [apply set_status_conf; [done|lia|by apply message_word_uint]|].
      rewrite status_set by (try apply Hf'; lia). destruct (Z.eqb_spec c k) as [->|Hne].
      * by replace ((1 <=? k) && (k <? k + 1) && (4 * (k - 1) <? vec_size msg)) with true by lia.
      * rewrite Hst. by replace ((1 <=? c) && (c <? k + 1)) with ((1 <=? c) && (c <? k)) by lia.
    + split; [done|]. rewrite Hst. destruct (Z.eqb_spec c k) as [->|Hne].
      * replace ((1 <=? k) && (k <? k)) with false by lia. replace (4 * (k - 1) <? vec_size msg) with false by lia.
        by rewrite !andb_false_r.
      * by replace ((1 <=? c) && (c <? k + 1)) with ((1 <=? c) && (c <? k)) by lia.
  - replace (1 + (notify_channel cfg - 1)) with (notify_channel cfg) in E by lia. exact E.
Qed.

Lemma load_status cfg msg s c : frame_conf cfg (m_frame s) -> bytes_ok msg -> 0 <= c < 128 ->
  status (m_frame (load_mbx_message cfg msg s)) c =
  if c =? notify_channel cfg then MHU_NOTIFY_VALUE
  else if (1 <=? c) && (c <? notify_channel cfg) then channel_word msg c
  else if c =? 0 then u32 (vec_size msg) else 0.
Proof.
  intros Hf Hm Hc. pose proof (notify_range cfg). unfold load_mbx_message. cbv zeta. rewrite status_update. cbn.
  pose proof (clear_all_conf cfg _ Hf) as H1.
  assert (frame_conf cfg (set_status 0 (u32 (vec_size msg)) (clear_all_status (m_frame s)))) as H2.
  { apply set_status_conf; [done|lia|apply wrap_range; lia]. }
  pose proof (load_words_conf cfg msg _ Hm H2) as H3.
  rewrite status_set by (try apply H3; lia). case_if; [done|]. rewrite load_words_status by (done || lia).
  rewrite status_set by (try apply H1; lia). rewrite status_clear_all by (try apply Hf; lia). unfold channel_word.
  destruct ((1 <=? c) && (c <? notify_channel cfg)) eqn:Ech; cbn [andb]; [|done]. case_if; [done|].
  by replace (c =? 0) with false by lia.
Qed.

(** A message put into a mailbox is read back from its doorbell words, as far as
    the channels between the length and the notification reach. *)
Lemma mailbox_roundtrip cfg msg s : frame_conf cfg (m_frame s) -> bytes_ok msg -> vec_size msg < 2 ^ 32 ->
  read_doorbell_message cfg (load_mbx_message cfg msg s) = take (Z.to_nat (4 * (notify_channel cfg - 1))) msg.
Proof.
  intros Hf Hm Hs. pose proof (notify_range cfg). assert (0 <= vec_size msg) as Hnn by (unfold vec_size; lia).
  pose proof (load_status cfg msg s 0 Hf Hm ltac:(lia)) as Hz.
  cbn [Z.leb Z.compare andb] in Hz. rewrite (wrap_small 32) in Hz by (split; lia).
  apply read_words; [done|done| | |].
  - intros H1. rewrite Hz. by replace (0 =? notify_channel cfg) with false by lia.
  - rewrite Hz. unfold MHU_NOTIFY_VALUE. cbn. by case_if.
  - intros c Hc. rewrite load_status by (done || lia). replace (c =? notify_channel cfg) with false by lia.
    by replace ((1 <=? c) && (c <? notify_channel cfg)) with true by lia.
Qed.

(** * The services do not look at the doorbells *)

Definition with_face (f : mhu_frame) (l : list mhu_signal) (s : mhu320ae) : mhu320ae :=
  s <| m_frame := f |> <| outputs := l |>.

Definition face_result f l (r : service_result mhu320ae) : service_result mhu320ae :=
  let '(s, o, status) := r in (with_face f l s, o, status).

Lemma face_output f l r i v o s :
  (let '(o', status) := set_ps_output r i v o in (with_face f l s, o', status)) =
  face_result f l (let '(o', status) := set_ps_output r i v o in (s, o', status)).
Proof. by destruct (set_ps_output r i v o). Qed.

Lemma storage_face f l r s o : handle_ps_storage r (with_face f l s) o = face_result f l (handle_ps_storage r s o).
Proof.
  unfold handle_ps_storage. change (m_ps_store (with_face f l s)) with (m_ps_store s). cbv zeta.
  repeat first [case_if|destruct (m_ps_store s !! _)]; try reflexivity; apply face_output.
Qed.

Lemma measured_boot_face f l r s o :
  handle_rse_measured_boot_request r (with_face f l s) o = face_result f l (handle_rse_measured_boot_request r s o).
Proof.
  unfold handle_rse_measured_boot_request. change (m_measurements (with_face f l s)) with (m_measurements s). cbv zeta.
  repeat (case_if; [reflexivity|]). case_if.
  - repeat (case_if; [reflexivity|]). done.
  - case_if; [|done]. repeat (case_if; [reflexivity|]).
    destruct (set_ps_output r 0 _ o) as [o1 e1]. case_if; [done|].
    destruct (set_ps_output r 1 _ o1) as [o2 e2]. case_if; [done|]. apply face_output.
Qed.

Lemma service_face f l r s o : handle_rse_ps_request r (with_face f l s) o = face_result f l (handle_rse_ps_request r s o).
Proof.
  unfold handle_rse_ps_request. case_if; [apply measured_boot_face|]. case_if; [by destruct (handle_rse_fwu_request r o)|].
  case_if; [done|apply storage_face].
Qed.

Lemma reply_face {B : Type} {bus : TlmTarget B} f l request s (b : B) :
  build_rse_ps_reply request (with_face f l s) b =
  let '(s', b', reply) := build_rse_ps_reply request s b in (with_face f l s', b', reply).
Proof.
  unfold build_rse_ps_reply. destruct (parse_rse_ps_request request new_request b) as [b1 [r [e|]]].
  - by destruct (if (e =? PSA_SUCCESS) && _ then _ else _) as [[? ?] ?].
  - rewrite service_face. destruct (handle_rse_ps_request r s no_outputs) as [[s1 o] st]. cbn [face_result].
    by destruct (if (st =? PSA_SUCCESS) && _ then _ else _) as [[? ?] ?].
Qed.

(** * A request posted through a postbox *)

(** The register write that rings channel [c]. *)
Definition set_offset (c : Z) : Z := DBCW0 + DBCW_STRIDE * c + DBCW_SET.

(** The writes of a client that posts [msg]: its length, its words, the
    notification. *)
Definition post_writes (cfg : mhu_config) (msg : list Z) : list (Z * Z) :=
  (0, vec_size msg) :: map (fun c => (c, channel_word msg c)) (seqZ 1 ((vec_size msg + 3) / 4)) ++
  [(notify_channel cfg, MHU_NOTIFY_VALUE)].

(** Words past the end of a message are zero. *)
Lemma channel_word_past msg c : 1 + (vec_size msg + 3) / 4 <= c -> channel_word msg c = 0.
Proof.
  intros H. unfold channel_word. assert (0 <= vec_size msg) as Hnn by (unfold vec_size; lia).
  replace (4 * (c - 1) <? vec_size msg) with false; [done|]. Z.to_euclidean_division_equations. lia.
Qed.
Section post.
Context (cfgs : Z -> mhu_config) {B : Type} {bus : TlmTarget B} (this : Z).
Implicit Types w : world B.
Let cfg := cfgs this.

Definition ring_write (w : world B) (cv : Z * Z) : world B := write32 cfgs this (set_offset (fst cv)) (snd cv) w.
Definition post (msg : list Z) (w : world B) : world B := foldl ring_write w (post_writes cfg msg).

(** The worlds a postbox reaches while a message is written: only its doorbells
    and its interrupt line differ. *)
Record quiet w w' : Prop := {
  quiet_memory : memory w' = memory w;
  quiet_mbx : paired_mbx cfgs this w' = paired_mbx cfgs this w;
  quiet_others j : j <> this -> dev w' j = dev w j;
  quiet_face : exists f l, dev w' this = with_face f l (dev w this)
}.

Lemma quiet_refl w : quiet w w.
Proof. split; [done|done|done|]. exists (m_frame (dev w this)), (outputs (dev w this)). by destruct (dev w this). Qed.

Lemma quiet_trans w w' w'' : quiet w w' -> quiet w' w'' -> quiet w w''.
Proof.
  intros [H1 H2 H3 (f & l & H4)] [H1' H2' H3' (f' & l' & H4')]. split; [by rewrite H1'|by rewrite H2'| |].
  - intros j Hj. by rewrite H3', H3.
  - exists f', l'. by rewrite H4', H4.
Qed.

Definition ring c v (s : mhu320ae) : mhu320ae := update_combined_irq cfg (s <| m_frame ::= set_status_bits c v |>).

Lemma quiet_ring c v w : quiet w (on this (ring c v) w).
Proof.
  split; [done|done| |].
  - intros j Hj. by apply dev_on_ne.
  - rewrite dev_on_eq. unfold ring, update_combined_irq. cbv zeta.
    case_if; [exists (refresh_combined_irq_regs (set_status_bits c v (m_frame (dev w this)))), (outputs (dev w this) ++
      [SigIrq (any_combined_irq (refresh_combined_irq_regs (set_status_bits c v (m_frame (dev w this)))))])
    |exists (refresh_combined_irq_regs (set_status_bits c v (m_frame (dev w this)))), (outputs (dev w this))];
    by destruct (dev w this).
Qed.

Lemma ring_conf c v s : frame_conf cfg (m_frame s) -> 0 <= c < 128 -> is_u32 v -> frame_conf cfg (m_frame (ring c v s)).
Proof.
  intros Hf Hc Hv. unfold ring, update_combined_irq. cbv zeta.
  case_if; apply refresh_conf; by apply set_status_bits_conf.
Qed.

Lemma ring_status c v s c' : frame_conf cfg (m_frame s) -> 0 <= c < 128 -> 0 <= c' ->
  status (m_frame (ring c v s)) c' = if c' =? c then Z.lor (status (m_frame s) c) v else status (m_frame s) c'.
Proof. intros Hf Hc Hc'. unfold ring. rewrite status_update. by apply status_set_bits; [apply Hf|..]. Qed.

Lemma decode_set c f : frame_conf cfg f -> 0 <= c < channel_count cfg -> decode_dbch_offset f (set_offset c) = Some (c, DBCW_SET).
Proof.
  intros (_ & _ & Hn) Hc. pose proof (channel_count_range cfg). unfold decode_dbch_offset, set_offset, DBCW0, DBCW_STRIDE, DBCW_SET, DBCW_END,
    DBCW0, DBCW_STRIDE, DBCH_CHANNELS.
  replace (_ || _) with false by lia. cbv zeta. replace (4096 + 32 * c + 12 - 4096) with (c * 32 + 12) by lia.
  rewrite div_pack, mod_pack, Hn by lia. by replace (c <? channel_count cfg) with true by lia.
Qed.

Hypothesis Hpbx : is_mbx cfg = false.
Hypothesis Hproxy : p_protocol cfg = "rse-ps-proxy"%string.

(** A ring before the notification only sets the doorbell. *)
Lemma ring_write_quiet c v w : frame_conf cfg (m_frame (dev w this)) -> 0 <= c < notify_channel cfg ->
  ring_write w (c, v) = on this (ring c v) w.
Proof using Hpbx Hproxy.
  intros Hf Hc. unfold ring_write, write32. cbn [fst snd]. fold cfg. unfold notify_channel in Hc.
  rewrite decode_set by (done || lia). rewrite Hpbx. cbn [negb].
  change (DBCW_SET =? DBCW_SET) with true. cbv match. rewrite Hproxy.
  change ("rse-ps-proxy" =? "scmi")%string with false. change ("rse-ps-proxy" =? "doorbell")%string with false.
  rewrite !andb_false_r. cbn [andb]. unfold write_postbox_doorbell. fold cfg. rewrite Hproxy.
  change ("rse-ps-proxy" =? "rse-ps-proxy")%string with true. cbv match zeta.
  unfold notify_channel. by replace (c =? channel_count cfg - 1) with false by lia.
Qed.

(** What the postbox holds once the length and the words of a message are rung. *)
Definition words_posted (msg : list Z) (k : Z) w : Prop :=
  frame_conf cfg (m_frame (dev w this)) /\
  status (m_frame (dev w this)) 0 = vec_size msg /\
  forall c, 1 <= c < 128 -> status (m_frame (dev w this)) c = if c <? k then channel_word msg c else 0.

Lemma post_words msg w : frame_conf cfg (m_frame (dev w this)) -> (forall c, 0 <= c < 128 -> status (m_frame (dev w this)) c = 0) ->
  bytes_ok msg -> 1 <= notify_channel cfg -> vec_size msg <= 4 * (notify_channel cfg - 1) ->
  let w' := foldl ring_write (ring_write w (0, vec_size msg))
              (map (fun c => (c, channel_word msg c)) (seqZ 1 ((vec_size msg + 3) / 4))) in
  quiet w w' /\ words_posted msg (1 + (vec_size msg + 3) / 4) w'.
Proof using Hpbx Hproxy.
  intros Hf Hz Hm Hn Hs w'. pose proof (notify_range cfg). assert (0 <= vec_size msg) as Hnn by (unfold vec_size; lia).
  assert (0 <= (vec_size msg + 3) / 4 /\ (vec_size msg + 3) / 4 <= notify_channel cfg - 1) as [Hw0 Hw1].
  { Z.to_euclidean_division_equations. lia. }
  assert (forall l a, foldl ring_write a (map (fun c => (c, channel_word msg c)) l) =
    foldl (fun w c => ring_write w (c, channel_word msg c)) a l) as E.
  { induction l as [|c l IH]; intros a; [done|]. cbn. apply IH. }
  unfold w'. rewrite E.
  apply (foldl_seqZ_ind _ (fun k w' => quiet w w' /\ words_posted msg k w')); [done| |].
  - rewrite ring_write_quiet by (done || lia). split; [apply quiet_ring|]. unfold words_posted. rewrite dev_on_eq.
    assert (is_u32 (vec_size msg)) by (split; lia).
    split; [by apply ring_conf; [|lia|]|]. split; [rewrite ring_status by (done || lia); cbn; by rewrite Hz by lia|].
    intros c Hc. rewrite ring_status by (done || lia). replace (c =? 0) with false by lia.
    replace (c <? 1) with false by lia. apply Hz. lia.
  - intros k w1 Hk [Hq (Hf1 & Hst0 & Hc1)]. pose proof (channel_word_u32 msg k Hm).
    rewrite ring_write_quiet by (done || lia).
    split; [by eapply quiet_trans; [|apply quiet_ring]|]. unfold words_posted. rewrite dev_on_eq.
    split; [by apply ring_conf; [|lia|]|].
    split; [rewrite ring_status by (done || lia); by replace (0 =? k) with false by lia|].
    intros c Hc. rewrite ring_status by (done || lia). destruct (Z.eqb_spec c k) as [->|Hne].
    + rewrite Hc1 by lia. replace (k <? k) with false by lia. by replace (k <? k + 1) with true by lia.
    + rewrite Hc1 by lia. by replace (c <? k + 1) with (c <? k) by lia.
Qed.

End post.

(** The write that rings the notification channel. *)
Lemma notify_write (cfgs : Z -> mhu_config) {B : Type} {bus : TlmTarget B} this (w : world B) :
  is_mbx (cfgs this) = false -> p_protocol (cfgs this) = "rse-ps-proxy"%string ->
  frame_conf (cfgs this) (m_frame (dev w this)) ->
  ring_write cfgs this w (notify_channel (cfgs this), MHU_NOTIFY_VALUE) =
  respond_rse_ps cfgs this (on this (ring cfgs this (notify_channel (cfgs this)) MHU_NOTIFY_VALUE) w).
Proof.
  intros Hpbx Hproxy Hf. unfold ring_write, write32. cbn [fst snd]. pose proof (notify_range (cfgs this)) as Hn.
  rewrite (decode_set cfgs this) by (done || unfold notify_channel in *; lia). rewrite Hpbx. cbn [negb].
  change (DBCW_SET =? DBCW_SET) with true. cbv match. rewrite Hproxy.
  change ("rse-ps-proxy" =? "scmi")%string with false. change ("rse-ps-proxy" =? "doorbell")%string with false.
  rewrite !andb_false_r. cbn [andb]. unfold write_postbox_doorbell. rewrite Hproxy.
  change ("rse-ps-proxy" =? "rse-ps-proxy")%string with true. cbv match zeta. by rewrite Z.eqb_refl.
Qed.

(** What serving a posted request leaves: the platform [w'] from [w]. *)
Definition served (cfgs : Z -> mhu_config) {B : Type} (this mbx : Z) (w w' : world B)
    (r : mhu320ae * B * list Z) : Prop :=
  let '(s, b, reply) := r in
  memory w' = b /\
  m_ps_store (dev w' this) = m_ps_store s /\ m_measurements (dev w' this) = m_measurements s /\
  read_doorbell_message (cfgs mbx) (dev w' mbx) = take (Z.to_nat (4 * (notify_channel (cfgs mbx) - 1))) reply /\
  status (m_frame (dev w' mbx)) (notify_channel (cfgs mbx)) = MHU_NOTIFY_VALUE /\
  (forall c, 0 <= c < 128 -> status (m_frame (dev w' this)) c = 0).

Section proxy.
Context (cfgs : Z -> mhu_config) {B : Type} {bus : TlmTarget B} {bb : ByteBus B} (this mbx : Z).

Lemma respond_served msg (w w2 : world B) : mbx <> this -> paired_mbx cfgs this w = Some mbx ->
  quiet cfgs this w w2 -> frame_conf (cfgs this) (m_frame (dev w2 this)) ->
  read_doorbell_message (cfgs this) (dev w2 this) = msg ->
  dev_inv (cfgs this) (dev w this) -> dev_inv (cfgs mbx) (dev w mbx) -> target_inv (memory w) -> bytes_ok msg ->
  vec_size (snd (build_rse_ps_reply msg (dev w this) (memory w))) < 2 ^ 32 ->
  served cfgs this mbx w (respond_rse_ps cfgs this w2) (build_rse_ps_reply msg (dev w this) (memory w)).
Proof.
  intros Hne Hp Hq Hf2 Hmsg Hinv Hinvm Hb Hm Hsize. destruct Hq as [Hmem Hpair Hoth (f & l & Hface)].
  unfold respond_rse_ps. rewrite Hmsg. cbv zeta. rewrite Hface, Hmem, reply_face.
  pose proof (build_reply_inv (cfgs this) msg (dev w this) (memory w) Hm Hinv Hb) as Hr.
  destruct (build_rse_ps_reply msg (dev w this) (memory w)) as [[s b] reply]. destruct Hr as (Hs & Hb' & Hr). cbn [snd] in Hsize.
  rewrite Hface in Hf2. change (frame_conf (cfgs this) f) in Hf2.
  set (w4 := on this (clear_postbox_transfer _) _).
  assert (paired_mbx cfgs this w4 = Some mbx) as -> by (rewrite <-Hp, <-Hpair; done).
  assert (dev w4 this = clear_postbox_transfer (cfgs this) (with_face f l s)) as E4 by (unfold w4; by rewrite !dev_on_eq).
  assert (dev w4 mbx = dev w mbx) as E4m.
  { unfold w4. rewrite !dev_on_ne by done. by apply Hoth. }
  assert (frame_conf (cfgs mbx) (m_frame (dev w mbx))) as Hfm by apply Hinvm.
  split; [done|]. rewrite dev_on_ne, dev_on_eq, E4, E4m by done.
  assert (forall s', m_ps_store (clear_postbox_transfer (cfgs this) s') = m_ps_store s' /\
    m_measurements (clear_postbox_transfer (cfgs this) s') = m_measurements s') as Hk.
  { intros s'. unfold clear_postbox_transfer, update_combined_irq. cbv zeta. by case_if. }
  destruct (Hk (with_face f l s)) as [-> ->]. do 2 (split; [done|]). split; [by apply mailbox_roundtrip|]. split.
  - rewrite load_status by (done || apply notify_range). by rewrite Z.eqb_refl.
  - intros c Hc. unfold clear_postbox_transfer. cbv zeta. rewrite status_update. cbn. rewrite status_set_int.
    apply status_clear_all; [apply Hf2|done].
Qed.

(** C16. A request posted through a postbox register by register - its length into
    the first doorbell, its words into the following ones, the notification into
    the last - is served as one message: the PSA services see exactly the bytes
    the client wrote, with the memory and the stores as they were; the mailbox
    of the pair then holds their reply in the same layout and announces it, and
    the postbox is empty for the next request. *)
Theorem mhu_proxy_transfer msg (w : world B) :
  is_mbx (cfgs this) = false -> p_protocol (cfgs this) = "rse-ps-proxy"%string ->
  mbx <> this -> paired_mbx cfgs this w = Some mbx ->
  dev_inv (cfgs this) (dev w this) -> dev_inv (cfgs mbx) (dev w mbx) -> target_inv (memory w) ->
  (forall c, 0 <= c < 128 -> status (m_frame (dev w this)) c = 0) ->
  bytes_ok msg -> 1 <= notify_channel (cfgs this) -> vec_size msg <= 4 * (notify_channel (cfgs this) - 1) ->
  vec_size (snd (build_rse_ps_reply msg (dev w this) (memory w))) < 2 ^ 32 ->
  served cfgs this mbx w (post cfgs this msg w) (build_rse_ps_reply msg (dev w this) (memory w)).
Proof.
  intros Hpbx Hproxy Hne Hp Hinv Hinvm Hb Hz Hm Hn Hs Hsize. pose proof (notify_range (cfgs this)) as Hnr.
  assert (frame_conf (cfgs this) (m_frame (dev w this))) as Hf by apply Hinv.
  destruct (post_words cfgs this Hpbx Hproxy msg w Hf Hz Hm Hn Hs) as [Hq (Hf1 & H0 & Hc)].
  unfold post, post_writes. cbn [foldl]. rewrite foldl_app. cbn [foldl].
  set (w1 := foldl _ (ring_write cfgs this w (0, vec_size msg)) _) in *. rewrite notify_write by done.
  assert (0 <= vec_size msg) as Hnn by (unfold vec_size; lia).
  apply respond_served; try done.
  - eapply quiet_trans; [exact Hq|apply quiet_ring].
  - rewrite dev_on_eq. apply ring_conf; [done|lia|by cbv].
  - rewrite dev_on_eq.
    assert (forall c, 0 <= c -> c <> notify_channel (cfgs this) ->
      status (m_frame (ring cfgs this (notify_channel (cfgs this)) MHU_NOTIFY_VALUE (dev w1 this))) c =
      status (m_frame (dev w1 this)) c) as Hst.
    { intros c H1 H2. rewrite ring_status by (done || lia). by replace (c =? notify_channel (cfgs this)) with false by lia. }
    rewrite (read_words (cfgs this) _ msg); [apply take_ge; unfold vec_size in Hs; lia|done|lia| | |].
    + intros _. by rewrite Hst by lia.
    + rewrite Hst by lia. lia.
    + intros c Hcr. rewrite Hst, Hc by lia. case_if; [done|]. symmetry. apply channel_word_past. lia.
Qed.
End proxy.

(** The example platform after its start, and a request posted into it. *)
Definition example_world : world mem := started (bus := ram 0x1000) (example_cfgs "rse-ps-proxy") [0; 1] ∅.
Definition support_request : list Z := embed_message 3 7 TFM_PROTECTED_STORAGE_SERVICE_HANDLE TFM_PS_GET_SUPPORT [] [4].

Lemma example_world_inv : world_inv (bus := ram 0x1000) (example_cfgs "rse-ps-proxy") [0; 1] example_world.
Proof.
  apply (mhu_reachable_inv (bus := ram 0x1000) (bb := ram_byte_bus 0x1000) (example_cfgs "rse-ps-proxy") [0; 1]
    (example_config_ok _) ∅ example_world).
  - by apply (bool_decide_unpack _).
  - apply mem_ok_empty.
  - apply (@reach_start _ mem (ram 0x1000)).
Qed.

Lemma example_inv i : i ∈ [0; 1] -> dev_inv (example_cfgs "rse-ps-proxy" i) (dev example_world i).
Proof. intros Hi. by apply example_world_inv. Qed.

Lemma example_memory : mem_ok 0x1000 (memory example_world).
Proof. apply example_world_inv. Qed.

Lemma example_empty : m_db_status (m_frame (dev example_world 0)) = replicate 128 0.
Proof. vm_compute. reflexivity. Qed.

Lemma example_paired : paired_mbx (example_cfgs "rse-ps-proxy") 0 example_world = Some 1.
Proof. vm_compute. reflexivity. Qed.

Definition support_reply : list Z := [0; 3; 7; 0; 0; 0; 0; 0; 4; 0; 0; 0; 0; 0; 0; 0; 0; 0; 0; 0].

Lemma example_reply :
  snd (build_rse_ps_reply (bus := ram 0x1000) support_request (dev example_world 0) (memory example_world)) = support_reply.
Proof. vm_compute. reflexivity. Qed.

Lemma served_reply (cfgs : Z -> mhu_config) {B} this mbx (w w' : world B) r : served cfgs this mbx w w' r ->
  read_doorbell_message (cfgs mbx) (dev w' mbx) = take (Z.to_nat (4 * (notify_channel (cfgs mbx) - 1))) (snd r).
Proof. destruct r as [[s b] reply]. by intros (_ & _ & _ & Hr & _). Qed.

Lemma mhu_proxy_transfer_witness :
  read_doorbell_message (example_cfgs "rse-ps-proxy" 1)
    (dev (post (bus := ram 0x1000) (example_cfgs "rse-ps-proxy") 0 support_request example_world) 1) = support_reply.
Proof.
  refine (eq_trans (served_reply (example_cfgs "rse-ps-proxy") 0 1 example_world _ _
    (mhu_proxy_transfer (bus := ram 0x1000) (bb := ram_byte_bus 0x1000) (example_cfgs "rse-ps-proxy") 0 1
      support_request example_world eq_refl eq_refl _ example_paired _ _ example_memory _ _ _ _ _)) _).
  - done.
  - apply (example_inv 0). left.
  - apply (example_inv 1). right. left.
  - intros c Hc. unfold status. rewrite example_empty. by apply arr_get_replicate.
  - by apply bytes_okb.
  - by cbv.
  - by cbv.
  - rewrite example_reply. by cbv.
  - rewrite example_reply. vm_compute. reflexivity.
Defined.
