(* ===== verification/MhuAnnounce.v ===== *)
(** The deferred work of the units (Mhu): the
    name-service announcement is made once the guest offers a buffer, and the
    synthetic completions of a postbox are all delivered. *)

From Stdlib Require Import String.
From stdpp Require Import strings.
From S2P Require Import Prelude Bytes Vectors Tlm Memory MhuFrame MhuDevice MhuPsa MhuInv MhuServices Mhu MhuWorld MhuTransport.

(** * Reading and writing through a memory bus *)

Section bus.
Context {B : Type} {bus : TlmTarget B} {mb : MemoryBus B}.
Implicit Types b : B.

Definition serves (a n : Z) : Prop := forall k, 0 <= k < n -> bus_serves (a + k).

Lemma read_served (n : nat) a b : (0 < n)%nat -> serves a (Z.of_nat n) ->
  exists b', mem_access TLM_READ_COMMAND a (le_bytes n 0) (Z.of_nat n) b = (b', true, mem_read (bus_view b) a (Z.of_nat n)) /\
    bus_view b' ≈ bus_view b.
Proof.
  intros Hn Hs. unfold mem_access. pose proof (le_bytes_length n 0) as Hl.
  pose proof (bus_read b a (Z.of_nat n) (le_bytes n 0) ltac:(lia) Hs) as H. unfold read_request in H.
  destruct (target_b_transport _ _ _) as [b' t']. destruct H as (Hok & Hv & Hd). exists b'. split; [|done].
  rewrite Hok, Hd. cbn. rewrite put_data_all; [done|].
  pose proof (mem_read_length (bus_view b) a (Z.of_nat n) ltac:(lia)). lia.
Qed.

Lemma read16_served a b : serves a 2 -> exists b', mem_read16 a b = (b', le_val (mem_read (bus_view b) a 2)) /\ bus_view b' ≈ bus_view b.
Proof.
  intros Hs. destruct (read_served 2 a b ltac:(lia) Hs) as (b' & E & Hv). exists b'. unfold mem_read16.
  change 2 with (Z.of_nat 2). by rewrite E.
Qed.

Lemma read32_served a b : serves a 4 -> exists b', mem_read32 a b = (b', le_val (mem_read (bus_view b) a 4)) /\ bus_view b' ≈ bus_view b.
Proof.
  intros Hs. destruct (read_served 4 a b ltac:(lia) Hs) as (b' & E & Hv). exists b'. unfold mem_read32.
  change 4 with (Z.of_nat 4). by rewrite E.
Qed.

Lemma read64_served a b : serves a 8 -> exists b', mem_read64 a b = (b', le_val (mem_read (bus_view b) a 8)) /\ bus_view b' ≈ bus_view b.
Proof.
  intros Hs. destruct (read_served 8 a b ltac:(lia) Hs) as (b' & E & Hv). exists b'. unfold mem_read64.
  change 8 with (Z.of_nat 8). by rewrite E.
Qed.

Lemma write_served a d b : 0 < vec_size d -> serves a (vec_size d) ->
  exists b' d', mem_access TLM_WRITE_COMMAND a d (vec_size d) b = (b', true, d') /\ bus_view b' ≈ mem_write a d (bus_view b).
Proof.
  intros Hn Hs. unfold mem_access, vec_size in *.
  pose proof (bus_write b a (Z.of_nat (length d)) d ltac:(lia) Hs) as H. unfold write_request in H.
  destruct (target_b_transport _ _ _) as [b' t']. destruct H as (Hok & Hv). exists b', (default [] (data_ptr t')).
  rewrite Hok. split; [done|]. unfold get_data in Hv. by rewrite Nat2Z.id, take_ge in Hv by lia.
Qed.

Lemma write_word_served (n : nat) a v b : (0 < n)%nat -> serves a (Z.of_nat n) ->
  bus_view (mem_write_vec a (le_bytes n v) (Z.of_nat n) b) ≈ mem_write a (le_bytes n v) (bus_view b).
Proof.
  intros Hn Hs. unfold mem_write_vec. rewrite Nat2Z.id, take_ge by (rewrite le_bytes_length; lia).
  destruct (write_served a (le_bytes n v) b) as (b' & d' & E & Hv); unfold vec_size in *; rewrite le_bytes_length in *; [lia|done|].
  by rewrite E.
Qed.

(** * The receive ring of the guest *)

Context (cfgs : Z -> mhu_config) (this : Z).
Implicit Types w : world B.
Let cfg := cfgs this.
Let num := p_rpmsg_ns_vring_num cfg.
Let vring := p_rpmsg_ns_vring_address cfg.
Let avail := vring + 16 * num.
Let used := rpmsg_ns_used_address cfgs this.

(** The ring lies in memory and its addresses do not wrap. *)
Record ring_ok : Prop := {
  ring_enabled : p_rpmsg_ns_enable cfg = true;
  ring_num : 0 < num < 2 ^ 32;
  ring_base : 0 <= vring;
  ring_avail_end : avail + 4 + 2 * num < 2 ^ 64;
  ring_used_end : 0 <= used /\ used + 4 + 8 * num < 2 ^ 64;
  ring_avail_served : serves vring (16 * num + 4 + 2 * num);
  ring_used_served : serves used (4 + 8 * num)
}.

Definition load16 (m : mem) (a : Z) : Z := le_val (mem_read m a 2).
Definition load64 (m : mem) (a : Z) : Z := le_val (mem_read m a 8).

(** What the guest shows: its index, the descriptor at the place the unit looks
    next, and the buffer this names. *)
Definition avail_idx (m : mem) : Z := load16 m (avail + 2).
Definition desc_id (m : mem) (last : Z) : Z := load16 m (avail + 4 + 2 * (last mod num)).
Definition buffer_addr (m : mem) (last : Z) : Z := load64 m (vring + 16 * desc_id m last).
Definition buffer_len (m : mem) (last : Z) : Z := load32 m (vring + 16 * desc_id m last + 8).
Definition buffer_flags (m : mem) (last : Z) : Z := load16 m (vring + 16 * desc_id m last + 12).

(** The guest offers a writable buffer large enough for the announcement. *)
Definition offers (m : mem) (last : Z) : bool :=
  negb (avail_idx m =? last) && (desc_id m last <? num) &&
  test (buffer_flags m last) 2 && (56 <=? buffer_len m last).

(** The memory after the announcement: the message in the buffer, the used
    element, the used index advanced. *)
Definition announced_view (m : mem) (last : Z) : mem :=
  let used_idx := load16 m (used + 2) in
  mem_write (used + 2) (le_bytes 2 (u16 (used_idx + 1)))
    (mem_write (used + 4 + 8 * (used_idx mod num)) (le_bytes 4 (desc_id m last) ++ le_bytes 4 56)
      (mem_write (buffer_addr m last) (build_rpmsg_ns_message cfgs this) m)).

Lemma ns_message_size : vec_size (build_rpmsg_ns_message cfgs this) = 56.
Proof.
  unfold build_rpmsg_ns_message. cbv zeta. rewrite !append_u32_size, vec_size_app, strncpy_size by by cbv.
  rewrite !append_u16_size, !append_u32_size. done.
Qed.

(** These depend on the contents of memory only. *)
Lemma load16_eq m m' a : m ≈ m' -> load16 m a = load16 m' a.
Proof. intros H. unfold load16. f_equal. by apply mem_read_proper. Qed.

Lemma load32_eq m m' a : m ≈ m' -> load32 m a = load32 m' a.
Proof. intros H. by apply load32_proper. Qed.

Lemma load64_eq m m' a : m ≈ m' -> load64 m a = load64 m' a.
Proof. intros H. unfold load64. f_equal. by apply mem_read_proper. Qed.

Lemma desc_id_eq m m' last : m ≈ m' -> desc_id m last = desc_id m' last.
Proof. apply load16_eq. Qed.

Hypothesis Hring : ring_ok.
Context {bb : ByteBus B}.

Lemma view_word (n : nat) a b : target_inv b -> (0 < n)%nat -> serves a (Z.of_nat n) ->
  is_uint (8 * Z.of_nat n) (le_val (mem_read (bus_view b) a (Z.of_nat n))).
Proof.
  intros Hb Hn Hs. pose proof (byte_bus b TLM_READ_COMMAND a (le_bytes n 0) (Z.of_nat n) Hb (le_bytes_ok _ _)) as H.
  destruct (read_served n a b Hn Hs) as (b' & E & _). rewrite E in H. destruct H as (_ & Hd & Hl).
  { unfold vec_size. rewrite le_bytes_length. lia. }
  pose proof (le_val_range _ Hd) as Hr. by rewrite Hl, le_bytes_length in Hr.
Qed.

Lemma avail_serves off n : 0 <= off -> off + n <= 4 + 2 * num -> serves (avail + off) n.
Proof.
  intros H0 H1 k Hk. destruct Hring as [_ ? _ _ _ Hs _]. replace (avail + off + k) with (vring + (16 * num + off + k)) by lia.
  apply Hs. lia.
Qed.

Lemma desc_serves i off n : 0 <= i < num -> 0 <= off -> off + n <= 16 -> serves (vring + 16 * i + off) n.
Proof.
  intros Hi H0 H1 k Hk. destruct Hring as [_ ? _ _ _ Hs _]. replace (vring + 16 * i + off + k) with (vring + (16 * i + off + k)) by lia.
  apply Hs. lia.
Qed.

Lemma used_serves off n : 0 <= off -> off + n <= 4 + 8 * num -> serves (used + off) n.
Proof.
  intros H0 H1 k Hk. destruct Hring as [_ _ _ _ _ _ Hs]. rewrite <-Z.add_assoc. apply Hs. lia.
Qed.

(** The state of a unit that has not announced itself: what a poll keeps. *)
Definition waiting_for (last : Z) w : Prop :=
  target_inv (memory w) /\ m_rpmsg_ns_sent (dev w this) = false /\ m_rpmsg_ns_last_avail_idx (dev w this) = last.

Lemma avail_address : rpmsg_ns_avail_address cfgs this = avail.
Proof.
  destruct Hring as [_ [? ?] ? ? _ _ _]. unfold rpmsg_ns_avail_address, VRING_DESC_SIZE. fold cfg num vring.
  rewrite wrap_small by (split; lia). unfold avail. lia.
Qed.

(** What reading the ring changes: the poll counter, and the state of the bus
    behind its contents. *)
Definition idle (last : Z) w w' : Prop :=
  waiting_for last w' /\ paired_mbx cfgs this w' = paired_mbx cfgs this w /\
  (forall j, j <> this -> dev w' j = dev w j) /\ bus_view (memory w') ≈ bus_view (memory w).

Lemma idle_refl last w : waiting_for last w -> idle last w w.
Proof. done. Qed.

Lemma idle_memory last w w' b : idle last w w' -> target_inv b -> bus_view b ≈ bus_view (memory w') ->
  idle last w (w' <| memory := b |>).
Proof. intros ((_ & Hs & Hl) & Hp & Ho & Hv) Hb Hv'. do 3 (split; [done|]). by etrans. Qed.

Lemma idle_count last w w' g : idle last w w' -> idle last w (on this (fun s => s <| m_rpmsg_ns_poll_count ::= g |>) w').
Proof.
  intros ((Hb & Hs & Hl) & Hp & Ho & Hv). unfold idle, waiting_for. rewrite dev_on_eq. split; [done|]. split; [done|].
  split; [|done]. intros j Hj. rewrite dev_on_ne by done. by apply Ho.
Qed.

(** Reading 16 bits of the ring. *)
Lemma idle_read16 last w w' a : idle last w w' -> serves a 2 -> exists b,
  mem_read16 a (memory w') = (b, load16 (bus_view (memory w)) a) /\ idle last w (w' <| memory := b |>) /\
  is_u16 (load16 (bus_view (memory w)) a).
Proof.
  intros Hi Hs. pose proof Hi as ((Hb & _) & _ & _ & Hv). pose proof (mem_read16_inv a (memory w') Hb) as H.
  destruct (read16_served a (memory w') Hs) as (b & E & Hv'). rewrite E in *. destruct H as [Hb' Hu].
  fold (load16 (bus_view (memory w')) a) in *. rewrite (load16_eq _ _ a Hv) in *. exists b. split; [done|].
  split; [|done]. by apply idle_memory.
Qed.

(** A poll reads the index and the descriptor number; what follows depends on
    whether the index moved and the number is in range. *)
Lemma poll_prefix last w : is_u16 last -> waiting_for last w ->
  let m := bus_view (memory w) in
  exists w', idle last w w' /\
    inject_rpmsg_ns_once cfgs this w =
    if avail_idx m =? last then (w', false)
    else if num <=? desc_id m last then (w', false)
    else use_rpmsg_ns_desc cfgs this (avail_idx m) (desc_id m last) w'.
Proof.
  intros Hl Hw m. pose proof Hw as (Hb & Hsent & Hlast). pose proof Hring as [Hen [Hn0 Hn1] Hv Ha _ _ _].
  unfold inject_rpmsg_ns_once. fold cfg num. rewrite Hen, Hsent, Hlast, avail_address. cbn [negb orb].
  replace (num =? 0) with false by lia. cbv zeta. change VRING_AVAIL_HEADER_SIZE with 4.
  rewrite (wrap_small 64 (avail + 2)) by (unfold avail in *; split; lia).
  destruct (idle_read16 last w w (avail + 2) (idle_refl _ _ Hw)) as (b1 & E1 & Hi1 & _); [apply avail_serves; lia|].
  rewrite E1. fold m. fold (avail_idx m). destruct (avail_idx m =? last).
  { eexists. split; [|done]. by apply idle_count. }
  pose proof (Z.mod_pos_bound last num Hn0) as Hm. destruct Hl as [Hl0 Hl1].
  pose proof (Z.mod_le last num Hl0 Hn0) as Hml. rewrite (wrap_small 16 (last mod num)) by (split; lia).
  rewrite (wrap_small 64) by (unfold avail in *; split; lia). replace (last mod num * 2) with (2 * (last mod num)) by lia.
  apply (idle_count _ _ _ (fun _ => 0)) in Hi1.
  destruct (idle_read16 last w _ (avail + 4 + 2 * (last mod num)) Hi1) as (b2 & E2 & Hi2 & _).
  { rewrite <-Z.add_assoc. apply avail_serves; lia. }
  rewrite E2. fold m. fold (desc_id m last). eexists. split; [exact Hi2|]. done.
Qed.

(** The descriptor the guest offers, read through the bus. *)
Lemma desc_prefix last w w' idx d : idle last w w' -> d = desc_id (bus_view (memory w)) last -> 0 <= d < num ->
  let m := bus_view (memory w) in
  exists b addr, addr = buffer_addr m last /\ idle last w (w' <| memory := b |>) /\
    use_rpmsg_ns_desc cfgs this idx d w' =
    let w' := w' <| memory := b |> in
    if negb (test (buffer_flags m last) 2) || (buffer_len m last <? 56) then (w', false)
    else
      let '(b, ok, _) := mem_access TLM_WRITE_COMMAND addr (build_rpmsg_ns_message cfgs this) 56 b in
      let w' := w' <| memory := b |> in
      if negb ok then (w', false)
      else
        let '(b, used_idx) := mem_read16 (used + 2) b in
        let elem := u64 (used + 4 + used_idx mod num * 8) in
        let b := mem_write16 (used + 2) (u16 (used_idx + 1)) (mem_write32 (u64 (elem + 4)) 56 (mem_write32 elem d b)) in
        let w' := on this (fun s => s <| m_rpmsg_ns_last_avail_idx := idx |> <| m_rpmsg_ns_sent := true |>)
                    (w' <| memory := b |>) in
        match paired_mbx cfgs this w' with
        | Some mbx =>
            let w' := if negb (p_rpmsg_ns_signal_delay_ns cfg =? 0)
                      then on this (emit (Wait (p_rpmsg_ns_signal_delay_ns cfg))) w' else w' in
            (on mbx (signal_doorbell_channel (cfgs mbx) (p_rpmsg_ns_signal_channel cfg) (p_rpmsg_ns_signal_value cfg)) w', true)
        | None => (w', true)
        end.
Proof.
  intros Hi Hd Hr m. pose proof Hring as [_ [Hn0 Hn1] Hv Ha [Hu0 Hu1] _ _]. pose proof Hi as ((Hb & _) & _ & _ & Hview).
  pose proof (desc_serves d 0 8 Hr ltac:(lia) ltac:(lia)) as Hs1. rewrite Z.add_0_r in Hs1.
  destruct (read64_served (vring + 16 * d) (memory w') Hs1) as (b1 & E1 & Hv1).
  destruct (read32_served (vring + 16 * d + 8) b1 (desc_serves d 8 4 Hr ltac:(lia) ltac:(lia))) as (b2 & E2 & Hv2).
  destruct (read16_served (vring + 16 * d + 12) b2 (desc_serves d 12 2 Hr ltac:(lia) ltac:(lia))) as (b3 & E3 & Hv3).
  pose proof (mem_read64_inv (vring + 16 * d) _ Hb) as I1. rewrite E1 in I1. destruct I1 as [I1 _].
  pose proof (mem_read32_inv (vring + 16 * d + 8) _ I1) as I2. rewrite E2 in I2. destruct I2 as [I2 _].
  pose proof (mem_read16_inv (vring + 16 * d + 12) _ I2) as I3. rewrite E3 in I3. destruct I3 as [I3 _].
  assert (bus_view b1 ≈ m) as V1 by by etrans. assert (bus_view b2 ≈ m) as V2 by by etrans.
  exists b3, (buffer_addr m last). split; [done|]. split; [apply idle_memory; [done|done|by etrans; [|symmetry]; etrans]|].
  unfold use_rpmsg_ns_desc. fold cfg num vring used. cbv zeta. rewrite ns_message_size. change (u32 56) with 56.
  change VRING_DESC_SIZE with 16. change VRING_DESC_F_WRITE with 2. change VRING_USED_HEADER_SIZE with 4. change VRING_USED_ELEM_SIZE with 8.
  replace (d * 16) with (16 * d) by lia.
  rewrite (wrap_small 64 (vring + 16 * d)), (wrap_small 64 (vring + 16 * d + 8)) by (unfold avail in *; split; lia).
  replace (vring + 16 * d + 8 + 4) with (vring + 16 * d + 12) by lia.
  rewrite (wrap_small 64 (vring + 16 * d + 12)) by (unfold avail in *; split; lia).
  rewrite (wrap_small 64 (used + 2)) by (split; lia). rewrite E1, E2, E3.
  fold (load64 (bus_view (memory w')) (vring + 16 * d)). fold (load32 (bus_view b1) (vring + 16 * d + 8)).
  fold (load16 (bus_view b2) (vring + 16 * d + 12)).
  rewrite (load64_eq _ _ _ Hview), (load32_eq _ _ _ V1), (load16_eq _ _ _ V2). subst d. done.
Qed.

(** A poll that finds nothing to use leaves memory as it was and polls on. *)
Lemma poll_idle last w : is_u16 last -> waiting_for last w -> offers (bus_view (memory w)) last = false ->
  exists w', inject_rpmsg_ns_once cfgs this w = (w', false) /\ idle last w w'.
Proof.
  intros Hl Hw Hoff. destruct (poll_prefix last w Hl Hw) as (w1 & Hi & E). rewrite E. clear E. unfold offers in Hoff.
  set (m := bus_view (memory w)) in *. destruct (avail_idx m =? last); [by exists w1|]. cbn [negb andb] in Hoff.
  destruct (Z.leb_spec num (desc_id m last)) as [Hd|Hd]; [by exists w1|].
  replace (desc_id m last <? num) with true in Hoff by lia. cbn [andb] in Hoff.
  pose proof Hw as (Hb & _). pose proof Hring as [_ [Hn0 Hn1] _ _ _ _ _].
  assert (0 <= desc_id m last) as Hd0.
  { pose proof (Z.mod_pos_bound last num Hn0).
    apply (view_word 2 (avail + 4 + 2 * (last mod num)) (memory w) Hb ltac:(lia)). rewrite <-Z.add_assoc. apply avail_serves; lia. }
  destruct (desc_prefix last w w1 (avail_idx m) (desc_id m last) Hi eq_refl ltac:(lia)) as (b & addr & Ha & Hi' & E).
  rewrite E. cbv zeta. fold m. exists (w1 <| memory := b |>). split; [|done].
  destruct (test (buffer_flags m last) 2); cbn [negb orb andb] in *; [|done].
  by replace (buffer_len m last <? 56) with true by lia.
Qed.
(** What the announcement leaves of [w]. *)
Definition announced (last : Z) w w' : Prop :=
  m_rpmsg_ns_sent (dev w' this) = true /\
  bus_view (memory w') ≈ announced_view (bus_view (memory w)) last /\
  forall mbx, paired_mbx cfgs this w = Some mbx ->
    dev w' mbx = signal_doorbell_channel (cfgs mbx) (p_rpmsg_ns_signal_channel cfg) (p_rpmsg_ns_signal_value cfg) (dev w mbx).

(** The buffer lies in memory, apart from the used ring. *)
Definition buffer_ok (m : mem) (last : Z) : Prop :=
  serves (buffer_addr m last) 56 /\
  (buffer_addr m last + 56 <= used \/ used + 4 + 8 * num <= buffer_addr m last).

(** The used element of an index. *)
Lemma used_element i : 0 <= used + 4 + i mod num * 8 /\ used + 4 + i mod num * 8 + 8 <= used + 4 + 8 * num.
Proof. pose proof Hring as [_ [Hn0 _] _ _ [Hu0 _] _ _]. pose proof (Z.mod_pos_bound i num Hn0). lia. Qed.

(** The stores of a poll, over the memory [m1] that holds the message. *)
Lemma used_stores m1 idx d b : bus_view b ≈ m1 -> 
  bus_view (mem_write16 (used + 2) (u16 (idx + 1))
    (mem_write32 (used + 4 + idx mod num * 8 + 4) 56 (mem_write32 (used + 4 + idx mod num * 8) d b))) ≈
  mem_write (used + 2) (le_bytes 2 (u16 (idx + 1)))
    (mem_write (used + 4 + 8 * (idx mod num)) (le_bytes 4 d ++ le_bytes 4 56) m1).
Proof.
  intros Hv. pose proof (used_element idx) as [He0 He1]. pose proof Hring as [_ [Hn0 _] _ _ _ _ _].
  pose proof (Z.mod_pos_bound idx num Hn0) as Hm. set (el := used + 4 + idx mod num * 8) in *.
  replace (used + 4 + 8 * (idx mod num)) with el by (unfold el; lia).
  assert (serves el 4) as S1 by (unfold el; rewrite <-Z.add_assoc; apply used_serves; lia).
  assert (serves (el + 4) 4) as S2 by (unfold el; rewrite <-!Z.add_assoc; apply used_serves; lia).
  unfold mem_write16. etrans; [apply (write_word_served 2); [lia|apply used_serves; lia]|].
  apply mem_write_proper; [done|done|]. unfold mem_write32. etrans; [apply (write_word_served 4); [lia|exact S2]|].
  etrans; [apply mem_write_proper; [done|done|apply (write_word_served 4); [lia|exact S1]]|].
  etrans; [apply (mem_write_app el (le_bytes 4 d) (le_bytes 4 56))|]. by apply mem_write_proper.
Qed.

Lemma poll_offers last w : is_u16 last -> waiting_for last w -> offers (bus_view (memory w)) last = true ->
  buffer_ok (bus_view (memory w)) last -> (forall mbx, paired_mbx cfgs this w = Some mbx -> mbx <> this) ->
  exists w', inject_rpmsg_ns_once cfgs this w = (w', true) /\ announced last w w'.
Proof.
  intros Hl Hw Hoff [Hbs Hdis] Hne. destruct (poll_prefix last w Hl Hw) as (w1 & Hi & E). rewrite E. clear E. unfold offers in Hoff.
  set (m := bus_view (memory w)) in *. apply andb_prop in Hoff as [Hoff Hlen]. apply andb_prop in Hoff as [Hoff Hfl].
  apply andb_prop in Hoff as [Hav Hd]. apply negb_true_iff in Hav. rewrite Hav. replace (num <=? desc_id m last) with false by lia.
  pose proof Hw as (Hb & _). pose proof Hring as [_ [Hn0 Hn1] _ _ [Hu0 Hu1] _ _].
  assert (0 <= desc_id m last) as Hd0.
  { pose proof (Z.mod_pos_bound last num Hn0).
    apply (view_word 2 (avail + 4 + 2 * (last mod num)) (memory w) Hb ltac:(lia)). rewrite <-Z.add_assoc. apply avail_serves; lia. }
  destruct (desc_prefix last w w1 (avail_idx m) (desc_id m last) Hi eq_refl ltac:(lia)) as (b & addr & -> & Hi' & E).
  rewrite E. clear E. cbv zeta. fold m. rewrite Hfl. replace (buffer_len m last <? 56) with false by lia. cbn [negb orb].
  destruct Hi' as (_ & Hpair & Hoth & Hv). change (bus_view b ≈ m) in Hv. set (message := build_rpmsg_ns_message cfgs this).
  destruct (write_served (buffer_addr m last) message b) as (b2 & d2 & E2 & Hv2); [unfold message; rewrite ns_message_size; lia| |].
  { unfold message. by rewrite ns_message_size. }
  assert (vec_size message = 56) as Hms by apply ns_message_size. rewrite Hms in E2. rewrite E2. cbn [negb].
  destruct (read16_served (used + 2) b2 (used_serves 2 2 ltac:(lia) ltac:(lia))) as (b3 & E3 & Hv3). rewrite E3.
  assert (bus_view b2 ≈ mem_write (buffer_addr m last) message m) as V2 by (etrans; [exact Hv2|by apply mem_write_proper]).
  assert (le_val (mem_read (bus_view b2) (used + 2) 2) = load16 m (used + 2)) as ->.
  { fold (load16 (bus_view b2) (used + 2)). rewrite (load16_eq _ _ _ V2). unfold load16. f_equal. apply mem_read_write_ne.
    unfold vec_size in Hms. lia. }
  set (idx := load16 m (used + 2)). pose proof (used_element idx) as [He0 He1].
  rewrite (wrap_small 64 (used + 4 + idx mod num * 8)), (wrap_small 64 (used + 4 + idx mod num * 8 + 4)) by (split; lia).
  assert (bus_view b3 ≈ mem_write (buffer_addr m last) message m) as V3 by (etrans; [exact Hv3|exact V2]).
  pose proof (used_stores _ idx (desc_id m last) b3 V3) as Hst. fold (announced_view m last) in Hst.
  set (b4 := mem_write16 _ _ _) in *. set (w2 := on this _ _). change (paired_mbx cfgs this w2) with (paired_mbx cfgs this w1).
  assert (m_rpmsg_ns_sent (dev w2 this) = true) as Hs2 by (unfold w2; by rewrite dev_on_eq).
  assert (forall j, j <> this -> dev w2 j = dev w j) as Ho2 by (intros j Hj; unfold w2; rewrite dev_on_ne by done; by apply Hoth).
  change (paired_mbx cfgs this w1 = paired_mbx cfgs this w) in Hpair. unfold announced. rewrite Hpair.
  destruct (paired_mbx cfgs this w) as [mbx|]; [|exists w2; split; [done|split; [done|by split]]].
  specialize (Hne mbx eq_refl). eexists. split; [done|]. rewrite dev_on_ne by done.
  split; [case_if; [rewrite dev_on_eq|]; done|]. split; [case_if; exact Hst|]. intros mbx' [= <-]. rewrite dev_on_eq.
  case_if; [rewrite dev_on_ne by done|]; by rewrite Ho2.
Qed.
(** * The worker *)

(** What the rest of the system does while the worker waits. *)
Variable env : nat -> world B -> world B.

(** The world the worker finds at its [n]-th poll, when the ones before, from the
    [k]-th wait on, found nothing to use. *)
Fixpoint at_poll (k n : nat) w : world B :=
  match n with
  | O => w
  | S n => at_poll (S k) n (env k (on this (emit (Wait (p_rpmsg_ns_poll_period_ns cfg))) (fst (inject_rpmsg_ns_once cfgs this w))))
  end.

Hypothesis Henv : forall last k w, waiting_for last w -> waiting_for last (env k w).

Lemma waiting_wait last x w : waiting_for last w -> waiting_for last (on this (emit x) w).
Proof. unfold waiting_for. by rewrite dev_on_eq. Qed.

(** The polls stop at the first offer. *)
Lemma polls_reach last n : forall max k w, is_u16 last -> waiting_for last w -> (n < max)%nat ->
  (forall j, (j < n)%nat -> offers (bus_view (memory (at_poll k j w))) last = false) ->
  offers (bus_view (memory (at_poll k n w))) last = true -> buffer_ok (bus_view (memory (at_poll k n w))) last ->
  (forall mbx, paired_mbx cfgs this (at_poll k n w) = Some mbx -> mbx <> this) ->
  exists w', rpmsg_ns_polls cfgs env max k this w = (w', (k + n)%nat) /\ announced last (at_poll k n w) w'.
Proof.
  induction n as [|n IH]; intros max k w Hl Hw Hmax Hno Hoff Hbuf Hne; (destruct max as [|max]; [lia|]); cbn [rpmsg_ns_polls].
  - destruct (poll_offers last w Hl Hw Hoff Hbuf Hne) as (w' & E & Ha). rewrite E, Nat.add_0_r. by exists w'.
  - destruct (poll_idle last w Hl Hw (Hno 0%nat ltac:(lia))) as (w1 & E & Hi).
    assert (forall j, at_poll k (S j) w = at_poll (S k) j (env k (on this (emit (Wait (p_rpmsg_ns_poll_period_ns cfg))) w1))) as Ew.
    { intros j. cbn [at_poll]. by rewrite E. }
    rewrite E. rewrite Ew in Hoff, Hbuf, Hne |- *. replace (k + S n)%nat with (S k + n)%nat by lia.
    apply IH; [done|apply Henv, waiting_wait, Hi|lia| |done|done|done].
    intros j Hj. rewrite <-Ew. apply Hno. lia.
Qed.
End bus.

(** C31. The announcement is made.  However long the guest takes and whatever the
    rest of the system does in between, as long as it leaves the unit's own
    progress alone: if within the configured number of polls the receive ring
    shows a writable buffer of 56 bytes or more, the worker stops at the first
    such poll, with the message in that buffer, the buffer on the used ring under
    the next index, nothing else in memory changed, and the doorbell of the paired
    mailbox rung; it does not announce twice and goes back to wait for its event,
    so two rounds are fuel enough. *)
Theorem rpmsg_announcement_made {B : Type} {bus : TlmTarget B} {mb : MemoryBus B} {bb : ByteBus B}
    (cfgs : Z -> mhu_config) (this : Z) (env : nat -> world B -> world B) (fuel n : nat) (last : Z) (w : world B) :
  ring_ok cfgs this -> is_u16 last -> waiting_for this last w -> m_rpmsg_ns_pending (dev w this) = true ->
  (forall last k w, waiting_for this last w -> waiting_for this last (env k w)) ->
  let w0 := on this (fun s => s <| m_rpmsg_ns_pending := false |>) w in
  let found k := bus_view (memory (at_poll cfgs this env 0 k w0)) in
  Z.of_nat n < p_rpmsg_ns_max_polls (cfgs this) ->
  (forall j, (j < n)%nat -> offers cfgs this (found j) last = false) ->
  offers cfgs this (found n) last = true -> buffer_ok cfgs this (found n) last ->
  (forall mbx, paired_mbx cfgs this (at_poll cfgs this env 0 n w0) = Some mbx -> mbx <> this) ->
  exists w', rpmsg_ns_worker cfgs env (2 + fuel) 0 this w = (w', n) /\
    announced cfgs this last (at_poll cfgs this env 0 n w0) w'.
Proof.
  intros Hring Hl Hw Hp Henv w0 found Hn Hno Hoff Hbuf Hne. cbn [rpmsg_ns_worker Nat.add].
  pose proof Hw as (Hb & Hs & Hlast). rewrite Hp, Hs. cbn [negb andb].
  assert (waiting_for this last w0) as Hw0 by (unfold waiting_for, w0; by rewrite dev_on_eq).
  destruct (polls_reach cfgs this Hring env Henv last n (Z.to_nat (p_rpmsg_ns_max_polls (cfgs this))) 0 w0
    Hl Hw0 ltac:(lia) Hno Hoff Hbuf Hne) as (w' & E & Ha).
  fold w0. rewrite E. exists w'. split; [|done]. destruct Ha as (Hsent & _).
  cbn [rpmsg_ns_worker]. rewrite Hsent. by rewrite andb_false_r.
Qed.

(** A guest that publishes a buffer during the first wait of the worker. *)
Definition announce_cfg : mhu_config :=
  MkMhuConfig "a" "doorbell" "pbx" 128 1 0 0x43b 0x20 false "mailbox" 0x100 0x200 0 0 1 true 0 0x20000 0x20000 0 "AP"
    false 1 true false 1 1 0 0 0 0 0 true "rpmsg" 1024 0x100 2 16 0 1 0 100000 1000 1000 [] true false [].
Definition guest_publishes (k : nat) (w : world mem) : world mem :=
  if decide (k = 0%nat) then
    w <| memory ::= fun m => mem_write 0x122 [1; 0]
      (mem_write 0x100 (le_bytes 8 0x200 ++ le_bytes 4 64 ++ le_bytes 2 2 ++ le_bytes 2 0) m) |>
  else w.
Definition announce_world : world mem := World {[0 := new_mhu <| m_rpmsg_ns_pending := true |>]} None None ∅ ∅ ∅.

Lemma announce_ring : ring_ok (mb := ram_bus 0x1000) (fun _ => announce_cfg) 0.
Proof.
  split; [done|cbn; lia|cbn; lia|cbn; lia|by cbv| |].
  - intros k Hk. change (0 <= 0x100 + k < 0x1000). change (0 <= k < 40) in Hk. lia.
  - intros k Hk. change (rpmsg_ns_used_address (fun _ => announce_cfg) 0) with 0x130.
    change (0 <= 0x130 + k < 0x1000). change (0 <= k < 20) in Hk. lia.
Qed.

Lemma guest_keeps last k w : waiting_for (bus := ram 0x1000) 0 last w -> waiting_for (bus := ram 0x1000) 0 last (guest_publishes k w).
Proof.
  intros (Hb & Hs & Hl). unfold guest_publishes. case_decide; [|done]. split; [|done].
  apply mem_ok_write; [apply mem_ok_write; [exact Hb|by apply bytes_okb|by cbv|by cbv]|by apply bytes_okb|by cbv|by cbv].
Qed.

Lemma rpmsg_announcement_made_witness : exists w',
  rpmsg_ns_worker (bus := ram 0x1000) (fun _ => announce_cfg) guest_publishes 2 0 0 announce_world = (w', 1%nat) /\
  mem_read (memory w') 0x200 4 = [0; 4; 0; 0].
Proof.
  destruct (rpmsg_announcement_made (mb := ram_bus 0x1000) (bb := ram_byte_bus 0x1000) (fun _ => announce_cfg) 0 guest_publishes
    0 1 0 announce_world announce_ring) as (w' & E & _ & Hv & _).
  - by cbv.
  - split; [exact (mem_ok_empty 0x1000)|done].
  - done.
  - apply guest_keeps.
  - by cbv.
  - intros [|j] Hj; [vm_compute; reflexivity|lia].
  - vm_compute. reflexivity.
  - split; [|right; by vm_compute]. intros k Hk. change (buffer_addr _ _ _ _) with 0x200. change (0 <= 0x200 + k < 0x1000). lia.
  - by intros mbx.
  - exists w'. split; [exact E|]. refine (eq_trans (mem_read_proper _ _ Hv _ _ eq_refl _ _ eq_refl) _). vm_compute. reflexivity.
Defined.

(** * Synthetic completions *)

(** What the completions queued for a channel acknowledge. *)
Definition acked (q : list synthetic_postbox_completion) (channel : Z) : Z :=
  foldr (fun c m => if c_channel c =? channel then Z.lor (c_mask c) m else m) 0 q.

(** Every completion raises its interrupt, but for the one unit that reports a
    completion only when a transfer was pending. *)
Definition acks_empty (cfg : mhu_config) : bool :=
  negb (p_pair cfg =? "ap_si_cl1")%string || negb (p_protocol cfg =? "doorbell")%string.

Definition int_status (f : mhu_frame) (c : Z) : Z := arr_get (m_db_int_status f) c.

Lemma int_status_same f f' c : same_channels f f' -> int_status f' c = int_status f c.
Proof. intros H. unfold int_status. by destruct (same_channels_fields _ _ H) as (_ & _ & -> & _). Qed.

Lemma int_status_update cfg s c : int_status (m_frame (update_combined_irq cfg s)) c = int_status (m_frame s) c.
Proof. unfold update_combined_irq. case_if; apply int_status_same, refresh_same. Qed.

Lemma status_clear_bits c v f c' : frame_ok f -> 0 <= c < 128 -> 0 <= c' ->
  status (clear_status_bits c v f) c' = if c' =? c then Z.ldiff (status f c) v else status f c'.
Proof.
  intros (_ & [Hl Hw] & _) Hc Hc'. unfold clear_status_bits. rewrite (status_same _ _ _ (store_channel_same _ _)).
  unfold status. cbn. destruct (Z.eqb_spec c' c) as [->|Hne]; [|apply arr_get_set_ne; lia].
  rewrite arr_get_set_eq by lia. apply land_cnot; [|lia]. by apply (arr_ok_get 128 32).
Qed.

Lemma int_status_clear c v f c' : int_status (clear_status_bits c v f) c' = int_status f c'.
Proof. unfold clear_status_bits. by rewrite (int_status_same _ _ _ (store_channel_same _ _)). Qed.

Lemma int_status_set c v f c' : frame_ok f -> 0 <= c < 128 -> 0 <= c' ->
  int_status (set_int_status_bits c v f) c' = if c' =? c then Z.lor (int_status f c) v else int_status f c'.
Proof.
  intros (_ & _ & _ & [Hl _] & _) Hc Hc'. unfold set_int_status_bits. rewrite (int_status_same _ _ _ (store_channel_same _ _)).
  unfold int_status. cbn. destruct (Z.eqb_spec c' c) as [->|Hne]; [apply arr_get_set_eq; lia|apply arr_get_set_ne; lia].
Qed.

Section completions.
Context (cfg : mhu_config).

(** One completion: the acknowledged bits go, the interrupt status comes. *)
Lemma complete_one s c mask c' : frame_conf cfg (m_frame s) -> 0 <= c < channel_count cfg -> 0 <= c' ->
  let s' := clear_postbox_doorbell_channel cfg c mask s in
  frame_conf cfg (m_frame s') /\ m_synthetic_postbox_completions s' = m_synthetic_postbox_completions s /\
  status (m_frame s') c' = (if c' =? c then Z.ldiff (status (m_frame s) c) mask else status (m_frame s) c') /\
  int_status (m_frame s') c' =
    (if (c' =? c) && (test (status (m_frame s) c) mask || acks_empty cfg) then Z.lor (int_status (m_frame s) c) 1
     else int_status (m_frame s) c').
Proof.
  intros Hf Hc Hc' s'. unfold s', clear_postbox_doorbell_channel. fold (acks_empty cfg). pose proof (channel_count_range cfg).
  replace (channel_count cfg <=? c) with false by lia. cbv zeta.
  pose proof (clear_status_bits_conf cfg c mask _ Hf ltac:(lia)) as H1.
  destruct (test _ _ || acks_empty cfg).
  - pose proof (set_int_status_bits_conf cfg c 1 _ H1 ltac:(lia) ltac:(by cbv)) as H2. rewrite status_update, int_status_update.
    split; [unfold update_combined_irq; cbv zeta; case_if; by apply refresh_conf|].
    split; [unfold update_combined_irq; cbv zeta; by case_if|]. cbn. rewrite status_set_int, andb_true_r.
    rewrite status_clear_bits, int_status_set by (try apply Hf; try apply H1; lia). by rewrite !int_status_clear.
  - rewrite status_update, int_status_update, andb_false_r.
    split; [unfold update_combined_irq; cbv zeta; case_if; by apply refresh_conf|].
    split; [unfold update_combined_irq; cbv zeta; by case_if|]. cbn.
    rewrite status_clear_bits by (try apply Hf; lia). by rewrite int_status_clear.
Qed.

(** The first turn of the loop. *)
Lemma drain_turn x q s : frame_conf cfg (m_frame s) -> m_synthetic_postbox_completions s = x :: q -> completion_ok cfg x ->
  exists s', (forall n, drain_completions cfg (S n) s = drain_completions cfg n s') /\ frame_conf cfg (m_frame s') /\
    m_synthetic_postbox_completions s' = q /\
    forall c, 0 <= c ->
      status (m_frame s') c = (if c =? c_channel x then Z.ldiff (status (m_frame s) c) (c_mask x) else status (m_frame s) c) /\
      int_status (m_frame s') c =
        (if (c =? c_channel x) && (test (status (m_frame s) (c_channel x)) (c_mask x) || acks_empty cfg)
         then Z.lor (int_status (m_frame s) c) 1 else int_status (m_frame s) c).
Proof.
  intros Hf Eq [Hx _]. set (s1 := s <| m_synthetic_postbox_completions := q |>).
  exists (clear_postbox_doorbell_channel cfg (c_channel x) (c_mask x) s1).
  split; [intros n; cbn [drain_completions]; by rewrite Eq|].
  destruct (complete_one s1 (c_channel x) (c_mask x) 0 Hf Hx ltac:(lia)) as (H1 & H2 & _). split; [done|]. split; [done|].
  intros c Hc. destruct (complete_one s1 (c_channel x) (c_mask x) c Hf Hx Hc) as (_ & _ & -> & ->).
  change (m_frame s1) with (m_frame s). destruct (Z.eqb_spec c (c_channel x)) as [->|]; done.
Qed.

End completions.

Lemma ldiff_lor x a b : Z.ldiff (Z.ldiff x a) b = Z.ldiff x (Z.lor a b).
Proof. apply Z.bits_inj'. intros i Hi. rewrite !Z.ldiff_spec, Z.lor_spec by lia. btauto. Qed.

Lemma acked_none q c : existsb (fun x => c_channel x =? c) q = false -> acked q c = 0.
Proof. induction q as [|x q IH]; [done|]. cbn. intros [-> H]%orb_false_iff. by apply IH. Qed.

Lemma test_lor x a b : test x (Z.lor a b) = test x a || test (Z.ldiff x a) b.
Proof.
  unfold test. rewrite <-negb_andb. f_equal. apply eq_true_iff_eq. rewrite andb_true_iff, !Z.eqb_eq.
  assert (forall y z, Z.land y z = 0 <-> forall i, 0 <= i -> Z.testbit y i && Z.testbit z i = false) as Hz.
  { intros y z. split; [intros H i Hi; by rewrite <-Z.land_spec, H, Z.bits_0|].
    intros H. apply Z.bits_inj'. intros i Hi. rewrite Z.land_spec, Z.bits_0. by apply H. }
  rewrite !Hz. split.
  - intros H. split; intros i Hi; specialize (H i Hi); rewrite Z.lor_spec in H; rewrite ?Z.ldiff_spec by lia;
      destruct (Z.testbit x i), (Z.testbit a i), (Z.testbit b i); done.
  - intros [H1 H2] i Hi. specialize (H1 i Hi). specialize (H2 i Hi). rewrite Z.ldiff_spec in H2 by lia. rewrite Z.lor_spec.
    destruct (Z.testbit x i), (Z.testbit a i), (Z.testbit b i); done.
Qed.

Lemma test_0 x : test x 0 = false.
Proof. unfold test. by rewrite Z.land_0_r. Qed.

Lemma lor_idem x b : Z.lor (Z.lor x b) b = Z.lor x b.
Proof. by rewrite <-Z.lor_assoc, Z.lor_diag. Qed.

(** C32. The loop that delivers synthetic completions ends with an empty queue -
    the queue's length is fuel enough, more changes nothing - and delivers every
    one of them: each channel loses exactly the doorbell bits its completions
    acknowledge, and has its transfer interrupt raised exactly when a completion
    was queued for it and, in the one unit that reports pending transfers only,
    when one of the acknowledged bits was pending; the other channels keep their
    doorbells and their interrupt status. *)
Theorem completions_delivered cfg s : frame_conf cfg (m_frame s) ->
  Forall (completion_ok cfg) (m_synthetic_postbox_completions s) ->
  let q := m_synthetic_postbox_completions s in
  let s' := emit_synthetic_postbox_completions cfg s in
  m_synthetic_postbox_completions s' = [] /\
  (forall fuel, drain_completions cfg (length q + fuel) s = s') /\
  forall c, 0 <= c < channel_count cfg ->
    status (m_frame s') c = Z.ldiff (status (m_frame s) c) (acked q c) /\
    int_status (m_frame s') c =
      if existsb (fun x => c_channel x =? c) q && (test (status (m_frame s) c) (acked q c) || acks_empty cfg)
      then Z.lor (int_status (m_frame s) c) 1 else int_status (m_frame s) c.
Proof.
  intros Hf Hq q s'. unfold s', emit_synthetic_postbox_completions, q. clear q s'.
  remember (m_synthetic_postbox_completions s) as q eqn:Eq. symmetry in Eq. revert s Hf Eq.
  induction q as [|x q IH]; intros s Hf Eq.
  { split; [done|]. split; [by intros [|fuel]; cbn; rewrite ?Eq|]. intros c Hc. by rewrite Z.ldiff_0_r. }
  inversion_clear Hq as [|? ? Hx Hq']. destruct (drain_turn cfg x q s Hf Eq Hx) as (s1 & E & Hf1 & Eq1 & Hst).
  destruct (IH Hq' s1 Hf1 Eq1) as (Hempty & Hfuel & Hch). cbn [length Nat.add]. rewrite E.
  split; [done|]. split; [intros fuel; by rewrite E|]. intros c Hc. destruct (Hch c Hc) as (Hs & Hi).
  destruct (Hst c ltac:(lia)) as [Hs1 Hi1]. cbn [acked foldr existsb]. rewrite (Z.eqb_sym (c_channel x) c).
  fold (acked q c). rewrite Hs, Hi, Hs1, Hi1. destruct (Z.eqb_spec c (c_channel x)) as [->|Hne]; cbn [orb andb] in *; [|done].
  split; [apply ldiff_lor|]. rewrite test_lor. destruct (existsb _ q) eqn:Ex.
  - generalize (test (status (m_frame s) (c_channel x)) (c_mask x)) as b1.
    generalize (test (Z.ldiff (status (m_frame s) (c_channel x)) (c_mask x)) (acked q (c_channel x))) as b2.
    intros [] []; destruct (acks_empty cfg); cbn [andb orb]; by rewrite ?lor_idem.
  - rewrite (acked_none q _ Ex), test_0, orb_false_r. done.
Qed.

(** The unit that reports pending transfers only. *)
Definition completion_cfg : mhu_config :=
  MkMhuConfig "ap_si_cl1" "doorbell" "pbx" 128 1 0 0x43b 0x20 false "mailbox" 0x100 0x200 0 0 1 true 0 0x20000 0x20000 0 "AP"
    false 1 true false 1 1 0 0 0 0 0 true "rpmsg" 1024 0x100 2 16 0 1 0 100000 1000 1000 [] true false [].

(** Completions queued on the unit that reports pending transfers only: the first
    of channel 3 finds its bit pending, the second does not, that of channel 5
    finds none. *)
Lemma completions_delivered_witness :
  let cfg := completion_cfg in
  let f := configure false 128 1 0 0x43b 0x20 new_frame in
  let s := new_mhu <| m_frame := set_status 3 6 f |>
                   <| m_synthetic_postbox_completions := [Completion 3 2; Completion 3 2; Completion 5 1] |> in
  let s' := emit_synthetic_postbox_completions cfg s in
  acks_empty cfg = false /\ status (m_frame s') 3 = 4 /\ int_status (m_frame s') 3 = 1 /\ int_status (m_frame s') 5 = 0.
Proof.
  intros cfg f s s'. destruct (completions_delivered cfg s) as (_ & _ & H).
  - apply set_status_conf; [apply (configured_conf cfg)|lia|by cbv].
  - do 3 (apply Forall_cons_2; [split; [by cbv|split; [by cbv|done]]|]). apply Forall_nil_2.
  - unfold s'. split; [by vm_compute|]. split; [refine (eq_trans (proj1 (H 3 ltac:(by cbv))) _); vm_compute; reflexivity|].
    assert (0 <= 3 < channel_count cfg /\ 0 <= 5 < channel_count cfg) as [H3 H5] by (by cbv).
    rewrite (proj2 (H 3 H3)), (proj2 (H 5 H5)). split; vm_compute; reflexivity.
Defined.
