(* ===== verification/Mmu720ae.v ===== *)
(** The system memory management unit [mmu720ae]
    (systemc-components/mmu720ae/include/mmu720ae_core.h, mmu720ae_regs.h,
    mmu720ae_tlm_extensions.h, mmu720ae.h and src/mmu720ae_core.cc, mmu720ae.cc):
    the register core with its event queue and interrupt, and the module around
    it, whose translation sockets pass requests on while the unit is off and
    report a translation fault while it is on. *)

From S2P Require Import Prelude Bytes Tlm Memory Access.

(** * Registers *)

Definition ARM_SMMU_IDR0 : Z := 0x000.
Definition ARM_SMMU_IDR1 : Z := 0x004.
Definition ARM_SMMU_IDR3 : Z := 0x00c.
Definition ARM_SMMU_IDR5 : Z := 0x014.
Definition ARM_SMMU_IIDR : Z := 0x018.
Definition ARM_SMMU_AIDR : Z := 0x01c.
Definition ARM_SMMU_CR0 : Z := 0x020.
Definition ARM_SMMU_CR0ACK : Z := 0x024.
Definition ARM_SMMU_GBPA : Z := 0x044.
Definition ARM_SMMU_IRQ_CTRL : Z := 0x050.
Definition ARM_SMMU_IRQ_CTRLACK : Z := 0x054.
Definition ARM_SMMU_GERROR : Z := 0x060.
Definition ARM_SMMU_GERRORN : Z := 0x064.
Definition ARM_SMMU_GERROR_IRQ_CFG0 : Z := 0x068.
Definition ARM_SMMU_STRTAB_BASE : Z := 0x080.
Definition ARM_SMMU_CMDQ_BASE : Z := 0x090.
Definition ARM_SMMU_CMDQ_PROD : Z := 0x098.
Definition ARM_SMMU_CMDQ_CONS : Z := 0x09c.
Definition ARM_SMMU_EVTQ_BASE : Z := 0x0a0.
Definition ARM_SMMU_EVTQ_PROD : Z := 0x0a8.
Definition ARM_SMMU_EVTQ_CONS : Z := 0x0ac.
Definition ARM_SMMU_EVTQ_IRQ_CFG0 : Z := 0x0b0.
Definition ARM_SMMU_PRIQ_BASE : Z := 0x0c0.
Definition ARM_SMMU_PRIQ_CONS : Z := 0x0cc.
Definition ARM_SMMU_PRIQ_IRQ_CFG0 : Z := 0x0d0.

Definition ARM_SMMU_PAGE1_OFFSET : Z := 0x10000.
Definition ARM_SMMU_REG_SZ : Z := 0xe00.

Definition Q_BASE_ADDR_MASK : Z := 0x000fffffffffffffe0.
Definition Q_BASE_LOG2SIZE_MASK : Z := 0x1f.
Definition EVTQ_ENT_DWORDS : Z := 4.
Definition EVTQ_ENT_BYTES : Z := EVTQ_ENT_DWORDS * 8.

Definition CR0_CMDQEN : Z := bit 3.
Definition CR0_EVTQEN : Z := bit 2.
Definition CR0_SMMUEN : Z := bit 0.
Definition CR0_IMPLEMENTED_MASK : Z := Z.lor (Z.lor CR0_CMDQEN CR0_EVTQEN) CR0_SMMUEN.

Definition IRQ_CTRL_EVTQ_IRQEN : Z := bit 2.
Definition IRQ_CTRL_GERROR_IRQEN : Z := bit 0.
Definition GBPA_UPDATE : Z := bit 31.
Definition GERROR_EVTQ_ABT_ERR : Z := bit 2.
Definition GERROR_ERR_MASK : Z := 0x1fd.

Definition EVT_ID_TRANSLATION_FAULT : Z := 0x10.
Definition EVTQ_0_ID_MASK : Z := 0xff.
Definition EVTQ_0_SID_SHIFT : Z := 32.
Definition EVTQ_1_RNW_SHIFT : Z := 35.

Definition IDR0_STALL_MODEL_NONE : Z := bit 24.
Definition IDR0_TTENDIAN_LE : Z := shl 32 2 21.
Definition IDR0_COHACC : Z := bit 4.
Definition IDR0_TTF_AARCH64 : Z := shl 32 2 2.
Definition IDR0_S1P : Z := bit 1.
Definition IDR1_CMDQS_SHIFT : Z := 21.
Definition IDR1_EVTQS_SHIFT : Z := 16.
Definition IDR1_PRIQS_SHIFT : Z := 11.
Definition IDR1_SSIDSIZE_SHIFT : Z := 6.
Definition IDR5_GRAN4K : Z := bit 4.
Definition IDR5_OAS_48_BIT : Z := 5.

Definition REG_BYTES : Z := ARM_SMMU_PAGE1_OFFSET + ARM_SMMU_REG_SZ.

(** [mmu720ae_core.h: idr0_value] *)
Definition idr0_value : Z :=
  Z.lor (Z.lor (Z.lor (Z.lor IDR0_STALL_MODEL_NONE IDR0_TTENDIAN_LE) IDR0_COHACC) IDR0_TTF_AARCH64) IDR0_S1P.

(** [mmu720ae_core.h: idr1_value] *)
Definition idr1_value : Z :=
  Z.lor (Z.lor (Z.lor (Z.lor (shl 32 8 IDR1_CMDQS_SHIFT) (shl 32 8 IDR1_EVTQS_SHIFT))
    (shl 32 0 IDR1_PRIQS_SHIFT)) (shl 32 0 IDR1_SSIDSIZE_SHIFT)) 8.

(** [mmu720ae_core.h: idr5_value] *)
Definition idr5_value : Z := Z.lor IDR5_GRAN4K IDR5_OAS_48_BIT.

(** * The core *)

(** [mmu720ae_core.h: "enum class access_status {" .. "};"] *)
Inductive access_status := ok | address_error | command_error.

(** The four doublewords of an event. *)
(** [mmu720ae_core.h: "struct event_record {" .. "std::array<uint64_t, EVTQ_ENT_DWORDS> dwords {};"] *)
Definition event_record : Type := list Z.

(** [mmu720ae_core.h: "std::array<uint8_t, REG_BYTES> m_regs {};" .. "uint32_t m_last_tbu_sid = 0;"] *)
Record core := MkCore {
  m_regs : mem;
  m_combined_irq : bool;
  m_cmdq_sync_count : Z;
  m_dmi_generation : Z;
  m_tbu_request_count : Z;
  m_tbu_fallback_sid_count : Z;
  m_event_record_count : Z;
  m_event_queue_abort_count : Z;
  m_last_tbu_sid : Z
}.

#[export] Instance eta_core : Eta core := fun c =>
  MkCore (m_regs c) (m_combined_irq c) (m_cmdq_sync_count c) (m_dmi_generation c)
    (m_tbu_request_count c) (m_tbu_fallback_sid_count c) (m_event_record_count c)
    (m_event_queue_abort_count c) (m_last_tbu_sid c).

(** [++counter] on a [uint64_t]. *)
Definition next64 (n : Z) : Z := u64 (n + 1).

(** The words, written to both pages of the register frame. *)
(** [mmu720ae_core.cc: load64] *)
Definition load64 (m : mem) (off : Z) : Z := le_val (mem_read m off 8).

(** [mmu720ae_core.cc: store32] *)
Definition core_store32 (off value : Z) (c : core) : core :=
  let c := c <| m_regs ::= store32 off value |> in
  if (off <? ARM_SMMU_REG_SZ) && (off + 4 <=? ARM_SMMU_REG_SZ)
  then c <| m_regs ::= store32 (ARM_SMMU_PAGE1_OFFSET + off) value |>
  else c.

(** [mmu720ae_core.cc: store64] *)
Definition core_store64 (off value : Z) (c : core) : core :=
  let c := c <| m_regs ::= mem_write off (le_bytes 8 value) |> in
  if (off <? ARM_SMMU_REG_SZ) && (off + 8 <=? ARM_SMMU_REG_SZ)
  then c <| m_regs ::= mem_write (ARM_SMMU_PAGE1_OFFSET + off) (le_bytes 8 value) |>
  else c.

(** [mmu720ae_core.cc: load32] *)
Definition core_load32 (off : Z) (c : core) : Z := load32 (m_regs c) off.

(** [mmu720ae_core.cc: reset] *)
Definition core_reset (c : core) : core :=
  let c := MkCore ∅ false 0 (next64 (m_dmi_generation c)) 0 0 0 0 0 in
  let c := core_store32 ARM_SMMU_IDR0 idr0_value c in
  let c := core_store32 ARM_SMMU_IDR1 idr1_value c in
  let c := core_store32 ARM_SMMU_IDR3 0 c in
  let c := core_store32 ARM_SMMU_IDR5 idr5_value c in
  let c := core_store32 ARM_SMMU_IIDR 0x720ae000 c in
  let c := core_store32 ARM_SMMU_AIDR 0x00000003 c in
  core_store32 ARM_SMMU_GERRORN GERROR_ERR_MASK c.

(** [mmu720ae_core.cc: "core::core()" .. "}"] *)
Definition new_core : core := core_reset (MkCore ∅ false 0 0 0 0 0 0 0).

(** [mmu720ae_core.cc: supported_length] *)
Definition supported_length (len : Z) : bool := is_supported_length len.

(** [mmu720ae_core.cc: normalize_offset] *)
Definition normalize_offset (offset len : Z) : option Z :=
  if negb (supported_length len) then None
  else
    let offset :=
      if (ARM_SMMU_PAGE1_OFFSET <=? offset) && (offset <? ARM_SMMU_PAGE1_OFFSET + ARM_SMMU_REG_SZ)
      then offset - ARM_SMMU_PAGE1_OFFSET else offset in
    if ARM_SMMU_REG_SZ <? u64 (offset + len) then None else Some (u32 offset).

(** [mmu720ae_core.cc: smmu_enabled] *)
Definition smmu_enabled (c : core) : bool := test (core_load32 ARM_SMMU_CR0ACK c) CR0_SMMUEN.

(** [mmu720ae_core.cc: event_queue_enabled] *)
Definition event_queue_enabled (c : core) : bool := test (core_load32 ARM_SMMU_CR0ACK c) CR0_EVTQEN.

(** [mmu720ae_core.cc: event_queue_log2_entries] *)
Definition event_queue_log2_entries (c : core) : Z :=
  Z.land (load64 (m_regs c) ARM_SMMU_EVTQ_BASE) Q_BASE_LOG2SIZE_MASK.

(** [mmu720ae_core.cc: event_queue_base] *)
Definition event_queue_base (c : core) : Z := Z.land (load64 (m_regs c) ARM_SMMU_EVTQ_BASE) Q_BASE_ADDR_MASK.

(** [mmu720ae_core.cc: event_queue_configured] *)
Definition event_queue_configured (c : core) : bool :=
  event_queue_enabled c && (0 <? event_queue_log2_entries c) && (event_queue_log2_entries c <? 31) &&
  negb (event_queue_base c =? 0).

(** [mmu720ae_core.cc: event_queue_index] *)
Definition event_queue_index (pointer : Z) (c : core) : Z :=
  let mask := u32 (shl 32 1 (event_queue_log2_entries c) - 1) in Z.land pointer mask.

(** [mmu720ae_core.cc: event_queue_wrap] *)
Definition event_queue_wrap (pointer : Z) (c : core) : Z :=
  Z.land pointer (shl 32 1 (event_queue_log2_entries c)).

(** [mmu720ae_core.cc: event_queue_pending] *)
Definition event_queue_pending (c : core) : bool :=
  if negb (event_queue_configured c) then false
  else negb (core_load32 ARM_SMMU_EVTQ_PROD c =? core_load32 ARM_SMMU_EVTQ_CONS c).

(** [mmu720ae_core.cc: event_queue_full] *)
Definition event_queue_full (c : core) : bool :=
  if negb (event_queue_configured c) then true
  else
    let prod := core_load32 ARM_SMMU_EVTQ_PROD c in
    let cons_ := core_load32 ARM_SMMU_EVTQ_CONS c in
    (event_queue_index prod c =? event_queue_index cons_ c) &&
    negb (event_queue_wrap prod c =? event_queue_wrap cons_ c).

(** [mmu720ae_core.cc: event_queue_next_prod] *)
Definition event_queue_next_prod (c : core) : Z :=
  let prod := core_load32 ARM_SMMU_EVTQ_PROD c in
  let log2_entries := event_queue_log2_entries c in
  let mask := u32 (shl 32 1 log2_entries - 1) in
  let wrap_bit := shl 32 1 log2_entries in
  let index := u32 (Z.land prod mask + 1) in
  let wrap_ := Z.land prod wrap_bit in
  if index =? shl 32 1 log2_entries then Z.lor (Z.lxor wrap_ wrap_bit) 0 else Z.lor wrap_ index.

(** [mmu720ae_core.cc: event_queue_prod_entry_address] *)
Definition event_queue_prod_entry_address (c : core) : Z :=
  u64 (event_queue_base c + event_queue_index (core_load32 ARM_SMMU_EVTQ_PROD c) c * EVTQ_ENT_BYTES).

(** [mmu720ae_core.cc: invalidate_cached_translations] *)
Definition invalidate_cached_translations (c : core) : core := c <| m_dmi_generation ::= next64 |>.

(** [mmu720ae_core.cc: build_translation_fault_event] *)
Definition build_translation_fault_event (iova : Z) (read : bool) (sid : Z) (c : core)
    : option (event_record * Z) :=
  if negb (event_queue_configured c) || event_queue_full c then None
  else
    let dword0 := Z.lor (Z.land EVT_ID_TRANSLATION_FAULT EVTQ_0_ID_MASK) (shl 64 sid EVTQ_0_SID_SHIFT) in
    let dword1 := if read then Z.lor 0 (shl 64 1 EVTQ_1_RNW_SHIFT) else 0 in
    Some ([dword0; dword1; iova; 0], event_queue_prod_entry_address c).

(** [mmu720ae_core.cc: record_tbu_request_sid] *)
Definition record_tbu_request_sid (sid : Z) (fallback : bool) (c : core) : core :=
  let c := c <| m_tbu_request_count ::= next64 |> in
  let c := if fallback then c <| m_tbu_fallback_sid_count ::= next64 |> else c in
  c <| m_last_tbu_sid := sid |>.

(** [mmu720ae_core.cc: "void core::update_irq()" .. "((irq_ctrl & IRQ_CTRL_EVTQ_IRQEN) != 0 && event_queue_pending());"] *)
Definition core_update_irq (c : core) : core :=
  let irq_ctrl := core_load32 ARM_SMMU_IRQ_CTRL c in
  let gerror := core_load32 ARM_SMMU_GERROR c in
  c <| m_combined_irq :=
    (test irq_ctrl IRQ_CTRL_GERROR_IRQEN && test gerror GERROR_ERR_MASK) ||
    (test irq_ctrl IRQ_CTRL_EVTQ_IRQEN && event_queue_pending c) |>.

(** [mmu720ae_core.cc: record_event_queue_abort] *)
Definition record_event_queue_abort (c : core) : core :=
  let c := c <| m_event_queue_abort_count ::= next64 |> in
  let c := core_store32 ARM_SMMU_GERROR (Z.lor (core_load32 ARM_SMMU_GERROR c) GERROR_EVTQ_ABT_ERR) c in
  let c := core_store32 ARM_SMMU_GERRORN (Z.land GERROR_ERR_MASK (not32 (core_load32 ARM_SMMU_GERROR c))) c in
  core_update_irq c.

(** [mmu720ae_core.cc: complete_event_queue_write] *)
Definition complete_event_queue_write (written : bool) (c : core) : core :=
  if negb written then record_event_queue_abort c
  else
    let c := c <| m_event_record_count ::= next64 |> in
    core_update_irq (core_store32 ARM_SMMU_EVTQ_PROD (event_queue_next_prod c) c).

(** The registers [write32] ignores. *)
(** [mmu720ae_core.cc: "case ARM_SMMU_IDR0:" .. "break;"] *)
Definition read_only (offset : Z) : bool :=
  existsb (Z.eqb offset) [ARM_SMMU_IDR0; ARM_SMMU_IDR1; ARM_SMMU_IDR3; ARM_SMMU_IDR5; ARM_SMMU_IIDR;
    ARM_SMMU_AIDR; ARM_SMMU_CR0ACK; ARM_SMMU_IRQ_CTRLACK].

(** [mmu720ae_core.cc: write32] *)
Definition core_write32 (offset value : Z) (c : core) : core :=
  if read_only offset then c
  else if offset =? ARM_SMMU_CR0 then
    let implemented := Z.land value CR0_IMPLEMENTED_MASK in
    let c := core_store32 ARM_SMMU_CR0 implemented c in
    let c := core_store32 ARM_SMMU_CR0ACK implemented c in
    if negb (test implemented CR0_SMMUEN) then invalidate_cached_translations c else c
  else if offset =? ARM_SMMU_IRQ_CTRL then
    let c := core_store32 ARM_SMMU_IRQ_CTRL
               (Z.land value (Z.lor IRQ_CTRL_EVTQ_IRQEN IRQ_CTRL_GERROR_IRQEN)) c in
    core_update_irq (core_store32 ARM_SMMU_IRQ_CTRLACK (core_load32 ARM_SMMU_IRQ_CTRL c) c)
  else if offset =? ARM_SMMU_GBPA then core_store32 ARM_SMMU_GBPA (Z.land value (not32 GBPA_UPDATE)) c
  else if offset =? ARM_SMMU_GERRORN then
    let c := core_store32 ARM_SMMU_GERROR (Z.land (core_load32 ARM_SMMU_GERROR c) (not32 value)) c in
    core_update_irq
      (core_store32 ARM_SMMU_GERRORN (Z.land GERROR_ERR_MASK (not32 (core_load32 ARM_SMMU_GERROR c))) c)
  else if offset =? ARM_SMMU_CMDQ_PROD then
    let c := core_store32 ARM_SMMU_CMDQ_PROD value c in
    let c := core_store32 ARM_SMMU_CMDQ_CONS value c in
    invalidate_cached_translations (c <| m_cmdq_sync_count ::= next64 |>)
  else if offset =? ARM_SMMU_EVTQ_CONS then core_update_irq (core_store32 ARM_SMMU_EVTQ_CONS value c)
  else if offset =? ARM_SMMU_PRIQ_CONS then core_update_irq (core_store32 ARM_SMMU_PRIQ_CONS value c)
  else core_store32 offset value c.

(** Every label of the switch stores. *)
(** [mmu720ae_core.cc: write64] *)
Definition core_write64 (offset value : Z) (c : core) : core := core_store64 offset value c.

(** The bytes read, when there are any. *)
(** [mmu720ae_core.cc: "access_status core::read(" .. "return access_status::ok;"] *)
Definition core_read (offset : Z) (data : option (list Z)) (len : Z) (c : core)
    : access_status * option (list Z) :=
  match data, normalize_offset offset len with
  | Some d, Some normalized => (ok, Some (put_data (mem_read (m_regs c) normalized len) d))
  | _, _ => (address_error, data)
  end.

(** [mmu720ae_core.cc: "access_status core::write(" .. "return access_status::ok;"] *)
Definition core_write (offset : Z) (data : option (list Z)) (len : Z) (c : core) : access_status * core :=
  match data, normalize_offset offset len with
  | Some d, Some normalized =>
      (ok,
       if (len =? 4) && (normalized mod 4 =? 0) then core_write32 normalized (le_val (get_data 4 d)) c
       else if (len =? 8) && (normalized mod 8 =? 0) then core_write64 normalized (le_val (get_data 8 d)) c
       else c <| m_regs ::= mem_write normalized (get_data len d) |>)
  | _, _ => (address_error, c)
  end.

(** * The module *)

(** The extension a request may carry. *)
(** [mmu720ae_tlm_extensions.h: "uint32_t sid = 0;" .. "bool ats_request = false;"] *)
Record request_attrs_extension := Attrs {
  sid : Z;
  ssid : Z;
  sid_valid : bool;
  ssid_valid : bool;
  secure : bool;
  privileged : bool;
  instruction : bool;
  ats_request : bool
}.

(** [mmu720ae.h: "cci::cci_param<std::string> p_profile;" .. "cci::cci_param<uint32_t> p_tbu_lti02_default_sid;"] *)
Record mmu_config := {
  p_trace : bool;
  p_trace_limit : Z;
  p_tbu_ace1_default_sid : Z;
  p_tbu_ace2_default_sid : Z;
  p_tbu_lti00_default_sid : Z;
  p_tbu_lti01_default_sid : Z;
  p_tbu_lti02_default_sid : Z;
  irq_bound : bool
}.

(** [m_irq_writes] logs the values written to [irq_combined], oldest first. *)
(** [mmu720ae.h: "qbox::mmu720ae::core m_core;" .. "unsigned int m_trace_count = 0;"] *)
Record mmu720ae := MkMmu { m_core : core; m_trace_count : Z; m_irq_writes : list bool }.

#[export] Instance eta_mmu720ae : Eta mmu720ae := fun s => MkMmu (m_core s) (m_trace_count s) (m_irq_writes s).

Section mmu720ae.
Context (cfg : mmu_config).

(** [mmu720ae.cc: update_irq] *)
Definition update_irq (s : mmu720ae) : mmu720ae :=
  if irq_bound cfg then s <| m_irq_writes ::= fun l => l ++ [m_combined_irq (m_core s)] |> else s.

(** [mmu720ae.cc: doreset] *)
Definition doreset (level : bool) (s : mmu720ae) : mmu720ae :=
  if level then update_irq (s <| m_core ::= core_reset |>) else s.

(** [mmu720ae.cc: "mmu720ae::mmu720ae(sc_core::sc_module_name name)" .. "reset.register_value_changed_cb("] *)
Definition initial : mmu720ae := MkMmu new_core 0 [].

(** [mmu720ae.cc: trace_access] *)
Definition trace_access (s : mmu720ae) : mmu720ae :=
  if negb (p_trace cfg) || (p_trace_limit cfg <=? m_trace_count s) then s
  else s <| m_trace_count ::= fun n => u32 (n + 1) |>.

(** [mmu720ae.cc: access_registers] *)
Definition access_registers (debug : bool) (s : mmu720ae) (t : tlm_payload) : mmu720ae * tlm_payload * bool :=
  let len := data_length t in
  let data := data_ptr t in
  let '(status, s, t) :=
    match command t with
    | TLM_READ_COMMAND =>
        let '(status, data) := core_read (address t) data len (m_core s) in
        (status, s, t <| data_ptr := data |>)
    | TLM_WRITE_COMMAND =>
        let '(status, c) := core_write (address t) data len (m_core s) in (status, s <| m_core := c |>, t)
    | TLM_IGNORE_COMMAND => (command_error, s, t)
    end in
  match status with
  | ok => (update_irq (trace_access s), t <| response_status := TLM_OK_RESPONSE |>, true)
  | address_error => (s, t <| response_status := TLM_ADDRESS_ERROR_RESPONSE |>, false)
  | command_error => (s, t <| response_status := TLM_COMMAND_ERROR_RESPONSE |>, false)
  end.

(** [mmu720ae.cc: b_transport] *)
Definition b_transport (s : mmu720ae) (t : tlm_payload) : mmu720ae * tlm_payload :=
  target_b_transport access_registers s t.

(** [mmu720ae.cc: transport_dbg] *)
Definition transport_dbg (s : mmu720ae) (t : tlm_payload) : mmu720ae * tlm_payload * Z :=
  target_transport_dbg access_registers s t.

(** [mmu720ae.cc: clamp_sid] *)
Definition clamp_sid (sid : Z) : Z := Z.land sid 0xff.

(** The stream id of a request and whether it is the socket's default. *)
(** [mmu720ae.cc: request_sid_or_default] *)
Definition request_sid_or_default (attrs : option request_attrs_extension) (default_sid : Z) : Z * bool :=
  match attrs with
  | Some a => if sid_valid a then (clamp_sid (sid a), false) else (clamp_sid default_sid, true)
  | None => (clamp_sid default_sid, true)
  end.

(** The targets behind [downstream_socket] and [ptw_socket] share the rest of
    the system, [B]. *)
Section system.
Context {B : Type} (downstream ptw : TlmTarget B).

(** [mmu720ae.cc: forward_bypass] *)
Definition forward_bypass (debug : bool) (b : B) (t : tlm_payload) : B * tlm_payload * bool :=
  if debug then
    let '(b, t, done_) := target_transport_dbg (tlm_access (TlmTarget := downstream)) b t in
    (b, t, done_ =? data_length t)
  else
    let '(b, t) := target_b_transport (tlm_access (TlmTarget := downstream)) b t in
    (b, t, is_response_ok t).

(** [mmu720ae.cc: write_event_record] *)
Definition write_event_record (record : event_record) (address : Z) (b : B) : B * bool :=
  let data := flat_map (le_bytes 8) record in
  let '(b, t) := target_b_transport (tlm_access (TlmTarget := ptw)) b
                   (write_request address EVTQ_ENT_BYTES data) in
  (b, is_response_ok t).

(** [mmu720ae.cc: record_unimplemented_translation_fault] *)
Definition record_unimplemented_translation_fault (t : tlm_payload) (sid : Z) (fallback_sid : bool)
    (sb : mmu720ae * B) : mmu720ae * B :=
  let '(s, b) := sb in
  let event_sid := clamp_sid sid in
  let s := s <| m_core ::= record_tbu_request_sid event_sid fallback_sid |> in
  let read := bool_decide (command t = TLM_READ_COMMAND) in
  match build_translation_fault_event (address t) read event_sid (m_core s) with
  | None => (update_irq (s <| m_core ::= record_event_queue_abort |>), b)
  | Some (record, write_address) =>
      let '(b, written) := write_event_record record write_address b in
      (update_irq (s <| m_core ::= complete_event_queue_write written |>), b)
  end.

(** [mmu720ae.cc: tbu_b_transport_with_sid] *)
Definition tbu_b_transport_with_sid (sid : Z) (attrs : option request_attrs_extension)
    (sb : mmu720ae * B) (t : tlm_payload) : (mmu720ae * B) * tlm_payload :=
  let '(s, b) := sb in
  let '(request_sid, fallback_sid) := request_sid_or_default attrs sid in
  if smmu_enabled (m_core s) then
    let '(s, b) := record_unimplemented_translation_fault t request_sid fallback_sid (s, b) in
    let t := t <| dmi_allowed := false |> in
    ((update_irq s, b), t <| response_status := TLM_COMMAND_ERROR_RESPONSE |>)
  else
    let '(b, t, _) := forward_bypass false b t in ((s, b), t).

(** [mmu720ae.cc: tbu_transport_dbg_with_sid] *)
Definition tbu_transport_dbg_with_sid (sid : Z) (attrs : option request_attrs_extension)
    (sb : mmu720ae * B) (t : tlm_payload) : (mmu720ae * B) * tlm_payload * Z :=
  let '(s, b) := sb in
  if smmu_enabled (m_core s) then
    let '(request_sid, fallback_sid) := request_sid_or_default attrs sid in
    let s := s <| m_core ::= record_tbu_request_sid request_sid fallback_sid |> in
    ((s, b), t <| response_status := TLM_COMMAND_ERROR_RESPONSE |>, 0)
  else
    let '(b, t, done_) := forward_bypass true b t in
    ((s, b), t, if done_ then data_length t else 0).

(** [mmu720ae.cc: tbu_b_transport] *)
Definition tbu_b_transport := tbu_b_transport_with_sid (p_tbu_ace1_default_sid cfg).
(** [mmu720ae.cc: tbu_ace1_b_transport] *)
Definition tbu_ace1_b_transport := tbu_b_transport_with_sid (p_tbu_ace1_default_sid cfg).
(** [mmu720ae.cc: tbu_ace2_b_transport] *)
Definition tbu_ace2_b_transport := tbu_b_transport_with_sid (p_tbu_ace2_default_sid cfg).
(** [mmu720ae.cc: tbu_lti00_b_transport] *)
Definition tbu_lti00_b_transport := tbu_b_transport_with_sid (p_tbu_lti00_default_sid cfg).
(** [mmu720ae.cc: tbu_lti01_b_transport] *)
Definition tbu_lti01_b_transport := tbu_b_transport_with_sid (p_tbu_lti01_default_sid cfg).
(** [mmu720ae.cc: tbu_lti02_b_transport] *)
Definition tbu_lti02_b_transport := tbu_b_transport_with_sid (p_tbu_lti02_default_sid cfg).
(** [mmu720ae.cc: tbu_transport_dbg] *)
Definition tbu_transport_dbg := tbu_transport_dbg_with_sid (p_tbu_ace1_default_sid cfg).
(** [mmu720ae.cc: tbu_ace1_transport_dbg] *)
Definition tbu_ace1_transport_dbg := tbu_transport_dbg_with_sid (p_tbu_ace1_default_sid cfg).
(** [mmu720ae.cc: tbu_ace2_transport_dbg] *)
Definition tbu_ace2_transport_dbg := tbu_transport_dbg_with_sid (p_tbu_ace2_default_sid cfg).
(** [mmu720ae.cc: tbu_lti00_transport_dbg] *)
Definition tbu_lti00_transport_dbg := tbu_transport_dbg_with_sid (p_tbu_lti00_default_sid cfg).
(** [mmu720ae.cc: tbu_lti01_transport_dbg] *)
Definition tbu_lti01_transport_dbg := tbu_transport_dbg_with_sid (p_tbu_lti01_default_sid cfg).
(** [mmu720ae.cc: tbu_lti02_transport_dbg] *)
Definition tbu_lti02_transport_dbg := tbu_transport_dbg_with_sid (p_tbu_lti02_default_sid cfg).
End system.
End mmu720ae.
