(* ===== verification/MmuQueue.v ===== *)
(** The event queue of the memory management unit (Mmu720ae): while the unit is
    on, the faults it reports and the entries its driver takes make the queue in
    memory a bounded first-in first-out queue.  Models nothing; see Mmu720ae for
    the definitions. *)

From S2P Require Import Prelude Bytes Tlm Memory Access Mmu720ae.

Create HintDb mmu.

(** * Queue pointers

    A pointer of a queue of [2^L] entries is an index with a wrap bit above it,
    a number modulo [2 * 2^L]. *)

Section pointers.
Context (L : Z) (HL : 0 < L < 31).
Let N := 2 ^ L.

Lemma queue_size_pos : 2 <= N /\ N * 2 <= 2 ^ 31.
Proof using HL.
  subst N. split; [apply (Z.pow_le_mono_r 2 1 L); lia|].
  rewrite Z.mul_comm, <-Z.pow_succ_r by lia. apply Z.pow_le_mono_r; lia.
Qed.

Lemma shl_1_size : shl 32 1 L = N.
Proof using HL.
  unfold shl. rewrite Z.shiftl_1_l. apply wrap_small. pose proof queue_size_pos. subst N. split; lia.
Qed.

Lemma land_index p : Z.land p (u32 (shl 32 1 L - 1)) = p mod N.
Proof using HL.
  rewrite shl_1_size. pose proof queue_size_pos. rewrite wrap_small by (split; lia).
  subst N. rewrite <-Z.land_ones by lia. rewrite Z.ones_equiv. done.
Qed.

Lemma land_wrap_bit p : 0 <= p < 2 * N -> Z.land p (shl 32 1 L) = p / N * N.
Proof using HL.
  intros Hp. rewrite shl_1_size. pose proof queue_size_pos.
  assert (Z.land p N = if Z.testbit p L then N else 0) as ->.
  { subst N. rewrite <-Z.shiftl_1_l. fold (bit L). apply Z.bits_inj'. intros i Hi.
    rewrite Z.land_spec, bit_testbit by lia. destruct (Z.eqb_spec i L) as [->|Hne].
    - rewrite andb_true_r. destruct (Z.testbit p L); [by rewrite bit_testbit, Z.eqb_refl by lia|by rewrite Z.bits_0].
    - rewrite andb_false_r. destruct (Z.testbit p L); [|by rewrite Z.bits_0].
      rewrite bit_testbit by lia. by destruct (Z.eqb_spec i L). }
  rewrite Z.testbit_odd, Z.shiftr_div_pow2 by lia. fold N.
  assert (0 <= p / N < 2) by (split; [apply Z.div_pos; lia|apply Z.div_lt_upper_bound; lia]).
  assert (p / N = 0 \/ p / N = 1) as [-> | ->] by lia; cbn [Z.odd]; lia.
Qed.

Lemma pointer_split p : 0 <= p < 2 * N -> p = p / N * N + p mod N /\ (p / N = 0 \/ p / N = 1).
Proof using HL.
  intros Hp. pose proof queue_size_pos. split; [pose proof (Z.div_mod p N); lia|].
  assert (0 <= p / N < 2) by (split; [apply Z.div_pos; lia|apply Z.div_lt_upper_bound; lia]). lia.
Qed.

(** Index equal and wrap bit different means a whole queue apart. *)
Lemma queue_full_iff p c : 0 <= p < 2 * N -> 0 <= c < 2 * N ->
  (p mod N =? c mod N) && negb (p / N * N =? c / N * N) = ((p - c) mod (2 * N) =? N).
Proof using HL.
  intros Hp Hc. pose proof queue_size_pos.
  destruct (pointer_split p Hp) as [Ep Hqp], (pointer_split c Hc) as [Ec Hqc].
  pose proof (Z.mod_pos_bound p N ltac:(lia)). pose proof (Z.mod_pos_bound c N ltac:(lia)).
  assert ((p - c) mod (2 * N) = p - c \/ (p - c) mod (2 * N) = p - c + 2 * N) as Hm.
  { destruct (Z.lt_ge_cases p c).
    - right. rewrite <-(Z.mod_add (p - c) 1) by lia. rewrite Z.mod_small; lia.
    - left. apply Z.mod_small. lia. }
  assert (0 <= (p - c) mod (2 * N) < 2 * N) by (apply Z.mod_pos_bound; lia).
  destruct Hqp as [Eq | Eq], Hqc as [Eq' | Eq']; rewrite Eq, Eq' in *; destruct Hm as [Em | Em]; rewrite Em in *; lia.
Qed.

Lemma queue_next p : 0 <= p < 2 * N ->
  (if u32 (p mod N + 1) =? N then Z.lor (Z.lxor (p / N * N) N) 0 else Z.lor (p / N * N) (u32 (p mod N + 1)))
  = (p + 1) mod (2 * N).
Proof using HL.
  intros Hp. pose proof queue_size_pos. destruct (pointer_split p Hp) as [Ep Hqp].
  pose proof (Z.mod_pos_bound p N ltac:(lia)). rewrite wrap_small by (split; lia).
  destruct (Z.eqb_spec (p mod N + 1) N) as [E|E].
  - rewrite Z.lor_0_r. destruct Hqp as [Eq|Eq]; rewrite Eq in *.
    + rewrite Z.lxor_0_l, Z.mod_small; lia.
    + replace (1 * N) with N by lia. rewrite Z.lxor_nilpotent. replace (p + 1) with (2 * N) by lia. by rewrite Z.mod_same by lia.
  - rewrite (Z.mod_small (p + 1)) by (destruct Hqp as [Eq|Eq]; rewrite Eq in *; lia). destruct Hqp as [Eq|Eq]; rewrite Eq in *; [rewrite Z.lor_0_l; lia|].
    replace (1 * N) with N by lia. transitivity (N + (p mod N + 1)); [|lia]. symmetry.
    rewrite <-Z.lxor_lor, Z.add_nocarry_lxor; [done| |]; apply Z.bits_inj'; intros i Hi.
    all: rewrite Z.land_spec, Z.bits_0; subst N; rewrite Z.pow2_bits_eqb by lia;
      destruct (Z.eqb_spec L i) as [<-|]; [|done]; cbn [andb];
      apply (uint_testbit_high L); [split; lia|lia].
Qed.
End pointers.

(** * Register words of the core *)

Lemma core_load32_store_eq off v c : is_u32 v -> 0 <= off -> off + 4 <= ARM_SMMU_REG_SZ ->
  core_load32 off (core_store32 off v c) = v.
Proof.
  unfold ARM_SMMU_REG_SZ. intros Hv H0 H1. unfold core_load32, core_store32, ARM_SMMU_REG_SZ, ARM_SMMU_PAGE1_OFFSET.
  replace ((off <? 0xe00) && (off + 4 <=? 0xe00)) with true by lia. cbn.
  rewrite load32_store32_ne by lia. by apply load32_store32_eq.
Qed.

Lemma core_load32_store_ne off off' v c : 0 <= off' -> off' + 4 <= ARM_SMMU_REG_SZ -> 0 <= off ->
  off' + 4 <= off \/ off + 4 <= off' ->
  core_load32 off' (core_store32 off v c) = core_load32 off' c.
Proof.
  unfold ARM_SMMU_REG_SZ. intros H0 H1 H2 Hd. unfold core_load32, core_store32, ARM_SMMU_REG_SZ, ARM_SMMU_PAGE1_OFFSET.
  cbv zeta. case_if; cbn; rewrite !load32_store32_ne by lia; done.
Qed.

Lemma core_load64_store_ne off off' v c : 0 <= off' -> off' + 8 <= ARM_SMMU_REG_SZ -> 0 <= off ->
  off' + 8 <= off \/ off + 4 <= off' ->
  load64 (m_regs (core_store32 off v c)) off' = load64 (m_regs c) off'.
Proof.
  unfold ARM_SMMU_REG_SZ. intros H0 H1 H2 Hd. unfold load64, core_store32, ARM_SMMU_REG_SZ, ARM_SMMU_PAGE1_OFFSET.
  cbv zeta. case_if; cbn; unfold store32; rewrite !mem_read_write_ne by (rewrite ?le_bytes_length; lia); done.
Qed.

(** The registers a queue operation leaves alone. *)
Record queue_frame (c c' : core) : Prop := {
  frame_cr0ack : core_load32 ARM_SMMU_CR0ACK c' = core_load32 ARM_SMMU_CR0ACK c;
  frame_irq_ctrl : core_load32 ARM_SMMU_IRQ_CTRL c' = core_load32 ARM_SMMU_IRQ_CTRL c;
  frame_base : load64 (m_regs c') ARM_SMMU_EVTQ_BASE = load64 (m_regs c) ARM_SMMU_EVTQ_BASE
}.

#[export] Instance queue_frame_preorder : PreOrder queue_frame.
Proof. split; [by intros c|]. intros c c' c'' [? ? ?] [? ? ?]. split; congruence. Qed.

Lemma frame_regs c c' : m_regs c' = m_regs c -> queue_frame c c'.
Proof. intros E. split; unfold core_load32; by rewrite E. Qed.

(** The registers a queue operation writes: its pointers and the error words. *)
Definition queue_register (off : Z) : bool :=
  existsb (Z.eqb off) [ARM_SMMU_GERROR; ARM_SMMU_GERRORN; ARM_SMMU_EVTQ_PROD; ARM_SMMU_EVTQ_CONS].

Lemma mmu_frame_store off v c : queue_register off = true -> queue_frame c (core_store32 off v c).
Proof.
  intros H. assert (0x60 <= off < 0x68 \/ 0xa8 <= off < 0xb0) as Hr.
  { unfold queue_register, ARM_SMMU_GERROR, ARM_SMMU_GERRORN, ARM_SMMU_EVTQ_PROD, ARM_SMMU_EVTQ_CONS in H.
    cbn [existsb] in H. lia. }
  split; first [apply core_load32_store_ne|apply core_load64_store_ne];
    unfold ARM_SMMU_CR0ACK, ARM_SMMU_IRQ_CTRL, ARM_SMMU_EVTQ_BASE, ARM_SMMU_REG_SZ; lia.
Qed.

Lemma frame_update_irq c : queue_frame c (core_update_irq c).
Proof. by apply frame_regs. Qed.

#[export] Hint Resolve frame_update_irq : mmu.

Section frame_uses.
Context (c c' : core) (H : queue_frame c c').

Lemma frame_log2 : event_queue_log2_entries c' = event_queue_log2_entries c.
Proof. unfold event_queue_log2_entries. by rewrite (frame_base _ _ H). Qed.

Lemma frame_queue_base : event_queue_base c' = event_queue_base c.
Proof. unfold event_queue_base. by rewrite (frame_base _ _ H). Qed.

Lemma frame_configured : event_queue_configured c' = event_queue_configured c.
Proof. unfold event_queue_configured, event_queue_enabled. by rewrite frame_log2, frame_queue_base, (frame_cr0ack _ _ H). Qed.

Lemma frame_enabled : smmu_enabled c' = smmu_enabled c.
Proof. unfold smmu_enabled. by rewrite (frame_cr0ack _ _ H). Qed.
End frame_uses.

(** * The queue *)

Definition queue_size (c : core) : Z := 2 ^ event_queue_log2_entries c.
Definition prod_pointer (c : core) : Z := core_load32 ARM_SMMU_EVTQ_PROD c.
Definition cons_pointer (c : core) : Z := core_load32 ARM_SMMU_EVTQ_CONS c.
Definition queue_len (c : core) : Z := (prod_pointer c - cons_pointer c) mod (2 * queue_size c).

(** The entries between the consumer and the producer, oldest first. *)
Definition entry_address (c : core) (k : Z) : Z := event_queue_base c + (k mod queue_size c) * EVTQ_ENT_BYTES.
Definition queue_entries (c : core) (m : mem) : list (list Z) :=
  map (fun k => mem_read m (entry_address c (cons_pointer c + k)) EVTQ_ENT_BYTES) (range (queue_len c)).

(** The queue is configured, its pointers are pointers of it, no more than its
    size apart, and it does not wrap around the address space. *)
Record queue_ok (c : core) : Prop := {
  ok_configured : event_queue_configured c = true;
  ok_prod : 0 <= prod_pointer c < 2 * queue_size c;
  ok_cons : 0 <= cons_pointer c < 2 * queue_size c;
  ok_len : queue_len c <= queue_size c;
  ok_end : event_queue_base c + queue_size c * EVTQ_ENT_BYTES < 2 ^ 64
}.

Lemma configured_log2 c : event_queue_configured c = true -> 0 < event_queue_log2_entries c < 31.
Proof. unfold event_queue_configured. intros. bool_hyps. lia. Qed.

Lemma queue_base_nonneg c : 0 <= event_queue_base c.
Proof. apply Z.land_nonneg. by right. Qed.

Lemma queue_len_nonneg c : event_queue_configured c = true -> 0 <= queue_len c.
Proof.
  intros Hc. pose proof (queue_size_pos _ (configured_log2 c Hc)). apply Z.mod_pos_bound. unfold queue_size. lia.
Qed.

Lemma queue_full_spec c : queue_ok c -> event_queue_full c = (queue_len c =? queue_size c).
Proof.
  intros [Hc Hp Hk _ _]. unfold event_queue_full, event_queue_index, event_queue_wrap. rewrite Hc.
  fold (prod_pointer c) (cons_pointer c). pose proof (configured_log2 c Hc).
  cbn [negb]. cbv zeta. rewrite !land_index, !land_wrap_bit by done. by apply queue_full_iff.
Qed.

Lemma queue_pending_spec c : queue_ok c -> event_queue_pending c = (0 <? queue_len c).
Proof.
  intros [Hc Hp Hk _ _]. unfold event_queue_pending. rewrite Hc. fold (prod_pointer c) (cons_pointer c). cbn [negb].
  pose proof (queue_len_nonneg c Hc). unfold queue_len in *.
  destruct (Z.eqb_spec (prod_pointer c) (cons_pointer c)) as [->|Hne]; [by rewrite Z.sub_diag, Z.mod_0_l by lia|].
  cbn [negb]. symmetry. apply Z.ltb_lt.
  enough ((prod_pointer c - cons_pointer c) mod (2 * queue_size c) <> 0) by lia.
  intros [q Hq]%Z.mod_divide; [|lia]. set (d := 2 * queue_size c) in *.
  assert (q < 1) by nia. assert (-1 < q) by nia. assert (q = 0) as -> by lia. lia.
Qed.

Lemma queue_next_spec c : queue_ok c ->
  event_queue_next_prod c = (prod_pointer c + 1) mod (2 * queue_size c).
Proof.
  intros [Hc Hp Hk _ _]. pose proof (configured_log2 c Hc). unfold event_queue_next_prod.
  fold (prod_pointer c). cbv zeta. rewrite land_index, land_wrap_bit, !shl_1_size by done.
  by apply queue_next.
Qed.

Lemma prod_entry_spec c : queue_ok c -> event_queue_prod_entry_address c = entry_address c (prod_pointer c).
Proof.
  intros [Hc Hp Hk _ He]. pose proof (configured_log2 c Hc). unfold event_queue_prod_entry_address, event_queue_index.
  fold (prod_pointer c). cbv zeta. rewrite land_index by done. fold (queue_size c). unfold entry_address.
  pose proof (queue_base_nonneg c). pose proof (queue_size_pos _ (configured_log2 c Hc)). fold (queue_size c) in *.
  pose proof (Z.mod_pos_bound (prod_pointer c) (queue_size c) ltac:(lia)). unfold EVTQ_ENT_BYTES, EVTQ_ENT_DWORDS in *.
  apply wrap_small. split; lia.
Qed.

Lemma mod_double a k n : 0 < n -> (a mod (2 * n) + k) mod n = (a + k) mod n.
Proof.
  intros Hn. rewrite <-Z.add_mod_idemp_l, Z.mod_mod_divide, Z.add_mod_idemp_l by (try lia; by exists 2). done.
Qed.

Lemma entry_address_eq c c' k k' : queue_frame c c' -> k' mod queue_size c = k mod queue_size c ->
  entry_address c' k' = entry_address c k.
Proof.
  intros Hf E. unfold entry_address, queue_size in *. by rewrite (frame_queue_base _ _ Hf), (frame_log2 _ _ Hf), E.
Qed.

(** Different places of the queue do not overlap. *)
Lemma entry_disjoint c k k' : 0 < queue_size c -> k mod queue_size c <> k' mod queue_size c ->
  entry_address c k + EVTQ_ENT_BYTES <= entry_address c k' \/ entry_address c k' + EVTQ_ENT_BYTES <= entry_address c k.
Proof. intros Hs Hne. unfold entry_address, EVTQ_ENT_BYTES, EVTQ_ENT_DWORDS. lia. Qed.

Lemma mod_distinct a k k' n : 0 < n -> 0 < k' - k < n -> (a + k) mod n <> (a + k') mod n.
Proof.
  intros Hn Hk E. assert ((k' - k) mod n = 0) as H0.
  { replace (k' - k) with (a + k' - (a + k)) by lia. by rewrite Zminus_mod, <-E, Z.sub_diag, Z.mod_0_l by lia. }
  rewrite Z.mod_small in H0; lia.
Qed.

(** A record written at the producer's place and the producer advanced. *)
Lemma queue_push c c' m record : queue_ok c -> queue_len c < queue_size c ->
  queue_frame c c' -> cons_pointer c' = cons_pointer c ->
  prod_pointer c' = (prod_pointer c + 1) mod (2 * queue_size c) ->
  Z.of_nat (length record) = EVTQ_ENT_BYTES ->
  queue_ok c' /\ queue_len c' = queue_len c + 1 /\
  queue_entries c' (mem_write (entry_address c (prod_pointer c)) record m) = queue_entries c m ++ [record].
Proof.
  intros [Hc Hp Hk Hl He] Hroom Hf Ek Ep Hr. pose proof (queue_size_pos _ (configured_log2 c Hc)) as Hs.
  pose proof (queue_len_nonneg c Hc) as H0. fold (queue_size c) in Hs.
  assert (queue_size c' = queue_size c) as Es by (unfold queue_size; by rewrite (frame_log2 _ _ Hf)).
  assert (queue_len c' = queue_len c + 1) as El.
  { unfold queue_len in *. rewrite Es, Ek, Ep, Zminus_mod_idemp_l.
    replace (_ + 1 - _) with (prod_pointer c - cons_pointer c + 1) by lia.
    rewrite <-Z.add_mod_idemp_l by lia. apply Z.mod_small. lia. }
  split; [|split; [done|]].
  { split; rewrite ?Es, ?Ek, ?Ep, ?(frame_configured _ _ Hf), ?(frame_queue_base _ _ Hf); try done; [|lia].
    apply Z.mod_pos_bound. lia. }
  unfold queue_entries. rewrite El, Ek. unfold range. rewrite seqZ_app, map_app, Z.add_0_l by lia.
  assert (prod_pointer c mod queue_size c = (cons_pointer c + queue_len c) mod queue_size c) as Epc.
  { unfold queue_len. rewrite Z.add_comm, mod_double by lia. f_equal. lia. }
  f_equal.
  - apply map_ext_in. intros k Hin. apply list_elem_of_In, elem_of_seqZ in Hin.
    rewrite (entry_address_eq c c' _ _ Hf eq_refl), mem_read_write_ne; [done|]. rewrite Hr.
    destruct (entry_disjoint c (cons_pointer c + k) (prod_pointer c)); [lia| |lia|lia].
    rewrite Epc. apply mod_distinct; lia.
  - change (seqZ (queue_len c) 1) with [queue_len c]. cbn [map].
    by rewrite (entry_address_eq c c' (prod_pointer c)), mem_read_write_eq by done.
Qed.

(** The consumer advanced by one. *)
Lemma queue_pop c c' m : queue_ok c -> 0 < queue_len c ->
  queue_frame c c' -> prod_pointer c' = prod_pointer c ->
  cons_pointer c' = (cons_pointer c + 1) mod (2 * queue_size c) ->
  queue_ok c' /\ queue_len c' = queue_len c - 1 /\ queue_entries c' m = drop 1 (queue_entries c m).
Proof.
  intros [Hc Hp Hk Hl He] Hne Hf Ep Ek. pose proof (queue_size_pos _ (configured_log2 c Hc)) as Hs.
  fold (queue_size c) in Hs.
  assert (queue_size c' = queue_size c) as Es by (unfold queue_size; by rewrite (frame_log2 _ _ Hf)).
  assert (queue_len c' = queue_len c - 1) as El.
  { unfold queue_len in *. rewrite Es, Ep, Ek, Zminus_mod_idemp_r.
    replace (_ - (_ + 1)) with (prod_pointer c - cons_pointer c + (-1)) by lia.
    rewrite <-Z.add_mod_idemp_l by lia. rewrite Z.mod_small by lia. lia. }
  split; [|split; [done|]].
  { split; rewrite ?Es, ?Ek, ?Ep, ?(frame_configured _ _ Hf), ?(frame_queue_base _ _ Hf); try done; [|lia].
    apply Z.mod_pos_bound. lia. }
  unfold queue_entries, range. rewrite El. replace (queue_len c) with (Z.succ (queue_len c - 1)) by lia.
  rewrite (seqZ_cons 0 (Z.succ _)) by lia. cbn [map drop]. rewrite Z.pred_succ.
  rewrite <-(fmap_add_seqZ 1 0), map_map.
  replace (Z.succ (queue_len c - 1) - 1) with (queue_len c - 1) by lia.
  apply map_ext_in. intros k Hin. rewrite (entry_address_eq c c' (cons_pointer c + (1 + k))); [done|done|].
  rewrite Ek, mod_double by lia. f_equal. lia.
Qed.

Lemma queue_entries_eq c m m' : m ≈ m' -> queue_entries c m = queue_entries c m'.
Proof. intros H. apply map_ext. intros k. by apply mem_read_proper. Qed.

Lemma queue_entries_length c m : event_queue_configured c = true ->
  Z.of_nat (length (queue_entries c m)) = queue_len c.
Proof. intros Hc. unfold queue_entries, range. rewrite length_map, length_seqZ. pose proof (queue_len_nonneg c Hc). lia. Qed.

(** * The abstract queue *)

(** A queue of records with a capacity, and the flag that a record was lost. *)
Record fifo := Fifo { entries : list (list Z); lost : bool }.

Definition fifo_put (capacity : Z) (record : list Z) (q : fifo) : fifo :=
  if Z.of_nat (length (entries q)) <? capacity then Fifo (entries q ++ [record]) (lost q)
  else Fifo (entries q) true.
Definition fifo_take (q : fifo) : fifo := Fifo (drop 1 (entries q)) (lost q).

(** The record of a translation fault: its kind and stream, the direction of the
    access, the address. *)
Definition fault_record (iova : Z) (read : bool) (stream : Z) : list Z :=
  flat_map (le_bytes 8) [EVT_ID_TRANSLATION_FAULT + stream * 2 ^ 32; if read then 2 ^ 35 else 0; iova; 0].

(** The level the interrupt line should have. *)
Definition irq_level (c : core) : bool :=
  (test (core_load32 ARM_SMMU_IRQ_CTRL c) IRQ_CTRL_GERROR_IRQEN &&
   test (core_load32 ARM_SMMU_GERROR c) GERROR_ERR_MASK) ||
  (test (core_load32 ARM_SMMU_IRQ_CTRL c) IRQ_CTRL_EVTQ_IRQEN && (0 <? queue_len c)).

Lemma core_update_irq_level c : queue_ok (core_update_irq c) ->
  m_combined_irq (core_update_irq c) = irq_level (core_update_irq c).
Proof.
  intros H. apply queue_pending_spec in H. change (event_queue_pending c = (0 <? queue_len c)) in H.
  unfold core_update_irq. cbn [m_combined_irq]. by rewrite H.
Qed.

(** * Core operations on the queue *)

Lemma queue_ok_frame c c' : queue_frame c c' -> prod_pointer c' = prod_pointer c -> cons_pointer c' = cons_pointer c ->
  queue_ok c -> queue_ok c' /\ queue_len c' = queue_len c /\ forall m, queue_entries c' m = queue_entries c m.
Proof.
  intros Hf Ep Ek [Hc Hp Hk Hl He].
  assert (queue_size c' = queue_size c) as Es by (unfold queue_size; by rewrite (frame_log2 _ _ Hf)).
  assert (queue_len c' = queue_len c) as El by (unfold queue_len; by rewrite Es, Ep, Ek).
  split; [split; rewrite ?Es, ?Ek, ?Ep, ?El, ?(frame_configured _ _ Hf), ?(frame_queue_base _ _ Hf); done|].
  split; [done|]. intros m. unfold queue_entries. rewrite El, Ek. apply map_ext. intros k.
  by rewrite (entry_address_eq c c' _ _ Hf eq_refl).
Qed.

Ltac mmu_consts := unfold prod_pointer, cons_pointer, ARM_SMMU_EVTQ_PROD, ARM_SMMU_EVTQ_CONS, ARM_SMMU_GERROR,
  ARM_SMMU_GERRORN, ARM_SMMU_REG_SZ in *.

(** A record that was written. *)
Lemma complete_written c m record : queue_ok c -> queue_len c < queue_size c ->
  Z.of_nat (length record) = EVTQ_ENT_BYTES ->
  let c' := complete_event_queue_write true c in
  queue_frame c c' /\ queue_ok c' /\ core_load32 ARM_SMMU_GERROR c' = core_load32 ARM_SMMU_GERROR c /\
  m_combined_irq c' = irq_level c' /\
  queue_entries c' (mem_write (event_queue_prod_entry_address c) record m) = queue_entries c m ++ [record].
Proof.
  intros Hok Hroom Hr. cbv zeta. unfold complete_event_queue_write. cbn [negb].
  set (c1 := c <| m_event_record_count ::= next64 |>).
  assert (queue_ok c1) as Hok1 by (apply (queue_ok_frame c); [by apply frame_regs|done..]).
  assert (event_queue_next_prod c1 = (prod_pointer c + 1) mod (2 * queue_size c)) as En by (by apply (queue_next_spec c1)).
  pose proof (queue_size_pos _ (configured_log2 c (ok_configured _ Hok))) as Hs. fold (queue_size c) in Hs.
  assert (is_u32 (event_queue_next_prod c1)) as Hu.
  { rewrite En. pose proof (Z.mod_pos_bound (prod_pointer c + 1) (2 * queue_size c) ltac:(lia)). split; lia. }
  set (c2 := core_store32 ARM_SMMU_EVTQ_PROD (event_queue_next_prod c1) c1).
  assert (queue_frame c c2) as Hf by (transitivity c1; [by apply frame_regs|by apply mmu_frame_store]).
  assert (core_load32 ARM_SMMU_GERROR c2 = core_load32 ARM_SMMU_GERROR c) as Eg.
  { unfold c2. rewrite core_load32_store_ne; [done|mmu_consts; lia..]. }
  destruct (queue_push c (core_update_irq c2) m record Hok Hroom) as (Hok2 & _ & Hentries); [transitivity c2; eauto with mmu| | |done|].
  { change (cons_pointer c2 = cons_pointer c1). unfold c2, cons_pointer. apply core_load32_store_ne; mmu_consts; lia. }
  { change (prod_pointer c2 = (prod_pointer c + 1) mod (2 * queue_size c)). rewrite <-En. unfold c2, prod_pointer.
    apply core_load32_store_eq; [done|mmu_consts; lia..]. }
  split; [transitivity c2; eauto with mmu|]. split; [done|]. split; [done|]. split; [by apply core_update_irq_level|].
  by rewrite prod_entry_spec.
Qed.

(** A record that could not be written, or was not. *)
Lemma record_lost c : queue_ok c -> is_u32 (core_load32 ARM_SMMU_GERROR c) ->
  let c' := record_event_queue_abort c in
  queue_frame c c' /\ queue_ok c' /\
  core_load32 ARM_SMMU_GERROR c' = Z.lor (core_load32 ARM_SMMU_GERROR c) GERROR_EVTQ_ABT_ERR /\
  m_combined_irq c' = irq_level c' /\ forall m, queue_entries c' m = queue_entries c m.
Proof.
  intros Hok Hg. cbv zeta. unfold record_event_queue_abort.
  set (c1 := c <| m_event_queue_abort_count ::= next64 |>).
  set (c2 := core_store32 ARM_SMMU_GERROR _ c1). set (v := Z.land GERROR_ERR_MASK _).
  set (c3 := core_store32 ARM_SMMU_GERRORN v c2).
  assert (queue_frame c c3) as Hf.
  { transitivity c1; [by apply frame_regs|]. transitivity c2; by apply mmu_frame_store. }
  assert (core_load32 ARM_SMMU_GERROR c3 = Z.lor (core_load32 ARM_SMMU_GERROR c) GERROR_EVTQ_ABT_ERR) as Eg.
  { unfold c3. rewrite core_load32_store_ne by (mmu_consts; lia). unfold c2.
    rewrite core_load32_store_eq; [done|change (core_load32 _ c1) with (core_load32 ARM_SMMU_GERROR c); eauto with uint|mmu_consts; lia..]. }
  destruct (queue_ok_frame c (core_update_irq c3)) as (Hok3 & _ & Hentries); [transitivity c3; eauto with mmu| | |done|].
  { change (prod_pointer c3 = prod_pointer c1). unfold c3, c2, prod_pointer. rewrite !core_load32_store_ne by (mmu_consts; lia). done. }
  { change (cons_pointer c3 = cons_pointer c1). unfold c3, c2, cons_pointer. rewrite !core_load32_store_ne by (mmu_consts; lia). done. }
  split; [transitivity c3; eauto with mmu|]. split; [done|]. split; [done|]. split; [by apply core_update_irq_level|done].
Qed.

(** The consumer's register write. *)
Lemma consumer_write c v : queue_ok c -> v = (cons_pointer c + 1) mod (2 * queue_size c) -> 0 < queue_len c ->
  let c' := core_write32 ARM_SMMU_EVTQ_CONS v c in
  queue_frame c c' /\ queue_ok c' /\ core_load32 ARM_SMMU_GERROR c' = core_load32 ARM_SMMU_GERROR c /\
  m_combined_irq c' = irq_level c' /\ forall m, queue_entries c' m = drop 1 (queue_entries c m).
Proof.
  intros Hok Ev Hne. cbv zeta. change (core_write32 ARM_SMMU_EVTQ_CONS v c) with
    (core_update_irq (core_store32 ARM_SMMU_EVTQ_CONS v c)).
  set (c2 := core_store32 ARM_SMMU_EVTQ_CONS v c).
  pose proof (queue_size_pos _ (configured_log2 c (ok_configured _ Hok))) as Hs. fold (queue_size c) in Hs.
  assert (is_u32 v) as Hu.
  { rewrite Ev. pose proof (Z.mod_pos_bound (cons_pointer c + 1) (2 * queue_size c) ltac:(lia)). split; lia. }
  assert (queue_frame c c2) as Hf by (by apply mmu_frame_store).
  assert (core_load32 ARM_SMMU_GERROR c2 = core_load32 ARM_SMMU_GERROR c) as Eg.
  { unfold c2. rewrite core_load32_store_ne; [done|mmu_consts; lia..]. }
  assert (prod_pointer (core_update_irq c2) = prod_pointer c) as Ep.
  { change (prod_pointer c2 = prod_pointer c). unfold c2, prod_pointer. apply core_load32_store_ne; mmu_consts; lia. }
  assert (cons_pointer (core_update_irq c2) = (cons_pointer c + 1) mod (2 * queue_size c)) as Ek.
  { change (cons_pointer c2 = (cons_pointer c + 1) mod (2 * queue_size c)). rewrite <-Ev. unfold c2, cons_pointer.
    apply core_load32_store_eq; [done|mmu_consts; lia..]. }
  assert (queue_frame c (core_update_irq c2)) as Hf' by (transitivity c2; eauto with mmu).
  pose proof (fun m => queue_pop c (core_update_irq c2) m Hok Hne Hf' Ep Ek) as Hpop.
  destruct (Hpop ∅) as (Hok2 & _ & _).
  split; [done|]. split; [done|]. split; [done|]. split; [by apply core_update_irq_level|]. apply Hpop.
Qed.

(** * The unit, its memory and its driver *)

(** An aligned register word written through the socket. *)
Lemma core_write_word c off v : 0 <= off -> off mod 4 = 0 -> off + 4 <= ARM_SMMU_REG_SZ -> is_u32 v ->
  core_write off (Some (le_bytes 4 v)) 4 c = (ok, core_write32 off v c).
Proof.
  intros H0 Hal H1 Hv. unfold ARM_SMMU_REG_SZ in H1.
  assert (normalize_offset off 4 = Some off) as En.
  { unfold normalize_offset, ARM_SMMU_PAGE1_OFFSET, ARM_SMMU_REG_SZ. change (supported_length 4) with true. cbv zeta.
    replace ((0x10000 <=? off) && (off <? 0x10000 + 0xe00)) with false by lia.
    rewrite (wrap_small 64) by (split; lia). replace (0xe00 <? off + 4) with false by lia.
    cbn [negb]. by rewrite (wrap_small 32 off) by (split; lia). }
  unfold core_write. rewrite En, Hal. change (get_data 4 (le_bytes 4 v)) with (le_bytes 4 v).
  rewrite le_val_bytes. change (8 * Z.of_nat 4) with 32. by rewrite wrap_small.
Qed.

Lemma register_write cfg s off v : 0 <= off -> off mod 4 = 0 -> off + 4 <= ARM_SMMU_REG_SZ -> is_u32 v ->
  fst (b_transport cfg s (write_txn off v)) =
  update_irq cfg (trace_access cfg (s <| m_core ::= core_write32 off v |>)).
Proof.
  intros H0 Hal H1 Hv. unfold b_transport, target_b_transport, access_registers.
  change (command (_ <| dmi_allowed := false |>)) with TLM_WRITE_COMMAND.
  change (data_ptr (_ <| dmi_allowed := false |>)) with (Some (le_bytes 4 v)).
  change (data_length (_ <| dmi_allowed := false |>)) with 4.
  change (address (_ <| dmi_allowed := false |>)) with off. by rewrite core_write_word.
Qed.

Lemma flat_record iova (read : bool) stream : 0 <= stream < 256 ->
  flat_map (le_bytes 8)
    [Z.lor (Z.land EVT_ID_TRANSLATION_FAULT EVTQ_0_ID_MASK) (shl 64 stream EVTQ_0_SID_SHIFT);
     if read then Z.lor 0 (shl 64 1 EVTQ_1_RNW_SHIFT) else 0; iova; 0] = fault_record iova read stream.
Proof.
  intros Hs. unfold fault_record. assert (Z.lor (Z.land EVT_ID_TRANSLATION_FAULT EVTQ_0_ID_MASK)
    (shl 64 stream EVTQ_0_SID_SHIFT) = EVT_ID_TRANSLATION_FAULT + stream * 2 ^ 32) as ->; [|by destruct read].
  unfold shl, EVTQ_0_SID_SHIFT. rewrite Z.shiftl_mul_pow2, wrap_small by (try lia; split; lia).
  change (Z.land EVT_ID_TRANSLATION_FAULT EVTQ_0_ID_MASK) with 16. change EVT_ID_TRANSLATION_FAULT with 16.
  rewrite <-Z.lxor_lor, Z.add_nocarry_lxor; [done| |]; rewrite <-Z.shiftl_mul_pow2 by lia; apply Z.bits_inj'; intros i Hi;
    rewrite Z.land_spec, Z.shiftl_spec, Z.bits_0 by lia; change 16 with (bit 4); rewrite bit_testbit by lia;
    destruct (Z.eqb_spec i 4) as [->|]; [|done|..]; cbn [andb]; by rewrite ?Z.testbit_neg_r by lia.
Qed.

Section fifo.
Context {B : Type} (downstream ptw : TlmTarget B) {mb : MemoryBus B (bus := ptw)} (cfg : mmu_config).

(** What the driver does to take an entry: it compares the pointers, and moves
    the consumer on if they differ. *)
Definition driver_take (s : mmu720ae) : mmu720ae :=
  let c := m_core s in
  if prod_pointer c =? cons_pointer c then s
  else fst (b_transport cfg s (write_txn ARM_SMMU_EVTQ_CONS ((cons_pointer c + 1) mod (2 * queue_size c)))).

(** A request at a translation socket with default stream [sid], the same as a
    debug request, and the driver taking an entry. *)
Inductive mmu_op :=
| Request (sid : Z) (attrs : option request_attrs_extension) (t : tlm_payload)
| DebugRequest (sid : Z) (attrs : option request_attrs_extension) (t : tlm_payload)
| Take.

Definition mmu_run_op (sb : mmu720ae * B) (op : mmu_op) : mmu720ae * B :=
  match op with
  | Request sid attrs t => fst (tbu_b_transport_with_sid cfg downstream ptw sid attrs sb t)
  | DebugRequest sid attrs t => fst (fst (tbu_transport_dbg_with_sid downstream sid attrs sb t))
  | Take => (driver_take (fst sb), snd sb)
  end.

Definition fifo_run_op (capacity : Z) (q : fifo) (op : mmu_op) : fifo :=
  match op with
  | Request sid attrs t =>
      fifo_put capacity (fault_record (address t) (bool_decide (command t = TLM_READ_COMMAND))
        (fst (request_sid_or_default attrs sid))) q
  | DebugRequest _ _ _ => q
  | Take => fifo_take q
  end.

(** The unit with its memory implements the abstract queue, and its interrupt has
    the level it should have. *)
Record implements (base capacity : Z) (sb : mmu720ae * B) (q : fifo) : Prop := {
  impl_enabled : smmu_enabled (m_core (fst sb)) = true;
  impl_queue : queue_ok (m_core (fst sb));
  impl_base : event_queue_base (m_core (fst sb)) = base;
  impl_capacity : queue_size (m_core (fst sb)) = capacity;
  impl_gerror : is_u32 (core_load32 ARM_SMMU_GERROR (m_core (fst sb)));
  impl_entries : entries q = queue_entries (m_core (fst sb)) (bus_view (snd sb));
  impl_lost : lost q = Z.testbit (core_load32 ARM_SMMU_GERROR (m_core (fst sb))) 2;
  impl_level : m_combined_irq (m_core (fst sb)) = irq_level (m_core (fst sb))
}.

Lemma update_irq_core s : m_core (update_irq cfg s) = m_core s.
Proof. unfold update_irq. by case_if. Qed.

Lemma mmu_trace_core s : m_core (trace_access cfg s) = m_core s.
Proof. unfold trace_access. by case_if. Qed.

(** A core that a queue operation produced implements what the operation made
    of the queue. *)
Lemma implements_next base capacity s b q s' b' q' :
  implements base capacity (s, b) q -> queue_frame (m_core s) (m_core s') -> queue_ok (m_core s') ->
  is_u32 (core_load32 ARM_SMMU_GERROR (m_core s')) -> entries q' = queue_entries (m_core s') (bus_view b') ->
  lost q' = Z.testbit (core_load32 ARM_SMMU_GERROR (m_core s')) 2 ->
  m_combined_irq (m_core s') = irq_level (m_core s') -> implements base capacity (s', b') q'.
Proof.
  intros [He _ Hb Hc _ _ _ _] Hf Hok Hg Hent Hl Hirq. split; cbn [fst snd] in *; try done.
  - by rewrite (frame_enabled _ _ Hf).
  - by rewrite (frame_queue_base _ _ Hf).
  - rewrite <-Hc. unfold queue_size. by rewrite (frame_log2 _ _ Hf).
Qed.

Lemma write_event_record_view record address b : length record = 4%nat ->
  (forall k, 0 <= k < EVTQ_ENT_BYTES -> bus_serves (address + k)) ->
  let '(b', written) := write_event_record ptw record address b in
  written = true /\ bus_view b' ≈ mem_write address (flat_map (le_bytes 8) record) (bus_view b).
Proof.
  intros Hl Hs. unfold write_event_record.
  destruct record as [|d0 [|d1 [|d2 [|d3 [|]]]]]; try done. set (data := flat_map _ _).
  pose proof (bus_write b address EVTQ_ENT_BYTES data ltac:(split; [done|vm_compute; congruence]) Hs) as H.
  destruct (target_b_transport _ _ _) as [b' t']. exact H.
Qed.

(** The entries lie in memory the table-walk socket serves. *)
Definition queue_served (base capacity : Z) : Prop :=
  forall i, base <= i < base + capacity * EVTQ_ENT_BYTES -> bus_serves i.

Lemma request_sid_range attrs sid : 0 <= fst (request_sid_or_default attrs sid) < 256.
Proof.
  assert (forall x, 0 <= clamp_sid x < 256) as H.
  { intros x. apply (land_uint_r 8); [lia|by cbv]. }
  unfold request_sid_or_default. destruct attrs as [a|]; [destruct (sid_valid a)|]; apply H.
Qed.

Lemma clamp_sid_id x : 0 <= x < 256 -> clamp_sid x = x.
Proof. intros H. unfold clamp_sid. change 0xff with (Z.ones 8). rewrite Z.land_ones by lia. by apply Z.mod_small. Qed.

Lemma gerror_lost_bit g : Z.testbit (Z.lor g GERROR_EVTQ_ABT_ERR) 2 = true.
Proof. rewrite Z.lor_spec. apply orb_true_r. Qed.

(** Recording the stream of a request leaves the queue alone. *)
Lemma record_sid_step base capacity s b q sid fallback : implements base capacity (s, b) q ->
  implements base capacity (s <| m_core ::= record_tbu_request_sid sid fallback |>, b) q.
Proof.
  intros Himpl. pose proof Himpl as [_ Hok _ _ Hg Hent Hl Hirq]. cbn [fst snd] in *.
  set (s1 := s <| m_core ::= _ |>). set (c1 := m_core s1).
  assert (m_regs c1 = m_regs (m_core s)) as Er by (unfold c1, s1, record_tbu_request_sid; cbn; by destruct fallback).
  assert (m_combined_irq c1 = m_combined_irq (m_core s)) as Ei by (unfold c1, s1, record_tbu_request_sid; cbn; by destruct fallback).
  assert (queue_frame (m_core s) c1) as Hf by by apply frame_regs.
  assert (forall o, core_load32 o c1 = core_load32 o (m_core s)) as El by (intros o; unfold core_load32; by rewrite Er).
  destruct (queue_ok_frame (m_core s) c1) as (Hok1 & Hlen & Hent1); [done|apply El|apply El|done|].
  apply (implements_next base capacity s b q); fold c1; rewrite ?El; try done.
  - by rewrite Hent1.
  - unfold irq_level. by rewrite Ei, Hirq, !El, Hlen.
Qed.

(** The entry at the producer is memory the socket serves. *)
Lemma prod_entry_served base capacity s b q : queue_served base capacity -> implements base capacity (s, b) q ->
  let a := event_queue_prod_entry_address (m_core s) in
  base <= a /\ a + EVTQ_ENT_BYTES <= base + capacity * EVTQ_ENT_BYTES /\
  forall k, 0 <= k < EVTQ_ENT_BYTES -> bus_serves (a + k).
Proof.
  intros Hserved [_ Hok Hb Hcap _ _ _ _]. cbn [fst snd] in *. cbv zeta. rewrite (prod_entry_spec _ Hok).
  unfold entry_address. rewrite Hb, Hcap.
  pose proof (queue_size_pos _ (configured_log2 _ (ok_configured _ Hok))) as Hs. fold (queue_size (m_core s)) in Hs.
  pose proof (Z.mod_pos_bound (prod_pointer (m_core s)) capacity ltac:(lia)).
  unfold queue_served, EVTQ_ENT_BYTES, EVTQ_ENT_DWORDS in *. split; [lia|]. split; [lia|]. intros k Hk. apply Hserved. lia.
Qed.

(** Memory outside the queue. *)
Definition same_outside (base capacity : Z) (b b' : B) : Prop :=
  forall i, i < base \/ base + capacity * EVTQ_ENT_BYTES <= i -> mem_get (bus_view b') i = mem_get (bus_view b) i.

(** A blocked request appends its record, or is noted as lost when the queue is
    full. *)
Lemma record_fault_step base capacity s b q t sid fallback :
  queue_served base capacity -> implements base capacity (s, b) q -> 0 <= sid < 256 ->
  let sb' := record_unimplemented_translation_fault cfg ptw t sid fallback (s, b) in
  implements base capacity sb'
    (fifo_put capacity (fault_record (address t) (bool_decide (command t = TLM_READ_COMMAND)) sid) q) /\
  same_outside base capacity b (snd sb').
Proof.
  intros Hserved Himpl0 Hsid. cbv zeta. unfold record_unimplemented_translation_fault. rewrite clamp_sid_id by done. cbv zeta.
  pose proof (record_sid_step base capacity s b q sid fallback Himpl0) as Himpl. revert Himpl.
  generalize (s <| m_core ::= record_tbu_request_sid sid fallback |>). clear s Himpl0. intros s Himpl.
  pose proof (prod_entry_served _ _ _ _ _ Hserved Himpl) as (Ha0 & Ha1 & Ha).
  pose proof Himpl as [_ Hok Hb Hcap Hg Hent Hl _]. cbn [fst snd] in *.
  pose proof (queue_entries_length _ (bus_view b) (ok_configured _ Hok)) as Elen. pose proof (ok_len _ Hok).
  unfold build_translation_fault_event, fifo_put. rewrite (ok_configured _ Hok), queue_full_spec, Hent, Elen by done. cbn [negb orb].
  destruct (Z.eqb_spec (queue_len (m_core s)) (queue_size (m_core s))) as [Efull|Hroom].
  - replace (queue_len _ <? capacity) with false by lia. split; [|done].
    destruct (record_lost (m_core s) Hok Hg) as (Hf & Hok' & Eg & Hirq & He).
    apply (implements_next base capacity s b q); rewrite ?update_irq_core; try change (m_core (s <| m_core ::= ?f |>)) with (f (m_core s)); try done.
    + rewrite Eg. eauto with uint.
    + rewrite Eg. by rewrite gerror_lost_bit.
  - replace (queue_len _ <? capacity) with true by lia.
    match goal with |- context [write_event_record _ ?r ?a b] => pose proof (write_event_record_view r a b eq_refl Ha) as Hw; set (record := r) in * end.
    destruct (write_event_record ptw record _ b) as [b' written]. destruct Hw as [-> Hview].
    subst record. rewrite flat_record in Hview by done. set (record := fault_record _ _ sid) in *. split.
    + destruct (complete_written (m_core s) (bus_view b) record Hok) as (Hf & Hok' & Eg & Hirq & He); [lia|done|].
      apply (implements_next base capacity s b q); rewrite ?update_irq_core; try change (m_core (s <| m_core ::= ?f |>)) with (f (m_core s)); try done.
      * by rewrite Eg.
      * by rewrite (queue_entries_eq _ _ _ Hview), He.
      * by rewrite Eg.
    + intros i Hi. cbn [snd]. rewrite Hview. apply mem_get_write_out.
      change (Z.of_nat (length record)) with EVTQ_ENT_BYTES. lia.
Qed.

(** The driver's step takes the oldest entry, if there is one. *)
Lemma take_step base capacity s b q : implements base capacity (s, b) q ->
  implements base capacity (driver_take s, b) (fifo_take q).
Proof.
  intros Himpl. pose proof Himpl as [_ Hok _ _ Hg Hent Hl Hirq]. cbn [fst snd] in *. unfold driver_take. cbv zeta.
  pose proof (queue_pending_spec _ Hok) as Hp. unfold event_queue_pending in Hp. rewrite (ok_configured _ Hok) in Hp. cbn [negb] in Hp.
  fold (prod_pointer (m_core s)) (cons_pointer (m_core s)) in Hp.
  pose proof (queue_len_nonneg _ (ok_configured _ Hok)).
  destruct (Z.eqb_spec (prod_pointer (m_core s)) (cons_pointer (m_core s))) as [E|Hne]; cbn [negb] in Hp.
  - assert (entries q = []) as Enil.
    { rewrite Hent. unfold queue_entries. by replace (queue_len (m_core s)) with 0 by lia. }
    destruct Himpl. split; cbn [fst snd] in *; try done. cbn [fifo_take entries]. by rewrite <-Hent, Enil.
  - pose proof (queue_size_pos _ (configured_log2 _ (ok_configured _ Hok))) as Hs. fold (queue_size (m_core s)) in Hs.
    pose proof (Z.mod_pos_bound (cons_pointer (m_core s) + 1) (2 * queue_size (m_core s)) ltac:(lia)).
    rewrite register_write; [|by cbv|by cbv|by cbv|split; lia].
    destruct (consumer_write (m_core s) _ Hok eq_refl) as (Hf & Hok' & Eg & Hlv & He); [lia|].
    apply (implements_next base capacity s b q); rewrite ?update_irq_core, ?mmu_trace_core;
      try change (m_core (s <| m_core ::= ?f |>)) with (f (m_core s)); try done.
    + by rewrite Eg.
    + cbn [fifo_take entries]. by rewrite Hent, He.
    + by rewrite Eg.
Qed.

Lemma mmu_step base capacity sb q op : queue_served base capacity -> implements base capacity sb q ->
  implements base capacity (mmu_run_op sb op) (fifo_run_op capacity q op) /\
  same_outside base capacity (snd sb) (snd (mmu_run_op sb op)).
Proof.
  intros Hserved Himpl. destruct sb as [s b]. pose proof (impl_enabled _ _ _ _ Himpl) as He. cbn [fst snd] in He.
  destruct op as [sid attrs t|sid attrs t|]; cbn [mmu_run_op fifo_run_op fst snd].
  - pose proof (request_sid_range attrs sid) as Hr. unfold tbu_b_transport_with_sid. rewrite He.
    destruct (request_sid_or_default attrs sid) as [stream fallback]. cbn [fst] in Hr.
    destruct (record_fault_step base capacity s b q t stream fallback Hserved Himpl Hr) as [H1 H2].
    destruct (record_unimplemented_translation_fault _ _ _ _ _ _) as [s' b']. cbn [fst snd] in *. split; [|done].
    destruct H1. cbn [fst snd] in *. split; cbn [fst snd]; rewrite ?update_irq_core; done.
  - unfold tbu_transport_dbg_with_sid. rewrite He. destruct (request_sid_or_default attrs sid) as [stream fallback].
    split; [|done]. by apply record_sid_step.
  - split; [by apply take_step|done].
Qed.
End fifo.

(** C17. While the unit is on, the event queue in memory is a bounded first-in
    first-out queue, whatever requests arrive at the translation sockets and
    whenever the driver takes entries.  After any run of requests, debug requests
    and takes the entries between the queue's pointers are those of the abstract
    queue - one record per request with its kind, stream id, direction and
    address, in order, lost with the abort error noted when the queue is full -
    no byte outside the queue has changed, the interrupt has the level the
    registers call for, and every further request is refused with an error and
    without direct memory access. *)
Theorem mmu_event_queue_is_fifo {B : Type} (downstream ptw : TlmTarget B) {mb : MemoryBus B (bus := ptw)}
    (cfg : mmu_config) (base capacity : Z) (sb : mmu720ae * B) (q : fifo) (ops : list mmu_op) :
  queue_served ptw base capacity -> implements ptw base capacity sb q ->
  let sb' := foldl (mmu_run_op downstream ptw cfg) sb ops in
  implements ptw base capacity sb' (foldl (fifo_run_op capacity) q ops) /\
  same_outside ptw base capacity (snd sb) (snd sb') /\
  forall sid attrs t,
    snd (tbu_b_transport_with_sid cfg downstream ptw sid attrs sb' t) =
    t <| dmi_allowed := false |> <| response_status := TLM_COMMAND_ERROR_RESPONSE |>.
Proof.
  intros Hserved. cbv zeta. revert sb q. induction ops as [|op ops IH]; intros sb q Himpl.
  - cbn [foldl]. split; [done|]. split; [by intros i|]. intros sid attrs t. destruct sb as [s b].
    pose proof (impl_enabled _ _ _ _ _ Himpl) as He. cbn [fst] in He. unfold tbu_b_transport_with_sid. rewrite He.
    destruct (request_sid_or_default _ _). by destruct (record_unimplemented_translation_fault _ _ _ _ _ _).
  - cbn [foldl]. destruct (mmu_step downstream ptw cfg base capacity sb q op Hserved Himpl) as [H1 H2].
    destruct (IH _ _ H1) as (H3 & H4 & H5). split; [done|]. split; [|done]. intros i Hi. rewrite H4 by done. by apply H2.
Qed.

(** A queue of two entries at 0x1000, three reads from the first socket and one
    entry taken: the third request is lost. *)
Definition example_config : mmu_config :=
  {| p_trace := false; p_trace_limit := 64; p_tbu_ace1_default_sid := 0; p_tbu_ace2_default_sid := 0x20;
     p_tbu_lti00_default_sid := 0x40; p_tbu_lti01_default_sid := 0x60; p_tbu_lti02_default_sid := 0x80; irq_bound := true |}.

Definition example_state : mmu720ae :=
  foldl (fun s t => fst (b_transport example_config s t)) initial
    [write_bytes_txn ARM_SMMU_EVTQ_BASE (le_bytes 8 0x1001); write_txn ARM_SMMU_IRQ_CTRL 5; write_txn ARM_SMMU_CR0 5].

Definition example_ops : list mmu_op :=
  [Request 0x20 None (read_txn 0x8000 4); Request 0x20 (Some (Attrs 0x107 0 true false false false false false)) (write_txn 0x9000 1);
   Request 0x20 None (read_txn 0xa000 4); Take].

Lemma example_implements : implements (ram 0x10000) (mb := ram_bus 0x10000) 0x1000 2 (example_state, ∅) (Fifo [] false).
Proof.
  split; [by vm_compute| |by vm_compute|by vm_compute|vm_compute; split; congruence|by vm_compute|by vm_compute|by vm_compute].
  split; [by vm_compute|vm_compute; split; congruence|vm_compute; split; congruence|vm_compute; congruence|by vm_compute].
Qed.

Lemma mmu_event_queue_is_fifo_witness :
  let sb' := foldl (mmu_run_op (ram 0x10000) (ram 0x10000) example_config) (example_state, ∅) example_ops in
  implements (ram 0x10000) (mb := ram_bus 0x10000) 0x1000 2 sb' (Fifo [fault_record 0x9000 false 0x07] true) /\
  mem_read (snd sb') 0x1020 8 = [16; 0; 0; 0; 7; 0; 0; 0].
Proof.
  cbv zeta. split; [|by vm_compute].
  refine (proj1 (mmu_event_queue_is_fifo (ram 0x10000) (ram 0x10000) (mb := ram_bus 0x10000) example_config 0x1000 2
    (example_state, ∅) (Fifo [] false) example_ops _ example_implements)).
  intros i Hi. unfold EVTQ_ENT_BYTES, EVTQ_ENT_DWORDS in Hi. cbn. lia.
Defined.

(** Turning the event queue off does not lower the interrupt: [write32] computes
    the level anew for the pointers and the interrupt control, not for CR0. *)
Lemma mmu_cr0_keeps_irq :
  let s := fst (foldl (mmu_run_op (ram 0x10000) (ram 0x10000) example_config) (example_state, ∅)
                  [Request 0x20 None (read_txn 0x8000 4)]) in
  let s' := fst (b_transport example_config s (write_txn ARM_SMMU_CR0 1)) in
  m_combined_irq (m_core s') = true /\ m_combined_irq (core_update_irq (m_core s')) = false.
Proof. by vm_compute. Qed.

(** The range check of an access is made on a sum that can wrap: an offset just
    below 2^64 passes, far outside the register array. *)
Lemma mmu_bounds_check_wraps : normalize_offset (2 ^ 64 - 4) 8 = Some 0xfffffffc /\ REG_BYTES < 0xfffffffc.
Proof. by vm_compute. Qed.
