(* ===== verification/Sha256.v ===== *)
(** SHA-256 as the RSE verification accelerator computes it
    (qemu-components/rse_cpu_accel/include/rse_lms_accel.h), and the reference
    it is compared with: pad the message, cut it into blocks, fold the
    compression function.  The hash engine of the cryptographic accelerator
    (Cc3xxCore) runs the same compression function over its registers. *)

From S2P Require Import Prelude Bytes Vectors.

Definition HASH_LEN : Z := 32.

(** * Words *)

(** The numbers most significant byte first: [store_be16], [store_be32] and
    [store_be64] are [be_bytes] of 2, 4 and 8. *)
(** [rse_lms_accel.h: 41-60] *)
Definition be_bytes (n : Z) (value : Z) : list Z :=
  map (fun i => u8 (Z.shiftr value (i * 8))) (rev (range n)).

(** [rse_lms_accel.h: load_be32] *)
Definition load_be32 (p : list Z) (off : Z) : Z :=
  Z.lor (Z.lor (Z.lor (shl 32 (arr_get p off) 24) (shl 32 (arr_get p (off + 1)) 16))
    (shl 32 (arr_get p (off + 2)) 8)) (arr_get p (off + 3)).

(** [rse_lms_accel.h: rotr32] *)
Definition rotr32 (value shift : Z) : Z := Z.lor (Z.shiftr value shift) (shl 32 value (32 - shift)).

(** * The compression function *)

(** [rse_lms_accel.h: "static const uint32_t k[64] = {" .. "};"] *)
Definition K : list Z := concat [
  [0x428a2f98; 0x71374491; 0xb5c0fbcf; 0xe9b5dba5; 0x3956c25b; 0x59f111f1; 0x923f82a4; 0xab1c5ed5];
  [0xd807aa98; 0x12835b01; 0x243185be; 0x550c7dc3; 0x72be5d74; 0x80deb1fe; 0x9bdc06a7; 0xc19bf174];
  [0xe49b69c1; 0xefbe4786; 0x0fc19dc6; 0x240ca1cc; 0x2de92c6f; 0x4a7484aa; 0x5cb0a9dc; 0x76f988da];
  [0x983e5152; 0xa831c66d; 0xb00327c8; 0xbf597fc7; 0xc6e00bf3; 0xd5a79147; 0x06ca6351; 0x14292967];
  [0x27b70a85; 0x2e1b2138; 0x4d2c6dfc; 0x53380d13; 0x650a7354; 0x766a0abb; 0x81c2c92e; 0x92722c85];
  [0xa2bfe8a1; 0xa81a664b; 0xc24b8b70; 0xc76c51a3; 0xd192e819; 0xd6990624; 0xf40e3585; 0x106aa070];
  [0x19a4c116; 0x1e376c08; 0x2748774c; 0x34b0bcb5; 0x391c0cb3; 0x4ed8aa4a; 0x5b9cca4f; 0x682e6ff3];
  [0x748f82ee; 0x78a5636f; 0x84c87814; 0x8cc70208; 0x90befffa; 0xa4506ceb; 0xbef9a3f7; 0xc67178f2] ].

(** The message schedule [w]: sixteen words of the block, then the recurrence. *)
(** [rse_lms_accel.h: "uint32_t w[64];" .. "uint32_t a = m_h[0];"] *)
Definition schedule (block : list Z) : list Z :=
  let w := map (fun i => load_be32 block (i * 4)) (range 16) in
  foldl (fun w i =>
    let w15 := arr_get w (i - 15) in
    let w2 := arr_get w (i - 2) in
    let s0 := Z.lxor (Z.lxor (rotr32 w15 7) (rotr32 w15 18)) (Z.shiftr w15 3) in
    let s1 := Z.lxor (Z.lxor (rotr32 w2 17) (rotr32 w2 19)) (Z.shiftr w2 10) in
    w ++ [u32 (arr_get w (i - 16) + s0 + arr_get w (i - 7) + s1)]) w (seqZ 16 48).

(** The working variables [a] to [h]. *)
Definition sha_vars : Type := Z * Z * Z * Z * Z * Z * Z * Z.

(** [rse_lms_accel.h: "for (size_t i = 0; i < 64; ++i) {" .. "a = temp1 + temp2;"] *)
Definition sha_round (w : list Z) (vars : sha_vars) (i : Z) : sha_vars :=
  let '(a, b, c, d, e, f, g, h) := vars in
  let s1 := Z.lxor (Z.lxor (rotr32 e 6) (rotr32 e 11)) (rotr32 e 25) in
  let ch := Z.lxor (Z.land e f) (Z.land (not32 e) g) in
  let temp1 := u32 (h + s1 + ch + arr_get K i + arr_get w i) in
  let s0 := Z.lxor (Z.lxor (rotr32 a 2) (rotr32 a 13)) (rotr32 a 22) in
  let maj := Z.lxor (Z.lxor (Z.land a b) (Z.land a c)) (Z.land b c) in
  let temp2 := u32 (s0 + maj) in
  (u32 (temp1 + temp2), a, b, c, u32 (d + temp1), e, f, g).

(** The chaining value after one block. *)
(** [rse_lms_accel.h: transform] *)
Definition compress (hs block : list Z) : list Z :=
  let w := schedule block in
  let '(a, b, c, d, e, f, g, h) :=
    foldl (sha_round w)
      (arr_get hs 0, arr_get hs 1, arr_get hs 2, arr_get hs 3,
       arr_get hs 4, arr_get hs 5, arr_get hs 6, arr_get hs 7) (range 64) in
  zip_with (fun x y => u32 (x + y)) hs [a; b; c; d; e; f; g; h].

(** * The class *)

(** [rse_lms_accel.h: "std::array<uint32_t, 8> m_h{};" .. "size_t m_block_len = 0;"] *)
Record sha256 := MkSha { m_h : list Z; m_block : list Z; m_bytes : Z; m_block_len : Z }.

#[export] Instance eta_sha256 : Eta sha256 := fun s => MkSha (m_h s) (m_block s) (m_bytes s) (m_block_len s).

(** [rse_lms_accel.h: "m_h = {" .. "};"] *)
Definition H0 : list Z := [
  0x6a09e667; 0xbb67ae85; 0x3c6ef372; 0xa54ff53a; 0x510e527f; 0x9b05688c; 0x1f83d9ab; 0x5be0cd19 ].

(** [rse_lms_accel.h: reset] *)
Definition reset : sha256 := MkSha H0 (replicate 64 0) 0 0.

(** One turn of the loop of [update]: fill the block, and hash it when it is full. *)
(** [rse_lms_accel.h: "const size_t copy_len = std::min(len, m_block.size() - m_block_len);" .. "m_block_len = 0;"] *)
Definition update_turn (data : list Z) (s : sha256) : sha256 * list Z :=
  let copy_len := Z.min (vec_size data) (vec_size (m_block s) - m_block_len s) in
  let s := s <| m_block ::= splice (m_block_len s) (take (Z.to_nat copy_len) data) |> in
  let s := s <| m_block_len := m_block_len s + copy_len |> in
  let s := if m_block_len s =? vec_size (m_block s)
           then s <| m_h := compress (m_h s) (m_block s) |> <| m_block_len := 0 |> else s in
  (s, drop (Z.to_nat copy_len) data).

(** The loop, one turn at least per byte that is left. *)
(** [rse_lms_accel.h: "while (len != 0) {" .. "m_block_len = 0;"] *)
Fixpoint update_loop (fuel : nat) (data : list Z) (s : sha256) : sha256 :=
  match fuel with
  | O => s
  | S fuel =>
      if vec_size data =? 0 then s
      else let '(s, data) := update_turn data s in update_loop fuel data s
  end.

(** The bytes of a chunk; a null pointer ([None]) is left alone. *)
(** [rse_lms_accel.h: "void update(const uint8_t* data, size_t len)" .. "m_block_len = 0;"] *)
Definition update (data : option (list Z)) (s : sha256) : sha256 :=
  match data with
  | None => s
  | Some data => update_loop (length data) data (s <| m_bytes := u64 (m_bytes s + vec_size data) |>)
  end.

(** [rse_lms_accel.h: finish] *)
Definition finish (s : sha256) : list Z :=
  let bit_len := u64 (m_bytes s * 8) in
  let pad_len := if m_block_len s <? 56 then 56 - m_block_len s else 120 - m_block_len s in
  let padding := 0x80 :: replicate 63 0 in
  let s := update (Some (take (Z.to_nat pad_len) padding)) s in
  let s := update (Some (be_bytes 8 bit_len)) s in
  concat (map (be_bytes 4) (m_h s)).

(** [rse_lms_accel.h: digest] *)
Definition digest (data : option (list Z)) : list Z := finish (update data reset).

(** [rse_lms_accel.h: sha256_concat] *)
Definition sha256_concat (chunks : list (option (list Z))) : list Z :=
  finish (foldl (fun sha chunk => update chunk sha) reset chunks).

(** * The reference *)

(** Zero bytes between the mark and the length, so that blocks come out whole. *)
Definition pad_zeros (n : Z) : Z := (55 - n) mod 64.

Definition sha_pad (msg : list Z) : list Z :=
  msg ++ 0x80 :: replicate (Z.to_nat (pad_zeros (vec_size msg))) 0 ++ be_bytes 8 (8 * vec_size msg).

(** The whole blocks of [l], in order. *)
Definition blocks (l : list Z) : list (list Z) := map (fun i => slice (64 * i) 64 l) (range (vec_size l / 64)).

Definition sha256_state (l : list Z) : list Z := foldl compress H0 (blocks l).

Definition SHA256 (msg : list Z) : list Z := concat (map (be_bytes 4) (sha256_state (sha_pad msg))).

(** "abc", as in the standard. *)
Example sha256_abc : digest (Some [0x61; 0x62; 0x63]) = be_bytes 32
  0xba7816bf8f01cfea414140de5dae2223b00361a396177a9cb410ff61f20015ad.
Proof. vm_compute. reflexivity. Qed.

(** * Streaming *)

Lemma be_bytes_length n v : 0 <= n -> vec_size (be_bytes n v) = n.
Proof. intros Hn. unfold vec_size, be_bytes, range. rewrite length_map, length_rev, length_seqZ. lia. Qed.

Lemma sha_size_app {A} (l l' : list A) : vec_size (l ++ l') = vec_size l + vec_size l'.
Proof. unfold vec_size. rewrite length_app. lia. Qed.

Lemma sha_size_drop {A} (k : Z) (l : list A) : 0 <= k <= vec_size l -> vec_size (drop (Z.to_nat k) l) = vec_size l - k.
Proof. unfold vec_size. rewrite length_drop. lia. Qed.

Lemma sha_size_take {A} (k : Z) (l : list A) : 0 <= k <= vec_size l -> vec_size (take (Z.to_nat k) l) = k.
Proof. unfold vec_size. rewrite length_take. lia. Qed.

(** The bytes after the last whole block. *)
Definition rest (l : list Z) : list Z := drop (Z.to_nat (64 * (vec_size l / 64))) l.

Lemma rest_size l : vec_size (rest l) = vec_size l mod 64.
Proof.
  assert (0 <= vec_size l) by (unfold vec_size; lia).
  unfold rest. rewrite sha_size_drop; pose proof (Z.div_mod (vec_size l) 64); pose proof (Z.mod_pos_bound (vec_size l) 64); lia.
Qed.

Lemma slice_app_l {A} (off n : Z) (l l' : list A) : 0 <= off -> 0 <= n -> off + n <= vec_size l ->
  slice off n (l ++ l') = slice off n l.
Proof.
  unfold vec_size, slice. intros H0 Hn Hl. rewrite drop_app_le by lia. rewrite take_app_le; [done|].
  rewrite length_drop. lia.
Qed.

(** Appending bytes that do not complete a block adds none. *)
Lemma blocks_app_small l d : vec_size l mod 64 + vec_size d < 64 -> blocks (l ++ d) = blocks l /\ rest (l ++ d) = rest l ++ d.
Proof.
  assert (0 <= vec_size l /\ 0 <= vec_size d) by (unfold vec_size; lia). intros Hd.
  pose proof (Z.div_mod (vec_size l) 64). pose proof (Z.mod_pos_bound (vec_size l) 64).
  assert (vec_size (l ++ d) / 64 = vec_size l / 64) as Hq.
  { rewrite sha_size_app. symmetry. apply (Z.div_unique _ _ _ (vec_size l mod 64 + vec_size d)); lia. }
  unfold blocks, rest. rewrite Hq. split.
  - apply map_ext_in. intros i Hi%list_elem_of_In%elem_of_range. apply slice_app_l; lia.
  - rewrite drop_app_le; [done|]. unfold vec_size in *. lia.
Qed.

(** Appending bytes that complete one adds it. *)
Lemma blocks_app_full l d : vec_size l mod 64 + vec_size d = 64 -> blocks (l ++ d) = blocks l ++ [rest l ++ d] /\ rest (l ++ d) = [].
Proof.
  assert (0 <= vec_size l /\ 0 <= vec_size d) by (unfold vec_size; lia). intros Hd.
  pose proof (Z.div_mod (vec_size l) 64). pose proof (Z.mod_pos_bound (vec_size l) 64). pose proof (rest_size l) as Hr.
  assert (vec_size (l ++ d) = 64 * (vec_size l / 64 + 1)) as Hs by (rewrite sha_size_app; lia).
  assert (vec_size (l ++ d) / 64 = vec_size l / 64 + 1) as Hq by (rewrite Hs, Z.mul_comm; apply Z.div_mul; lia).
  assert (0 <= vec_size l / 64) by (apply Z.div_pos; lia).
  assert (drop (Z.to_nat (64 * (vec_size l / 64))) (l ++ d) = rest l ++ d) as Hrest.
  { rewrite drop_app_le; [done|]. unfold vec_size in *. lia. }
  unfold blocks. rewrite Hq. unfold range.
  replace (vec_size l / 64 + 1) with (Z.of_nat (S (Z.to_nat (vec_size l / 64)))) by lia.
  rewrite seqZ_S, map_app. rewrite Z2Nat.id by done. cbn [map]. rewrite Z.add_0_l. split.
  - f_equal.
    + apply map_ext_in. intros i Hi%list_elem_of_In%elem_of_range. apply slice_app_l; lia.
    + unfold slice. rewrite Hrest. rewrite take_ge; [done|]. unfold vec_size in *. rewrite length_app. lia.
  - unfold rest at 1. rewrite Hq. apply drop_ge. unfold vec_size in *. lia.
Qed.

(** The state after the bytes [l], apart from their count. *)
Definition absorbed (l : list Z) (s : sha256) : Prop :=
  m_h s = sha256_state l /\ vec_size (m_block s) = 64 /\
  m_block_len s = vec_size l mod 64 /\ take (Z.to_nat (m_block_len s)) (m_block s) = rest l.

Lemma take_splice (off : Z) (d l : list Z) : 0 <= off -> off + vec_size d <= vec_size l ->
  take (Z.to_nat (off + vec_size d)) (splice off d l) = take (Z.to_nat off) l ++ d.
Proof.
  unfold vec_size, splice. intros H0 Hl. rewrite app_assoc. apply take_app_length'.
  rewrite length_app, length_take. lia.
Qed.

(** A turn moves some bytes from the input to the state. *)
Lemma update_turn_spec l d s : absorbed l s -> d <> [] ->
  exists d1 d2, d = d1 ++ d2 /\ d1 <> [] /\ snd (update_turn d s) = d2 /\ absorbed (l ++ d1) (fst (update_turn d s)) /\
  m_bytes (fst (update_turn d s)) = m_bytes s.
Proof.
  intros (Hh & Hb & Hn & Hr) Hd. unfold update_turn. rewrite Hb.
  pose proof (Z.mod_pos_bound (vec_size l) 64 ltac:(lia)) as Hm. rewrite <-Hn in Hm.
  assert (0 < vec_size d) as Hpos by (destruct d; [done|]; unfold vec_size; cbn [length]; lia).
  set (k := Z.min (vec_size d) (64 - m_block_len s)) in *. assert (0 < k <= vec_size d) as Hk by lia.
  exists (take (Z.to_nat k) d), (drop (Z.to_nat k) d). split; [symmetry; apply take_drop|].
  pose proof (sha_size_take k d ltac:(lia)) as Htk.
  split. { intros E. rewrite E in Htk. cbv [vec_size length] in Htk. lia. }
  split; [done|]. cbn [fst].
  set (d1 := take (Z.to_nat k) d) in *.
  assert (vec_size (splice (m_block_len s) d1 (m_block s)) = 64) as Hs by (rewrite splice_size; lia).
  pose proof (take_splice (m_block_len s) d1 (m_block s) ltac:(lia) ltac:(lia)) as Ht. rewrite Hr, Htk in Ht.
  unfold absorbed. cbn -[Z.eqb]. rewrite Hs. destruct (Z.eqb_spec (m_block_len s + k) 64) as [E|E]; cbn.
  - destruct (blocks_app_full l d1 ltac:(lia)) as [Hbl Hre].
    rewrite E, take_ge in Ht by (unfold vec_size in *; lia). rewrite Ht.
    unfold sha256_state. rewrite Hbl, foldl_app, Hre, Hh. cbn.
    rewrite <-Ht, Hs, sha_size_app. split; [|done]. split; [done|]. split; [done|].
    split; [|done]. by rewrite <-Z.add_mod_idemp_l, <-Hn, Htk, E by done.
  - destruct (blocks_app_small l d1 ltac:(lia)) as [Hbl Hre].
    unfold sha256_state. rewrite Hbl, Hre. rewrite Hs, Ht, sha_size_app. split; [|done]. split; [done|]. split; [done|].
    split; [|done]. rewrite <-Z.add_mod_idemp_l, <-Hn, Htk, Z.mod_small by lia. done.
Qed.

(** The loop takes all of them: its fuel, one turn per byte, is enough. *)
Lemma update_loop_spec fuel l d s : (length d <= fuel)%nat -> absorbed l s ->
  absorbed (l ++ d) (update_loop fuel d s) /\ m_bytes (update_loop fuel d s) = m_bytes s.
Proof.
  revert l d s. induction fuel as [|fuel IH]; intros l d s Hf Hs.
  { destruct d; [|cbn in Hf; lia]. rewrite app_nil_r. done. }
  cbn [update_loop]. destruct (Z.eqb_spec (vec_size d) 0) as [E|E].
  { destruct d; [|cbv [vec_size length] in E; lia]. rewrite app_nil_r. done. }
  assert (d <> []) as Hd by (intros ->; done).
  destruct (update_turn_spec l d s Hs Hd) as (d1 & d2 & Ed & Hd1 & E2 & Hs' & Hbytes).
  destruct (update_turn d s) as [s' rest_]. cbn [fst snd] in *. subst rest_ d. rewrite app_assoc, <-Hbytes. apply IH; [|done].
  rewrite length_app in Hf. destruct d1; [done|]. cbn in Hf. lia.
Qed.

(** The state after the bytes [l]. *)
Definition hashed (l : list Z) (s : sha256) : Prop := absorbed l s /\ m_bytes s = u64 (vec_size l).

Lemma hashed_reset : hashed [] reset.
Proof. by repeat split. Qed.

Lemma hashed_update l d s : hashed l s -> hashed (l ++ default [] d) (update d s).
Proof.
  intros [Hs Hb]. destruct d as [d|]; cbn [update default]; [|by rewrite app_nil_r].
  destruct (update_loop_spec (length d) l d (s <| m_bytes := u64 (m_bytes s + vec_size d) |>)) as [H1 H2]; [done..|].
  split; [done|]. rewrite H2. cbn. rewrite Hb, sha_size_app. unfold wrap. by rewrite Z.add_mod_idemp_l.
Qed.

Lemma hashed_updates l ds s : hashed l s ->
  hashed (l ++ concat (map (default []) ds)) (foldl (fun sha chunk => update chunk sha) s ds).
Proof.
  revert l s. induction ds as [|d ds IH]; intros l s Hs; cbn; [by rewrite app_nil_r|].
  rewrite app_assoc. apply IH. by apply hashed_update.
Qed.

Lemma take_padding k : 1 <= k <= 64 ->
  take (Z.to_nat k) (0x80 :: replicate 63 0) = 0x80 :: replicate (Z.to_nat (k - 1)) 0.
Proof.
  intros Hk. replace (Z.to_nat k) with (S (Z.to_nat (k - 1))) by lia. cbn [take]. f_equal.
  rewrite take_replicate. f_equal. lia.
Qed.

(** The padding of [finish], from the length of the last block. *)
Lemma finish_padding l s : absorbed l s ->
  let pad_len := if m_block_len s <? 56 then 56 - m_block_len s else 120 - m_block_len s in
  take (Z.to_nat pad_len) (0x80 :: replicate 63 0) = 0x80 :: replicate (Z.to_nat (pad_zeros (vec_size l))) 0.
Proof.
  intros (_ & _ & Hn & _) pad_len. pose proof (Z.mod_pos_bound (vec_size l) 64 ltac:(lia)) as Hm.
  assert (1 <= pad_len <= 64 /\ pad_zeros (vec_size l) = pad_len - 1) as [H1 ->]; [|by apply take_padding].
  unfold pad_len, pad_zeros. rewrite Hn. split; [case_if; lia|].
  rewrite <-Zminus_mod_idemp_r. set (r := vec_size l mod 64) in *.
  destruct (Z.ltb_spec r 56); [rewrite Z.mod_small; lia|].
  replace (55 - r) with (119 - r + (-1) * 64) by lia. rewrite Z.mod_add, Z.mod_small; lia.
Qed.

(** Finishing hashes the padded message. *)
Lemma finish_spec l s : hashed l s -> vec_size l * 8 < 2 ^ 64 -> finish s = SHA256 l.
Proof.
  intros Hs Hl. pose proof Hs as [Ha Hb]. unfold finish, SHA256. cbv zeta. rewrite (finish_padding l s Ha). f_equal. f_equal.
  assert (0 <= vec_size l) by (unfold vec_size; lia).
  rewrite Hb, !wrap_small by (unfold is_uint; rewrite ?wrap_small by (split; lia); lia).
  destruct (hashed_update _ (Some (be_bytes 8 (vec_size l * 8))) _
    (hashed_update _ (Some (0x80 :: replicate (Z.to_nat (pad_zeros (vec_size l))) 0)) _ Hs)) as [[-> _] _].
  f_equal. unfold sha_pad. cbn [default]. by rewrite <-app_assoc, (Z.mul_comm 8).
Qed.

(** Hashing in chunks, however they cut the message, is hashing the message. *)
Lemma sha256_concat_spec chunks : vec_size (concat (map (default []) chunks)) * 8 < 2 ^ 64 ->
  sha256_concat chunks = SHA256 (concat (map (default []) chunks)).
Proof. intros Hl. apply finish_spec; [|done]. apply (hashed_updates []), hashed_reset. Qed.

Lemma compress_length hs block : length hs = 8%nat -> length (compress hs block) = 8%nat.
Proof.
  intros Hl. unfold compress. destruct (foldl _ _ _) as [[[[[[[a b] c] d] e] f] g] h].
  rewrite length_zip_with, Hl. done.
Qed.

Lemma sha256_state_length l : length (sha256_state l) = 8%nat.
Proof.
  unfold sha256_state. generalize (blocks l). intros bs.
  assert (length H0 = 8%nat) as Hl by done. revert Hl. generalize H0.
  induction bs as [|b bs IH]; intros hs Hl; [done|]. cbn. by apply IH, compress_length.
Qed.

Lemma concat_be_size n ws : 0 <= n -> vec_size (concat (map (be_bytes n) ws)) = n * vec_size ws.
Proof.
  intros Hn. induction ws as [|w ws IH]; [unfold vec_size; cbn; lia|]. cbn [map concat].
  rewrite sha_size_app, IH, be_bytes_length by done. unfold vec_size. cbn [length]. lia.
Qed.

Lemma SHA256_size msg : vec_size (SHA256 msg) = HASH_LEN.
Proof. unfold SHA256. rewrite concat_be_size by lia. unfold vec_size. by rewrite sha256_state_length. Qed.

Lemma be_bytes_ok n v : bytes_ok (be_bytes n v).
Proof. unfold bytes_ok, be_bytes. apply Forall_map, Forall_true. intros i. by apply wrap_range. Qed.

Lemma SHA256_ok msg : bytes_ok (SHA256 msg).
Proof.
  unfold SHA256, bytes_ok. apply Forall_concat, Forall_map, Forall_true. intros w. apply be_bytes_ok.
Qed.
