(* ===== verification/ModArith.v ===== *)
(** Modular arithmetic on integers of any size, for the public-key engine
    (systemc-components/cc3xx/include/cc3xx_core.h) and for the signature check of
    the verification accelerator, which run the same extended Euclidean
    algorithm. *)

From Stdlib Require Import Znumtheory.
From S2P Require Import Prelude.

(** The loop of the extended Euclidean algorithm: the final [t] and [r]. *)
(** [cc3xx_core.h: "while (new_r != 0) {" .. "new_r = next_r;"] *)
Fixpoint euclid_loop (fuel : nat) (t new_t r new_r : Z) : Z * Z :=
  match fuel with
  | O => (t, r)
  | S fuel =>
      if new_r =? 0 then (t, r)
      else
        let quotient := Z.quot r new_r in
        euclid_loop fuel new_t (t - quotient * new_t) new_r (r - quotient * new_r)
  end.

(** Every two turns halve the remainder. *)
Definition euclid_fuel (modulus : Z) : nat := Z.to_nat (2 * Z.log2 modulus + 3).

(** * Truncated division *)

Lemma rem_mod v m : 0 < m ->
  (let r := Z.rem v m in if r <? 0 then r + m else r) = v mod m.
Proof.
  intros Hm. cbv zeta. destruct (Z.le_gt_cases 0 v).
  - rewrite Z.rem_mod_nonneg by lia. pose proof (Z.mod_pos_bound v m Hm). by replace (v mod m <? 0) with false by lia.
  - rewrite <-(Z.opp_involutive v), Z.rem_opp_l by lia. rewrite Z.rem_mod_nonneg by lia.
    pose proof (Z.mod_pos_bound (- v) m Hm). destruct (Z.eq_dec (- v mod m) 0) as [E|E].
    + rewrite E. cbn. symmetry. apply Z.mod_opp_l_z; [lia|done].
    + replace (- (- v mod m) <? 0) with true by lia. rewrite (Z.mod_opp_l_nz (- v)) by lia. lia.
Qed.

(** * The extended Euclidean algorithm *)

Section euclid.
Context (m v : Z).

(** What every turn keeps: the remainders are multiples of [v] modulo [m] by the
    coefficients, which alternate in sign and stay below [m]. *)
Record euclid_inv (t new_t r new_r : Z) : Prop := EuclidInv {
  ei_range : 0 <= new_r < r;
  ei_t : exists k, t * v = r + k * m;
  ei_new_t : exists k, new_t * v = new_r + k * m;
  ei_sum : Z.abs new_t * r + Z.abs t * new_r = m;
  ei_signs : t * new_t <= 0;
  ei_bound : Z.abs t < m;
  ei_gcd : Z.gcd r new_r = Z.gcd m v
}.

Lemma euclid_inv_init : 1 < m -> euclid_inv 0 1 m (v mod m).
Proof.
  intros Hm. pose proof (Z.mod_pos_bound v m ltac:(lia)). split; try lia.
  - exists (-1). lia.
  - exists (v / m). pose proof (Z.div_mod v m). lia.
  - rewrite Z.gcd_comm, Z.gcd_mod by lia. done.
Qed.

Lemma abs_sub_opposite t q n : 0 <= q -> t * n <= 0 -> Z.abs (t - q * n) = Z.abs t + q * Z.abs n.
Proof. intros Hq Hs. destruct (Z.le_gt_cases 0 t), (Z.le_gt_cases 0 n); nia. Qed.

Lemma euclid_inv_turn t new_t r new_r : euclid_inv t new_t r new_r -> new_r <> 0 ->
  let q := Z.quot r new_r in
  euclid_inv new_t (t - q * new_t) new_r (r - q * new_r) /\
  2 * (new_r * (r - q * new_r)) < r * new_r.
Proof.
  intros [Hr [k Hk] [k' Hk'] Hsum Hsign Hb Hg] Hn q.
  assert (q = r / new_r) as -> by (apply Z.quot_div_nonneg; lia).
  pose proof (Z.div_mod r new_r Hn) as Hd. pose proof (Z.mod_pos_bound r new_r ltac:(lia)) as Hm.
  set (q := r / new_r) in *. assert (0 < q) as Hq by (apply Z.div_str_pos; lia).
  replace (r - q * new_r) with (r mod new_r) by lia. set (r' := r mod new_r) in *. clearbody q r'.
  assert (2 * r' < r) as Hhalf by nia. split.
  2:{ rewrite Z.mul_assoc, (Z.mul_comm 2), <-Z.mul_assoc, (Z.mul_comm r). apply Z.mul_lt_mono_pos_l; lia. }
  pose proof (abs_sub_opposite t q new_t ltac:(lia) Hsign) as Habs. split; try done.
  - by exists k'.
  - exists (k - q * k'). rewrite Z.mul_sub_distr_r, Hk, <-Z.mul_assoc, Hk'. lia.
  - rewrite Habs. transitivity (Z.abs new_t * (new_r * q + r') + Z.abs t * new_r); [ring|]. by rewrite <-Hd.
  - assert (0 <= q * (new_t * new_t)) by (apply Z.mul_nonneg_nonneg; [lia|apply Z.square_nonneg]). lia.
  - assert (Z.abs new_t * 2 <= Z.abs new_t * r) by (apply Z.mul_le_mono_nonneg_l; lia).
    assert (0 <= Z.abs t * new_r) by (apply Z.mul_nonneg_nonneg; lia). lia.
  - rewrite <-Hg. replace r with (r' + q * new_r) by lia. rewrite (Z.gcd_comm _ new_r), Z.gcd_add_mult_diag_r. done.
Qed.

(** With fuel for the product of the remainders, the loop ends with their
    greatest common divisor. *)
Lemma euclid_loop_spec fuel t new_t r new_r : euclid_inv t new_t r new_r -> r * new_r < 2 ^ Z.of_nat fuel ->
  let '(t', r') := euclid_loop (S fuel) t new_t r new_r in
  r' = Z.gcd m v /\ Z.abs t' < m /\ exists k, t' * v = r' + k * m.
Proof.
  revert t new_t r new_r. induction fuel as [|fuel IH]; intros t new_t r new_r Hinv Hlt.
  all: assert (new_r = 0 -> Z.gcd m v = r) as Hend by
    (intros ->; rewrite <-(ei_gcd _ _ _ _ Hinv), Z.gcd_0_r; pose proof (ei_range _ _ _ _ Hinv); lia).
  - assert (new_r = 0) as -> by (pose proof (ei_range _ _ _ _ Hinv); cbn in Hlt; nia). cbn.
    rewrite Hend by done. split; [done|]. split; [apply Hinv|apply (ei_t _ _ _ _ Hinv)].
  - cbn -[Z.quot Z.mul Z.sub]. destruct (Z.eqb_spec new_r 0) as [E|E].
    + rewrite Hend by done. split; [done|]. split; [apply Hinv|apply (ei_t _ _ _ _ Hinv)].
    + destruct (euclid_inv_turn _ _ _ _ Hinv E) as [Hinv' Hhalf]. apply (IH _ _ _ _ Hinv').
      rewrite Nat2Z.inj_succ, Z.pow_succ_r in Hlt by lia. lia.
Qed.
End euclid.

(** The loop, with the fuel its callers give it. *)
Lemma euclid_spec m v : 1 < m ->
  let '(t, r) := euclid_loop (euclid_fuel m) 0 1 m (v mod m) in
  r = Z.gcd m v /\ Z.abs t < m /\ exists k, t * v = r + k * m.
Proof.
  intros Hm. pose proof (Z.log2_nonneg m). unfold euclid_fuel.
  replace (Z.to_nat (2 * Z.log2 m + 3)) with (S (Z.to_nat (2 * Z.log2 m + 2))) by lia.
  apply (euclid_loop_spec m v); [by apply euclid_inv_init|]. rewrite Z2Nat.id by lia.
  pose proof (Z.log2_spec m ltac:(lia)) as [_ Hl]. pose proof (Z.mod_pos_bound v m ltac:(lia)).
  replace (2 * Z.log2 m + 2) with (Z.succ (Z.log2 m) + Z.succ (Z.log2 m)) by lia.
  rewrite Z.pow_add_r by lia. nia.
Qed.

(** An inverse modulo [m], from its coefficient. *)
Lemma inverse_spec m v t k : 1 < m -> t * v = 1 + k * m -> (t mod m * v) mod m = 1.
Proof.
  intros Hm Ht. rewrite Z.mul_mod_idemp_l by lia. rewrite Ht, Z.mod_add by lia. apply Z.mod_small. lia.
Qed.
