(* ===== verification/Cc3xxState.v ===== *)
(** The state of the cryptographic accelerator [cc3xx]
    (systemc-components/cc3xx/include/cc3xx_core.h): its registers, the memory of
    the public-key engine, the hash and cipher engines, the counters.  The
    engines are in Cc3xxPka, Cc3xxAes and Cc3xxCore. *)

From stdpp Require Import strings.
From S2P Require Import Prelude Bytes Vectors.

(** * Constants *)

Definition REG_BYTES : Z := 0x10000.
Definition REG_WORDS : Z := REG_BYTES / 4.
Definition RNG_ISR : Z := 0x104.
Definition RNG_ICR : Z := 0x108.
Definition EHR_DATA : Z := 0x114.
Definition RND_SOURCE_ENABLE : Z := 0x12c.
Definition SAMPLE_CNT1 : Z := 0x130.
Definition RNG_SW_RESET : Z := 0x140.
Definition RST_BITS_COUNTER : Z := 0x1bc.
Definition RNG_CLK_ENABLE : Z := 0x1c4.
Definition PKA_OPCODE : Z := 0x080.
Definition PKA_STATUS : Z := 0x088.
Definition PKA_SW_RESET : Z := 0x08c.
Definition PKA_L_BASE : Z := 0x090.
Definition PKA_PIPE_RDY : Z := 0x0b0.
Definition PKA_DONE : Z := 0x0b4.
Definition PKA_SRAM_ADDR : Z := 0x0d4.
Definition PKA_SRAM_WDATA : Z := 0x0d8.
Definition PKA_SRAM_RDATA : Z := 0x0dc.
Definition PKA_SRAM_RADDR : Z := 0x0e4.
Definition AES_KEY_0 : Z := 0x400.
Definition AES_IV_0 : Z := 0x440.
Definition AES_CTR_0 : Z := 0x460.
Definition AES_BUSY : Z := 0x470.
Definition AES_CMAC_INIT : Z := 0x47c.
Definition AES_REMAINING_BYTES : Z := 0x4bc.
Definition AES_CONTROL : Z := 0x4c0.
Definition AES_HW_FLAGS : Z := 0x4c8.
Definition AES_RBG_SEEDING_RDY : Z := 0x4fc.
Definition HASH_H : Z := 0x640.
Definition AUTO_HW_PADDING : Z := 0x684.
Definition HASH_CONTROL : Z := 0x7c0.
Definition HASH_PAD_CFG : Z := 0x7c8.
Definition HASH_CUR_LEN0 : Z := 0x7cc.
Definition HASH_CUR_LEN1 : Z := 0x7d0.
Definition CLK_STATUS : Z := 0x824.
Definition CRYPTO_CTL : Z := 0x900.
Definition CRYPTO_BUSY : Z := 0x910.
Definition HASH_BUSY : Z := 0x91c.
Definition HOST_RGF_IRR : Z := 0xa00.
Definition HOST_RGF_IMR : Z := 0xa04.
Definition HOST_RGF_ICR : Z := 0xa08.
Definition HOST_CRYPTOKEY_SEL : Z := 0xa38.
Definition HOST_BOOT : Z := 0xa28.
Definition HOST_CC_IS_IDLE : Z := 0xa7c.
Definition HOST_SF_READY : Z := 0xa90.
Definition DIN_MEM_DMA_BUSY : Z := 0xc20.
Definition DIN_SRC_LLI_WORD0 : Z := 0xc28.
Definition DIN_SRC_LLI_WORD1 : Z := 0xc2c.
Definition DIN_SRAM_SRC_ADDR : Z := 0xc30.
Definition DIN_SRAM_BYTES_LEN : Z := 0xc34.
Definition DIN_SRAM_DMA_BUSY : Z := 0xc38.
Definition FIFO_IN_EMPTY : Z := 0xc50.
Definition DOUT_MEM_DMA_BUSY : Z := 0xd20.
Definition DOUT_DST_LLI_WORD0 : Z := 0xd28.
Definition DOUT_DST_LLI_WORD1 : Z := 0xd2c.
Definition DOUT_SRAM_BYTES_LEN : Z := 0xd34.
Definition DOUT_SRAM_DMA_BUSY : Z := 0xd38.
Definition DOUT_FIFO_EMPTY : Z := 0xd50.
Definition PIDR0 : Z := 0xfe0.
Definition PIDR1 : Z := 0xfe4.
Definition PIDR2 : Z := 0xfe8.
Definition PIDR3 : Z := 0xfec.
Definition CIDR0 : Z := 0xff0.
Definition CIDR1 : Z := 0xff4.
Definition AIB_FUSE_PROG_COMPLETED : Z := 0x1f04.
Definition LCS_IS_VALID : Z := 0x1f0c.
Definition NVM_IS_IDLE : Z := 0x1f10.
Definition LCS_REG : Z := 0x1f14.
Definition SRAM_TO_DIN_INT : Z := bit 4.
Definition DOUT_TO_SRAM_INT : Z := bit 5.
Definition MEM_TO_DIN_INT : Z := bit 6.
Definition DOUT_TO_MEM_INT : Z := bit 7.
Definition SYM_DMA_COMPLETED : Z := bit 11.
Definition CC3XX_ENGINE_NONE : Z := 0x00.
Definition CC3XX_ENGINE_AES : Z := 0x01.
Definition CC3XX_ENGINE_AES_AND_HASH : Z := 0x03.
Definition CC3XX_ENGINE_HASH : Z := 0x07.
Definition CC3XX_ENGINE_AES_TO_HASH_AND_DOUT : Z := 0x0a.
Definition CC3XX_HASH_ALG_SHA256 : Z := 0x02.
Definition CC3XX_AES_MODE_ECB : Z := 0x00.
Definition CC3XX_AES_MODE_CTR : Z := 0x02.
Definition CC3XX_AES_MODE_CMAC : Z := 0x07.
Definition CC3XX_AES_KEYSIZE_128 : Z := 0x00.
Definition CC3XX_AES_KEYSIZE_192 : Z := 0x01.
Definition CC3XX_AES_KEYSIZE_256 : Z := 0x02.
Definition CC3XX_PKA_OPCODE_ADD_INC : Z := 0x04.
Definition CC3XX_PKA_OPCODE_SUB_DEC_NEG : Z := 0x05.
Definition CC3XX_PKA_OPCODE_MODADD_MODINC : Z := 0x06.
Definition CC3XX_PKA_OPCODE_MODSUB_MODDEC_MODNEG : Z := 0x07.
Definition CC3XX_PKA_OPCODE_AND_TST0_CLR0 : Z := 0x08.
Definition CC3XX_PKA_OPCODE_OR_COPY_SET0 : Z := 0x09.
Definition CC3XX_PKA_OPCODE_XOR_FLIP0_INVERT_COMPARE : Z := 0x0a.
Definition CC3XX_PKA_OPCODE_SHR0 : Z := 0x0c.
Definition CC3XX_PKA_OPCODE_SHR1 : Z := 0x0d.
Definition CC3XX_PKA_OPCODE_SHL0 : Z := 0x0e.
Definition CC3XX_PKA_OPCODE_SHL1 : Z := 0x0f.
Definition CC3XX_PKA_OPCODE_MULLOW : Z := 0x10.
Definition CC3XX_PKA_OPCODE_MODMUL : Z := 0x11.
Definition CC3XX_PKA_OPCODE_MODEXP : Z := 0x13.
Definition CC3XX_PKA_OPCODE_DIV : Z := 0x14.
Definition CC3XX_PKA_OPCODE_MODINV : Z := 0x15.
Definition CC3XX_PKA_OPCODE_MULHIGH : Z := 0x17.
Definition CC3XX_PKA_OPCODE_REDUCTION : Z := 0x1b.
Definition PKA_STATUS_ALU_SIGN_OUT : Z := bit 8.
Definition PKA_STATUS_ALU_CARRY : Z := bit 9.
Definition PKA_STATUS_ALU_OUT_ZERO : Z := bit 12.
Definition PKA_STATUS_DIV_BY_ZERO : Z := bit 14.
Definition PKA_SRAM_WORDS : Z := 0x1800 / 4.
Definition DMA_CHUNK_BYTES : Z := 1024.

(** * State *)

(** [cc3xx_core.h: "enum class command {" .. "};"] *)
Inductive command := cmd_read | cmd_write.

(** [cc3xx_core.h: "enum class access_status {" .. "};"] *)
Inductive access_status := acc_ok | acc_address_error | acc_command_error.

(** [cc3xx_core.h: "struct access_result {" .. "};"] *)
Definition access_result : Type := access_status * Z.

(** [cc3xx_core.h: "struct trace_config {" .. "};"] *)
Record trace_config := MkTraceConfig {
  tc_enabled : bool;
  tc_limit : Z;
  tc_skip : Z;
  tc_filter : string;
  tc_address_min : Z
}.

Definition default_trace_config : trace_config := MkTraceConfig false 64 0 "all" 0.

(** [cc3xx_core.h: "struct sha256_state {" .. "};"] *)
Record sha256_state := MkSha256State {
  sha_h : list Z;
  sha_block : list Z;
  sha_bytes : Z;
  sha_block_len : Z;
  sha_active : bool;
  sha_finalized : bool
}.

#[export] Instance eta_sha256_state : Eta sha256_state := fun s =>
  MkSha256State (sha_h s) (sha_block s) (sha_bytes s) (sha_block_len s) (sha_active s) (sha_finalized s).

Definition sha256_state_init : sha256_state := MkSha256State (replicate 8 0) (replicate 64 0) 0 0 false false.

(** The counters, by name.  Those of the host clock ([..._ns]) are not modelled. *)
(** [cc3xx_core.h: "struct stats_state {" .. "std::array<uint64_t, 32> crypto_engine_count{};"] *)
Inductive stat :=
| read_accesses
| write_accesses
| read_bytes
| write_bytes
| reset_count
| pka_opcode_writes
| pka_sram_host_read_words
| pka_sram_host_write_words
| sha256_resets
| sha256_update_calls
| sha256_update_bytes
| sha256_transforms
| sha256_finishes
| hash_dma_triggers
| hash_dma_bytes
| hash_dma_chunks
| hash_dma_read_failures
| hash_auto_finishes
| aes_dma_triggers
| aes_ctr_ops
| aes_ctr_bytes
| aes_ctr_chunks
| aes_ecb_ops
| aes_ecb_bytes
| aes_ecb_chunks
| aes_read_failures
| aes_write_failures
| cmac_resets
| cmac_dma_triggers
| cmac_dma_bytes
| cmac_dma_chunks
| cmac_read_failures
| cmac_finishes
| mem_read_ops
| mem_read_bytes
| mem_write_ops
| mem_write_bytes
| mem_read_failures
| mem_write_failures
| crypto_engine_writes
| register_read_count (i : Z)
| register_write_count (i : Z)
| pka_opcode_count (op : Z)
| crypto_engine_count (engine : Z).

#[export] Instance stat_eq_dec : EqDecision stat.
Proof. solve_decision. Defined.

(** [cc3xx_core.h: "std::array<uint8_t, REG_BYTES> m_regs{};" .. "bool m_cmac_active = false;"] *)
Record core := MkCore {
  m_regs : mem;
  m_pka_sram : list Z;
  m_pka_write_addr : Z;
  m_pka_read_addr : Z;
  m_pka_modulus_cache_valid : bool;
  m_pka_modulus_cache_words : Z;
  m_pka_modulus_cache : Z;
  m_trace_seen_count : Z;
  m_trace_count : Z;
  m_trace_config : trace_config;
  m_stats_interval : Z;
  m_stats_flush_cb : bool;
  m_sha256 : sha256_state;
  m_engine : Z;
  m_cmac_data : list Z;
  m_cmac_active : bool;
  m_stats : stat -> Z;
  (** How often [m_stats_flush_cb] was called. *)
  m_stats_flushed : Z
}.

#[export] Instance eta_core : Eta core := fun c =>
  MkCore (m_regs c) (m_pka_sram c) (m_pka_write_addr c) (m_pka_read_addr c) (m_pka_modulus_cache_valid c)
    (m_pka_modulus_cache_words c) (m_pka_modulus_cache c) (m_trace_seen_count c) (m_trace_count c)
    (m_trace_config c) (m_stats_interval c) (m_stats_flush_cb c) (m_sha256 c) (m_engine c) (m_cmac_data c) (m_cmac_active c)
    (m_stats c) (m_stats_flushed c).

(** [m_stats.k += n] on a [uint64_t]. *)
Definition count (k : stat) (n : Z) (c : core) : core :=
  c <| m_stats ::= fun stats k' => if decide (k = k') then u64 (stats k' + n) else stats k' |>.

(** [++m_stats.k]. *)
Definition count1 (k : stat) : core -> core := count k 1.

(** [cc3xx_core.h: "uint32_t load32(uint32_t offset) const" .. "}"] *)
Definition core_load32 (off : Z) (c : core) : Z := load32 (m_regs c) off.

(** [cc3xx_core.h: "void store32(uint32_t offset, uint32_t value)" .. "}"] *)
Definition core_store32 (off value : Z) (c : core) : core := c <| m_regs ::= store32 off value |>.
