(* ===== verification/Cc3xxPka.v ===== *)
(** The public-key engine of the cryptographic accelerator
    (systemc-components/cc3xx/include/cc3xx_core.h): operands are vectors of
    32-bit words in the engine's memory, found through the first 32 registers;
    an opcode computes on them and reports a status. *)

From S2P Require Import Prelude Bytes Vectors ModArith Cc3xxState.

(** * Words and integers

    [pka_int], an integer of any size, is [Z]; its division truncates. *)

(** [cc3xx_core.h: sign_extend_5] *)
Definition sign_extend_5 (value : Z) : Z :=
  let value := Z.land value 0x1f in
  if test value 0x10 then Z.lor value (not32 0x1f) - 2 ^ 32 else value.

(** [cc3xx_core.h: pka_is_zero] *)
Definition pka_is_zero (data : list Z) : bool := forallb (fun value => value =? 0) data.

(** [cc3xx_core.h: pka_word_modulus] *)
Definition pka_word_modulus (words : Z) : Z := Z.shiftl 1 (words * 32).

(** [cc3xx_core.h: pka_word_mask] *)
Definition pka_word_mask (words : Z) : Z := pka_word_modulus words - 1.

(** [cc3xx_core.h: pka_words_to_int] *)
Definition pka_words_to_int (data : list Z) : Z := foldr (fun it value => Z.shiftl value 32 + it) 0 data.

(** [cc3xx_core.h: 478-484] *)
Fixpoint int_words (words : nat) (value : Z) : list Z :=
  match words with
  | O => []
  | S words => Z.land value 0xffffffff :: int_words words (Z.shiftr value 32)
  end.

(** [cc3xx_core.h: pka_int_to_words] *)
Definition pka_int_to_words (value words : Z) : list Z :=
  if words =? 0 then []
  else
    let modulus := pka_word_modulus words in
    let value := Z.rem value modulus in
    let value := if value <? 0 then value + modulus else value in
    int_words (Z.to_nat words) value.

(** [cc3xx_core.h: pka_positive_mod] *)
Definition pka_positive_mod (value modulus : Z) : Z :=
  if modulus <=? 0 then 0
  else
    let value := Z.rem value modulus in
    if value <? 0 then value + modulus else value.

(** The square-and-multiply loop, one turn per bit of the exponent. *)
(** [cc3xx_core.h: "while (exponent > 0) {" .. "base = (base * base) % modulus;"] *)
Fixpoint pow_loop (fuel : nat) (result base exponent modulus : Z) : Z :=
  match fuel with
  | O => result
  | S fuel =>
      if 0 <? exponent then
        let result := if negb (Z.land exponent 1 =? 0) then Z.rem (result * base) modulus else result in
        pow_loop fuel result (Z.rem (base * base) modulus) (Z.shiftr exponent 1) modulus
      else result
  end.

(** [cc3xx_core.h: pka_pow_mod] *)
Definition pka_pow_mod (base exponent modulus : Z) : Z :=
  if modulus <=? 0 then 0
  else pow_loop (S (Z.to_nat (Z.log2 exponent))) (Z.rem 1 modulus) (pka_positive_mod base modulus) exponent modulus.

(** The inverse, or [None] when [ok] is false and the result 0. *)
(** [cc3xx_core.h: pka_mod_inverse] *)
Definition pka_mod_inverse (value modulus : Z) : option Z :=
  if modulus <=? 1 then None
  else
    let '(t, r) := euclid_loop (euclid_fuel modulus) 0 1 modulus (pka_positive_mod value modulus) in
    if negb (r =? 1) then None
    else Some (if t <? 0 then t + modulus else t).

(** [cc3xx_core.h: pka_shift_words] *)
Definition pka_shift_words (value : list Z) (amount : Z) (left fill_one : bool) : list Z :=
  let words := vec_size value in
  if (words =? 0) || (amount =? 0) then value
  else
    let width := words * 32 in
    if width <=? amount then
      if fill_one then pka_int_to_words (pka_word_mask words) words else replicate (Z.to_nat words) 0
    else
      let result := pka_words_to_int value in
      let ones := Z.shiftl 1 amount - 1 in
      let result :=
        if left then
          let result := Z.shiftl result amount in
          if fill_one then Z.lor result ones else result
        else
          let result := Z.shiftr result amount in
          if fill_one then Z.lor result (Z.shiftl ones (width - amount)) else result in
      pka_int_to_words result words.

(** The sum and the carry, word by word; the operands have one length. *)
(** [cc3xx_core.h: "const uint64_t sum = static_cast<uint64_t>(lhs[i]) + rhs[i] + c;" .. "carry = c != 0;"] *)
Fixpoint add_loop (lhs rhs : list Z) (c : Z) : list Z * Z :=
  match lhs, rhs with
  | l :: lhs, r :: rhs =>
      let sum := u64 (l + r + c) in
      let '(result, c) := add_loop lhs rhs (Z.shiftr sum 32) in
      (u32 sum :: result, c)
  | _, _ => ([], c)
  end.

(** [cc3xx_core.h: pka_add_words] *)
Definition pka_add_words (lhs rhs : list Z) : list Z * bool :=
  let '(result, c) := add_loop lhs rhs 0 in (result, negb (c =? 0)).

(** [cc3xx_core.h: "const uint64_t subtrahend = static_cast<uint64_t>(rhs[i]) + b;" .. "borrow = b != 0;"] *)
Fixpoint sub_loop (lhs rhs : list Z) (b : Z) : list Z * Z :=
  match lhs, rhs with
  | l :: lhs, r :: rhs =>
      let subtrahend := u64 (r + b) in
      let borrow := l <? subtrahend in
      let '(result, b) := sub_loop lhs rhs (if borrow then 1 else 0) in
      (u32 (u64 (l - subtrahend)) :: result, b)
  | _, _ => ([], b)
  end.

(** [cc3xx_core.h: pka_sub_words] *)
Definition pka_sub_words (lhs rhs : list Z) : list Z * bool :=
  let '(result, b) := sub_loop lhs rhs 0 in (result, negb (b =? 0)).

(** * Operands *)

(** [cc3xx_core.h: pka_len_words] *)
Definition pka_len_words (size_id : Z) (c : core) : Z :=
  let bits := if size_id <? 8 then core_load32 (PKA_L_BASE + size_id * 4) c else 0 in
  if bits =? 0 then 1 else Z.min (u32 (bits + 31) / 32) (vec_size (m_pka_sram c)).

(** [cc3xx_core.h: pka_sram_read] *)
Definition pka_sram_read (word_addr : Z) (c : core) : Z :=
  if vec_size (m_pka_sram c) <=? word_addr then 0 else arr_get (m_pka_sram c) word_addr.

(** [cc3xx_core.h: pka_invalidate_modulus_cache] *)
Definition pka_invalidate_modulus_cache (c : core) : core :=
  c <| m_pka_modulus_cache_valid := false |> <| m_pka_modulus_cache_words := 0 |> <| m_pka_modulus_cache := 0 |>.

(** [cc3xx_core.h: pka_sram_write] *)
Definition pka_sram_write (word_addr value : Z) (invalidate_modulus : bool) (c : core) : core :=
  if word_addr <? vec_size (m_pka_sram c) then
    let c := c <| m_pka_sram ::= arr_set word_addr value |> in
    if invalidate_modulus then pka_invalidate_modulus_cache c else c
  else c.

(** [cc3xx_core.h: pka_phys_reg_base] *)
Definition pka_phys_reg_base (phys_reg : Z) (c : core) : Z :=
  if 32 <=? phys_reg then 0 else core_load32 (phys_reg * 4) c.

(** [cc3xx_core.h: pka_load_operand] *)
Definition pka_load_operand (is_immediate : bool) (value words : Z) (signed_immediate : bool) (c : core) : list Z :=
  if words =? 0 then []
  else if is_immediate then
    if signed_immediate then
      let imm := sign_extend_5 value in
      arr_set 0 (u32 imm) (replicate (Z.to_nat words) (if imm <? 0 then 0xffffffff else 0))
    else arr_set 0 (Z.land value 0x1f) (replicate (Z.to_nat words) 0)
  else
    let base := pka_phys_reg_base value c in
    map (fun i => pka_sram_read (u32 (base + u32 i)) c) (range words).

(** [cc3xx_core.h: pka_store_operand] *)
Definition pka_store_operand (phys_reg : Z) (data : list Z) (c : core) : core :=
  let base := pka_phys_reg_base phys_reg c in
  let n_base := pka_phys_reg_base 0 c in
  let writes_modulus := (base <? n_base + vec_size data) && (n_base <? base + vec_size data) in
  foldl (fun c i => pka_sram_write (u32 (base + u32 i)) (arr_get data i) writes_modulus c) c (range (vec_size data)).

(** [cc3xx_core.h: pka_modulus_value] *)
Definition pka_modulus_value (words : Z) (c : core) : core * Z :=
  if m_pka_modulus_cache_valid c && (m_pka_modulus_cache_words c =? words) then (c, m_pka_modulus_cache c)
  else
    let c := c <| m_pka_modulus_cache := pka_words_to_int (pka_load_operand false 0 words false c) |>
               <| m_pka_modulus_cache_words := words |> <| m_pka_modulus_cache_valid := true |> in
    (c, m_pka_modulus_cache c).

(** [cc3xx_core.h: pka_update_status] *)
Definition pka_update_status (result : list Z) (carry sign div_by_zero : bool) (c : core) : core :=
  let status := 0x1 in
  let status := if sign then Z.lor status PKA_STATUS_ALU_SIGN_OUT else status in
  let status := if carry then Z.lor status PKA_STATUS_ALU_CARRY else status in
  let status := if pka_is_zero result then Z.lor status PKA_STATUS_ALU_OUT_ZERO else status in
  let status := if div_by_zero then Z.lor status PKA_STATUS_DIV_BY_ZERO else status in
  core_store32 PKA_DONE 0x1 (core_store32 PKA_PIPE_RDY 0x1 (core_store32 PKA_STATUS status c)).

(** * Opcodes *)

(** What a computation leaves: the state, the result, [carry], [sign] and
    [div_by_zero]. *)
Definition pka_outcome : Type := core * list Z * bool * bool * bool.

(** [cc3xx_core.h: "case CC3XX_PKA_OPCODE_MODADD_MODINC: {" .. "result = pka_add_words(lhs, rhs, carry);"] *)
Definition pka_modadd (words : Z) (lhs rhs : list Z) (c : core) : pka_outcome :=
  let '(c, modulus) := pka_modulus_value words c in
  if 0 <? modulus then
    let sum := pka_words_to_int lhs + pka_words_to_int rhs in
    (c, pka_int_to_words (pka_positive_mod sum modulus) words, modulus <=? sum, false, false)
  else let '(result, carry) := pka_add_words lhs rhs in (c, result, carry, false, false).

(** [cc3xx_core.h: "case CC3XX_PKA_OPCODE_MODSUB_MODDEC_MODNEG: {" .. "break;"] *)
Definition pka_modsub (words : Z) (lhs rhs : list Z) (c : core) : pka_outcome :=
  let lhs_value := pka_words_to_int lhs in
  let rhs_value := pka_words_to_int rhs in
  let '(c, modulus) := pka_modulus_value words c in
  let sign := lhs_value <? rhs_value in
  if 0 <? modulus then
    (c, pka_int_to_words (pka_positive_mod (lhs_value - rhs_value) modulus) words, sign, sign, false)
  else let '(result, carry) := pka_sub_words lhs rhs in (c, result, carry, carry, false).

(** [cc3xx_core.h: "case CC3XX_PKA_OPCODE_DIV: {" .. "pka_store_operand(lhs_id, pka_int_to_words(remainder, words));"] *)
Definition pka_div (words : Z) (lhs_immediate : bool) (lhs_id : Z) (lhs rhs : list Z) (c : core) : pka_outcome :=
  let divisor := pka_words_to_int rhs in
  if divisor =? 0 then
    let c := if negb lhs_immediate then pka_store_operand lhs_id lhs c else c in
    (c, replicate (Z.to_nat words) 0, false, false, true)
  else
    let dividend := pka_words_to_int lhs in
    let quotient := Z.quot dividend divisor in
    let remainder := Z.rem dividend divisor in
    let c := if negb lhs_immediate then pka_store_operand lhs_id (pka_int_to_words remainder words) c else c in
    (c, pka_int_to_words quotient words, false, false, false).

(** [cc3xx_core.h: "case CC3XX_PKA_OPCODE_MODMUL: {" .. "break;"] *)
Definition pka_modmul (words : Z) (lhs rhs : list Z) (c : core) : pka_outcome :=
  let '(c, modulus) := pka_modulus_value words c in
  (c, pka_int_to_words (pka_positive_mod (pka_words_to_int lhs * pka_words_to_int rhs) modulus) words,
   false, false, modulus <=? 0).

(** [cc3xx_core.h: "case CC3XX_PKA_OPCODE_MODEXP: {" .. "break;"] *)
Definition pka_modexp (words : Z) (lhs rhs : list Z) (c : core) : pka_outcome :=
  let '(c, modulus) := pka_modulus_value words c in
  (c, pka_int_to_words (pka_pow_mod (pka_words_to_int lhs) (pka_words_to_int rhs) modulus) words,
   false, false, modulus <=? 0).

(** [cc3xx_core.h: "case CC3XX_PKA_OPCODE_MODINV: {" .. "break;"] *)
Definition pka_modinv (words : Z) (rhs : list Z) (c : core) : pka_outcome :=
  let '(c, modulus) := pka_modulus_value words c in
  let inverse := pka_mod_inverse (pka_words_to_int rhs) modulus in
  (c, pka_int_to_words (default 0 inverse) words, false, false, negb (bool_decide (is_Some inverse))).

(** [cc3xx_core.h: "case CC3XX_PKA_OPCODE_REDUCTION: {" .. "break;"] *)
Definition pka_reduction (words : Z) (lhs : list Z) (c : core) : pka_outcome :=
  let '(c, modulus) := pka_modulus_value words c in
  (c, pka_int_to_words (pka_positive_mod (pka_words_to_int lhs) modulus) words, false, false, modulus <=? 0).

(** The switch over the operation; [None] is its default. *)
(** [cc3xx_core.h: "switch (op) {" .. "default:"] *)
Definition pka_compute (op words : Z) (lhs_immediate : bool) (lhs_id rhs_id : Z) (lhs rhs : list Z) (c : core)
    : option pka_outcome :=
  let product := pka_words_to_int lhs * pka_words_to_int rhs in
  if op =? CC3XX_PKA_OPCODE_ADD_INC then
    let '(result, carry) := pka_add_words lhs rhs in Some (c, result, carry, false, false)
  else if op =? CC3XX_PKA_OPCODE_MODADD_MODINC then Some (pka_modadd words lhs rhs c)
  else if op =? CC3XX_PKA_OPCODE_SUB_DEC_NEG then
    let '(result, carry) := pka_sub_words lhs rhs in Some (c, result, carry, carry, false)
  else if op =? CC3XX_PKA_OPCODE_MODSUB_MODDEC_MODNEG then Some (pka_modsub words lhs rhs c)
  else if op =? CC3XX_PKA_OPCODE_AND_TST0_CLR0 then Some (c, zip_with Z.land lhs rhs, false, false, false)
  else if op =? CC3XX_PKA_OPCODE_OR_COPY_SET0 then Some (c, zip_with Z.lor lhs rhs, false, false, false)
  else if op =? CC3XX_PKA_OPCODE_XOR_FLIP0_INVERT_COMPARE then
    Some (c, zip_with Z.lxor lhs rhs, false, false, false)
  else if (op =? CC3XX_PKA_OPCODE_SHR0) || (op =? CC3XX_PKA_OPCODE_SHR1) || (op =? CC3XX_PKA_OPCODE_SHL0) ||
          (op =? CC3XX_PKA_OPCODE_SHL1) then
    Some (c, pka_shift_words lhs (rhs_id + 1)
      ((op =? CC3XX_PKA_OPCODE_SHL0) || (op =? CC3XX_PKA_OPCODE_SHL1))
      ((op =? CC3XX_PKA_OPCODE_SHR1) || (op =? CC3XX_PKA_OPCODE_SHL1)), false, false, false)
  else if op =? CC3XX_PKA_OPCODE_MULLOW then
    Some (c, pka_int_to_words product words, negb (Z.shiftr product (words * 32) =? 0), false, false)
  else if op =? CC3XX_PKA_OPCODE_MULHIGH then
    Some (c, pka_int_to_words (Z.shiftr product (words * 32)) words, false, false, false)
  else if op =? CC3XX_PKA_OPCODE_DIV then Some (pka_div words lhs_immediate lhs_id lhs rhs c)
  else if op =? CC3XX_PKA_OPCODE_MODMUL then Some (pka_modmul words lhs rhs c)
  else if op =? CC3XX_PKA_OPCODE_MODEXP then Some (pka_modexp words lhs rhs c)
  else if op =? CC3XX_PKA_OPCODE_MODINV then Some (pka_modinv words rhs c)
  else if op =? CC3XX_PKA_OPCODE_REDUCTION then Some (pka_reduction words lhs c)
  else None.

(** The fields of an opcode word. *)
(** [cc3xx_core.h: "const uint32_t size_id = (opcode >> 24) & 0x7u;" .. "const uint32_t result_id = (opcode >> 6) & 0x1fu;"] *)
Record pka_fields := MkFields {
  op : Z; size_id : Z;
  lhs_immediate : bool; lhs_id : Z;
  rhs_immediate : bool; rhs_id : Z;
  discard_result : bool; result_id : Z
}.

Definition pka_decode (opcode : Z) : pka_fields := {|
  op := Z.land (Z.shiftr opcode 27) 0x1f;
  size_id := Z.land (Z.shiftr opcode 24) 0x7;
  lhs_immediate := negb (Z.land (Z.shiftr opcode 23) 0x1 =? 0);
  lhs_id := Z.land (Z.shiftr opcode 18) 0x1f;
  rhs_immediate := negb (Z.land (Z.shiftr opcode 17) 0x1 =? 0);
  rhs_id := Z.land (Z.shiftr opcode 12) 0x1f;
  discard_result := negb (Z.land (Z.shiftr opcode 11) 0x1 =? 0);
  result_id := Z.land (Z.shiftr opcode 6) 0x1f
|}.

Definition pka_signed (op : Z) : bool :=
  (op =? CC3XX_PKA_OPCODE_ADD_INC) || (op =? CC3XX_PKA_OPCODE_SUB_DEC_NEG) ||
  (op =? CC3XX_PKA_OPCODE_MODADD_MODINC) || (op =? CC3XX_PKA_OPCODE_MODSUB_MODDEC_MODNEG).

(** [cc3xx_core.h: execute_pka_opcode] *)
Definition execute_pka_opcode (opcode : Z) (c : core) : core :=
  let f := pka_decode opcode in
  let c := count1 pka_opcode_writes c in
  if op f =? 0 then c
  else
    let c := count1 (pka_opcode_count (op f)) c in
    let shift_op := (CC3XX_PKA_OPCODE_SHR0 <=? op f) && (op f <=? CC3XX_PKA_OPCODE_SHL1) in
    let words := pka_len_words (size_id f) c in
    let lhs := pka_load_operand (lhs_immediate f) (lhs_id f) words (pka_signed (op f)) c in
    let rhs := if shift_op then replicate (Z.to_nat words) 0
               else pka_load_operand (rhs_immediate f) (rhs_id f) words (pka_signed (op f)) c in
    match pka_compute (op f) words (lhs_immediate f) (lhs_id f) (rhs_id f) lhs rhs c with
    | Some (c, result, carry, sign, div_by_zero) =>
        let c := if negb (discard_result f) then pka_store_operand (result_id f) result c else c in
        pka_update_status result carry sign div_by_zero c
    | None => pka_update_status (replicate (Z.to_nat words) 0) false false false c
    end.
