(* ===== verification/PkaArith.v ===== *)
(** The arithmetic of the public-key engine: vectors of words as numbers, and
    the loops over them as operations on these numbers. *)

From Stdlib Require Import Znumtheory Zpow_facts.
From S2P Require Import Prelude Bytes Vectors ModArith Cc3xxState Cc3xxPka.

Definition words_ok (data : list Z) : Prop := Forall is_u32 data.

(** The number of values of a vector of [words] words. *)
Definition word_span (words : Z) : Z := 2 ^ (32 * words).

Lemma word_span_pos words : 0 < word_span words \/ words < 0.
Proof. unfold word_span. destruct (Z.lt_ge_cases words 0); [by right|left]. apply Z.pow_pos_nonneg; lia. Qed.

Lemma word_modulus_span words : 0 <= words -> pka_word_modulus words = word_span words.
Proof. intros. unfold pka_word_modulus, word_span. rewrite Z.shiftl_1_l. f_equal. lia. Qed.

Lemma words_to_int_cons w data : pka_words_to_int (w :: data) = w + 2 ^ 32 * pka_words_to_int data.
Proof. unfold pka_words_to_int. cbn [foldr]. rewrite Z.shiftl_mul_pow2 by lia. ring. Qed.

Lemma words_to_int_range data : words_ok data -> 0 <= pka_words_to_int data < word_span (vec_size data).
Proof.
  unfold word_span, vec_size. induction 1 as [|w data Hw _ IH]; [done|]. rewrite words_to_int_cons. cbn [length].
  replace (32 * Z.of_nat (S (length data))) with (32 + 32 * Z.of_nat (length data)) by lia.
  rewrite Z.pow_add_r by lia. unfold is_uint in Hw. lia.
Qed.

Lemma land_mask32 v : Z.land v 0xffffffff = v mod 2 ^ 32.
Proof. change 0xffffffff with (Z.ones 32). by rewrite Z.land_ones by lia. Qed.

Lemma int_words_length n v : length (int_words n v) = n.
Proof. revert v. induction n as [|n IH]; intros v; [done|]. cbn [int_words length]. by rewrite IH. Qed.

Lemma int_words_ok n v : words_ok (int_words n v).
Proof.
  revert v. induction n as [|n IH]; intros v; constructor; [|apply IH].
  rewrite land_mask32. by apply wrap_range.
Qed.

Lemma int_words_value n v : pka_words_to_int (int_words n v) = v mod word_span (Z.of_nat n).
Proof.
  unfold word_span. revert v. induction n as [|n IH]; intros v; [by rewrite Z.mod_1_r|].
  cbn [int_words]. rewrite words_to_int_cons, IH, land_mask32, Z.shiftr_div_pow2 by lia.
  replace (32 * Z.of_nat (S n)) with (32 + 32 * Z.of_nat n) by lia. rewrite Z.pow_add_r by lia.
  rewrite Z.rem_mul_r; [done|lia|]. apply Z.pow_pos_nonneg; lia.
Qed.

(** Writing a number as words keeps it modulo the span, negative ones included. *)
Lemma int_to_words_spec v words : 0 <= words ->
  words_ok (pka_int_to_words v words) /\ vec_size (pka_int_to_words v words) = words /\
  pka_words_to_int (pka_int_to_words v words) = v mod word_span words.
Proof.
  intros Hw. unfold pka_int_to_words. destruct (Z.eqb_spec words 0) as [->|Hne].
  { split; [constructor|]. split; [done|]. unfold word_span. by rewrite Z.mod_1_r. }
  rewrite word_modulus_span by lia. destruct (word_span_pos words) as [Hs|]; [|lia].
  split; [apply int_words_ok|]. split; [unfold vec_size; rewrite int_words_length; lia|].
  rewrite int_words_value, Z2Nat.id by lia. rewrite rem_mod by done. apply Z.mod_mod. lia.
Qed.

Lemma int_to_words_small v words : 0 <= words -> 0 <= v < word_span words ->
  pka_words_to_int (pka_int_to_words v words) = v.
Proof. intros Hw Hv. destruct (int_to_words_spec v words Hw) as (_ & _ & ->). by apply Z.mod_small. Qed.

(** A vector is determined by its length and number. *)
Lemma words_to_int_inj data data' : words_ok data -> words_ok data' -> length data = length data' ->
  pka_words_to_int data = pka_words_to_int data' -> data = data'.
Proof.
  intros Hd. revert data'. induction Hd as [|w data Hw Hd IH]; intros [|w' data'] Hd' Hl E; try done.
  inversion_clear Hd' as [|? ? Hw' Hd'']. rewrite !words_to_int_cons in E. unfold is_uint in *.
  assert (w = w') as -> by lia. f_equal. apply IH; [done| |]; [by injection Hl|lia].
Qed.

Lemma positive_mod_spec v m : pka_positive_mod v m = if 0 <? m then v mod m else 0.
Proof.
  unfold pka_positive_mod. destruct (Z.leb_spec m 0), (Z.ltb_spec 0 m); try lia. by apply rem_mod.
Qed.

Lemma is_zero_spec data : words_ok data -> pka_is_zero data = (pka_words_to_int data =? 0).
Proof.
  induction 1 as [|w data Hw Hd IH]; [done|]. rewrite words_to_int_cons. cbn [pka_is_zero forallb].
  unfold pka_is_zero in IH. rewrite IH. pose proof (words_to_int_range data Hd). unfold is_uint in Hw. lia.
Qed.

(** * Sums and differences *)

Lemma add_loop_spec lhs rhs c : words_ok lhs -> words_ok rhs -> length lhs = length rhs -> 0 <= c <= 1 ->
  let '(result, c') := add_loop lhs rhs c in
  words_ok result /\ length result = length lhs /\ 0 <= c' <= 1 /\
  pka_words_to_int lhs + pka_words_to_int rhs + c = pka_words_to_int result + word_span (vec_size lhs) * c'.
Proof.
  intros Hl. revert rhs c. induction Hl as [|l lhs Hl0 Hl IH]; intros [|r rhs] c Hr Hlen Hc; try done.
  { split; [constructor|]. split; [done|]. split; [done|]. change (0 + 0 + c = 0 + 1 * c). lia. }
  inversion_clear Hr as [|? ? Hr0 Hr']. cbn [add_loop]. unfold is_uint in Hl0, Hr0.
  rewrite (wrap_small 64) by (split; lia). rewrite Z.shiftr_div_pow2 by lia.
  pose proof (Z.div_mod (l + r + c) (2 ^ 32) ltac:(lia)) as Hd.
  pose proof (Z.mod_pos_bound (l + r + c) (2 ^ 32) ltac:(lia)) as Hm.
  specialize (IH rhs ((l + r + c) / 2 ^ 32) Hr' ltac:(by injection Hlen) ltac:(lia)).
  destruct (add_loop lhs rhs _) as [result c'] eqn:E. destruct IH as (Hok & Hlr & Hc' & Hsum).
  split; [constructor; [by apply wrap_range|done]|]. split; [by cbn [length]; rewrite Hlr|]. split; [done|].
  rewrite !words_to_int_cons. unfold word_span, vec_size in *. cbn [length].
  replace (32 * Z.of_nat (S (length lhs))) with (32 + 32 * Z.of_nat (length lhs)) by lia.
  rewrite Z.pow_add_r by lia. unfold wrap. nia.
Qed.

(** The addition wraps at the span and reports that it did. *)
Lemma add_words_spec lhs rhs : words_ok lhs -> words_ok rhs -> length lhs = length rhs ->
  let x := pka_words_to_int lhs in let y := pka_words_to_int rhs in
  let '(result, carry) := pka_add_words lhs rhs in
  words_ok result /\ vec_size result = vec_size lhs /\
  pka_words_to_int result = (x + y) mod word_span (vec_size lhs) /\ carry = (word_span (vec_size lhs) <=? x + y).
Proof.
  intros Hl Hr Hlen x y. unfold pka_add_words. pose proof (add_loop_spec lhs rhs 0 Hl Hr Hlen ltac:(lia)) as H.
  destruct (add_loop lhs rhs 0) as [result c]. destruct H as (Hok & Hlr & Hc & Hsum).
  split; [done|]. split; [unfold vec_size; by rewrite Hlr|].
  pose proof (words_to_int_range result Hok) as Hres. unfold vec_size in *. rewrite Hlr in Hres.
  fold x y in Hsum. rewrite Z.add_0_r in Hsum. set (N := word_span _) in *. split.
  - apply (Z.mod_unique _ _ c); lia.
  - rewrite Hsum. destruct (Z.eqb_spec c 0) as [->|]; cbn [negb]; [lia|]. assert (c = 1) as -> by lia. lia.
Qed.

Lemma sub_loop_spec lhs rhs b : words_ok lhs -> words_ok rhs -> length lhs = length rhs -> 0 <= b <= 1 ->
  let '(result, b') := sub_loop lhs rhs b in
  words_ok result /\ length result = length lhs /\ 0 <= b' <= 1 /\
  pka_words_to_int lhs - pka_words_to_int rhs - b = pka_words_to_int result - word_span (vec_size lhs) * b'.
Proof.
  intros Hl. revert rhs b. induction Hl as [|l lhs Hl0 Hl IH]; intros [|r rhs] b Hr Hlen Hb; try done.
  { split; [constructor|]. split; [done|]. split; [done|]. change (0 - 0 - b = 0 - 1 * b). lia. }
  inversion_clear Hr as [|? ? Hr0 Hr']. cbn [sub_loop]. unfold is_uint in Hl0, Hr0.
  rewrite (wrap_small 64 (r + b)) by (split; lia).
  set (nb := if l <? r + b then 1 else 0).
  assert (0 <= nb <= 1 /\ u32 (u64 (l - (r + b))) = l - (r + b) + 2 ^ 32 * nb) as [Hnb Hw].
  { unfold nb, wrap. destruct (Z.ltb_spec l (r + b)); split; lia. }
  specialize (IH rhs nb Hr' ltac:(by injection Hlen) Hnb).
  destruct (sub_loop lhs rhs nb) as [result b'] eqn:E. destruct IH as (Hok & Hlr & Hb' & Hsum).
  split; [constructor; [by apply wrap_range|done]|]. split; [by cbn [length]; rewrite Hlr|]. split; [done|].
  rewrite !words_to_int_cons, Hw. unfold word_span, vec_size in *. cbn [length].
  replace (32 * Z.of_nat (S (length lhs))) with (32 + 32 * Z.of_nat (length lhs)) by lia.
  rewrite Z.pow_add_r by lia. nia.
Qed.

(** The subtraction wraps at the span and reports a borrow. *)
Lemma sub_words_spec lhs rhs : words_ok lhs -> words_ok rhs -> length lhs = length rhs ->
  let x := pka_words_to_int lhs in let y := pka_words_to_int rhs in
  let '(result, borrow) := pka_sub_words lhs rhs in
  words_ok result /\ vec_size result = vec_size lhs /\
  pka_words_to_int result = (x - y) mod word_span (vec_size lhs) /\ borrow = (x <? y).
Proof.
  intros Hl Hr Hlen x y. unfold pka_sub_words. pose proof (sub_loop_spec lhs rhs 0 Hl Hr Hlen ltac:(lia)) as H.
  destruct (sub_loop lhs rhs 0) as [result b]. destruct H as (Hok & Hlr & Hb & Hsum).
  split; [done|]. split; [unfold vec_size; by rewrite Hlr|].
  pose proof (words_to_int_range result Hok) as Hres. pose proof (words_to_int_range lhs Hl) as Hx.
  unfold vec_size in *. rewrite Hlr in Hres. fold x in Hx, Hsum. fold y in Hsum. rewrite Z.sub_0_r in Hsum.
  set (N := word_span _) in *. split.
  - apply (Z.mod_unique _ _ (- b)); lia.
  - destruct (Z.eqb_spec b 0) as [->|]; cbn [negb]; [lia|]. assert (b = 1) as -> by lia. lia.
Qed.

(** * Bitwise operations and shifts *)

(** An operation that acts on bits of equal position. *)
Section bitwise_op.
Context (f : Z -> Z -> Z) (g : bool -> bool -> bool).
Hypothesis f_spec : forall a b i, 0 <= i -> Z.testbit (f a b) i = g (Z.testbit a i) (Z.testbit b i).
Hypothesis f_uint : forall a b, is_u32 a -> is_u32 b -> is_u32 (f a b).

Lemma op_pack w v w' v' : is_u32 w -> is_u32 w' ->
  f (w + 2 ^ 32 * v) (w' + 2 ^ 32 * v') = f w w' + 2 ^ 32 * f v v'.
Proof using f_spec f_uint.
  intros Hw Hw'. pose proof (f_uint w w' Hw Hw') as Hx. pose proof Hw as [Hw0 Hw1]. pose proof Hw' as [Hw0' Hw1'].
  rewrite !(Z.add_comm _ (2 ^ 32 * _)), !(Z.mul_comm (2 ^ 32)), <-!lor_pack by (try apply Hx; lia).
  apply Z.bits_inj'. intros i Hi. rewrite f_spec, !Z.lor_spec, !Z.shiftl_spec by done.
  destruct (Z.lt_ge_cases i 32).
  - rewrite !(Z.testbit_neg_r _ (i - 32)) by lia. cbn. by rewrite f_spec.
  - rewrite !(uint_testbit_high 32 _ i) by done. rewrite !orb_false_r. rewrite f_spec by lia. done.
Qed.

Lemma zip_words_spec lhs rhs : words_ok lhs -> words_ok rhs -> length lhs = length rhs -> f 0 0 = 0 ->
  words_ok (zip_with f lhs rhs) /\ vec_size (zip_with f lhs rhs) = vec_size lhs /\
  pka_words_to_int (zip_with f lhs rhs) = f (pka_words_to_int lhs) (pka_words_to_int rhs).
Proof using f_spec f_uint.
  intros Hl Hr Hlen H0. split; [|split].
  - revert rhs Hr Hlen. induction Hl; intros [|? rhs] Hr Hlen; inversion_clear Hr; constructor; [by apply f_uint|].
    apply IHHl; [done|]. by injection Hlen.
  - unfold vec_size. rewrite length_zip_with. lia.
  - revert rhs Hr Hlen. induction Hl as [|w lhs Hw Hl IH]; intros [|w' rhs] Hr Hlen; try done.
    inversion_clear Hr. cbn [zip_with]. rewrite !words_to_int_cons, IH, op_pack; try done. by injection Hlen.
Qed.
End bitwise_op.

(** A shift by [k] bits that brings in zeroes or ones. *)
Definition shifted (left ones : bool) (x k width : Z) : Z :=
  if left then (x * 2 ^ k + (if ones then 2 ^ k - 1 else 0)) mod 2 ^ width
  else x / 2 ^ k + (if ones then (2 ^ k - 1) * 2 ^ (width - k) else 0).

Lemma shift_words_spec value k left ones : words_ok value -> 0 < vec_size value -> 0 < k <= 32 ->
  words_ok (pka_shift_words value k left ones) /\
  vec_size (pka_shift_words value k left ones) = vec_size value /\
  pka_words_to_int (pka_shift_words value k left ones) =
    shifted left ones (pka_words_to_int value) k (32 * vec_size value).
Proof.
  intros Hok Hn Hk. unfold pka_shift_words. set (n := vec_size value) in *.
  pose proof (words_to_int_range value Hok) as Hx. fold n in Hx. set (x := pka_words_to_int value) in *.
  replace ((n =? 0) || (k =? 0)) with false by lia. assert (0 < 2 ^ k) as Hp by (apply Z.pow_pos_nonneg; lia).
  assert (word_span n = 2 ^ (32 * n)) as Hspan by done.
  destruct (Z.leb_spec (n * 32) k).
  - assert (n = 1 /\ k = 32) as [E1 ->] by lia. rewrite E1 in *. change (word_span 1) with (2 ^ 32) in *.
    unfold shifted. destruct ones.
    + destruct (int_to_words_spec (pka_word_mask 1) 1 ltac:(lia)) as (H1 & H2 & ->). split_and!; try done.
      destruct left.
      * rewrite Z.add_comm, Z.mod_add by lia. reflexivity.
      * rewrite Z.div_small by lia. reflexivity.
    + split_and!; [by apply Forall_replicate, is_uint_0|done|]. destruct left.
      * rewrite Z.add_0_r, Z.mod_mul by lia. reflexivity.
      * rewrite Z.div_small by lia. reflexivity.
  - match goal with |- context [pka_int_to_words ?v n] => destruct (int_to_words_spec v n ltac:(lia)) as (H1 & H2 & ->) end.
    split_and!; try done. unfold shifted. rewrite Hspan. destruct left.
    + f_equal. destruct ones; [rewrite Z.shiftl_1_l, lor_pack by lia; lia|rewrite Z.shiftl_mul_pow2 by lia; lia].
    + rewrite Z.shiftr_div_pow2 by lia.
      assert (0 <= x / 2 ^ k < 2 ^ (n * 32 - k)) as Hq.
      { split; [apply Z.div_pos; lia|]. apply Z.div_lt_upper_bound; [lia|].
        rewrite <-Z.pow_add_r by lia. replace (k + (n * 32 - k)) with (32 * n) by lia. lia. }
      replace (32 * n - k) with (n * 32 - k) by lia.
      assert (2 ^ (32 * n) = 2 ^ k * 2 ^ (n * 32 - k)) as Hsplit by (rewrite <-Z.pow_add_r by lia; f_equal; lia).
      destruct ones; [|rewrite Z.add_0_r; apply Z.mod_small; nia].
      rewrite Z.lor_comm, Z.shiftl_1_l, lor_pack by lia. rewrite Z.add_comm. apply Z.mod_small. nia.
Qed.

(** * Powers and inverses *)

Lemma rem_nonneg a m : 0 <= a -> 0 < m -> Z.rem a m = a mod m.
Proof. intros. by apply Z.rem_mod_nonneg. Qed.

(** The loop multiplies [base ^ exponent] into the result: its fuel, one turn
    per bit, is enough. *)
Lemma pow_loop_spec fuel result base exponent m : 0 < m -> 0 <= result < m -> 0 <= base < m ->
  0 <= exponent < 2 ^ Z.of_nat fuel ->
  pow_loop fuel result base exponent m = (result * base ^ exponent) mod m.
Proof.
  intros Hm. revert result base exponent. induction fuel as [|fuel IH]; intros result base e Hr Hb He.
  { assert (e = 0) as -> by (cbn in He; lia). cbn. rewrite Z.mul_1_r. symmetry. by apply Z.mod_small. }
  cbn [pow_loop]. destruct (Z.ltb_spec 0 e).
  2:{ assert (e = 0) as -> by lia. cbn. rewrite Z.mul_1_r. symmetry. by apply Z.mod_small. }
  rewrite Nat2Z.inj_succ, Z.pow_succ_r in He by lia.
  rewrite (rem_nonneg (base * base)) by nia. change 1 with (Z.ones 1) at 1. rewrite Z.land_ones by lia.
  rewrite Z.shiftr_div_pow2 by lia. change (2 ^ 1) with 2.
  pose proof (Z.div_mod e 2 ltac:(lia)) as Hd. pose proof (Z.mod_pos_bound e 2 ltac:(lia)).
  assert (base ^ e = (base * base) ^ (e / 2) * base ^ (e mod 2)) as Hpow.
  { rewrite Hd at 1. rewrite Z.pow_add_r, Z.pow_mul_r by lia. by rewrite Z.pow_2_r. }
  rewrite IH; [|destruct (negb _); [rewrite rem_nonneg by nia; by apply Z.mod_pos_bound|done]
    |by apply Z.mod_pos_bound|lia].
  rewrite Hpow. destruct (Z.eqb_spec (e mod 2) 0) as [E|E]; cbn [negb].
  - rewrite E, Z.pow_0_r, Z.mul_1_r. rewrite <-(Z.mul_mod_idemp_r result (_ ^ _)), Zpower_mod, Z.mod_mod by lia.
    rewrite <-Zpower_mod by lia. by rewrite Z.mul_mod_idemp_r by lia.
  - assert (e mod 2 = 1) as -> by lia. rewrite Z.pow_1_r, rem_nonneg by nia.
    rewrite Z.mul_mod_idemp_l by lia. rewrite <-(Z.mul_mod_idemp_r _ (_ ^ _)), Zpower_mod, Z.mod_mod by lia.
    rewrite <-Zpower_mod, Z.mul_mod_idemp_r by lia. f_equal. ring.
Qed.

Lemma pow_mod_spec base e m : 0 <= base -> 0 <= e ->
  pka_pow_mod base e m = if 0 <? m then (base ^ e) mod m else 0.
Proof.
  intros Hb He. unfold pka_pow_mod. destruct (Z.leb_spec m 0), (Z.ltb_spec 0 m); try lia.
  rewrite positive_mod_spec. replace (0 <? m) with true by lia. rewrite rem_nonneg by lia.
  rewrite pow_loop_spec; [|done|by apply Z.mod_pos_bound|by apply Z.mod_pos_bound|].
  - rewrite Z.mul_mod_idemp_l, Z.mul_1_l by lia. rewrite <-Zpower_mod by lia. done.
  - split; [done|]. pose proof (Z.log2_nonneg e). rewrite Nat2Z.inj_succ, Z2Nat.id by lia.
    destruct (Z.eq_dec e 0) as [->|]; [done|]. apply Z.log2_spec. lia.
Qed.

(** The inverse exists when the value and the modulus are coprime, and is one. *)
Lemma mod_inverse_spec v m :
  match pka_mod_inverse v m with
  | Some r => 1 < m /\ Z.gcd m v = 1 /\ 0 <= r < m /\ (r * v) mod m = 1
  | None => m <= 1 \/ Z.gcd m v <> 1
  end.
Proof.
  unfold pka_mod_inverse. destruct (Z.leb_spec m 1); [by left|]. rewrite positive_mod_spec.
  replace (0 <? m) with true by lia. pose proof (euclid_spec m v ltac:(lia)) as He.
  destruct (euclid_loop _ _ _ _ _) as [t r]. destruct He as (-> & Ht & k & Hk).
  destruct (Z.eqb_spec (Z.gcd m v) 1) as [E|]; cbn [negb]; [|by right]. rewrite E in Hk.
  split; [done|]. split; [done|]. pose proof (inverse_spec m v t k ltac:(lia) Hk) as Hinv.
  assert ((if t <? 0 then t + m else t) = t mod m) as ->; [|split; [apply Z.mod_pos_bound; lia|done]].
  destruct (Z.ltb_spec t 0).
  - apply (Z.mod_unique _ _ (-1)); lia.
  - symmetry. apply Z.mod_small. lia.
Qed.
