(* ===== verification/PkaOps.v ===== *)
(** The opcodes of the public-key engine compute arithmetic: what each one
    leaves in its result register and in the status, and when the cached modulus
    is the one in memory. *)

From S2P Require Import Prelude Bytes Vectors ModArith Cc3xxState Cc3xxPka PkaArith.

(** * States *)

(** The 32 registers that say where the operands are begin the register file. *)
Definition PKA_BASES_END : Z := 0x80.

(** What the engine relies on: bytes in those registers, words in its memory. *)
Definition pka_ok (c : core) : Prop :=
  (forall i, i < PKA_BASES_END -> is_u8 (mem_get (m_regs c) i)) /\
  arr_ok (Z.to_nat PKA_SRAM_WORDS) 32 (m_pka_sram c).

Lemma pka_ok_mem c : mem_ok REG_BYTES (m_regs c) -> arr_ok (Z.to_nat PKA_SRAM_WORDS) 32 (m_pka_sram c) -> pka_ok c.
Proof. intros Hm Hs. split; [|done]. intros i _. by eapply mem_get_u8. Qed.

(** The cached modulus is the operand in the first register. *)
Definition cache_ok (c : core) : Prop :=
  m_pka_modulus_cache_valid c = true ->
  m_pka_modulus_cache c = pka_words_to_int (pka_load_operand false 0 (m_pka_modulus_cache_words c) false c).

(** The address of word [i] of an operand. *)
Definition operand_word (id i : Z) (c : core) : Z := u32 (pka_phys_reg_base id c + u32 i).

(** Registers and memory, which operands are read from. *)
Definition same_operands (c c' : core) : Prop := m_regs c' = m_regs c /\ m_pka_sram c' = m_pka_sram c.

#[export] Instance same_operands_equiv : Equivalence same_operands.
Proof.
  unfold same_operands. split; repeat intro; intuition congruence.
Qed.

Lemma load_operand_same imm id words sgn c c' : same_operands c c' ->
  pka_load_operand imm id words sgn c' = pka_load_operand imm id words sgn c.
Proof.
  intros [Hr Hs]. unfold pka_load_operand, pka_phys_reg_base, pka_sram_read, core_load32. by rewrite Hr, Hs.
Qed.

Lemma len_words_same id c c' : same_operands c c' -> pka_len_words id c' = pka_len_words id c.
Proof. intros [Hr Hs]. unfold pka_len_words, core_load32. by rewrite Hr, Hs. Qed.

Lemma sram_size c : pka_ok c -> vec_size (m_pka_sram c) = PKA_SRAM_WORDS.
Proof. intros [_ [Hl _]]. unfold vec_size. rewrite Hl. done. Qed.

Lemma len_words_range id c : pka_ok c -> 0 <= pka_len_words id c <= PKA_SRAM_WORDS.
Proof.
  intros Hc. unfold pka_len_words. rewrite (sram_size c Hc). change PKA_SRAM_WORDS with 1536.
  case_if; [lia|]. pose proof (wrap_range 32 ((if id <? 8 then core_load32 (PKA_L_BASE + id * 4) c else 0) + 31) ltac:(lia)) as [H0 _].
  pose proof (Z.div_pos _ 32 H0 ltac:(lia)). lia.
Qed.

Lemma sram_read_u32 a c : pka_ok c -> is_u32 (pka_sram_read a c).
Proof.
  intros [_ Hs]. unfold pka_sram_read. case_if; [by apply is_uint_0|]. by apply (arr_ok_get _ 32 _ a ltac:(lia) Hs).
Qed.

Lemma load_operand_ok imm id words sgn c : pka_ok c -> 0 <= words ->
  words_ok (pka_load_operand imm id words sgn c) /\ vec_size (pka_load_operand imm id words sgn c) = words.
Proof.
  intros Hc Hw. unfold pka_load_operand, words_ok, vec_size. destruct (Z.eqb_spec words 0) as [->|]; [done|].
  destruct imm; [destruct sgn|].
  - unfold arr_set. rewrite length_insert, length_replicate, Z2Nat.id by done. split; [|done].
    apply Forall_insert; [apply Forall_replicate; case_if; by split|by apply wrap_range].
  - unfold arr_set. rewrite length_insert, length_replicate, Z2Nat.id by done. split; [|done].
    apply Forall_insert; [apply Forall_replicate, is_uint_0; lia|]. apply land_uint_r; [lia|by split].
  - unfold range. rewrite length_map, length_seqZ. split; [|lia].
    apply Forall_map, Forall_true. intros i. by apply sram_read_u32.
Qed.

(** An immediate is its value, a signed one modulo the span. *)
Lemma load_immediate id words sgn c : 0 <= id < 32 -> 0 < words ->
  pka_words_to_int (pka_load_operand true id words sgn c) =
  if sgn && (16 <=? id) then (id - 32) mod word_span words else id.
Proof.
  intros Hid Hw. unfold pka_load_operand. replace (words =? 0) with false by lia.
  assert (exists n, Z.to_nat words = S n /\ words = Z.of_nat (S n)) as (n & -> & ->) by (exists (Z.to_nat (words - 1)); lia).
  assert (forall m, pka_words_to_int (replicate m 0) = 0) as Hz.
  { induction m as [|m IH]; [done|]. cbn [replicate]. by rewrite words_to_int_cons, IH. }
  assert (forall m, pka_words_to_int (replicate m 0xffffffff) = word_span (Z.of_nat m) - 1) as Ho.
  { induction m as [|m IH]; [done|]. cbn [replicate]. rewrite words_to_int_cons, IH. unfold word_span.
    replace (32 * Z.of_nat (S m)) with (32 + 32 * Z.of_nat m) by lia. rewrite Z.pow_add_r by lia. lia. }
  unfold arr_set. change (Z.to_nat 0) with 0%nat.
  assert (Z.land id 0x1f = id) as Hl.
  { change 0x1f with (Z.ones 5). rewrite Z.land_ones by lia. by apply Z.mod_small. }
  destruct sgn; cbn [andb].
  - unfold sign_extend_5. rewrite Hl. replace (test id 0x10) with (Z.testbit id 4) by (symmetry; apply (test_bit id 4); lia).
    assert (Z.testbit id 4 = (16 <=? id)) as ->.
    { assert (forallb (fun i => eqb (Z.testbit i 4) (16 <=? i)) (range 32) = true) as Hall by done.
      rewrite forallb_forall in Hall. apply eqb_prop, Hall. by apply list_elem_of_In, elem_of_range. }
    destruct (Z.leb_spec 16 id).
    + assert (Z.lor id (not32 0x1f) = id + 0xffffffe0) as ->.
      { change (not32 0x1f) with (Z.shiftl 0x7ffffff 5). rewrite Z.lor_comm, lor_pack by lia. lia. }
      replace (id + 0xffffffe0 - 2 ^ 32 <? 0) with true by lia. cbn [replicate insert list_insert].
      rewrite words_to_int_cons, Ho. unfold word_span.
      replace (32 * Z.of_nat (S n)) with (32 + 32 * Z.of_nat n) by lia. rewrite Z.pow_add_r by lia.
      assert (0 < 2 ^ (32 * Z.of_nat n)) by (apply Z.pow_pos_nonneg; lia).
      assert (u32 (id + 0xffffffe0 - 2 ^ 32) = 2 ^ 32 + (id - 32)) as ->.
      { symmetry. apply (Z.mod_unique _ _ (-1)); lia. }
      apply (Z.mod_unique _ _ (-1)); nia.
    + replace (id <? 0) with false by lia. cbn [replicate insert list_insert]. rewrite words_to_int_cons, Hz.
      rewrite wrap_small by (split; lia). lia.
  - rewrite Hl. cbn [replicate insert list_insert]. rewrite words_to_int_cons, Hz. lia.
Qed.

(** * The modulus *)

Lemma modulus_value_spec words c : cache_ok c ->
  let '(c', m) := pka_modulus_value words c in
  m = pka_words_to_int (pka_load_operand false 0 words false c) /\ same_operands c c' /\ cache_ok c' /\
  m_pka_modulus_cache_words c' = words /\ m_pka_modulus_cache_valid c' = true.
Proof.
  intros Hc. unfold pka_modulus_value. case_if.
  - apply andb_true_iff in E as [Hv Hw%Z.eqb_eq]. rewrite (Hc Hv), Hw. done.
  - cbn. repeat split.
Qed.

(** * Storing a result *)

Lemma sram_write_regs a v inval c : m_regs (pka_sram_write a v inval c) = m_regs c.
Proof. unfold pka_sram_write. case_if; [|done]. by destruct inval. Qed.

Lemma sram_write_sram a v inval c : m_pka_sram (pka_sram_write a v inval c) =
  if a <? vec_size (m_pka_sram c) then arr_set a v (m_pka_sram c) else m_pka_sram c.
Proof. unfold pka_sram_write. case_if; [|done]. by destruct inval. Qed.

Lemma sram_write_ok a v inval c : pka_ok c -> is_u32 v -> pka_ok (pka_sram_write a v inval c).
Proof.
  intros [Hm Hs] Hv. split; [by rewrite sram_write_regs|]. rewrite sram_write_sram. case_if; [by apply arr_ok_set|done].
Qed.

(** What a store writes, word by word. *)
Definition store_words (base : Z) (data : list Z) (inval : bool) (n : Z) (c : core) : core :=
  foldl (fun c i => pka_sram_write (u32 (base + u32 i)) (arr_get data i) inval c) c (range n).

Lemma store_words_spec base data inval n c : words_ok data -> pka_ok c -> 0 <= n ->
  let c' := store_words base data inval n c in
  m_regs c' = m_regs c /\ pka_ok c' /\
  (forall a, 0 <= a -> (forall i, 0 <= i < n -> a <> u32 (base + u32 i)) -> arr_get (m_pka_sram c') a = arr_get (m_pka_sram c) a) /\
  (0 <= base -> base + n <= PKA_SRAM_WORDS ->
   forall i, 0 <= i < n -> arr_get (m_pka_sram c') (base + i) = arr_get data i).
Proof.
  intros Hd Hc Hn. unfold store_words.
  apply (foldl_range_ind _ (fun n c' => m_regs c' = m_regs c /\ pka_ok c' /\
    (forall a, 0 <= a -> (forall i, 0 <= i < n -> a <> u32 (base + u32 i)) -> arr_get (m_pka_sram c') a = arr_get (m_pka_sram c) a) /\
    (0 <= base -> base + n <= PKA_SRAM_WORDS ->
     forall i, 0 <= i < n -> arr_get (m_pka_sram c') (base + i) = arr_get data i))); [done| |].
  { repeat (split; [done|]). intros. lia. }
  intros k c' Hk (Hr & Hok & Hout & Hin).
  pose proof (wrap_range 32 (base + u32 k) ltac:(lia)) as [Ha _].
  assert (is_u32 (arr_get data k)) as Hv.
  { apply (arr_ok_get (length data)); [lia|by split]. }
  split; [by rewrite sram_write_regs|]. split; [by apply sram_write_ok|]. rewrite sram_write_sram, (sram_size c' Hok).
  split.
  - intros a Ha0 Hne. rewrite <-Hout; [|done|intros i Hi; apply Hne; lia].
    case_if; [|done]. rewrite arr_get_set_ne; [done|lia|done|]. intros E'. by apply (Hne k ltac:(lia)).
  - intros Hb Hle i Hi. change PKA_SRAM_WORDS with 1536 in *.
    assert (u32 (base + u32 k) = base + k) as -> by (rewrite (wrap_small 32 k), wrap_small; [done|split; lia..]).
    replace (base + k <? 1536) with true by lia. pose proof (sram_size c' Hok) as Hsz. unfold vec_size in Hsz.
    change PKA_SRAM_WORDS with 1536 in Hsz. destruct (Z.eq_dec i k) as [->|].
    + rewrite arr_get_set_eq by lia. done.
    + rewrite arr_get_set_ne by lia. apply Hin; lia.
Qed.

Lemma store_operand_eq id data c : exists inval,
  pka_store_operand id data c = store_words (pka_phys_reg_base id c) data inval (vec_size data) c.
Proof. by eexists. Qed.

Lemma phys_base_u32 id c : pka_ok c -> is_u32 (pka_phys_reg_base id c).
Proof.
  intros [Hm _]. unfold pka_phys_reg_base, core_load32, load32. case_if; [by apply is_uint_0|].
  pose proof (mem_read_length (m_regs c) (id * 4) 4 ltac:(lia)) as Hl.
  assert (bytes_ok (mem_read (m_regs c) (id * 4) 4)) as Hb.
  { apply Forall_map, Forall_forall. intros k Hk%elem_of_range. apply Hm. unfold PKA_BASES_END. lia. }
  pose proof (le_val_range _ Hb) as Hr. by rewrite Hl in Hr.
Qed.

(** The operand lies in the memory. *)
Definition in_sram (id words : Z) (c : core) : Prop := pka_phys_reg_base id c + words <= PKA_SRAM_WORDS.

(** A word is no word of the operand. *)
Definition outside (id words : Z) (c : core) (a : Z) : Prop := forall i, 0 <= i < words -> a <> operand_word id i c.

Lemma store_operand_spec id data c : words_ok data -> pka_ok c ->
  let c' := pka_store_operand id data c in
  m_regs c' = m_regs c /\ pka_ok c' /\
  (forall a, 0 <= a -> outside id (vec_size data) c a -> arr_get (m_pka_sram c') a = arr_get (m_pka_sram c) a) /\
  (in_sram id (vec_size data) c -> pka_load_operand false id (vec_size data) false c' = data).
Proof.
  intros Hd Hc. destruct (store_operand_eq id data c) as [inval ->]. assert (0 <= vec_size data) as Hn by (unfold vec_size; lia).
  destruct (store_words_spec (pka_phys_reg_base id c) data inval _ c Hd Hc Hn) as (Hr & Hok & Hout & Hin).
  split; [done|]. split; [done|]. split; [done|]. intros Hsram.
  unfold pka_load_operand. destruct (Z.eqb_spec (vec_size data) 0) as [E|E].
  { destruct data; [done|]. unfold vec_size in E. cbn in E. lia. }
  set (c' := store_words _ _ _ _ _) in *. pose proof (sram_size c' Hok) as Hsz.
  assert (pka_phys_reg_base id c' = pka_phys_reg_base id c) as -> by (unfold pka_phys_reg_base, core_load32; by rewrite Hr).
  pose proof (phys_base_u32 id c Hc) as [Hb _]. unfold in_sram in Hsram.
  apply vec_ext. { unfold range. rewrite length_map, length_seqZ. unfold vec_size. lia. }
  intros i Hi. unfold vec_size at 1, range in Hi. rewrite length_map, length_seqZ in Hi.
  unfold arr_get at 1. rewrite list_lookup_fmap. unfold range. rewrite lookup_seqZ_lt by lia. cbn [fmap option_fmap option_map default].
  rewrite Z2Nat.id, Z.add_0_l by lia. rewrite <-Hin by lia. unfold pka_sram_read. rewrite Hsz. change PKA_SRAM_WORDS with 1536 in *.
  assert (u32 (pka_phys_reg_base id c + u32 i) = pka_phys_reg_base id c + i) as ->
    by (rewrite (wrap_small 32 i), wrap_small; [done|split; lia..]).
  by replace (1536 <=? _) with false by lia.
Qed.

(** * What the opcodes mean *)

(** The shifts, as direction and bit brought in. *)
Definition shift_kind (op : Z) : option (bool * bool) :=
  if op =? CC3XX_PKA_OPCODE_SHR0 then Some (false, false)
  else if op =? CC3XX_PKA_OPCODE_SHR1 then Some (false, true)
  else if op =? CC3XX_PKA_OPCODE_SHL0 then Some (true, false)
  else if op =? CC3XX_PKA_OPCODE_SHL1 then Some (true, true)
  else None.

(** [pka_means words x y m k op res carry sign div_by_zero]: operation [op] on
    the numbers [x] and [y] of [words] words, modulus [m] and shift amount [k]
    gives [res] and these flags. *)
Inductive pka_means (words x y m k : Z) : Z -> Z -> bool -> bool -> bool -> Prop :=
| means_add : pka_means words x y m k CC3XX_PKA_OPCODE_ADD_INC
    ((x + y) mod word_span words) (word_span words <=? x + y) false false
| means_sub : pka_means words x y m k CC3XX_PKA_OPCODE_SUB_DEC_NEG
    ((x - y) mod word_span words) (x <? y) (x <? y) false
| means_modadd : 0 < m -> pka_means words x y m k CC3XX_PKA_OPCODE_MODADD_MODINC
    ((x + y) mod m) (m <=? x + y) false false
| means_modadd_0 : m = 0 -> pka_means words x y m k CC3XX_PKA_OPCODE_MODADD_MODINC
    ((x + y) mod word_span words) (word_span words <=? x + y) false false
| means_modsub : 0 < m -> pka_means words x y m k CC3XX_PKA_OPCODE_MODSUB_MODDEC_MODNEG
    ((x - y) mod m) (x <? y) (x <? y) false
| means_modsub_0 : m = 0 -> pka_means words x y m k CC3XX_PKA_OPCODE_MODSUB_MODDEC_MODNEG
    ((x - y) mod word_span words) (x <? y) (x <? y) false
| means_and : pka_means words x y m k CC3XX_PKA_OPCODE_AND_TST0_CLR0 (Z.land x y) false false false
| means_or : pka_means words x y m k CC3XX_PKA_OPCODE_OR_COPY_SET0 (Z.lor x y) false false false
| means_xor : pka_means words x y m k CC3XX_PKA_OPCODE_XOR_FLIP0_INVERT_COMPARE (Z.lxor x y) false false false
| means_shift op left ones : shift_kind op = Some (left, ones) ->
    pka_means words x y m k op (shifted left ones x k (32 * words)) false false false
| means_mullow : pka_means words x y m k CC3XX_PKA_OPCODE_MULLOW
    ((x * y) mod word_span words) (word_span words <=? x * y) false false
| means_mulhigh : pka_means words x y m k CC3XX_PKA_OPCODE_MULHIGH (x * y / word_span words) false false false
| means_div : 0 < y -> pka_means words x y m k CC3XX_PKA_OPCODE_DIV (x / y) false false false
| means_div_0 : y = 0 -> pka_means words x y m k CC3XX_PKA_OPCODE_DIV 0 false false true
| means_modmul : 0 < m -> pka_means words x y m k CC3XX_PKA_OPCODE_MODMUL ((x * y) mod m) false false false
| means_modexp : 0 < m -> pka_means words x y m k CC3XX_PKA_OPCODE_MODEXP ((x ^ y) mod m) false false false
| means_reduce : 0 < m -> pka_means words x y m k CC3XX_PKA_OPCODE_REDUCTION (x mod m) false false false
| means_no_modulus op : m = 0 ->
    op ∈ [CC3XX_PKA_OPCODE_MODMUL; CC3XX_PKA_OPCODE_MODEXP; CC3XX_PKA_OPCODE_REDUCTION] ->
    pka_means words x y m k op 0 false false true
| means_modinv r : 1 < m -> 0 <= r < m -> (r * y) mod m = 1 ->
    pka_means words x y m k CC3XX_PKA_OPCODE_MODINV r false false false
| means_not_invertible : m <= 1 \/ Z.gcd m y <> 1 ->
    pka_means words x y m k CC3XX_PKA_OPCODE_MODINV 0 false false true.

Definition pka_known (op : Z) : bool :=
  existsb (Z.eqb op) [0x04; 0x05; 0x06; 0x07; 0x08; 0x09; 0x0a; 0x0c; 0x0d; 0x0e; 0x0f; 0x10; 0x11; 0x13; 0x14;
    0x15; 0x17; 0x1b].

(** The remainder a division writes back to its left operand. *)
Definition div_remainder (words : Z) (lhs rhs : list Z) : list Z :=
  if pka_words_to_int rhs =? 0 then lhs
  else pka_int_to_words (Z.rem (pka_words_to_int lhs) (pka_words_to_int rhs)) words.

Section compute.
Context (words : Z) (lhs_imm : bool) (lhs_id rhs_id : Z) (lhs rhs : list Z) (c : core).
Hypothesis Hwords : 0 < words.
Hypothesis Hlhs : words_ok lhs /\ vec_size lhs = words.
Hypothesis Hrhs : words_ok rhs /\ vec_size rhs = words.
Hypothesis Hpka : pka_ok c.
Hypothesis Hcache : cache_ok c.
Hypothesis Hshift : 0 <= rhs_id < 32.

Let x := pka_words_to_int lhs.
Let y := pka_words_to_int rhs.
Let m := pka_words_to_int (pka_load_operand false 0 words false c).

(** The outcome of a computation: its flags and result are what the operation
    means, and it changes operands only by the remainder of a division. *)
Definition outcome_ok (op : Z) (o : pka_outcome) : Prop :=
  let '(c', result, carry, sign, dbz) := o in
  words_ok result /\ vec_size result = words /\
  pka_means words x y m (rhs_id + 1) op (pka_words_to_int result) carry sign dbz /\
  same_operands (if (op =? CC3XX_PKA_OPCODE_DIV) && negb lhs_imm
                 then pka_store_operand lhs_id (div_remainder words lhs rhs) c else c) c'.

Lemma pka_x_range : 0 <= x < word_span words.
Proof. destruct Hlhs as [H E]. pose proof (words_to_int_range lhs H) as Hr. by rewrite E in Hr. Qed.

Lemma pka_y_range : 0 <= y < word_span words.
Proof. destruct Hrhs as [H E]. pose proof (words_to_int_range rhs H) as Hr. by rewrite E in Hr. Qed.

Lemma pka_m_range : 0 <= m < word_span words.
Proof.
  destruct (load_operand_ok false 0 words false c Hpka) as [H E]; [lia|].
  pose proof (words_to_int_range _ H) as Hr. by rewrite E in Hr.
Qed.

Lemma pka_same_length : length lhs = length rhs.
Proof. destruct Hlhs as [_ H1], Hrhs as [_ H2]. unfold vec_size in *. lia. Qed.

(** A number in range as a result. *)
Lemma outcome_number op v carry sign dbz c' : 0 <= v < word_span words ->
  pka_means words x y m (rhs_id + 1) op v carry sign dbz -> op <> CC3XX_PKA_OPCODE_DIV -> same_operands c c' ->
  outcome_ok op (c', pka_int_to_words v words, carry, sign, dbz).
Proof.
  intros Hv Hm Hop Hs. destruct (int_to_words_spec v words ltac:(lia)) as (H1 & H2 & _).
  split; [done|]. split; [done|]. rewrite int_to_words_small by (done || lia). split; [done|].
  by replace (op =? CC3XX_PKA_OPCODE_DIV) with false by lia.
Qed.

Lemma outcome_add op carry_ok : op <> CC3XX_PKA_OPCODE_DIV ->
  pka_means words x y m (rhs_id + 1) op ((x + y) mod word_span words) (word_span words <=? x + y) false false ->
  forall c', same_operands c c' -> carry_ok = snd (pka_add_words lhs rhs) ->
  outcome_ok op (c', fst (pka_add_words lhs rhs), carry_ok, false, false).
Proof.
  intros Hop Hm c' Hs ->. destruct Hlhs as [Hl El], Hrhs as [Hr _].
  pose proof (add_words_spec lhs rhs Hl Hr pka_same_length) as H. cbv zeta in H.
  destruct (pka_add_words lhs rhs) as [result carry]. destruct H as (H1 & H2 & H3 & ->). rewrite El in *.
  split; [done|]. split; [done|]. cbn [fst snd]. rewrite H3. split; [exact Hm|]. by replace (op =? CC3XX_PKA_OPCODE_DIV) with false by lia.
Qed.

Lemma outcome_sub op : op <> CC3XX_PKA_OPCODE_DIV ->
  pka_means words x y m (rhs_id + 1) op ((x - y) mod word_span words) (x <? y) (x <? y) false ->
  forall c', same_operands c c' ->
  outcome_ok op (c', fst (pka_sub_words lhs rhs), snd (pka_sub_words lhs rhs), snd (pka_sub_words lhs rhs), false).
Proof.
  intros Hop Hm c' Hs. destruct Hlhs as [Hl El], Hrhs as [Hr _].
  pose proof (sub_words_spec lhs rhs Hl Hr pka_same_length) as H. cbv zeta in H.
  destruct (pka_sub_words lhs rhs) as [result borrow]. destruct H as (H1 & H2 & H3 & ->). rewrite El in *.
  split; [done|]. split; [done|]. cbn [fst snd]. rewrite H3. split; [exact Hm|].
  by replace (op =? CC3XX_PKA_OPCODE_DIV) with false by lia.
Qed.

Lemma outcome_modadd : outcome_ok CC3XX_PKA_OPCODE_MODADD_MODINC (pka_modadd words lhs rhs c).
Proof.
  unfold pka_modadd. pose proof (modulus_value_spec words c Hcache) as H. pose proof pka_m_range as Hm.
  destruct (pka_modulus_value words c) as [c1 m1]. destruct H as (-> & Hs & _). fold m. destruct (Z.ltb_spec 0 m).
  - rewrite positive_mod_spec. replace (0 <? m) with true by lia. pose proof (Z.mod_pos_bound (x + y) m ltac:(lia)).
    apply outcome_number; [fold x y; lia|by apply means_modadd|done|done].
  - rewrite (surjective_pairing (pka_add_words lhs rhs)).
    apply outcome_add; [done|apply means_modadd_0; lia|done|done].
Qed.

Lemma outcome_modsub : outcome_ok CC3XX_PKA_OPCODE_MODSUB_MODDEC_MODNEG (pka_modsub words lhs rhs c).
Proof.
  unfold pka_modsub. pose proof (modulus_value_spec words c Hcache) as H. pose proof pka_m_range as Hm.
  destruct (pka_modulus_value words c) as [c1 m1]. destruct H as (-> & Hs & _). fold m. destruct (Z.ltb_spec 0 m).
  - rewrite positive_mod_spec. replace (0 <? m) with true by lia. pose proof (Z.mod_pos_bound (x - y) m ltac:(lia)).
    apply outcome_number; [fold x y; lia|by apply means_modsub|done|done].
  - rewrite (surjective_pairing (pka_sub_words lhs rhs)).
    apply outcome_sub; [done|apply means_modsub_0; lia|done].
Qed.

(** The three operations that reduce modulo the modulus, and report its absence. *)
Lemma outcome_reduced op v : op ∈ [CC3XX_PKA_OPCODE_MODMUL; CC3XX_PKA_OPCODE_MODEXP; CC3XX_PKA_OPCODE_REDUCTION] ->
  (0 < m -> pka_means words x y m (rhs_id + 1) op (v mod m) false false false) ->
  forall c', same_operands c c' ->
  outcome_ok op (c', pka_int_to_words (if 0 <? m then v mod m else 0) words, false, false, m <=? 0).
Proof.
  intros Hop Hm c' Hs. pose proof pka_m_range as Hr.
  assert (op <> CC3XX_PKA_OPCODE_DIV) as Hd by (intros ->; by do 3 (apply elem_of_cons in Hop as [|Hop]; [done|]); inversion Hop).
  destruct (Z.ltb_spec 0 m).
  - pose proof (Z.mod_pos_bound v m ltac:(lia)). replace (m <=? 0) with false by lia. apply outcome_number; [lia|auto|done|done].
  - replace (m <=? 0) with true by lia. apply outcome_number; [lia| |done|done]. apply means_no_modulus; [lia|done].
Qed.

Lemma outcome_modmul : outcome_ok CC3XX_PKA_OPCODE_MODMUL (pka_modmul words lhs rhs c).
Proof.
  unfold pka_modmul. pose proof (modulus_value_spec words c Hcache) as H.
  destruct (pka_modulus_value words c) as [c1 m1]. destruct H as (-> & Hs & _). fold m. rewrite positive_mod_spec.
  apply outcome_reduced; [set_solver|intros; by apply means_modmul|done].
Qed.

Lemma outcome_modexp : outcome_ok CC3XX_PKA_OPCODE_MODEXP (pka_modexp words lhs rhs c).
Proof.
  unfold pka_modexp. pose proof (modulus_value_spec words c Hcache) as H.
  destruct (pka_modulus_value words c) as [c1 m1]. destruct H as (-> & Hs & _). fold m.
  rewrite pow_mod_spec by (apply pka_x_range || apply pka_y_range).
  apply outcome_reduced; [set_solver|intros; by apply means_modexp|done].
Qed.

Lemma outcome_reduction : outcome_ok CC3XX_PKA_OPCODE_REDUCTION (pka_reduction words lhs c).
Proof.
  unfold pka_reduction. pose proof (modulus_value_spec words c Hcache) as H.
  destruct (pka_modulus_value words c) as [c1 m1]. destruct H as (-> & Hs & _). fold m. rewrite positive_mod_spec.
  apply outcome_reduced; [set_solver|intros; by apply means_reduce|done].
Qed.

Lemma outcome_modinv : outcome_ok CC3XX_PKA_OPCODE_MODINV (pka_modinv words rhs c).
Proof.
  unfold pka_modinv. pose proof (modulus_value_spec words c Hcache) as H. pose proof pka_m_range as Hm.
  destruct (pka_modulus_value words c) as [c1 m1]. destruct H as (-> & Hs & _). fold m y.
  pose proof (mod_inverse_spec y m) as Hi. destruct (pka_mod_inverse y m) as [r|]; cbn [default].
  - change (id r) with r. destruct Hi as (H1 & _ & Hr & Hinv). apply outcome_number; [lia|by apply means_modinv|done|done].
  - apply outcome_number; [lia|by apply means_not_invertible|done|done].
Qed.

Lemma outcome_div : outcome_ok CC3XX_PKA_OPCODE_DIV (pka_div words lhs_imm lhs_id lhs rhs c).
Proof.
  pose proof pka_x_range as Hx. pose proof pka_y_range as Hy. unfold pka_div, outcome_ok, div_remainder. fold x y.
  destruct (Z.eqb_spec y 0) as [E|E].
  - split; [by apply Forall_replicate, is_uint_0|]. split; [unfold vec_size; rewrite length_replicate; lia|].
    split; [|by destruct lhs_imm].
    assert (pka_words_to_int (replicate (Z.to_nat words) 0) = 0) as ->; [|by apply means_div_0].
    generalize (Z.to_nat words). induction n as [|n IH]; [done|]. cbn [replicate]. by rewrite words_to_int_cons, IH.
  - rewrite Z.quot_div_nonneg by lia. assert (0 <= x / y < word_span words) as Hq.
    { split; [apply Z.div_pos; lia|]. apply Z.div_lt_upper_bound; nia. }
    destruct (int_to_words_spec (x / y) words ltac:(lia)) as (H1 & H2 & _).
    split; [done|]. split; [done|]. rewrite int_to_words_small by lia. split; [apply means_div; lia|].
    by destruct lhs_imm.
Qed.

Lemma shift_kind_cases op : (op =? CC3XX_PKA_OPCODE_SHR0) || (op =? CC3XX_PKA_OPCODE_SHR1) ||
  (op =? CC3XX_PKA_OPCODE_SHL0) || (op =? CC3XX_PKA_OPCODE_SHL1) = true ->
  shift_kind op = Some ((op =? CC3XX_PKA_OPCODE_SHL0) || (op =? CC3XX_PKA_OPCODE_SHL1),
    (op =? CC3XX_PKA_OPCODE_SHR1) || (op =? CC3XX_PKA_OPCODE_SHL1)).
Proof.
  unfold shift_kind. destruct (Z.eqb_spec op CC3XX_PKA_OPCODE_SHR0) as [->|]; [done|].
  destruct (Z.eqb_spec op CC3XX_PKA_OPCODE_SHR1) as [->|]; [done|].
  destruct (Z.eqb_spec op CC3XX_PKA_OPCODE_SHL0) as [->|]; [done|].
  by destruct (Z.eqb_spec op CC3XX_PKA_OPCODE_SHL1) as [->|].
Qed.

Lemma outcome_bits op f g : (forall a b i, 0 <= i -> Z.testbit (f a b) i = g (Z.testbit a i) (Z.testbit b i)) ->
  (forall a b, is_u32 a -> is_u32 b -> is_u32 (f a b)) -> f 0 0 = 0 -> op <> CC3XX_PKA_OPCODE_DIV ->
  pka_means words x y m (rhs_id + 1) op (f x y) false false false ->
  outcome_ok op (c, zip_with f lhs rhs, false, false, false).
Proof.
  intros Hf Hu H0 Hop Hm. destruct Hlhs as [Hl El], Hrhs as [Hr _].
  destruct (zip_words_spec f g Hf Hu lhs rhs Hl Hr pka_same_length H0) as (H1 & H2 & H3).
  split; [done|]. split; [by rewrite H2|]. rewrite H3. split; [exact Hm|].
  by replace (op =? CC3XX_PKA_OPCODE_DIV) with false by lia.
Qed.

Lemma outcome_shift op left ones : shift_kind op = Some (left, ones) -> op <> CC3XX_PKA_OPCODE_DIV ->
  outcome_ok op (c, pka_shift_words lhs (rhs_id + 1) left ones, false, false, false).
Proof.
  intros Hk Hop. destruct Hlhs as [Hl El].
  destruct (shift_words_spec lhs (rhs_id + 1) left ones Hl ltac:(lia) ltac:(lia)) as (H1 & H2 & H3). rewrite El in *.
  split; [done|]. split; [done|]. rewrite H3. split; [by apply means_shift|].
  by replace (op =? CC3XX_PKA_OPCODE_DIV) with false by lia.
Qed.

Lemma pka_compute_spec op : pka_known op = true ->
  exists o, pka_compute op words lhs_imm lhs_id rhs_id lhs rhs c = Some o /\ outcome_ok op o.
Proof.
  intros Hknown. unfold pka_compute.
  rewrite (surjective_pairing (pka_add_words lhs rhs)), (surjective_pairing (pka_sub_words lhs rhs)).
  pose proof pka_x_range as Hx. pose proof pka_y_range as Hy. fold x y.
  assert (0 < word_span words) as Hspan by lia.
  assert (0 <= x * y < word_span words * word_span words) as Hxy by nia.
  assert (Z.shiftr (x * y) (words * 32) = x * y / word_span words) as ->.
  { rewrite Z.shiftr_div_pow2 by lia. unfold word_span. by rewrite (Z.mul_comm words 32). }
  pose proof (Z.div_pos (x * y) (word_span words) ltac:(lia) Hspan).
  pose proof (Z.div_lt_upper_bound (x * y) _ _ Hspan (proj2 Hxy)).
  repeat (case_if; [try match goal with H : (op =? _) = true |- _ => apply Z.eqb_eq in H; subst op end;
    eexists; split; [reflexivity|]|]).
  - apply outcome_add; [done|constructor|done|done].
  - apply outcome_modadd.
  - apply outcome_sub; [done|constructor|done].
  - apply outcome_modsub.
  - apply (outcome_bits _ _ andb); [intros ? ? ? _; apply Z.land_spec|intros; by apply land_uint_l|done|done|constructor].
  - apply (outcome_bits _ _ orb); [intros ? ? ? _; apply Z.lor_spec|intros; by apply lor_uint|done|done|constructor].
  - apply (outcome_bits _ _ xorb); [intros ? ? ? _; apply Z.lxor_spec|intros; by apply lxor_uint|done|done|constructor].
  - apply outcome_shift; [by apply shift_kind_cases|]. by intros ->.
  - destruct (int_to_words_spec (x * y) words ltac:(lia)) as (H1 & H2 & H3). split; [done|]. split; [done|]. rewrite H3.
    split; [|done]. replace (negb _) with (word_span words <=? x * y); [constructor|].
    destruct (Z.eqb_spec (x * y / word_span words) 0) as [Eq|Eq]; cbn [negb].
    + apply Z.div_small_iff in Eq; lia.
    + destruct (Z.leb_spec (word_span words) (x * y)); [done|]. by rewrite Z.div_small in Eq by lia.
  - apply outcome_number; [lia|constructor|done|done].
  - apply outcome_div.
  - apply outcome_modmul.
  - apply outcome_modexp.
  - apply outcome_modinv.
  - apply outcome_reduction.
  - exfalso. unfold pka_known in Hknown. cbn [existsb] in Hknown. bool_hyps.
    repeat (apply orb_true_iff in Hknown as [Hknown|Hknown]; [apply Z.eqb_eq in Hknown; by subst op|]). done.
Qed.
End compute.

(** * The status *)

Definition status_word (zero carry sign div_by_zero : bool) : Z :=
  1 + (if sign then 2 ^ 8 else 0) + (if carry then 2 ^ 9 else 0) + (if zero then 2 ^ 12 else 0) +
  (if div_by_zero then 2 ^ 14 else 0).

Lemma update_status_spec result carry sign dbz c :
  let c' := pka_update_status result carry sign dbz c in
  m_pka_sram c' = m_pka_sram c /\ core_load32 PKA_STATUS c' = status_word (pka_is_zero result) carry sign dbz.
Proof.
  split; [done|]. unfold pka_update_status, core_load32, core_store32. cbn -[Z.lor].
  unfold PKA_DONE, PKA_PIPE_RDY, PKA_STATUS. rewrite !load32_store32_ne by lia.
  destruct sign, carry, (pka_is_zero result), dbz; rewrite load32_store32_eq; try done; by split.
Qed.

Lemma store32_below off v m i : i < off -> mem_get (store32 off v m) i = mem_get m i.
Proof. intros Hi. apply mem_get_write_out. rewrite le_bytes_length. lia. Qed.

Lemma update_status_ok result carry sign dbz c : pka_ok c -> pka_ok (pka_update_status result carry sign dbz c).
Proof.
  intros [Hm Hs]. split; [|done]. intros i Hi. unfold pka_update_status, core_store32. cbn -[Z.lor store32].
  unfold PKA_DONE, PKA_PIPE_RDY, PKA_STATUS, PKA_BASES_END in *. rewrite !store32_below by lia. by apply Hm.
Qed.

Lemma update_status_base id result carry sign dbz c : 0 <= id ->
  pka_phys_reg_base id (pka_update_status result carry sign dbz c) = pka_phys_reg_base id c.
Proof.
  intros Hid. unfold pka_phys_reg_base. case_if; [done|].
  unfold pka_update_status, core_load32, core_store32. cbn -[Z.lor store32 load32].
  unfold PKA_DONE, PKA_PIPE_RDY, PKA_STATUS. by rewrite !load32_store32_ne by lia.
Qed.

Lemma load_operand_base id words c c' : pka_phys_reg_base id c' = pka_phys_reg_base id c -> m_pka_sram c' = m_pka_sram c ->
  pka_load_operand false id words false c' = pka_load_operand false id words false c.
Proof. intros Hb Hs. unfold pka_load_operand, pka_sram_read. by rewrite Hb, Hs. Qed.

(** An operand none of whose words changes. *)
Lemma load_operand_kept id words c c' : pka_ok c -> pka_ok c' -> pka_phys_reg_base id c' = pka_phys_reg_base id c ->
  (forall i, 0 <= i < words -> arr_get (m_pka_sram c') (operand_word id i c) = arr_get (m_pka_sram c) (operand_word id i c)) ->
  pka_load_operand false id words false c' = pka_load_operand false id words false c.
Proof.
  intros Hc Hc' Hb Hk. unfold pka_load_operand. case_if; [done|]. rewrite Hb. apply map_ext_in.
  intros i Hi%list_elem_of_In%elem_of_range. unfold pka_sram_read. rewrite !sram_size by done. case_if; [done|].
  by apply Hk.
Qed.

Lemma decode_ids opcode : let f := pka_decode opcode in
  0 <= size_id f < 8 /\ 0 <= lhs_id f < 32 /\ 0 <= rhs_id f < 32 /\ 0 <= result_id f < 32.
Proof.
  cbn. change 7 with (Z.ones 3). change 31 with (Z.ones 5). rewrite !Z.land_ones by lia.
  repeat split; apply Z.mod_pos_bound; lia.
Qed.

(** * Opcodes *)

(** The operands of an opcode. *)
Definition operand_x (f : pka_fields) (words : Z) (c : core) : list Z :=
  pka_load_operand (lhs_immediate f) (lhs_id f) words (pka_signed (op f)) c.

Definition operand_y (f : pka_fields) (words : Z) (c : core) : list Z :=
  if (CC3XX_PKA_OPCODE_SHR0 <=? op f) && (op f <=? CC3XX_PKA_OPCODE_SHL1) then replicate (Z.to_nat words) 0
  else pka_load_operand (rhs_immediate f) (rhs_id f) words (pka_signed (op f)) c.

Lemma operand_x_ok f words c : pka_ok c -> 0 <= words -> words_ok (operand_x f words c) /\ vec_size (operand_x f words c) = words.
Proof. intros. by apply load_operand_ok. Qed.

Lemma operand_y_ok f words c : pka_ok c -> 0 <= words -> words_ok (operand_y f words c) /\ vec_size (operand_y f words c) = words.
Proof.
  intros. unfold operand_y. case_if; [|by apply load_operand_ok]. split; [by apply Forall_replicate, is_uint_0|].
  unfold vec_size. rewrite length_replicate. lia.
Qed.

(** The counters do not matter. *)
Lemma cache_ok_count k n c : cache_ok c -> cache_ok (count k n c).
Proof. exact id. Qed.

(** An opcode as its computation, store and status. *)
Lemma execute_opcode_eq opcode c : pka_ok c -> cache_ok c ->
  let f := pka_decode opcode in
  let words := pka_len_words (size_id f) c in
  0 < words -> pka_known (op f) = true ->
  exists c0 c1 result carry sign dbz,
    same_operands c c0 /\ cache_ok c0 /\
    outcome_ok words (lhs_immediate f) (lhs_id f) (rhs_id f) (operand_x f words c) (operand_y f words c) c0 (op f)
      (c1, result, carry, sign, dbz) /\
    execute_pka_opcode opcode c =
    pka_update_status result carry sign dbz (if negb (discard_result f) then pka_store_operand (result_id f) result c1 else c1).
Proof.
  intros Hc Hcache f words Hw Hknown. unfold execute_pka_opcode. fold f.
  assert ((op f =? 0) = false) as ->.
  { destruct (Z.eqb_spec (op f) 0) as [E|]; [|done]. by rewrite E in Hknown. }
  set (c0 := count1 _ _). assert (same_operands c c0) as Hs by done. change (pka_len_words (size_id f) c0) with words.
  change (pka_load_operand (lhs_immediate f) (lhs_id f) words (pka_signed (op f)) c0) with (operand_x f words c).
  change (if _ && _ then _ else _) with (operand_y f words c).
  destruct (pka_compute_spec words (lhs_immediate f) (lhs_id f) (rhs_id f) (operand_x f words c) (operand_y f words c) c0)
    with (op := op f) as ([[[[c1 result] carry] sign] dbz] & -> & Ho); [done|apply operand_x_ok; [done|lia]|
      apply operand_y_ok; [done|lia]|done|done|apply decode_ids|done|].
  by exists c0, c1, result, carry, sign, dbz.
Qed.

Lemma pka_ok_same c c' : same_operands c c' -> pka_ok c -> pka_ok c'.
Proof. intros [Hr Hs]. unfold pka_ok. by rewrite Hr, Hs. Qed.

Lemma base_same id c c' : m_regs c' = m_regs c -> pka_phys_reg_base id c' = pka_phys_reg_base id c.
Proof. intros Hr. unfold pka_phys_reg_base, core_load32. by rewrite Hr. Qed.

(** The effect of an opcode on the operands, given its outcome. *)
Section opcode_effect.
Context (c c0 c1 : core) (f : pka_fields) (words : Z) (lhs rhs result : list Z) (carry sign dbz : bool).
Hypothesis Hc : pka_ok c.
Hypothesis Hs0 : same_operands c c0.
Hypothesis Hlhs : words_ok lhs /\ vec_size lhs = words.
Hypothesis Ho : outcome_ok words (lhs_immediate f) (lhs_id f) (rhs_id f) lhs rhs c0 (op f) (c1, result, carry, sign, dbz).

Let divides := (op f =? CC3XX_PKA_OPCODE_DIV) && negb (lhs_immediate f).
Let stored := if negb (discard_result f) then pka_store_operand (result_id f) result c1 else c1.

Lemma remainder_ok : 0 <= words -> words_ok (div_remainder words lhs rhs) /\ vec_size (div_remainder words lhs rhs) = words.
Proof.
  intros Hw. unfold div_remainder. case_if; [done|].
  by destruct (int_to_words_spec (Z.rem (pka_words_to_int lhs) (pka_words_to_int rhs)) words Hw) as (H1 & H2 & _).
Qed.

(** After the computation. *)
Lemma computed_spec : 0 <= words ->
  m_regs c1 = m_regs c /\ pka_ok c1 /\
  (forall a, 0 <= a -> (divides = true -> outside (lhs_id f) words c a) -> arr_get (m_pka_sram c1) a = arr_get (m_pka_sram c) a) /\
  (divides = true -> in_sram (lhs_id f) words c ->
   pka_load_operand false (lhs_id f) words false c1 = div_remainder words lhs rhs).
Proof.
  intros Hw. destruct Ho as (_ & _ & _ & Hsame). fold divides in Hsame. destruct Hs0 as [Hr0 Hm0].
  assert (pka_ok c0) as Hc0 by (by apply (pka_ok_same c)).
  destruct divides eqn:Ed.
  - destruct (remainder_ok Hw) as [Hrok Hrsz].
    destruct (store_operand_spec (lhs_id f) _ c0 Hrok Hc0) as (Hr & Hok & Hout & Hin). rewrite Hrsz in *.
    set (c2 := pka_store_operand (lhs_id f) _ c0) in *. pose proof Hsame as [Hr1 Hm1]. split; [congruence|].
    split; [by apply (pka_ok_same c2)|]. rewrite Hm1. split.
    + intros a Ha Ha'. rewrite <-Hm0. apply Hout; [done|]. intros i Hi. unfold operand_word.
      rewrite (base_same (lhs_id f) c c0 Hr0). by apply Ha'.
    + intros _ Hin'. rewrite (load_operand_same _ _ _ _ _ _ Hsame). apply Hin. unfold in_sram.
      by rewrite (base_same (lhs_id f) c c0 Hr0).
  - destruct Hsame as [Hr1 Hm1]. split; [congruence|]. split; [by apply (pka_ok_same c0)|]. rewrite Hm1, Hm0. done.
Qed.

Lemma stored_spec : 0 <= words ->
  m_regs stored = m_regs c /\ pka_ok stored /\
  (forall a, 0 <= a -> (divides = true -> outside (lhs_id f) words c a) ->
   (discard_result f = false -> outside (result_id f) words c a) ->
   arr_get (m_pka_sram stored) a = arr_get (m_pka_sram c) a) /\
  (discard_result f = false -> in_sram (result_id f) words c ->
   pka_load_operand false (result_id f) words false stored = result) /\
  (divides = true -> in_sram (lhs_id f) words c ->
   (discard_result f = false -> forall i, 0 <= i < words -> outside (result_id f) words c (operand_word (lhs_id f) i c)) ->
   pka_load_operand false (lhs_id f) words false stored = div_remainder words lhs rhs).
Proof.
  intros Hw. destruct (computed_spec Hw) as (Hr1 & Hok1 & Hout1 & Hrem1). unfold stored.
  destruct (discard_result f); cbn [negb].
  { split; [done|]. split; [done|]. split; [intros; by apply Hout1|]. split; [done|]. intros; by apply Hrem1. }
  destruct Ho as (Hresok & Hressz & _).
  destruct (store_operand_spec (result_id f) result c1 Hresok Hok1) as (Hr & Hok & Hout & Hin). rewrite Hressz in *.
  assert (forall a, outside (result_id f) words c a -> outside (result_id f) words c1 a) as Hoc.
  { intros a Ha i Hi. unfold operand_word. rewrite (base_same _ c c1 Hr1). by apply Ha. }
  split; [congruence|]. split; [done|]. split; [|split].
  - intros a Ha H1 H2. rewrite Hout; [by apply Hout1|done|]. apply Hoc. by apply H2.
  - intros _ H. apply Hin. unfold in_sram. by rewrite (base_same _ c c1 Hr1).
  - intros Hd Hl Hdis. rewrite <-(Hrem1 Hd Hl). apply load_operand_kept; [done|done|by apply base_same|].
    intros i Hi. apply Hout; [apply wrap_range; lia|]. apply Hoc. unfold operand_word at 1.
    rewrite (base_same _ c c1 Hr1). by apply Hdis.
Qed.
End opcode_effect.

(** An opcode in a state whose cached modulus is the one in memory. *)
Lemma opcode_arithmetic (c : core) (opcode : Z) :
  pka_ok c -> cache_ok c ->
  let f := pka_decode opcode in
  let words := pka_len_words (size_id f) c in
  let x := pka_words_to_int (operand_x f words c) in
  let y := pka_words_to_int (operand_y f words c) in
  let m := pka_words_to_int (pka_load_operand false 0 words false c) in
  let divides := (op f =? CC3XX_PKA_OPCODE_DIV) && negb (lhs_immediate f) in
  let c' := execute_pka_opcode opcode c in
  0 < words -> pka_known (op f) = true ->
  pka_ok c' /\
  (exists res carry sign dbz,
    pka_means words x y m (rhs_id f + 1) (op f) res carry sign dbz /\
    core_load32 PKA_STATUS c' = status_word (res =? 0) carry sign dbz /\
    (discard_result f = false -> in_sram (result_id f) words c ->
     pka_words_to_int (pka_load_operand false (result_id f) words false c') = res)) /\
  (divides = true -> 0 < y -> in_sram (lhs_id f) words c ->
   (discard_result f = false -> forall i, 0 <= i < words -> outside (result_id f) words c (operand_word (lhs_id f) i c)) ->
   pka_words_to_int (pka_load_operand false (lhs_id f) words false c') = x mod y) /\
  (forall a, 0 <= a -> (divides = true -> outside (lhs_id f) words c a) ->
   (discard_result f = false -> outside (result_id f) words c a) ->
   arr_get (m_pka_sram c') a = arr_get (m_pka_sram c) a).
Proof.
  intros Hc Hcache f words x y m divides c' Hw Hknown. unfold c'.
  destruct (execute_opcode_eq opcode c Hc Hcache Hw Hknown) as (c0 & c1 & result & carry & sign & dbz & Hs & _ & Ho & ->).
  fold f words in Hs, Ho |- *. pose proof (decode_ids opcode) as Hids. cbv zeta in Hids. fold f in Hids.
  destruct (operand_x_ok f words c Hc ltac:(lia)) as [Hxok Hxsz]. destruct (operand_y_ok f words c Hc ltac:(lia)) as [Hyok Hysz].
  destruct (stored_spec c c0 c1 f words (operand_x f words c) (operand_y f words c) result carry sign dbz Hc Hs
    (conj Hxok Hxsz) Ho ltac:(lia)) as (Hr & Hok & Hout & Hres & Hrem).
  set (stored := if negb (discard_result f) then _ else _) in *.
  destruct (update_status_spec result carry sign dbz stored) as [Hsram Hstatus].
  assert (forall id, 0 <= id -> pka_load_operand false id words false (pka_update_status result carry sign dbz stored) =
    pka_load_operand false id words false stored) as Hload.
  { intros id Hid. apply load_operand_base; [by apply update_status_base|done]. }
  destruct Ho as (Hrok & Hrsz & Hmeans & _). rewrite (load_operand_same _ _ _ _ c c0 Hs) in Hmeans.
  split; [by apply update_status_ok|]. split; [|split].
  - exists (pka_words_to_int result), carry, sign, dbz. split; [done|]. split; [by rewrite Hstatus, is_zero_spec|].
    intros Hd Hin. rewrite Hload by lia. by rewrite Hres.
  - intros Hd Hy Hin Hdis. rewrite Hload by lia. rewrite Hrem by done. unfold div_remainder. fold x y.
    replace (y =? 0) with false by lia. pose proof (words_to_int_range _ Hxok) as Hx. rewrite Hxsz in Hx. fold x in Hx.
    pose proof (words_to_int_range _ Hyok) as Hyr. rewrite Hysz in Hyr. fold y in Hyr.
    rewrite rem_nonneg by lia. apply int_to_words_small; [lia|]. pose proof (Z.mod_pos_bound x y Hy). lia.
  - intros a Ha H1 H2. rewrite Hsram. by apply Hout.
Qed.

(** * The cached modulus *)

Lemma update_status_cache result carry sign dbz c : cache_ok c -> cache_ok (pka_update_status result carry sign dbz c).
Proof.
  intros Hc Hv. rewrite (load_operand_base 0 _ c); [|by apply update_status_base|done]. by apply Hc.
Qed.

(** A register whose operand does not run past the last word address. *)
Definition straight (id words : Z) (c : core) : Prop := pka_phys_reg_base id c + words <= 2 ^ 32.

Lemma operand_word_straight id i words c : pka_ok c -> straight id words c -> 0 <= i < words ->
  operand_word id i c = pka_phys_reg_base id c + i.
Proof.
  intros Hc Hs Hi. pose proof (phys_base_u32 id c Hc) as [Hb _]. unfold straight in Hs. unfold operand_word.
  rewrite (wrap_small 32 i), wrap_small; [done|split; lia..].
Qed.

(** A store of [words] words to register [id] reaches a word of the modulus, taken
    with [mwords] words, and the check of the code, which compares ranges of [words]
    words, does not see it. *)
Definition unseen_overlap (id words mwords : Z) (c : core) : Prop :=
  (pka_phys_reg_base id c <? pka_phys_reg_base 0 c + words) && (pka_phys_reg_base 0 c <? pka_phys_reg_base id c + words) = false /\
  exists i j, 0 <= i < words /\ 0 <= j < mwords /\ operand_word id i c = operand_word 0 j c /\ operand_word id i c < PKA_SRAM_WORDS.

(** There is none when the store takes as many words as the modulus. *)
Lemma covered_overlap id words mwords c : pka_ok c -> mwords <= words -> straight id words c -> straight 0 words c ->
  ~ unseen_overlap id words mwords c.
Proof.
  intros Hc Hle Hid H0 (Hb & i & j & Hi & Hj & He & _).
  rewrite (operand_word_straight id i words), (operand_word_straight 0 j words) in He by (try done; lia). lia.
Qed.

Lemma store_words_cache base data inval n c : 0 <= n ->
  let c' := store_words base data inval n c in
  m_pka_modulus_cache_valid c' = true -> m_pka_modulus_cache_valid c = true /\
  m_pka_modulus_cache_words c' = m_pka_modulus_cache_words c /\ m_pka_modulus_cache c' = m_pka_modulus_cache c /\
  (inval = true -> m_pka_sram c' = m_pka_sram c).
Proof.
  intros Hn. unfold store_words. pattern n, (foldl (fun c i => pka_sram_write (u32 (base + u32 i)) (arr_get data i) inval c) c (range n)).
  apply foldl_range_ind; [done|done|]. intros k c' Hk IH. unfold pka_sram_write. case_if; [|done].
  destruct inval; [done|]. intros Hv. by destruct (IH Hv) as (H1 & H2 & H3 & _).
Qed.

(** Where the cache comes from: it was there before, or [words] words were read. *)
Definition cache_from (words : option Z) (c c' : core) : Prop :=
  m_pka_modulus_cache_valid c' = true ->
  m_pka_modulus_cache_valid c = true /\ m_pka_modulus_cache_words c' = m_pka_modulus_cache_words c \/
  words = Some (m_pka_modulus_cache_words c').

(** A store keeps the cache right, unless it reaches the cached words unseen. *)
Lemma store_operand_cache id data c : pka_ok c -> words_ok data -> cache_ok c ->
  (m_pka_modulus_cache_valid c = true -> ~ unseen_overlap id (vec_size data) (m_pka_modulus_cache_words c) c) ->
  cache_ok (pka_store_operand id data c) /\ cache_from None c (pka_store_operand id data c).
Proof.
  intros Hc Hd Hcache Hno. assert (0 <= vec_size data) as Hn by (unfold vec_size; lia).
  destruct (store_operand_spec id data c Hd Hc) as (Hr & Hok & Hout & _).
  set (inval := (pka_phys_reg_base id c <? pka_phys_reg_base 0 c + vec_size data) && (pka_phys_reg_base 0 c <? pka_phys_reg_base id c + vec_size data)).
  assert (pka_store_operand id data c = store_words (pka_phys_reg_base id c) data inval (vec_size data) c) as Es by done.
  pose proof (store_words_cache (pka_phys_reg_base id c) data inval _ c Hn) as Hsc. cbv zeta in Hsc. rewrite <-Es in Hsc.
  unfold cache_from, cache_ok. set (c' := pka_store_operand id data c) in *.
  split; intros Hv; destruct (Hsc Hv) as (Hv0 & Ew & Ev & Einv); [|by left].
  rewrite Ew, Ev, (Hcache Hv0). f_equal. symmetry. specialize (Hno Hv0).
  apply load_operand_kept; [done|done|by apply base_same|]. intros j Hj.
  destruct inval eqn:Einval; [by rewrite Einv|].
  destruct (Z.lt_ge_cases (operand_word 0 j c) PKA_SRAM_WORDS) as [Hlt|Hge].
  - apply Hout; [apply wrap_range; lia|]. intros i Hi He. apply Hno. split; [done|].
    exists i, j. by rewrite <-He.
  - rewrite !arr_get_beyond by (by rewrite sram_size). done.
Qed.

(** The operations that take the modulus. *)
Definition pka_modular (op : Z) : bool :=
  existsb (Z.eqb op) [CC3XX_PKA_OPCODE_MODADD_MODINC; CC3XX_PKA_OPCODE_MODSUB_MODDEC_MODNEG; CC3XX_PKA_OPCODE_MODMUL;
    CC3XX_PKA_OPCODE_MODEXP; CC3XX_PKA_OPCODE_MODINV; CC3XX_PKA_OPCODE_REDUCTION].

Definition modular_words (op words : Z) : option Z := if pka_modular op then Some words else None.

(** The registers an opcode stores to. *)
Definition stores_to (f : pka_fields) (id : Z) : Prop :=
  discard_result f = false /\ id = result_id f \/
  op f = CC3XX_PKA_OPCODE_DIV /\ lhs_immediate f = false /\ id = lhs_id f.

(** An opcode respects the cached modulus: none of its stores reaches, unseen, the
    words that are cached, or that the opcode itself caches. *)
Definition respects_modulus (opcode : Z) (c : core) : Prop :=
  let f := pka_decode opcode in
  let words := pka_len_words (size_id f) c in
  forall id mwords, stores_to f id ->
    m_pka_modulus_cache_valid c = true /\ mwords = m_pka_modulus_cache_words c \/ modular_words (op f) words = Some mwords ->
    ~ unseen_overlap id words mwords c.

Lemma compute_cache op words lhs_imm lhs_id rhs_id lhs rhs c : pka_ok c -> cache_ok c -> 0 <= words ->
  words_ok lhs /\ vec_size lhs = words ->
  (op = CC3XX_PKA_OPCODE_DIV -> lhs_imm = false -> m_pka_modulus_cache_valid c = true ->
   ~ unseen_overlap lhs_id words (m_pka_modulus_cache_words c) c) ->
  match pka_compute op words lhs_imm lhs_id rhs_id lhs rhs c with
  | Some (c', _, _, _, _) => cache_ok c' /\ m_regs c' = m_regs c /\ pka_ok c' /\ cache_from (modular_words op words) c c'
  | None => True
  end.
Proof.
  intros Hc Hcache Hw [Hlok Hlsz] Hov. pose proof (modulus_value_spec words c Hcache) as Hm.
  assert (forall data, words_ok data -> vec_size data = words -> op = CC3XX_PKA_OPCODE_DIV -> lhs_imm = false ->
    let c' := pka_store_operand lhs_id data c in
    cache_ok c' /\ m_regs c' = m_regs c /\ pka_ok c' /\ cache_from (modular_words op words) c c') as Hst.
  { intros data Hd Hsz Eop Ei. destruct (store_operand_cache lhs_id data c Hc Hd Hcache) as [H1 H2].
    { rewrite Hsz. by apply Hov. }
    destruct (store_operand_spec lhs_id data c Hd Hc) as (H3 & H4 & _). subst op. by split_and!. }
  assert (cache_from (modular_words op words) c c) as Hsame by (by left).
  unfold pka_compute, pka_modadd, pka_modsub, pka_div, pka_modmul, pka_modexp, pka_modinv, pka_reduction.
  rewrite (surjective_pairing (pka_add_words lhs rhs)), (surjective_pairing (pka_sub_words lhs rhs)).
  destruct (pka_modulus_value words c) as [c1 m1]. destruct Hm as (_ & Hs & Hc1 & Hw1 & _).
  assert (modular_words op words = Some words ->
    cache_ok c1 /\ m_regs c1 = m_regs c /\ pka_ok c1 /\ cache_from (modular_words op words) c c1) as Hmod.
  { intros Em. split; [done|]. split; [apply Hs|]. split; [by apply (pka_ok_same c)|]. intros _. right. by rewrite Em, Hw1. }
  repeat (case_if; [try match goal with H : (op =? _) = true |- _ => apply Z.eqb_eq in H; subst op end;
    first [by split_and!|by apply Hmod|by case_if; apply Hmod|
      by case_if; (destruct lhs_imm; cbn [negb]; [by split_and!|apply Hst; try done; by apply int_to_words_spec])]|]). done.
Qed.

(** An operation on no words stores none. *)
Lemma compute_nothing op lhs_imm lhs_id rhs_id lhs rhs c : vec_size lhs = 0 -> vec_size rhs = 0 ->
  match pka_compute op 0 lhs_imm lhs_id rhs_id lhs rhs c with Some (_, result, _, _, _) => result = [] | None => True end.
Proof.
  intros Hl Hr. assert (lhs = [] /\ rhs = []) as [-> ->].
  { destruct lhs, rhs; unfold vec_size in *; cbn in *; (done || lia). }
  unfold pka_compute, pka_modadd, pka_modsub, pka_div, pka_modmul, pka_modexp, pka_modinv, pka_reduction.
  destruct (pka_modulus_value 0 c) as [c1 m1]. by repeat case_if.
Qed.

Lemma compute_result op words lhs_imm lhs_id rhs_id lhs rhs c : pka_ok c -> cache_ok c -> 0 <= words ->
  words_ok lhs /\ vec_size lhs = words -> words_ok rhs /\ vec_size rhs = words -> 0 <= rhs_id < 32 ->
  match pka_compute op words lhs_imm lhs_id rhs_id lhs rhs c with
  | Some (_, result, _, _, _) => words_ok result /\ vec_size result = words
  | None => True
  end.
Proof.
  intros Hc Hcache Hw Hl Hr Hid. destruct (Z.eq_dec words 0) as [->|Hne].
  { pose proof (compute_nothing op lhs_imm lhs_id rhs_id lhs rhs c (proj2 Hl) (proj2 Hr)) as H.
    destruct (pka_compute _ _ _ _ _ _ _ _) as [[[[[c' result] carry] sign] dbz]|]; [rewrite H; split; [constructor|done]|done]. }
  destruct (pka_known op) eqn:Ek.
  - destruct (pka_compute_spec words lhs_imm lhs_id rhs_id lhs rhs c ltac:(lia) Hl Hr Hc Hcache Hid op Ek)
      as ([[[[c1 result] carry] sign] dbz] & -> & Ho). destruct Ho as (H1 & H2 & _). by split.
  - unfold pka_known in Ek. cbn [existsb] in Ek. unfold pka_compute. bool_hyps.
    repeat match goal with |- context [op =? ?k] => replace (op =? k) with false by (symmetry; apply Z.eqb_neq; assumption) end.
    done.
Qed.

(** An opcode that respects the cached modulus keeps the cache right. *)
Lemma opcode_keeps_cache (c : core) (opcode : Z) :
  pka_ok c -> cache_ok c -> respects_modulus opcode c ->
  pka_ok (execute_pka_opcode opcode c) /\ cache_ok (execute_pka_opcode opcode c).
Proof.
  intros Hc Hcache Hresp. unfold execute_pka_opcode. unfold respects_modulus in Hresp. cbv zeta in Hresp.
  set (f := pka_decode opcode) in *. pose proof (decode_ids opcode) as (_ & _ & Hid & _). fold f in Hid.
  destruct (op f =? 0); [done|]. set (c0 := count1 _ _). change (pka_len_words (size_id f) c0) with (pka_len_words (size_id f) c).
  set (words := pka_len_words (size_id f) c) in *. pose proof (len_words_range (size_id f) c Hc) as [Hw _]. fold words in Hw.
  change (pka_load_operand (lhs_immediate f) (lhs_id f) words (pka_signed (op f)) c0) with (operand_x f words c).
  change (if _ && _ then _ else _) with (operand_y f words c).
  pose proof (operand_x_ok f words c Hc Hw) as Hx. pose proof (operand_y_ok f words c Hc Hw) as Hy.
  assert (pka_ok c0 /\ cache_ok c0) as [Hc0 Hcache0] by done.
  pose proof (compute_result (op f) words (lhs_immediate f) (lhs_id f) (rhs_id f) _ _ c0 Hc0 Hcache0 Hw Hx Hy Hid) as Hres.
  pose proof (compute_cache (op f) words (lhs_immediate f) (lhs_id f) (rhs_id f) _ (operand_y f words c) c0 Hc0 Hcache0 Hw Hx) as Hcomp.
  destruct (pka_compute _ _ _ _ _ _ _ _) as [[[[[c1 result] carry] sign] dbz]|]; [|split; [by apply update_status_ok|by apply update_status_cache]].
  destruct Hcomp as (Hcache1 & Hr1 & Hc1 & Hfrom).
  { intros Eop Ei Hv. apply Hresp; [by right|by left]. }
  destruct Hres as [Hrok Hrsz]. destruct (discard_result f) eqn:Ed; cbn [negb]; [split; [by apply update_status_ok|by apply update_status_cache]|].
  destruct (store_operand_cache (result_id f) result c1 Hc1 Hrok Hcache1) as [Hcache2 _].
  - intros Hv. rewrite Hrsz. specialize (Hfrom Hv).
    assert (~ unseen_overlap (result_id f) words (m_pka_modulus_cache_words c1) c) as Hno.
    { apply Hresp; [by left|]. destruct Hfrom as [[Hv0 E]|E]; [by left|by right]. }
    unfold unseen_overlap, operand_word in *. by rewrite !(base_same _ c c1 Hr1).
  - destruct (store_operand_spec (result_id f) result c1 Hrok Hc1) as (_ & Hok2 & _).
    split; [by apply update_status_ok|by apply update_status_cache].
Qed.

(** * An example *)

(** Two 64-bit sizes and one of 32 bits; the modulus 3 * 2^32 + 7 at word 0, the
    numbers 5 * 2^32 + 1 and 9 at words 16 and 32. *)
Definition example_pka : core :=
  MkCore (store32 0 0 (store32 4 16 (store32 8 32 (store32 12 48 (store32 16 1
      (store32 PKA_L_BASE 64 (store32 (PKA_L_BASE + 4) 32 ∅)))))))
    (arr_set 0 7 (arr_set 1 3 (arr_set 16 1 (arr_set 17 5 (arr_set 32 9 (replicate (Z.to_nat PKA_SRAM_WORDS) 0))))))
    0 0 false 0 0 0 0 default_trace_config 0 false sha256_state_init 0 [] false (fun _ => 0) 0.

Lemma example_pka_ok : pka_ok example_pka.
Proof.
  apply pka_ok_mem; [unfold example_pka, REG_BYTES; cbn -[store32]; unfold PKA_L_BASE; eauto 20 with regs|].
  repeat (apply arr_ok_set; [|by split]). by apply arr_ok_replicate, is_uint_0.
Qed.

(** The cache outlives the modulus when a shorter operation writes into it: after
    a two-word reduction, a one-word subtraction clears the upper word of the
    modulus, and the next two-word reduction still uses the old one. *)
Definition reduce_x : Z := 0x1b * 2 ^ 27 + 1 * 2 ^ 18 + 3 * 2 ^ 6.
Definition clear_upper : Z := 0x05 * 2 ^ 27 + 2 ^ 24 + 4 * 2 ^ 18 + 4 * 2 ^ 12 + 4 * 2 ^ 6.

Lemma pka_stale_modulus :
  let c := execute_pka_opcode clear_upper (execute_pka_opcode reduce_x example_pka) in
  let c' := execute_pka_opcode reduce_x c in
  let x := pka_words_to_int (pka_load_operand false 1 2 false c) in
  let m := pka_words_to_int (pka_load_operand false 0 2 false c) in
  m = 7 /\ x = 5 * 2 ^ 32 + 1 /\ pka_words_to_int (pka_load_operand false 3 2 false c') = x mod (3 * 2 ^ 32 + 7) /\
  x mod m <> x mod (3 * 2 ^ 32 + 7).
Proof. vm_compute. split; [done|]. split; [done|]. split; [done|]. discriminate. Qed.
