(* ===== verification/Cc3xxAes.v ===== *)
(** The AES engine of the cryptographic accelerator
    (systemc-components/cc3xx/include/cc3xx_core.h): the block cipher and its
    inverse, the counter mode over a buffer and the message authentication code,
    as functions on bytes.  A state is the list of its 16 bytes, column by column. *)

From S2P Require Import Prelude Bytes Vectors.

(** * Tables *)

(** [cc3xx_core.h: "static const uint8_t sbox[256] = {" .. "};"] *)
Definition sbox_table : list Z := [
  0x63; 0x7c; 0x77; 0x7b; 0xf2; 0x6b; 0x6f; 0xc5; 0x30; 0x01; 0x67; 0x2b; 0xfe; 0xd7; 0xab; 0x76;
  0xca; 0x82; 0xc9; 0x7d; 0xfa; 0x59; 0x47; 0xf0; 0xad; 0xd4; 0xa2; 0xaf; 0x9c; 0xa4; 0x72; 0xc0;
  0xb7; 0xfd; 0x93; 0x26; 0x36; 0x3f; 0xf7; 0xcc; 0x34; 0xa5; 0xe5; 0xf1; 0x71; 0xd8; 0x31; 0x15;
  0x04; 0xc7; 0x23; 0xc3; 0x18; 0x96; 0x05; 0x9a; 0x07; 0x12; 0x80; 0xe2; 0xeb; 0x27; 0xb2; 0x75;
  0x09; 0x83; 0x2c; 0x1a; 0x1b; 0x6e; 0x5a; 0xa0; 0x52; 0x3b; 0xd6; 0xb3; 0x29; 0xe3; 0x2f; 0x84;
  0x53; 0xd1; 0x00; 0xed; 0x20; 0xfc; 0xb1; 0x5b; 0x6a; 0xcb; 0xbe; 0x39; 0x4a; 0x4c; 0x58; 0xcf;
  0xd0; 0xef; 0xaa; 0xfb; 0x43; 0x4d; 0x33; 0x85; 0x45; 0xf9; 0x02; 0x7f; 0x50; 0x3c; 0x9f; 0xa8;
  0x51; 0xa3; 0x40; 0x8f; 0x92; 0x9d; 0x38; 0xf5; 0xbc; 0xb6; 0xda; 0x21; 0x10; 0xff; 0xf3; 0xd2;
  0xcd; 0x0c; 0x13; 0xec; 0x5f; 0x97; 0x44; 0x17; 0xc4; 0xa7; 0x7e; 0x3d; 0x64; 0x5d; 0x19; 0x73;
  0x60; 0x81; 0x4f; 0xdc; 0x22; 0x2a; 0x90; 0x88; 0x46; 0xee; 0xb8; 0x14; 0xde; 0x5e; 0x0b; 0xdb;
  0xe0; 0x32; 0x3a; 0x0a; 0x49; 0x06; 0x24; 0x5c; 0xc2; 0xd3; 0xac; 0x62; 0x91; 0x95; 0xe4; 0x79;
  0xe7; 0xc8; 0x37; 0x6d; 0x8d; 0xd5; 0x4e; 0xa9; 0x6c; 0x56; 0xf4; 0xea; 0x65; 0x7a; 0xae; 0x08;
  0xba; 0x78; 0x25; 0x2e; 0x1c; 0xa6; 0xb4; 0xc6; 0xe8; 0xdd; 0x74; 0x1f; 0x4b; 0xbd; 0x8b; 0x8a;
  0x70; 0x3e; 0xb5; 0x66; 0x48; 0x03; 0xf6; 0x0e; 0x61; 0x35; 0x57; 0xb9; 0x86; 0xc1; 0x1d; 0x9e;
  0xe1; 0xf8; 0x98; 0x11; 0x69; 0xd9; 0x8e; 0x94; 0x9b; 0x1e; 0x87; 0xe9; 0xce; 0x55; 0x28; 0xdf;
  0x8c; 0xa1; 0x89; 0x0d; 0xbf; 0xe6; 0x42; 0x68; 0x41; 0x99; 0x2d; 0x0f; 0xb0; 0x54; 0xbb; 0x16 ].

(** [cc3xx_core.h: "static const uint8_t inv_sbox[256] = {" .. "};"] *)
Definition inv_sbox_table : list Z := [
  0x52; 0x09; 0x6a; 0xd5; 0x30; 0x36; 0xa5; 0x38; 0xbf; 0x40; 0xa3; 0x9e; 0x81; 0xf3; 0xd7; 0xfb;
  0x7c; 0xe3; 0x39; 0x82; 0x9b; 0x2f; 0xff; 0x87; 0x34; 0x8e; 0x43; 0x44; 0xc4; 0xde; 0xe9; 0xcb;
  0x54; 0x7b; 0x94; 0x32; 0xa6; 0xc2; 0x23; 0x3d; 0xee; 0x4c; 0x95; 0x0b; 0x42; 0xfa; 0xc3; 0x4e;
  0x08; 0x2e; 0xa1; 0x66; 0x28; 0xd9; 0x24; 0xb2; 0x76; 0x5b; 0xa2; 0x49; 0x6d; 0x8b; 0xd1; 0x25;
  0x72; 0xf8; 0xf6; 0x64; 0x86; 0x68; 0x98; 0x16; 0xd4; 0xa4; 0x5c; 0xcc; 0x5d; 0x65; 0xb6; 0x92;
  0x6c; 0x70; 0x48; 0x50; 0xfd; 0xed; 0xb9; 0xda; 0x5e; 0x15; 0x46; 0x57; 0xa7; 0x8d; 0x9d; 0x84;
  0x90; 0xd8; 0xab; 0x00; 0x8c; 0xbc; 0xd3; 0x0a; 0xf7; 0xe4; 0x58; 0x05; 0xb8; 0xb3; 0x45; 0x06;
  0xd0; 0x2c; 0x1e; 0x8f; 0xca; 0x3f; 0x0f; 0x02; 0xc1; 0xaf; 0xbd; 0x03; 0x01; 0x13; 0x8a; 0x6b;
  0x3a; 0x91; 0x11; 0x41; 0x4f; 0x67; 0xdc; 0xea; 0x97; 0xf2; 0xcf; 0xce; 0xf0; 0xb4; 0xe6; 0x73;
  0x96; 0xac; 0x74; 0x22; 0xe7; 0xad; 0x35; 0x85; 0xe2; 0xf9; 0x37; 0xe8; 0x1c; 0x75; 0xdf; 0x6e;
  0x47; 0xf1; 0x1a; 0x71; 0x1d; 0x29; 0xc5; 0x89; 0x6f; 0xb7; 0x62; 0x0e; 0xaa; 0x18; 0xbe; 0x1b;
  0xfc; 0x56; 0x3e; 0x4b; 0xc6; 0xd2; 0x79; 0x20; 0x9a; 0xdb; 0xc0; 0xfe; 0x78; 0xcd; 0x5a; 0xf4;
  0x1f; 0xdd; 0xa8; 0x33; 0x88; 0x07; 0xc7; 0x31; 0xb1; 0x12; 0x10; 0x59; 0x27; 0x80; 0xec; 0x5f;
  0x60; 0x51; 0x7f; 0xa9; 0x19; 0xb5; 0x4a; 0x0d; 0x2d; 0xe5; 0x7a; 0x9f; 0x93; 0xc9; 0x9c; 0xef;
  0xa0; 0xe0; 0x3b; 0x4d; 0xae; 0x2a; 0xf5; 0xb0; 0xc8; 0xeb; 0xbb; 0x3c; 0x83; 0x53; 0x99; 0x61;
  0x17; 0x2b; 0x04; 0x7e; 0xba; 0x77; 0xd6; 0x26; 0xe1; 0x69; 0x14; 0x63; 0x55; 0x21; 0x0c; 0x7d ].

(** [cc3xx_core.h: "static uint8_t aes_sbox(uint8_t value)" .. "{"] *)
Definition aes_sbox (value : Z) : Z := arr_get sbox_table value.

(** [cc3xx_core.h: "static uint8_t aes_inv_sbox(uint8_t value)" .. "{"] *)
Definition aes_inv_sbox (value : Z) : Z := arr_get inv_sbox_table value.

(** * Bytes *)

(** [cc3xx_core.h: aes_xtime] *)
Definition aes_xtime (value : Z) : Z :=
  u8 (Z.lxor (Z.shiftl value 1) (if test value 0x80 then 0x1b else 0x00)).

(** [cc3xx_core.h: "while (factor != 0) {" .. "factor >>= 1;"] *)
Fixpoint mul_loop (fuel : nat) (result value factor : Z) : Z :=
  match fuel with
  | O => result
  | S fuel =>
      if factor =? 0 then result
      else
        mul_loop fuel (if test factor 0x1 then Z.lxor result value else result) (aes_xtime value) (Z.shiftr factor 1)
  end.

(** A factor has eight bits. *)
(** [cc3xx_core.h: aes_mul] *)
Definition aes_mul (value factor : Z) : Z := mul_loop 8 0 value factor.

(** * Rounds *)

(** [cc3xx_core.h: aes_add_round_key] *)
Definition aes_add_round_key (state round_key : list Z) : list Z := zip_with Z.lxor state round_key.

(** [cc3xx_core.h: aes_sub_bytes] *)
Definition aes_sub_bytes (state : list Z) : list Z := map aes_sbox state.

(** [cc3xx_core.h: aes_inv_sub_bytes] *)
Definition aes_inv_sub_bytes (state : list Z) : list Z := map aes_inv_sbox state.

(** [state[to] = state[from]], for a list of moves in order. *)
Definition moves (l : list (Z * Z)) (state : list Z) : list Z :=
  foldl (fun state '(to_, from) => arr_set to_ (arr_get state from) state) state l.

(** [cc3xx_core.h: aes_shift_rows] *)
Definition aes_shift_rows (state : list Z) : list Z :=
  let value := arr_get state 1 in
  let state := arr_set 13 value (moves [(1, 5); (5, 9); (9, 13)] state) in
  let value := arr_get state 2 in
  let state := arr_set 10 value (moves [(2, 10)] state) in
  let value := arr_get state 6 in
  let state := arr_set 14 value (moves [(6, 14)] state) in
  let value := arr_get state 15 in
  arr_set 3 value (moves [(15, 11); (11, 7); (7, 3)] state).

(** [cc3xx_core.h: aes_inv_shift_rows] *)
Definition aes_inv_shift_rows (state : list Z) : list Z :=
  let value := arr_get state 13 in
  let state := arr_set 1 value (moves [(13, 9); (9, 5); (5, 1)] state) in
  let value := arr_get state 2 in
  let state := arr_set 10 value (moves [(2, 10)] state) in
  let value := arr_get state 6 in
  let state := arr_set 14 value (moves [(6, 14)] state) in
  let value := arr_get state 3 in
  arr_set 15 value (moves [(3, 7); (7, 11); (11, 15)] state).

(** One column of [aes_mix_columns]; each byte is updated in place. *)
(** [cc3xx_core.h: "const uint8_t t = column[0] ^ column[1] ^ column[2] ^ column[3];" .. "column[3] ^= t ^ aes_xtime(column[3] ^ u);"] *)
Definition mix_column (c0 c1 c2 c3 : Z) : list Z :=
  let t := Z.lxor (Z.lxor (Z.lxor c0 c1) c2) c3 in
  let u := c0 in
  [ Z.lxor c0 (Z.lxor t (aes_xtime (Z.lxor c0 c1)));
    Z.lxor c1 (Z.lxor t (aes_xtime (Z.lxor c1 c2)));
    Z.lxor c2 (Z.lxor t (aes_xtime (Z.lxor c2 c3)));
    Z.lxor c3 (Z.lxor t (aes_xtime (Z.lxor c3 u))) ].

(** The loop over the four columns. *)
Definition on_columns (f : Z -> Z -> Z -> Z -> list Z) (state : list Z) : list Z :=
  concat (map (fun i => f (arr_get state (i * 4)) (arr_get state (i * 4 + 1)) (arr_get state (i * 4 + 2))
                          (arr_get state (i * 4 + 3))) (range 4)).

(** [cc3xx_core.h: aes_mix_columns] *)
Definition aes_mix_columns : list Z -> list Z := on_columns mix_column.

Definition dot4 (a0 a1 a2 a3 f0 f1 f2 f3 : Z) : Z :=
  Z.lxor (Z.lxor (Z.lxor (aes_mul a0 f0) (aes_mul a1 f1)) (aes_mul a2 f2)) (aes_mul a3 f3).

(** [cc3xx_core.h: "const uint8_t a0 = column[0];" .. "aes_mul(a2, 0x09) ^ aes_mul(a3, 0x0e);"] *)
Definition inv_mix_column (a0 a1 a2 a3 : Z) : list Z :=
  [ dot4 a0 a1 a2 a3 0x0e 0x0b 0x0d 0x09;
    dot4 a0 a1 a2 a3 0x09 0x0e 0x0b 0x0d;
    dot4 a0 a1 a2 a3 0x0d 0x09 0x0e 0x0b;
    dot4 a0 a1 a2 a3 0x0b 0x0d 0x09 0x0e ].

(** [cc3xx_core.h: aes_inv_mix_columns] *)
Definition aes_inv_mix_columns : list Z -> list Z := on_columns inv_mix_column.

(** * Keys *)

(** [cc3xx_core.h: "static const uint8_t rcon[11] = {" .. "};"] *)
Definition rcon : list Z := [0x00; 0x01; 0x02; 0x04; 0x08; 0x10; 0x20; 0x40; 0x80; 0x1b; 0x36].

(** The word of the schedule the next one is built from. *)
(** [cc3xx_core.h: "uint8_t temp[4] = {" .. "byte = aes_sbox(byte);"] *)
Definition expand_temp (nk i : Z) (round_keys : list Z) : list Z :=
  let temp := slice ((i - 1) * 4) 4 round_keys in
  if i mod nk =? 0 then
    [ Z.lxor (aes_sbox (arr_get temp 1)) (arr_get rcon (i / nk));
      aes_sbox (arr_get temp 2); aes_sbox (arr_get temp 3); aes_sbox (arr_get temp 0) ]
  else if (6 <? nk) && (i mod nk =? 4) then map aes_sbox temp
  else temp.

(** The next word, [nk] words after the one it is combined with. *)
(** [cc3xx_core.h: "for (unsigned int j = 0; j < 4; ++j) {" .. "round_keys[i * 4 + j] = round_keys[(i - nk) * 4 + j] ^ temp[j];"] *)
Definition expand_word (nk : Z) (round_keys : list Z) (i : Z) : list Z :=
  let temp := expand_temp nk i round_keys in
  foldl (fun round_keys j =>
    arr_set (i * 4 + j) (Z.lxor (arr_get round_keys ((i - nk) * 4 + j)) (arr_get temp j)) round_keys)
    round_keys (range 4).

(** The round keys, in a buffer of 240 bytes, and their number; [None] for a
    length that is no key length. *)
(** [cc3xx_core.h: aes_expand_key] *)
Definition aes_expand_key (key : list Z) (key_len : Z) : option (list Z * Z) :=
  if negb (key_len =? 16) && negb (key_len =? 24) && negb (key_len =? 32) then None
  else
    let nk := key_len / 4 in
    let rounds := nk + 6 in
    let words := 4 * (rounds + 1) in
    let round_keys := splice 0 (take (Z.to_nat key_len) key) (replicate 240 0) in
    let round_keys := foldl (expand_word nk) round_keys (seqZ nk (words - nk)) in
    Some (round_keys, rounds).

(** [round_keys.data() + round * 16]. *)
Definition round_key (round_keys : list Z) (round : Z) : list Z := slice (round * 16) 16 round_keys.

(** The rounds of the cipher, given the round keys. *)
(** [cc3xx_core.h: "std::copy(input, input + state.size(), state.begin());" .. "std::copy(state.begin(), state.end(), output);"] *)
Definition encrypt_rounds (round_keys : list Z) (rounds : Z) (input : list Z) : list Z :=
  let state := aes_add_round_key (take 16 input) (round_key round_keys 0) in
  let state := foldl (fun state round =>
    aes_add_round_key (aes_mix_columns (aes_shift_rows (aes_sub_bytes state))) (round_key round_keys round))
    state (seqZ 1 (rounds - 1)) in
  aes_add_round_key (aes_shift_rows (aes_sub_bytes state)) (round_key round_keys rounds).

(** [cc3xx_core.h: aes_encrypt_block] *)
Definition aes_encrypt_block (key : list Z) (key_len : Z) (input : list Z) : option (list Z) :=
  match aes_expand_key key key_len with
  | None => None
  | Some (round_keys, rounds) => Some (encrypt_rounds round_keys rounds input)
  end.

(** The rounds of the inverse cipher, from the last key down. *)
(** [cc3xx_core.h: 1150-1163] *)
Definition decrypt_rounds (round_keys : list Z) (rounds : Z) (input : list Z) : list Z :=
  let state := aes_add_round_key (take 16 input) (round_key round_keys rounds) in
  let state := foldl (fun state round =>
    aes_inv_mix_columns (aes_add_round_key (aes_inv_sub_bytes (aes_inv_shift_rows state)) (round_key round_keys round)))
    state (rev (seqZ 1 (rounds - 1))) in
  aes_add_round_key (aes_inv_sub_bytes (aes_inv_shift_rows state)) (round_key round_keys 0).

(** [cc3xx_core.h: aes_decrypt_block] *)
Definition aes_decrypt_block (key : list Z) (key_len : Z) (input : list Z) : option (list Z) :=
  match aes_expand_key key key_len with
  | None => None
  | Some (round_keys, rounds) => Some (decrypt_rounds round_keys rounds input)
  end.

(** * Modes *)

(** The increment from the last byte up, until one does not wrap. *)
Fixpoint increment_loop (rcounter : list Z) : list Z :=
  match rcounter with
  | [] => []
  | b :: rcounter => let b := u8 (b + 1) in if negb (b =? 0) then b :: rcounter else b :: increment_loop rcounter
  end.

(** [cc3xx_core.h: aes_increment_counter] *)
Definition aes_increment_counter (counter : list Z) : list Z := rev (increment_loop (rev counter)).

(** [dst[k + i] = input[i] ^ stream[offset + i]] for a block of the input. *)
Definition xor_stream (input stream : list Z) : list Z := zip_with Z.lxor input stream.

(** The loop over the blocks, each turn at least one byte: the output and the
    counter that is left. *)
(** [cc3xx_core.h: "while (processed != len) {" .. "aes_increment_counter(local_counter);"] *)
Fixpoint ctr_loop (fuel : nat) (key : list Z) (key_len : Z) (counter input : list Z) (stream_offset : Z)
    : option (list Z * list Z) :=
  match fuel with
  | O => Some ([], counter)
  | S fuel =>
      if vec_size input =? 0 then Some ([], counter)
      else
        match aes_encrypt_block key key_len counter with
        | None => None
        | Some stream =>
            let block_len := Z.min (16 - stream_offset) (vec_size input) in
            let block := xor_stream (slice 0 block_len input) (slice stream_offset block_len stream) in
            match ctr_loop fuel key key_len (aes_increment_counter counter) (drop (Z.to_nat block_len) input) 0 with
            | None => None
            | Some (out, counter) => Some (block ++ out, counter)
            end
        end
  end.

(** A null pointer is [None]; the result is the output, or [None] for [false]. *)
(** [cc3xx_core.h: aes_ctr_xcrypt_buffer] *)
Definition aes_ctr_xcrypt_buffer (key : option (list Z)) (key_len : Z) (counter input : option (list Z))
    (blk_off : Z) (output_null : bool) : option (list Z) :=
  match key, counter, input with
  | Some key, Some counter, Some input =>
      if output_null then None
      else if negb (key_len =? 16) && negb (key_len =? 24) && negb (key_len =? 32) then None
      else if 16 <=? blk_off then None
      else fst <$> ctr_loop (length input) key key_len (take 16 counter) input blk_off
  | _, _, _ => None
  end.

(** [cc3xx_core.h: aes_left_shift_block] *)
Definition aes_left_shift_block (input : list Z) : list Z :=
  fst (foldl (fun '(out, carry) i =>
    let b := arr_get input i in
    (u8 (Z.lor (Z.shiftl b 1) carry) :: out, if test b 0x80 then 1 else 0)) ([], 0) (rev (range 16))).

(** [cc3xx_core.h: aes_xor_block] *)
Definition aes_xor_block (lhs rhs : list Z) : list Z := zip_with Z.lxor lhs rhs.

(** A subkey: the doubled block. *)
(** [cc3xx_core.h: "aes_left_shift_block(l.data(), k1.data());" .. "k1[15] ^= 0x87u;"] *)
Definition cmac_double (l : list Z) : list Z :=
  let k := aes_left_shift_block l in
  if test (arr_get l 0) 0x80 then arr_set 15 (Z.lxor (arr_get k 15) 0x87) k else k.

(** The block with a number, as it is encrypted. *)
(** [cc3xx_core.h: "block.fill(0);" .. "aes_xor_block(block.data(), k2.data());"] *)
Definition cmac_block (k1 k2 data : list Z) (block_count : Z) (complete_last : bool) (block_index : Z) : list Z :=
  let data_offset := block_index * 16 in
  let remaining := if data_offset <? vec_size data then vec_size data - data_offset else 0 in
  let copy_len := Z.min 16 remaining in
  let block := splice 0 (slice data_offset copy_len data) (replicate 16 0) in
  if block_index =? block_count - 1 then
    if complete_last then aes_xor_block block k1
    else aes_xor_block (arr_set copy_len 0x80 block) k2
  else block.

(** [cc3xx_core.h: aes_cmac] *)
Definition aes_cmac (key : list Z) (key_len : Z) (data : list Z) : option (list Z) :=
  match aes_encrypt_block key key_len (replicate 16 0) with
  | None => None
  | Some l =>
      let k1 := cmac_double l in
      let k2 := cmac_double k1 in
      let block_count := if vec_size data =? 0 then 1 else (vec_size data + 15) / 16 in
      let complete_last := negb (vec_size data =? 0) && (vec_size data mod 16 =? 0) in
      foldl (fun state block_index =>
        match state with
        | None => None
        | Some state =>
            let block := aes_xor_block (cmac_block k1 k2 data block_count complete_last block_index) state in
            aes_encrypt_block key key_len block
        end) (Some (replicate 16 0)) (range block_count)
  end.

(** The block of the standard's example, under its three keys. *)
Definition fips_key (n : Z) : list Z := range n.
Definition fips_block : list Z := map (fun i => i * 0x11) (range 16).

Example aes_fips_128 : aes_encrypt_block (fips_key 16) 16 fips_block = Some
  [0x69; 0xc4; 0xe0; 0xd8; 0x6a; 0x7b; 0x04; 0x30; 0xd8; 0xcd; 0xb7; 0x80; 0x70; 0xb4; 0xc5; 0x5a].
Proof. vm_compute. reflexivity. Qed.

Example aes_fips_192 : aes_encrypt_block (fips_key 24) 24 fips_block = Some
  [0xdd; 0xa9; 0x7c; 0xa4; 0x86; 0x4c; 0xdf; 0xe0; 0x6e; 0xaf; 0x70; 0xa0; 0xec; 0x0d; 0x71; 0x91].
Proof. vm_compute. reflexivity. Qed.

Example aes_fips_256 : aes_encrypt_block (fips_key 32) 32 fips_block = Some
  [0x8e; 0xa2; 0xb7; 0xca; 0x51; 0x67; 0x45; 0xbf; 0xea; 0xfc; 0x49; 0x90; 0x4b; 0x49; 0x60; 0x89].
Proof. vm_compute. reflexivity. Qed.

(** The code of the empty message under the key of RFC 4493. *)
Example aes_cmac_empty : aes_cmac
  [0x2b; 0x7e; 0x15; 0x16; 0x28; 0xae; 0xd2; 0xa6; 0xab; 0xf7; 0x15; 0x88; 0x09; 0xcf; 0x4f; 0x3c] 16 [] = Some
  [0xbb; 0x1d; 0x69; 0x29; 0xe9; 0x59; 0x37; 0x28; 0x7f; 0xa3; 0x7d; 0x12; 0x9b; 0x75; 0x67; 0x46].
Proof. vm_compute. reflexivity. Qed.
