(* ===== verification/AesCorrect.v ===== *)
(** Decryption undoes encryption: the tables are inverse, the rows shift back,
    and the column mixing is inverted by linearity over exclusive or. *)

From S2P Require Import Prelude Bytes Vectors Cc3xxAes.

(** A block of 16 bytes. *)
Definition block_ok (s : list Z) : Prop := length s = 16%nat /\ bytes_ok s.

Lemma aes_sbox_inv b : is_u8 b -> is_u8 (aes_sbox b) /\ aes_inv_sbox (aes_sbox b) = b.
Proof.
  intros Hb. assert (forallb (fun b => (0 <=? aes_sbox b) && (aes_sbox b <? 256) && (aes_inv_sbox (aes_sbox b) =? b)) (range 256)
    = true) as H by (by vm_compute).
  rewrite forallb_forall in H. specialize (H b). unfold is_uint in *. rewrite <-list_elem_of_In, elem_of_range in H.
  specialize (H ltac:(lia)). lia.
Qed.

Lemma sub_bytes_inv s : block_ok s -> block_ok (aes_sub_bytes s) /\ aes_inv_sub_bytes (aes_sub_bytes s) = s.
Proof.
  intros [Hl Hs]. unfold aes_sub_bytes, aes_inv_sub_bytes. split.
  - split; [by rewrite length_map|]. apply Forall_map. eapply Forall_impl; [exact Hs|]. intros b Hb. by apply aes_sbox_inv.
  - clear Hl. induction Hs as [|b s Hb Hs IH]; [done|]. cbn [map]. rewrite IH. f_equal. by apply aes_sbox_inv.
Qed.

(** A list of 16 elements, element by element. *)
Lemma list16 (P : list Z -> Prop) :
  (forall a b c d e f g h i j k l m n o p, P [a; b; c; d; e; f; g; h; i; j; k; l; m; n; o; p]) ->
  forall s, length s = 16%nat -> P s.
Proof.
  intros HP s Hs. do 16 (destruct s as [|? s]; [discriminate|]). destruct s; [apply HP|discriminate].
Qed.

Lemma shift_rows_inv s : block_ok s -> block_ok (aes_shift_rows s) /\ aes_inv_shift_rows (aes_shift_rows s) = s.
Proof.
  intros [Hl Hs]. revert Hs. pattern s. revert s Hl. apply list16. intros a b c d e f g h i j k l m n o p Hs.
  split; [|reflexivity]. split; [reflexivity|]. change (Forall is_u8 [a; f; k; p; e; j; o; d; i; n; c; h; m; b; g; l]).
  unfold bytes_ok in Hs. rewrite !Forall_cons in Hs |- *. tauto.
Qed.

Lemma add_round_key_ok s k : block_ok s -> block_ok k -> block_ok (aes_add_round_key s k).
Proof.
  intros [Hl Hs] [Hlk Hk]. unfold aes_add_round_key. split; [rewrite length_zip_with; lia|].
  clear Hl Hlk. revert k Hk. induction Hs as [|b s Hb Hs IH]; intros [|x k] Hk; try constructor; inversion_clear Hk.
  - by apply lxor_uint.
  - by apply IH.
Qed.

Lemma add_round_key_inv s k : block_ok s -> block_ok k -> aes_add_round_key (aes_add_round_key s k) k = s.
Proof.
  intros [Hl _] [Hlk _]. assert (length s = length k) as H by lia. clear Hl Hlk. revert k H.
  induction s as [|b s IH]; intros [|x k] H; try done. unfold aes_add_round_key in *. cbn [zip_with].
  rewrite IH by (by injection H). f_equal. rewrite Z.lxor_assoc, Z.lxor_nilpotent. apply Z.lxor_0_r.
Qed.

(** * Mixing columns *)

Lemma u8_lxor a b : u8 (Z.lxor a b) = Z.lxor (u8 a) (u8 b).
Proof.
  apply Z.bits_inj'. intros i Hi. unfold wrap. rewrite Z.lxor_spec, !Z.testbit_mod_pow2, Z.lxor_spec by lia. btauto.
Qed.

(** Doubling in the field is linear. *)
Lemma aes_xtime_lxor a b : aes_xtime (Z.lxor a b) = Z.lxor (aes_xtime a) (aes_xtime b).
Proof.
  unfold aes_xtime. rewrite <-u8_lxor. f_equal. rewrite Z.shiftl_lxor. change 0x80 with (bit 7).
  rewrite !test_bit, Z.lxor_spec by lia. destruct (Z.testbit a 7), (Z.testbit b 7); cbn [xorb]; bitwise.
Qed.

Lemma aes_xtime_u8 a : is_u8 (aes_xtime a).
Proof. by apply wrap_range. Qed.

Lemma aes_mul_9 a : aes_mul a 0x09 = Z.lxor a (aes_xtime (aes_xtime (aes_xtime a))).
Proof. reflexivity. Qed.
Lemma aes_mul_11 a : aes_mul a 0x0b = Z.lxor (Z.lxor a (aes_xtime a)) (aes_xtime (aes_xtime (aes_xtime a))).
Proof. reflexivity. Qed.
Lemma aes_mul_13 a : aes_mul a 0x0d = Z.lxor (Z.lxor a (aes_xtime (aes_xtime a))) (aes_xtime (aes_xtime (aes_xtime a))).
Proof. reflexivity. Qed.
Lemma aes_mul_14 a : aes_mul a 0x0e =
  Z.lxor (Z.lxor (aes_xtime a) (aes_xtime (aes_xtime a))) (aes_xtime (aes_xtime (aes_xtime a))).
Proof. reflexivity. Qed.

(** Compares two exclusive ors bit by bit. *)
Ltac xor_bits :=
  apply Z.bits_inj'; intros ?i ?Hi; rewrite ?Z.lxor_spec;
  repeat match goal with |- context [Z.testbit ?x ?j] => generalize (Z.testbit x j); intros ? end; btauto.

Lemma mix_column_inv a0 a1 a2 a3 :
  match mix_column a0 a1 a2 a3 with
  | [c0; c1; c2; c3] => inv_mix_column c0 c1 c2 c3 = [a0; a1; a2; a3]
  | _ => False
  end.
Proof.
  unfold mix_column, inv_mix_column, dot4. rewrite !aes_mul_9, !aes_mul_11, !aes_mul_13, !aes_mul_14.
  rewrite !aes_xtime_lxor.
  set (x0 := aes_xtime a0). set (x1 := aes_xtime a1). set (x2 := aes_xtime a2). set (x3 := aes_xtime a3).
  set (y0 := aes_xtime x0). set (y1 := aes_xtime x1). set (y2 := aes_xtime x2). set (y3 := aes_xtime x3).
  set (z0 := aes_xtime y0). set (z1 := aes_xtime y1). set (z2 := aes_xtime y2). set (z3 := aes_xtime y3).
  set (w0 := aes_xtime z0). set (w1 := aes_xtime z1). set (w2 := aes_xtime z2). set (w3 := aes_xtime z3).
  clearbody x0 x1 x2 x3 y0 y1 y2 y3 z0 z1 z2 z3 w0 w1 w2 w3.
  f_equal; [|f_equal; [|f_equal; [|f_equal]]]; xor_bits.
Qed.

Lemma mix_column_ok a0 a1 a2 a3 : is_u8 a0 -> is_u8 a1 -> is_u8 a2 -> is_u8 a3 -> bytes_ok (mix_column a0 a1 a2 a3).
Proof.
  intros. pose proof aes_xtime_u8. repeat (apply Forall_cons; split; [eauto 10 using lxor_uint with lia|]). constructor.
Qed.

Lemma on_columns_eq f a b c d e g h i j k l m n o p q :
  on_columns f [a; b; c; d; e; g; h; i; j; k; l; m; n; o; p; q] = f a b c d ++ f e g h i ++ f j k l m ++ f n o p q ++ [].
Proof. reflexivity. Qed.

Lemma mix_columns_inv s : block_ok s -> block_ok (aes_mix_columns s) /\ aes_inv_mix_columns (aes_mix_columns s) = s.
Proof.
  intros [Hl Hs]. revert Hs. pattern s. revert s Hl. apply list16. intros a b c d e f g h i j k l m n o p Hs.
  unfold aes_mix_columns, aes_inv_mix_columns. rewrite on_columns_eq. rewrite app_nil_r. split.
  - split; [reflexivity|]. unfold bytes_ok in *. rewrite !Forall_cons in Hs. rewrite !Forall_app.
    repeat split; apply mix_column_ok; tauto.
  - pose proof (mix_column_inv a b c d) as Hm1. pose proof (mix_column_inv e f g h) as Hm2.
    pose proof (mix_column_inv i j k l) as Hm3. pose proof (mix_column_inv m n o p) as Hm4.
    unfold mix_column in Hm1, Hm2, Hm3, Hm4 |- *. cbn [app]. by rewrite on_columns_eq, Hm1, Hm2, Hm3, Hm4.
Qed.

(** * Round keys *)

Lemma round_key_ok ks r : length ks = 240%nat -> bytes_ok ks -> 0 <= r <= 14 -> block_ok (round_key ks r).
Proof.
  intros Hl Hk Hr. unfold round_key. split.
  - pose proof (slice_length (r * 16) 16 ks). unfold vec_size in *. lia.
  - by apply Forall_take, Forall_drop.
Qed.

(** The schedule stays in its buffer. *)
Definition keys_ok : list Z -> Prop := arr_ok 240 8.

Lemma keys_get ks i : keys_ok ks -> is_u8 (arr_get ks i).
Proof. intros Hk. by apply (arr_ok_get 240). Qed.

Lemma sbox_u8 b : is_u8 (aes_sbox b).
Proof.
  apply (arr_ok_get 256); [lia|]. split; [done|]. apply Forall_forall. intros x Hx.
  assert (forallb (fun x => (0 <=? x) && (x <? 256)) sbox_table = true) as H by done.
  rewrite forallb_forall in H. specialize (H x). rewrite <-list_elem_of_In in H. specialize (H Hx). unfold is_uint. lia.
Qed.

Lemma expand_temp_ok nk i ks : keys_ok ks -> bytes_ok (expand_temp nk i ks).
Proof.
  intros Hk. unfold expand_temp. case_if; [|case_if].
  - repeat (apply Forall_cons; split; [first [apply sbox_u8|apply lxor_uint; [lia|apply sbox_u8|]]|]); [|constructor].
    apply (arr_ok_get 11); [lia|]. split; [done|]. unfold rcon. repeat (apply Forall_cons; split; [by split|]). constructor.
  - apply Forall_map, Forall_true. intros b. apply sbox_u8.
  - apply Forall_take, Forall_drop. apply Hk.
Qed.

Lemma foldl_keeps {A B} (P : A -> Prop) (f : A -> B -> A) a l : (forall a x, P a -> P (f a x)) -> P a -> P (foldl f a l).
Proof. intros Hf. revert a. induction l as [|x l IH]; intros a Ha; [done|]. cbn. auto. Qed.

Lemma expand_word_ok nk i ks : keys_ok ks -> keys_ok (expand_word nk ks i).
Proof.
  intros Hk. pose proof (expand_temp_ok nk i ks Hk) as Ht. unfold expand_word. set (temp := expand_temp nk i ks) in *.
  refine (foldl_keeps keys_ok _ ks (range 4) _ Hk). intros rk j Hrk. apply arr_ok_set; [done|].
  apply lxor_uint; [lia|by apply keys_get|]. by apply (arr_ok_get (length temp)).
Qed.

Lemma expand_key_ok key key_len ks rounds : bytes_ok key -> key_len <= vec_size key ->
  aes_expand_key key key_len = Some (ks, rounds) -> keys_ok ks /\ 10 <= rounds <= 14.
Proof.
  intros Hkey Hlen. unfold aes_expand_key. case_if; [done|]. intros Heq. injection Heq as <- <-.
  assert (key_len = 16 \/ key_len = 24 \/ key_len = 32) as Hcases by lia.
  split; [|destruct Hcases as [E1|[E1|E1]]; subst key_len; by split].
  apply (foldl_keeps keys_ok); [intros rk i; apply expand_word_ok|].
  assert (Forall is_u8 (replicate 240 0)) as Hz by (by apply Forall_replicate, is_uint_0). split.
  - rewrite splice_length; [done|done|]. unfold vec_size. rewrite length_take. cbn [length]. lia.
  - apply Forall_app_2; [apply Forall_take, Hz|apply Forall_app_2; [by apply Forall_take|apply Forall_drop, Hz]].
Qed.

(** * The cipher *)

Section cipher.
Context (ks : list Z) (rounds : Z).
Hypothesis Hks : keys_ok ks.
Hypothesis Hrounds : 10 <= rounds <= 14.

Let ready (s : list Z) : list Z := aes_shift_rows (aes_sub_bytes s).

Lemma ready_inv s : block_ok s -> block_ok (ready s) /\ aes_inv_sub_bytes (aes_inv_shift_rows (ready s)) = s.
Proof.
  intros Hs. destruct (sub_bytes_inv s Hs) as [H1 H2]. destruct (shift_rows_inv _ H1) as [H3 H4]. unfold ready.
  by rewrite H4, H2.
Qed.

Lemma round_ok s r : block_ok s -> 0 <= r <= 14 ->
  let s' := aes_add_round_key (aes_mix_columns (ready s)) (round_key ks r) in
  block_ok s' /\
  aes_inv_mix_columns (aes_add_round_key (aes_inv_sub_bytes (aes_inv_shift_rows (ready s'))) (round_key ks r)) = ready s.
Proof.
  intros Hs Hr s'. destruct (ready_inv s Hs) as [H1 _]. destruct (mix_columns_inv _ H1) as [H2 H3].
  pose proof (round_key_ok ks r (proj1 Hks) (proj2 Hks) Hr) as Hk.
  assert (block_ok s') as Hs' by (by apply add_round_key_ok). split; [done|].
  destruct (ready_inv s' Hs') as [_ ->]. unfold s'. by rewrite add_round_key_inv.
Qed.

(** The rounds of decryption, last key first, retrace those of encryption. *)
Lemma rounds_inv l s : block_ok s -> (forall r, r ∈ l -> 0 <= r <= 14) ->
  let s' := foldl (fun s r => aes_add_round_key (aes_mix_columns (ready s)) (round_key ks r)) s l in
  block_ok s' /\
  foldl (fun s r => aes_inv_mix_columns (aes_add_round_key (aes_inv_sub_bytes (aes_inv_shift_rows s)) (round_key ks r)))
    (ready s') (rev l) = ready s.
Proof.
  revert s. induction l as [|r l IH]; intros s Hs Hl; [done|]. cbn [foldl rev].
  destruct (round_ok s r Hs) as [H1 H2]; [apply Hl, list_elem_of_here|].
  destruct (IH _ H1) as [H3 H4]; [intros r' Hr'; by apply Hl, list_elem_of_further|].
  split; [done|]. rewrite foldl_app, H4. exact H2.
Qed.

Lemma decrypt_encrypt_rounds s : block_ok s -> decrypt_rounds ks rounds (encrypt_rounds ks rounds s) = s.
Proof.
  intros Hs. unfold encrypt_rounds, decrypt_rounds.
  pose proof (round_key_ok ks 0 (proj1 Hks) (proj2 Hks) ltac:(lia)) as Hk0.
  pose proof (round_key_ok ks rounds (proj1 Hks) (proj2 Hks) ltac:(lia)) as Hkr.
  assert (take 16 s = s) as -> by (apply take_ge; destruct Hs; lia).
  pose proof (add_round_key_ok s _ Hs Hk0) as Hs0.
  destruct (rounds_inv (seqZ 1 (rounds - 1)) _ Hs0) as [H1 H2]; [intros r Hr%elem_of_seqZ; lia|].
  unfold ready in H2. set (s' := foldl _ _ (seqZ 1 (rounds - 1))) in *.
  destruct (ready_inv s' H1) as [H3 _]. unfold ready in H3.
  assert (take 16 (aes_add_round_key (aes_shift_rows (aes_sub_bytes s')) (round_key ks rounds)) =
    aes_add_round_key (aes_shift_rows (aes_sub_bytes s')) (round_key ks rounds)) as ->.
  { apply take_ge. destruct (add_round_key_ok _ _ H3 Hkr). lia. }
  rewrite (add_round_key_inv (aes_shift_rows (aes_sub_bytes s'))) by done. rewrite H2.
  destruct (ready_inv _ Hs0) as [_ E]. unfold ready in E. rewrite E. by apply add_round_key_inv.
Qed.
End cipher.

(** C40. Decrypting an encrypted block under the same key, of any of the three
    lengths, gives the block back. *)
Theorem aes_decrypt_encrypt (key block : list Z) (key_len : Z) :
  bytes_ok key -> key_len <= vec_size key -> key_len ∈ [16; 24; 32] -> block_ok block ->
  match aes_encrypt_block key key_len block with
  | Some cipher => aes_decrypt_block key key_len cipher = Some block
  | None => False
  end.
Proof.
  intros Hkey Hlen Hk Hb. unfold aes_encrypt_block, aes_decrypt_block.
  destruct (aes_expand_key key key_len) as [[ks rounds]|] eqn:E.
  - destruct (expand_key_ok key key_len ks rounds Hkey Hlen E) as [Hks Hr]. f_equal. by apply decrypt_encrypt_rounds.
  - unfold aes_expand_key in E. replace (_ && _) with false in E; [done|]. rewrite !elem_of_cons in Hk.
    destruct Hk as [->|[->|[->|Hk]]]; try done. by inversion Hk.
Qed.

Lemma aes_decrypt_encrypt_witness :
  match aes_encrypt_block (range 16) 16 (range 16) with
  | Some cipher => aes_decrypt_block (range 16) 16 cipher = Some (range 16)
  | None => False
  end.
Proof.
  assert (bytes_ok (range 16)) as Hb by (apply Forall_forall; intros x Hx%elem_of_range; split; lia).
  apply (aes_decrypt_encrypt (range 16) (range 16) 16 Hb); [done|apply list_elem_of_here|by split].
Defined.
