(* ===== verification/AesCtr.v ===== *)
(** The counter mode is random access: the byte at an offset depends on the key, the
    first counter, the offset and the byte alone, so a buffer can be worked on in one
    run or in pieces, and working on it twice gives it back. *)

From S2P Require Import Prelude Bytes Vectors Sha256 Cc3xxAes AesCorrect.

(** * Keys *)

Definition key_ok (key : list Z) : Prop := bytes_ok key /\ vec_size key ∈ [16; 24; 32].

Lemma key_cases key : key_ok key -> vec_size key = 16 \/ vec_size key = 24 \/ vec_size key = 32.
Proof. intros [_ Hk]. rewrite !elem_of_cons in Hk. destruct Hk as [->|[->|[->|Hk]]]; [lia..|by inversion Hk]. Qed.

Lemma key_expands key : key_ok key -> exists rk rounds, aes_expand_key key (vec_size key) = Some (rk, rounds).
Proof.
  intros Hk. unfold aes_expand_key. replace (_ && _) with false by (destruct (key_cases key Hk) as [->|[->| ->]]; done). by eexists _, _.
Qed.

(** Only the bytes of the key count. *)
Lemma expand_prefix key rest : aes_expand_key (key ++ rest) (vec_size key) = aes_expand_key key (vec_size key).
Proof. unfold aes_expand_key, vec_size. by rewrite Nat2Z.id, take_app_length, take_ge by lia. Qed.

(** * The counter *)

Lemma rev_be_bytes n v : 0 <= n -> rev (be_bytes n v) = le_bytes (Z.to_nat n) v.
Proof.
  intros Hn. unfold be_bytes. rewrite <-map_rev, rev_involutive. apply list_eq. intros i. unfold range.
  destruct (decide (i < Z.to_nat n)%nat) as [Hi|Hi].
  - rewrite list_lookup_fmap, lookup_seqZ_lt, le_bytes_lookup by lia. cbn. f_equal. unfold u8, wrap.
    rewrite Z.shiftr_div_pow2 by lia. do 3 f_equal. lia.
  - rewrite !lookup_ge_None_2; [done|rewrite le_bytes_length; lia|rewrite length_fmap, length_seqZ; lia].
Qed.

(** The loop over the bytes adds one. *)
Lemma increment_le n v : 0 <= v -> increment_loop (le_bytes n v) = le_bytes n (v + 1).
Proof.
  revert v. induction n as [|n IH]; intros v Hv; [done|]. cbn [le_bytes increment_loop].
  assert (u8 (v mod 256 + 1) = (v + 1) mod 256) as -> by (unfold wrap; change (2 ^ 8) with 256; by rewrite Z.add_mod_idemp_l).
  pose proof (Z.div_mod v 256 ltac:(lia)) as Hd. pose proof (Z.mod_pos_bound v 256 ltac:(lia)) as Hm.
  destruct (Z.eqb_spec ((v + 1) mod 256) 0) as [E|E]; cbn [negb].
  - assert (v mod 256 = 255) as Hlast.
    { destruct (Z.eq_dec (v mod 256) 255); [done|]. exfalso.
      rewrite <-Z.add_mod_idemp_l in E by lia. rewrite Z.mod_small in E by lia. lia. }
    rewrite IH by (apply Z.div_pos; lia). do 2 f_equal.
    apply (Z.div_unique _ _ _ 0); lia.
  - assert (v mod 256 <> 255) as Hlast.
    { intros Hl. apply E. rewrite <-Z.add_mod_idemp_l, Hl by lia. done. }
    do 2 f_equal. apply (Z.div_unique _ _ _ (v mod 256 + 1)); lia.
Qed.

Lemma aes_increment_counter_spec v : 0 <= v -> aes_increment_counter (be_bytes 16 v) = be_bytes 16 (v + 1).
Proof.
  intros Hv. unfold aes_increment_counter. rewrite rev_be_bytes, increment_le, <-(rev_be_bytes 16) by lia.
  apply rev_involutive.
Qed.

(** * The key stream *)

(** One byte of the stream: byte [j mod 16] of the encrypted counter [c + j / 16]. *)
Definition ctr_byte (round_keys : list Z) (rounds c j : Z) : Z :=
  arr_get (encrypt_rounds round_keys rounds (be_bytes 16 (c + j / 16))) (j mod 16).

(** A buffer whose first byte is at offset [off] of the stream. *)
Definition ctr_xor (round_keys : list Z) (rounds c off : Z) (input : list Z) : list Z :=
  imap (fun i b => Z.lxor b (ctr_byte round_keys rounds c (off + Z.of_nat i))) input.

(** The counter blocks a buffer at that offset uses. *)
Definition ctr_blocks (off n : Z) : Z := if n =? 0 then 0 else (off + n + 15) / 16.

Lemma ctr_xor_app rk rounds c off l l' :
  ctr_xor rk rounds c off (l ++ l') = ctr_xor rk rounds c off l ++ ctr_xor rk rounds c (off + vec_size l) l'.
Proof.
  unfold ctr_xor. rewrite imap_app. f_equal. apply imap_ext. intros i b _. cbn. do 2 f_equal. unfold vec_size. lia.
Qed.

Lemma ctr_xor_length rk rounds c off l : length (ctr_xor rk rounds c off l) = length l.
Proof. apply length_imap. Qed.

(** An offset of whole blocks can be moved into the counter. *)
Lemma ctr_xor_blocks rk rounds c off k l : ctr_xor rk rounds (c + k) off l = ctr_xor rk rounds c (off + 16 * k) l.
Proof.
  apply imap_ext. intros i b _. f_equal. unfold ctr_byte.
  replace (off + 16 * k + Z.of_nat i) with (off + Z.of_nat i + k * 16) by lia.
  rewrite Z.div_add, Z.mod_add by lia. do 3 f_equal. lia.
Qed.

Lemma ctr_xor_twice rk rounds c off l : ctr_xor rk rounds c off (ctr_xor rk rounds c off l) = l.
Proof.
  apply list_eq. intros i. unfold ctr_xor. rewrite !list_lookup_imap. destruct (l !! i); [|done]. cbn. f_equal.
  rewrite Z.lxor_assoc, Z.lxor_nilpotent. apply Z.lxor_0_r.
Qed.

Lemma counter_ok c : block_ok (be_bytes 16 c).
Proof. split; [pose proof (be_bytes_length 16 c ltac:(lia)); unfold vec_size in *; lia|apply be_bytes_ok]. Qed.

Section stream.
Context (key : list Z) (key_len : Z) (rk : list Z) (rounds : Z).
Hypothesis Hexpand : aes_expand_key key key_len = Some (rk, rounds).
Hypothesis Hkey : bytes_ok key /\ key_len <= vec_size key.

Lemma encrypt_rounds_ok block : block_ok block -> block_ok (encrypt_rounds rk rounds block).
Proof.
  intros Hb. destruct (expand_key_ok key key_len rk rounds (proj1 Hkey) (proj2 Hkey) Hexpand) as [Hks Hr].
  unfold encrypt_rounds. assert (take 16 block = block) as -> by (apply take_ge; destruct Hb; lia).
  pose proof (round_key_ok rk 0 (proj1 Hks) (proj2 Hks) ltac:(lia)) as Hk0.
  pose proof (round_key_ok rk rounds (proj1 Hks) (proj2 Hks) ltac:(lia)) as Hkr.
  destruct (rounds_inv rk Hks (seqZ 1 (rounds - 1)) _ (add_round_key_ok _ _ Hb Hk0)) as [H1 _];
    [intros r Hr'%elem_of_seqZ; lia|].
  apply (add_round_key_ok _ _ (proj1 (shift_rows_inv _ (proj1 (sub_bytes_inv _ H1)))) Hkr).
Qed.

Lemma encrypt_rounds_length block : block_ok block -> length (encrypt_rounds rk rounds block) = 16%nat.
Proof. intros Hb. by apply encrypt_rounds_ok. Qed.

(** One turn of the loop works on the rest of a block. *)
Lemma block_xor c off input : 0 <= off < 16 -> vec_size input <= 16 - off ->
  xor_stream input (slice off (vec_size input) (encrypt_rounds rk rounds (be_bytes 16 c))) = ctr_xor rk rounds c off input.
Proof.
  intros Hoff Hn. pose proof (encrypt_rounds_length _ (counter_ok c)) as Hl. set (stream := encrypt_rounds _ _ _) in *.
  apply list_eq. intros i. unfold xor_stream, ctr_xor. rewrite lookup_zip_with, list_lookup_imap.
  destruct (input !! i) as [b|] eqn:Ei; [|done]. apply lookup_lt_Some in Ei as Hi. unfold vec_size in *. cbn.
  unfold slice. rewrite lookup_take_lt, lookup_drop by lia.
  destruct (lookup_lt_is_Some_2 stream (Z.to_nat off + i)) as [x Hx]; [lia|]. rewrite Hx. cbn. do 2 f_equal.
  unfold ctr_byte. rewrite Z.div_small, Z.add_0_r, Z.mod_small by lia. fold stream. unfold arr_get.
  replace (Z.to_nat (off + Z.of_nat i)) with (Z.to_nat off + i)%nat by lia. by rewrite Hx.
Qed.

Lemma ctr_loop_full fuel c off input : 0 <= c -> 0 <= off < 16 -> (length input <= fuel)%nat ->
  ctr_loop fuel key key_len (be_bytes 16 c) input off =
    Some (ctr_xor rk rounds c off input, be_bytes 16 (c + ctr_blocks off (vec_size input))).
Proof.
  revert c off input. induction fuel as [|fuel IH]; intros c off input Hc Hoff Hf.
  { destruct input; [|cbn in Hf; lia]. unfold ctr_blocks. cbn. by rewrite Z.add_0_r. }
  cbn [ctr_loop]. unfold ctr_blocks. destruct (Z.eqb_spec (vec_size input) 0) as [E|E].
  { destruct input; [cbn; by rewrite Z.add_0_r|unfold vec_size in E; cbn in E; lia]. }
  unfold aes_encrypt_block. rewrite Hexpand. set (n := Z.min (16 - off) (vec_size input)).
  assert (0 < n <= vec_size input) as Hn by (unfold vec_size in *; lia).
  set (head := take (Z.to_nat n) input). set (rest := drop (Z.to_nat n) input).
  assert (vec_size head = n) as Hhead by (unfold head, vec_size in *; rewrite length_take; lia).
  assert (vec_size rest = vec_size input - n) as Hrest by (unfold rest, vec_size in *; rewrite length_drop; lia).
  assert (slice 0 n input = head) as -> by done. rewrite aes_increment_counter_spec by done.
  rewrite IH by (unfold vec_size in *; lia). rewrite Hrest. do 2 f_equal.
  - rewrite <-Hhead. rewrite block_xor by (rewrite ?Hhead; unfold n; lia).
    rewrite <-(take_drop (Z.to_nat n) input). fold head rest. rewrite ctr_xor_app, Hhead. f_equal.
    destruct (Z.eq_dec n (16 - off)) as [->|Hne].
    + rewrite ctr_xor_blocks. f_equal. lia.
    + assert (rest = []) as ->; [|done]. apply drop_ge. unfold n, vec_size in *. lia.
  - f_equal. unfold ctr_blocks. pose proof (Z.div_mod (off + vec_size input + 15) 16 ltac:(lia)).
    pose proof (Z.mod_pos_bound (off + vec_size input + 15) 16 ltac:(lia)).
    destruct (Z.eqb_spec (vec_size input - n) 0); [unfold n in *; nia|].
    replace (0 + (vec_size input - n) + 15) with (off + vec_size input + 15 + (-1) * 16) by (unfold n in *; lia).
    rewrite Z.div_add by lia. lia.
Qed.

Lemma ctr_loop_spec fuel c off input : 0 <= c -> 0 <= off < 16 -> (length input <= fuel)%nat ->
  fst <$> ctr_loop fuel key key_len (be_bytes 16 c) input off = Some (ctr_xor rk rounds c off input).
Proof. intros. by rewrite ctr_loop_full. Qed.

(** The whole function, for a counter that is a number. *)
Lemma aes_ctr_spec c off input : 0 <= c -> 0 <= off < 16 -> key_len ∈ [16; 24; 32] ->
  aes_ctr_xcrypt_buffer (Some key) key_len (Some (be_bytes 16 c)) (Some input) off false = Some (ctr_xor rk rounds c off input).
Proof.
  intros Hc Hoff Hk. unfold aes_ctr_xcrypt_buffer. rewrite !elem_of_cons in Hk.
  replace (_ && _) with false by (destruct Hk as [->|[->|[->|Hk]]]; [done..|by inversion Hk]).
  replace (16 <=? off) with false by lia.
  assert (take 16 (be_bytes 16 c) = be_bytes 16 c) as -> by (apply take_ge; destruct (counter_ok c); lia).
  by apply ctr_loop_spec.
Qed.
End stream.
