(* ===== verification/AesCmac.v ===== *)
(** The authentication code of the cipher engine is CMAC: the message is padded, its
    last block masked with a subkey, and chained through the cipher. *)

From S2P Require Import Prelude Bytes Vectors Sha256 Cc3xxAes AesCorrect AesCtr.

(** * The standard's definition *)

Definition encrypt (key block : list Z) : list Z := default [] (aes_encrypt_block key (vec_size key) block).

(** Doubling in the field of polynomials modulo x^128 + x^7 + x^2 + x + 1. *)
Definition gf_double (v : Z) : Z := if Z.testbit v 127 then Z.lxor (2 * v) (2 ^ 128 + 0x87) else 2 * v.

(** The number a block stands for, most significant byte first. *)
Definition block_num (l : list Z) : Z := le_val (rev l).

Definition whole_blocks (l : list Z) : bool := negb (vec_size l =? 0) && (vec_size l mod 16 =? 0).

Definition cmac_pad (l : list Z) : list Z := l ++ 0x80 :: replicate (Z.to_nat ((15 - vec_size l) mod 16)) 0.

Definition mask_last (k l : list Z) : list Z :=
  let n := (length l - 16)%nat in take n l ++ zip_with Z.lxor (drop n l) k.

Definition CBC_MAC (key l : list Z) : list Z :=
  foldl (fun x i => encrypt key (zip_with Z.lxor (slice (i * 16) 16 l) x)) (replicate 16 0) (range (vec_size l / 16)).

Definition CMAC (key l : list Z) : list Z :=
  let k1 := gf_double (block_num (encrypt key (replicate 16 0))) in
  let k2 := gf_double k1 in
  CBC_MAC key (if whole_blocks l then mask_last (be_bytes 16 k1) l else mask_last (be_bytes 16 k2) (cmac_pad l)).

(** * Subkeys *)

Lemma be_bytes_num l : block_ok l -> be_bytes 16 (block_num l) = l.
Proof.
  intros [Hl Hb]. rewrite <-(rev_involutive (be_bytes 16 _)), rev_be_bytes by lia. unfold block_num.
  rewrite le_bytes_val; [apply rev_involutive| |by rewrite length_rev].
  apply Forall_forall. intros x Hx. rewrite list_elem_of_In, <-in_rev, <-list_elem_of_In in Hx. revert x Hx. by apply Forall_forall.
Qed.

Lemma be_bytes_16 v : be_bytes 16 v = map (fun i => u8 (Z.shiftr v (i * 8))) [15; 14; 13; 12; 11; 10; 9; 8; 7; 6; 5; 4; 3; 2; 1; 0].
Proof. reflexivity. Qed.

(** A byte of the doubled number takes the top bit of the byte below. *)
Lemma shift_byte v i carry : 0 <= i -> 0 <= v -> carry = (if (0 <? i) && Z.testbit v (i * 8 - 1) then 1 else 0) ->
  u8 (Z.lor (Z.shiftl (u8 (Z.shiftr v (i * 8))) 1) carry) = u8 (Z.shiftr (2 * v) (i * 8)).
Proof.
  intros Hi Hv ->. apply Z.bits_inj'. intros j Hj. unfold wrap. rewrite !Z.testbit_mod_pow2 by lia.
  destruct (Z.ltb_spec j 8); [|done]. cbn [andb]. rewrite Z.lor_spec, Z.shiftl_spec, (Z.shiftr_spec (2 * v)) by lia.
  replace (2 * v) with (Z.shiftl v 1) by (rewrite Z.shiftl_mul_pow2; lia). rewrite (Z.shiftl_spec v) by lia.
  destruct (Z.eq_dec j 0) as [->|Hne].
  - rewrite (Z.testbit_neg_r _ (0 - 1)) by lia. cbn [orb]. replace (0 + i * 8 - 1) with (i * 8 - 1) by lia.
    destruct (Z.ltb_spec 0 i); cbn [andb]; [by destruct (Z.testbit v _)|]. by rewrite (Z.testbit_neg_r v) by lia.
  - rewrite Z.testbit_mod_pow2, Z.shiftr_spec by lia. replace (j - 1 <? 8) with true by lia.
    assert (Z.testbit (if (0 <? i) && Z.testbit v (i * 8 - 1) then 1 else 0) j = false) as ->; [|rewrite orb_false_r; cbn [andb]; f_equal; lia].
    destruct (_ && _); [|by rewrite Z.bits_0]. by destruct j as [|[]|]; [|..|]; try done; lia.
Qed.

Lemma carry_bit v i : 0 <= i -> test (u8 (Z.shiftr v (i * 8))) 0x80 = Z.testbit v (i * 8 + 7).
Proof.
  intros Hi. change 0x80 with (bit 7). rewrite test_bit by lia. unfold wrap. rewrite Z.testbit_mod_pow2, Z.shiftr_spec by lia.
  change (7 <? 8) with true. cbn [andb]. f_equal. lia.
Qed.

Lemma left_shift_eq a b c d e f g h i j k l m n o p :
  let byte x carry := u8 (Z.lor (Z.shiftl x 1) carry) in
  let top x := if test x 0x80 then 1 else 0 in
  aes_left_shift_block [a; b; c; d; e; f; g; h; i; j; k; l; m; n; o; p] =
    [byte a (top b); byte b (top c); byte c (top d); byte d (top e); byte e (top f); byte f (top g); byte g (top h); byte h (top i);
     byte i (top j); byte j (top k); byte k (top l); byte l (top m); byte m (top n); byte n (top o); byte o (top p); byte p 0].
Proof. reflexivity. Qed.

Lemma left_shift_block v : 0 <= v -> aes_left_shift_block (be_bytes 16 v) = be_bytes 16 (2 * v).
Proof.
  intros Hv. rewrite !be_bytes_16. cbn [map]. rewrite left_shift_eq. cbv zeta. rewrite !carry_bit by lia.
  repeat (apply (f_equal2 (@cons Z)); [by apply shift_byte|]). done.
Qed.

Lemma zip_lxor_be n v w : zip_with Z.lxor (be_bytes n v) (be_bytes n w) = be_bytes n (Z.lxor v w).
Proof.
  unfold be_bytes. induction (rev (range n)) as [|i l IH]; [done|]. cbn [map zip_with]. f_equal; [|exact IH].
  unfold wrap. apply Z.bits_inj'. intros j Hj. rewrite Z.lxor_spec, !Z.testbit_mod_pow2 by lia.
  rewrite Z.shiftr_lxor, Z.lxor_spec. by destruct (j <? 8).
Qed.

(** Doubling a block, in code and in the field. *)
Lemma cmac_double_spec v : 0 <= v -> cmac_double (be_bytes 16 v) = be_bytes 16 (gf_double v).
Proof.
  intros Hv. unfold cmac_double, gf_double. rewrite left_shift_block by done.
  assert (test (arr_get (be_bytes 16 v) 0) 0x80 = Z.testbit v 127) as -> by apply (carry_bit v 15 ltac:(lia)).
  destruct (Z.testbit v 127); [|done]. rewrite <-zip_lxor_be.
  change (be_bytes 16 (2 ^ 128 + 0x87)) with (replicate 15 0 ++ [0x87]). pattern (be_bytes 16 (2 * v)). apply list16; [|reflexivity].
  intros. cbn. by rewrite !Z.lxor_0_r.
Qed.

Lemma gf_double_nonneg v : 0 <= v -> 0 <= gf_double v.
Proof. intros Hv. unfold gf_double. case_if; [|lia]. apply Z.lxor_nonneg. lia. Qed.

Lemma block_num_nonneg l : bytes_ok l -> 0 <= block_num l.
Proof.
  intros Hl. apply (le_val_range (rev l)). apply Forall_forall. intros x Hx.
  rewrite list_elem_of_In, <-in_rev, <-list_elem_of_In in Hx. revert x Hx. by apply Forall_forall.
Qed.

(** * Blocks *)

Lemma xor_last k l : (16 <= length l)%nat -> slice (vec_size l - 16) 16 (mask_last k l) = zip_with Z.lxor (slice (vec_size l - 16) 16 l) k.
Proof.
  intros Hl. unfold mask_last, slice, vec_size. replace (Z.to_nat (Z.of_nat (length l) - 16)) with (length l - 16)%nat by lia.
  rewrite drop_app_length' by (rewrite length_take; lia).
  rewrite (take_ge (drop (length l - 16) l)) by (rewrite length_drop; lia). apply take_ge. rewrite length_zip_with, length_drop. lia.
Qed.

Lemma mask_before k l i : 0 <= i -> i + 16 <= vec_size l - 16 -> slice i 16 (mask_last k l) = slice i 16 l.
Proof.
  unfold vec_size. intros Hi Hl. apply list_eq. intros j. destruct (decide (j < 16)%nat) as [Hj|Hj].
  - rewrite !slice_lookup by lia. unfold mask_last. rewrite lookup_app_l, lookup_take_lt by (rewrite ?length_take; lia). done.
  - rewrite !lookup_ge_None_2; [done|unfold slice; rewrite length_take; lia..].
Qed.

Lemma cmac_pad_size l : vec_size (cmac_pad l) = (vec_size l / 16 + 1) * 16.
Proof.
  unfold cmac_pad, vec_size. rewrite length_app. cbn [length]. rewrite length_replicate.
  pose proof (Z.div_mod (Z.of_nat (length l)) 16 ltac:(lia)). pose proof (Z.mod_pos_bound (Z.of_nat (length l)) 16 ltac:(lia)).
  set (n := Z.of_nat (length l)) in *. assert ((15 - n) mod 16 = 15 - n mod 16) as E; [|lia].
  symmetry. apply (Z.mod_unique _ _ (- (n / 16))); lia.
Qed.

Lemma mask_last_size k l : vec_size k = 16 -> 16 <= vec_size l -> vec_size (mask_last k l) = vec_size l.
Proof. unfold vec_size, mask_last. intros. rewrite length_app, length_take, length_zip_with, length_drop. lia. Qed.

(** * The message as it is chained *)

Section message.
Context (k1 k2 l : list Z) (Hk1 : vec_size k1 = 16) (Hk2 : vec_size k2 = 16).

Definition masked : list Z := if whole_blocks l then mask_last k1 l else mask_last k2 (cmac_pad l).
Definition masked_count : Z := if vec_size l =? 0 then 1 else (vec_size l + 15) / 16.

Lemma masked_size : vec_size masked = masked_count * 16 /\ 0 < masked_count /\
  masked_count - 1 = (if whole_blocks l then vec_size l / 16 - 1 else vec_size l / 16).
Proof using Hk1 Hk2.
  unfold masked, masked_count. pose proof (Z.div_mod (vec_size l) 16 ltac:(lia)). pose proof (Z.mod_pos_bound (vec_size l) 16 ltac:(lia)).
  assert (0 <= vec_size l) by (unfold vec_size; lia). pose proof (cmac_pad_size l). pose proof (Z.div_pos (vec_size l) 16 ltac:(lia) ltac:(lia)).
  assert (whole_blocks l = true -> (vec_size l + 15) / 16 = vec_size l / 16) as E1.
  { unfold whole_blocks. intros Hw. symmetry. apply (Z.div_unique _ _ _ 15); lia. }
  assert (whole_blocks l = false -> vec_size l <> 0 -> (vec_size l + 15) / 16 = vec_size l / 16 + 1) as E2.
  { unfold whole_blocks. intros Hw Hn. symmetry. apply (Z.div_unique _ _ _ (vec_size l mod 16 - 1)); lia. }
  destruct (whole_blocks l) eqn:Ew; unfold whole_blocks in Ew.
  - rewrite mask_last_size by lia. replace (vec_size l =? 0) with false by lia. rewrite E1 by done. lia.
  - rewrite mask_last_size by lia. destruct (Z.eqb_spec (vec_size l) 0) as [E0|]; [rewrite E0 in *; cbn in *; lia|]. rewrite E2 by done. lia.
Qed.

Lemma last_padded i : 0 <= i -> 0 <= vec_size l - i * 16 < 16 ->
  arr_set (vec_size l - i * 16) 0x80 (slice (i * 16) (vec_size l - i * 16) l ++ replicate (Z.to_nat (16 - (vec_size l - i * 16))) 0) =
  slice (i * 16) 16 (cmac_pad l).
Proof using Hk1 Hk2.
  intros Hi Hr. set (r := vec_size l - i * 16) in *. pose proof (slice_length (i * 16) r l ltac:(lia) ltac:(lia) ltac:(unfold r; lia)) as Hsl.
  assert ((15 - vec_size l) mod 16 = 15 - r) as Ep by (symmetry; apply (Z.mod_unique _ _ (- i)); unfold r; lia).
  assert (i * 16 + r = vec_size l) as Hir by (unfold r; lia). clearbody r. unfold cmac_pad. rewrite Ep. replace (Z.to_nat (16 - r)) with (S (Z.to_nat (15 - r))) by lia. cbn [replicate].
  unfold arr_set. rewrite insert_app_r_alt by lia. replace (Z.to_nat r - length (slice (i * 16) r l))%nat with 0%nat by lia. cbn [insert list_insert].
  unfold slice at 2. rewrite drop_app_le by (unfold vec_size in *; lia). symmetry.
  assert (slice (i * 16) r l = drop (Z.to_nat (i * 16)) l) as ->.
  { unfold slice. apply take_ge. rewrite length_drop. unfold vec_size in *. lia. }
  apply take_ge. rewrite length_app, length_drop. cbn [length]. rewrite length_replicate. unfold vec_size in *. lia.
Qed.

Lemma cmac_block_spec i : 0 <= i < masked_count -> cmac_block k1 k2 l masked_count (whole_blocks l) i = slice (i * 16) 16 masked.
Proof using Hk1 Hk2.
  intros Hi. destruct masked_size as (Hs & _ & Hc). unfold masked in *. unfold cmac_block.
  pose proof (Z.div_mod (vec_size l) 16 ltac:(lia)) as Hd. pose proof (Z.mod_pos_bound (vec_size l) 16 ltac:(lia)) as Hm.
  set (r := Z.min 16 (if i * 16 <? vec_size l then vec_size l - i * 16 else 0)).
  assert (forall n, 0 <= n <= 16 -> i * 16 + n <= vec_size l ->
    splice 0 (slice (i * 16) n l) (replicate 16 0) = slice (i * 16) n l ++ replicate (Z.to_nat (16 - n)) 0) as Hblock.
  { intros n Hn Hle. unfold splice. change (take (Z.to_nat 0) (replicate 16 0)) with (@nil Z). change (Z.to_nat 0) with 0%nat. cbn [app].
    pose proof (slice_length (i * 16) n l ltac:(lia) ltac:(lia) ltac:(lia)).
    rewrite drop_replicate. f_equal. f_equal. lia. }
  destruct (Z.eqb_spec i (masked_count - 1)) as [E|E].
  - revert Hs Hc. destruct (whole_blocks l) eqn:Ew; unfold whole_blocks in Ew; intros Hs Hc.
    + assert (r = 16) as -> by (unfold r; destruct (Z.ltb_spec (i * 16) (vec_size l)); lia).
      rewrite Hblock by lia. rewrite app_nil_r. rewrite mask_last_size in Hs by lia. replace (i * 16) with (vec_size l - 16) by lia.
      symmetry. apply xor_last. unfold vec_size in *. lia.
    + assert (r = vec_size l - i * 16) as Er by (unfold r; destruct (Z.ltb_spec (i * 16) (vec_size l)); lia).
      rewrite Hblock by (rewrite Er; lia). pose proof (cmac_pad_size l) as Hp. rewrite mask_last_size in Hs by lia.
      replace (i * 16) with (vec_size (cmac_pad l) - 16) by lia. rewrite xor_last by (unfold vec_size in *; lia).
      unfold aes_xor_block. f_equal. replace (vec_size (cmac_pad l) - 16) with (i * 16) by lia. rewrite Er. apply last_padded; lia.
  - assert (r = 16) as -> by (unfold r; destruct (whole_blocks l); destruct (Z.ltb_spec (i * 16) (vec_size l)); lia).
    assert (i * 16 + 16 <= vec_size l) as Hle by (destruct (whole_blocks l); lia).
    rewrite Hblock by lia. rewrite app_nil_r. pose proof (cmac_pad_size l) as Hp. destruct (whole_blocks l).
    + rewrite mask_last_size in Hs by lia. by rewrite mask_before by lia.
    + rewrite mask_last_size in Hs by lia. rewrite mask_before by lia. unfold cmac_pad. symmetry. apply slice_app_l; lia.
Qed.
End message.

(** * The code and the standard *)

Section cmac.
Context (key : list Z) (Hkey : key_ok key).

Lemma encrypt_spec block : aes_encrypt_block key (vec_size key) block = Some (encrypt key block).
Proof using Hkey. unfold encrypt, aes_encrypt_block. destruct (key_expands key Hkey) as (rk & rounds & ->). done. Qed.

Lemma encrypt_ok block : block_ok block -> block_ok (encrypt key block).
Proof using Hkey.
  intros Hb. unfold encrypt, aes_encrypt_block. destruct (key_expands key Hkey) as (rk & rounds & E). rewrite E. cbn [default from_option].
  apply (encrypt_rounds_ok key (vec_size key) rk rounds E); [split; [apply Hkey|done]|done].
Qed.

(** The code of a message, and of a key that is held in a larger buffer. *)
Lemma aes_cmac_spec rest l : aes_cmac (key ++ rest) (vec_size key) l = Some (CMAC key l).
Proof using Hkey.
  assert (forall block, aes_encrypt_block (key ++ rest) (vec_size key) block = Some (encrypt key block)) as E.
  { intros block. rewrite <-encrypt_spec. unfold aes_encrypt_block. by rewrite expand_prefix. }
  unfold aes_cmac. rewrite E. cbv zeta. set (zero := replicate 16 0).
  assert (block_ok (encrypt key zero)) as Hz by (apply encrypt_ok; split; [done|by apply Forall_replicate, is_uint_0]).
  pose proof (block_num_nonneg _ (proj2 Hz)) as Hn. rewrite <-(be_bytes_num _ Hz).
  rewrite !cmac_double_spec by (done || by apply gf_double_nonneg). unfold CMAC. fold zero.
  set (k1 := gf_double (block_num (encrypt key zero))). set (k2 := gf_double k1).
  pose proof (be_bytes_length 16 k1 ltac:(lia)) as Hk1. pose proof (be_bytes_length 16 k2 ltac:(lia)) as Hk2.
  destruct (masked_size _ _ l Hk1 Hk2) as (Hs & Hc & _). fold (masked (be_bytes 16 k1) (be_bytes 16 k2) l) in Hs |- *.
  unfold CBC_MAC. fold zero. rewrite Hs, Z.div_mul by lia. fold (masked_count l). fold (whole_blocks l).
  match goal with |- _ = Some (foldl ?g _ _) => apply (foldl_range_ind _ (fun n x => x = Some (foldl g zero (range n)))); [lia|done|] end.
  intros i x Hi ->. by rewrite E, (cmac_block_spec _ _ l Hk1 Hk2), foldl_range_snoc by lia.
Qed.
End cmac.

(** A code is a block. *)
Lemma mask_last_ok k l : bytes_ok k -> bytes_ok l -> bytes_ok (mask_last k l).
Proof.
  intros Hk Hl. apply Forall_app_2; [by apply Forall_take|]. assert (bytes_ok (drop (length l - 16) l)) as Hd by by apply Forall_drop.
  revert k Hk Hd. generalize (drop (length l - 16) l) as d. induction d as [|b d IH]; intros [|x k] Hk Hd; try constructor; inversion_clear Hk; inversion_clear Hd.
  - by apply lxor_uint.
  - by apply IH.
Qed.

Lemma CMAC_ok key l : key_ok key -> bytes_ok l -> block_ok (CMAC key l).
Proof.
  intros Hkey Hl. unfold CMAC. set (k1 := gf_double (block_num _)). set (k2 := gf_double k1).
  destruct (masked_size (be_bytes 16 k1) (be_bytes 16 k2) l) as (Hs & Hc & _); [by apply be_bytes_length..|]. unfold masked in Hs.
  assert (bytes_ok (cmac_pad l)) as Hp.
  { apply Forall_app_2; [done|]. apply Forall_cons_2; [by split|]. by apply Forall_replicate, is_uint_0. }
  set (m := if whole_blocks l then _ else _) in *.
  assert (bytes_ok m) as Hm by (unfold m; destruct (whole_blocks l); apply mask_last_ok; done || apply be_bytes_ok).
  clearbody m. unfold CBC_MAC. rewrite Hs, Z.div_mul by lia. apply (foldl_range_ind _ (fun _ x => block_ok x)); [lia| |].
  { split; [done|]. by apply Forall_replicate, is_uint_0. }
  intros i x Hi Hx. apply encrypt_ok; [done|]. apply (add_round_key_ok (slice (i * 16) 16 m) x); [|done]. split.
  - pose proof (slice_length (i * 16) 16 m). lia.
  - by apply Forall_take, Forall_drop.
Qed.

(** Examples of the standard. *)
Definition cmac_example_key : list Z :=
  [0x2b; 0x7e; 0x15; 0x16; 0x28; 0xae; 0xd2; 0xa6; 0xab; 0xf7; 0x15; 0x88; 0x09; 0xcf; 0x4f; 0x3c].

Example cmac_empty : CMAC cmac_example_key [] = be_bytes 16 0xbb1d6929e95937287fa37d129b756746.
Proof. by vm_compute. Qed.

Example cmac_sixteen : CMAC cmac_example_key (be_bytes 16 0x6bc1bee22e409f96e93d7e117393172a) = be_bytes 16 0x070a16b46b4d4144f79bdd9dd04a287c.
Proof. by vm_compute. Qed.
