(* ===== verification/Cc3xxCore.v ===== *)
(** The register interface of the cryptographic accelerator
    (systemc-components/cc3xx/include/cc3xx_core.h): its hash engine, the transfers
    that feed the hash and cipher engines from memory, reset, register writes and
    accesses.  The public-key engine is Cc3xxPka, the cipher Cc3xxAes, the hash
    function Sha256. *)

From stdpp Require Import strings.
From S2P Require Import Prelude Bytes Vectors Tlm Sha256 Cc3xxState Cc3xxPka Cc3xxAes.

(** * Hash engine *)

(** [cc3xx_core.h: hash_current_len] *)
Definition hash_current_len (c : core) : Z :=
  Z.lor (core_load32 HASH_CUR_LEN0 c) (shl 64 (core_load32 HASH_CUR_LEN1 c) 32).

(** [cc3xx_core.h: store_hash_current_len] *)
Definition store_hash_current_len (value : Z) (c : core) : core :=
  core_store32 HASH_CUR_LEN1 (u32 (Z.shiftr value 32)) (core_store32 HASH_CUR_LEN0 (u32 value) c).

(** [cc3xx_core.h: store_sha256_h] *)
Definition store_sha256_h (c : core) : core :=
  foldl (fun c i => core_store32 (HASH_H + i * 4) (arr_get (sha_h (m_sha256 c)) i) c) c (range 8).

(** [cc3xx_core.h: sha256_reset] *)
Definition sha256_reset (c : core) : core :=
  let c := count1 sha256_resets c in
  let c := c <| m_sha256 := MkSha256State H0 (replicate 64 0) 0 0 true false |> in
  store_sha256_h (store_hash_current_len 0 c).

(** The compression function is that of Sha256, constants included. *)
(** [cc3xx_core.h: sha256_transform] *)
Definition sha256_transform (block : list Z) (c : core) : core :=
  let c := count1 sha256_transforms c in
  let c := c <| m_sha256 ::= fun s => s <| sha_h := compress (sha_h s) block |> |> in
  store_sha256_h c.

(** [cc3xx_core.h: "if (m_sha256.block_len == m_sha256.block.size()) {" .. "m_sha256.block_len = 0;"] *)
Definition hash_full_block (c : core) : core :=
  let s := m_sha256 c in
  if sha_block_len s =? vec_size (sha_block s)
  then (sha256_transform (sha_block s) c) <| m_sha256 ::= fun s => s <| sha_block_len := 0 |> |>
  else c.

(** One turn of the loop: fill the block, and hash it when it is full. *)
(** [cc3xx_core.h: "const size_t copy_len = std::min<size_t>(len, m_sha256.block.size() - m_sha256.block_len);" .. "m_sha256.block_len = 0;"] *)
Definition hash_turn (data : list Z) (c : core) : core * list Z :=
  let s := m_sha256 c in
  let copy_len := Z.min (vec_size data) (vec_size (sha_block s) - sha_block_len s) in
  let s := s <| sha_block ::= splice (sha_block_len s) (take (Z.to_nat copy_len) data) |> in
  let s := s <| sha_block_len := sha_block_len s + copy_len |> in
  (hash_full_block (c <| m_sha256 := s |>), drop (Z.to_nat copy_len) data).

(** [cc3xx_core.h: 1353-1364] *)
Fixpoint hash_loop (fuel : nat) (data : list Z) (c : core) : core :=
  match fuel with
  | O => c
  | S fuel => if vec_size data =? 0 then c else let '(c, data) := hash_turn data c in hash_loop fuel data c
  end.

(** [cc3xx_core.h: sha256_update_impl] *)
Definition sha256_update_impl (data : list Z) (count_stats : bool) (c : core) : core :=
  if negb (sha_active (m_sha256 c)) || sha_finalized (m_sha256 c) then c
  else
    let len := vec_size data in
    let c := if count_stats then count sha256_update_bytes len (count1 sha256_update_calls c) else c in
    let c := c <| m_sha256 ::= fun s => s <| sha_bytes ::= fun n => u64 (n + len) |> |> in
    let c := store_hash_current_len (sha_bytes (m_sha256 c)) c in
    hash_loop (length data) data c.

(** [cc3xx_core.h: "void sha256_update(const uint8_t* data, size_t len)" .. "}"] *)
Definition sha256_update (data : list Z) (c : core) : core := sha256_update_impl data true c.

(** [cc3xx_core.h: sha256_finish] *)
Definition sha256_finish (c : core) : core :=
  if negb (sha_active (m_sha256 c)) || sha_finalized (m_sha256 c) then c
  else
    let c := count1 sha256_finishes c in
    let message_bytes := sha_bytes (m_sha256 c) in
    let bit_len := u64 (message_bytes * 8) in
    let block_len := sha_block_len (m_sha256 c) in
    let pad_len := if block_len <? 56 then 56 - block_len else 120 - block_len in
    let padding := 0x80 :: replicate 63 0 in
    let c := sha256_update_impl (take (Z.to_nat pad_len) padding) false c in
    let c := sha256_update_impl (be_bytes 8 bit_len) false c in
    let c := store_sha256_h c in
    let c := store_hash_current_len message_bytes c in
    c <| m_sha256 ::= fun s => s <| sha_finalized := true |> |>.

(** * Memory *)

(** The memory the core reads and writes: a read fills the buffer it is given,
    and both say whether they succeeded. *)
(** [cc3xx_core.h: "struct memory_if {" .. "};"] *)
Record memory_if (M : Type) := MemoryIf {
  if_read : M -> Z -> list Z -> M * list Z * bool;
  if_write : M -> Z -> list Z -> M * bool
}.
Arguments if_read {M}.
Arguments if_write {M}.

Section core.
Context {M : Type} (m_memory : option (memory_if M)).

(** [cc3xx_core.h: "bool mem_read(uint64_t address, uint8_t* data, unsigned int len)" .. "return true;"] *)
Definition core_mem_read (address : Z) (data : list Z) (c : core) (m : M) : core * M * list Z * bool :=
  let c := count mem_read_bytes (vec_size data) (count1 mem_read_ops c) in
  match m_memory with
  | None => (count1 mem_read_failures c, m, data, false)
  | Some mif =>
      let '(m, data, ok) := if_read mif m address data in
      if negb ok then (count1 mem_read_failures c, m, data, false) else (c, m, data, true)
  end.

(** [cc3xx_core.h: "bool mem_write(uint64_t address, const uint8_t* data, unsigned int len)" .. "return true;"] *)
Definition core_mem_write (address : Z) (data : list Z) (c : core) (m : M) : core * M * bool :=
  let c := count mem_write_bytes (vec_size data) (count1 mem_write_ops c) in
  match m_memory with
  | None => (count1 mem_write_failures c, m, false)
  | Some mif =>
      let '(m, ok) := if_write mif m address data in
      if negb ok then (count1 mem_write_failures c, m, false) else (c, m, true)
  end.

(** Turns of a loop over [len] bytes in chunks. *)
Definition chunk_fuel (len : Z) : nat := Z.to_nat (len / DMA_CHUNK_BYTES + 1).

(** * Cipher engine *)

(** [cc3xx_core.h: aes_key_size_bytes] *)
Definition aes_key_size_bytes (c : core) : Z :=
  let size := Z.land (Z.shiftr (core_load32 AES_CONTROL c) 12) 0x3 in
  if size =? CC3XX_AES_KEYSIZE_128 then 16
  else if size =? CC3XX_AES_KEYSIZE_192 then 24
  else if size =? CC3XX_AES_KEYSIZE_256 then 32
  else 16.

(** [cc3xx_core.h: aes_mode] *)
Definition aes_mode (c : core) : Z := Z.land (Z.shiftr (core_load32 AES_CONTROL c) 2) 0xf.

(** [cc3xx_core.h: "bool aes_decrypt() const" .. "}"] *)
Definition aes_decrypt (c : core) : bool := negb (Z.land (core_load32 AES_CONTROL c) 0x1 =? 0).

(** The key registers, in a buffer of 32 bytes. *)
Definition aes_key (key_len : Z) (c : core) : list Z := splice 0 (mem_read (m_regs c) AES_KEY_0 key_len) (replicate 32 0).

(** The key stream of a chunk is that of the buffer cipher from offset 0. *)
(** [cc3xx_core.h: 1470-1500] *)
Fixpoint ctr_chunks (fuel : nat) (key : list Z) (key_len : Z) (counter input : list Z) (source dest len : Z)
    (c : core) (m : M) : core * M * option (list Z) :=
  match fuel with
  | O => (c, m, Some counter)
  | S fuel =>
      if len =? 0 then (c, m, Some counter)
      else
        let chunk_len := Z.min len (vec_size input) in
        let c := count1 aes_ctr_chunks c in
        let '(c, m, data, ok) := core_mem_read source (take (Z.to_nat chunk_len) input) c m in
        let input := splice 0 data input in
        if negb ok then (count1 aes_read_failures c, m, None)
        else
          match ctr_loop (length data) key key_len counter data 0 with
          | None => (c, m, None)
          | Some (output, counter) =>
              let '(c, m, ok) := core_mem_write dest output c m in
              if negb ok then (count1 aes_write_failures c, m, None)
              else ctr_chunks fuel key key_len counter input (u64 (source + chunk_len)) (u64 (dest + chunk_len))
                     (len - chunk_len) c m
          end
  end.

(** [cc3xx_core.h: aes_ctr_xcrypt] *)
Definition aes_ctr_xcrypt (source dest len : Z) (c : core) (m : M) : core * M * bool :=
  let c := count aes_ctr_bytes len (count1 aes_ctr_ops c) in
  let key_len := aes_key_size_bytes c in
  let counter := mem_read (m_regs c) AES_CTR_0 16 in
  let '(c, m, result) := ctr_chunks (chunk_fuel len) (aes_key key_len c) key_len counter
    (replicate (Z.to_nat DMA_CHUNK_BYTES) 0) source dest len c m in
  match result with
  | None => (c, m, false)
  | Some counter =>
      let c := c <| m_regs ::= mem_write AES_CTR_0 counter |> in
      (core_store32 AES_BUSY 0 (core_store32 AES_REMAINING_BYTES 0 c), m, true)
  end.

(** The blocks of a chunk, in order. *)
(** [cc3xx_core.h: "for (unsigned int offset = 0; offset < chunk_len; offset += 16) {" .. "return false;"] *)
Definition ecb_blocks (decrypt : bool) (key : list Z) (key_len : Z) (input : list Z) : option (list Z) :=
  foldl (fun output k =>
    match output with
    | None => None
    | Some output =>
        let block := slice (k * 16) 16 input in
        match (if decrypt then aes_decrypt_block key key_len block else aes_encrypt_block key key_len block) with
        | None => None
        | Some out => Some (output ++ out)
        end
    end) (Some []) (range (vec_size input / 16)).

(** [cc3xx_core.h: 1524-1550] *)
Fixpoint ecb_chunks (fuel : nat) (decrypt : bool) (key : list Z) (key_len : Z) (input : list Z)
    (source dest len : Z) (c : core) (m : M) : core * M * bool :=
  match fuel with
  | O => (c, m, true)
  | S fuel =>
      if len =? 0 then (c, m, true)
      else
        let chunk_len := Z.min len (vec_size input) in
        let c := count1 aes_ecb_chunks c in
        let '(c, m, data, ok) := core_mem_read source (take (Z.to_nat chunk_len) input) c m in
        let input := splice 0 data input in
        if negb ok then (count1 aes_read_failures c, m, false)
        else
          match ecb_blocks decrypt key key_len data with
          | None => (c, m, false)
          | Some output =>
              let '(c, m, ok) := core_mem_write dest output c m in
              if negb ok then (count1 aes_write_failures c, m, false)
              else ecb_chunks fuel decrypt key key_len input (u64 (source + chunk_len)) (u64 (dest + chunk_len))
                     (len - chunk_len) c m
          end
  end.

(** [cc3xx_core.h: aes_ecb_xcrypt] *)
Definition aes_ecb_xcrypt (source dest len : Z) (c : core) (m : M) : core * M * bool :=
  if negb (len mod 16 =? 0) then (c, m, false)
  else
    let c := count aes_ecb_bytes len (count1 aes_ecb_ops c) in
    let key_len := aes_key_size_bytes c in
    let '(c, m, ok) := ecb_chunks (chunk_fuel len) (aes_decrypt c) (aes_key key_len c) key_len
      (replicate (Z.to_nat DMA_CHUNK_BYTES) 0) source dest len c m in
    if negb ok then (c, m, false)
    else (core_store32 AES_BUSY 0 (core_store32 AES_REMAINING_BYTES 0 c), m, true).

(** * Authentication codes *)

(** [cc3xx_core.h: cmac_reset] *)
Definition cmac_reset (c : core) : core :=
  (count1 cmac_resets c) <| m_cmac_data := [] |> <| m_cmac_active := true |>.

(** [cc3xx_core.h: 1578-1590] *)
Fixpoint cmac_chunks (fuel : nat) (chunk : list Z) (source remaining : Z) (c : core) (m : M) : core * M :=
  match fuel with
  | O => (c, m)
  | S fuel =>
      if remaining =? 0 then (c, m)
      else
        let len := Z.min remaining (vec_size chunk) in
        let c := count1 cmac_dma_chunks c in
        let '(c, m, data, ok) := core_mem_read source (take (Z.to_nat len) chunk) c m in
        if negb ok then (count1 cmac_read_failures c, m)
        else
          let c := c <| m_cmac_data ::= fun d => d ++ data |> in
          cmac_chunks fuel (splice 0 data chunk) (u64 (source + len)) (remaining - len) c m
  end.

(** [cc3xx_core.h: cmac_dma_input] *)
Definition cmac_dma_input (trigger_offset : Z) (c : core) (m : M) : core * M :=
  if negb (m_cmac_active c) || negb (m_engine c =? CC3XX_ENGINE_AES) ||
     negb (aes_mode c =? CC3XX_AES_MODE_CMAC) || negb (trigger_offset =? DIN_SRC_LLI_WORD1) then (c, m)
  else
    let source := core_load32 DIN_SRC_LLI_WORD0 c in
    let remaining := core_load32 DIN_SRC_LLI_WORD1 c in
    let c := count cmac_dma_bytes remaining (count1 cmac_dma_triggers c) in
    cmac_chunks (chunk_fuel remaining) (replicate (Z.to_nat DMA_CHUNK_BYTES) 0) source remaining c m.

(** [cc3xx_core.h: cmac_finish] *)
Definition cmac_finish (c : core) : core :=
  if negb (m_cmac_active c) || negb (aes_mode c =? CC3XX_AES_MODE_CMAC) then c
  else
    let c := count1 cmac_finishes c in
    let key_len := aes_key_size_bytes c in
    let c := match aes_cmac (aes_key key_len c) key_len (m_cmac_data c) with
             | Some tag => c <| m_regs ::= mem_write AES_IV_0 tag |>
             | None => c
             end in
    (core_store32 AES_BUSY 0 c) <| m_cmac_active := false |>.

(** * Reset *)

Definition entropy : list Z := [0x243f6a88; 0x85a308d3; 0x13198a2e; 0x03707344; 0xa4093822; 0x299f31d0].

Definition HOST_BOOT_VALUE : Z :=
  foldr Z.lor 0 [bit 30; bit 28; bit 25; bit 22; bit 21; bit 17; bit 15; bit 11].

(** The words [reset_registers] stores, in order. *)
(** [cc3xx_core.h: "store32(PKA_STATUS, 0x00000001);" .. "store32(LCS_REG, 0x00000005); /* CC3XX_LCS_SE_CODE */"] *)
Definition reset_words : list (Z * Z) :=
  [ (PKA_STATUS, 0x00000001); (PKA_PIPE_RDY, 0x00000001); (PKA_DONE, 0x00000001);
    (RNG_ISR, 0x00000001); (0x110, 0x00000001); (SAMPLE_CNT1, 0x0000ffff); (0x1b8, 0x00000000); (0x1c0, 0x03120000) ] ++
  map (fun i => (EHR_DATA + i * 4, arr_get entropy i)) (range 6) ++
  [ (0x3b0, 0x00000000); (0x3b4, 0x00000001); (AES_BUSY, 0x00000000);
    (AES_HW_FLAGS, Z.lor (Z.lor (bit 0) (bit 3)) (bit 12)); (AES_RBG_SEEDING_RDY, 0x00000001);
    (CLK_STATUS, 0xffffffff); (CRYPTO_BUSY, 0x00000000); (HASH_BUSY, 0x00000000); (HOST_BOOT, HOST_BOOT_VALUE);
    (HOST_CC_IS_IDLE, 0x00000001); (0xa84, 0x00000000); (0xa88, 0x00000000); (HOST_SF_READY, 0x00000001);
    (HOST_RGF_IRR, 0x00000000); (HOST_RGF_IMR, 0x00000000); (DIN_MEM_DMA_BUSY, 0x00000000);
    (DIN_SRAM_DMA_BUSY, 0x00000000); (FIFO_IN_EMPTY, 0x00000001); (DOUT_MEM_DMA_BUSY, 0x00000000);
    (DOUT_SRAM_DMA_BUSY, 0x00000000); (DOUT_FIFO_EMPTY, 0x00000001);
    (PIDR0, 0x000000c1); (PIDR1, 0x000000b0); (PIDR2, 0x0000000b); (PIDR3, 0x00000000);
    (CIDR0, 0x0000000d); (CIDR1, 0x000000f0); (0x1e30, 0x00000000); (0x1e3c, 0x00000000);
    (AIB_FUSE_PROG_COMPLETED, 0x00000001); (LCS_IS_VALID, 0x00000001); (NVM_IS_IDLE, 0x00000001);
    (LCS_REG, 0x00000005) ].

Definition store_words_of (l : list (Z * Z)) (m : mem) : mem := foldl (fun m '(off, v) => store32 off v m) m l.

(** [cc3xx_core.h: reset_registers] *)
Definition reset_registers (c : core) : core :=
  let c := c <| m_regs := ∅ |> <| m_pka_sram := replicate (Z.to_nat PKA_SRAM_WORDS) 0 |>
             <| m_pka_write_addr := 0 |> <| m_pka_read_addr := 0 |> in
  let c := pka_invalidate_modulus_cache c in
  let c := c <| m_sha256 := sha256_state_init |> <| m_engine := CC3XX_ENGINE_NONE |>
             <| m_cmac_data := [] |> <| m_cmac_active := false |> in
  c <| m_regs ::= store_words_of reset_words |>.

(** [cc3xx_core.h: "void reset(bool count_stats)" .. "reset_registers();"] *)
Definition core_reset (count_stats : bool) (c : core) : core :=
  reset_registers (if count_stats then count1 reset_count c else c).

(** [cc3xx_core.h: 2289-2293] *)
Definition new_core : core :=
  reset_registers (MkCore ∅ (replicate (Z.to_nat PKA_SRAM_WORDS) 0) 0 0 false 0 0 0 0 default_trace_config 0 false
    sha256_state_init CC3XX_ENGINE_NONE [] false (fun _ => 0) 0).

(** * Register writes *)

(** [cc3xx_core.h: update_rng_after_write] *)
Definition update_rng_after_write (offset value : Z) (c : core) : core :=
  if offset =? RNG_SW_RESET then core_store32 RNG_ISR 0 (core_store32 RNG_SW_RESET value c)
  else if offset =? RNG_ICR then core_store32 RNG_ISR (Z.land (core_load32 RNG_ISR c) (not32 value)) c
  else if offset =? RND_SOURCE_ENABLE then
    let c := core_store32 RND_SOURCE_ENABLE value c in
    if test value 0x1 then core_store32 RNG_ISR (Z.lor (core_load32 RNG_ISR c) 0x1) c else c
  else if offset =? RST_BITS_COUNTER then core_store32 RST_BITS_COUNTER value c
  else if offset =? RNG_CLK_ENABLE then core_store32 RNG_CLK_ENABLE value c
  else c.

(** [cc3xx_core.h: update_hash_after_write] *)
Definition update_hash_after_write (offset value : Z) (c : core) : core :=
  let running := sha_active (m_sha256 c) && negb (sha_finalized (m_sha256 c)) in
  if (HASH_H <=? offset) && (offset <? HASH_H + 8 * 4) then
    let c := core_store32 offset value c in
    if running then c <| m_sha256 ::= fun s => s <| sha_h ::= arr_set ((offset - HASH_H) / 4) value |> |> else c
  else if (offset =? HASH_CUR_LEN0) || (offset =? HASH_CUR_LEN1) then
    let c := core_store32 offset value c in
    if running then
      let bytes := hash_current_len c in
      c <| m_sha256 ::= fun s => s <| sha_bytes := bytes |> <| sha_block_len := 0 |> |>
    else c
  else if offset =? HASH_CONTROL then
    let c := core_store32 HASH_CONTROL value c in
    if Z.land value 0xf =? CC3XX_HASH_ALG_SHA256 then sha256_reset c
    else c <| m_sha256 ::= fun s => s <| sha_active := false |> <| sha_finalized := false |> |>
  else if offset =? HASH_PAD_CFG then
    let c := core_store32 HASH_PAD_CFG value c in
    if test value 0x4 && sha_active (m_sha256 c) then sha256_finish c else c
  else if offset =? AUTO_HW_PADDING then core_store32 AUTO_HW_PADDING value c
  else c.

(** * Transfers *)

(** The chunks of a message, until a read fails. *)
(** [cc3xx_core.h: 1787-1799] *)
Fixpoint hash_chunks (fuel : nat) (chunk : list Z) (source remaining : Z) (c : core) (m : M) : core * M * bool :=
  match fuel with
  | O => (c, m, true)
  | S fuel =>
      if remaining =? 0 then (c, m, true)
      else
        let len := Z.min remaining (vec_size chunk) in
        let c := count1 hash_dma_chunks c in
        let '(c, m, data, ok) := core_mem_read source (take (Z.to_nat len) chunk) c m in
        if negb ok then (count1 hash_dma_read_failures c, m, false)
        else hash_chunks fuel (splice 0 data chunk) (u64 (source + len)) (remaining - len) (sha256_update data c) m
  end.

(** [cc3xx_core.h: hash_dma_input] *)
Definition hash_dma_input (trigger_offset : Z) (c : core) (m : M) : core * M :=
  if negb (m_engine c =? CC3XX_ENGINE_HASH) || negb (sha_active (m_sha256 c)) || sha_finalized (m_sha256 c) then (c, m)
  else if negb (trigger_offset =? DIN_SRC_LLI_WORD1) then (c, m)
  else
    let source := core_load32 DIN_SRC_LLI_WORD0 c in
    let remaining := core_load32 DIN_SRC_LLI_WORD1 c in
    let c := count hash_dma_bytes remaining (count1 hash_dma_triggers c) in
    let '(c, m, ok) := hash_chunks (chunk_fuel remaining) (replicate (Z.to_nat DMA_CHUNK_BYTES) 0) source remaining c m in
    if negb ok then (c, m)
    else if negb (Z.land (core_load32 AUTO_HW_PADDING c) 0x1 =? 0)
    then (sha256_finish (count1 hash_auto_finishes c), m) else (c, m).

Definition aes_engine_selected (c : core) : bool :=
  (m_engine c =? CC3XX_ENGINE_AES) || (m_engine c =? CC3XX_ENGINE_AES_AND_HASH) ||
  (m_engine c =? CC3XX_ENGINE_AES_TO_HASH_AND_DOUT).

(** [cc3xx_core.h: aes_dma_output] *)
Definition aes_dma_output (trigger_offset : Z) (c : core) (m : M) : core * M :=
  if negb (trigger_offset =? DIN_SRC_LLI_WORD1) then (c, m)
  else if negb (aes_engine_selected c) then (c, m)
  else
    let source := core_load32 DIN_SRC_LLI_WORD0 c in
    let dest := core_load32 DOUT_DST_LLI_WORD0 c in
    let len := Z.min (core_load32 DIN_SRC_LLI_WORD1 c) (core_load32 DOUT_DST_LLI_WORD1 c) in
    if len =? 0 then (c, m)
    else
      let c := count1 aes_dma_triggers c in
      if aes_mode c =? CC3XX_AES_MODE_ECB then fst (aes_ecb_xcrypt source dest len c m)
      else if aes_mode c =? CC3XX_AES_MODE_CTR then fst (aes_ctr_xcrypt source dest len c m)
      else (c, m).

(** The interrupts a transfer raises. *)
(** [cc3xx_core.h: "uint32_t interrupts = SYM_DMA_COMPLETED;" .. "interrupts |= DOUT_TO_SRAM_INT;"] *)
Definition dma_interrupts (trigger_offset : Z) : Z :=
  let interrupts := SYM_DMA_COMPLETED in
  if trigger_offset =? DIN_SRC_LLI_WORD1 then Z.lor interrupts MEM_TO_DIN_INT
  else if trigger_offset =? DIN_SRAM_BYTES_LEN then Z.lor interrupts SRAM_TO_DIN_INT
  else if trigger_offset =? DOUT_DST_LLI_WORD1 then Z.lor interrupts DOUT_TO_MEM_INT
  else if trigger_offset =? DOUT_SRAM_BYTES_LEN then Z.lor interrupts DOUT_TO_SRAM_INT
  else interrupts.

(** [cc3xx_core.h: complete_dma_transfer] *)
Definition complete_dma_transfer (trigger_offset : Z) (c : core) (m : M) : core * M :=
  let '(c, m) := hash_dma_input trigger_offset c m in
  let '(c, m) := aes_dma_output trigger_offset c m in
  let '(c, m) := cmac_dma_input trigger_offset c m in
  let c := core_store32 HOST_RGF_IRR (Z.lor (core_load32 HOST_RGF_IRR c) (dma_interrupts trigger_offset)) c in
  let c := core_store32 DIN_MEM_DMA_BUSY 0 c in
  let c := core_store32 DIN_SRAM_DMA_BUSY 0 c in
  let c := core_store32 DOUT_MEM_DMA_BUSY 0 c in
  let c := core_store32 DOUT_SRAM_DMA_BUSY 0 c in
  let c := core_store32 FIFO_IN_EMPTY 1 c in
  let c := core_store32 DOUT_FIFO_EMPTY 1 c in
  (core_store32 HOST_CC_IS_IDLE 1 c, m).

(** * Words *)

(** [cc3xx_core.h: "case PKA_SW_RESET:" .. "store32(PKA_DONE, 0x00000001);"] *)
Definition pka_sw_reset (value : Z) (c : core) : core :=
  let c := core_store32 PKA_SW_RESET value c in
  let c := c <| m_pka_sram := replicate (Z.to_nat PKA_SRAM_WORDS) 0 |> <| m_pka_write_addr := 0 |>
             <| m_pka_read_addr := 0 |> in
  let c := pka_invalidate_modulus_cache c in
  core_store32 PKA_DONE 1 (core_store32 PKA_PIPE_RDY 1 (core_store32 PKA_STATUS 1 c)).

(** [cc3xx_core.h: "case PKA_SRAM_WDATA:" .. "pka_sram_write(m_pka_write_addr++, value);"] *)
Definition pka_sram_wdata (value : Z) (c : core) : core :=
  let c := count1 pka_sram_host_write_words (core_store32 PKA_SRAM_WDATA value c) in
  let addr := m_pka_write_addr c in
  pka_sram_write addr value true (c <| m_pka_write_addr := u32 (addr + 1) |>).

(** [cc3xx_core.h: "case CRYPTO_CTL:" .. "store32(HOST_CC_IS_IDLE, 0x00000001);"] *)
Definition write_crypto_ctl (value : Z) (c : core) : core :=
  let c := (core_store32 CRYPTO_CTL value c) <| m_engine := Z.land value 0x1f |> in
  let c := count1 crypto_engine_writes c in
  let c := if m_engine c <? 32 then count1 (crypto_engine_count (m_engine c)) c else c in
  core_store32 HOST_CC_IS_IDLE 1 (core_store32 HASH_BUSY 0 (core_store32 CRYPTO_BUSY 0 c)).

(** [cc3xx_core.h: 1882-1970] *)
Definition core_write32 (offset value : Z) (c : core) (m : M) : core * M :=
  if offset =? PKA_SW_RESET then (pka_sw_reset value c, m)
  else if offset =? PKA_SRAM_ADDR then ((core_store32 PKA_SRAM_ADDR value c) <| m_pka_write_addr := value |>, m)
  else if offset =? PKA_SRAM_WDATA then (pka_sram_wdata value c, m)
  else if offset =? PKA_SRAM_RADDR then ((core_store32 PKA_SRAM_RADDR value c) <| m_pka_read_addr := value |>, m)
  else if offset =? PKA_OPCODE then (execute_pka_opcode value (core_store32 PKA_OPCODE value c), m)
  else if (offset =? RNG_ICR) || (offset =? RNG_SW_RESET) || (offset =? RND_SOURCE_ENABLE) ||
          (offset =? RST_BITS_COUNTER) || (offset =? RNG_CLK_ENABLE) then (update_rng_after_write offset value c, m)
  else if offset =? HOST_RGF_ICR then
    (core_store32 HOST_RGF_IRR (Z.land (core_load32 HOST_RGF_IRR c) (not32 value)) c, m)
  else if (offset =? HASH_CONTROL) || (offset =? HASH_PAD_CFG) || (offset =? AUTO_HW_PADDING) ||
          (offset =? HASH_CUR_LEN0) || (offset =? HASH_CUR_LEN1) then (update_hash_after_write offset value c, m)
  else if offset =? AES_CMAC_INIT then
    let c := core_store32 AES_CMAC_INIT value c in
    (if test value 0x1 then cmac_reset c else c, m)
  else if offset =? AES_REMAINING_BYTES then
    let c := core_store32 AES_REMAINING_BYTES value c in
    (if value =? 0 then cmac_finish c else c, m)
  else if offset =? CRYPTO_CTL then (write_crypto_ctl value c, m)
  else if (offset =? DIN_SRC_LLI_WORD1) || (offset =? DIN_SRAM_BYTES_LEN) || (offset =? DOUT_DST_LLI_WORD1) ||
          (offset =? DOUT_SRAM_BYTES_LEN) then complete_dma_transfer offset (core_store32 offset value c) m
  else if (HASH_H <=? offset) && (offset <? HASH_H + 8 * 4) then (update_hash_after_write offset value c, m)
  else
    let c := if offset =? 0 then pka_invalidate_modulus_cache c else c in
    (core_store32 offset value c, m).

(** * Traces and counters *)

(** [cc3xx_core.h: dma_trace_address_matches] *)
Definition dma_trace_address_matches (c : core) : bool :=
  let min_address := tc_address_min (m_trace_config c) in
  if min_address =? 0 then true
  else (min_address <=? core_load32 DIN_SRC_LLI_WORD0 c) || (min_address <=? core_load32 DOUT_DST_LLI_WORD0 c).

(** [cc3xx_core.h: is_dma_trace_offset] *)
Definition is_dma_trace_offset (offset : Z) (c : core) : bool :=
  let input_dma_engine := aes_engine_selected c || (m_engine c =? CC3XX_ENGINE_HASH) in
  let address_match := dma_trace_address_matches c in
  let among := existsb (Z.eqb offset) in
  if among [AES_CONTROL; AES_REMAINING_BYTES] then address_match
  else if among [CRYPTO_CTL; HOST_RGF_IRR; HOST_RGF_IMR; HOST_RGF_ICR] then input_dma_engine && address_match
  else if among [DIN_MEM_DMA_BUSY; DIN_SRC_LLI_WORD0; DIN_SRC_LLI_WORD1; DIN_SRAM_SRC_ADDR; DIN_SRAM_BYTES_LEN;
                 DIN_SRAM_DMA_BUSY; FIFO_IN_EMPTY] then input_dma_engine && address_match
  else if among [DOUT_MEM_DMA_BUSY; DOUT_DST_LLI_WORD0; DOUT_DST_LLI_WORD1; DOUT_SRAM_BYTES_LEN;
                 DOUT_SRAM_DMA_BUSY; DOUT_FIFO_EMPTY] then address_match
  else address_match && (((AES_KEY_0 <=? offset) && (offset <? AES_KEY_0 + 32)) ||
                         ((AES_CTR_0 <=? offset) && (offset <? AES_CTR_0 + 16))).

(** [cc3xx_core.h: trace_filter_matches] *)
Definition trace_filter_matches (offset : Z) (c : core) : bool :=
  let filter := tc_filter (m_trace_config c) in
  if String.eqb filter "" || String.eqb filter "all" then true
  else if String.eqb filter "pka" then offset <? 0x100
  else if String.eqb filter "pka-opcode" then
    (offset =? PKA_OPCODE) || (offset =? PKA_STATUS) || (offset =? PKA_PIPE_RDY) || (offset =? PKA_DONE)
  else if String.eqb filter "dma" then is_dma_trace_offset offset c
  else if String.eqb filter "crypto" then
    (offset <? 0x100) || ((AES_KEY_0 <=? offset) && (offset <=? AES_HW_FLAGS)) ||
    ((HASH_H <=? offset) && (offset <=? HASH_PAD_CFG)) || (offset =? CRYPTO_CTL) || (offset =? CRYPTO_BUSY) ||
    (offset =? HASH_BUSY) || is_dma_trace_offset offset c
  else false.

(** [cc3xx_core.h: "void trace_access(command cmd" .. "++m_trace_count;"] *)
Definition core_trace_access (offset : Z) (c : core) : core :=
  let cfg := m_trace_config c in
  if negb (tc_enabled cfg) || negb (trace_filter_matches offset c) then c
  else
    let c := c <| m_trace_seen_count ::= fun n => u32 (n + 1) |> in
    if (m_trace_seen_count c <=? tc_skip cfg) || (tc_limit cfg <=? m_trace_count c) then c
    else c <| m_trace_count ::= fun n => u32 (n + 1) |>.

(** [cc3xx_core.h: maybe_write_stats_file] *)
Definition maybe_write_stats_file (c : core) : core :=
  if (m_stats_interval c =? 0) || negb (m_stats_flush_cb c) then c
  else
    let total := u64 (m_stats c read_accesses + m_stats c write_accesses) in
    if negb (total =? 0) && (total mod m_stats_interval c =? 0) then c <| m_stats_flushed ::= Z.add 1 |> else c.

(** [cc3xx_core.h: record_access] *)
Definition record_access (cmd : command) (offset len : Z) (debug : bool) (c : core) : core :=
  if debug then c
  else
    let word_index := offset / 4 in
    let c :=
      match cmd with
      | cmd_read =>
          let c := count read_bytes len (count1 read_accesses c) in
          if word_index <? REG_WORDS then count1 (register_read_count word_index) c else c
      | cmd_write =>
          let c := count write_bytes len (count1 write_accesses c) in
          if word_index <? REG_WORDS then count1 (register_write_count word_index) c else c
      end in
    maybe_write_stats_file c.

(** * Accesses *)

(** The bytes read; a null buffer is [None]. *)
(** [cc3xx_core.h: "access_result read(uint64_t offset" .. "return { access_status::ok, len };"] *)
Definition core_read (offset : Z) (data : option (list Z)) (len : Z) (debug : bool) (c : core)
    : core * option (list Z) * access_result :=
  match data with
  | None => (c, None, (acc_address_error, 0))
  | Some data =>
      if negb (is_supported_length len) || (REG_BYTES <? u64 (offset + len)) then (c, Some data, (acc_address_error, 0))
      else
        let '(c, bytes) :=
          if negb debug && (len =? 4) && (offset =? PKA_SRAM_RDATA) then
            let value := pka_sram_read (m_pka_read_addr c) c in
            let c := core_store32 PKA_SRAM_RDATA value (c <| m_pka_read_addr ::= fun a => u32 (a + 1) |>) in
            (count1 pka_sram_host_read_words c, le_bytes 4 value)
          else (c, mem_read (m_regs c) offset len) in
        let c := if negb debug && (EHR_DATA <=? offset) && (offset <? EHR_DATA + 24)
                 then core_store32 RNG_ISR (Z.lor (core_load32 RNG_ISR c) 0x1) c else c in
        let c := record_access cmd_read offset len debug (core_trace_access offset c) in
        (c, Some (put_data bytes data), (acc_ok, len))
  end.

(** [cc3xx_core.h: "access_result write(uint64_t offset" .. "return { access_status::ok, len };"] *)
Definition core_write (offset : Z) (data : option (list Z)) (len : Z) (debug : bool) (c : core) (m : M)
    : core * M * access_result :=
  match data with
  | None => (c, m, (acc_address_error, 0))
  | Some data =>
      if negb (is_supported_length len) || (REG_BYTES <? u64 (offset + len)) then (c, m, (acc_address_error, 0))
      else
        let '(c, m) :=
          if (len =? 4) && (offset mod 4 =? 0) then core_write32 (u32 offset) (le_val (get_data 4 data)) c m
          else (c <| m_regs ::= mem_write offset (get_data len data) |>, m) in
        (record_access cmd_write offset len debug (core_trace_access offset c), m, (acc_ok, len))
  end.
End core.
