(* ===== verification/Cc3xxDriver.v ===== *)
(** Driving the accelerator's core: what its engines ask of a memory, what a host
    write of a register does, and what both leave alone.  The bus module and the
    emulator's device both drive it so. *)

From S2P Require Import Prelude Bytes Vectors Tlm Memory Sha256 Cc3xxState Cc3xxPka Cc3xxAes Cc3xxCore.

(** * Memories *)

(** The memory shows the same, and is in order. *)
Definition same_view {M} (view : M -> mem) (good : M -> Prop) (m m' : M) : Prop := view m' ≈ view m /\ good m'.

(** A memory that, as long as it is in order, reads and writes the bytes of a view
    where it serves. *)
Record memory_law {M} (mif : memory_if M) (view : M -> mem) (good : M -> Prop) (serves : Z -> Prop) : Prop := MemoryLaw {
  ml_read m a buf : good m -> 0 <= a -> 0 < vec_size buf -> (forall k, 0 <= k < vec_size buf -> serves (a + k)) ->
    let '(m', data, ok) := if_read mif m a buf in
    ok = true /\ data = mem_read (view m) a (vec_size buf) /\ same_view view good m m';
  ml_write m a buf : good m -> 0 <= a -> 0 < vec_size buf -> (forall k, 0 <= k < vec_size buf -> serves (a + k)) ->
    let '(m', ok) := if_write mif m a buf in
    ok = true /\ view m' ≈ mem_write a buf (view m) /\ good m'
}.


(** * What registers and engines keep *)

(** What a host write does beside the register: counters. *)
Record same_state (c c' : core) : Prop := SameState {
  ss_regs : m_regs c' = m_regs c;
  ss_sha : m_sha256 c' = m_sha256 c;
  ss_engine : m_engine c' = m_engine c;
  ss_cmac_data : m_cmac_data c' = m_cmac_data c;
  ss_cmac_active : m_cmac_active c' = m_cmac_active c
}.

#[export] Instance same_state_preorder : PreOrder same_state.
Proof. split; [by intros c|]. intros c c' c'' [] []. split; congruence. Qed.

Lemma trace_same off c : same_state c (core_trace_access off c).
Proof.
  unfold core_trace_access. destruct (_ || _); [done|]. cbv zeta. by destruct (_ || _).
Qed.

Lemma flush_same c : same_state c (maybe_write_stats_file c).
Proof. unfold maybe_write_stats_file. destruct (_ || _); [done|]. cbv zeta. by destruct (_ && _). Qed.

Lemma record_same cmd off len debug c : same_state c (record_access cmd off len debug c).
Proof.
  unfold record_access. destruct debug; [done|]. cbv zeta.
  destruct cmd; destruct (_ <? _); (etransitivity; [|apply flush_same]); by split.
Qed.

Lemma same_load off c c' : same_state c c' -> core_load32 off c' = core_load32 off c.
Proof. intros [H1 _ _ _ _]. unfold core_load32. by rewrite H1. Qed.

Lemma load_store32 off v c : core_load32 off (core_store32 off v c) = u32 v.
Proof. apply load32_store32. Qed.

Lemma load_store32_ne off off' v c : off + 4 <= off' \/ off' + 4 <= off -> core_load32 off (core_store32 off' v c) = core_load32 off c.
Proof. intros H. unfold core_load32, core_store32. cbn [m_regs set_field]. by apply load32_store32_ne. Qed.

(** * Words of the registers *)

(** An aligned word that is written to the core is a register write, and counters. *)
Lemma core_write_one {M} (mif : memory_if M) off v data debug c m :
  is_u32 off -> off mod 4 = 0 -> off + 4 <= REG_BYTES -> is_u32 v -> get_data 4 data = le_bytes 4 v ->
  exists c', core_write (Some mif) off (Some data) 4 debug c m = (c', snd (core_write32 (Some mif) off v c m), (acc_ok, 4)) /\
    same_state (fst (core_write32 (Some mif) off v c m)) c'.
Proof.
  intros [Ho Ho'] Ha Hr Hv Hd. unfold core_write. change (is_supported_length 4) with true. cbn [negb orb Z.eqb Pos.eqb andb].
  rewrite (wrap_small 64), (wrap_small 32 off) by (split; lia). replace (REG_BYTES <? off + 4) with false by lia.
  rewrite Ha, Hd, le_val_le_bytes by done. cbn [Z.eqb]. destruct (core_write32 _ off v c m) as [c' m']. cbn [fst snd].
  eexists. split; [reflexivity|]. etransitivity; [apply trace_same|apply record_same].
Qed.

(** A register that is read gives its bytes. *)
Lemma core_read_register off data debug c : 0 <= off -> off + 4 <= REG_BYTES -> off <> PKA_SRAM_RDATA ->
  snd (fst (core_read off (Some data) 4 debug c)) = Some (put_data (mem_read (m_regs c) off 4) data) /\
  snd (core_read off (Some data) 4 debug c) = (acc_ok, 4).
Proof.
  intros Ho Hr Hne. unfold core_read. change (is_supported_length 4) with true. cbn [negb orb].
  rewrite (wrap_small 64) by (unfold REG_BYTES in Hr; split; lia). replace (REG_BYTES <? off + 4) with false by lia.
  replace (off =? PKA_SRAM_RDATA) with false by lia. by rewrite andb_false_r.
Qed.

(** * Transfers *)

Section memory.
Context {M : Type} {mif : memory_if M} {view : M -> mem} {good : M -> Prop} {serves : Z -> Prop}.

Lemma same_view_refl m : good m -> same_view view good m m.
Proof using. done. Qed.

Lemma same_view_trans m m' m'' : same_view view good m m' -> same_view view good m' m'' -> same_view view good m m''.
Proof using. intros [H1 _] [H2 H3]. split; [by etransitivity|done]. Qed.

Hypothesis Hlaw : memory_law mif view good serves.

Lemma core_read_served a buf c m : good m -> 0 <= a -> 0 < vec_size buf -> (forall k, 0 <= k < vec_size buf -> serves (a + k)) ->
  exists c' m', core_mem_read (Some mif) a buf c m = (c', m', mem_read (view m) a (vec_size buf), true) /\
    same_state c c' /\ same_view view good m m'.
Proof using Hlaw.
  intros Hg Ha H0 Hs. unfold core_mem_read. pose proof (ml_read _ _ _ _ Hlaw m a buf Hg Ha H0 Hs) as Hr.
  destruct (if_read mif m a buf) as [[m' data] ok]. destruct Hr as (-> & -> & Hv). cbn [negb].
  eexists _, m'. split; [reflexivity|]. split; [by split|done].
Qed.

Lemma core_write_served a buf c m : good m -> 0 <= a -> 0 < vec_size buf -> (forall k, 0 <= k < vec_size buf -> serves (a + k)) ->
  exists c' m', core_mem_write (Some mif) a buf c m = (c', m', true) /\
    same_state c c' /\ view m' ≈ mem_write a buf (view m) /\ good m'.
Proof using Hlaw.
  intros Hg Ha H0 Hs. unfold core_mem_write. pose proof (ml_write _ _ _ _ Hlaw m a buf Hg Ha H0 Hs) as Hr.
  destruct (if_write mif m a buf) as [m' ok]. destruct Hr as (-> & Hv). cbn [negb].
  eexists _, m'. split; [reflexivity|]. split; [by split|done].
Qed.
End memory.

(** * Host writes *)

(** A way to write a word to the core, which changes counters and settings beside,
    of the core and of the memory. *)
Definition host_writer {M} (mif : memory_if M) (view : M -> mem) (good : M -> Prop)
    (host_write : Z -> Z -> core * M -> core * M) : Prop :=
  forall off v c m, good m -> is_u32 off -> off mod 4 = 0 -> off + 4 <= REG_BYTES -> is_u32 v ->
  exists c0 c' m0, same_state c c0 /\ same_view view good m m0 /\
    host_write off v (c, m) = (c', snd (core_write32 (Some mif) off v c0 m0)) /\
    same_state (fst (core_write32 (Some mif) off v c0 m0)) c'.

(** * Words and plain registers *)

Lemma same_state_store off v c c' : same_state c c' -> same_state (core_store32 off v c) (core_store32 off v c').
Proof. intros []. split; try done. unfold core_store32. cbn [m_regs set_field]. congruence. Qed.

(** A register that a write only stores. *)
Definition plain_register (off : Z) : Prop := forall {M} (mif : memory_if M) v c m,
  core_write32 (Some mif) off v c m = (core_store32 off v c, m).

(** The words of a list of bytes, written from an offset up. *)
Definition write_words {M} (host_write : Z -> Z -> core * M -> core * M) (off : Z) (bytes : list Z) (cm : core * M) : core * M :=
  foldl (fun cm k => host_write (off + k * 4) (le_val (slice (k * 4) 4 bytes)) cm) cm (range (vec_size bytes / 4)).

Section writer.
Context {M : Type} {mif : memory_if M} {view : M -> mem} {good : M -> Prop}.
Context {host_write : Z -> Z -> core * M -> core * M} (Hwriter : host_writer mif view good host_write).

Lemma write_plain off v c m : plain_register off -> good m -> 0 <= off -> off mod 4 = 0 -> off + 4 <= REG_BYTES -> is_u32 v ->
  exists c' m', host_write off v (c, m) = (c', m') /\ same_state (core_store32 off v c) c' /\ same_view view good m m'.
Proof using Hwriter.
  intros Hp Hg Ho Ha Hr Hv. destruct (Hwriter off v c m Hg) as (c0 & c' & m0 & S0 & V & -> & S'); [|done..|].
  { split; [done|]. unfold REG_BYTES in Hr. lia. }
  rewrite Hp in *. cbn [fst snd] in *. exists c', m0. split; [done|]. split; [|done].
  etransitivity; [by apply same_state_store|done].
Qed.

(** The words end up in the registers as the bytes they came from. *)
Lemma write_words_spec off bytes c m : good m -> bytes_ok bytes -> vec_size bytes mod 4 = 0 -> 0 <= off -> off mod 4 = 0 ->
  off + vec_size bytes <= REG_BYTES -> (forall k, 0 <= k < vec_size bytes / 4 -> plain_register (off + k * 4)) ->
  exists c' m', write_words host_write off bytes (c, m) = (c', m') /\
    m_regs c' ≈ mem_write off bytes (m_regs c) /\ m_engine c' = m_engine c /\ same_view view good m m'.
Proof using Hwriter.
  intros Hg Hb Hn Ho Ha Hr Hp. unfold write_words. set (n := vec_size bytes / 4) in *.
  assert (vec_size bytes = 4 * n) as En by (pose proof (Z.div_mod (vec_size bytes) 4); lia).
  assert (0 <= n) by (unfold vec_size in En; lia).
  match goal with |- exists c' m', ?w = _ /\ _ => cut (m_regs (fst w) ≈ mem_write off (take (Z.to_nat (4 * n)) bytes) (m_regs c) /\
    m_engine (fst w) = m_engine c /\ same_view view good m (snd w)) end.
  { destruct (foldl _ _ _) as [c' m']. cbn [fst snd]. intros (H1 & H2 & H3). exists c', m'. split; [done|]. split; [|done].
    rewrite take_ge in H1 by (unfold vec_size in *; lia). done. }
  apply (foldl_range_ind _ (fun k w => m_regs (fst w) ≈ mem_write off (take (Z.to_nat (4 * k)) bytes) (m_regs c) /\
    m_engine (fst w) = m_engine c /\ same_view view good m (snd w))); [done|by split|].
  intros k [c1 m1] Hk (H1 & H2 & H3). cbn [fst snd] in *.
  assert (vec_size (slice (k * 4) 4 bytes) = 4) as Hw.
  { unfold slice, vec_size in *. rewrite length_take, length_drop. lia. }
  assert (bytes_ok (slice (k * 4) 4 bytes)) as Hok by (by apply Forall_take, Forall_drop).
  destruct (write_plain (off + k * 4) (le_val (slice (k * 4) 4 bytes)) c1 m1) as (c2 & m2 & -> & S2 & V2).
  { by apply Hp. } { apply H3. } { lia. } { rewrite Z.mod_add; lia. } { lia. }
  { pose proof (le_val_range (slice (k * 4) 4 bytes) Hok) as Hv. unfold vec_size in Hw. rewrite Hw in Hv. exact Hv. }
  cbn [fst snd]. split; [|split; [by rewrite (ss_engine _ _ S2)|by eapply same_view_trans]].
  rewrite (ss_regs _ _ S2). unfold core_store32, store32. cbn [m_regs set_field].
  rewrite le_bytes_val by (done || (unfold vec_size in Hw; lia)). rewrite H1.
  assert (Z.of_nat (length (take (Z.to_nat (4 * k)) bytes)) = 4 * k) as Hl by (rewrite length_take; unfold vec_size in *; lia).
  replace (off + k * 4) with (off + Z.of_nat (length (take (Z.to_nat (4 * k)) bytes))) by lia.
  rewrite mem_write_app. unfold slice. replace (Z.to_nat (k * 4)) with (Z.to_nat (4 * k)) by lia.
  replace (Z.to_nat (4 * (k + 1))) with (Z.to_nat (4 * k) + Z.to_nat 4)%nat by lia. by rewrite take_take_drop.
Qed.
End writer.
