(* ===== verification/HashDma.v ===== *)
(** The hash engine computes SHA-256 of the bytes its transfers read from memory,
    however the message is cut into transfers, chunks and blocks. *)

From S2P Require Import Prelude Bytes Vectors Tlm Memory Sha256 Cc3xxState Cc3xxPka Cc3xxAes Cc3xxCore Cc3xxDriver.

(** * The engine as a hash state *)

(** The fields of the engine the hash class keeps too. *)
Definition engine_sha (c : core) : sha256 :=
  let s := m_sha256 c in MkSha (sha_h s) (sha_block s) (sha_bytes s) (sha_block_len s).

(** What hashing leaves alone: the engine selection, the flags, and the registers
    outside the digest and the length. *)
Record hash_frame (c c' : core) : Prop := HashFrame {
  hf_engine : m_engine c' = m_engine c;
  hf_active : sha_active (m_sha256 c') = sha_active (m_sha256 c);
  hf_finalized : sha_finalized (m_sha256 c') = sha_finalized (m_sha256 c);
  hf_regs off : off + 4 <= HASH_H \/ (HASH_H + 32 <= off /\ off + 4 <= HASH_CUR_LEN0) \/ HASH_CUR_LEN0 + 8 <= off ->
    core_load32 off c' = core_load32 off c
}.

#[export] Instance hash_frame_preorder : PreOrder hash_frame.
Proof.
  split; [by intros c|]. intros c c' c'' [H1 H2 H3 H4] [G1 G2 G3 G4].
  split; [congruence..|]. intros off Hoff. by rewrite G4, H4.
Qed.

Lemma frame_store off v c : (HASH_H <= off /\ off + 4 <= HASH_H + 32) \/ (HASH_CUR_LEN0 <= off /\ off + 4 <= HASH_CUR_LEN0 + 8) ->
  hash_frame c (core_store32 off v c).
Proof.
  unfold HASH_H, HASH_CUR_LEN0. intros Hoff. split; [done..|]. intros off'. unfold HASH_H, HASH_CUR_LEN0.
  intros Hoff'. apply load32_store32_ne. lia.
Qed.

Lemma frame_count k n c : hash_frame c (count k n c).
Proof. by split. Qed.

Lemma store_h_spec c :
  let c' := store_sha256_h c in
  hash_frame c c' /\ m_sha256 c' = m_sha256 c /\
  forall i, 0 <= i < 8 -> core_load32 (HASH_H + i * 4) c' = u32 (arr_get (sha_h (m_sha256 c)) i).
Proof.
  unfold store_sha256_h.
  apply (foldl_range_ind _ (fun n c' => hash_frame c c' /\ m_sha256 c' = m_sha256 c /\
    forall i, 0 <= i < n -> core_load32 (HASH_H + i * 4) c' = u32 (arr_get (sha_h (m_sha256 c)) i))); [done| |].
  { split; [done|]. split; [done|]. intros. lia. }
  intros k c' Hk (Hf & Hs & Hw). split; [|split].
  - etransitivity; [exact Hf|]. apply frame_store. unfold HASH_H. lia.
  - exact Hs.
  - intros i Hi. unfold core_load32, core_store32. cbn [m_regs set_field]. destruct (Z.eq_dec i k) as [->|].
    + rewrite <-Hs. apply load32_store32.
    + etransitivity; [apply load32_store32_ne; lia|]. apply Hw. lia.
Qed.

Lemma store_len_frame v c : hash_frame c (store_hash_current_len v c) /\ m_sha256 (store_hash_current_len v c) = m_sha256 c.
Proof.
  split; [|done]. unfold store_hash_current_len. etransitivity; apply frame_store; unfold HASH_CUR_LEN0, HASH_CUR_LEN1; lia.
Qed.

(** A block is hashed in the registers as it is in the class. *)
Lemma transform_spec block c :
  let c' := sha256_transform block c in
  hash_frame c c' /\ m_sha256 c' = (m_sha256 c) <| sha_h := compress (sha_h (m_sha256 c)) block |>.
Proof.
  unfold sha256_transform. set (c0 := set_field _ _ _). destruct (store_h_spec c0) as (Hf & Hs & _).
  split; [|exact Hs]. etransitivity; [|exact Hf]. by split.
Qed.

Lemma full_block_spec c :
  hash_frame c (hash_full_block c) /\
  engine_sha (hash_full_block c) =
    let s := engine_sha c in
    if m_block_len s =? vec_size (m_block s) then s <| m_h := compress (m_h s) (m_block s) |> <| m_block_len := 0 |> else s.
Proof.
  unfold hash_full_block. change (sha_block_len (m_sha256 c)) with (m_block_len (engine_sha c)).
  change (sha_block (m_sha256 c)) with (m_block (engine_sha c)). cbv zeta. destruct (_ =? _); [|done].
  destruct (transform_spec (m_block (engine_sha c)) c) as [Hf Hs]. revert Hf Hs. generalize (sha256_transform (m_block (engine_sha c)) c) as c1. intros c1 Hf Hs. split.
  - etransitivity; [exact Hf|]. by split.
  - assert (engine_sha (c1 <| m_sha256 ::= fun s => s <| sha_block_len := 0 |> |>) =
      (engine_sha c1) <| m_block_len := 0 |>) as -> by done.
    assert (engine_sha c1 = (engine_sha c) <| m_h := compress (sha_h (m_sha256 c)) (m_block (engine_sha c)) |>) as ->; [|done].
    unfold engine_sha at 1. by rewrite Hs.
Qed.

Lemma hash_turn_spec data c :
  hash_frame c (fst (hash_turn data c)) /\
  update_turn data (engine_sha c) = (engine_sha (fst (hash_turn data c)), snd (hash_turn data c)).
Proof.
  unfold hash_turn. cbn [fst snd]. match goal with |- context [hash_full_block ?c'] => destruct (full_block_spec c') as [Hf ->] end.
  split; [|done]. etransitivity; [|exact Hf]. by split.
Qed.

Lemma hash_loop_spec fuel data c :
  hash_frame c (hash_loop fuel data c) /\ engine_sha (hash_loop fuel data c) = update_loop fuel data (engine_sha c).
Proof.
  revert data c. induction fuel as [|fuel IH]; intros data c; [done|]. cbn [hash_loop update_loop].
  destruct (vec_size data =? 0); [done|]. destruct (hash_turn_spec data c) as [Hf ->].
  destruct (hash_turn data c) as [c' rest]. cbn [fst snd] in *. destruct (IH rest c') as [Hf' ->].
  split; [by etransitivity|done].
Qed.

(** * Messages *)

(** The engine is hashing, and has taken the bytes [l]. *)
Record hashing (l : list Z) (c : core) : Prop := Hashing {
  hg_hashed : hashed l (engine_sha c);
  hg_active : sha_active (m_sha256 c) = true;
  hg_running : sha_finalized (m_sha256 c) = false
}.

Lemma reset_hashing c : hashing [] (sha256_reset c).
Proof.
  unfold sha256_reset. set (c1 := store_hash_current_len _ _). destruct (store_h_spec c1) as (_ & E & _).
  split; unfold engine_sha; rewrite E; [|done|done]. apply hashed_reset.
Qed.

Lemma hashing_count l k n c : hashing l c -> hashing l (count k n c).
Proof. by intros [H1 H2 H3]. Qed.

Lemma hashing_frame_regs l c c' : hashing l c -> m_sha256 c' = m_sha256 c -> hashing l c'.
Proof. intros [H1 H2 H3] E. split; unfold engine_sha in *; by rewrite E. Qed.

Lemma update_impl_spec l data stats c : hashing l c ->
  hashing (l ++ data) (sha256_update_impl data stats c) /\ hash_frame c (sha256_update_impl data stats c).
Proof.
  intros [Hh Ha Hf]. unfold sha256_update_impl. rewrite Ha, Hf. cbn [negb orb].
  set (c0 := if stats then _ else c).
  assert (m_sha256 c0 = m_sha256 c /\ hash_frame c c0) as [E0 F0] by (unfold c0; by destruct stats).
  set (c1 := c0 <| m_sha256 ::= _ |>). set (c2 := store_hash_current_len _ c1).
  destruct (store_len_frame (sha_bytes (m_sha256 c1)) c1) as [F2 E2]. fold c2 in F2, E2.
  destruct (hash_loop_spec (length data) data c2) as [F3 E3].
  assert (hash_frame c (hash_loop (length data) data c2)) as F.
  { etransitivity; [exact F0|]. transitivity c1; [by split|]. by etransitivity. }
  split; [|exact F]. split; [|by rewrite (hf_active _ _ F)|by rewrite (hf_finalized _ _ F)].
  rewrite E3. pose proof (hashed_update l (Some data) (engine_sha c) Hh) as H. cbn [update default] in H.
  assert (engine_sha c2 = (engine_sha c) <| Sha256.m_bytes := u64 (Sha256.m_bytes (engine_sha c) + vec_size data) |>) as ->; [|exact H].
  unfold engine_sha. rewrite E2. unfold c1. cbn. by rewrite E0.
Qed.

Lemma be_bytes_u32 v : be_bytes 4 (u32 v) = be_bytes 4 v.
Proof.
  unfold be_bytes. apply map_ext_in. intros i Hi%list_elem_of_In. rewrite list_elem_of_In, <-in_rev, <-list_elem_of_In, elem_of_range in Hi.
  apply Z.bits_inj'. intros k Hk. unfold wrap. rewrite !Z.testbit_mod_pow2, !Z.shiftr_spec, Z.testbit_mod_pow2 by lia.
  destruct (Z.ltb_spec k 8); [|done]. by replace (k + i * 8 <? 32) with true by lia.
Qed.

Lemma map_words {A} (g : Z -> A) l : length l = 8%nat -> map (fun i => g (arr_get l i)) (range 8) = map g l.
Proof. intros Hl. do 8 (destruct l as [|? l]; [discriminate|]). by destruct l. Qed.

(** The digest registers, most significant byte first. *)
Definition digest_registers (c : core) : list Z :=
  concat (map (fun i => be_bytes 4 (core_load32 (HASH_H + i * 4) c)) (range 8)).

Lemma load_len_ne off v c : off + 4 <= HASH_CUR_LEN0 -> core_load32 off (store_hash_current_len v c) = core_load32 off c.
Proof.
  unfold HASH_CUR_LEN0. intros Hoff. unfold store_hash_current_len, core_load32, core_store32, HASH_CUR_LEN0, HASH_CUR_LEN1.
  cbn [m_regs set_field]. etransitivity; [apply load32_store32_ne; lia|]. apply load32_store32_ne. lia.
Qed.

Lemma digest_stored c : length (sha_h (m_sha256 c)) = 8%nat ->
  digest_registers (store_sha256_h c) = concat (map (be_bytes 4) (sha_h (m_sha256 c))).
Proof.
  intros Hl. destruct (store_h_spec c) as (_ & _ & Hw). unfold digest_registers. f_equal.
  rewrite <-(map_words (be_bytes 4) _ Hl). apply map_ext_in. intros i Hi%list_elem_of_In%elem_of_range.
  by rewrite Hw, be_bytes_u32.
Qed.

Lemma digest_ext c c' : (forall i, 0 <= i < 8 -> core_load32 (HASH_H + i * 4) c' = core_load32 (HASH_H + i * 4) c) ->
  digest_registers c' = digest_registers c.
Proof.
  intros H. unfold digest_registers. f_equal. apply map_ext_in. intros i Hi%list_elem_of_In%elem_of_range. by rewrite H.
Qed.

(** The end of [sha256_finish]: the digest stays, the flag is set. *)
Definition finish_stores (message_bytes : Z) (c : core) : core :=
  (store_hash_current_len message_bytes (store_sha256_h c)) <| m_sha256 ::= fun s => s <| sha_finalized := true |> |>.

Lemma load_set_sha off f c : core_load32 off (c <| m_sha256 ::= f |>) = core_load32 off c.
Proof. done. Qed.

Lemma finish_stores_digest n c : length (sha_h (m_sha256 c)) = 8%nat ->
  digest_registers (finish_stores n c) = concat (map (be_bytes 4) (sha_h (m_sha256 c))).
Proof.
  intros Hl. rewrite <-digest_stored by done. apply digest_ext. intros i Hi. unfold finish_stores.
  rewrite load_set_sha. apply load_len_ne. unfold HASH_H, HASH_CUR_LEN0. lia.
Qed.

Lemma finish_eq l c : hashing l c -> vec_size l * 8 < 2 ^ 64 -> exists c2,
  sha256_finish c = finish_stores (Sha256.m_bytes (engine_sha c)) c2 /\ hashing (sha_pad l) c2 /\ hash_frame c c2.
Proof.
  intros Hc Hl. pose proof Hc as [[Ha Hb] Hact Hrun]. unfold sha256_finish. rewrite Hact, Hrun. cbn [negb orb].
  set (c0 := count1 sha256_finishes c). assert (hashing l c0) as H0 by (by apply hashing_count).
  assert (sha_block_len (m_sha256 c0) = m_block_len (engine_sha c)) as -> by done.
  assert (sha_bytes (m_sha256 c0) = Sha256.m_bytes (engine_sha c)) as -> by done. assert (hash_frame c c0) as F0 by done.
  clearbody c0. cbv zeta. rewrite (finish_padding l (engine_sha c) Ha). assert (0 <= vec_size l) by (unfold vec_size; lia).
  assert (u64 (Sha256.m_bytes (engine_sha c) * 8) = vec_size l * 8) as ->.
  { rewrite Hb, !wrap_small; [done|split; lia|]. rewrite wrap_small; split; lia. }
  destruct (update_impl_spec l (0x80 :: replicate (Z.to_nat (pad_zeros (vec_size l))) 0) false c0 H0) as [H1 F1].
  generalize dependent (sha256_update_impl (0x80 :: replicate (Z.to_nat (pad_zeros (vec_size l))) 0) false c0). intros c1 H1 F1.
  destruct (update_impl_spec _ (be_bytes 8 (vec_size l * 8)) false c1 H1) as [H2 F2].
  generalize dependent (sha256_update_impl (be_bytes 8 (vec_size l * 8)) false c1). intros c2 H2 F2.
  exists c2. split; [done|]. split; [|by do 2 (etransitivity; [eassumption|])].
  unfold sha_pad. by rewrite <-app_assoc, (Z.mul_comm (vec_size l)) in H2.
Qed.

(** Finishing leaves the digest in the registers. *)
Lemma finish_digest l c : hashing l c -> vec_size l * 8 < 2 ^ 64 -> digest_registers (sha256_finish c) = SHA256 l.
Proof.
  intros Hc Hl. destruct (finish_eq l c Hc Hl) as (c2 & -> & [[(Hh & _) _] _ _] & _).
  change (m_h (engine_sha c2)) with (sha_h (m_sha256 c2)) in Hh.
  rewrite finish_stores_digest by (rewrite Hh; apply sha256_state_length). by rewrite Hh.
Qed.

(** * Transfers *)

Section transfers.
Context {M : Type} (mif : memory_if M) (view : M -> mem) (good : M -> Prop) (serves : Z -> Prop).
Hypothesis Hlaw : memory_law mif view good serves.

Lemma same_frame c c' : same_state c c' -> hash_frame c c'.
Proof using. intros []. split; [congruence..|]. intros off _. unfold core_load32. congruence. Qed.

(** Reading a message chunk by chunk hashes it; the fuel, one turn per chunk, is
    enough. *)
Lemma hash_chunks_spec fuel chunk a n l c m : good m -> hashing l c -> vec_size chunk = DMA_CHUNK_BYTES -> 0 <= a -> 0 <= n ->
  a + n < 2 ^ 64 -> n <= (Z.of_nat fuel) * DMA_CHUNK_BYTES -> (forall k, 0 <= k < n -> serves (a + k)) ->
  exists c' m', hash_chunks (Some mif) fuel chunk a n c m = (c', m', true) /\
    hashing (l ++ mem_read (view m) a n) c' /\ hash_frame c c' /\ same_view view good m m'.
Proof using Hlaw.
  unfold DMA_CHUNK_BYTES. revert chunk a n l c m. induction fuel as [|fuel IH]; intros chunk a n l c m Hg Hl Hc Ha Hn Hlt Hf Hs.
  { assert (n = 0) as -> by lia. exists c, m. split; [done|]. split; [|done]. change (mem_read (view m) a 0) with (@nil Z).
    by rewrite app_nil_r. }
  cbn [hash_chunks]. destruct (Z.eqb_spec n 0) as [->|Hne].
  { exists c, m. split; [done|]. split; [|done]. change (mem_read (view m) a 0) with (@nil Z). by rewrite app_nil_r. }
  rewrite Hc. set (len := Z.min n 1024). assert (0 < len <= n /\ len <= 1024) as Hlen by lia.
  set (c0 := count1 hash_dma_chunks c).
  assert (vec_size (take (Z.to_nat len) chunk) = len) as Htk by (apply sha_size_take; lia).
  destruct (core_read_served Hlaw a (take (Z.to_nat len) chunk) c0 m) as (c1 & m1 & -> & S1 & V1).
  { done. } { done. } { lia. } { intros k Hk. apply Hs. lia. }
  pose proof (same_frame _ _ S1) as F1. pose proof (ss_sha _ _ S1) as E1.
  rewrite Htk. set (data := mem_read (view m) a len). cbn [negb].
  assert (hashing l c1) as Hl1 by (by apply (hashing_frame_regs l c)).
  destruct (update_impl_spec l data true c1 Hl1) as [Hl2 F2]. fold (sha256_update data c1) in Hl2, F2.
  rewrite (wrap_small 64 (a + len)) by (split; lia). pose proof (mem_read_length (view m) a len ltac:(lia)) as Hdl.
  destruct (IH (splice 0 data chunk) (a + len) (n - len) (l ++ data) (sha256_update data c1) m1 (proj2 V1) Hl2)
    as (c' & m' & -> & Hh & F3 & V3).
  { rewrite splice_size; [done|done|]. unfold vec_size in *. fold data in Hdl. lia. }
  { lia. } { lia. } { lia. } { lia. } { intros k Hk. replace (a + len + k) with (a + (len + k)) by lia. apply Hs. lia. }
  exists c', m'. split; [done|]. split; [|split].
  - rewrite (proj1 V1), <-app_assoc in Hh. unfold data in Hh. rewrite <-mem_read_app in Hh by lia.
    by replace (len + (n - len)) with n in Hh by lia.
  - etransitivity; [by apply (frame_count hash_dma_chunks 1 c)|]. etransitivity; [exact F1|]. etransitivity; [exact F2|exact F3].
  - by apply (same_view_trans m m1).
Qed.

(** The engine takes transfers of a message, and has hashed the bytes [l]. *)
Record streaming (l : list Z) (c : core) : Prop := Streaming {
  sg_hashing : hashing l c;
  sg_engine : m_engine c = CC3XX_ENGINE_HASH;
  sg_padding : Z.land (core_load32 AUTO_HW_PADDING c) 0x1 = 0
}.

Lemma streaming_store l off v c : off + 4 <= AUTO_HW_PADDING \/ AUTO_HW_PADDING + 4 <= off ->
  streaming l c -> streaming l (core_store32 off v c).
Proof.
  intros Hoff [Hh He Hp]. split; [by apply (hashing_frame_regs l c)|exact He|]. rewrite <-Hp. unfold core_load32, core_store32. cbn [m_regs set_field].
  f_equal. apply load32_store32_ne. lia.
Qed.

Lemma streaming_frame l l' c c' : streaming l c -> hash_frame c c' -> hashing l' c' -> streaming l' c'.
Proof.
  intros [Hh He Hp] F Hh'. split; [done|by rewrite (hf_engine _ _ F)|].
  rewrite (hf_regs _ _ F); [done|]. unfold AUTO_HW_PADDING, HASH_H, HASH_CUR_LEN0. lia.
Qed.

(** The other engines ignore the transfer. *)
Lemma transfer_others off l c m : streaming l c ->
  aes_dma_output (Some mif) off c m = (c, m) /\ cmac_dma_input (Some mif) off c m = (c, m).
Proof.
  intros [_ He _]. unfold aes_dma_output, cmac_dma_input, aes_engine_selected. rewrite He. cbn.
  split; [by destruct (negb _)|]. by rewrite orb_true_r.
Qed.

Lemma hash_input_spec a n l c m : good m -> streaming l c -> is_u32 a -> is_u32 n ->
  core_load32 DIN_SRC_LLI_WORD0 c = a -> core_load32 DIN_SRC_LLI_WORD1 c = n ->
  (forall k, 0 <= k < n -> serves (a + k)) ->
  exists c' m', hash_dma_input (Some mif) DIN_SRC_LLI_WORD1 c m = (c', m') /\
    streaming (l ++ mem_read (view m) a n) c' /\ same_view view good m m'.
Proof.
  intros Hg Hst Ra Rn Ea En Hs. pose proof Hst as [Hh He Hp]. pose proof Hh as [_ Ha Hf]. unfold hash_dma_input. rewrite He, Ha, Hf.
  cbn [negb orb Z.eqb Pos.eqb CC3XX_ENGINE_HASH DIN_SRC_LLI_WORD1]. rewrite Ea, En.
  set (c0 := count hash_dma_bytes n (count1 hash_dma_triggers c)). assert (hash_frame c c0) as F0 by done.
  destruct (hash_chunks_spec (chunk_fuel n) (replicate (Z.to_nat DMA_CHUNK_BYTES) 0) a n l c0 m)
    as (c' & m' & -> & Hh' & F & V); [done|by apply hashing_count, hashing_count|done|apply Ra|apply Rn|unfold is_u32, is_uint in *; lia| |exact Hs|].
  { unfold is_u32, is_uint in Rn. unfold chunk_fuel, DMA_CHUNK_BYTES. pose proof (Z.div_mod n 1024 ltac:(lia)). pose proof (Z.mod_pos_bound n 1024 ltac:(lia)). lia. }
  cbn [negb]. assert (streaming (l ++ mem_read (view m) a n) c') as Hst' by (by apply (streaming_frame l _ c); [|etransitivity|]).
  rewrite (sg_padding _ _ Hst'). cbn [Z.eqb negb]. exists c', m'. done.
Qed.

Lemma complete_transfer_spec a n l c m : good m -> streaming l c -> is_u32 a -> is_u32 n ->
  core_load32 DIN_SRC_LLI_WORD0 c = a -> core_load32 DIN_SRC_LLI_WORD1 c = n ->
  (forall k, 0 <= k < n -> serves (a + k)) ->
  exists c' m', complete_dma_transfer (Some mif) DIN_SRC_LLI_WORD1 c m = (c', m') /\
    streaming (l ++ mem_read (view m) a n) c' /\ same_view view good m m'.
Proof.
  intros Hg Hst Ra Rn Ea En Hs. destruct (hash_input_spec a n l c m Hg Hst Ra Rn Ea En Hs) as (c1 & m1 & E1 & H1 & V1).
  unfold complete_dma_transfer. rewrite E1. destruct (transfer_others DIN_SRC_LLI_WORD1 _ c1 m1 H1) as [-> ->].
  eexists _, m1. split; [reflexivity|]. split; [|done].
  repeat (apply streaming_store; [first [left; by vm_compute|right; by vm_compute]|]). done.
Qed.

(** * The driver's sequence *)

(** A way to write a word to the core. *)
Context (host_write : Z -> Z -> core * M -> core * M).
Hypothesis host_write_eq : host_writer mif view good host_write.

Lemma streaming_same l c c' : same_state c c' -> streaming l c -> streaming l c'.
Proof.
  intros [H1 H2 H3 _ _] [Hh He Hp]. split.
  - by apply (hashing_frame_regs l c).
  - by rewrite H3.
  - unfold core_load32 in *. by rewrite H1.
Qed.

(** A message is given as the segments of memory that hold it. *)
Definition hash_segment '(a, n) (cm : core * M) : core * M :=
  host_write DIN_SRC_LLI_WORD1 n (host_write DIN_SRC_LLI_WORD0 a cm).

Definition hash_driver (segments : list (Z * Z)) (cm : core * M) : core * M :=
  let cm := host_write HASH_CONTROL CC3XX_HASH_ALG_SHA256 cm in
  let cm := host_write CRYPTO_CTL CC3XX_ENGINE_HASH cm in
  let cm := host_write AUTO_HW_PADDING 0 cm in
  let cm := foldl (fun cm segment => hash_segment segment cm) cm segments in
  host_write HASH_PAD_CFG 0x4 cm.

Definition segment_ok '(a, n) : Prop := is_u32 a /\ is_u32 n /\ forall k, 0 <= k < n -> serves (a + k).

Definition segments_data (m : mem) (segments : list (Z * Z)) : list Z :=
  concat (map (fun '(a, n) => mem_read m a n) segments).

Lemma segments_data_view m m' segments : m ≈ m' -> segments_data m segments = segments_data m' segments.
Proof using. intros H. unfold segments_data. f_equal. apply map_ext. intros [a n]. by rewrite H. Qed.

Lemma start_streaming c m : good m -> exists c' m',
  host_write AUTO_HW_PADDING 0 (host_write CRYPTO_CTL CC3XX_ENGINE_HASH (host_write HASH_CONTROL CC3XX_HASH_ALG_SHA256 (c, m))) =
    (c', m') /\ streaming [] c' /\ same_view view good m m'.
Proof.
  intros Hg. destruct (host_write_eq HASH_CONTROL CC3XX_HASH_ALG_SHA256 c m) as (c0 & c1 & m1 & _ & V1 & -> & S1); [done..|].
  change (core_write32 (Some mif) HASH_CONTROL CC3XX_HASH_ALG_SHA256 c0 m1)
    with (sha256_reset (core_store32 HASH_CONTROL CC3XX_HASH_ALG_SHA256 c0), m1) in *. cbn [fst snd] in *.
  destruct (host_write_eq CRYPTO_CTL CC3XX_ENGINE_HASH c1 m1) as (c1' & c2 & m2 & T2 & V2 & -> & S2); [apply V1|done..|].
  change (core_write32 (Some mif) CRYPTO_CTL CC3XX_ENGINE_HASH c1' m2) with (write_crypto_ctl CC3XX_ENGINE_HASH c1', m2) in *.
  cbn [fst snd] in *.
  destruct (host_write_eq AUTO_HW_PADDING 0 c2 m2) as (c2' & c3 & m3 & T3 & V3 & -> & S3); [apply V2|done..|].
  change (core_write32 (Some mif) AUTO_HW_PADDING 0 c2' m3) with (core_store32 AUTO_HW_PADDING 0 c2', m3) in *.
  cbn [fst snd] in *. exists c3, m3. split; [done|]. split; [|by eapply same_view_trans; [|eapply same_view_trans]].
  assert (hashing [] c1') as H1.
  { apply (hashing_frame_regs [] c1 _); [|apply (ss_sha _ _ T2)].
    apply (hashing_frame_regs [] _ _ (reset_hashing _) (ss_sha _ _ S1)). }
  assert (m_sha256 c3 = m_sha256 c1') as E3.
  { rewrite (ss_sha _ _ S3). transitivity (m_sha256 c2'); [done|]. rewrite (ss_sha _ _ T3), (ss_sha _ _ S2). done. }
  apply (streaming_same [] _ _ S3). split.
  - apply (hashing_frame_regs [] c1'); [done|]. by rewrite <-E3, (ss_sha _ _ S3).
  - transitivity (m_engine c2'); [done|]. by rewrite (ss_engine _ _ T3), (ss_engine _ _ S2).
  - unfold core_load32, core_store32. cbn [m_regs set_field]. by rewrite load32_store32.
Qed.

Lemma segment_spec segment l c m : good m -> streaming l c -> segment_ok segment -> exists c' m',
  hash_segment segment (c, m) = (c', m') /\
  streaming (l ++ segments_data (view m) [segment]) c' /\ same_view view good m m'.
Proof.
  destruct segment as [a n]. intros Hg Hst (Ha & Hn & Hs). unfold hash_segment, segments_data. cbn [map concat].
  destruct (host_write_eq DIN_SRC_LLI_WORD0 a c m) as (c0 & c1 & m1 & T1 & V1 & -> & S1); [done..|].
  change (core_write32 (Some mif) DIN_SRC_LLI_WORD0 a c0 m1) with (core_store32 DIN_SRC_LLI_WORD0 a c0, m1) in *.
  cbn [fst snd] in *.
  destruct (host_write_eq DIN_SRC_LLI_WORD1 n c1 m1) as (c1' & c2 & m2 & T2 & V2 & -> & S2); [apply V1|done..|].
  change (core_write32 (Some mif) DIN_SRC_LLI_WORD1 n c1' m2)
    with (complete_dma_transfer (Some mif) DIN_SRC_LLI_WORD1 (core_store32 DIN_SRC_LLI_WORD1 n c1') m2) in *.
  assert (streaming l c1' /\ core_load32 DIN_SRC_LLI_WORD0 c1' = a) as [H1 E1].
  { split.
    - apply (streaming_same _ _ _ T2), (streaming_same _ _ _ S1), streaming_store; [right; by vm_compute|].
      by apply (streaming_same _ c).
    - rewrite (same_load _ _ _ T2), (same_load _ _ _ S1), load_store32. by apply wrap_small. }
  destruct (complete_transfer_spec a n l (core_store32 DIN_SRC_LLI_WORD1 n c1') m2) as (c3 & m3 & E3 & H3 & V3).
  - apply V2.
  - apply streaming_store; [right; by vm_compute|done].
  - done.
  - done.
  - unfold core_load32, core_store32. cbn [m_regs set_field]. etransitivity; [apply load32_store32_ne; left; by vm_compute|done].
  - rewrite load_store32. by apply wrap_small.
  - done.
  - rewrite E3 in S2 |- *. cbn [fst snd] in *. exists c2, m3. split; [done|].
    assert (same_view view good m m2) as V12 by (by apply (same_view_trans m m1)). split; [|by apply (same_view_trans m m2)].
    rewrite app_nil_r, <-(proj1 V12). by apply (streaming_same _ c3).
Qed.

Lemma segments_spec segments l c m : good m -> streaming l c -> Forall segment_ok segments -> exists c' m',
  foldl (fun cm segment => hash_segment segment cm) (c, m) segments = (c', m') /\
  streaming (l ++ segments_data (view m) segments) c' /\ same_view view good m m'.
Proof.
  intros Hg Hst Hs. revert l c m Hg Hst. induction Hs as [|segment segments Hseg _ IH]; intros l c m Hg Hst.
  { exists c, m. unfold segments_data. cbn [map concat]. by rewrite app_nil_r. }
  cbn [foldl]. destruct (segment_spec segment l c m Hg Hst Hseg) as (c1 & m1 & -> & H1 & V1).
  destruct (IH _ c1 m1 (proj2 V1) H1) as (c' & m' & -> & H' & V'). exists c', m'. split; [done|]. split; [|by apply (same_view_trans m m1)].
  rewrite <-app_assoc in H'. replace (segments_data (view m) (segment :: segments))
    with (segments_data (view m) [segment] ++ segments_data (view m1) segments); [done|].
  rewrite (segments_data_view _ _ segments (proj1 V1)). unfold segments_data. cbn [map concat]. by rewrite app_nil_r.
Qed.

(** Driven so, the engine leaves the digest of the message in its registers. *)
Lemma hash_driver_digest segments c m : good m ->
  Forall segment_ok segments -> vec_size (segments_data (view m) segments) * 8 < 2 ^ 64 ->
  exists c' m', hash_driver segments (c, m) = (c', m') /\
    digest_registers c' = SHA256 (segments_data (view m) segments) /\ same_view view good m m'.
Proof.
  intros Hg Hs Hl. unfold hash_driver. destruct (start_streaming c m Hg) as (c1 & m1 & -> & H1 & V1).
  destruct (segments_spec segments [] c1 m1 (proj2 V1) H1 Hs) as (c2 & m2 & -> & H2 & V2). cbn [app] in H2.
  rewrite (segments_data_view _ _ segments (proj1 V1)) in H2.
  destruct (host_write_eq HASH_PAD_CFG 0x4 c2 m2) as (c2' & c3 & m3 & T3 & V3 & -> & S3); [apply V2|done..|].
  pose proof (streaming_same _ _ _ T3 H2) as [H2' _ _]. pose proof H2' as [_ Ha _].
  assert (core_write32 (Some mif) HASH_PAD_CFG 0x4 c2' m3 = (sha256_finish (core_store32 HASH_PAD_CFG 0x4 c2'), m3)) as E.
  { change (core_write32 (Some mif) HASH_PAD_CFG 0x4 c2' m3) with (if true && sha_active (m_sha256 c2')
      then sha256_finish (core_store32 HASH_PAD_CFG 0x4 c2') else core_store32 HASH_PAD_CFG 0x4 c2', m3). by rewrite Ha. }
  rewrite E in S3 |- *. cbn [fst snd] in *. exists c3, m3. split; [done|].
  split; [|by eapply same_view_trans; [|eapply same_view_trans]].
  rewrite (digest_ext _ _ (fun i _ => same_load _ _ _ S3)). apply finish_digest; [|done].
  by apply (hashing_frame_regs _ c2').
Qed.
End transfers.
