(* ===== verification/AesDma.v ===== *)
(** The cipher engine works on memory: a transfer in counter mode leaves at its
    destination the source combined with the key stream, whatever the chunks, and the
    counter register goes on from there. *)

From S2P Require Import Prelude Bytes Vectors Tlm Memory Sha256 Cc3xxState Cc3xxPka Cc3xxAes AesCorrect AesCtr Cc3xxCore Cc3xxDriver.

(** * Counter mode *)

(** Byte [j] of the key stream from counter [c]. *)
Definition keystream (key : list Z) (c j : Z) : Z :=
  arr_get (default [] (aes_encrypt_block key (vec_size key) (be_bytes 16 (c + j / 16)))) (j mod 16).

Definition AES_CTR (key : list Z) (c : Z) (l : list Z) : list Z :=
  imap (fun i b => Z.lxor b (keystream key c (Z.of_nat i))) l.

Lemma AES_CTR_xor key rk rounds c l : aes_expand_key key (vec_size key) = Some (rk, rounds) ->
  AES_CTR key c l = ctr_xor rk rounds c 0 l.
Proof. intros E. apply imap_ext. intros i b _. unfold keystream, aes_encrypt_block. by rewrite E. Qed.

Lemma AES_CTR_app key c l l' : key_ok key -> vec_size l mod 16 = 0 ->
  AES_CTR key c (l ++ l') = AES_CTR key c l ++ AES_CTR key (c + ctr_blocks 0 (vec_size l)) l'.
Proof.
  intros Hk Hl. destruct (key_expands key Hk) as (rk & rounds & E). rewrite !(AES_CTR_xor key rk rounds) by done.
  rewrite ctr_xor_app, ctr_xor_blocks. do 2 f_equal. unfold ctr_blocks. pose proof (Z.div_mod (vec_size l) 16 ltac:(lia)) as Hd.
  destruct (Z.eqb_spec (vec_size l) 0); [lia|].
  replace (0 + vec_size l + 15) with (15 + (vec_size l / 16) * 16) by lia. rewrite Z.div_add by lia. change (15 / 16) with 0. lia.
Qed.

Lemma AES_CTR_twice key c l : key_ok key -> AES_CTR key c (AES_CTR key c l) = l.
Proof.
  intros Hk. destruct (key_expands key Hk) as (rk & rounds & E). rewrite !(AES_CTR_xor key rk rounds) by done. apply ctr_xor_twice.
Qed.

Lemma AES_CTR_size key c l : vec_size (AES_CTR key c l) = vec_size l.
Proof. unfold vec_size, AES_CTR. by rewrite length_imap. Qed.

(** * Chunks *)

Section transfers.
Context {M : Type} {mif : memory_if M} {view : M -> mem} {good : M -> Prop} {serves : Z -> Prop}.
Hypothesis Hlaw : memory_law mif view good serves.

Definition served (a n : Z) : Prop := is_u32 a /\ is_u32 n /\ forall k, 0 <= k < n -> serves (a + k).

(** The destination does not run over what is still to be read. *)
Definition apart (source dest n : Z) : Prop := dest <= source \/ source + n <= dest.

Lemma ctr_loop_key key rest c data : key_ok key ->
  ctr_loop (length data) (key ++ rest) (vec_size key) (be_bytes 16 c) data 0 =
    ctr_loop (length data) key (vec_size key) (be_bytes 16 c) data 0.
Proof using.
  intros _. generalize (length data) as fuel. generalize 0 as off. generalize (be_bytes 16 c) as ctr. intros ctr off fuel.
  revert ctr data off. induction fuel as [|fuel IH]; intros ctr data off; [done|]. cbn [ctr_loop].
  unfold aes_encrypt_block. rewrite expand_prefix. destruct (aes_expand_key _ _) as [[rk rounds]|]; [|done]. by rewrite IH.
Qed.

Lemma ctr_chunk key rest c data : key_ok key -> 0 <= c ->
  ctr_loop (length data) (key ++ rest) (vec_size key) (be_bytes 16 c) data 0 =
    Some (AES_CTR key c data, be_bytes 16 (c + ctr_blocks 0 (vec_size data))).
Proof using.
  intros Hk Hc. destruct (key_expands key Hk) as (rk & rounds & E). rewrite ctr_loop_key by done.
  rewrite (ctr_loop_full key _ rk rounds E) by (done || lia || (split; [apply Hk|done])). by rewrite (AES_CTR_xor key rk rounds).
Qed.

Lemma ctr_blocks_nonneg n : 0 <= n -> 0 <= ctr_blocks 0 n.
Proof using. intros Hn. unfold ctr_blocks. case_if; [done|]. apply Z.div_pos; lia. Qed.

(** The fuel, one turn per chunk, is enough. *)
Lemma ctr_chunks_spec fuel key rest input s d n ctr c m : good m -> key_ok key -> 0 <= ctr -> vec_size input = DMA_CHUNK_BYTES ->
  0 <= s -> 0 <= d -> 0 <= n -> s + n < 2 ^ 64 -> d + n < 2 ^ 64 -> n <= Z.of_nat fuel * DMA_CHUNK_BYTES ->
  (forall k, 0 <= k < n -> serves (s + k)) -> (forall k, 0 <= k < n -> serves (d + k)) -> apart s d n ->
  exists c' m', ctr_chunks (Some mif) fuel (key ++ rest) (vec_size key) (be_bytes 16 ctr) input s d n c m =
      (c', m', Some (be_bytes 16 (ctr + ctr_blocks 0 n))) /\
    same_state c c' /\ view m' ≈ mem_write d (AES_CTR key ctr (mem_read (view m) s n)) (view m) /\ good m'.
Proof using Hlaw.
  unfold DMA_CHUNK_BYTES, apart. intros Hg Hk. revert input s d n ctr c m Hg.
  induction fuel as [|fuel IH]; intros input s d n ctr c m Hg Hctr Hi Hs Hd Hn Hls Hld Hf Ss Sd Hap.
  { assert (n = 0) as -> by lia. exists c, m. unfold ctr_blocks. cbn. by rewrite Z.add_0_r. }
  cbn [ctr_chunks]. destruct (Z.eqb_spec n 0) as [->|Hne].
  { exists c, m. unfold ctr_blocks. cbn. by rewrite Z.add_0_r. }
  rewrite Hi. set (len := Z.min n 1024). assert (0 < len <= n /\ len <= 1024) as Hlen by lia.
  set (c0 := count1 aes_ctr_chunks c). assert (vec_size (take (Z.to_nat len) input) = len) as Htk by (apply sha_size_take; lia).
  destruct (core_read_served Hlaw s (take (Z.to_nat len) input) c0 m) as (c1 & m1 & -> & S1 & V1).
  { done. } { done. } { lia. } { intros k Hk'. apply Ss. lia. }
  rewrite Htk. set (data := mem_read (view m) s len). cbn [negb].
  assert (vec_size data = len) as Hdata by (unfold vec_size, data; rewrite mem_read_length; lia).
  rewrite ctr_chunk by done. rewrite Hdata.
  destruct (core_write_served Hlaw d (AES_CTR key ctr data) c1 m1) as (c2 & m2 & -> & S2 & V2 & G2).
  { apply V1. } { done. } { rewrite AES_CTR_size. lia. } { rewrite AES_CTR_size. intros k Hk'. apply Sd. lia. }
  cbn [negb]. rewrite !(wrap_small 64) by (split; lia).
  pose proof (ctr_blocks_nonneg len ltac:(lia)) as Hb0.
  destruct (IH (splice 0 data input) (s + len) (d + len) (n - len) (ctr + ctr_blocks 0 len) c2 m2 G2)
    as (c' & m' & -> & S' & V' & G').
  { lia. } { rewrite splice_size; lia. } { lia. } { lia. } { lia. } { lia. } { lia. } { lia. }
  { intros k Hk'. rewrite <-Z.add_assoc. apply Ss. lia. } { intros k Hk'. rewrite <-Z.add_assoc. apply Sd. lia. } { lia. }
  assert (len = 1024 /\ len < n \/ len = n) as Hcase by lia. exists c', m'. split; [|split; [|split; [|done]]].
  - do 3 f_equal. rewrite <-Z.add_assoc. f_equal. destruct Hcase as [[E El]| ->].
    + rewrite E in *. unfold ctr_blocks. replace (n - 1024 =? 0) with false by lia. replace (n =? 0) with false by lia.
      change (1024 =? 0) with false. change ((0 + 1024 + 15) / 16) with 64. cbv iota.
      replace (0 + n + 15) with (0 + (n - 1024) + 15 + 64 * 16) by lia. rewrite Z.div_add by lia. lia.
    + by rewrite Z.sub_diag, Z.add_0_r.
  - transitivity c0; [by split|]. transitivity c1; [done|]. by transitivity c2.
  - assert (mem_read (view m2) (s + len) (n - len) = mem_read (view m) (s + len) (n - len)) as Em.
    { rewrite V2, (proj1 V1). apply mem_read_write_ne. pose proof (AES_CTR_size key ctr data). unfold vec_size in *. lia. }
    rewrite V', Em, V2, (proj1 V1). replace (d + len) with (d + Z.of_nat (length (AES_CTR key ctr data)))
      by (pose proof (AES_CTR_size key ctr data); unfold vec_size in *; lia).
    rewrite mem_write_app. assert (mem_read (view m) s n = data ++ mem_read (view m) (s + len) (n - len)) as ->.
    { unfold data. rewrite <-mem_read_app by lia. f_equal. lia. }
    destruct Hcase as [[E El]|E].
    + rewrite AES_CTR_app; rewrite ?Hdata; [done|done|by rewrite E].
    + rewrite E, Z.sub_diag. by rewrite !app_nil_r.
Qed.

(** * Transfers *)

(** The control register, for a mode and a key of [n] bytes. *)
Definition aes_control (mode n : Z) : Z := Z.lor (Z.shiftl mode 2) (Z.shiftl (n / 8 - 2) 12).

Definition mode_ok (mode : Z) : Prop := mode = CC3XX_AES_MODE_CTR \/ mode = CC3XX_AES_MODE_CMAC.

(** The cipher is selected, with a mode and a key. *)
Record aes_ready (key : list Z) (mode : Z) (c : core) : Prop := AesReady {
  ar_engine : m_engine c = CC3XX_ENGINE_AES;
  ar_control : core_load32 AES_CONTROL c = aes_control mode (vec_size key);
  ar_key : mem_read (m_regs c) AES_KEY_0 (vec_size key) = key
}.

Lemma ready_modes key mode c : key_ok key -> mode_ok mode -> aes_ready key mode c ->
  aes_key_size_bytes c = vec_size key /\ aes_mode c = mode /\ aes_decrypt c = false.
Proof using.
  intros Hk Hm [_ Hc _]. unfold aes_key_size_bytes, aes_mode, aes_decrypt. rewrite Hc.
  by destruct (key_cases key Hk) as [->|[->| ->]], Hm as [->| ->].
Qed.

Lemma ready_key key mode c : aes_ready key mode c ->
  aes_key (vec_size key) c = key ++ drop (Z.to_nat 0 + length key) (replicate 32 0).
Proof using. intros [_ _ Hk]. unfold aes_key. by rewrite Hk. Qed.

Lemma ready_same key mode c c' : same_state c c' -> aes_ready key mode c -> aes_ready key mode c'.
Proof using. intros S [H1 H2 H3]. split; [by rewrite (ss_engine _ _ S)|by rewrite (same_load _ _ _ S)|by rewrite (ss_regs _ _ S)]. Qed.

(** Other registers do not matter. *)
Definition cipher_free (off n : Z) : Prop := AES_KEY_0 + 32 <= off /\ (off + n <= AES_CONTROL \/ AES_CONTROL + 4 <= off).

Lemma ready_write key mode off bs c : key_ok key -> cipher_free off (vec_size bs) -> aes_ready key mode c ->
  aes_ready key mode (c <| m_regs ::= mem_write off bs |>).
Proof using.
  unfold cipher_free, AES_KEY_0, AES_CONTROL, vec_size. intros Hk Hoff [H1 H2 H3]. pose proof (key_cases key Hk) as Hn. unfold vec_size in Hn.
  split; [done|rewrite <-H2|etransitivity; [|exact H3]]; unfold core_load32, load32; cbn [m_regs set_field].
  - f_equal. apply mem_read_write_ne. unfold AES_CONTROL. lia.
  - apply mem_read_write_ne. unfold AES_KEY_0, vec_size. lia.
Qed.

Lemma ready_store key mode off v c : key_ok key -> cipher_free off 4 -> aes_ready key mode c -> aes_ready key mode (core_store32 off v c).
Proof using. intros. by apply ready_write. Qed.

(** In counter mode, with the key stream at [ctr]. *)
Record ciphering (key : list Z) (ctr : Z) (c : core) : Prop := Ciphering {
  cp_ready : aes_ready key CC3XX_AES_MODE_CTR c;
  cp_counter : mem_read (m_regs c) AES_CTR_0 16 = be_bytes 16 ctr
}.

Lemma ciphering_same key ctr c c' : same_state c c' -> ciphering key ctr c -> ciphering key ctr c'.
Proof using. intros S [H1 H2]. split; [by apply (ready_same _ _ c)|by rewrite (ss_regs _ _ S)]. Qed.

Lemma ciphering_store key ctr off v c : key_ok key -> AES_BUSY <= off -> cipher_free off 4 ->
  ciphering key ctr c -> ciphering key ctr (core_store32 off v c).
Proof using.
  unfold AES_BUSY. intros Hk Hb Hoff [H1 H2]. split; [by apply ready_store|]. rewrite <-H2.
  apply mem_read_write_ne. rewrite le_bytes_length. unfold AES_CTR_0. lia.
Qed.

Definition advanced (key : list Z) (s d n ctr : Z) (m m' : M) : Prop :=
  view m' ≈ mem_write d (AES_CTR key ctr (mem_read (view m) s n)) (view m) /\ good m'.

Lemma xcrypt_spec key ctr s d n c m : good m -> key_ok key -> 0 <= ctr -> ciphering key ctr c ->
  served s n -> served d n -> apart s d n ->
  exists c' m', aes_ctr_xcrypt (Some mif) s d n c m = (c', m', true) /\
    ciphering key (ctr + ctr_blocks 0 n) c' /\ advanced key s d n ctr m m'.
Proof using Hlaw.
  intros Hg Hk Hctr Hc (Rs & Rn & Ss) (Rd & _ & Sd) Hap. unfold aes_ctr_xcrypt. set (c0 := count aes_ctr_bytes n (count1 aes_ctr_ops c)).
  assert (ciphering key ctr c0) as H0 by (by apply (ciphering_same key ctr c)).
  destruct (ready_modes key _ c0 Hk ltac:(by left) (cp_ready _ _ _ H0)) as [-> _].
  rewrite (ready_key _ _ _ (cp_ready _ _ _ H0)), (cp_counter _ _ _ H0).
  unfold is_u32, is_uint in Rs, Rd, Rn.
  destruct (ctr_chunks_spec (chunk_fuel n) key (drop (Z.to_nat 0 + length key) (replicate 32 0)) (replicate (Z.to_nat DMA_CHUNK_BYTES) 0)
    s d n ctr c0 m) as (c1 & m1 & -> & S1 & V1 & G1); try done; try lia.
  { unfold chunk_fuel, DMA_CHUNK_BYTES. pose proof (Z.div_mod n 1024 ltac:(lia)). pose proof (Z.mod_pos_bound n 1024 ltac:(lia)). lia. }
  eexists _, m1. split; [reflexivity|]. split; [|done].
  do 2 (apply ciphering_store; [done|by vm_compute|by split; [|first [by left|by right]]|]).
  pose proof (be_bytes_length 16 (ctr + ctr_blocks 0 n) ltac:(lia)) as Hl. split.
  - apply ready_write; [done| |by apply (ready_same _ _ c0); [|apply H0]]. rewrite Hl. split; [done|by left].
  - cbn [m_regs set_field]. by apply mem_read_write_eq.
Qed.

Lemma advanced_none key s d ctr m : good m -> advanced key s d 0 ctr m m.
Proof using. done. Qed.

Lemma cipher_transfer key ctr s d n c m : good m -> key_ok key -> 0 <= ctr -> ciphering key ctr c ->
  core_load32 DIN_SRC_LLI_WORD0 c = s -> core_load32 DIN_SRC_LLI_WORD1 c = n ->
  core_load32 DOUT_DST_LLI_WORD0 c = d -> core_load32 DOUT_DST_LLI_WORD1 c = n -> served s n -> served d n -> apart s d n ->
  exists c' m', complete_dma_transfer (Some mif) DIN_SRC_LLI_WORD1 c m = (c', m') /\
    ciphering key (ctr + ctr_blocks 0 n) c' /\ advanced key s d n ctr m m'.
Proof using Hlaw.
  intros Hg Hk Hctr Hc Es En Ed En' Hs Hd Hap.
  assert (exists c' m', aes_dma_output (Some mif) DIN_SRC_LLI_WORD1 c m = (c', m') /\
    ciphering key (ctr + ctr_blocks 0 n) c' /\ advanced key s d n ctr m m') as (c1 & m1 & E1 & H1 & V1).
  { unfold aes_dma_output, aes_engine_selected. rewrite (ar_engine _ _ _ (cp_ready _ _ _ Hc)), Es, En, Ed, En', Z.min_id.
    cbn [Z.eqb Pos.eqb DIN_SRC_LLI_WORD1 CC3XX_ENGINE_AES orb negb]. destruct (Z.eqb_spec n 0) as [->|Hne].
    { exists c, m. split; [done|]. unfold ctr_blocks. cbn. rewrite Z.add_0_r. by split. }
    set (c0 := count1 aes_dma_triggers c). assert (ciphering key ctr c0) as H0 by (by apply (ciphering_same key ctr c)).
    destruct (ready_modes key _ c0 Hk ltac:(by left) (cp_ready _ _ _ H0)) as (_ & -> & _). cbn [Z.eqb Pos.eqb CC3XX_AES_MODE_CTR CC3XX_AES_MODE_ECB].
    destruct (xcrypt_spec key ctr s d n c0 m) as (c1 & m1 & -> & H1); [done..|]. by exists c1, m1. }
  unfold complete_dma_transfer, hash_dma_input. rewrite (ar_engine _ _ _ (cp_ready _ _ _ Hc)).
  change (negb (CC3XX_ENGINE_AES =? CC3XX_ENGINE_HASH)) with true. cbn [orb]. rewrite E1.
  unfold cmac_dma_input. destruct (ready_modes key _ c1 Hk ltac:(by left) (cp_ready _ _ _ H1)) as (_ & -> & _).
  change (negb (CC3XX_AES_MODE_CTR =? CC3XX_AES_MODE_CMAC)) with true. rewrite orb_true_r. cbn [orb].
  eexists _, m1. split; [reflexivity|]. split; [|done].
  repeat (apply ciphering_store; [done|by vm_compute|by split; [|by right]|]). done.
Qed.
End transfers.

(** * Driving the engine *)

(** The registers of transfers and interrupts. *)
Ltac cipher_stores := repeat (apply ciphering_store; [done|by vm_compute|by split; [|by right]|]); done.

(** What segments of memory, each with its source, destination and size, make of it. *)
Fixpoint ciphered (key : list Z) (ctr : Z) (segments : list (Z * Z * Z)) (m : mem) : mem :=
  match segments with
  | [] => m
  | (s, d, n) :: segments =>
      ciphered key (ctr + ctr_blocks 0 n) segments (mem_write d (AES_CTR key ctr (mem_read m s n)) m)
  end.

#[export] Instance ciphered_proper : Proper (eq ==> eq ==> eq ==> mem_eq ==> mem_eq) ciphered.
Proof.
  intros key _ <- ctr _ <- segments _ <-. revert ctr. induction segments as [|[[s d] n] segments IH]; intros ctr m m' H; [done|].
  cbn [ciphered]. apply IH. by rewrite H.
Qed.

Definition key_loaded (key : list Z) (c : core) : Prop := mem_read (m_regs c) AES_KEY_0 (vec_size key) = key.

Lemma plain_cipher off : AES_KEY_0 <= off < AES_BUSY -> plain_register off.
Proof.
  unfold AES_KEY_0, AES_BUSY. intros Hoff M mif v c m. unfold core_write32.
  repeat match goal with |- context [off =? ?x] => replace (off =? x) with false by (let y := eval cbv in x in change x with y; lia) end.
  replace (off <? HASH_H + 8 * 4) with true by (unfold HASH_H; lia). replace (HASH_H <=? off) with false by (unfold HASH_H; lia). done.
Qed.

Lemma crypto_ctl_regs v c : m_regs (write_crypto_ctl v c) =
  store32 HOST_CC_IS_IDLE 1 (store32 HASH_BUSY 0 (store32 CRYPTO_BUSY 0 (store32 CRYPTO_CTL v (m_regs c)))).
Proof. unfold write_crypto_ctl. cbv zeta. by destruct (_ <? 32). Qed.

Section driver.
Context {M : Type} {mif : memory_if M} {view : M -> mem} {good : M -> Prop} {serves : Z -> Prop}.
Hypothesis Hlaw : memory_law mif view good serves.
Context (host_write : Z -> Z -> core * M -> core * M) (Hwriter : host_writer mif view good host_write).

Definition transfer_ok '(s, d, n) : Prop := served (serves := serves) s n /\ served (serves := serves) d n /\ apart s d n.

(** The mode, the key size and the engine. *)
Definition aes_start (mode key_len : Z) (cm : core * M) : core * M :=
  host_write CRYPTO_CTL CC3XX_ENGINE_AES (host_write AES_CONTROL (aes_control mode key_len) cm).

Definition cipher_start (key_len ctr : Z) (cm : core * M) : core * M :=
  write_words host_write AES_CTR_0 (be_bytes 16 ctr) (aes_start CC3XX_AES_MODE_CTR key_len cm).

Definition cipher_segment '(s, d, n) (cm : core * M) : core * M :=
  let cm := host_write DOUT_DST_LLI_WORD1 n (host_write DOUT_DST_LLI_WORD0 d cm) in
  host_write DIN_SRC_LLI_WORD1 n (host_write DIN_SRC_LLI_WORD0 s cm).

Definition cipher_run (key_len ctr : Z) (segments : list (Z * Z * Z)) (cm : core * M) : core * M :=
  foldl (fun cm segment => cipher_segment segment cm) (cipher_start key_len ctr cm) segments.

Definition cipher_driver (key : list Z) (ctr : Z) (segments : list (Z * Z * Z)) (cm : core * M) : core * M :=
  cipher_run (vec_size key) ctr segments (write_words host_write AES_KEY_0 key cm).

Lemma load_key key c m : good m -> key_ok key -> exists c' m',
  write_words host_write AES_KEY_0 key (c, m) = (c', m') /\ key_loaded key c' /\ same_view view good m m'.
Proof using Hwriter.
  intros Hg Hk. pose proof (key_cases key Hk) as Hn.
  destruct (write_words_spec Hwriter AES_KEY_0 key c m) as (c' & m' & E & H1 & _ & V); [done|apply Hk|..].
  { by destruct Hn as [->|[->| ->]]. } { done. } { done. } { unfold AES_KEY_0, REG_BYTES. lia. }
  { intros k Hk'. apply plain_cipher. unfold AES_KEY_0, AES_BUSY. destruct Hn as [En|[En|En]]; rewrite En in Hk'; lia. }
  exists c', m'. split; [done|]. split; [|done]. unfold key_loaded. rewrite H1. by apply mem_read_write_eq.
Qed.

Lemma control_u32 mode n : mode_ok mode -> n = 16 \/ n = 24 \/ n = 32 -> is_u32 (aes_control mode n).
Proof using. by intros [->| ->] [->|[->| ->]]. Qed.

Lemma aes_started key mode c m : good m -> key_ok key -> mode_ok mode -> key_loaded key c -> exists c' m',
  aes_start mode (vec_size key) (c, m) = (c', m') /\ aes_ready key mode c' /\ same_view view good m m'.
Proof using Hwriter.
  intros Hg Hk Hm Hl. pose proof (key_cases key Hk) as Hn. unfold aes_start.
  destruct (write_plain Hwriter AES_CONTROL (aes_control mode (vec_size key)) c m) as (c1 & m1 & -> & S1 & V1);
    [done|done|done|done|done|by apply control_u32|].
  destruct (Hwriter CRYPTO_CTL CC3XX_ENGINE_AES c1 m1) as (c1' & c2 & m2 & T2 & V2 & -> & S2); [apply V1|done..|].
  change (core_write32 (Some mif) CRYPTO_CTL CC3XX_ENGINE_AES c1' m2) with (write_crypto_ctl CC3XX_ENGINE_AES c1', m2) in *.
  cbn [fst snd] in *. exists c2, m2. split; [done|]. split; [|by eapply same_view_trans].
  apply (ready_same _ _ _ _ S2). split; [done|..]; unfold core_load32, load32; rewrite crypto_ctl_regs, (ss_regs _ _ T2), (ss_regs _ _ S1).
  - unfold store32 at 1 2 3 4. rewrite !mem_read_write_ne by (left; by vm_compute).
    change (core_load32 AES_CONTROL (core_store32 AES_CONTROL (aes_control mode (vec_size key)) c) = aes_control mode (vec_size key)).
    rewrite load_store32. by apply wrap_small, control_u32.
  - unfold store32 at 1 2 3 4. rewrite !mem_read_write_ne
      by (left; unfold CRYPTO_CTL, HOST_CC_IS_IDLE, HASH_BUSY, CRYPTO_BUSY, AES_KEY_0; lia).
    etransitivity; [|exact Hl]. apply mem_read_write_ne. unfold AES_KEY_0, AES_CONTROL. lia.
Qed.

Lemma cipher_started key ctr c m : good m -> key_ok key -> key_loaded key c -> exists c' m',
  cipher_start (vec_size key) ctr (c, m) = (c', m') /\ ciphering key ctr c' /\ same_view view good m m'.
Proof using Hwriter.
  intros Hg Hk Hl. unfold cipher_start. destruct (aes_started key CC3XX_AES_MODE_CTR c m) as (c1 & m1 & -> & [R1 R2 R3] & V1);
    [done|done|by left|done|].
  pose proof (be_bytes_length 16 ctr ltac:(lia)) as Hb. pose proof (key_cases key Hk) as Hn.
  destruct (write_words_spec Hwriter AES_CTR_0 (be_bytes 16 ctr) c1 m1) as (c2 & m2 & -> & E2 & Eng & V2);
    [apply V1|apply be_bytes_ok|by rewrite Hb|done|done|by rewrite Hb|..].
  { rewrite Hb. intros k Hk'. apply plain_cipher. unfold AES_CTR_0, AES_KEY_0, AES_BUSY. change (16 / 4) with 4 in Hk'. lia. }
  exists c2, m2. split; [done|]. split; [|by eapply same_view_trans]. unfold vec_size in Hb.
  split; [split|rewrite E2; by apply mem_read_write_eq].
  - by rewrite Eng.
  - rewrite <-R2. unfold core_load32, load32. rewrite E2. f_equal. apply mem_read_write_ne. unfold AES_CTR_0, AES_CONTROL. lia.
  - rewrite E2. etransitivity; [|exact R3]. apply mem_read_write_ne. unfold AES_CTR_0, AES_KEY_0. lia.
Qed.

(** The trigger of the output side moves nothing. *)
Lemma idle_trigger key ctr n c m : key_ok key -> ciphering key ctr c -> exists c',
  complete_dma_transfer (Some mif) DOUT_DST_LLI_WORD1 (core_store32 DOUT_DST_LLI_WORD1 n c) m = (c', m) /\ ciphering key ctr c' /\
  core_load32 DOUT_DST_LLI_WORD0 c' = core_load32 DOUT_DST_LLI_WORD0 c /\ core_load32 DOUT_DST_LLI_WORD1 c' = u32 n.
Proof using.
  intros Hk Hc. apply (ciphering_store key ctr DOUT_DST_LLI_WORD1 n c Hk ltac:(by vm_compute) ltac:(by split; [|by right])) in Hc as H1.
  set (c1 := core_store32 DOUT_DST_LLI_WORD1 n c) in *.
  unfold complete_dma_transfer, hash_dma_input. rewrite (ar_engine _ _ _ (cp_ready _ _ _ H1)).
  change (negb (CC3XX_ENGINE_AES =? CC3XX_ENGINE_HASH)) with true. cbn [orb].
  change (aes_dma_output (Some mif) DOUT_DST_LLI_WORD1 c1 m) with (c1, m). cbv iota beta.
  unfold cmac_dma_input. change (negb (DOUT_DST_LLI_WORD1 =? DIN_SRC_LLI_WORD1)) with true. rewrite orb_true_r.
  eexists. split; [reflexivity|]. split; [|split].
  - cipher_stores.
  - rewrite !load_store32_ne by (first [left; by vm_compute|right; by vm_compute]). unfold c1. rewrite load_store32_ne by (left; by vm_compute). done.
  - rewrite !load_store32_ne by (first [left; by vm_compute|right; by vm_compute]). apply load_store32.
Qed.

Lemma output_trigger key ctr d n c m : good m -> key_ok key -> ciphering key ctr c -> is_u32 n -> core_load32 DOUT_DST_LLI_WORD0 c = d ->
  exists c' m', host_write DOUT_DST_LLI_WORD1 n (c, m) = (c', m') /\ ciphering key ctr c' /\
    core_load32 DOUT_DST_LLI_WORD0 c' = d /\ core_load32 DOUT_DST_LLI_WORD1 c' = n /\ same_view view good m m'.
Proof using Hwriter.
  intros Hg Hk Hc Rn Hd. destruct (Hwriter DOUT_DST_LLI_WORD1 n c m) as (c0 & c' & m0 & S0 & V & -> & S'); [done..|].
  change (core_write32 (Some mif) DOUT_DST_LLI_WORD1 n c0 m0)
    with (complete_dma_transfer (Some mif) DOUT_DST_LLI_WORD1 (core_store32 DOUT_DST_LLI_WORD1 n c0) m0) in *.
  destruct (idle_trigger key ctr n c0 m0 Hk (ciphering_same _ _ _ _ S0 Hc)) as (c1 & E & H1 & D1 & N1).
  rewrite E in S' |- *. cbn [fst snd] in *. exists c', m0. split; [done|]. split; [by apply (ciphering_same _ _ c1)|].
  split; [by rewrite (same_load _ _ _ S'), D1, (same_load _ _ _ S0)|]. split; [|done].
  rewrite (same_load _ _ _ S'), N1. by apply wrap_small.
Qed.

Lemma cipher_segment_spec key ctr s d n c m : good m -> key_ok key -> 0 <= ctr -> ciphering key ctr c -> transfer_ok (s, d, n) ->
  exists c' m', cipher_segment (s, d, n) (c, m) = (c', m') /\
    ciphering key (ctr + ctr_blocks 0 n) c' /\ advanced (view := view) (good := good) key s d n ctr m m'.
Proof using Hlaw Hwriter.
  intros Hg Hk Hctr Hc (Hs & Hd & Hap). pose proof Hs as (Rs & Rn & _). pose proof Hd as (Rd & _). unfold cipher_segment.
  destruct (write_plain Hwriter DOUT_DST_LLI_WORD0 d c m) as (c1 & m1 & -> & S1 & V1); [done..|].
  pose proof (ciphering_same _ _ _ _ S1 (ciphering_store key ctr DOUT_DST_LLI_WORD0 d c Hk ltac:(by vm_compute) ltac:(by split; [|by right]) Hc)) as H1.
  assert (core_load32 DOUT_DST_LLI_WORD0 c1 = d) as D1 by (rewrite (same_load _ _ _ S1), load_store32; by apply wrap_small).
  destruct (output_trigger key ctr d n c1 m1) as (c2 & m2 & -> & H2 & D2 & N2 & V2); [apply V1|done..|].
  destruct (write_plain Hwriter DIN_SRC_LLI_WORD0 s c2 m2) as (c3 & m3 & -> & S3 & V3); [done|apply V2|done..|].
  pose proof (ciphering_same _ _ _ _ S3 (ciphering_store key ctr DIN_SRC_LLI_WORD0 s c2 Hk ltac:(by vm_compute) ltac:(by split; [|by right]) H2)) as H3.
  destruct (Hwriter DIN_SRC_LLI_WORD1 n c3 m3) as (c3' & c4 & m4 & T4 & V4 & -> & S4); [apply V3|done..|].
  change (core_write32 (Some mif) DIN_SRC_LLI_WORD1 n c3' m4)
    with (complete_dma_transfer (Some mif) DIN_SRC_LLI_WORD1 (core_store32 DIN_SRC_LLI_WORD1 n c3') m4) in *.
  assert (forall off, off + 4 <= DIN_SRC_LLI_WORD1 \/ DIN_SRC_LLI_WORD1 + 4 <= off ->
    core_load32 off (core_store32 DIN_SRC_LLI_WORD1 n c3') = core_load32 off (core_store32 DIN_SRC_LLI_WORD0 s c2)) as Hl.
  { intros off Hoff. by rewrite load_store32_ne, (same_load _ _ _ T4), (same_load _ _ _ S3). }
  destruct (cipher_transfer Hlaw key ctr s d n (core_store32 DIN_SRC_LLI_WORD1 n c3') m4) as (c5 & m5 & E5 & H5 & V5 & G5); try done.
  - apply V4.
  - apply ciphering_store; [done|by vm_compute|by split; [|by right]|]. by apply (ciphering_same _ _ _ _ T4).
  - rewrite Hl by (left; by vm_compute). rewrite load_store32. by apply wrap_small.
  - rewrite load_store32. by apply wrap_small.
  - rewrite Hl by (right; by vm_compute). rewrite load_store32_ne by (right; by vm_compute). done.
  - rewrite Hl by (right; by vm_compute). rewrite load_store32_ne by (right; by vm_compute). done.
  - rewrite E5 in S4 |- *. cbn [fst snd] in *. exists c4, m5. split; [done|]. split; [by apply (ciphering_same _ _ _ _ S4)|].
    split; [|done]. rewrite V5. assert (view m4 ≈ view m) as Hv; [|by rewrite Hv].
    by rewrite (proj1 V4), (proj1 V3), (proj1 V2), (proj1 V1).
Qed.

(** A run of segments enciphers them one after the other, with one key stream. *)
Lemma cipher_run_spec key ctr segments c m : good m -> key_ok key -> 0 <= ctr -> key_loaded key c -> Forall transfer_ok segments ->
  exists c' m', cipher_run (vec_size key) ctr segments (c, m) = (c', m') /\ view m' ≈ ciphered key ctr segments (view m) /\ good m'.
Proof using Hlaw Hwriter.
  intros Hg Hk Hctr Hl Hs. unfold cipher_run. destruct (cipher_started key ctr c m Hg Hk Hl) as (c0 & m0 & -> & H0 & V0 & G0).
  enough (exists c' m', foldl (fun cm segment => cipher_segment segment cm) (c0, m0) segments = (c', m') /\
    view m' ≈ ciphered key ctr segments (view m0) /\ good m') as (c' & m' & E & V & G).
  { exists c', m'. split; [done|]. split; [|done]. by rewrite V, V0. }
  clear c Hl V0 m Hg. revert ctr Hctr c0 m0 H0 G0.
  induction Hs as [|[[s d] n] segments Hseg _ IH]; intros ctr Hctr c m Hc Hg; [by exists c, m|]. cbn [foldl ciphered].
  destruct (cipher_segment_spec key ctr s d n c m Hg Hk Hctr Hc Hseg) as (c1 & m1 & -> & H1 & V1 & G1).
  assert (0 <= n) as Hn by apply Hseg.
  destruct (IH (ctr + ctr_blocks 0 n)) with (c0 := c1) (m0 := m1) as (c' & m' & -> & V' & G'); [|done|done|].
  { pose proof (ctr_blocks_nonneg n Hn). lia. }
  exists c', m'. split; [done|]. split; [|done]. by rewrite V', V1.
Qed.

Lemma cipher_driver_spec key ctr segments c m : good m -> key_ok key -> 0 <= ctr -> Forall transfer_ok segments ->
  exists c' m', cipher_driver key ctr segments (c, m) = (c', m') /\ view m' ≈ ciphered key ctr segments (view m) /\ good m'.
Proof using Hlaw Hwriter.
  intros Hg Hk Hctr Hs. unfold cipher_driver. destruct (load_key key c m Hg Hk) as (c0 & m0 & -> & H0 & V0 & G0).
  destruct (cipher_run_spec key ctr segments c0 m0 G0 Hk Hctr H0 Hs) as (c' & m' & -> & V & G). exists c', m'.
  split; [done|]. split; [|done]. by rewrite V, V0.
Qed.
End driver.
