(* ===== verification/CmacDma.v ===== *)
(** The cipher engine authenticates messages: the bytes its transfers read from
    memory, however the message is cut, get their CMAC in the tag registers. *)

From S2P Require Import Prelude Bytes Vectors Tlm Memory Sha256 Cc3xxState Cc3xxPka Cc3xxAes AesCorrect AesCtr AesCmac Cc3xxCore Cc3xxDriver HashDma AesDma.

(** The engine is set up for authentication, and has taken the bytes [l]. *)
Record authenticating (key l : list Z) (c : core) : Prop := Authenticating {
  au_ready : aes_ready key CC3XX_AES_MODE_CMAC c;
  au_active : m_cmac_active c = true;
  au_data : m_cmac_data c = l
}.

Lemma authenticating_same key l c c' : same_state c c' -> authenticating key l c -> authenticating key l c'.
Proof.
  intros S [H1 H2 H3]. split; [by apply (ready_same _ _ c)|by rewrite (ss_cmac_active _ _ S)|by rewrite (ss_cmac_data _ _ S)].
Qed.

Lemma authenticating_store key l off v c : key_ok key -> cipher_free off 4 -> authenticating key l c -> authenticating key l (core_store32 off v c).
Proof. intros Hk Hoff [H1 H2 H3]. split; [by apply ready_store|done|done]. Qed.

Section transfers.
Context {M : Type} {mif : memory_if M} {view : M -> mem} {good : M -> Prop} {serves : Z -> Prop}.
Hypothesis Hlaw : memory_law mif view good serves.

(** The fuel, one turn per chunk, is enough. *)
Lemma cmac_chunks_spec fuel key chunk a n l c m : good m -> authenticating key l c -> vec_size chunk = DMA_CHUNK_BYTES ->
  0 <= a -> 0 <= n -> a + n < 2 ^ 64 -> n <= Z.of_nat fuel * DMA_CHUNK_BYTES -> (forall k, 0 <= k < n -> serves (a + k)) ->
  exists c' m', cmac_chunks (Some mif) fuel chunk a n c m = (c', m') /\
    authenticating key (l ++ mem_read (view m) a n) c' /\ same_view view good m m'.
Proof using Hlaw.
  unfold DMA_CHUNK_BYTES. revert chunk a n l c m. induction fuel as [|fuel IH]; intros chunk a n l c m Hg Hl Hc Ha Hn Hlt Hf Hs.
  { assert (n = 0) as -> by lia. exists c, m. change (mem_read (view m) a 0) with (@nil Z). by rewrite app_nil_r. }
  cbn [cmac_chunks]. destruct (Z.eqb_spec n 0) as [->|Hne].
  { exists c, m. change (mem_read (view m) a 0) with (@nil Z). by rewrite app_nil_r. }
  rewrite Hc. set (len := Z.min n 1024). assert (0 < len <= n /\ len <= 1024) as Hlen by lia.
  assert (vec_size (take (Z.to_nat len) chunk) = len) as Htk by (apply sha_size_take; lia).
  destruct (core_read_served Hlaw a (take (Z.to_nat len) chunk) (count1 cmac_dma_chunks c) m) as (c1 & m1 & -> & S1 & V1).
  { done. } { done. } { lia. } { intros k Hk. apply Hs. lia. }
  rewrite Htk. set (data := mem_read (view m) a len). cbn [negb].
  pose proof (mem_read_length (view m) a len ltac:(lia)) as Hdl. fold data in Hdl.
  assert (authenticating key l c1) as [H1 H2 H3] by
    (apply (authenticating_same _ _ c); [transitivity (count1 cmac_dma_chunks c); [by split|done]|done]).
  rewrite (wrap_small 64 (a + len)) by (split; lia).
  destruct (IH (splice 0 data chunk) (a + len) (n - len) (l ++ data) (c1 <| m_cmac_data ::= fun d => d ++ data |>) m1)
    as (c' & m' & -> & H' & V').
  { apply V1. } { split; [by destruct H1|done|]. cbn [m_cmac_data set_field]. by rewrite H3. }
  { rewrite splice_size; [done|done|]. unfold vec_size in *. lia. }
  { lia. } { lia. } { lia. } { lia. } { intros k Hk. rewrite <-Z.add_assoc. apply Hs. lia. }
  exists c', m'. split; [done|]. split; [|by apply (same_view_trans m m1)].
  rewrite (proj1 V1), <-app_assoc in H'. unfold data in H'. rewrite <-mem_read_app in H' by lia.
  by replace (len + (n - len)) with n in H' by lia.
Qed.

(** The output side, and the other engines, move nothing. *)
Lemma cmac_no_output key l c m : key_ok key -> authenticating key l c -> exists c',
  aes_dma_output (Some mif) DIN_SRC_LLI_WORD1 c m = (c', m) /\ same_state c c'.
Proof using.
  intros Hk [Hr _ _]. unfold aes_dma_output, aes_engine_selected. rewrite (ar_engine _ _ _ Hr).
  cbn [Z.eqb Pos.eqb DIN_SRC_LLI_WORD1 CC3XX_ENGINE_AES orb negb]. destruct (_ =? 0); [by exists c|].
  set (c0 := count1 aes_dma_triggers c). assert (aes_ready key CC3XX_AES_MODE_CMAC c0) as H0 by (by destruct Hr).
  destruct (ready_modes key _ c0 Hk ltac:(by right) H0) as (_ & -> & _). by exists c0.
Qed.

Lemma cmac_transfer key a n l c m : good m -> key_ok key -> authenticating key l c -> served (serves := serves) a n ->
  core_load32 DIN_SRC_LLI_WORD0 c = a -> core_load32 DIN_SRC_LLI_WORD1 c = n ->
  exists c' m', complete_dma_transfer (Some mif) DIN_SRC_LLI_WORD1 c m = (c', m') /\
    authenticating key (l ++ mem_read (view m) a n) c' /\ same_view view good m m'.
Proof using Hlaw.
  intros Hg Hk Hc (Ra & Rn & Hs) Ea En. unfold complete_dma_transfer, hash_dma_input. rewrite (ar_engine _ _ _ (au_ready _ _ _ Hc)).
  change (negb (CC3XX_ENGINE_AES =? CC3XX_ENGINE_HASH)) with true. cbn [orb].
  destruct (cmac_no_output key l c m Hk Hc) as (c1 & -> & S1). pose proof (authenticating_same _ _ _ _ S1 Hc) as H1.
  unfold cmac_dma_input. rewrite (au_active _ _ _ H1), (ar_engine _ _ _ (au_ready _ _ _ H1)).
  destruct (ready_modes key _ c1 Hk ltac:(by right) (au_ready _ _ _ H1)) as (_ & -> & _).
  cbn [negb orb Z.eqb Pos.eqb CC3XX_ENGINE_AES CC3XX_AES_MODE_CMAC DIN_SRC_LLI_WORD1].
  change 0xc2c with DIN_SRC_LLI_WORD1. rewrite !(same_load _ _ _ S1), Ea, En. unfold is_u32, is_uint in *.
  destruct (cmac_chunks_spec (chunk_fuel n) key (replicate (Z.to_nat DMA_CHUNK_BYTES) 0) a n l (count cmac_dma_bytes n (count1 cmac_dma_triggers c1)) m)
    as (c2 & m2 & -> & H2 & V2); try done; try lia.
  { by apply (authenticating_same _ _ c1). }
  { unfold chunk_fuel, DMA_CHUNK_BYTES. pose proof (Z.div_mod n 1024 ltac:(lia)). pose proof (Z.mod_pos_bound n 1024 ltac:(lia)). lia. }
  eexists _, m2. split; [reflexivity|]. split; [|done].
  repeat (apply authenticating_store; [done|by split; [|by right]|]). done.
Qed.

(** The tag, after the message. *)
Lemma cmac_finished key l c : key_ok key -> bytes_ok l -> authenticating key l c ->
  mem_read (m_regs (cmac_finish c)) AES_IV_0 16 = CMAC key l.
Proof using.
  intros Hk Hl [Hr Ha Hd]. unfold cmac_finish. rewrite Ha. destruct (ready_modes key _ c Hk ltac:(by right) Hr) as (E & -> & _).
  change (negb (CC3XX_AES_MODE_CMAC =? CC3XX_AES_MODE_CMAC)) with false. cbn [negb orb].
  set (c0 := count1 cmac_finishes c). assert (aes_ready key CC3XX_AES_MODE_CMAC c0) as H0 by (by destruct Hr).
  assert (aes_key_size_bytes c0 = vec_size key) as -> by exact E. rewrite (ready_key _ _ _ H0).
  change (m_cmac_data c0) with (m_cmac_data c). rewrite Hd, aes_cmac_spec by done.
  destruct (CMAC_ok key l Hk Hl) as [Hlen _]. unfold core_store32, store32. cbn [m_regs set_field].
  rewrite mem_read_write_ne by (left; by vm_compute). apply mem_read_write_eq. lia.
Qed.
End transfers.

(** * Driving the engine *)

Section driver.
Context {M : Type} {mif : memory_if M} {view : M -> mem} {good : M -> Prop} {serves : Z -> Prop}.
Hypothesis Hlaw : memory_law mif view good serves.
Context (host_write : Z -> Z -> core * M -> core * M) (Hwriter : host_writer mif view good host_write).

Definition cmac_run (key_len : Z) (segments : list (Z * Z)) (cm : core * M) : core * M :=
  let cm := host_write AES_CMAC_INIT 1 (aes_start host_write CC3XX_AES_MODE_CMAC key_len cm) in
  let cm := foldl (fun cm segment => hash_segment host_write segment cm) cm segments in
  host_write AES_REMAINING_BYTES 0 cm.

Definition cmac_driver (key : list Z) (segments : list (Z * Z)) (cm : core * M) : core * M :=
  cmac_run (vec_size key) segments (write_words host_write AES_KEY_0 key cm).

Lemma cmac_started key c m : good m -> key_ok key -> key_loaded key c -> exists c' m',
  host_write AES_CMAC_INIT 1 (aes_start host_write CC3XX_AES_MODE_CMAC (vec_size key) (c, m)) = (c', m') /\
  authenticating key [] c' /\ same_view view good m m'.
Proof using Hwriter.
  intros Hg Hk Hl. destruct (aes_started host_write Hwriter key CC3XX_AES_MODE_CMAC c m Hg Hk ltac:(by right) Hl) as (c1 & m1 & -> & H1 & V1).
  destruct (Hwriter AES_CMAC_INIT 1 c1 m1) as (c1' & c2 & m2 & T2 & V2 & -> & S2); [apply V1|done..|].
  change (core_write32 (Some mif) AES_CMAC_INIT 1 c1' m2) with (cmac_reset (core_store32 AES_CMAC_INIT 1 c1'), m2) in *.
  cbn [fst snd] in *. exists c2, m2. split; [done|]. split; [|by eapply same_view_trans].
  apply (authenticating_same _ _ _ _ S2). split; [|done|done].
  pose proof (ready_store key _ AES_CMAC_INIT 1 c1' Hk ltac:(by split; [|by left]) (ready_same _ _ _ _ T2 H1)) as [R1 R2 R3]. by split.
Qed.

Lemma cmac_segment_spec key a n l c m : good m -> key_ok key -> authenticating key l c -> served (serves := serves) a n ->
  exists c' m', hash_segment host_write (a, n) (c, m) = (c', m') /\
    authenticating key (l ++ mem_read (view m) a n) c' /\ same_view view good m m'.
Proof using Hlaw Hwriter.
  intros Hg Hk Hc Hs. pose proof Hs as (Ra & Rn & _). unfold hash_segment.
  destruct (write_plain Hwriter DIN_SRC_LLI_WORD0 a c m) as (c1 & m1 & -> & S1 & V1); [done..|].
  destruct (Hwriter DIN_SRC_LLI_WORD1 n c1 m1) as (c1' & c2 & m2 & T2 & V2 & -> & S2); [apply V1|done..|].
  change (core_write32 (Some mif) DIN_SRC_LLI_WORD1 n c1' m2)
    with (complete_dma_transfer (Some mif) DIN_SRC_LLI_WORD1 (core_store32 DIN_SRC_LLI_WORD1 n c1') m2) in *.
  assert (view m2 ≈ view m) as Hv by (by rewrite (proj1 V2), (proj1 V1)).
  destruct (cmac_transfer Hlaw key a n l (core_store32 DIN_SRC_LLI_WORD1 n c1') m2) as (c3 & m3 & E3 & H3 & V3); try done.
  - apply V2.
  - apply authenticating_store; [done|by split; [|by right]|]. apply (authenticating_same _ _ _ _ T2), (authenticating_same _ _ _ _ S1).
    apply authenticating_store; [done|by split; [|by right]|done].
  - rewrite load_store32_ne by (left; by vm_compute). rewrite (same_load _ _ _ T2), (same_load _ _ _ S1), load_store32. by apply wrap_small.
  - rewrite load_store32. by apply wrap_small.
  - rewrite E3 in S2 |- *. cbn [fst snd] in *. exists c2, m3. split; [done|]. rewrite Hv in H3. split; [by apply (authenticating_same _ _ c3)|].
    apply (same_view_trans m m2); [|done]. by split; [|apply V2].
Qed.

(** Driven so, the engine leaves the code of the message in its tag registers. *)
Lemma cmac_run_spec key segments c m : good m -> key_ok key -> key_loaded key c -> Forall (segment_ok serves) segments ->
  bytes_ok (segments_data (view m) segments) ->
  exists c' m', cmac_run (vec_size key) segments (c, m) = (c', m') /\
    mem_read (m_regs c') AES_IV_0 16 = CMAC key (segments_data (view m) segments) /\ same_view view good m m'.
Proof using Hlaw Hwriter.
  intros Hg Hk Hl Hs Hb. unfold cmac_run. destruct (cmac_started key c m Hg Hk Hl) as (c1 & m1 & -> & H1 & V1).
  enough (exists c2 m2, foldl (fun cm segment => hash_segment host_write segment cm) (c1, m1) segments = (c2, m2) /\
    authenticating key (segments_data (view m) segments) c2 /\ same_view view good m m2) as (c2 & m2 & -> & H2 & V2).
  { destruct (Hwriter AES_REMAINING_BYTES 0 c2 m2) as (c2' & c3 & m3 & T3 & V3 & -> & S3); [apply V2|done..|].
    change (core_write32 (Some mif) AES_REMAINING_BYTES 0 c2' m3) with (cmac_finish (core_store32 AES_REMAINING_BYTES 0 c2'), m3) in *.
    cbn [fst snd] in *. exists c3, m3. split; [done|]. split; [|by apply (same_view_trans m m2)].
    rewrite (ss_regs _ _ S3). apply cmac_finished; [done|done|].
    apply authenticating_store; [done|by split; [|by left]|]. by apply (authenticating_same _ _ c2). }
  change (segments_data (view m) segments) with ([] ++ segments_data (view m) segments). clear Hb Hl Hg c.
  revert H1 V1. generalize (@nil Z) as l. revert c1 m1. induction Hs as [|[a n] segments Hseg _ IH]; intros c1 m1 l H1 V1.
  { exists c1, m1. unfold segments_data. cbn [map concat]. by rewrite app_nil_r. }
  cbn [foldl]. destruct (cmac_segment_spec key a n l c1 m1) as (c2 & m2 & -> & H2 & V2); [apply V1|done|done|done|].
  destruct (IH c2 m2 _ H2) as (c' & m' & -> & H' & V'); [by apply (same_view_trans m m1)|].
  exists c', m'. split; [done|]. split; [|done]. rewrite (proj1 V1), <-app_assoc in H'. exact H'.
Qed.
End driver.
