(* ===== verification/Cc3xx.v ===== *)
(** The accelerator on the bus (systemc-components/cc3xx/include/cc3xx.h): its
    target socket over the core of Cc3xxCore, and the initiator socket the core's
    transfers go through, which discharges what the hash engine asks of a memory. *)

From stdpp Require Import strings.
From S2P Require Import Prelude Bytes Vectors Tlm Memory Sha256 Cc3xxState Cc3xxPka Cc3xxAes AesCtr AesCmac Cc3xxCore Cc3xxDriver HashDma AesDma CmacDma.

(** [cc3xx.h: "cci::cci_param<bool> p_trace;" .. "cci::cci_param<unsigned int> p_stats_interval;"] *)
Record cc3xx_params := Cc3xxParams {
  p_trace : bool;
  p_trace_limit : Z;
  p_trace_skip : Z;
  p_trace_filter : string;
  p_trace_address_min : Z;
  p_stats_file : string;
  p_stats_interval : Z
}.

(** The value of the variable, when it is set. *)
(** [cc3xx.h: env_flag_enabled] *)
Definition env_flag_enabled (value : option string) : bool :=
  match value with
  | None => false
  | Some text =>
      if String.eqb text "" then false
      else negb (String.eqb text "0") && negb (String.eqb text "false") && negb (String.eqb text "FALSE")
  end.

Section cc3xx.
Context {B : Type} {bus : TlmTarget B}.
(** Whether something is bound to the initiator socket. *)
Context (bound : bool) (p : cc3xx_params).

(** * The initiator *)

(** [cc3xx.h: memory_access] *)
Definition memory_access (cmd : tlm_command) (addr : Z) (data : list Z) (len : Z) (b : B) : B * list Z * bool :=
  if negb bound then (b, data, false)
  else
    let '(b, trans) := target_b_transport tlm_access b (Payload cmd addr (Some data) len TLM_INCOMPLETE_RESPONSE false) in
    (b, default data (data_ptr trans), is_response_ok trans).

(** [cc3xx.h: "struct systemc_memory_if" .. "};"] *)
Definition systemc_memory_if : memory_if B :=
  MemoryIf B (fun b addr data => memory_access TLM_READ_COMMAND addr data (vec_size data) b)
    (fun b addr data => let '(b, _, ok) := memory_access TLM_WRITE_COMMAND addr data (vec_size data) b in (b, ok)).

(** * The target *)

(** [cc3xx.h: sync_core_config] *)
Definition sync_core_config (c : core) : core :=
  let trace := MkTraceConfig (p_trace p) (p_trace_limit p) (p_trace_skip p) (p_trace_filter p) (p_trace_address_min p) in
  let c := c <| m_trace_config := trace |> in
  c <| m_stats_interval := if String.eqb (p_stats_file p) "" then 0 else p_stats_interval p |>.

(** [cc3xx.h: map_status] *)
Definition map_status (status : access_status) (t : tlm_payload) : tlm_payload :=
  t <| response_status := match status with
                          | acc_ok => TLM_OK_RESPONSE
                          | acc_address_error => TLM_ADDRESS_ERROR_RESPONSE
                          | acc_command_error => TLM_COMMAND_ERROR_RESPONSE
                          end |>.

(** [cc3xx.h: "bool access(tlm::tlm_generic_payload& trans" .. "return result.status == core_type::access_status::ok;"] *)
Definition cc3xx_access (debug : bool) (s : core * B) (t : tlm_payload) : core * B * tlm_payload * bool :=
  let '(c, b) := s in
  let offset := address t in
  let len := data_length t in
  let c := sync_core_config c in
  let '(c, b, t, status) :=
    match Tlm.command t with
    | TLM_READ_COMMAND =>
        let '(c, data, (status, _)) := core_read offset (data_ptr t) len debug c in
        (c, b, t <| data_ptr := data |>, status)
    | TLM_WRITE_COMMAND =>
        let '(c, b, (status, _)) := core_write (Some systemc_memory_if) offset (data_ptr t) len debug c b in
        (c, b, t, status)
    | TLM_IGNORE_COMMAND => (c, b, t, acc_command_error)
    end in
  (c, b, map_status status t, match status with acc_ok => true | _ => false end).

(** Writing the statistics is left out: the file is not read back. *)
(** [cc3xx.h: doreset] *)
Definition cc3xx_doreset (value : bool) (s : core * B) : core * B :=
  let '(c, b) := s in if value then (core_reset true c, b) else s.

(** [cc3xx.h: "void b_transport(tlm::tlm_generic_payload& trans" .. "}"] *)
Definition cc3xx_b_transport (s : core * B) (t : tlm_payload) : core * B * tlm_payload :=
  let '(s, t, _) := cc3xx_access false s (t <| dmi_allowed := false |>) in (s, t).

(** [cc3xx.h: "unsigned int transport_dbg(tlm::tlm_generic_payload& trans)" .. "return access(trans, delay, true)"] *)
Definition cc3xx_transport_dbg (s : core * B) (t : tlm_payload) : core * B * tlm_payload * Z :=
  let '(s, t, ok) := cc3xx_access true s t in (s, t, if ok then data_length t else 0).

(** * Status *)

(** The result is what the response status says, on the socket as for debuggers. *)
Lemma cc3xx_status debug s t s' t' ok : cc3xx_access debug s t = (s', t', ok) ->
  is_response_ok t' = ok /\ address t' = address t /\ data_length t' = data_length t.
Proof.
  unfold cc3xx_access. destruct s as [c b]. cbv zeta. destruct (Tlm.command t).
  - destruct (core_read _ _ _ _ _) as [[c' data] [status n]]. intros [= <- <- <-]. by destruct status.
  - destruct (core_write _ _ _ _ _ _ _) as [[c' b'] [status n]]. intros [= <- <- <-]. by destruct status.
  - intros [= <- <- <-]. done.
Qed.

(** The bound check adds in 64 bits: a transfer that starts just below the end of
    the address space passes it, and the copy starts far outside the registers. *)
Lemma cc3xx_bounds_check_wraps debug c data :
  snd (core_read (2 ^ 64 - 4) (Some data) 8 debug c) = (acc_ok, 8).
Proof.
  unfold core_read. change (is_supported_length 8) with true. change (REG_BYTES <? u64 (2 ^ 64 - 4 + 8)) with false.
  cbn [negb orb]. match goal with |- context [let '(_, _) := ?x in _] => by destruct x end.
Qed.
End cc3xx.

(** * Transfers over a memory bus *)

Section hash.
Context {B : Type} {bus : TlmTarget B} {membus : MemoryBus B} (p : cc3xx_params).

(** What the hash engine asks of a memory, a bus promises. *)
Lemma systemc_memory_law : memory_law (systemc_memory_if true) bus_view (fun _ => True) bus_serves.
Proof.
  split; intros b a buf _ _ H0 Hs; cbn [if_read if_write systemc_memory_if memory_access negb].
  - pose proof (bus_read b a (vec_size buf) buf ltac:(unfold vec_size in *; lia) Hs) as Hr. unfold read_request in Hr.
    destruct (target_b_transport _ _ _) as [b' t']. destruct Hr as (Hok & Hv & Hd). rewrite Hd, Hok. cbn [default].
    split; [done|]. split; [|by split]. unfold put_data. rewrite drop_ge; [by rewrite app_nil_r|].
    pose proof (mem_read_length (bus_view b) a (vec_size buf) ltac:(lia)). unfold vec_size in *. lia.
  - pose proof (bus_write b a (vec_size buf) buf ltac:(unfold vec_size in *; lia) Hs) as Hw. unfold write_request in Hw.
    destruct (target_b_transport _ _ _) as [b' t']. destruct Hw as [Hok Hv]. split; [done|]. split; [|done].
    rewrite Hv. unfold get_data. rewrite take_ge by (unfold vec_size; lia). done.
Qed.

(** A register written, and read, by a transaction on the target socket. *)
Definition host_write (off v : Z) (s : core * B) : core * B := fst (cc3xx_b_transport true p s (write_txn off v)).

Definition host_read (off : Z) (s : core * B) : Z :=
  le_val (default [] (data_ptr (snd (cc3xx_b_transport true p s (read_txn off 4))))).

Lemma host_write_eq off v c b : True -> is_u32 off -> off mod 4 = 0 -> off + 4 <= REG_BYTES -> is_u32 v ->
  exists c0 c' b0, same_state c c0 /\ same_view bus_view (fun _ => True) b b0 /\
    host_write off v (c, b) = (c', snd (core_write32 (Some (systemc_memory_if true)) off v c0 b0)) /\
    same_state (fst (core_write32 (Some (systemc_memory_if true)) off v c0 b0)) c'.
Proof.
  intros _ Ho Ha Hr Hv. exists (sync_core_config p c). unfold host_write, cc3xx_b_transport, cc3xx_access.
  cbn [Tlm.command address data_ptr data_length write_txn write_bytes_txn set_field].
  rewrite le_bytes_length. change (Z.of_nat 4) with 4.
  destruct (core_write_one (systemc_memory_if true) off v (le_bytes 4 v) false (sync_core_config p c) b Ho Ha Hr Hv)
    as (c' & -> & Hc); [unfold get_data; by rewrite take_ge by (by rewrite le_bytes_length)|].
  exists c', b. split; [by split|]. split; [by split|]. by split.
Qed.

(** Reading a register. *)
Lemma host_read_register off c b : 0 <= off -> off + 4 <= REG_BYTES -> off <> PKA_SRAM_RDATA ->
  host_read off (c, b) = core_load32 off c.
Proof.
  intros Ho Hr Hne. unfold host_read, cc3xx_b_transport, cc3xx_access.
  cbn [Tlm.command address data_ptr data_length read_txn set_field]. change (Z.of_nat 4) with 4.
  destruct (core_read_register off (replicate 4 0) false (sync_core_config p c) Ho Hr Hne) as [Hd _].
  destruct (core_read _ _ _ _ _) as [[c' data] [status n]]. cbn [fst snd] in Hd. subst data.
  cbn [fst snd data_ptr map_status set_field default]. unfold put_data.
  pose proof (mem_read_length (m_regs c) off 4 ltac:(lia)) as Hl.
  rewrite drop_ge by (rewrite length_replicate; cbn [m_regs sync_core_config set_field]; lia). by rewrite app_nil_r.
Qed.

(** The digest as firmware reads it. *)
Definition host_digest (s : core * B) : list Z := concat (map (fun i => be_bytes 4 (host_read (HASH_H + i * 4) s)) (range 8)).

(** C3. Driven over its target socket as firmware drives it - select SHA-256 and the
    hash engine, hand over the message as any number of memory segments of any
    lengths, request padding - the accelerator fetches the message over its initiator
    socket and the digest registers read back are the SHA-256 digest of the
    concatenated segments, whatever the state it was in; the memory is not changed.
    Segments, chunks of the transfers and blocks may straddle one another. *)
Theorem cc3xx_hash_digest segments c b :
  Forall (segment_ok bus_serves) segments -> vec_size (segments_data (bus_view b) segments) * 8 < 2 ^ 64 ->
  let s := hash_driver host_write segments (c, b) in
  host_digest s = SHA256 (segments_data (bus_view b) segments) /\ bus_view (snd s) ≈ bus_view b.
Proof.
  intros Hs Hl. destruct (hash_driver_digest (systemc_memory_if true) bus_view (fun _ => True) bus_serves systemc_memory_law
    host_write host_write_eq segments c b I Hs Hl) as (c' & b' & -> & <- & Hv & _).
  split; [|done]. unfold host_digest, digest_registers. apply (f_equal (@concat Z)), map_ext_in.
  intros i Hi%list_elem_of_In%elem_of_range. by rewrite host_read_register by (unfold HASH_H, REG_BYTES, PKA_SRAM_RDATA; lia).
Qed.

(** C11. Driven over its target socket - key, key size and first counter loaded, the
    cipher selected, then any number of memory segments handed over, each with a
    source, a destination and a size of any length - the accelerator leaves in memory
    what AES in counter mode makes of the segments, one after the other, with a key
    stream that goes on from segment to segment; nothing else in memory changes.
    Segments may be worked on in place, and a destination may overlap its source from
    below. *)
Theorem cc3xx_ctr_transfers key ctr segments c b :
  key_ok key -> 0 <= ctr -> Forall (transfer_ok (serves := bus_serves)) segments ->
  bus_view (snd (cipher_driver host_write key ctr segments (c, b))) ≈ ciphered key ctr segments (bus_view b).
Proof.
  intros Hk Hctr Hs. destruct (cipher_driver_spec systemc_memory_law host_write host_write_eq key ctr segments c b I Hk Hctr Hs)
    as (c' & b' & -> & Hv & _). exact Hv.
Qed.

(** The tag as firmware reads it. *)
Definition host_tag (s : core * B) : list Z := concat (map (fun i => le_bytes 4 (host_read (AES_IV_0 + i * 4) s)) (range 4)).

Lemma host_tag_regs c b tag : mem_read (m_regs c) AES_IV_0 16 = tag -> bytes_ok tag -> host_tag (c, b) = tag.
Proof.
  intros Ht Hb. unfold host_tag. change (range 4) with [0; 1; 2; 3]. cbn [map concat].
  rewrite !host_read_register by (unfold AES_IV_0, REG_BYTES, PKA_SRAM_RDATA; lia). unfold core_load32, load32.
  subst tag. change 16 with (4 + (4 + (4 + 4))) in *. rewrite !mem_read_app in * by lia. unfold bytes_ok in Hb. rewrite !Forall_app in Hb.
  destruct Hb as (B0 & B1 & B2 & B3). rewrite app_nil_r.
  repeat apply f_equal2; [exact (le_bytes_val _ 4 B0 eq_refl)|exact (le_bytes_val _ 4 B1 eq_refl)|exact (le_bytes_val _ 4 B2 eq_refl)|
    exact (le_bytes_val _ 4 B3 eq_refl)].
Qed.

(** C10. Driven over its target socket - key, mode and engine set up, the code started,
    the message handed over as any number of memory segments of any lengths, the end
    announced - the accelerator leaves in its tag registers the CMAC of the message:
    padded, its last block masked with the subkey its length calls for, and chained
    through the cipher, as the standard defines it.  The memory is not changed. *)
Theorem cc3xx_cmac key segments c b :
  key_ok key -> Forall (segment_ok bus_serves) segments -> bytes_ok (segments_data (bus_view b) segments) ->
  let s := cmac_driver host_write key segments (c, b) in
  host_tag s = CMAC key (segments_data (bus_view b) segments) /\ bus_view (snd s) ≈ bus_view b.
Proof.
  intros Hk Hs Hb. unfold cmac_driver. destruct (load_key host_write host_write_eq key c b I Hk) as (c1 & b1 & -> & H1 & V1).
  rewrite <-(segments_data_view _ _ segments (proj1 V1)) in Hb |- *.
  destruct (cmac_run_spec systemc_memory_law host_write host_write_eq key segments c1 b1 I Hk H1 Hs Hb) as (c2 & b2 & -> & Ht & V2).
  split; [apply host_tag_regs; [exact Ht|by apply CMAC_ok]|]. cbn [snd]. by rewrite (proj1 V2), (proj1 V1).
Qed.
End hash.

Lemma cc3xx_hash_digest_witness :
  let p := Cc3xxParams false 64 0 "all" 0 "" 0 in
  let segments := [(0x100, 2); (0x102, 1)] in
  let m := mem_write 0x100 [97; 98; 99] ∅ in
  let s := hash_driver (host_write (bus := Memory.ram 0x1000) p) segments (new_core, m) in
  host_digest (bus := Memory.ram 0x1000) p s = SHA256 (segments_data (bus_view (MemoryBus := ram_bus 0x1000) m) segments) /\
  bus_view (MemoryBus := ram_bus 0x1000) (snd s) ≈ bus_view (MemoryBus := ram_bus 0x1000) m.
Proof.
  intros p segments m. assert (Forall (segment_ok (bus_serves (MemoryBus := ram_bus 0x1000))) segments) as Hs.
  { repeat (apply Forall_cons_2; [split_and!; try done; intros k Hk; cbn; lia|]). apply Forall_nil_2. }
  refine (cc3xx_hash_digest (membus := ram_bus 0x1000) p segments new_core m Hs _). by vm_compute.
Defined.

(** Sixteen bytes and twenty more, the second segment in place. *)
Lemma cc3xx_ctr_transfers_witness :
  let p := Cc3xxParams false 64 0 "all" 0 "" 0 in
  let segments := [(0x100, 0x200, 16); (0x110, 0x110, 20)] in
  let m := mem_write 0x100 (range 36) ∅ in
  let s := cipher_driver (host_write (bus := Memory.ram 0x1000) p) (range 16) 7 segments (new_core, m) in
  bus_view (MemoryBus := ram_bus 0x1000) (snd s) ≈ ciphered (range 16) 7 segments (bus_view (MemoryBus := ram_bus 0x1000) m).
Proof.
  intros p segments m. refine (cc3xx_ctr_transfers (membus := ram_bus 0x1000) p (range 16) 7 segments new_core m _ _ _).
  - split; [|rewrite elem_of_cons; by left]. apply Forall_forall. intros x Hx%elem_of_range. split; lia.
  - done.
  - repeat (apply Forall_cons_2; [split; [|split]; [split_and!; [done..|intros k Hk; cbn; lia]..|unfold apart; lia]|]). apply Forall_nil_2.
Defined.

(** A message of 20 bytes in two segments. *)
Lemma cc3xx_cmac_witness :
  let p := Cc3xxParams false 64 0 "all" 0 "" 0 in
  let segments := [(0x100, 3); (0x103, 17)] in
  let m := mem_write 0x100 (range 20) ∅ in
  let s := cmac_driver (host_write (bus := Memory.ram 0x1000) p) (range 16) segments (new_core, m) in
  host_tag (bus := Memory.ram 0x1000) p s = CMAC (range 16) (segments_data (bus_view (MemoryBus := ram_bus 0x1000) m) segments) /\
  bus_view (MemoryBus := ram_bus 0x1000) (snd s) ≈ bus_view (MemoryBus := ram_bus 0x1000) m.
Proof.
  intros p segments m. refine (cc3xx_cmac (membus := ram_bus 0x1000) p (range 16) segments new_core m _ _ _).
  - split; [|rewrite elem_of_cons; by left]. apply Forall_forall. intros x Hx%elem_of_range. split; lia.
  - repeat (apply Forall_cons_2; [split_and!; try done; intros k Hk; cbn; lia|]). apply Forall_nil_2.
  - apply Forall_forall. intros x Hx. assert (x ∈ range 20) as Hr%elem_of_range by exact Hx. split; lia.
Defined.
