(* ===== verification/PkaRun.v ===== *)
(** The public-key engine over whole runs of the accelerator: from its
    construction on, through resets, configuration and bus accesses of any
    registers and sizes, with any memory behind the transfers, the cached modulus
    is the modulus in memory and the opcodes compute on what is in memory, unless
    the run does one of the two things that the code does not guard against. *)

From S2P Require Import Prelude Bytes Vectors Tlm ModArith Sha256 Cc3xxState Cc3xxPka PkaArith PkaOps Cc3xxAes Cc3xxCore Cc3xxDriver Cc3xx.

(** * What the rest of the device leaves to the engine *)

(** The engine's memory, its cache, and the registers of the operands. *)
Record pka_frame (c c' : core) : Prop := PkaFrame {
  pf_sram : m_pka_sram c' = m_pka_sram c;
  pf_valid : m_pka_modulus_cache_valid c' = m_pka_modulus_cache_valid c;
  pf_words : m_pka_modulus_cache_words c' = m_pka_modulus_cache_words c;
  pf_value : m_pka_modulus_cache c' = m_pka_modulus_cache c;
  pf_bases i : i < PKA_BASES_END -> mem_get (m_regs c') i = mem_get (m_regs c) i
}.

#[export] Instance pka_frame_preorder : PreOrder pka_frame.
Proof.
  split; [by intros c|]. intros c c' c'' [H1 H2 H3 H4 H5] [G1 G2 G3 G4 G5].
  split; [congruence..|]. intros i Hi. by rewrite G5, H5.
Qed.

Lemma fr_write off bs c0 c : pka_frame c0 c -> PKA_BASES_END <= off -> pka_frame c0 (c <| m_regs ::= mem_write off bs |>).
Proof.
  intros Hf Hoff. etransitivity; [exact Hf|]. split; [done..|]. intros i Hi. apply mem_get_write_out. lia.
Qed.

Lemma fr_store off v c0 c : pka_frame c0 c -> PKA_BASES_END <= off -> pka_frame c0 (core_store32 off v c).
Proof. apply fr_write. Qed.

(** Other parts of the state do not matter. *)
Lemma fr_same c0 c c' : pka_frame c0 c -> m_regs c' = m_regs c -> m_pka_sram c' = m_pka_sram c ->
  m_pka_modulus_cache_valid c' = m_pka_modulus_cache_valid c -> m_pka_modulus_cache_words c' = m_pka_modulus_cache_words c ->
  m_pka_modulus_cache c' = m_pka_modulus_cache c -> pka_frame c0 c'.
Proof. intros Hf Hr. intros. etransitivity; [exact Hf|]. split; [done..|]. by rewrite Hr. Qed.

Section fields.
Context (c0 c : core).
Hypothesis Hf : pka_frame c0 c.

Lemma fr_count k n : pka_frame c0 (count k n c).
Proof. by apply (fr_same c0 c). Qed.
Lemma fr_sha256 g : pka_frame c0 (c <| m_sha256 ::= g |>).
Proof. by apply (fr_same c0 c). Qed.
Lemma fr_engine g : pka_frame c0 (c <| m_engine ::= g |>).
Proof. by apply (fr_same c0 c). Qed.
Lemma fr_cmac_data g : pka_frame c0 (c <| m_cmac_data ::= g |>).
Proof. by apply (fr_same c0 c). Qed.
Lemma fr_cmac_active g : pka_frame c0 (c <| m_cmac_active ::= g |>).
Proof. by apply (fr_same c0 c). Qed.
Lemma fr_write_addr g : pka_frame c0 (c <| m_pka_write_addr ::= g |>).
Proof. by apply (fr_same c0 c). Qed.
Lemma fr_read_addr g : pka_frame c0 (c <| m_pka_read_addr ::= g |>).
Proof. by apply (fr_same c0 c). Qed.
Lemma fr_trace_seen g : pka_frame c0 (c <| m_trace_seen_count ::= g |>).
Proof. by apply (fr_same c0 c). Qed.
Lemma fr_trace_count g : pka_frame c0 (c <| m_trace_count ::= g |>).
Proof. by apply (fr_same c0 c). Qed.
Lemma fr_trace_config g : pka_frame c0 (c <| m_trace_config ::= g |>).
Proof. by apply (fr_same c0 c). Qed.
Lemma fr_stats_interval g : pka_frame c0 (c <| m_stats_interval ::= g |>).
Proof. by apply (fr_same c0 c). Qed.
Lemma fr_flushed g : pka_frame c0 (c <| m_stats_flushed ::= g |>).
Proof. by apply (fr_same c0 c). Qed.
End fields.

Lemma phys_base_frame id c c' : pka_frame c c' -> pka_phys_reg_base id c' = pka_phys_reg_base id c.
Proof.
  intros Hf. unfold pka_phys_reg_base, core_load32, load32. case_if; [done|]. f_equal. apply mem_read_ext.
  intros k Hk. apply (pf_bases _ _ Hf). unfold PKA_BASES_END. lia.
Qed.

Lemma load_operand_frame imm id words sgn c c' : pka_frame c c' ->
  pka_load_operand imm id words sgn c' = pka_load_operand imm id words sgn c.
Proof.
  intros Hf. unfold pka_load_operand, pka_sram_read. by rewrite (phys_base_frame id c c' Hf), (pf_sram _ _ Hf).
Qed.

(** The invariant of the engine. *)
Definition pka_inv (c : core) : Prop := pka_ok c /\ cache_ok c.

Lemma pka_ok_frame c c' : pka_frame c c' -> pka_ok c -> pka_ok c'.
Proof.
  intros Hf [Hb Hs]. split; [|by rewrite (pf_sram _ _ Hf)]. intros i Hi. rewrite (pf_bases _ _ Hf i Hi). by apply Hb.
Qed.

Lemma cache_ok_frame c c' : pka_frame c c' -> cache_ok c -> cache_ok c'.
Proof.
  intros Hf Hc. unfold cache_ok.
  by rewrite (pf_valid _ _ Hf), (pf_words _ _ Hf), (pf_value _ _ Hf), (load_operand_frame _ _ _ _ c c' Hf).
Qed.

Lemma pka_inv_frame c c' : pka_frame c c' -> pka_inv c -> pka_inv c'.
Proof. intros Hf [H1 H2]. split; [by apply (pka_ok_frame c)|by apply (cache_ok_frame c)]. Qed.

Lemma fr_count1 k c0 c : pka_frame c0 c -> pka_frame c0 (count1 k c).
Proof. intros Hf. by apply fr_count. Qed.

(** Steps that keep the frame, one after the other. *)
Create HintDb framed discriminated.
#[export] Hint Constants Opaque : framed.
#[export] Hint Resolve fr_count fr_count1 fr_write fr_store fr_sha256 fr_engine fr_cmac_data fr_cmac_active fr_write_addr
  fr_read_addr fr_trace_seen fr_trace_count fr_trace_config fr_stats_interval fr_flushed : framed.
#[export] Hint Extern 0 (pka_frame ?c ?c) => reflexivity : framed.
#[export] Hint Extern 0 (PKA_BASES_END <= _) =>
  first [assumption|by vm_compute|unfold PKA_BASES_END, HASH_H in *; lia] : framed.

#[export] Hint Extern 1 (pka_frame _ (if ?b then _ else _)) => destruct b eqn:? : framed.

Ltac framed := cbv zeta; auto 30 with framed nocore.

(** * The hash engine *)

Lemma fr_store_h c0 c : pka_frame c0 c -> pka_frame c0 (store_sha256_h c).
Proof.
  intros Hf. unfold store_sha256_h. apply (foldl_range_ind _ (fun _ c' => pka_frame c0 c')); [done|done|].
  intros k c' Hk Hf'. framed.
Qed.
#[export] Hint Resolve fr_store_h : framed.

Lemma fr_store_len v c0 c : pka_frame c0 c -> pka_frame c0 (store_hash_current_len v c).
Proof. intros Hf. unfold store_hash_current_len. framed. Qed.
#[export] Hint Resolve fr_store_len : framed.

Lemma fr_sha256_reset c0 c : pka_frame c0 c -> pka_frame c0 (sha256_reset c).
Proof. intros Hf. unfold sha256_reset. apply fr_store_h, fr_store_len. framed. Qed.
#[export] Hint Resolve fr_sha256_reset : framed.

Lemma fr_transform block c0 c : pka_frame c0 c -> pka_frame c0 (sha256_transform block c).
Proof. intros Hf. unfold sha256_transform. apply fr_store_h. framed. Qed.
#[export] Hint Resolve fr_transform : framed.

Lemma fr_full_block c0 c : pka_frame c0 c -> pka_frame c0 (hash_full_block c).
Proof. intros Hf. unfold hash_full_block. framed. Qed.

Lemma fr_hash_turn data c0 c : pka_frame c0 c -> pka_frame c0 (fst (hash_turn data c)).
Proof. intros Hf. apply fr_full_block. framed. Qed.

Lemma fr_hash_loop fuel data c0 c : pka_frame c0 c -> pka_frame c0 (hash_loop fuel data c).
Proof.
  revert data c. induction fuel as [|fuel IH]; intros data c Hf; cbn [hash_loop]; [done|]. case_if; [done|].
  pose proof (fr_hash_turn data c0 c Hf) as Ht. destruct (hash_turn data c) as [c' data']. by apply IH.
Qed.

Lemma fr_sha256_update_impl data stats c0 c : pka_frame c0 c -> pka_frame c0 (sha256_update_impl data stats c).
Proof.
  intros Hf. unfold sha256_update_impl. case_if; [done|]. cbv zeta. apply fr_hash_loop, fr_store_len. destruct stats; framed.
Qed.
#[export] Hint Resolve fr_sha256_update_impl : framed.

Lemma fr_sha256_finish c0 c : pka_frame c0 c -> pka_frame c0 (sha256_finish c).
Proof.
  intros Hf. unfold sha256_finish. case_if; [done|]. cbv zeta.
  apply fr_sha256, fr_store_len, fr_store_h. do 2 apply fr_sha256_update_impl. framed.
Qed.
#[export] Hint Resolve fr_sha256_finish : framed.

(** * Transfers *)

Section transfers.
Context {M : Type} (m_memory : option (memory_if M)).

Lemma fr_mem_read a buf c0 c m : pka_frame c0 c -> pka_frame c0 (core_mem_read m_memory a buf c m).1.1.1.
Proof using.
  intros Hf. unfold core_mem_read. destruct m_memory as [mif|]; cbn [fst]; [|framed].
  destruct (if_read mif m a buf) as [[m' data] ok]. case_if; cbn [fst]; framed.
Qed.

Lemma fr_mem_write a buf c0 c m : pka_frame c0 c -> pka_frame c0 (core_mem_write m_memory a buf c m).1.1.
Proof using.
  intros Hf. unfold core_mem_write. destruct m_memory as [mif|]; cbn [fst]; [|framed].
  destruct (if_write mif m a buf) as [m' ok]. case_if; cbn [fst]; framed.
Qed.

Lemma fr_hash_chunks fuel chunk a n c0 c m : pka_frame c0 c -> pka_frame c0 (hash_chunks m_memory fuel chunk a n c m).1.1.
Proof using.
  revert chunk a n c m. induction fuel as [|fuel IH]; intros chunk a n c m Hf; cbn [hash_chunks]; [done|]. case_if; [done|].
  pose proof (fr_mem_read a (take (Z.to_nat (Z.min n (vec_size chunk))) chunk) c0 (count1 hash_dma_chunks c) m ltac:(framed)) as Hr.
  cbv zeta. destruct (core_mem_read _ _ _ _ _) as [[[c' m'] data] ok]. cbn [fst] in Hr. case_if; cbn [fst]; [framed|].
  apply IH. unfold sha256_update. framed.
Qed.

Lemma fr_ctr_chunks fuel key key_len counter input a d n c0 c m : pka_frame c0 c ->
  pka_frame c0 (ctr_chunks m_memory fuel key key_len counter input a d n c m).1.1.
Proof using.
  revert counter input a d n c m. induction fuel as [|fuel IH]; intros counter input a d n c m Hf; cbn [ctr_chunks]; [done|].
  case_if; [done|]. cbv zeta.
  pose proof (fr_mem_read a (take (Z.to_nat (Z.min n (vec_size input))) input) c0 (count1 aes_ctr_chunks c) m ltac:(framed)) as Hr.
  destruct (core_mem_read _ _ _ _ _) as [[[c' m'] data] ok]. cbn [fst] in Hr. case_if; cbn [fst]; [framed|].
  destruct (ctr_loop _ _ _ _ _ _) as [[output counter']|]; cbn [fst]; [|done].
  pose proof (fr_mem_write d output c0 c' m' Hr) as Hw. destruct (core_mem_write _ _ _ _ _) as [[c'' m''] ok'].
  cbn [fst] in Hw. case_if; cbn [fst]; [framed|]. by apply IH.
Qed.

Lemma fr_ecb_chunks fuel dec key key_len input a d n c0 c m : pka_frame c0 c ->
  pka_frame c0 (ecb_chunks m_memory fuel dec key key_len input a d n c m).1.1.
Proof using.
  revert input a d n c m. induction fuel as [|fuel IH]; intros input a d n c m Hf; cbn [ecb_chunks]; [done|].
  case_if; [done|]. cbv zeta.
  pose proof (fr_mem_read a (take (Z.to_nat (Z.min n (vec_size input))) input) c0 (count1 aes_ecb_chunks c) m ltac:(framed)) as Hr.
  destruct (core_mem_read _ _ _ _ _) as [[[c' m'] data] ok]. cbn [fst] in Hr. case_if; cbn [fst]; [framed|].
  destruct (ecb_blocks _ _ _ _) as [output|]; cbn [fst]; [|done].
  pose proof (fr_mem_write d output c0 c' m' Hr) as Hw. destruct (core_mem_write _ _ _ _ _) as [[c'' m''] ok'].
  cbn [fst] in Hw. case_if; cbn [fst]; [framed|]. by apply IH.
Qed.

Lemma fr_cmac_chunks fuel chunk a n c0 c m : pka_frame c0 c -> pka_frame c0 (cmac_chunks m_memory fuel chunk a n c m).1.
Proof using.
  revert chunk a n c m. induction fuel as [|fuel IH]; intros chunk a n c m Hf; cbn [cmac_chunks]; [done|].
  case_if; [done|]. cbv zeta.
  pose proof (fr_mem_read a (take (Z.to_nat (Z.min n (vec_size chunk))) chunk) c0 (count1 cmac_dma_chunks c) m ltac:(framed)) as Hr.
  destruct (core_mem_read _ _ _ _ _) as [[[c' m'] data] ok]. cbn [fst] in Hr. case_if; cbn [fst]; [framed|].
  apply IH. framed.
Qed.
End transfers.

Section completion.
Context {M : Type} (m_memory : option (memory_if M)).

Lemma fr_hash_dma off c0 c m : pka_frame c0 c -> pka_frame c0 (hash_dma_input m_memory off c m).1.
Proof using.
  intros Hf. unfold hash_dma_input. do 2 (case_if; [done|]). cbv zeta.
  match goal with |- context [hash_chunks ?mif ?fuel ?chunk ?a ?n ?c1 m] =>
    pose proof (fr_hash_chunks mif fuel chunk a n c0 c1 m ltac:(framed)) as Hh; destruct (hash_chunks mif fuel chunk a n c1 m) as [[c' m'] ok] end.
  cbn [fst] in Hh. do 2 (case_if; [cbn [fst]; framed|]). done.
Qed.

Lemma fr_aes_ctr a d n c0 c m : pka_frame c0 c -> pka_frame c0 (aes_ctr_xcrypt m_memory a d n c m).1.1.
Proof using.
  intros Hf. unfold aes_ctr_xcrypt. cbv zeta.
  match goal with |- context [ctr_chunks ?mif ?fuel ?key ?l ?counter ?input a d n ?c1 m] =>
    pose proof (fr_ctr_chunks mif fuel key l counter input a d n c0 c1 m ltac:(framed)) as Hh;
    destruct (ctr_chunks mif fuel key l counter input a d n c1 m) as [[c' m'] [counter'|]] end; cbn [fst] in *; framed.
Qed.

Lemma fr_aes_ecb a d n c0 c m : pka_frame c0 c -> pka_frame c0 (aes_ecb_xcrypt m_memory a d n c m).1.1.
Proof using.
  intros Hf. unfold aes_ecb_xcrypt. case_if; [done|]. cbv zeta.
  match goal with |- context [ecb_chunks ?mif ?fuel ?dec ?key ?l ?input a d n ?c1 m] =>
    pose proof (fr_ecb_chunks mif fuel dec key l input a d n c0 c1 m ltac:(framed)) as Hh;
    destruct (ecb_chunks mif fuel dec key l input a d n c1 m) as [[c' m'] ok] end; cbn [fst] in *.
  case_if; cbn [fst]; framed.
Qed.

Lemma fr_aes_dma off c0 c m : pka_frame c0 c -> pka_frame c0 (aes_dma_output m_memory off c m).1.
Proof using.
  intros Hf. unfold aes_dma_output. cbv zeta. do 3 (case_if; [done|]).
  case_if; [apply fr_aes_ecb; framed|]. case_if; [apply fr_aes_ctr; framed|]. cbn [fst]. framed.
Qed.

Lemma fr_cmac_dma off c0 c m : pka_frame c0 c -> pka_frame c0 (cmac_dma_input m_memory off c m).1.
Proof using. intros Hf. unfold cmac_dma_input. case_if; [done|]. cbv zeta. apply fr_cmac_chunks. framed. Qed.

Lemma fr_complete off c0 c m : pka_frame c0 c -> pka_frame c0 (complete_dma_transfer m_memory off c m).1.
Proof using.
  intros Hf. unfold complete_dma_transfer.
  pose proof (fr_hash_dma off c0 c m Hf) as H1. destruct (hash_dma_input m_memory off c m) as [c1 m1].
  pose proof (fr_aes_dma off c0 c1 m1 H1) as H2. destruct (aes_dma_output m_memory off c1 m1) as [c2 m2].
  pose proof (fr_cmac_dma off c0 c2 m2 H2) as H3. destruct (cmac_dma_input m_memory off c2 m2) as [c3 m3].
  cbn [fst] in *. framed.
Qed.
End completion.

(** * Registers of the other parts *)

Lemma fr_cmac_finish c0 c : pka_frame c0 c -> pka_frame c0 (cmac_finish c).
Proof.
  intros Hf. unfold cmac_finish. case_if; [done|]. cbv zeta.
  destruct (aes_cmac _ _ _) as [tag|]; framed.
Qed.
#[export] Hint Resolve fr_cmac_finish : framed.

Lemma fr_cmac_reset c0 c : pka_frame c0 c -> pka_frame c0 (cmac_reset c).
Proof. intros Hf. unfold cmac_reset. framed. Qed.
#[export] Hint Resolve fr_cmac_reset : framed.

Lemma fr_rng off v c0 c : pka_frame c0 c -> pka_frame c0 (update_rng_after_write off v c).
Proof. intros Hf. unfold update_rng_after_write. framed. Qed.
#[export] Hint Resolve fr_rng : framed.

Lemma fr_hash_write off v c0 c : pka_frame c0 c -> pka_frame c0 (update_hash_after_write off v c).
Proof.
  intros Hf. unfold update_hash_after_write. cbv zeta. case_if.
  { bool_hyps. assert (PKA_BASES_END <= off) by (unfold PKA_BASES_END, HASH_H in *; lia). framed. }
  case_if. { assert (PKA_BASES_END <= off) by (apply orb_true_iff in E0 as [->%Z.eqb_eq| ->%Z.eqb_eq]; by vm_compute). framed. }
  framed.
Qed.
#[export] Hint Resolve fr_hash_write : framed.

Lemma fr_crypto_ctl v c0 c : pka_frame c0 c -> pka_frame c0 (write_crypto_ctl v c).
Proof. intros Hf. unfold write_crypto_ctl. framed. Qed.
#[export] Hint Resolve fr_crypto_ctl : framed.

Lemma fr_trace_access off c0 c : pka_frame c0 c -> pka_frame c0 (core_trace_access off c).
Proof. intros Hf. unfold core_trace_access. framed. Qed.
#[export] Hint Resolve fr_trace_access : framed.

Lemma fr_record cmd off len debug c0 c : pka_frame c0 c -> pka_frame c0 (record_access cmd off len debug c).
Proof. intros Hf. unfold record_access, maybe_write_stats_file. destruct debug; [done|]. destruct cmd; framed. Qed.
#[export] Hint Resolve fr_record : framed.

Lemma fr_core_read off data len debug c : pka_frame c (core_read off data len debug c).1.1.
Proof.
  unfold core_read. destruct data as [data|]; [|done]. case_if; [done|].
  destruct (negb debug && (len =? 4) && (off =? PKA_SRAM_RDATA)); cbv zeta; cbn [fst]; framed.
Qed.

Lemma fr_config p c : pka_frame c (sync_core_config p c).
Proof. unfold sync_core_config. framed. Qed.

(** * What an opcode sees of the state *)

Lemma respects_frame opcode c c' : pka_frame c c' ->
  pka_len_words (size_id (pka_decode opcode)) c' = pka_len_words (size_id (pka_decode opcode)) c ->
  respects_modulus opcode c -> respects_modulus opcode c'.
Proof.
  intros Hf Hl Hr id mwords Hid Hm. rewrite Hl, (pf_valid _ _ Hf), (pf_words _ _ Hf) in *. specialize (Hr id mwords Hid Hm).
  unfold unseen_overlap, operand_word in *. by rewrite !(phys_base_frame _ c c' Hf).
Qed.

(** The opcode register is none of the sizes. *)
Lemma len_words_opcode id v c : 0 <= id -> pka_len_words id (core_store32 PKA_OPCODE v c) = pka_len_words id c.
Proof.
  intros Hid. unfold pka_len_words. change (m_pka_sram (core_store32 PKA_OPCODE v c)) with (m_pka_sram c).
  rewrite load_store32_ne; [done|]. unfold PKA_L_BASE, PKA_OPCODE. lia.
Qed.

Lemma opcode_frame v c : pka_frame c (core_store32 PKA_OPCODE v c).
Proof. framed. Qed.

(** * Register writes *)

Lemma inv_no_cache c : pka_ok c -> m_pka_modulus_cache_valid c = false -> pka_inv c.
Proof. intros Hc Hv. split; [done|]. intros Hv'. congruence. Qed.

Lemma sram_write_inv a v c : is_u32 v -> pka_inv c -> pka_inv (pka_sram_write a v true c).
Proof.
  intros Hv [Hc Hcache]. pose proof (sram_write_ok a v true c Hc Hv) as Hok. unfold pka_sram_write in *.
  case_if; [by apply inv_no_cache|done].
Qed.

(** Bytes written below the bases, not to the first of them while it is cached. *)
Lemma bases_write_inv off bs c : bytes_ok bs -> pka_inv c -> (m_pka_modulus_cache_valid c = true -> 4 <= off) ->
  pka_inv (c <| m_regs ::= mem_write off bs |>).
Proof.
  intros Hbs [[Hb Hs] Hcache] Hoff. split; [split; [|done]|].
  - intros i Hi. change (is_u8 (mem_get (mem_write off bs (m_regs c)) i)). rewrite mem_get_write. case_if; [|by apply Hb].
    bool_hyps. destruct (bs !! Z.to_nat (i - off)) as [b|] eqn:Eb; cbn [default]; [|by apply is_uint_0].
    eapply Forall_lookup_1; [exact Hbs|exact Eb].
  - intros Hv. rewrite (load_operand_base 0 _ c); [by apply Hcache| |done].
    change (load32 (mem_write off bs (m_regs c)) (0 * 4) = load32 (m_regs c) (0 * 4)).
    apply load32_write_ne. specialize (Hoff Hv). lia.
Qed.

Lemma sw_reset_inv v c : pka_inv c -> pka_inv (pka_sw_reset v c).
Proof.
  intros [[Hb Hs] _]. apply inv_no_cache; [|done].
  assert (pka_frame c (core_store32 PKA_DONE 1 (core_store32 PKA_PIPE_RDY 1 (core_store32 PKA_STATUS 1 (core_store32 PKA_SW_RESET v c)))))
    as Hf by framed.
  split; [|by apply arr_ok_replicate, is_uint_0]. intros i Hi.
  change (is_u8 (mem_get (m_regs (core_store32 PKA_DONE 1 (core_store32 PKA_PIPE_RDY 1 (core_store32 PKA_STATUS 1 (core_store32 PKA_SW_RESET v c))))) i)).
  rewrite (pf_bases _ _ Hf i Hi). by apply Hb.
Qed.

Lemma wdata_inv v c : is_u32 v -> pka_inv c -> pka_inv (pka_sram_wdata v c).
Proof.
  intros Hv Hc. apply sram_write_inv; [done|]. apply (pka_inv_frame c); [|done]. framed.
Qed.

Lemma opcode_inv opcode c : pka_inv c -> respects_modulus opcode c ->
  pka_inv (execute_pka_opcode opcode (core_store32 PKA_OPCODE opcode c)).
Proof.
  intros Hc Hr. pose proof (opcode_frame opcode c) as Hf. destruct (pka_inv_frame _ _ Hf Hc) as [H1 H2].
  apply opcode_keeps_cache; [done..|]. apply (respects_frame _ _ _ Hf); [|done].
  apply len_words_opcode, decode_ids.
Qed.

Section write32.
Context {M : Type} (m_memory : option (memory_if M)).

(** A register write keeps the invariant, an opcode when it respects the cache. *)
Lemma core_write32_inv off v c m : 0 <= off -> is_u32 v -> pka_inv c -> off mod 4 = 0 ->
  (off = PKA_OPCODE -> respects_modulus v c) -> pka_inv (core_write32 m_memory off v c m).1.
Proof using.
  intros Hoff Hv Hc Hal Hr. unfold core_write32.
  case_if; [by apply sw_reset_inv|]. case_if; [apply (pka_inv_frame c); [cbn [fst]; framed|exact Hc]|].
  case_if; [by apply wdata_inv|]. case_if; [apply (pka_inv_frame c); [cbn [fst]; framed|exact Hc]|].
  case_if; [apply opcode_inv; [exact Hc|apply Hr; lia]|].
  do 3 (case_if; [apply (pka_inv_frame c); [cbn [fst]; framed|exact Hc]|]).
  do 3 (case_if; [cbv zeta; apply (pka_inv_frame c); [cbn [fst]; framed|exact Hc]|]).
  case_if.
  { apply (pka_inv_frame c); [|exact Hc]. apply fr_complete, fr_store; [done|].
    repeat (apply orb_true_iff in E10 as [E10|E10]); apply Z.eqb_eq in E10; subst off; by vm_compute. }
  case_if; [apply (pka_inv_frame c); [cbn [fst]; framed|exact Hc]|]. cbn [fst].
  apply bases_write_inv; [apply le_bytes_ok| |].
  - case_if; [|done]. apply inv_no_cache; [apply Hc|done].
  - case_if; [done|]. intros _. apply Z.eqb_neq in E12. clear -E12 Hoff Hal. pose proof (Z.div_mod off 4 ltac:(lia)). lia.
Qed.
End write32.

Lemma store_words_bases l c : Forall (fun '(off, _) => PKA_BASES_END <= off) l ->
  pka_frame c (c <| m_regs ::= store_words_of l |>).
Proof.
  intros Hl. split; [done..|]. intros i Hi. change (mem_get (store_words_of l (m_regs c)) i = mem_get (m_regs c) i).
  generalize (m_regs c). induction Hl as [|[off v] l Ho _ IH]; intros m; [done|].
  unfold store_words_of in *. cbn [foldl]. rewrite IH. apply store32_below. lia.
Qed.

Lemma core_reset_inv c : pka_inv (reset_registers c).
Proof.
  unfold reset_registers. cbv zeta. eapply pka_inv_frame.
  { apply store_words_bases. unfold reset_words. repeat constructor; by vm_compute. }
  apply inv_no_cache; [|done]. split; [|by apply arr_ok_replicate, is_uint_0]. intros i _. change (is_u8 0). by apply is_uint_0.
Qed.

(** * Runs *)

(** What a bus write must not do: start an opcode that writes into the cached
    modulus unseen, or write the base of the modulus other than as a word while a
    modulus is cached. *)
Definition respects_cache (offset : Z) (data : list Z) (len : Z) (c : core) : Prop :=
  if (len =? 4) && (offset mod 4 =? 0)
  then u32 offset = PKA_OPCODE -> respects_modulus (le_val (get_data 4 data)) c
  else m_pka_modulus_cache_valid c = true -> 4 <= offset.

(** The states the core reaches: construction, resets, configuration, and reads and
    writes of any offset and size, each with any memory behind the transfers. *)
Inductive pka_reach : core -> Prop :=
| reach_new : pka_reach new_core
| reach_reset count_stats c : pka_reach c -> pka_reach (core_reset count_stats c)
| reach_config p c : pka_reach c -> pka_reach (sync_core_config p c)
| reach_read offset data len debug c : pka_reach c -> pka_reach (core_read offset data len debug c).1.1
| reach_write {M} (m_memory : option (memory_if M)) (m : M) offset data len debug c :
    pka_reach c -> 0 <= offset -> bytes_ok data -> respects_cache offset data len c ->
    pka_reach (core_write m_memory offset (Some data) len debug c m).1.1.

Lemma core_write_inv {M} (m_memory : option (memory_if M)) (m : M) offset data len debug c : pka_inv c -> 0 <= offset ->
  bytes_ok data -> respects_cache offset data len c -> pka_inv (core_write m_memory offset (Some data) len debug c m).1.1.
Proof.
  intros Hc Hoff Hd Hr. unfold core_write, respects_cache in *. case_if; [exact Hc|]. clear E.
  assert (forall c1 m1, pka_inv c1 ->
    pka_inv (let '(c0, m0) := (c1, m1) in (record_access cmd_write offset len debug (core_trace_access offset c0), m0 : M, (acc_ok, len))).1.1) as Hrec.
  { intros c1 m1 H1. cbn [fst]. apply (pka_inv_frame c1); [framed|exact H1]. }
  destruct ((len =? 4) && (offset mod 4 =? 0)) eqn:E; [|by apply Hrec, bases_write_inv; [apply get_data_ok| |]].
  apply andb_true_iff in E as [_ Hal%Z.eqb_eq]. rewrite (surjective_pairing (core_write32 _ _ _ _ _)). apply Hrec.
  apply core_write32_inv; [apply wrap_range; lia| |exact Hc| |exact Hr].
  - pose proof (le_val_range (get_data 4 data) (get_data_ok 4 data Hd)) as Hrng. destruct Hrng. split; [done|].
    assert (2 ^ (8 * Z.of_nat (length (get_data 4 data))) <= 2 ^ 32) as Hp; [|lia].
    apply Z.pow_le_mono_r; [lia|]. unfold get_data. rewrite length_take. lia.
  - unfold wrap. change (2 ^ 32) with (4 * 2 ^ 30). rewrite Z.rem_mul_r by lia.
    rewrite Z.mul_comm, Z.mod_add by lia. by rewrite Hal.
Qed.

Lemma reach_inv c : pka_reach c -> pka_inv c.
Proof.
  induction 1.
  - apply core_reset_inv.
  - apply core_reset_inv.
  - eapply pka_inv_frame; [apply fr_config|done].
  - eapply pka_inv_frame; [apply fr_core_read|done].
  - by apply core_write_inv.
Qed.

(** An opcode respects the cached modulus when it works on as many words as are
    cached, or more, and none of its operands runs past the last word address. *)
Lemma respects_covered opcode c : pka_ok c ->
  let f := pka_decode opcode in
  let words := pka_len_words (size_id f) c in
  (m_pka_modulus_cache_valid c = true -> m_pka_modulus_cache_words c <= words) ->
  straight 0 words c -> straight (result_id f) words c -> straight (lhs_id f) words c -> respects_modulus opcode c.
Proof.
  intros Hc f words Hw H0 Hres Hlhs id mwords Hid Hm. fold f words in Hid, Hm |- *. apply covered_overlap; [done| | |done].
  - destruct Hm as [[Hv ->]|Hm]; [by apply Hw|]. unfold modular_words in Hm. case_if; [|done]. injection Hm as <-. lia.
  - destruct Hid as [[_ ->]|(_ & _ & ->)]; done.
Qed.

(** * Opcodes in a run *)

(** The write of an opcode is its execution, counters and traces aside. *)
Lemma opcode_write {M} (m_memory : option (memory_if M)) (m : M) opcode debug c : is_u32 opcode ->
  let c1 := execute_pka_opcode opcode (core_store32 PKA_OPCODE opcode c) in
  let c' := (core_write m_memory PKA_OPCODE (Some (le_bytes 4 opcode)) 4 debug c m).1.1 in
  pka_frame c1 c' /\ m_regs c' = m_regs c1.
Proof.
  intros Ho c1 c'.
  assert (c' = record_access cmd_write PKA_OPCODE 4 debug (core_trace_access PKA_OPCODE c1)) as ->.
  { unfold c', core_write. change (negb (is_supported_length 4) || _) with false.
    change ((4 =? 4) && _) with true. cbv iota.
    assert (le_val (get_data 4 (le_bytes 4 opcode)) = opcode) as Ev.
    { change (get_data 4 (le_bytes 4 opcode)) with (le_bytes 4 opcode). by apply le_val_le_bytes. }
    by rewrite Ev. }
  split; [framed|]. transitivity (m_regs (core_trace_access PKA_OPCODE c1)); [apply record_same|apply trace_same].
Qed.

Lemma operand_x_frame f words c c' : pka_frame c c' -> operand_x f words c' = operand_x f words c.
Proof. apply load_operand_frame. Qed.

Lemma operand_y_frame f words c c' : pka_frame c c' -> operand_y f words c' = operand_y f words c.
Proof. intros Hf. unfold operand_y. case_if; [done|]. by apply load_operand_frame. Qed.

(** C6. The opcodes of the public-key engine compute arithmetic on what is in
    memory, in every state that a run of the accelerator reaches ([pka_reach]: from
    construction through resets, configuration, reads and writes of any registers
    and sizes, transfers with any memory, and any opcodes).  For the [words] that
    the chosen size register gives and the operation [op] of the opcode that is
    written, with [x] and [y] its operands (registers or immediates, sign-extended
    for the additive operations) and [m] the modulus that is in memory at that time,
    the result, its flags and the status register are those of [pka_means]: sums and
    differences modulo the span of the words or modulo [m], bit operations, shifts,
    low and high halves of the product, quotient, products and powers modulo [m],
    and the inverse, which is absent exactly when [m] and [y] have a common factor
    or [m] is no modulus.  The result register holds the result when it lies in
    memory, the left operand of a division holds the remainder, and no other word of
    memory changes.  The run is one that does not do two things the code does not
    guard against: start an opcode that stores into the cached modulus while the
    ranges the code compares, both of the opcode's own number of words, do not
    overlap ([respects_modulus]; [respects_covered]: never with operands of the
    cached size or more), and write the base of the modulus by another access than an
    aligned word while a modulus is cached; [pka_stale_modulus] and
    [pka_byte_write_stale] show that the cache is stale after either.  The opcode
    itself needs the first condition only for the state it leaves to be again one
    with the right cache. *)
Theorem pka_opcode_arithmetic {M} (m_memory : option (memory_if M)) (mem0 : M) (c : core) (opcode : Z) (debug : bool) :
  pka_reach c -> is_u32 opcode ->
  let f := pka_decode opcode in
  let words := pka_len_words (size_id f) c in
  let x := pka_words_to_int (operand_x f words c) in
  let y := pka_words_to_int (operand_y f words c) in
  let m := pka_words_to_int (pka_load_operand false 0 words false c) in
  let divides := (op f =? CC3XX_PKA_OPCODE_DIV) && negb (lhs_immediate f) in
  let c' := (core_write m_memory PKA_OPCODE (Some (le_bytes 4 opcode)) 4 debug c mem0).1.1 in
  0 < words -> pka_known (op f) = true ->
  (pka_ok c' /\ (respects_modulus opcode c -> cache_ok c')) /\
  (exists res carry sign dbz,
    pka_means words x y m (rhs_id f + 1) (op f) res carry sign dbz /\
    core_load32 PKA_STATUS c' = status_word (res =? 0) carry sign dbz /\
    (discard_result f = false -> in_sram (result_id f) words c ->
     pka_words_to_int (pka_load_operand false (result_id f) words false c') = res)) /\
  (divides = true -> 0 < y -> in_sram (lhs_id f) words c ->
   (discard_result f = false -> forall i, 0 <= i < words -> outside (result_id f) words c (operand_word (lhs_id f) i c)) ->
   pka_words_to_int (pka_load_operand false (lhs_id f) words false c') = x mod y) /\
  (forall a, 0 <= a -> (divides = true -> outside (lhs_id f) words c a) ->
   (discard_result f = false -> outside (result_id f) words c a) ->
   arr_get (m_pka_sram c') a = arr_get (m_pka_sram c) a).
Proof.
  intros Hreach Hop f words x y m divides c' Hw Hknown.
  pose proof (reach_inv c Hreach) as Hinv. pose proof (opcode_frame opcode c) as Hf.
  destruct (opcode_write m_memory mem0 opcode debug c Hop) as [Hf' Hr']. cbv zeta in Hf', Hr'. fold c' in Hf', Hr'.
  set (c0 := core_store32 PKA_OPCODE opcode c) in *.
  pose proof (pka_inv_frame _ _ Hf Hinv) as [Hok0 Hcache0].
  assert (pka_len_words (size_id f) c0 = words) as Ew by (apply len_words_opcode, decode_ids).
  pose proof (opcode_arithmetic c0 opcode Hok0 Hcache0) as H. cbv zeta in H. fold f in H. rewrite Ew in H.
  rewrite (operand_x_frame f words c c0 Hf), (operand_y_frame f words c c0 Hf), (load_operand_frame _ _ _ _ c c0 Hf) in H.
  destruct (H Hw Hknown) as (Hok & (res & carry & sign & dbz & Hm & Hst & Hres) & Hdiv & Hrest).
  set (c1 := execute_pka_opcode opcode c0) in *.
  assert (forall id, in_sram id words c -> in_sram id words c0) as Hin.
  { intros id. unfold in_sram. by rewrite (phys_base_frame id c c0 Hf). }
  assert (forall id a, outside id words c a -> outside id words c0 a) as Hout.
  { intros id a. unfold outside, operand_word. by rewrite (phys_base_frame id c c0 Hf). }
  split; [|split; [|split]].
  - split; [by apply (pka_ok_frame c1)|]. intros Hr. apply (cache_ok_frame c1); [done|].
    apply (opcode_inv opcode c); [exact Hinv|exact Hr].
  - exists res, carry, sign, dbz. split; [done|]. split; [unfold core_load32; rewrite Hr'; exact Hst|].
    intros Hd Hi. rewrite (load_operand_frame _ _ _ _ c1 c' Hf'). by apply Hres, Hin.
  - intros Hd Hy Hi Hdis. rewrite (load_operand_frame _ _ _ _ c1 c' Hf'). apply Hdiv; [done|done|by apply Hin|].
    intros Hd' i Hi'. apply Hout. unfold operand_word. rewrite (phys_base_frame _ c c0 Hf). by apply Hdis.
  - intros a Ha H1 H2. rewrite (pf_sram _ _ Hf'). apply Hrest; [done| |]; intros Hd; apply Hout; auto.
Qed.

(** * A run *)

(** Words a host writes, each to a register. *)
Definition host_words (l : list (Z * Z)) (c : core) : core :=
  foldl (fun c '(off, v) => (core_write None off (Some (le_bytes 4 v)) 4 false c tt).1.1) c l.

Lemma host_words_reach l c : forallb (fun '(off, v) => (0 <=? off) && (off mod 4 =? 0) && negb (u32 off =? PKA_OPCODE)) l = true ->
  pka_reach c -> pka_reach (host_words l c).
Proof.
  revert c. induction l as [|[off v] l IH]; intros c Hl Hc; [done|]. cbn [forallb] in Hl. bool_hyps.
  apply IH; [done|]. apply reach_write; [done|lia|apply le_bytes_ok|]. unfold respects_cache.
  replace (off mod 4 =? 0) with true by lia. intros E. lia.
Qed.

(** Operands of 64 bits, registers 0, 1 and 3 at the words 0, 16 and 48; the
    modulus 3 * 2^32 + 7 and the number 5 * 2^32 + 1. *)
Definition run_setup : core :=
  host_words [(0, 0); (4, 16); (12, 48); (PKA_L_BASE, 64); (PKA_SRAM_ADDR, 0); (PKA_SRAM_WDATA, 7); (PKA_SRAM_WDATA, 3);
    (PKA_SRAM_ADDR, 16); (PKA_SRAM_WDATA, 1); (PKA_SRAM_WDATA, 5)] new_core.

Definition run_reduce (c : core) : core := (core_write None PKA_OPCODE (Some (le_bytes 4 reduce_x)) 4 false c tt).1.1.

(** The modulus is used, and replaced by 3 * 2^32 + 11. *)
Definition run_reused : core := host_words [(PKA_SRAM_ADDR, 0); (PKA_SRAM_WDATA, 11)] (run_reduce run_setup).

Lemma run_setup_reach : pka_reach run_setup.
Proof. apply host_words_reach; [by vm_compute|apply reach_new]. Qed.

Lemma run_reused_reach : pka_reach run_reused.
Proof.
  apply host_words_reach; [by vm_compute|].
  apply reach_write; [apply run_setup_reach|by vm_compute|apply le_bytes_ok|].
  intros _. apply respects_covered; [apply reach_inv, run_setup_reach|..]; by vm_compute.
Qed.

(** The second reduction is by the modulus that is then in memory, although the
    first one had cached another. *)
Lemma pka_opcode_arithmetic_witness :
  m_pka_modulus_cache_valid (run_reduce run_setup) = true /\
  m_pka_modulus_cache (run_reduce run_setup) = 3 * 2 ^ 32 + 7 /\
  pka_words_to_int (pka_load_operand false 3 2 false (run_reduce run_reused)) = (5 * 2 ^ 32 + 1) mod (3 * 2 ^ 32 + 11).
Proof.
  split; [by vm_compute|]. split; [by vm_compute|].
  destruct (pka_opcode_arithmetic None tt run_reused reduce_x false run_reused_reach) as (_ & (res & carry & sign & dbz & Hm & _ & Hr) & _);
    [by vm_compute|by vm_compute|by vm_compute|].
  transitivity res; [apply Hr; by vm_compute|]. vm_compute in Hm. inversion Hm; subst; done.
Defined.

(** A byte written to the base of the modulus does not drop the cached one: the
    modulus is then 5 * 2^32 + 1, and the reduction still by 3 * 2^32 + 7. *)
Lemma pka_byte_write_stale :
  let c := (core_write None 0 (Some [16]) 1 false (run_reduce run_setup) tt).1.1 in
  let x := pka_words_to_int (pka_load_operand false 1 2 false c) in
  pka_words_to_int (pka_load_operand false 0 2 false c) = x /\ x = 5 * 2 ^ 32 + 1 /\
  pka_words_to_int (pka_load_operand false 3 2 false (run_reduce c)) = x mod (3 * 2 ^ 32 + 7) /\
  x mod (3 * 2 ^ 32 + 7) <> x mod x.
Proof. vm_compute. split; [done|]. split; [done|]. split; [done|]. discriminate. Qed.
