(* ===== verification/Provisioning.v ===== *)
(** Two components together: the key management unit exports a key over an
    interconnect into the accelerator's key registers, and the accelerator enciphers
    memory with a key that no processor has seen. *)

From stdpp Require Import strings.
From S2P Require Import Prelude Bytes Vectors Tlm Memory RseKmu Sha256 Cc3xxState Cc3xxPka Cc3xxAes AesCtr Cc3xxCore Cc3xxDriver AesDma Cc3xx.

Lemma mem_read_slice m a n k : 0 <= k -> k + 4 <= n -> slice k 4 (mem_read m a n) = mem_read m (a + k) 4.
Proof.
  intros Hk Hn. replace n with (k + (4 + (n - k - 4))) by lia. rewrite !mem_read_app by lia.
  pose proof (mem_read_length m a k Hk) as L1. pose proof (mem_read_length m (a + k) 4 ltac:(lia)) as L2. unfold slice.
  rewrite drop_app_length' by lia. by rewrite take_app_length' by lia.
Qed.

(** The key bytes of a slot. *)
Definition slot_key (k : rse_kmu) (slot : Z) : list Z := mem_read (RseKmu.m_regs k) (key_offset slot) 32.

Lemma slot_key_ok k slot : kmu_inv k -> key_ok (slot_key k slot).
Proof.
  intros Hk. split; [by eapply mem_read_ok|]. unfold slot_key, vec_size. rewrite mem_read_length by lia.
  do 2 (apply list_elem_of_further). apply list_elem_of_here.
Qed.

Section provisioning.
Context {B : Type} {bus : TlmTarget B} {membus : MemoryBus B} (p : cc3xx_params).

(** The interconnect between the two: a word that is written to the window at [base]
    arrives at the accelerator's socket, at its offset in the window. *)
Definition routes (fabric : TlmTarget (core * B)) (base : Z) : Prop := forall off v s,
  0 <= off -> off mod 4 = 0 -> off + 4 <= Cc3xxState.REG_BYTES ->
  fst (target_b_transport (tlm_access (TlmTarget := fabric)) s (write_request (base + off) 4 (le_bytes 4 v))) = host_write p off v s.

Context (fabric : TlmTarget (core * B)) (base : Z) (Hroutes : routes fabric base) (Hbase : 0 <= base < 2 ^ 32).

(** The words of the key arrive in order. *)
Lemma export_words cfg m slot s : initiator_bound cfg = true -> export_address cfg m slot = base + AES_KEY_0 ->
  export_key (bus := fabric) cfg m slot s = write_words (host_write p) AES_KEY_0 (mem_read m (key_offset slot) 32) s.
Proof using Hroutes Hbase.
  intros Hb He. unfold export_key. fold (export_address cfg m slot). rewrite He. unfold write_words.
  assert (vec_size (mem_read m (key_offset slot) 32) = 32) as -> by (unfold vec_size; by rewrite mem_read_length by lia).
  change (32 / 4) with SLOT_WORDS. apply foldl_ext_in. intros s' k Hk%elem_of_range. unfold SLOT_WORDS in Hk.
  unfold mem_write32. rewrite Hb. cbn [negb]. unfold WORD_BYTES. rewrite wrap_small by (unfold AES_KEY_0; split; lia).
  rewrite <-Z.add_assoc. pose proof (Hroutes (AES_KEY_0 + k * 4) (load32 m (key_offset slot + k * 4)) s') as Hr.
  destruct (target_b_transport _ _ _) as [s'' t'']. cbn [fst] in *. unfold load32 in *.
  rewrite mem_read_slice by lia. apply Hr; unfold AES_KEY_0, Cc3xxState.REG_BYTES; [lia| |lia].
  rewrite Z.mod_add by lia. done.
Qed.

(** C9. A key goes from the key management unit to the cipher without passing a
    processor.  When a slot's export address is the accelerator's key window, a write
    of the slot's control register with the export bit, and then the set-up of counter
    mode and any segments of memory, leave in memory the segments enciphered under the
    32 bytes of the slot, whatever the accelerator held before; the keys stay in
    their slots. *)
Theorem exported_key_ciphers cfg k v slot ctr segments c b :
  kmu_inv k -> is_u32 v -> Z.testbit v 28 = true -> 0 <= slot < SLOT_COUNT -> initiator_bound cfg = true ->
  export_address cfg (RseKmu.m_regs k) slot = base + AES_KEY_0 -> 0 <= ctr -> Forall (transfer_ok (serves := bus_serves)) segments ->
  let '(k', s) := RseKmu.write32 (bus := fabric) cfg (KMUKSC_BASE + slot * 4) v (k, (c, b)) in
  bus_view (snd (cipher_run (host_write p) 32 ctr segments s)) ≈ ciphered (slot_key k slot) ctr segments (bus_view b) /\
  slot_key k' slot = slot_key k slot.
Proof using Hroutes Hbase.
  intros Hk Hv Hx Hslot Hb He Hctr Hs. rewrite write32_control, write_kmuksc_eq, Hx, export_words by done.
  pose proof (slot_key_ok k slot Hk) as Hkey. split.
  - fold (slot_key k slot).
    destruct (load_key (host_write p) (host_write_eq p) (slot_key k slot) c b I Hkey) as (c1 & b1 & -> & H1 & V1 & _).
    assert (vec_size (slot_key k slot) = 32) as E by (unfold slot_key, vec_size; by rewrite mem_read_length by lia).
    destruct (cipher_run_spec systemc_memory_law (host_write p) (host_write_eq p) (slot_key k slot) ctr segments c1 b1 I Hkey Hctr H1 Hs)
      as (c2 & b2 & E2 & V2 & _). rewrite E in E2. rewrite E2. cbn [snd]. by rewrite V2, V1.
  - unfold slot_key, SLOT_COUNT in *. cbn [RseKmu.m_regs set_field]. unfold store32.
    rewrite !mem_read_write_ne; rewrite ?le_bytes_length; [done|..];
      right; unfold KMUKSC_BASE, KMUIS, key_offset, KMUKSK_BASE, KMUKSK_STRIDE, SLOT_WORDS, WORD_BYTES; lia.
Qed.
End provisioning.

(** * An interconnect with the accelerator's window *)

(** It passes on aligned words, and refuses the rest. *)
Definition window_access {B} {bus : TlmTarget B} (p : cc3xx_params) (base : Z) (dbg : bool) (s : core * B) (t : tlm_payload)
    : (core * B) * tlm_payload * bool :=
  match Tlm.command t, data_ptr t with
  | TLM_WRITE_COMMAND, Some d =>
      if (base <=? address t) && (address t + 4 <=? base + Cc3xxState.REG_BYTES) && ((address t - base) mod 4 =? 0)
      then (fst (cc3xx_b_transport true p s (write_bytes_txn (address t - base) (take 4 d))), t <| response_status := TLM_OK_RESPONSE |>, true)
      else (s, t <| response_status := TLM_ADDRESS_ERROR_RESPONSE |>, false)
  | _, _ => (s, t <| response_status := TLM_ADDRESS_ERROR_RESPONSE |>, false)
  end.

Ltac window_cases H := unfold window_access in H; repeat case_match; simplify_eq/=.

#[refine] Definition window {B} {bus : TlmTarget B} (p : cc3xx_params) (base : Z) : TlmTarget (core * B) :=
  {| tlm_access := window_access p base; target_inv _ := True |}.
Proof.
  - done.
  - intros dbg s t s' t' ok H. window_cases H; tauto.
  - intros dbg s t s' t' ok H. by window_cases H.
  - intros dbg s t s' t' ok _ Ht H. window_cases H; exact Ht.
  - intros dbg s t s' t' ok H _. by window_cases H.
  - intros dbg s t s' t' H. by window_cases H.
Defined.

Lemma window_routes {B} {bus : TlmTarget B} p base : routes p (window p base) base.
Proof.
  intros off v s Ho Ha Hr. unfold target_b_transport. cbn [tlm_access window window_access Tlm.command address data_ptr write_request set_field].
  replace (base <=? base + off) with true by lia. replace (base + off + 4 <=? base + Cc3xxState.REG_BYTES) with true by lia.
  replace (base + off - base) with off by lia. rewrite Ha. cbn [andb Z.eqb fst].
  by rewrite take_ge by (by rewrite le_bytes_length).
Qed.

(** The hardware key of slot 2, from the fuses into the cipher. *)
Lemma exported_key_ciphers_witness :
  let p := Cc3xxParams false 64 0 "all" 0 "" 0 in
  let cfg := {| RseKmu.p_trace := false; RseKmu.p_trace_limit := 64; RseKmu.p_trace_filter := "all";
    otp_image := Some (map (fun i => i mod 251) (range 0x100)); p_build_config := 0x003d0005;
    p_hw_slot_config := 0x00d60100; p_hw_slot_export_address := 0x50154400; initiator_bound := true |} in
  let k := RseKmu.initial cfg in
  let segments := [(0x100, 0x200, 20)] in
  let m := mem_write 0x100 (range 20) ∅ in
  let '(k', s) := RseKmu.write32 (bus := window (bus := ram 0x1000) p 0x50154000) cfg (KMUKSC_BASE + 2 * 4) 0x10000000 (k, (new_core, m)) in
  bus_view (MemoryBus := ram_bus 0x1000) (snd (cipher_run (host_write (bus := ram 0x1000) p) 32 5 segments s)) ≈
    ciphered (slot_key k 2) 5 segments (bus_view (MemoryBus := ram_bus 0x1000) m) /\
  slot_key k' 2 = slot_key k 2.
Proof.
  intros p cfg k segments m.
  refine (exported_key_ciphers (membus := ram_bus 0x1000) p (window p 0x50154000) 0x50154000 (window_routes p 0x50154000) _
    cfg k 0x10000000 2 5 segments new_core m _ _ _ _ eq_refl _ _ _).
  - done.
  - apply (reset_inv cfg (MkKmu ∅ 0)). apply Forall_fmap, Forall_true. intros i.
    pose proof (Z.mod_pos_bound i 251 ltac:(lia)). split; cbn; lia.
  - by split.
  - done.
  - done.
  - by vm_compute.
  - done.
  - apply Forall_cons_2; [|apply Forall_nil_2]. split; [|split]; [split_and!; [done..|intros j Hj; cbn; lia]..|unfold apart; lia].
Defined.
