(* ===== verification/Cc3xxNative.v ===== *)
(** The accelerator as a device of the emulator
    (qemu-components/cc3xx_native/include/qemu_cc3xx.h): callbacks for its registers
    over the core of Cc3xxCore, and the memory its engines use, which is the system
    address space of the emulator, then host memory that was granted earlier, then
    transactions. *)

From stdpp Require Import strings.
From Stdlib Require Import Sorting.Sorted.
From S2P Require Import Prelude Bytes Vectors Tlm Memory Sha256 Cc3xxState Cc3xxPka Cc3xxAes Cc3xxCore Cc3xxDriver HashDma Cc3xx.

(** [tlm::tlm_dmi]: a pointer, the range of addresses it backs, and what it may be
    used for. *)
Record tlm_dmi := MkDmi { dmi_ptr : Z; start_address : Z; end_address : Z; read_allowed : bool; write_allowed : bool }.

Definition is_none_allowed (d : tlm_dmi) : bool := negb (read_allowed d) && negb (write_allowed d).

(** What the module asks of the rest of the platform: direct memory on its initiator
    socket and the host memory behind it, the ranges that were revoked since it was
    last asked, and the system address space. *)
Class NativeContext (A B : Type) := {
  get_direct_mem_ptr : tlm_payload -> B -> B * option tlm_dmi;
  host_load : Z -> Z -> B -> list Z;
  host_store : Z -> list Z -> B -> B;
  revoked : B -> B * list (Z * Z);
  as_read : Z -> list Z -> A -> B -> B * list Z * bool;
  as_write : Z -> list Z -> A -> B -> B * bool;
  attrs_debug : A -> bool
}.

(** The counters of the profile; the times it adds up are not modelled. *)
(** [qemu_cc3xx.h: 96-118] *)
Inductive counter :=
| read_callbacks | write_callbacks
| address_space_read_attempts | address_space_read_hits | address_space_write_attempts | address_space_write_hits
| tlm_read_attempts | tlm_read_hits | tlm_write_attempts | tlm_write_hits
| dmi_cache_read_hits | dmi_cache_write_hits | dmi_cache_requests | dmi_cache_insertions | dmi_cache_invalidations.

#[export] Instance counter_eq_dec : EqDecision counter.
Proof. solve_decision. Defined.

(** The cache is a map by start address: its grants in ascending order. *)
(** [qemu_cc3xx.h: "std::string m_profile_file;" .. "std::mutex m_dmi_cache_mutex;"] *)
Record native (A : Type) := MkNative {
  m_profile : counter -> Z;
  m_current_attrs : A;
  m_dmi_cache : list tlm_dmi
}.
Arguments MkNative {A}.
Arguments m_profile {A}.
Arguments m_current_attrs {A}.
Arguments m_dmi_cache {A}.

#[export] Instance eta_native A : Eta (native A) := fun s => MkNative (m_profile s) (m_current_attrs s) (m_dmi_cache s).

(** * The map of grants *)

(** The grants up to [m.upper_bound(address)], and those from there on. *)
Fixpoint upper_bound (address : Z) (m : list tlm_dmi) : list tlm_dmi * list tlm_dmi :=
  match m with
  | [] => ([], [])
  | d :: m' =>
      if start_address d <=? address then let '(before, after) := upper_bound address m' in (d :: before, after)
      else ([], m)
  end.

(** [m[d.get_start_address()] = d]. *)
Fixpoint insert_dmi (d : tlm_dmi) (m : list tlm_dmi) : list tlm_dmi :=
  match m with
  | [] => [d]
  | d' :: m' =>
      if start_address d <? start_address d' then d :: m
      else if start_address d =? start_address d' then d :: m'
      else d' :: insert_dmi d m'
  end.

Definition find_dmi (start : Z) (m : list tlm_dmi) : option tlm_dmi := List.find (fun d => start_address d =? start) m.

(** [qemu_cc3xx.h: dmi_cache_lookup] *)
Definition dmi_cache_lookup (address len : Z) (m : list tlm_dmi) : option tlm_dmi :=
  if (len =? 0) || (2 ^ 64 - 1 - (len - 1) <? address) then None
  else
    match list.last (fst (upper_bound address m)) with
    | None => None
    | Some d =>
        let end_ := u64 (address + len - 1) in
        if (start_address d <=? address) && (end_ <=? end_address d) then Some d else None
    end.

(** The loop over the grants, from one on; with how many were taken out. *)
(** [qemu_cc3xx.h: "while (it != m_dmi_cache.end()) {" .. "m_profile.dmi_cache_invalidations.fetch_add(1, std::memory_order_relaxed);"] *)
Fixpoint erase_loop (start end_ : Z) (m : list tlm_dmi) : list tlm_dmi * Z :=
  match m with
  | [] => ([], 0)
  | d :: m' =>
      if end_ <? start_address d then (m, 0)
      else if end_address d <? start then let '(m', n) := erase_loop start end_ m' in (d :: m', n)
      else let '(m', n) := erase_loop start end_ m' in (m', n + 1)
  end.

(** The loop starts at the last grant that starts at [start] or before. *)
Definition erase_range (start end_ : Z) (m : list tlm_dmi) : list tlm_dmi * Z :=
  let '(before, after) := upper_bound start m in
  match list.last before with
  | None => erase_loop start end_ m
  | Some d => let '(kept, n) := erase_loop start end_ (d :: after) in (removelast before ++ kept, n)
  end.

Section native.
Context {A B : Type} {bus : TlmTarget B} {context : NativeContext A B}.
(** Whether something is bound to the initiator socket, whether the emulator gave a
    system address space, and whether the profile is on. *)
Context (bound has_as profile : bool).

(** * State *)

Definition count_if (c : counter) (n : Z) (s : native A) : native A :=
  if profile then s <| m_profile ::= fun f c' => if decide (c' = c) then u64 (f c + n) else f c' |> else s.
Definition count (c : counter) : native A -> native A := count_if c 1.

(** [qemu_cc3xx.h: invalidate_direct_mem_ptr] *)
Definition invalidate_direct_mem_ptr (start end_ : Z) (s : native A) : native A :=
  let '(m, n) := erase_range start end_ (m_dmi_cache s) in count_if dmi_cache_invalidations n (s <| m_dmi_cache := m |>).

(** The platform calls back while a call into it runs; nothing else uses the cache
    meanwhile, so the calls are made when it returns. *)
Definition take_revoked (s : native A) (b : B) : native A * B :=
  let '(b, ranges) := revoked b in
  (foldl (fun s '(start, end_) => invalidate_direct_mem_ptr start end_ s) s ranges, b).

(** * Memory *)

(** [qemu_cc3xx.h: tlm_memory_access] *)
Definition tlm_memory_access (cmd : tlm_command) (address : Z) (data : list Z) (s : native A) (b : B)
    : native A * B * list Z * bool :=
  if negb bound then (s, b, data, false)
  else
    let '(b, trans) := target_b_transport tlm_access b
      (Payload cmd address (Some data) (vec_size data) TLM_INCOMPLETE_RESPONSE false) in
    let '(s, b) := take_revoked s b in
    (s, b, default data (data_ptr trans), is_response_ok trans).

(** [qemu_cc3xx.h: dmi_cache_access] *)
Definition dmi_cache_access (cmd : tlm_command) (address : Z) (data : list Z) (s : native A) (b : B)
    : native A * B * list Z * bool :=
  match dmi_cache_lookup address (vec_size data) (m_dmi_cache s) with
  | None => (s, b, data, false)
  | Some dmi =>
      let ptr := dmi_ptr dmi + (address - start_address dmi) in
      match cmd with
      | TLM_READ_COMMAND =>
          if negb (read_allowed dmi) then (s, b, data, false)
          else (count dmi_cache_read_hits s, b, host_load ptr (vec_size data) b, true)
      | TLM_WRITE_COMMAND =>
          if negb (write_allowed dmi) then (s, b, data, false)
          else (count dmi_cache_write_hits s, host_store ptr data b, data, true)
      | TLM_IGNORE_COMMAND => (s, b, data, false)
      end
  end.

(** [qemu_cc3xx.h: request_dmi_cache] *)
Definition request_dmi_cache (address len : Z) (s : native A) (b : B) : native A * B :=
  if negb bound || (len =? 0) then (s, b)
  else
    let trans := Payload TLM_IGNORE_COMMAND address (Some [0]) len TLM_INCOMPLETE_RESPONSE false in
    let s := count dmi_cache_requests s in
    let '(b, granted) := get_direct_mem_ptr trans b in
    let '(s, b) := take_revoked s b in
    match granted with
    | None => (s, b)
    | Some dmi =>
        if is_none_allowed dmi then (s, b)
        else
          let known := match find_dmi (start_address dmi) (m_dmi_cache s) with
                       | Some d => end_address d =? end_address dmi
                       | None => false
                       end in
          if known then (s, b) else (count dmi_cache_insertions (s <| m_dmi_cache ::= insert_dmi dmi |>), b)
    end.

(** The cached grant, one that is asked for, or a transaction. *)
(** [qemu_cc3xx.h: "if (dmi_cache_access(tlm::TLM_READ_COMMAND, address, data, len)) {" .. "return ok;"] *)
Definition bus_access (cmd : tlm_command) (attempts hits : counter) (address : Z) (data : list Z) (s : native A) (b : B)
    : native A * B * list Z * bool :=
  let '(s, b, data', ok) := dmi_cache_access cmd address data s b in
  if ok then (s, b, data', true)
  else
    let '(s, b) := request_dmi_cache address (vec_size data) s b in
    let '(s, b, data', ok) := dmi_cache_access cmd address data s b in
    if ok then (s, b, data', true)
    else
      let '(s, b, data, ok) := tlm_memory_access cmd address data (count attempts s) b in
      (if ok then count hits s else s, b, data, ok).

(** [qemu_cc3xx.h: memory_read] *)
Definition memory_read (address : Z) (data : list Z) (s : native A) (b : B) : native A * B * list Z * bool :=
  let '(s, b, data, ok) :=
    if has_as then
      let s := count address_space_read_attempts s in
      let '(b, data, ok) := as_read address data (m_current_attrs s) b in
      let '(s, b) := take_revoked s b in
      (if ok then count address_space_read_hits s else s, b, data, ok)
    else (s, b, data, false) in
  if ok then (s, b, data, true) else bus_access TLM_READ_COMMAND tlm_read_attempts tlm_read_hits address data s b.

(** [qemu_cc3xx.h: memory_write] *)
Definition memory_write (address : Z) (data : list Z) (s : native A) (b : B) : native A * B * bool :=
  let '(s, b, ok) :=
    if has_as then
      let s := count address_space_write_attempts s in
      let '(b, ok) := as_write address data (m_current_attrs s) b in
      let '(s, b) := take_revoked s b in
      (if ok then count address_space_write_hits s else s, b, ok)
    else (s, b, false) in
  if ok then (s, b, true)
  else
    let '(s, b, _, ok) := bus_access TLM_WRITE_COMMAND tlm_write_attempts tlm_write_hits address data s b in (s, b, ok).

(** [qemu_cc3xx.h: "struct qemu_memory_if : public core_type::memory_if {" .. "};"] *)
Definition qemu_memory_if : memory_if (native A * B) :=
  MemoryIf (native A * B)
    (fun '(s, b) address data => let '(s, b, data, ok) := memory_read address data s b in (s, b, data, ok))
    (fun '(s, b) address data => let '(s, b, ok) := memory_write address data s b in (s, b, ok)).

(** * Registers *)

Inductive MemTxResult := MemTxOK | MemTxError | MemTxDecodeError.

(** [qemu_cc3xx.h: map_status] *)
Definition native_map_status (status : access_status) : MemTxResult :=
  match status with acc_ok => MemTxOK | acc_address_error => MemTxDecodeError | acc_command_error => MemTxError end.

(** The parameters are those of the other module, and set the core up alike. *)
(** [qemu_cc3xx.h: "core_type::trace_config trace;" .. "p_stats_interval.get_value());"] *)
Definition native_sync_core_config (p : cc3xx_params) : core -> core := sync_core_config p.

(** The value read, if the pointer is not null and the access succeeds. *)
(** [qemu_cc3xx.h: qemu_read] *)
Definition qemu_read (p : cc3xx_params) (addr : Z) (data_null : bool) (len : Z) (attrs : A) (w : core * (native A * B))
    : core * (native A * B) * option Z * MemTxResult :=
  let '(c, (s, b)) := w in
  let s := count read_callbacks s in
  if data_null || (8 <? len) then (c, (s, b), None, MemTxDecodeError)
  else
    let c := native_sync_core_config p c in
    let s := s <| m_current_attrs := attrs |> in
    let '(c, buffer, (status, _)) := core_read addr (Some (replicate 8 0)) len (attrs_debug attrs) c in
    let value := match status with acc_ok => Some (le_val (get_data len (default [] buffer))) | _ => None end in
    (c, (s, b), value, native_map_status status).

(** [qemu_cc3xx.h: qemu_write] *)
Definition qemu_write (p : cc3xx_params) (addr data len : Z) (attrs : A) (w : core * (native A * B))
    : core * (native A * B) * MemTxResult :=
  let '(c, (s, b)) := w in
  let s := count write_callbacks s in
  if 8 <? len then (c, (s, b), MemTxDecodeError)
  else
    let buffer := put_data (get_data len (le_bytes 8 data)) (replicate 8 0) in
    let c := native_sync_core_config p c in
    let s := s <| m_current_attrs := attrs |> in
    let '(c, sb, (status, _)) := core_write (Some qemu_memory_if) addr (Some buffer) len (attrs_debug attrs) c (s, b) in
    (c, sb, native_map_status status).

(** The text of the files of statistics and of the profile is with the reports. *)
(** [qemu_cc3xx.h: "if (value) {" .. "m_core.reset(true);"] *)
Definition native_doreset (value : bool) (c : core) : core := if value then core_reset true c else c.
End native.

(** * Lemmas on the map *)

Definition sorted_dmi : list tlm_dmi -> Prop := StronglySorted (fun d d' => start_address d < start_address d').

Definition outside (start end_ : Z) (d : tlm_dmi) : bool := (end_address d <? start) || (end_ <? start_address d).

Lemma upper_bound_app addr m : fst (upper_bound addr m) ++ snd (upper_bound addr m) = m.
Proof. induction m as [|d m IH]; [done|]. cbn. destruct (_ <=? _); [|done]. destruct (upper_bound addr m). cbn in *. by f_equal. Qed.

Lemma upper_bound_before addr m : Forall (fun d => start_address d <= addr) (fst (upper_bound addr m)).
Proof.
  induction m as [|d m IH]; [constructor|]. cbn. destruct (Z.leb_spec (start_address d) addr); [|constructor].
  destruct (upper_bound addr m). by constructor.
Qed.

Lemma upper_bound_after addr m : sorted_dmi m -> Forall (fun d => addr < start_address d) (snd (upper_bound addr m)).
Proof.
  induction 1 as [|d m Hm IH Hd]; [constructor|]. cbn. destruct (Z.leb_spec (start_address d) addr).
  - by destruct (upper_bound addr m).
  - constructor; [done|]. eapply Forall_impl; [exact Hd|]. cbn. intros. lia.
Qed.

Lemma erase_loop_spec start end_ m : sorted_dmi m ->
  fst (erase_loop start end_ m) = List.filter (outside start end_) m.
Proof.
  induction 1 as [|d m Hm IH Hd]; [done|]. cbn [erase_loop List.filter]. unfold outside at 1.
  destruct (Z.ltb_spec end_ (start_address d)).
  - rewrite orb_true_r. cbn. f_equal. symmetry. apply forallb_filter_id, forallb_forall. intros d' Hd'.
    rewrite Forall_forall in Hd. apply list_elem_of_In, Hd in Hd'. unfold outside. lia.
  - rewrite orb_false_r. destruct (erase_loop start end_ m) as [m' n]. cbn in *. destruct (_ <? _); cbn; by rewrite IH.
Qed.

Lemma sorted_app_inv m m' : sorted_dmi (m ++ m') ->
  sorted_dmi m /\ sorted_dmi m' /\ forall d d', d ∈ m -> d' ∈ m' -> start_address d < start_address d'.
Proof.
  induction m as [|d m IH]; cbn; [intros H; split; [constructor|split; [done|]]; intros d d' Hd; by inversion Hd|].
  intros H. apply StronglySorted_inv in H as [H1 H2]. destruct (IH H1) as (H3 & H4 & H5). apply Forall_app in H2 as [H2 H6].
  split; [by constructor|]. split; [done|]. intros x y [->|Hx]%elem_of_cons Hy; [|by apply H5]. rewrite Forall_forall in H6. by apply H6.
Qed.

(** Which grants a revocation reaches: the code starts at the last grant that starts
    at [start] or before, so it reaches all of them unless the range begins inside a
    grant and not before the start of a later one. *)
Definition in_reach (P : tlm_dmi -> Prop) (start : Z) : Prop :=
  forall d d', P d -> P d' -> start_address d < start_address d' <= start -> end_address d < start.

(** Then they are invalidated exactly when the range touches them. *)
Lemma erase_range_spec start end_ m : sorted_dmi m -> in_reach (.∈ m) start ->
  fst (erase_range start end_ m) = List.filter (outside start end_) m.
Proof.
  intros Hs Ha. unfold erase_range. pose proof (upper_bound_app start m) as Happ.
  pose proof (upper_bound_before start m) as Hb.
  destruct (upper_bound start m) as [before after]. cbn [fst snd] in *. destruct (list.last before) as [d|] eqn:El; [|by apply erase_loop_spec].
  apply last_Some in El as [pre ->]. rewrite removelast_last. subst m. rewrite <-app_assoc in *. cbn [app] in *.
  destruct (sorted_app_inv _ _ Hs) as (H1 & H2 & H3). pose proof (erase_loop_spec start end_ _ H2) as He.
  destruct (erase_loop start end_ (d :: after)) as [kept n]. cbn [fst] in *. rewrite He, List.filter_app. f_equal.
  symmetry. apply forallb_filter_id, forallb_forall. intros x Hx%list_elem_of_In. unfold outside.
  pose proof (H3 x d Hx (list_elem_of_here _ _)) as Hlt. apply Forall_app in Hb as [_ Hb]. apply Forall_inv in Hb.
  pose proof (Ha x d ltac:(apply elem_of_app; by left) ltac:(apply elem_of_app; right; apply list_elem_of_here) ltac:(lia)). lia.
Qed.

(** And a grant that is out of reach stays in use, whatever is revoked. *)
Lemma out_of_reach_stays start end_ m d d' : sorted_dmi m -> d ∈ m -> d' ∈ m ->
  start_address d < start_address d' <= start -> d ∈ fst (erase_range start end_ m).
Proof.
  intros Hs Hd Hd' Hlt. unfold erase_range. pose proof (upper_bound_app start m) as Happ.
  pose proof (upper_bound_after start m Hs) as Haf.
  destruct (upper_bound start m) as [before after]. cbn [fst snd] in *. rewrite Forall_forall in Haf.
  rewrite <-Happ, elem_of_app in Hd, Hd'. destruct Hd as [Hd|Hd]; [|apply Haf in Hd; lia].
  destruct Hd' as [Hd'|Hd']; [|apply Haf in Hd'; lia].
  destruct (list.last before) as [l|] eqn:El; [|apply last_None in El as ->; by inversion Hd].
  apply last_Some in El as [pre ->]. rewrite removelast_last. destruct (erase_loop _ _ _) as [kept n]. cbn [fst].
  apply elem_of_app. left. apply elem_of_app in Hd as [Hd|Hd%list_elem_of_singleton]; [done|]. subst l.
  apply elem_of_app in Hd' as [Hd'|Hd'%list_elem_of_singleton]; [|subst; lia].
  subst m. rewrite <-app_assoc in Hs. destruct (sorted_app_inv _ _ Hs) as (_ & _ & H3).
  specialize (H3 d' d Hd' (list_elem_of_here _ _)). lia.
Qed.

Lemma filter_sorted (f : tlm_dmi -> bool) m : sorted_dmi m -> sorted_dmi (List.filter f m).
Proof.
  induction 1 as [|d m Hm IH Hd]; [constructor|]. cbn. destruct (f d); [|done]. constructor; [done|].
  rewrite Forall_forall in *. intros x [Hx _]%list_elem_of_In%filter_In. by apply Hd, list_elem_of_In.
Qed.

Lemma elem_filter (f : tlm_dmi -> bool) m d : d ∈ List.filter f m <-> d ∈ m /\ f d = true.
Proof. by rewrite list_elem_of_In, filter_In, list_elem_of_In. Qed.

Lemma in_reach_sub (P Q : tlm_dmi -> Prop) start : (forall d, Q d -> P d) -> in_reach P start -> in_reach Q start.
Proof. intros H Hr d d' Hd Hd'. by apply Hr; apply H. Qed.

(** Where the grants overlap, one that starts before another and ends after it is
    missed, and stays in use. *)
Lemma invalidate_misses_overlap :
  fst (erase_range 0x70 0x7f [MkDmi 0 0 0xff true true; MkDmi 0 0x40 0x5f true true]) =
    [MkDmi 0 0 0xff true true; MkDmi 0 0x40 0x5f true true].
Proof. reflexivity. Qed.

Lemma insert_elem d m x : x ∈ insert_dmi d m -> x = d \/ x ∈ m.
Proof.
  induction m as [|d' m IH]; cbn; [intros H; apply list_elem_of_singleton in H; by left|].
  destruct (_ <? _); [|destruct (_ =? _)]; rewrite ?elem_of_cons; naive_solver.
Qed.

Lemma insert_sorted d m : sorted_dmi m -> sorted_dmi (insert_dmi d m).
Proof.
  induction 1 as [|d' m Hm IH Hd]; [by repeat constructor|]. cbn.
  destruct (Z.ltb_spec (start_address d) (start_address d')).
  - constructor; [by constructor|]. constructor; [done|]. eapply Forall_impl; [exact Hd|]. cbn. intros. lia.
  - destruct (Z.eqb_spec (start_address d) (start_address d')) as [E|E].
    + constructor; [done|]. by rewrite E.
    + constructor; [done|]. rewrite Forall_forall in *. intros x [->|Hx]%insert_elem; [lia|by apply Hd].
Qed.

(** What a lookup finds is cached and covers the access. *)
Lemma lookup_sound addr len m d : 0 <= addr -> 0 < len -> dmi_cache_lookup addr len m = Some d ->
  d ∈ m /\ start_address d <= addr /\ addr + len - 1 <= end_address d.
Proof.
  intros Ha Hl. unfold dmi_cache_lookup. replace (len =? 0) with false by lia. cbn [orb].
  destruct (Z.ltb_spec (2 ^ 64 - 1 - (len - 1)) addr); [done|]. rewrite wrap_small by (split; lia).
  pose proof (upper_bound_app addr m) as Happ. destruct (list.last _) as [d'|] eqn:El; [|done]. destruct (_ && _) eqn:E; [|done].
  intros [= ->]. apply last_Some in El as [pre Epre]. rewrite <-Happ, Epre. split; [|lia].
  apply elem_of_app. left. apply elem_of_app. right. by apply list_elem_of_singleton.
Qed.

(** * The platform *)

(** A call into the platform may end grants, and then says which ranges it revokes;
    each of these is in reach of the grants that were in force. *)
Definition revokes {A B} {context : NativeContext A B} (backed : tlm_dmi -> B -> Prop) (b b' : B) : Prop :=
  (forall d, backed d b -> forallb (fun '(start, end_) => outside start end_ d) (snd (revoked b')) = true ->
    backed d (fst (revoked b'))) /\
  forall start end_, (start, end_) ∈ snd (revoked b') -> in_reach (fun d => backed d b) start.

Class NativeBus (A B : Type) {bus : TlmTarget B} {context : NativeContext A B} := {
  nb_view : B -> mem;
  (** The addresses the bus serves. *)
  nb_serves : Z -> Prop;
  (** The grants that are in force. *)
  backed : tlm_dmi -> B -> Prop;
  (** The host memory of a grant in force is the memory the bus serves. *)
  backed_load d b a n : backed d b -> read_allowed d = true -> 0 < n -> start_address d <= a -> a + n - 1 <= end_address d ->
    host_load (dmi_ptr d + (a - start_address d)) n b = mem_read (nb_view b) a n;
  backed_store d b a data : backed d b -> write_allowed d = true -> 0 < vec_size data -> start_address d <= a ->
    a + vec_size data - 1 <= end_address d ->
    let b' := host_store (dmi_ptr d + (a - start_address d)) data b in
    nb_view b' ≈ mem_write a data (nb_view b) /\ forall d', backed d' b -> backed d' b';
  nb_revoked_view b : nb_view (fst (revoked b)) ≈ nb_view b;
  nb_transport b t : revokes backed b (fst (target_b_transport tlm_access b t));
  nb_read b a d : 0 < vec_size d -> (forall k, 0 <= k < vec_size d -> nb_serves (a + k)) ->
    let '(b', t') := target_b_transport tlm_access b (read_request a (vec_size d) d) in
    is_response_ok t' = true /\ nb_view b' ≈ nb_view b /\ data_ptr t' = Some (mem_read (nb_view b) a (vec_size d));
  nb_write b a d : 0 < vec_size d -> (forall k, 0 <= k < vec_size d -> nb_serves (a + k)) ->
    let '(b', t') := target_b_transport tlm_access b (write_request a (vec_size d) d) in
    is_response_ok t' = true /\ nb_view b' ≈ mem_write a d (nb_view b);
  nb_grant b t : let '(b', granted) := get_direct_mem_ptr t b in
    nb_view b' ≈ nb_view b /\ revokes backed b b' /\ forall d, granted = Some d -> backed d (fst (revoked b'));
  (** The address space of the emulator serves the same memory, or declines. *)
  nb_as_read b a d attrs : let '(b', data, ok) := as_read a d attrs b in
    nb_view b' ≈ nb_view b /\ revokes backed b b' /\ vec_size data = vec_size d /\
    (ok = true -> data = mem_read (nb_view b) a (vec_size d));
  nb_as_write b a d attrs : let '(b', ok) := as_write a d attrs b in
    revokes backed b b' /\ nb_view b' ≈ (if ok : bool then mem_write a d (nb_view b) else nb_view b)
}.

Section coherence.
Context {A B : Type} {bus : TlmTarget B} {context : NativeContext A B} {nbus : NativeBus A B}.
Context (bound has_as profile : bool).

(** Every cached grant is in force, and the map is in order. *)
Definition coherent (s : native A) (b : B) : Prop :=
  Forall (fun d => backed d b) (m_dmi_cache s) /\ sorted_dmi (m_dmi_cache s).

Lemma count_cache c n (s : native A) : m_dmi_cache (count_if profile c n s) = m_dmi_cache s.
Proof using. unfold count_if. by destruct profile. Qed.

Lemma coherent_count c (s : native A) b : coherent (count profile c s) b <-> coherent s b.
Proof. unfold coherent, count. by rewrite count_cache. Qed.

(** What the revocations leave are the grants they do not touch. *)
Lemma invalidate_cache start end_ (s : native A) : sorted_dmi (m_dmi_cache s) -> in_reach (.∈ m_dmi_cache s) start ->
  m_dmi_cache (invalidate_direct_mem_ptr profile start end_ s) = List.filter (outside start end_) (m_dmi_cache s).
Proof using.
  intros Hs Hr. unfold invalidate_direct_mem_ptr. pose proof (erase_range_spec start end_ _ Hs Hr) as E.
  destruct (erase_range start end_ (m_dmi_cache s)) as [m n]. cbn in E. subst m. by rewrite count_cache.
Qed.

Lemma invalidate_all ranges (s : native A) : sorted_dmi (m_dmi_cache s) ->
  (forall start end_, (start, end_) ∈ ranges -> in_reach (.∈ m_dmi_cache s) start) ->
  m_dmi_cache (foldl (fun s '(start, end_) => invalidate_direct_mem_ptr profile start end_ s) s ranges) =
    List.filter (fun d => forallb (fun '(start, end_) => outside start end_ d) ranges) (m_dmi_cache s).
Proof using.
  revert s. induction ranges as [|[start end_] ranges IH]; intros s Hs Hr; cbn [foldl forallb].
  - by rewrite filter_true.
  - pose proof (invalidate_cache start end_ s Hs (Hr start end_ (list_elem_of_here _ _))) as E. rewrite IH; rewrite E.
    + generalize (m_dmi_cache s). clear. intros m. induction m as [|d m IH]; [done|]. cbn [List.filter].
      destruct (outside start end_ d) eqn:E; cbn [List.filter andb]; [|done].
      destruct (forallb _ ranges); [by f_equal|done].
    + by apply filter_sorted.
    + intros start' end' Hin.
      apply (in_reach_sub (.∈ m_dmi_cache s)); [by intros d [? _]%elem_filter|]. eapply Hr. by apply list_elem_of_further.
Qed.

Lemma take_revoked_spec (s : native A) b b' : coherent s b -> revokes backed b b' ->
  let '(s', b'') := take_revoked profile s b' in coherent s' b'' /\ nb_view b'' ≈ nb_view b'.
Proof.
  intros [Hb Hs] [Hk Hr]. unfold take_revoked. pose proof (nb_revoked_view b') as Hv.
  destruct (revoked b') as [b'' ranges]. cbn [fst snd] in *. split; [|done]. rewrite Forall_forall in Hb.
  unfold coherent. rewrite invalidate_all; [|done|].
  - split; [|by apply filter_sorted]. rewrite Forall_forall. intros d [Hd Ho]%elem_filter. by apply Hk; [apply Hb|].
  - intros start end_ Hin. eapply in_reach_sub; [|by eapply Hr]. intros d Hd. by apply Hb.
Qed.

Lemma dmi_read_spec a data s b : 0 <= a -> 0 < vec_size data -> coherent s b ->
  let '(s', b', data', ok) := dmi_cache_access profile TLM_READ_COMMAND a data s b in
  b' = b /\ coherent s' b /\ data' = if ok : bool then mem_read (nb_view b) a (vec_size data) else data.
Proof.
  intros Ha Hl Hc. unfold dmi_cache_access. destruct (dmi_cache_lookup _ _ _) as [d|] eqn:E; [|done].
  apply lookup_sound in E as (Hd & H1 & H2); [|done..]. destruct (read_allowed d) eqn:Er; cbn [negb]; [|done].
  split; [done|]. split; [by apply coherent_count|]. destruct Hc as [Hb _]. rewrite Forall_forall in Hb.
  by apply backed_load; [apply Hb|..].
Qed.

Lemma dmi_write_spec a data s b : 0 <= a -> 0 < vec_size data -> coherent s b ->
  let '(s', b', _, ok) := dmi_cache_access profile TLM_WRITE_COMMAND a data s b in
  coherent s' b' /\ nb_view b' ≈ (if ok : bool then mem_write a data (nb_view b) else nb_view b).
Proof.
  intros Ha Hl Hc. unfold dmi_cache_access. destruct (dmi_cache_lookup _ _ _) as [d|] eqn:E; [|done].
  apply lookup_sound in E as (Hd & H1 & H2); [|done..]. destruct (write_allowed d) eqn:Er; cbn [negb]; [|done].
  destruct Hc as [Hb Hs]. rewrite Forall_forall in Hb.
  destruct (backed_store d b a data (Hb d Hd) Er Hl H1 H2) as [Hv Hk]. split; [|done].
  unfold coherent, count. rewrite count_cache. split; [|done]. apply Forall_forall. intros x Hx. by apply Hk, Hb.
Qed.

Lemma request_spec a n s b : coherent s b ->
  let '(s', b') := request_dmi_cache bound profile a n s b in coherent s' b' /\ nb_view b' ≈ nb_view b.
Proof.
  intros Hc. unfold request_dmi_cache. destruct (_ || _); [done|]. set (t := Payload _ _ _ _ _ _).
  pose proof (nb_grant b t) as Hg. destruct (get_direct_mem_ptr t b) as [b1 granted]. destruct Hg as (Hv & Hr & Hg).
  set (s0 := count profile dmi_cache_requests s).
  pose proof (take_revoked_spec s0 b b1 ltac:(by apply coherent_count) Hr) as Ht. unfold take_revoked in *.
  destruct (revoked b1) as [b2 ranges]. cbn [fst] in Hg. destruct Ht as [Hc2 Hv2]. set (s2 := foldl _ s0 ranges) in *.
  assert (nb_view b2 ≈ nb_view b) as Hv' by (by etransitivity). destruct granted as [dmi|]; [|done].
  destruct (is_none_allowed dmi); [done|]. match goal with |- context [if ?k then _ else _] => destruct k end; [done|].
  split; [|done]. destruct Hc2 as [Hb Hs]. unfold coherent, count. rewrite count_cache. cbn. split; [|by apply insert_sorted].
  rewrite Forall_forall in *. intros x [->|Hx]%insert_elem; [by apply Hg|by apply Hb].
Qed.

(** A transaction keeps the cache in order, whatever it reaches. *)
Lemma transport_coherent cmd a data s b : coherent s b ->
  let '(s', b', _, _) := tlm_memory_access bound profile cmd a data s b in coherent s' b'.
Proof.
  intros Hc. unfold tlm_memory_access. destruct bound; cbn [negb]; [|done].
  pose proof (nb_transport b (Payload cmd a (Some data) (vec_size data) TLM_INCOMPLETE_RESPONSE false)) as Hr.
  destruct (target_b_transport _ _ _) as [b1 t1]. pose proof (take_revoked_spec s b b1 Hc Hr) as Ht.
  destruct (take_revoked profile s b1) as [s2 b2]. apply Ht.
Qed.

Lemma count_if_ok (ok : bool) c (s : native A) b : coherent (if ok then count profile c s else s) b <-> coherent s b.
Proof. destruct ok; [apply coherent_count|done]. Qed.

Lemma bus_access_coherent cmd attempts hits a data s b : 0 <= a -> 0 < vec_size data -> coherent s b ->
  cmd <> TLM_IGNORE_COMMAND ->
  let '(s', b', _, _) := bus_access bound profile cmd attempts hits a data s b in coherent s' b'.
Proof.
  intros Ha Hl Hc Hcmd. unfold bus_access.
  assert (forall s b, coherent s b -> let '(s', b', _, _) := dmi_cache_access profile cmd a data s b in coherent s' b') as Hdmi.
  { intros s0 b0 Hc0. destruct cmd; [| |done].
    - pose proof (dmi_read_spec a data s0 b0 Ha Hl Hc0) as H. destruct (dmi_cache_access _ _ _ _ _ _) as [[[s1 b1] d1] ok1].
      by destruct H as (-> & H & _).
    - pose proof (dmi_write_spec a data s0 b0 Ha Hl Hc0) as H. destruct (dmi_cache_access _ _ _ _ _ _) as [[[s1 b1] d1] ok1].
      apply H. }
  pose proof (Hdmi s b Hc) as H1. destruct (dmi_cache_access _ _ _ _ s b) as [[[s1 b1] d1] []]; [done|].
  pose proof (request_spec a (vec_size data) s1 b1 H1) as H2. destruct (request_dmi_cache _ _ _ _ _ _) as [s2 b2].
  destruct H2 as [H2 _]. pose proof (Hdmi s2 b2 H2) as H3. destruct (dmi_cache_access _ _ _ _ s2 b2) as [[[s3 b3] d3] []]; [done|].
  pose proof (transport_coherent cmd a data (count profile attempts s3) b3 ltac:(by apply coherent_count)) as H4.
  destruct (tlm_memory_access _ _ _ _ _ _ _) as [[[s4 b4] d4] ok4]. by apply count_if_ok.
Qed.

Hypothesis Hbound : bound = true.

Lemma bus_read_spec a data s b : 0 <= a -> 0 < vec_size data -> coherent s b ->
  (forall k, 0 <= k < vec_size data -> nb_serves (a + k)) ->
  let '(s', b', data', ok) := bus_access bound profile TLM_READ_COMMAND tlm_read_attempts tlm_read_hits a data s b in
  ok = true /\ data' = mem_read (nb_view b) a (vec_size data) /\ nb_view b' ≈ nb_view b.
Proof.
  intros Ha Hl Hc Hs. unfold bus_access. pose proof (dmi_read_spec a data s b Ha Hl Hc) as H1.
  destruct (dmi_cache_access _ _ _ _ s b) as [[[s1 b1] d1] ok1]. destruct H1 as (-> & H1 & ->). destruct ok1; [done|].
  pose proof (request_spec a (vec_size data) s1 b H1) as H2. destruct (request_dmi_cache _ _ _ _ _ _) as [s2 b2].
  destruct H2 as [H2 Hv2]. pose proof (dmi_read_spec a data s2 b2 Ha Hl H2) as H3.
  destruct (dmi_cache_access _ _ _ _ s2 b2) as [[[s3 b3] d3] ok3]. destruct H3 as (-> & H3 & ->).
  destruct ok3; [split; [done|]; by rewrite Hv2|]. unfold tlm_memory_access. rewrite Hbound. cbn [negb].
  pose proof (nb_read b2 a data Hl Hs) as Hr. unfold read_request in Hr. destruct (target_b_transport _ _ _) as [b4 t4].
  destruct Hr as (Hok & Hv4 & Hd). unfold take_revoked. pose proof (nb_revoked_view b4) as Hv5. destruct (revoked b4) as [b5 ranges].
  cbn [fst] in Hv5. rewrite Hok, Hd. cbn [default]. split; [done|]. split; [by rewrite Hv2|].
  etransitivity; [exact Hv5|]. by etransitivity.
Qed.

Lemma bus_write_spec a data s b : 0 <= a -> 0 < vec_size data -> coherent s b ->
  (forall k, 0 <= k < vec_size data -> nb_serves (a + k)) ->
  let '(s', b', _, ok) := bus_access bound profile TLM_WRITE_COMMAND tlm_write_attempts tlm_write_hits a data s b in
  ok = true /\ nb_view b' ≈ mem_write a data (nb_view b).
Proof.
  intros Ha Hl Hc Hs. unfold bus_access. pose proof (dmi_write_spec a data s b Ha Hl Hc) as H1.
  destruct (dmi_cache_access _ _ _ _ s b) as [[[s1 b1] d1] ok1]. destruct H1 as [H1 Hv1]. destruct ok1; [done|].
  pose proof (request_spec a (vec_size data) s1 b1 H1) as H2. destruct (request_dmi_cache _ _ _ _ _ _) as [s2 b2].
  destruct H2 as [H2 Hv2]. pose proof (dmi_write_spec a data s2 b2 Ha Hl H2) as H3.
  destruct (dmi_cache_access _ _ _ _ s2 b2) as [[[s3 b3] d3] ok3]. destruct H3 as [H3 Hv3].
  destruct ok3; [split; [done|]; by rewrite Hv3, Hv2, Hv1|]. unfold tlm_memory_access. rewrite Hbound. cbn [negb].
  pose proof (nb_write b3 a data Hl Hs) as Hw. unfold write_request in Hw. destruct (target_b_transport _ _ _) as [b4 t4].
  destruct Hw as [Hok Hv4]. unfold take_revoked. pose proof (nb_revoked_view b4) as Hv5. destruct (revoked b4) as [b5 ranges].
  cbn [fst] in Hv5. rewrite Hok. split; [done|]. by rewrite Hv5, Hv4, Hv3, Hv2, Hv1.
Qed.

(** A read of the engine gives what the bus serves, and a write stores it. *)
Lemma memory_read_spec a data s b : 0 <= a -> 0 < vec_size data -> coherent s b ->
  (forall k, 0 <= k < vec_size data -> nb_serves (a + k)) ->
  let '(s', b', data', ok) := memory_read bound has_as profile a data s b in
  ok = true /\ data' = mem_read (nb_view b) a (vec_size data) /\ nb_view b' ≈ nb_view b.
Proof.
  intros Ha Hl Hc Hs. unfold memory_read. destruct has_as.
  - set (s0 := count profile address_space_read_attempts s). pose proof (nb_as_read b a data (m_current_attrs s0)) as H1.
    destruct (as_read a data (m_current_attrs s0) b) as [[b1 d1] ok1]. destruct H1 as (Hv1 & Hr & Hlen & Hd).
    pose proof (take_revoked_spec s0 b b1 ltac:(by apply coherent_count) Hr) as Ht.
    destruct (take_revoked profile s0 b1) as [s2 b2]. destruct Ht as [Hc2 Hv2]. destruct ok1.
    + split; [done|]. split; [by apply Hd|by rewrite Hv2].
    + pose proof (bus_read_spec a d1 s2 b2 Ha ltac:(lia) Hc2) as Hb. rewrite Hlen in Hb. specialize (Hb Hs).
      destruct (bus_access _ _ _ _ _ _ _ _ _) as [[[s3 b3] d3] ok3]. destruct Hb as (-> & -> & Hv3). split; [done|].
      by rewrite Hv3, Hv2, Hv1.
  - by apply bus_read_spec.
Qed.

Lemma memory_write_spec a data s b : 0 <= a -> 0 < vec_size data -> coherent s b ->
  (forall k, 0 <= k < vec_size data -> nb_serves (a + k)) ->
  let '(s', b', ok) := memory_write bound has_as profile a data s b in
  ok = true /\ nb_view b' ≈ mem_write a data (nb_view b).
Proof.
  intros Ha Hl Hc Hs. unfold memory_write. destruct has_as.
  - set (s0 := count profile address_space_write_attempts s). pose proof (nb_as_write b a data (m_current_attrs s0)) as H1.
    destruct (as_write a data (m_current_attrs s0) b) as [b1 ok1]. destruct H1 as [Hr Hv1].
    pose proof (take_revoked_spec s0 b b1 ltac:(by apply coherent_count) Hr) as Ht.
    destruct (take_revoked profile s0 b1) as [s2 b2]. destruct Ht as [Hc2 Hv2]. destruct ok1; [split; [done|]; by rewrite Hv2|].
    pose proof (bus_write_spec a data s2 b2 Ha Hl Hc2 Hs) as Hb. destruct (bus_access _ _ _ _ _ _ _ _ _) as [[[s3 b3] d3] ok3].
    destruct Hb as [-> Hv3]. split; [done|]. by rewrite Hv3, Hv2, Hv1.
  - pose proof (bus_write_spec a data s b Ha Hl Hc Hs) as Hb. destruct (bus_access _ _ _ _ _ _ _ _ _) as [[[s3 b3] d3] ok3]. exact Hb.
Qed.
End coherence.

Section reachable.
Context {A B : Type} {bus : TlmTarget B} {context : NativeContext A B} {nbus : NativeBus A B}.
Context (bound has_as profile : bool).

(** The module from the start: its engine reads and writes, callbacks set the
    attributes, and the platform changes on its own, revoking a range first that is
    in reach of the cached grants. *)
Inductive native_reachable : native A * B -> Prop :=
| native_start s b : m_dmi_cache s = [] -> native_reachable (s, b)
| native_read a data s b s' b' data' ok : native_reachable (s, b) -> 0 <= a -> 0 < vec_size data ->
    memory_read bound has_as profile a data s b = (s', b', data', ok) -> native_reachable (s', b')
| native_write a data s b s' b' ok : native_reachable (s, b) -> 0 <= a -> 0 < vec_size data ->
    memory_write bound has_as profile a data s b = (s', b', ok) -> native_reachable (s', b')
| native_callback attrs s b : native_reachable (s, b) -> native_reachable (s <| m_current_attrs := attrs |>, b)
| native_revoke start end_ s b b' : native_reachable (s, b) -> in_reach (.∈ m_dmi_cache s) start ->
    (forall d, backed d b -> outside start end_ d = true -> backed d b') ->
    native_reachable (invalidate_direct_mem_ptr profile start end_ s, b').

Lemma memory_read_coherent a data s b : 0 <= a -> 0 < vec_size data -> coherent s b ->
  let '(s', b', _, _) := memory_read bound has_as profile a data s b in coherent s' b'.
Proof.
  intros Ha Hl Hc. unfold memory_read. destruct has_as; [|by apply bus_access_coherent].
  set (s0 := count profile address_space_read_attempts s). pose proof (nb_as_read b a data (m_current_attrs s0)) as H1.
  destruct (as_read a data (m_current_attrs s0) b) as [[b1 d1] ok1]. destruct H1 as (_ & Hr & Hlen & _).
  pose proof (take_revoked_spec profile s0 b b1 ltac:(by apply coherent_count) Hr) as Ht.
  destruct (take_revoked profile s0 b1) as [s2 b2]. destruct Ht as [Hc2 _]. destruct ok1; [by apply coherent_count|].
  apply bus_access_coherent; [done|lia|done..].
Qed.

Lemma memory_write_coherent a data s b : 0 <= a -> 0 < vec_size data -> coherent s b ->
  let '(s', b', _) := memory_write bound has_as profile a data s b in coherent s' b'.
Proof.
  intros Ha Hl Hc. unfold memory_write.
  pose proof (fun s b Hc => bus_access_coherent bound profile TLM_WRITE_COMMAND tlm_write_attempts tlm_write_hits a data s b Ha Hl Hc
    ltac:(done)) as Hbus.
  destruct has_as.
  - set (s0 := count profile address_space_write_attempts s). pose proof (nb_as_write b a data (m_current_attrs s0)) as H1.
    destruct (as_write a data (m_current_attrs s0) b) as [b1 ok1]. destruct H1 as [Hr _].
    pose proof (take_revoked_spec profile s0 b b1 ltac:(by apply coherent_count) Hr) as Ht.
    destruct (take_revoked profile s0 b1) as [s2 b2]. destruct Ht as [Hc2 _]. destruct ok1; [by apply coherent_count|].
    specialize (Hbus s2 b2 Hc2). by destruct (bus_access _ _ _ _ _ _ _ s2 b2) as [[[s3 b3] d3] ok3].
  - specialize (Hbus s b Hc). by destruct (bus_access _ _ _ _ _ _ _ s b) as [[[s3 b3] d3] ok3].
Qed.

Lemma reachable_coherent w : native_reachable w -> coherent (fst w) (snd w).
Proof.
  induction 1 as [s b E|a data s b s' b' data' ok _ IH Ha Hl E|a data s b s' b' ok _ IH Ha Hl E|attrs s b _ IH|start end_ s b b' _ IH Hi Hr].
  - unfold coherent. cbn. rewrite E. by repeat constructor.
  - pose proof (memory_read_coherent a data s b Ha Hl IH) as H. by rewrite E in H.
  - pose proof (memory_write_coherent a data s b Ha Hl IH) as H. by rewrite E in H.
  - exact IH.
  - destruct IH as [Hb Hs]. unfold coherent. cbn [fst snd] in *.
    rewrite invalidate_cache by done. split; [|by apply filter_sorted].
    rewrite Forall_forall in *. intros d [Hd Ho]%elem_filter. by apply Hr; [apply Hb|].
Qed.
End reachable.

(** * Messages *)

Section hash.
Context {A B : Type} {bus : TlmTarget B} {context : NativeContext A B} {nbus : NativeBus A B}.
Context (has_as profile : bool) (p : cc3xx_params) (attrs : A).

Definition native_view (w : native A * B) : mem := nb_view (snd w).
Definition native_good (w : native A * B) : Prop := coherent (fst w) (snd w).

(** What the hash engine asks of a memory, the device's memory promises. *)
Lemma native_memory_law : memory_law (qemu_memory_if true has_as profile) native_view native_good nb_serves.
Proof.
  split; intros [s b] a buf Hg Ha Hl Hs; unfold native_good, native_view, same_view, qemu_memory_if in *; cbn [if_read if_write fst snd] in *.
  - pose proof (memory_read_spec true has_as profile eq_refl a buf s b Ha Hl Hg Hs) as H1.
    pose proof (memory_read_coherent true has_as profile a buf s b Ha Hl Hg) as H2.
    destruct (memory_read _ _ _ _ _ _ _) as [[[s' b'] d] ok]. cbn [fst snd]. destruct H1 as (-> & -> & Hv). by split_and!.
  - pose proof (memory_write_spec true has_as profile eq_refl a buf s b Ha Hl Hg Hs) as H1.
    pose proof (memory_write_coherent true has_as profile a buf s b Ha Hl Hg) as H2.
    destruct (memory_write _ _ _ _ _ _ _) as [[s' b'] ok]. cbn [fst snd]. destruct H1. by split_and!.
Qed.

(** A word written to, and read from, the registers by the callbacks. *)
Definition callback_write (off v : Z) (w : core * (native A * B)) : core * (native A * B) :=
  fst (qemu_write true has_as profile p off v 4 attrs w).

Definition callback_read (off : Z) (w : core * (native A * B)) : Z :=
  default 0 (snd (fst (qemu_read profile p off false 4 attrs w))).

Lemma callback_write_eq off v c w : native_good w -> is_u32 off -> off mod 4 = 0 -> off + 4 <= REG_BYTES -> is_u32 v ->
  exists c0 c' w0, same_state c c0 /\ same_view native_view native_good w w0 /\
    callback_write off v (c, w) = (c', snd (core_write32 (Some (qemu_memory_if true has_as profile)) off v c0 w0)) /\
    same_state (fst (core_write32 (Some (qemu_memory_if true has_as profile)) off v c0 w0)) c'.
Proof.
  destruct w as [s b]. intros Hg Ho Ha Hr Hv. unfold callback_write, qemu_write. change (8 <? 4) with false.
  cbv zeta. set (s0 := (count profile write_callbacks s) <| m_current_attrs := attrs |>). set (c0 := native_sync_core_config p c).
  destruct (core_write_one (qemu_memory_if true has_as profile) off v
    (put_data (get_data 4 (le_bytes 8 v)) (replicate 8 0)) (attrs_debug attrs) c0 (s0, b) Ho Ha Hr Hv) as (c' & -> & Hc); [done|]. cbv iota.
  destruct (core_write32 _ off v c0 (s0, b)) as [c1 [s1 b1]] eqn:E. cbn [fst snd] in *.
  exists c0, c', (s0, b). rewrite E. split; [by split|]. split; [|done]. split; [done|].
  unfold native_good in *. cbn [fst snd] in *. unfold coherent, s0. change (m_dmi_cache (_ <| m_current_attrs := _ |>))
    with (m_dmi_cache (count profile write_callbacks s)). unfold count. by rewrite count_cache.
Qed.

Lemma callback_read_register off c w : 0 <= off -> off + 4 <= REG_BYTES -> off <> PKA_SRAM_RDATA ->
  callback_read off (c, w) = core_load32 off c.
Proof.
  destruct w as [s b]. intros Ho Hr Hne. unfold callback_read, qemu_read. cbn [orb]. change (8 <? 4) with false.
  destruct (core_read_register off (replicate 8 0) (attrs_debug attrs) (native_sync_core_config p c) Ho Hr Hne) as [Hd Hst].
  destruct (core_read _ _ _ _ _) as [[c' data] [status n]]. cbn [fst snd] in *. injection Hst as -> ->. subst data. cbn [fst snd default].
  unfold id. pose proof (mem_read_length (m_regs c) off 4 ltac:(lia)) as Hn.
  change (m_regs (native_sync_core_config p c)) with (m_regs c). rewrite get_put_data by lia. done.
Qed.

Definition native_digest (w : core * (native A * B)) : list Z :=
  concat (map (fun i => be_bytes 4 (callback_read (HASH_H + i * 4) w)) (range 8)).
End hash.

(** * Properties *)

(** C7. The grants of direct memory that are cached never show, overlapping ones
    included, as long as every revoked range is in reach ([in_reach]): it does not
    begin inside one grant at or behind the start of another.  Whatever the engine
    read and wrote before, whatever was granted, and whatever was revoked in that
    way, by calls that were made or by the platform on its own, and whether or not
    the emulator offers an address space: a read of served addresses gives the bytes
    the bus serves now, and a write stores its bytes there and nowhere else.  A grant
    that is out of reach stays in use ([out_of_reach_stays]), and a read can then
    give revoked bytes ([overlap_stale_read]). *)
Theorem native_memory_transparent {A B} {bus : TlmTarget B} {context : NativeContext A B} {nbus : NativeBus A B}
    has_as profile s b a data :
  native_reachable true has_as profile (s, b) -> 0 <= a -> 0 < vec_size data ->
  (forall k, 0 <= k < vec_size data -> nb_serves (a + k)) ->
  (let '(_, b', data', ok) := memory_read true has_as profile a data s b in
   ok = true /\ data' = mem_read (nb_view b) a (vec_size data) /\ nb_view b' ≈ nb_view b) /\
  (let '(_, b', ok) := memory_write true has_as profile a data s b in
   ok = true /\ nb_view b' ≈ mem_write a data (nb_view b)).
Proof.
  intros Hr Ha Hl Hs. apply reachable_coherent in Hr. split; [by apply memory_read_spec|by apply memory_write_spec].
Qed.

(** C8. The device of the emulator hashes as the module on the bus does.  Driven over
    its callbacks as firmware drives it, with any segments of served memory, from any
    state its cache can be in, it fetches the message through address space, cached
    grants or transactions, and the digest registers read back the SHA-256 digest of
    the concatenated segments; the memory is not changed. *)
Theorem native_hash_digest {A B} {bus : TlmTarget B} {context : NativeContext A B} {nbus : NativeBus A B}
    has_as profile p attrs segments c s b :
  native_reachable true has_as profile (s, b) ->
  Forall (segment_ok nb_serves) segments -> vec_size (segments_data (nb_view b) segments) * 8 < 2 ^ 64 ->
  let w := hash_driver (callback_write has_as profile p attrs) segments (c, (s, b)) in
  native_digest profile p attrs w = SHA256 (segments_data (nb_view b) segments) /\ nb_view (snd (snd w)) ≈ nb_view b.
Proof.
  intros Hr Hs Hl. apply reachable_coherent in Hr.
  destruct (hash_driver_digest (qemu_memory_if true has_as profile) native_view native_good nb_serves
    (native_memory_law has_as profile) (callback_write has_as profile p attrs) (callback_write_eq has_as profile p attrs)
    segments c (s, b) Hr Hs Hl) as (c' & w' & -> & Hd & Hv & _).
  split; [|exact Hv]. change (nb_view b) with (native_view (s, b)). rewrite <- Hd. unfold native_digest, digest_registers. apply (f_equal (@concat Z)), map_ext_in.
  intros i Hi%list_elem_of_In%elem_of_range. by rewrite callback_read_register by (unfold HASH_H, REG_BYTES, PKA_SRAM_RDATA; lia).
Qed.

(** A plain memory that grants all of itself, at the pointer 0, and no address space. *)
Definition ram_dmi (size : Z) : tlm_dmi := MkDmi 0 0 (size - 1) true true.

Definition ram_native (size : Z) : NativeContext () mem := {|
  get_direct_mem_ptr t b := (b, Some (ram_dmi size));
  host_load ptr n b := mem_read b ptr n;
  host_store ptr data b := mem_write ptr data b;
  revoked b := (b, []);
  as_read a data _ b := (b, data, false);
  as_write a data _ b := (b, false);
  attrs_debug _ := false
|}.

#[refine] Definition ram_native_bus (size : Z) (Hsize : 0 < size) :
    NativeBus () mem (bus := ram size) (context := ram_native size) := {|
  nb_view b := b;
  nb_serves i := 0 <= i < size;
  backed d _ := d = ram_dmi size
|}.
Proof.
  - intros d b a n -> _ Hn H1 H2. cbn. f_equal. lia.
  - intros d b a data -> _ Hl H1 H2. cbn. split; [|done]. by rewrite Z.sub_0_r.
  - done.
  - intros b t. by split; [intros d ->|intros start end_ H%elem_of_nil].
  - intros b a d Hl Hs. pose proof (bus_read (MemoryBus := ram_bus size) b a (vec_size d) d ltac:(unfold vec_size in *; lia) Hs) as Hr.
    destruct (target_b_transport _ _ _) as [b' t']. destruct Hr as (Hok & Hv & Hd). split; [done|]. split; [exact Hv|].
    rewrite Hd. f_equal. unfold put_data. rewrite drop_ge; [by rewrite app_nil_r|].
    pose proof (mem_read_length b a (vec_size d) ltac:(lia)). unfold vec_size in *. cbn in *. lia.
  - intros b a d Hl Hs. pose proof (bus_write (MemoryBus := ram_bus size) b a (vec_size d) d ltac:(unfold vec_size in *; lia) Hs) as Hw.
    destruct (target_b_transport _ _ _) as [b' t']. destruct Hw as [Hok Hv]. split; [done|]. cbn in Hv. rewrite Hv.
    unfold get_data. rewrite take_ge by (unfold vec_size; lia). done.
  - intros b t. cbn. split; [done|]. split; [by split; [intros d ->|intros start end_ H%elem_of_nil]|]. intros d [= <-]. done.
  - intros b a d attrs. cbn. split; [done|]. split; [by split; [intros d' ->|intros start end_ H%elem_of_nil]|]. done.
  - intros b a d attrs. cbn. split; [by split; [intros d' ->|intros start end_ H%elem_of_nil]|]. done.
Defined.

(** A memory of 4 KiB whose host memory moves.  It grants 0x40-0x5f to requests
    there, and 0-0xff, which overlaps it, to others below; a write from 0xf00 on
    moves the host memory and revokes everything. *)
Record shelf := MkShelf { contents : mem; base : Z; moved : bool }.

Definition shelf_access (dbg : bool) (b : shelf) (t : tlm_payload) : shelf * tlm_payload * bool :=
  let '(m, t', ok) := ram_access 0x1000 dbg (contents b) t in
  let moves := ok && match Tlm.command t with TLM_WRITE_COMMAND => true | _ => false end && (0xf00 <=? address t) in
  (if moves then MkShelf m (base b + 0x10000) true else MkShelf m (base b) (moved b), t', ok).

#[refine] Definition shelf_target : TlmTarget shelf := {| tlm_access := shelf_access; target_inv b := mem_ok 0x1000 (contents b) |}.
Proof.
  - intros dbg b t b' t' ok Hb Ht H. unfold shelf_access in H. destruct (ram_access _ _ _ _) as [[m' t1] ok1] eqn:E.
    assert (mem_ok 0x1000 m') by (eapply (target_inv_access (TlmTarget := ram 0x1000)); [exact Hb|exact Ht|exact E]).
    simplify_eq. by case_if.
  - intros dbg b t b' t' ok H. unfold shelf_access in H. destruct (ram_access _ _ _ _) as [[m' t1] ok1] eqn:E. simplify_eq.
    by apply (target_status (TlmTarget := ram 0x1000)) in E.
  - intros dbg b t b' t' ok H. unfold shelf_access in H. destruct (ram_access _ _ _ _) as [[m' t1] ok1] eqn:E. simplify_eq.
    by apply (target_frame (TlmTarget := ram 0x1000)) in E.
  - intros dbg b t b' t' ok Hb Ht H. unfold shelf_access in H. destruct (ram_access _ _ _ _) as [[m' t1] ok1] eqn:E. simplify_eq.
    eapply (target_payload_ok (TlmTarget := ram 0x1000)); [exact Hb|exact Ht|exact E].
  - intros dbg b t b' t' ok H Hc. unfold shelf_access in H. destruct (ram_access _ _ _ _) as [[m' t1] ok1] eqn:E. simplify_eq.
    by apply (target_write_data (TlmTarget := ram 0x1000)) in E.
  - intros dbg b t b' t' H. unfold shelf_access in H. destruct (ram_access _ _ _ _) as [[m' t1] ok1] eqn:E. simplify_eq.
    cbn [andb]. apply (target_reject (TlmTarget := ram 0x1000)) in E as [-> ->]. by destruct b.
Defined.

Definition shelf_native : NativeContext () shelf := {|
  get_direct_mem_ptr t b :=
    (b, if (0x40 <=? address t) && (address t <=? 0x5f) then Some (MkDmi (base b + 0x40) 0x40 0x5f true true)
        else if (0 <=? address t) && (address t <=? 0xff) then Some (MkDmi (base b) 0 0xff true true) else None);
  host_load ptr n b := mem_read (contents b) (ptr - base b) n;
  host_store ptr data b := MkShelf (mem_write (ptr - base b) data (contents b)) (base b) (moved b);
  revoked b := (MkShelf (contents b) (base b) false, if moved b then [(0, 0xfff)] else []);
  as_read a data _ b := (b, data, false);
  as_write a data _ b := (b, false);
  attrs_debug _ := false
|}.

(** A grant in force points where the memory is now. *)
Definition shelf_backed (d : tlm_dmi) (b : shelf) : Prop :=
  dmi_ptr d = base b + start_address d /\ 0 <= start_address d <= end_address d /\ end_address d < 0x1000.

Lemma shelf_reach b : in_reach (fun d => shelf_backed d b) 0.
Proof. intros d d' (_ & H & _) (_ & H' & _) Hlt. lia. Qed.

Lemma shelf_revokes b b' : moved b' = true \/ base b' = base b -> revokes (context := shelf_native) shelf_backed b b'.
Proof.
  intros H. split.
  - intros d (Hp & Hd & He) Ho. cbn in *. destruct (moved b') eqn:E; [unfold outside in Ho; cbn in Ho; lia|].
    destruct H as [|H]; [done|]. unfold shelf_backed. cbn. by rewrite H.
  - intros start end_ Hin. cbn in Hin. destruct (moved b'); [|by apply elem_of_nil in Hin].
    apply list_elem_of_singleton in Hin as [= -> ->]. apply shelf_reach.
Qed.

Lemma shelf_transport b t :
  let '(b', t') := target_b_transport shelf_access b t in
  (contents b', t') = target_b_transport (ram_access 0x1000) (contents b) t /\ (moved b' = true \/ base b' = base b).
Proof.
  unfold target_b_transport, shelf_access. destruct (ram_access 0x1000 false (contents b) _) as [[m' t'] ok].
  cbv zeta. match goal with |- context [if ?x then _ else _] => destruct x end; (split; [done|]); [by left|by right].
Qed.

#[refine] Definition shelf_bus : NativeBus () shelf (bus := shelf_target) (context := shelf_native) := {|
  nb_view := contents; nb_serves i := 0 <= i < 0x1000; backed := shelf_backed
|}.
Proof.
  - intros d b a n (Hp & _) _ Hn H1 H2. cbn. f_equal. lia.
  - intros d b a data (Hp & _) _ Hl H1 H2. cbn. replace (dmi_ptr d + (a - start_address d) - base b) with a by lia. done.
  - done.
  - intros b t. pose proof (shelf_transport b t) as H. change (@tlm_access shelf shelf_target) with shelf_access.
    destruct (target_b_transport shelf_access b t) as [b' t']. destruct H as [_ H]. by apply shelf_revokes.
  - intros b a d Hl Hs. pose proof (bus_read (MemoryBus := ram_bus 0x1000) (contents b) a (vec_size d) d ltac:(unfold vec_size in *; lia) Hs) as Hr.
    pose proof (shelf_transport b (read_request a (vec_size d) d)) as H. change (@tlm_access shelf shelf_target) with shelf_access.
    change (@tlm_access mem (ram 0x1000)) with (ram_access 0x1000) in Hr.
    destruct (target_b_transport shelf_access _ _) as [b' t']. destruct H as [H _]. rewrite <-H in Hr.
    destruct Hr as (Hok & Hv & Hd). split; [done|]. split; [exact Hv|]. rewrite Hd. rewrite put_data_all; [done|].
    apply Nat2Z.inj. unfold vec_size. by rewrite mem_read_length by lia.
  - intros b a d Hl Hs. pose proof (bus_write (MemoryBus := ram_bus 0x1000) (contents b) a (vec_size d) d ltac:(unfold vec_size in *; lia) Hs) as Hw.
    pose proof (shelf_transport b (write_request a (vec_size d) d)) as H. change (@tlm_access shelf shelf_target) with shelf_access.
    change (@tlm_access mem (ram 0x1000)) with (ram_access 0x1000) in Hw.
    destruct (target_b_transport shelf_access _ _) as [b' t']. destruct H as [H _]. rewrite <-H in Hw.
    destruct Hw as [Hok Hv]. split; [done|]. cbn in Hv. rewrite Hv. unfold get_data. by rewrite take_ge by (unfold vec_size; lia).
  - intros b t. cbn. split; [done|]. split; [apply shelf_revokes; by right|].
    intros d. repeat case_if; intros [= <-]; unfold shelf_backed; cbn; lia.
  - intros b a d attrs. cbn. split; [done|]. split; [apply shelf_revokes; by right|]. done.
  - intros b a d attrs. cbn. split; [apply shelf_revokes; by right|]. done.
Defined.

(** A run: two overlapping grants are cached by reads, a write moves the host memory
    and revokes them while the call runs, the reads cache them again, and the
    platform moves the memory once more with other contents. *)
Definition shelf_read (a : Z) (w : native () * shelf) : native () * shelf :=
  fst (fst (memory_read (bus := shelf_target) (context := shelf_native) true false true a [0; 0] (fst w) (snd w))).

Definition shelf_write (a : Z) (w : native () * shelf) : native () * shelf :=
  fst (memory_write (bus := shelf_target) (context := shelf_native) true false true a [5] (fst w) (snd w)).

Definition shelf_start : native () * shelf :=
  (MkNative (fun _ => 0) () [], MkShelf (mem_write 0x10 [1; 2] (mem_write 0x40 [3; 4] ∅)) 0x7000 false).

Definition shelf_run : native () * shelf :=
  shelf_read 0x10 (shelf_read 0x40 (shelf_write 0xf00 (shelf_read 0x10 (shelf_read 0x40 shelf_start)))).

Definition shelf_moved : shelf := MkShelf (mem_write 0x10 [7; 8] (mem_write 0x40 [9; 9] ∅)) 0x90000 false.

Lemma shelf_read_reachable a w : 0 <= a ->
  native_reachable (bus := shelf_target) (context := shelf_native) (nbus := shelf_bus) true false true w ->
  native_reachable (bus := shelf_target) (context := shelf_native) (nbus := shelf_bus) true false true (shelf_read a w).
Proof.
  destruct w as [s b]. intros Ha Hr. unfold shelf_read. cbn [fst snd].
  destruct (memory_read _ _ _ _ _ _ _) as [[[s' b'] d] ok] eqn:E. cbn [fst]. exact (native_read true false true a [0; 0] s b s' b' d ok Hr Ha eq_refl E).
Qed.

Lemma shelf_run_reachable :
  native_reachable (bus := shelf_target) (context := shelf_native) (nbus := shelf_bus) true false true shelf_run.
Proof.
  do 2 (apply shelf_read_reachable; [done|]).
  assert (native_reachable (bus := shelf_target) (context := shelf_native) (nbus := shelf_bus) true false true
    (shelf_read 0x10 (shelf_read 0x40 shelf_start))) as H.
  { do 2 (apply shelf_read_reachable; [done|]). by apply native_start. }
  revert H. generalize (shelf_read 0x10 (shelf_read 0x40 shelf_start)). intros [s b] H. unfold shelf_write. cbn [fst snd].
  destruct (memory_write _ _ _ _ _ _ _) as [[s' b'] ok] eqn:E. cbn [fst]. exact (native_write true false true 0xf00 [5] s b s' b' ok H ltac:(lia) eq_refl E).
Qed.

(** Both grants are cached at the end of the run, at the place the memory moved to. *)
Lemma shelf_run_cache : m_dmi_cache (fst shelf_run) = [MkDmi 0x17000 0 0xff true true; MkDmi 0x17040 0x40 0x5f true true] /\
  base (snd shelf_run) = 0x17000.
Proof. by vm_compute. Qed.

Lemma shelf_run_in_reach : in_reach (.∈ m_dmi_cache (fst shelf_run)) 0.
Proof.
  destruct shelf_run_cache as [E _]. revert E. generalize (m_dmi_cache (fst shelf_run)). intros m -> d d' Hd Hd'.
  rewrite !elem_of_cons, elem_of_nil in Hd, Hd'. destruct Hd as [->|[->|[]]], Hd' as [->|[->|[]]]; cbn; lia.
Qed.

Lemma native_memory_transparent_witness :
  let s := invalidate_direct_mem_ptr true 0 0xfff (fst shelf_run) in
  ((let '(_, b', data', ok) := memory_read (bus := shelf_target) (context := shelf_native) true false true 0x10 [0; 0] s shelf_moved in
    ok = true /\ data' = mem_read (contents shelf_moved) 0x10 (vec_size [0; 0]) /\ contents b' ≈ contents shelf_moved) /\
   (let '(_, b', ok) := memory_write (bus := shelf_target) (context := shelf_native) true false true 0x10 [0; 0] s shelf_moved in
    ok = true /\ contents b' ≈ mem_write 0x10 [0; 0] (contents shelf_moved))) /\
  mem_read (contents shelf_moved) 0x10 (vec_size [0; 0]) = [7; 8].
Proof.
  intros s. split; [|by vm_compute].
  refine (native_memory_transparent (nbus := shelf_bus) false true s shelf_moved 0x10 [0; 0] _ _ _ _).
  - apply (native_revoke true false true 0 0xfff (fst shelf_run) (snd shelf_run)).
    + rewrite <-surjective_pairing. exact shelf_run_reachable.
    + exact shelf_run_in_reach.
    + intros d (_ & Hd & He) Ho. unfold outside in Ho. cbn in He. lia.
  - lia.
  - by vm_compute.
  - intros k Hk. unfold vec_size in Hk. cbn in *. lia.
Defined.

(** The platform once bytes 0x70-0x7f have moved elsewhere: the host memory the grants
    pointed to holds zeros there. *)
Definition shelf_freed : NativeContext () shelf := {|
  get_direct_mem_ptr t b := get_direct_mem_ptr (NativeContext := shelf_native) t b;
  host_load ptr n b := mem_read (mem_write 0x70 (replicate 16 0) (contents b)) (ptr - base b) n;
  host_store ptr data b := host_store (NativeContext := shelf_native) ptr data b;
  revoked b := revoked (NativeContext := shelf_native) b;
  as_read a data _ b := (b, data, false);
  as_write a data _ b := (b, false);
  attrs_debug _ := false
|}.

(** It revokes 0x70-0x7f, which is out of reach: the grant of 0-0xff starts before that
    of 0x40-0x5f.  A read from 0x30 on finds it in the cache and takes the zero its
    old memory has at 0x70, where the bus serves 1. *)
Lemma overlap_stale_read :
  let w := shelf_read 0x10 (shelf_read 0x40 shelf_start) in
  let s := invalidate_direct_mem_ptr true 0x70 0x7f (fst w) in
  let b := MkShelf (mem_write 0x70 [1] ∅) 0x7000 false in
  m_dmi_cache s = [MkDmi 0x7000 0 0xff true true; MkDmi 0x7040 0x40 0x5f true true] /\
  let '(_, _, data, ok) := memory_read (bus := shelf_target) (context := shelf_freed) true false true 0x30 (replicate 0x50 7) s b in
  ok = true /\ data !! 0x40%nat = Some 0 /\ mem_get (contents b) 0x70 = 1.
Proof. by vm_compute. Qed.

Lemma native_hash_digest_witness :
  let p := Cc3xxParams false 64 0 "all" 0 "" 0 in
  let segments := [(0x100, 2); (0x102, 1)] in
  let m := mem_write 0x100 [97; 98; 99] ∅ in
  let s := MkNative (fun _ => 0) () [] in
  let view := @nb_view () mem (ram 0x1000) (ram_native 0x1000) (ram_native_bus 0x1000 eq_refl) in
  let w := hash_driver (callback_write (bus := ram 0x1000) (context := ram_native 0x1000) false true p ()) segments (new_core, (s, m)) in
  native_digest (context := ram_native 0x1000) true p () w = SHA256 (segments_data (view m) segments) /\
  view (snd (snd w)) ≈ view m.
Proof.
  intros p segments m s view.
  exact (native_hash_digest (nbus := ram_native_bus 0x1000 eq_refl) false true p () segments new_core s m
    (native_start true false true s m eq_refl)
    ltac:(repeat (apply Forall_cons_2; [split_and!; try done; intros k Hk; cbn; lia|]); apply Forall_nil_2) ltac:(by vm_compute)).
Defined.
