(* ===== verification/RseLms.v ===== *)
(** Verification of LMS signatures by the RSE verification accelerator
    (qemu-components/rse_cpu_accel/include/rse_lms_accel.h), and the signature
    scheme of RFC 8554 it checks: every signature the scheme makes is accepted, and
    the digits a one-time key signs resist being dominated. *)

From S2P Require Import Prelude Bytes Vectors Sha256.

Definition LMS_SHA256_M32_H10 : Z := 0x00000006.
Definition LMOTS_SHA256_N32_W8 : Z := 0x00000004.
Definition I_KEY_ID_LEN : Z := 16.
Definition Q_LEAF_ID_LEN : Z := 4.
Definition LMOTS_P : Z := 34.
Definition LMS_HEIGHT : Z := 10.
Definition LMS_PUBLIC_KEY_LEN : Z := 4 + 4 + I_KEY_ID_LEN + HASH_LEN.
Definition LMOTS_SIG_LEN : Z := 4 + HASH_LEN + LMOTS_P * HASH_LEN.
Definition LMS_SIG_LEN : Z := Q_LEAF_ID_LEN + LMOTS_SIG_LEN + 4 + LMS_HEIGHT * HASH_LEN.

Definition d_message : list Z := [0x81; 0x81].
Definition d_public : list Z := [0x80; 0x80].
Definition d_leaf : list Z := [0x82; 0x82].
Definition d_intr : list Z := [0x83; 0x83].

(** * One-time signatures *)

(** [rse_lms_accel.h: "auto q_hash = sha256_concat({" .. "{ msg, msg_size },"] *)
Definition message_hash (i_key_id q_leaf_id c_random : list Z) (msg : option (list Z)) : list Z :=
  sha256_concat [Some i_key_id; Some q_leaf_id; Some d_message; Some c_random; msg].

(** [rse_lms_accel.h: "uint32_t checksum = 0;" .. "uint8_t digits[LMOTS_P];"] *)
Definition lmots_checksum (q_hash : list Z) : Z := foldl (fun checksum digit => u32 (checksum + u32 (0xff - digit))) 0 q_hash.

(** [rse_lms_accel.h: "uint8_t digits[LMOTS_P];" .. "store_be16(digits + HASH_LEN, static_cast<uint16_t>(checksum));"] *)
Definition lmots_digits (q_hash : list Z) : list Z := q_hash ++ be_bytes 2 (u16 (lmots_checksum q_hash)).

(** The steps of chain [i] from [from] on. *)
(** [rse_lms_accel.h: "uint8_t i_bytes[2];" .. "{ tmp.data(), tmp.size() },"] *)
Definition hash_chain (i_key_id q_leaf_id : list Z) (i from : Z) (tmp : list Z) : list Z :=
  foldl (fun tmp j => sha256_concat [Some i_key_id; Some q_leaf_id; Some (be_bytes 2 (u16 i)); Some [u8 j]; Some tmp])
    tmp (seqZ from (0xff - from)).

(** [rse_lms_accel.h: lmots_candidate] *)
Definition lmots_candidate (msg : option (list Z)) (sig i_key_id q_leaf_id : list Z) : option (list Z) :=
  if negb (vec_size sig =? LMOTS_SIG_LEN) || negb (load_be32 sig 0 =? LMOTS_SHA256_N32_W8) then None
  else
    let c_random := slice 4 HASH_LEN sig in
    let q_hash := message_hash i_key_id q_leaf_id c_random msg in
    let digits := lmots_digits q_hash in
    let hashed_digits := concat (map (fun i =>
      hash_chain i_key_id q_leaf_id i (arr_get digits i) (slice (4 + HASH_LEN + i * HASH_LEN) HASH_LEN sig)) (range LMOTS_P)) in
    Some (sha256_concat [Some i_key_id; Some q_leaf_id; Some d_public; Some hashed_digits]).

(** * The tree *)

(** [rse_lms_accel.h: "const uint32_t child_node_id = curr_node_id;" .. "{ sibling, HASH_LEN },"] *)
Definition tree_step (i_key_id sig : list Z) (at_ : Z * list Z) (height : Z) : Z * list Z :=
  let '(curr_node_id, node) := at_ in
  let child_node_id := curr_node_id in
  let sibling := slice (4 + LMOTS_SIG_LEN + 4 + height * HASH_LEN) HASH_LEN sig in
  let curr_node_id := curr_node_id / 2 in
  let node_id_bytes := be_bytes 4 curr_node_id in
  (curr_node_id,
   if test child_node_id 1
   then sha256_concat [Some i_key_id; Some node_id_bytes; Some d_intr; Some sibling; Some node]
   else sha256_concat [Some i_key_id; Some node_id_bytes; Some d_intr; Some node; Some sibling]).

(** A pointer to a buffer, with its size; a null message comes with a size of its own. *)
(** [rse_lms_accel.h: "inline bool verify(const uint8_t* public_key, size_t public_key_len," .. "return std::memcmp(node.data(), public_root, HASH_LEN) == 0;"] *)
Definition verify (public_key msg : option (list Z)) (null_size : Z) (sig : option (list Z)) : bool :=
  match public_key, sig with
  | Some public_key, Some sig =>
      if match msg with None => negb (null_size =? 0) | Some _ => false end then false
      else if negb (vec_size public_key =? LMS_PUBLIC_KEY_LEN) || negb (vec_size sig =? LMS_SIG_LEN) then false
      else if negb (load_be32 public_key 0 =? LMS_SHA256_M32_H10) || negb (load_be32 public_key 4 =? LMOTS_SHA256_N32_W8)
      then false
      else
        let i_key_id := slice 8 I_KEY_ID_LEN public_key in
        let public_root := slice 24 HASH_LEN public_key in
        if negb (load_be32 sig (4 + LMOTS_SIG_LEN) =? LMS_SHA256_M32_H10) then false
        else
          let q_leaf := load_be32 sig 0 in
          if Z.shiftl 1 LMS_HEIGHT <=? q_leaf then false
          else
            let q_leaf_id := be_bytes 4 q_leaf in
            match lmots_candidate msg (slice 4 LMOTS_SIG_LEN sig) i_key_id q_leaf_id with
            | None => false
            | Some kc =>
                let curr_node_id := Z.shiftl 1 LMS_HEIGHT + q_leaf in
                let node := sha256_concat [Some i_key_id; Some (be_bytes 4 curr_node_id); Some d_leaf; Some kc] in
                let '(_, node) := foldl (tree_step i_key_id sig) (curr_node_id, node) (range LMS_HEIGHT) in
                bool_decide (node = public_root)
            end
  | _, _ => false
  end.

(** [rse_lms_accel.h: "inline bool verify(const std::vector<uint8_t>& public_key," .. "}"] *)
Definition verify_vec (public_key msg sig : list Z) : bool := verify (Some public_key) (Some msg) 0 (Some sig).

(** * Pieces of a message *)

(** Element [i] of a run of pieces of [n] bytes. *)
Lemma slice_pieces n (pre : list Z) (ls : list (list Z)) post i : Forall (fun l => vec_size l = n) ls -> 0 <= n -> 0 <= i < vec_size ls ->
  slice (vec_size pre + n * i) n (pre ++ concat ls ++ post) = default [] (ls !! Z.to_nat i).
Proof.
  intros Hls Hn Hi. revert pre i Hi. induction Hls as [|l ls Hl _ IH]; intros pre i Hi.
  { unfold vec_size in Hi. cbn in Hi. lia. }
  cbn [concat]. destruct (Z.eq_dec i 0) as [->|Hne].
  - rewrite Z.mul_0_r, Z.add_0_r, <-app_assoc. cbn. rewrite <-Hl. apply slice_middle.
  - specialize (IH (pre ++ l) (i - 1)). replace (Z.to_nat i) with (S (Z.to_nat (i - 1))) by lia. rewrite <-app_assoc.
    rewrite sha_size_app, Hl, <-app_assoc in IH. replace (vec_size pre + n * i) with (vec_size pre + n + n * (i - 1)) by lia.
    apply IH. unfold vec_size in *. cbn [length] in Hi. lia.
Qed.

Lemma concat_pieces_size n (ls : list (list Z)) : Forall (fun l => vec_size l = n) ls -> vec_size (concat ls) = n * vec_size ls.
Proof.
  induction 1 as [|l ls Hl _ IH]; [unfold vec_size; cbn; lia|]. cbn [concat]. rewrite sha_size_app, Hl, IH.
  unfold vec_size. cbn [length]. lia.
Qed.

Lemma map_range_get {A} (f : Z -> A) n i d : 0 <= i < n -> default d (map f (range n) !! Z.to_nat i) = f i.
Proof.
  intros Hi. unfold range. rewrite list_lookup_fmap, lookup_seqZ_lt by lia. cbn. f_equal. lia.
Qed.

Lemma map_range_size {A} (f : Z -> A) n : 0 <= n -> vec_size (map f (range n)) = n.
Proof. intros Hn. unfold vec_size, range. rewrite length_map, length_seqZ. lia. Qed.

Lemma map_range_all {A} (P : A -> Prop) (f : Z -> A) n : (forall i, 0 <= i < n -> P (f i)) -> Forall P (map f (range n)).
Proof. intros H. apply Forall_map, Forall_forall. intros i Hi%elem_of_range. by apply H. Qed.

(** A number stored most significant byte first reads back. *)
Lemma load_be32_slice l off v : 0 <= off -> is_u32 v -> slice off 4 l = be_bytes 4 v -> load_be32 l off = v.
Proof.
  intros Ho Hv E. unfold load_be32.
  assert (forall k, 0 <= k < 4 -> arr_get l (off + k) = arr_get (be_bytes 4 v) k) as Hget.
  { intros k Hk. by rewrite <-E, slice_get. }
  rewrite <-(Z.add_0_r off) at 1. rewrite !Hget by lia.
  change (arr_get (be_bytes 4 v) 0) with (u8 (Z.shiftr v 24)).
  change (arr_get (be_bytes 4 v) 1) with (u8 (Z.shiftr v 16)).
  change (arr_get (be_bytes 4 v) 2) with (u8 (Z.shiftr v 8)).
  change (arr_get (be_bytes 4 v) 3) with (u8 (Z.shiftr v 0)).
  apply Z.bits_inj'. intros k Hk. unfold shl, wrap. rewrite !Z.lor_spec, !Z.testbit_mod_pow2 by lia.
  rewrite !Z.shiftl_spec by lia.
  destruct (Z.ltb_spec k 32) as [Hlt|Hge]; cbn [andb orb].
  2:{ replace (k <? 8) with false by lia. symmetry. rewrite <-(Z.mod_small v (2 ^ 32)) by done.
      by apply Z.mod_pow2_bits_high; lia. }
  assert (forall j, 0 <= j -> Z.testbit (Z.shiftr v j mod 2 ^ 8) (k - j) =
    (j <=? k) && (k <? j + 8) && Z.testbit v k) as Hb.
  { intros j Hj. destruct (Z.leb_spec j k); cbn [andb].
    - rewrite Z.testbit_mod_pow2, Z.shiftr_spec by lia. replace (k - j + j) with k by lia.
      by replace (k - j <? 8) with (k <? j + 8) by lia.
    - by apply Z.testbit_neg_r; lia. }
  rewrite (Hb 24), (Hb 16), (Hb 8), Z.shiftr_spec by lia. rewrite Z.add_0_r.
  destruct (Z.testbit v k); rewrite ?andb_true_r, ?andb_false_r; [|done]. lia.
Qed.

(** * The scheme *)

(** The sum of the distances of the digits from the end of their chains. *)
Definition digit_sum (ds : list Z) : Z := foldr (fun d n => (0xff - d) + n) 0 ds.

Definition ots_digits (h : list Z) : list Z := h ++ be_bytes 2 (digit_sum h).

Lemma sha_eq chunks l : concat (map (default []) chunks) = l -> vec_size l * 8 < 2 ^ 64 -> sha256_concat chunks = SHA256 l.
Proof. intros <- Hl. by apply sha256_concat_spec. Qed.

Lemma be_size n v : 0 <= n -> vec_size (be_bytes n v) = n.
Proof. apply be_bytes_length. Qed.

Lemma digit_sum_range ds : bytes_ok ds -> 0 <= digit_sum ds <= 255 * vec_size ds.
Proof.
  induction 1 as [|d ds [Hd Hd'] _ IH]; [by cbv|]. unfold vec_size in *. cbn [digit_sum foldr length].
  change (foldr _ 0 ds) with (digit_sum ds). lia.
Qed.

Lemma checksum_sum ds n : bytes_ok ds -> 0 <= n -> n + 255 * vec_size ds < 2 ^ 32 ->
  foldl (fun checksum digit => u32 (checksum + u32 (0xff - digit))) n ds = n + digit_sum ds.
Proof.
  intros Hds. revert n. induction Hds as [|d ds [Hd Hd'] _ IH]; intros n Hn Hl; [cbn; lia|].
  unfold vec_size in *. cbn [foldl digit_sum foldr length] in *. change (foldr _ 0 ds) with (digit_sum ds).
  rewrite (wrap_small 32 (255 - d)) by (split; lia). rewrite wrap_small by (split; lia). rewrite IH by lia. lia.
Qed.

Lemma lmots_digits_eq h : bytes_ok h -> vec_size h = HASH_LEN -> lmots_digits h = ots_digits h.
Proof.
  unfold HASH_LEN. intros Hh Hl. unfold lmots_digits, ots_digits, lmots_checksum. do 2 f_equal.
  rewrite checksum_sum by (done || lia). pose proof (digit_sum_range h Hh). rewrite wrap_small; [done|split; lia].
Qed.

Lemma ots_digits_range h i : bytes_ok h -> vec_size h = HASH_LEN -> 0 <= arr_get (ots_digits h) i <= 255.
Proof.
  intros Hh Hl. assert (bytes_ok (ots_digits h)) as Hok by (apply Forall_app_2; [done|apply be_bytes_ok]).
  unfold arr_get. destruct (_ !! _) as [d|] eqn:E; [|by cbv]. pose proof (Forall_lookup_1 _ _ _ _ Hok E) as [Hd Hd'].
  change (0 <= d <= 255). lia.
Qed.

Lemma slice_pre (l post : list Z) n : vec_size l = n -> slice 0 n (l ++ post) = l.
Proof. intros <-. apply (slice_middle []). Qed.

Lemma slice_mid off n (pre l post : list Z) : vec_size pre = off -> vec_size l = n -> slice off n (pre ++ l ++ post) = l.
Proof. intros <- <-. apply slice_middle. Qed.

(** The siblings of the children of a node. *)
Lemma sibling_even m : 0 <= m -> Z.lxor (2 * m) 1 = 2 * m + 1 /\ test (2 * m) 1 = false.
Proof. intros Hm. destruct m as [|m|m]; [done|done|lia]. Qed.

Lemma sibling_odd m : 0 <= m -> Z.lxor (2 * m + 1) 1 = 2 * m /\ test (2 * m + 1) 1 = true.
Proof. intros Hm. destruct m as [|m|m]; [done|done|lia]. Qed.

Section scheme.
(** A key: its identifier and the starts of its chains, per leaf. *)
Context (I : list Z) (x : Z -> Z -> list Z).
Hypothesis HI : vec_size I = I_KEY_ID_LEN.
Hypothesis Hx : forall q i, vec_size (x q i) = HASH_LEN.

(** Steps [from] to [upto - 1] of chain [i] of leaf [q]. *)
Definition chain (q i from upto : Z) (tmp : list Z) : list Z :=
  foldl (fun tmp j => SHA256 (I ++ be_bytes 4 q ++ be_bytes 2 i ++ [j] ++ tmp)) tmp (seqZ from (upto - from)).

Definition ots_public_key (q : Z) : list Z :=
  SHA256 (I ++ be_bytes 4 q ++ d_public ++ concat (map (fun i => chain q i 0 255 (x q i)) (range LMOTS_P))).

(** Node [r] of the tree, of the given height over the leaves. *)
Fixpoint tree (height : nat) (r : Z) : list Z :=
  match height with
  | O => SHA256 (I ++ be_bytes 4 r ++ d_leaf ++ ots_public_key (r - 2 ^ LMS_HEIGHT))
  | S height => SHA256 (I ++ be_bytes 4 r ++ d_intr ++ tree height (2 * r) ++ tree height (2 * r + 1))
  end.

Definition lms_public_key : list Z :=
  be_bytes 4 LMS_SHA256_M32_H10 ++ be_bytes 4 LMOTS_SHA256_N32_W8 ++ I ++ tree 10 1.

Definition ots_sign (q : Z) (C msg : list Z) : list Z :=
  let digits := ots_digits (SHA256 (I ++ be_bytes 4 q ++ d_message ++ C ++ msg)) in
  be_bytes 4 LMOTS_SHA256_N32_W8 ++ C ++
  concat (map (fun i => chain q i 0 (arr_get digits i) (x q i)) (range LMOTS_P)).

(** The siblings of the nodes between leaf [q] and the root. *)
Definition auth_path (q : Z) : list Z :=
  concat (map (fun h => tree (Z.to_nat h) (Z.lxor (Z.shiftr (2 ^ LMS_HEIGHT + q) h) 1)) (range LMS_HEIGHT)).

Definition lms_sign (q : Z) (C msg : list Z) : list Z :=
  be_bytes 4 q ++ ots_sign q C msg ++ be_bytes 4 LMS_SHA256_M32_H10 ++ auth_path q.

(** * The accelerator computes the scheme *)

Lemma chain_size q i from upto tmp : vec_size tmp = HASH_LEN -> vec_size (chain q i from upto tmp) = HASH_LEN.
Proof.
  unfold chain. generalize (seqZ from (upto - from)). intros l. revert tmp. induction l as [|j l IH]; intros tmp Ht; [done|].
  cbn [foldl]. apply IH, SHA256_size.
Qed.

Lemma hash_chain_eq q i from tmp : is_u16 i -> 0 <= from -> vec_size tmp = HASH_LEN ->
  hash_chain I (be_bytes 4 q) i from tmp = chain q i from 255 tmp.
Proof using HI.
  intros Hi Hf. unfold hash_chain, chain. rewrite (wrap_small 16 i) by done. assert (Forall (fun j => 0 <= j < 255) (seqZ from (255 - from))) as Hl.
  { apply Forall_forall. intros j Hj%elem_of_seqZ. lia. }
  revert tmp. induction Hl as [|j l Hj _ IH]; intros tmp Ht; [done|]. cbn [foldl].
  rewrite (wrap_small 8 j) by (split; lia).
  rewrite (sha_eq _ (I ++ be_bytes 4 q ++ be_bytes 2 i ++ [j] ++ tmp)).
  - apply IH, SHA256_size.
  - cbn [map concat default]. by rewrite app_nil_r.
  - rewrite !sha_size_app, !be_size, HI, Ht by lia. by cbv.
Qed.

(** A chain walked in two parts is walked whole. *)
Lemma chain_split q i mid tmp : 0 <= mid <= 255 -> chain q i mid 255 (chain q i 0 mid tmp) = chain q i 0 255 tmp.
Proof.
  intros Hm. unfold chain. rewrite <-foldl_app. f_equal. replace (255 - 0) with (mid + (255 - mid)) by lia.
  rewrite seqZ_app by lia. by rewrite Z.sub_0_r.
Qed.

Lemma ots_pieces q (digits : list Z) :
  Forall (fun l => vec_size l = HASH_LEN) (map (fun i => chain q i 0 (arr_get digits i) (x q i)) (range LMOTS_P)).
Proof using Hx. apply map_range_all. intros i _. apply chain_size, Hx. Qed.

Lemma ots_sign_size q C msg : vec_size C = HASH_LEN -> vec_size (ots_sign q C msg) = LMOTS_SIG_LEN.
Proof using Hx.
  intros HC. unfold ots_sign. cbv zeta. rewrite !sha_size_app, be_size, HC by lia.
  rewrite (concat_pieces_size HASH_LEN) by apply ots_pieces. by rewrite map_range_size.
Qed.

Lemma lmots_candidate_sign q C msg : vec_size C = HASH_LEN -> vec_size msg < 2 ^ 60 ->
  lmots_candidate (Some msg) (ots_sign q C msg) I (be_bytes 4 q) = Some (ots_public_key q).
Proof using HI Hx.
  intros HC Hm. unfold lmots_candidate. rewrite ots_sign_size by done.
  set (h := SHA256 (I ++ be_bytes 4 q ++ d_message ++ C ++ msg)).
  assert (slice 0 4 (ots_sign q C msg) = be_bytes 4 LMOTS_SHA256_N32_W8) as H0 by (by apply slice_pre, be_size).
  assert (slice 4 HASH_LEN (ots_sign q C msg) = C) as -> by (apply slice_mid; [by apply be_size|done]).
  rewrite (load_be32_slice _ 0 LMOTS_SHA256_N32_W8 ltac:(lia) ltac:(by split) H0), !Z.eqb_refl. cbn [negb orb]. cbv zeta.
  assert (message_hash I (be_bytes 4 q) C (Some msg) = h) as ->.
  { apply sha_eq; [cbn; by rewrite app_nil_r|]. rewrite !sha_size_app, be_size, HI, HC by lia.
    change (vec_size d_message) with 2. unfold I_KEY_ID_LEN, HASH_LEN. lia. }
  assert (bytes_ok h /\ vec_size h = HASH_LEN) as [Hh Hl] by (split; [apply SHA256_ok|apply SHA256_size]).
  rewrite lmots_digits_eq by done.
  set (ends := map (fun i => chain q i 0 255 (x q i)) (range LMOTS_P)).
  assert (vec_size (concat ends) = HASH_LEN * LMOTS_P) as He.
  { rewrite (concat_pieces_size HASH_LEN); [by unfold ends; rewrite map_range_size|]. apply map_range_all. intros i _. apply chain_size, Hx. }
  rewrite (map_ext_in _ (fun i => chain q i 0 255 (x q i))).
  - f_equal. apply sha_eq; [cbn; by rewrite app_nil_r|]. fold ends.
    rewrite !sha_size_app, be_size, HI, He by lia. by cbv.
  - intros i Hi%list_elem_of_In%elem_of_range. unfold LMOTS_P in Hi.
    pose proof (slice_pieces HASH_LEN (be_bytes 4 LMOTS_SHA256_N32_W8 ++ C) _ [] i (ots_pieces q (ots_digits h)) ltac:(done)) as Hs.
    rewrite map_range_size in Hs by done. specialize (Hs Hi). rewrite map_range_get in Hs by done.
    rewrite sha_size_app, be_size, HC, app_nil_r, <-app_assoc in Hs by lia.
    rewrite (Z.mul_comm i). fold (ots_sign q C msg) in Hs. unfold ots_sign. cbv zeta. fold h. rewrite Hs.
    pose proof (ots_digits_range h i Hh Hl). rewrite hash_chain_eq by (done || lia || (split; lia) || apply chain_size, Hx).
    apply chain_split. lia.
Qed.

Lemma tree_size height r : vec_size (tree height r) = HASH_LEN.
Proof. destruct height; apply SHA256_size. Qed.

Lemma tree_step_spec sig k r : 0 <= r -> 0 <= k ->
  slice (4 + LMOTS_SIG_LEN + 4 + k * HASH_LEN) HASH_LEN sig = tree (Z.to_nat k) (Z.lxor r 1) ->
  tree_step I sig (r, tree (Z.to_nat k) r) k = (Z.shiftr r 1, tree (Z.to_nat (k + 1)) (Z.shiftr r 1)).
Proof using HI.
  intros Hr Hk Hs. unfold tree_step. rewrite Hs. rewrite Z.shiftr_div_pow2 by lia. change (2 ^ 1) with 2.
  replace (Z.to_nat (k + 1)) with (S (Z.to_nat k)) by lia. f_equal. cbn [tree].
  pose proof (Z.div_mod r 2 ltac:(lia)) as Hd. pose proof (Z.mod_pos_bound r 2 ltac:(lia)) as Hb.
  pose proof (Z.div_pos r 2 Hr ltac:(lia)) as Hm.
  assert (forall l l', sha256_concat [Some I; Some (be_bytes 4 (r / 2)); Some d_intr; Some (tree (Z.to_nat k) l); Some (tree (Z.to_nat k) l')] =
    SHA256 (I ++ be_bytes 4 (r / 2) ++ d_intr ++ tree (Z.to_nat k) l ++ tree (Z.to_nat k) l')) as Hsha.
  { intros l l'. apply sha_eq; [cbn; by rewrite app_nil_r|]. rewrite !sha_size_app, !tree_size, be_size, HI by lia. by cbv. }
  destruct (Z.eq_dec (r mod 2) 0) as [E|E].
  - destruct (sibling_even (r / 2) Hm) as [Hx1 Ht1]. assert (2 * (r / 2) = r) as Er by lia. rewrite Er in *. rewrite Ht1, Hx1. apply Hsha.
  - destruct (sibling_odd (r / 2) Hm) as [Hx1 Ht1]. assert (2 * (r / 2) + 1 = r) as Er by lia. rewrite Er in *. rewrite Ht1, Hx1. apply Hsha.
Qed.

Lemma auth_pieces q : Forall (fun l => vec_size l = HASH_LEN)
  (map (fun h => tree (Z.to_nat h) (Z.lxor (Z.shiftr (2 ^ LMS_HEIGHT + q) h) 1)) (range LMS_HEIGHT)).
Proof. apply map_range_all. intros h _. apply tree_size. Qed.

Lemma lms_sign_size q C msg : vec_size C = HASH_LEN -> vec_size (lms_sign q C msg) = LMS_SIG_LEN.
Proof using Hx.
  intros HC. unfold lms_sign, auth_path. rewrite !sha_size_app, !be_size, ots_sign_size by (done || lia).
  rewrite (concat_pieces_size HASH_LEN) by apply auth_pieces. by rewrite map_range_size.
Qed.

(** The siblings a signature carries. *)
Lemma sign_sibling q C msg k : vec_size C = HASH_LEN -> 0 <= k < LMS_HEIGHT ->
  slice (4 + LMOTS_SIG_LEN + 4 + k * HASH_LEN) HASH_LEN (lms_sign q C msg) =
  tree (Z.to_nat k) (Z.lxor (Z.shiftr (2 ^ LMS_HEIGHT + q) k) 1).
Proof using Hx.
  intros HC Hk. pose proof (slice_pieces HASH_LEN (be_bytes 4 q ++ ots_sign q C msg ++ be_bytes 4 LMS_SHA256_M32_H10) _ [] k
    (auth_pieces q) ltac:(done)) as Hs.
  rewrite map_range_size in Hs by done. specialize (Hs Hk). rewrite map_range_get in Hs by done.
  rewrite !sha_size_app, !be_size, ots_sign_size, app_nil_r, <-!app_assoc in Hs by (done || lia).
  rewrite (Z.mul_comm k). etransitivity; [|exact Hs]. unfold lms_sign, auth_path. f_equal; lia.
Qed.

(** The loop walks up from the leaf, one level of the tree per turn. *)
Lemma tree_walk q C msg : vec_size C = HASH_LEN -> 0 <= q < 2 ^ LMS_HEIGHT ->
  foldl (tree_step I (lms_sign q C msg)) (2 ^ LMS_HEIGHT + q, tree 0 (2 ^ LMS_HEIGHT + q)) (range LMS_HEIGHT) = (1, tree 10 1).
Proof using HI Hx.
  intros HC Hq. set (r := 2 ^ LMS_HEIGHT + q).
  assert (foldl (tree_step I (lms_sign q C msg)) (r, tree 0 r) (range LMS_HEIGHT) =
    (Z.shiftr r LMS_HEIGHT, tree (Z.to_nat LMS_HEIGHT) (Z.shiftr r LMS_HEIGHT))) as ->.
  - apply (foldl_range_ind _ (fun k at_ => at_ = (Z.shiftr r k, tree (Z.to_nat k) (Z.shiftr r k)))); [done..|].
    intros k at_ Hk ->. rewrite tree_step_spec; [by rewrite Z.shiftr_shiftr by lia|apply Z.shiftr_nonneg; unfold r; lia|lia|].
    by apply sign_sibling.
  - assert (Z.shiftr r LMS_HEIGHT = 1) as ->; [|done]. rewrite Z.shiftr_div_pow2 by done. symmetry.
    apply (Z.div_unique _ _ _ q); unfold r; lia.
Qed.
End scheme.

(** C14. Every LMS signature (RFC 8554, SHA-256, height 10, one-time width 8) made with
    a key under any identifier and chain starts, for any leaf, randomizer and message,
    is accepted under that key: the chains are completed to the one-time public key and
    the siblings lead from its leaf to the root of the key's tree. *)
Theorem lms_verify_complete I x q C msg :
  vec_size I = I_KEY_ID_LEN -> (forall q i, vec_size (x q i) = HASH_LEN) ->
  0 <= q < 2 ^ LMS_HEIGHT -> vec_size C = HASH_LEN -> vec_size msg < 2 ^ 60 ->
  verify_vec (lms_public_key I x) msg (lms_sign I x q C msg) = true.
Proof.
  intros HI Hx Hq HC Hm. unfold verify_vec, verify.
  assert (vec_size (lms_public_key I x) = LMS_PUBLIC_KEY_LEN) as ->.
  { unfold lms_public_key. by rewrite !sha_size_app, !be_size, HI, tree_size. }
  rewrite (lms_sign_size I x Hx q C msg HC).
  assert (is_u32 q) as Hq32 by (unfold LMS_HEIGHT in Hq; split; lia).
  rewrite (load_be32_slice (lms_public_key I x) 0 LMS_SHA256_M32_H10), (load_be32_slice (lms_public_key I x) 4 LMOTS_SHA256_N32_W8)
    by (done || by apply slice_pre || by apply slice_mid).
  rewrite (load_be32_slice (lms_sign I x q C msg) 0 q) by (done || by apply slice_pre).
  rewrite (load_be32_slice (lms_sign I x q C msg) (4 + LMOTS_SIG_LEN) LMS_SHA256_M32_H10); [|done|done|].
  2:{ unfold lms_sign. rewrite app_assoc. apply slice_mid; [|done]. by rewrite sha_size_app, ots_sign_size. }
  rewrite !Z.eqb_refl. cbn [negb orb].
  assert (slice 8 I_KEY_ID_LEN (lms_public_key I x) = I) as ->.
  { unfold lms_public_key. rewrite app_assoc. by apply slice_mid. }
  assert (slice 24 HASH_LEN (lms_public_key I x) = tree I x 10 1) as ->.
  { replace (lms_public_key I x) with ((be_bytes 4 LMS_SHA256_M32_H10 ++ be_bytes 4 LMOTS_SHA256_N32_W8 ++ I) ++ tree I x 10 1 ++ [])
      by (rewrite app_nil_r, <-!app_assoc; done).
    apply slice_mid; [|apply tree_size]. by rewrite !sha_size_app, !be_size, HI. }
  change (Z.shiftl 1 LMS_HEIGHT) with (2 ^ LMS_HEIGHT). replace (2 ^ LMS_HEIGHT <=? q) with false by lia.
  assert (slice 4 LMOTS_SIG_LEN (lms_sign I x q C msg) = ots_sign I x q C msg) as ->.
  { apply slice_mid; [done|by apply ots_sign_size]. }
  rewrite lmots_candidate_sign by done. cbv zeta.
  rewrite (sha_eq _ (I ++ be_bytes 4 (2 ^ LMS_HEIGHT + q) ++ d_leaf ++ ots_public_key I x q)).
  - assert (SHA256 (I ++ be_bytes 4 (2 ^ LMS_HEIGHT + q) ++ d_leaf ++ ots_public_key I x q) = tree I x 0 (2 ^ LMS_HEIGHT + q)) as ->.
    { cbn [tree]. by replace (2 ^ LMS_HEIGHT + q - 2 ^ LMS_HEIGHT) with q by lia. }
    rewrite tree_walk by done. by apply bool_decide_eq_true_2.
  - cbn. by rewrite app_nil_r.
  - unfold ots_public_key. rewrite !sha_size_app, SHA256_size, be_size, HI by lia. by cbv.
Qed.

Lemma lms_verify_complete_witness :
  verify_vec (lms_public_key (replicate 16 7) (fun _ i => replicate 32 (i mod 256))) [1; 2; 3]
    (lms_sign (replicate 16 7) (fun _ i => replicate 32 (i mod 256)) 5 (replicate 32 9) [1; 2; 3]) = true.
Proof. by apply lms_verify_complete. Defined.

(** * Digits *)

Lemma digit_sum_le h h' : Forall2 Z.le h h' -> digit_sum h' <= digit_sum h /\ (h = h' \/ digit_sum h' < digit_sum h).
Proof.
  induction 1 as [|d d' h h' Hd _ [IH1 IH2]]; [by split; [|left]|].
  cbn [digit_sum foldr]. fold (digit_sum h) (digit_sum h'). split; [lia|].
  destruct (Z.eq_dec d d') as [->|Hne]; [|right; lia]. destruct IH2 as [->|IH2]; [by left|right; lia].
Qed.

Lemma arr_get_app_l l l' i : 0 <= i < vec_size l -> arr_get (l ++ l') i = arr_get l i.
Proof. unfold arr_get, vec_size. intros Hi. by rewrite lookup_app_l by lia. Qed.

Lemma arr_get_app_r l l' i : 0 <= i -> arr_get (l ++ l') (vec_size l + i) = arr_get l' i.
Proof. unfold arr_get, vec_size. intros Hi. rewrite lookup_app_r by lia. do 2 f_equal. lia. Qed.

(** The two bytes of the checksum. *)
Lemma checksum_bytes v : is_u16 v -> arr_get (be_bytes 2 v) 0 * 256 + arr_get (be_bytes 2 v) 1 = v.
Proof.
  intros [Hv Hv']. change (arr_get (be_bytes 2 v) 0) with (u8 (Z.shiftr v 8)). change (arr_get (be_bytes 2 v) 1) with (u8 (Z.shiftr v 0)).
  unfold wrap. rewrite !Z.shiftr_div_pow2 by lia. change (2 ^ 8) with 256. change (2 ^ 0) with 1. change (2 ^ 16) with 65536 in Hv'.
  rewrite Z.div_1_r. pose proof (Z.div_mod v 256 ltac:(lia)). rewrite (Z.mod_small (v / 256)); [lia|].
  split; [apply Z.div_pos; lia|]. apply Z.div_lt_upper_bound; lia.
Qed.

Lemma checksum_digit h k : vec_size h = HASH_LEN -> 0 <= k -> arr_get (ots_digits h) (32 + k) = arr_get (be_bytes 2 (digit_sum h)) k.
Proof. intros Hl Hk. change 32 with HASH_LEN. rewrite <-Hl. by apply arr_get_app_r. Qed.

(** C38. The checksum digits guard a one-time signature: of the digits two different
    message hashes sign, neither set lies above the other, so signing one hash never
    reveals every chain value a signature of the other needs; somewhere its digit is
    smaller and the chain would have to be walked backwards. *)
Theorem lmots_digits_antichain h h' :
  bytes_ok h -> bytes_ok h' -> vec_size h = HASH_LEN -> vec_size h' = HASH_LEN -> h <> h' ->
  exists i, 0 <= i < LMOTS_P /\ arr_get (lmots_digits h') i < arr_get (lmots_digits h) i.
Proof.
  intros Hh Hh' Hl Hl' Hne. rewrite !lmots_digits_eq by done.
  destruct (decide (Exists (fun i => arr_get (ots_digits h') i < arr_get (ots_digits h) i) (range LMOTS_P))) as [He|He].
  { apply Exists_exists in He as (i & Hi%elem_of_range & Hlt). by exists i. }
  exfalso. assert (forall i, 0 <= i < LMOTS_P -> arr_get (ots_digits h) i <= arr_get (ots_digits h') i) as Hall.
  { intros i Hi. destruct (Z.le_gt_cases (arr_get (ots_digits h) i) (arr_get (ots_digits h') i)); [done|].
    exfalso. apply He, Exists_exists. exists i. by rewrite elem_of_range. }
  assert (Forall2 Z.le h h') as H2.
  { apply Forall2_same_length_lookup. split; [unfold vec_size in *; lia|]. intros i d d' Hd Hd'.
    pose proof (lookup_lt_Some _ _ _ Hd). unfold HASH_LEN, LMOTS_P in *. specialize (Hall (Z.of_nat i) ltac:(unfold vec_size in *; lia)).
    unfold ots_digits in Hall. rewrite !arr_get_app_l in Hall by (unfold vec_size in *; lia).
    unfold arr_get in Hall. by rewrite Nat2Z.id, Hd, Hd' in Hall. }
  pose proof (Hall (32 + 0) ltac:(done)) as H32. pose proof (Hall (32 + 1) ltac:(done)) as H33.
  rewrite !checksum_digit in H32, H33 by (done || lia).
  pose proof (digit_sum_range h Hh) as R. pose proof (digit_sum_range h' Hh') as R'. unfold HASH_LEN in *.
  pose proof (checksum_bytes (digit_sum h) ltac:(split; lia)). pose proof (checksum_bytes (digit_sum h') ltac:(split; lia)).
  destruct (digit_sum_le h h' H2) as [_ [Heq|Hlt]]; [done|lia].
Qed.

Lemma lmots_digits_antichain_witness :
  let h := replicate 32 0 in
  let h' := replicate 32 1 in
  exists i, 0 <= i < LMOTS_P /\ arr_get (lmots_digits h') i < arr_get (lmots_digits h) i.
Proof.
  apply lmots_digits_antichain; [apply Forall_replicate; by split|apply Forall_replicate; by split|done|done|done].
Defined.
