(* ===== verification/Primality.v ===== *)
(** Certificates of primality, for the field of the curve in RseP256: a number is
    prime when the prime factors given for its predecessor are enough (Pocklington). *)

From Stdlib Require Import Znumtheory ZmodInv.
From S2P Require Import Prelude.

(** * Divisors *)

(** A number that is not prime has a prime divisor up to its square root. *)
Lemma prime_divisor m : 1 < m -> exists r, Z.prime r /\ (r | m).
Proof.
  intros H. assert (0 <= m) as H0 by lia. revert m H0 H.
  apply (Z_lt_induction (fun m => 1 < m -> exists r, Z.prime r /\ (r | m))). intros m IH Hm.
  destruct (prime_dec m) as [Hp|Hp]; [exists m; split; [by apply prime_alt|done]|].
  destruct (not_prime_divide m Hm Hp) as (d & Hd & Hdm). destruct (IH d ltac:(lia) ltac:(lia)) as (r & Hr & Hrd).
  exists r. split; [done|]. by apply (Z.divide_trans _ d).
Qed.

Lemma small_prime_divisor m : 1 < m -> ~ Z.prime m -> exists r, Z.prime r /\ (r | m) /\ r * r <= m.
Proof.
  intros Hm Hp. destruct (not_prime_divide m Hm) as (d & Hd & e & He); [by rewrite <-prime_alt|].
  assert (exists s, 1 < s /\ s * s <= m /\ (s | m)) as (s & Hs & Hss & Hsm).
  { assert (1 < e) by nia. destruct (Z.le_gt_cases d e).
    - exists d. split; [lia|]. split; [nia|by exists e].
    - exists e. split; [done|]. split; [nia|exists d; lia]. }
  destruct (prime_divisor s Hs) as (r & Hr & Hrs). exists r. split; [done|].
  split; [by apply (Z.divide_trans _ s)|]. pose proof (Z.divide_pos_le r s ltac:(lia) Hrs). pose proof (Z.prime_ge_2 _ Hr). nia.
Qed.

(** Trial division. *)
Definition no_divisor (m : Z) : bool :=
  (1 <? m) && forallb (fun d => negb (m mod d =? 0)) (seqZ 2 (Z.sqrt m - 1)).

Lemma no_divisor_prime m : no_divisor m = true -> Z.prime m.
Proof.
  unfold no_divisor. intros [Hm H]%andb_prop. apply Z.ltb_lt in Hm.
  destruct (prime_dec m) as [Hp|Hp]; [by apply prime_alt|]. exfalso.
  destruct (small_prime_divisor m Hm) as (r & Hr & Hrm & Hle); [by rewrite prime_alt|].
  rewrite forallb_forall in H. pose proof (Z.prime_ge_2 _ Hr).
  assert (r <= Z.sqrt m) by (apply Z.sqrt_le_square; lia).
  specialize (H r ltac:(apply list_elem_of_In, elem_of_seqZ; lia)). apply Z.mod_divide in Hrm; [|lia]. rewrite Hrm in H. done.
Qed.

(** * Powers *)

(** Square and multiply. *)
Fixpoint powmod (x m : Z) (e : positive) : Z :=
  match e with
  | xH => x mod m
  | xO e => let y := powmod x m e in (y * y) mod m
  | xI e => let y := powmod x m e in ((y * y) mod m * x) mod m
  end.

Lemma powmod_spec x m e : powmod x m e = x ^ (Zpos e) mod m.
Proof.
  induction e as [e IH|e IH|]; cbn [powmod]; [| |by rewrite Z.pow_1_r]; rewrite IH, <-Zmult_mod.
  - rewrite Zmult_mod_idemp_l. f_equal. rewrite <-Z.pow_add_r by lia.
    replace (Z.pos e~1) with (Z.pos e + Z.pos e + 1) by lia. by rewrite (Z.pow_add_r x (Z.pos e + Z.pos e) 1), Z.pow_1_r by lia.
  - f_equal. rewrite <-Z.pow_add_r by lia. f_equal. lia.
Qed.

(** * Certificates *)

(** A Bezout coefficient that is not negative. *)
Lemma bezout_exponent f g : 2 <= f -> 1 <= g -> Z.coprime f g -> exists u k, 0 <= u /\ 0 <= k /\ f * u = 1 + g * k.
Proof.
  intros Hf Hg Hco. apply Z.Bezout_coprime_iff in Hco as (u & v & Huv).
  pose proof (Z.mod_pos_bound u g ltac:(lia)) as Hu. set (k := f - v - f * (u / g)).
  assert (f * (u mod g + g) = 1 + g * k) as Ek.
  { rewrite Z.mod_eq by lia. transitivity (u * f + g * (f - f * (u / g))); [ring|].
    replace (u * f) with (1 - v * g) by lia. unfold k. ring. }
  exists (u mod g + g), k. split; [lia|]. split; [|done]. clearbody k. clear Huv.
  assert (2 * 1 <= f * (u mod g + g)) by (apply Z.mul_le_mono_nonneg; lia).
  destruct (Z.le_gt_cases 0 k); [done|]. assert (g * k <= g * 0) by (apply Z.mul_le_mono_nonneg_l; lia). lia.
Qed.

(** A power that is 1 for two coprime exponents is a power of 1. *)
Lemma order_one f g r y : 2 <= f -> 1 <= g -> 2 <= r -> Z.coprime f g -> y ^ f mod r = 1 -> y ^ g mod r = 1 -> y mod r = 1.
Proof.
  intros Hf Hg Hr Hco Hyf Hyg. destruct (bezout_exponent f g Hf Hg Hco) as (u & k & Hu & Hk & Ek).
  assert (y ^ (f * u) mod r = 1) as E1.
  { rewrite Z.pow_mul_r, <-Z.mod_pow_l, Hyf, Z.pow_1_l by lia. apply Z.mod_small. lia. }
  assert (0 <= g * k) by (apply Z.mul_nonneg_nonneg; lia).
  rewrite Ek, Z.pow_add_r, Z.pow_1_r, Z.pow_mul_r in E1 by lia.
  by rewrite <-Zmult_mod_idemp_r, <-Z.mod_pow_l, Hyg, Z.pow_1_l, (Z.mod_small 1 r), Z.mul_1_r in E1 by lia.
Qed.

Section factor.
Context (m r f x : Z).
Hypothesis Hm : 1 < m.
Hypothesis Hr : Z.prime r.
Hypothesis Hrm : (r | m).

Lemma mod_divisor y z : y mod m = z mod m -> y mod r = z mod r.
Proof using Hm Hr Hrm.
  pose proof (Z.prime_ge_2 _ Hr). intros E. rewrite <-(Z.mod_mod_divide y m r), <-(Z.mod_mod_divide z m r) by done. by rewrite E.
Qed.

(** A prime factor of [m - 1] whose root of unity is proper divides [r - 1]. *)
Lemma factor_divides : Z.prime f -> (f | m - 1) -> x ^ (m - 1) mod m = 1 -> Z.gcd (x ^ ((m - 1) / f) - 1) m = 1 -> (f | r - 1).
Proof using Hm Hr Hrm.
  intros Hf [c Hc] Hpow Hgcd. pose proof (Z.prime_ge_2 _ Hr) as Hr2. pose proof (Z.prime_ge_2 _ Hf) as Hf2.
  assert ((m - 1) / f = c) as Ec by (rewrite Hc; apply Z.div_mul; lia). rewrite Ec in Hgcd.
  assert (0 <= c) by nia. set (y := x ^ c) in *.
  assert (y ^ f mod r = 1) as Hyf.
  { unfold y. rewrite <-Z.pow_mul_r, <-Hc by lia. rewrite <-(Z.mod_small 1 r) at 2 by lia. apply mod_divisor.
    rewrite Hpow. symmetry. apply Z.mod_small. lia. }
  assert (y mod r <> 1) as Hy1.
  { intros E. assert (Z.divide r (y - 1)) as Hd.
    { apply Z.mod_divide; [lia|]. rewrite Zminus_mod, E. rewrite (Z.mod_small 1 r) by lia. done. }
    assert (Z.divide r 1) as H1 by (rewrite <-Hgcd; by apply Z.gcd_greatest).
    apply Z.divide_1_r_nonneg in H1; lia. }
  assert (y mod r <> 0) as Hy0.
  { intros E. rewrite <-Z.mod_pow_l, E, Z.pow_0_l in Hyf by lia. done. }
  pose proof (Z.fermat_nz r y Hr Hy0) as Hfermat.
  destruct (Zdivide_dec f (r - 1)) as [Hd|Hd]; [done|]. exfalso. apply Hy1.
  by apply (order_one f (r - 1) r); [clear - Hf2; lia|clear - Hr2; lia|clear - Hr2; lia|apply Z.coprime_prime_l|..].
Qed.
End factor.

(** Factors with their witnesses. *)
Definition certified (m : Z) (fs : list (Z * Z)) : bool :=
  (1 <? m) &&
  forallb (fun '(f, x) =>
    ((m - 1) mod f =? 0) &&
    let y := powmod x m (Z.to_pos ((m - 1) / f)) in
    (powmod y m (Z.to_pos f) =? 1) && (Z.gcd (y - 1) m =? 1)) fs &&
  bool_decide (NoDup (map fst fs)) && (m <? (foldr Z.mul 1 (map fst fs) + 1) ^ 2).

Lemma product_divides g fs : Forall Z.prime fs -> NoDup fs -> Forall (fun f => (f | g)) fs -> (foldr Z.mul 1 fs | g).
Proof.
  induction 1 as [|f fs Hf Hfs IH]; intros Hnd Hg; [apply Z.divide_1_l|]. cbn [foldr].
  apply NoDup_cons in Hnd as [Hnot Hnd]. apply Forall_cons in Hg as [Hfg Hg].
  destruct (IH Hnd Hg) as [k Hk].
  assert (Z.coprime f (foldr Z.mul 1 fs)) as Hco.
  { clear - Hf Hfs Hnot. induction Hfs as [|f' fs Hf' _ IH]; [apply Z.coprime_1_r|]. cbn [foldr].
    apply not_elem_of_cons in Hnot as [Hne Hnot]. apply Z.coprime_mul_r; [|by apply IH].
    apply Z.coprime_prime_l; [done|]. intros Hd. by apply Hne, Z.divide_prime_prime. }
  destruct (Z.gauss f (foldr Z.mul 1 fs) k) as [j Hj]; [by rewrite Z.mul_comm, <-Hk|done|].
  exists j. rewrite Hk, Hj. ring.
Qed.

Lemma powmod_pos x m e : 0 < e -> powmod x m (Z.to_pos e) = x ^ e mod m.
Proof. intros He. by rewrite powmod_spec, Z2Pos.id. Qed.

Lemma gcd_pred_mod y m : m <> 0 -> Z.gcd (y mod m - 1) m = Z.gcd (y - 1) m.
Proof.
  intros Hm. rewrite (Z.gcd_comm (y mod m - 1)), (Z.gcd_comm (y - 1)), <-(Z.gcd_mod (y mod m - 1)), <-(Z.gcd_mod (y - 1)) by done.
  by rewrite Zminus_mod_idemp_l.
Qed.

Lemma certified_prime m fs : Forall Z.prime (map fst fs) -> certified m fs = true -> Z.prime m.
Proof.
  unfold certified. intros Hfs [[[Hm Hc]%andb_prop Hnd]%andb_prop Hlt]%andb_prop.
  apply Z.ltb_lt in Hm, Hlt. apply bool_decide_eq_true in Hnd.
  destruct (prime_dec m) as [Hp|Hp]; [by apply prime_alt|]. exfalso.
  destruct (small_prime_divisor m Hm) as (r & Hr & Hrm & Hle); [by rewrite prime_alt|]. pose proof (Z.prime_ge_2 _ Hr).
  assert (foldr Z.mul 1 (map fst fs) | r - 1) as Hd.
  { apply product_divides; [done|done|]. apply Forall_map, Forall_forall. intros [f x] Hin. cbn [fst].
    rewrite forallb_forall in Hc. specialize (Hc (f, x) ltac:(by apply list_elem_of_In)). cbn in Hc.
    apply andb_prop in Hc as [Hdiv [Hpow Hgcd]%andb_prop]. apply Z.eqb_eq in Hdiv, Hpow, Hgcd.
    assert (Z.prime f) as Hf by (rewrite Forall_map, Forall_forall in Hfs; by apply (Hfs (f, x))). pose proof (Z.prime_ge_2 _ Hf).
    apply Z.mod_divide in Hdiv; [|lia]. pose proof (Z.divide_pos_le f (m - 1) ltac:(lia) Hdiv).
    assert (0 < (m - 1) / f) by (apply Z.div_str_pos; lia).
    rewrite !powmod_pos in Hpow by lia. rewrite powmod_pos in Hgcd by lia.
    rewrite Z.mod_pow_l, <-Z.pow_mul_r, (Z.mul_comm _ f), <-Z.divide_div_mul_exact, Z.mul_comm, Z.div_mul in Hpow by (done || lia).
    apply (factor_divides m r f x); [done|done|done|done|done|done|].
    by rewrite <-gcd_pred_mod by lia. }
  pose proof (Z.divide_pos_le _ (r - 1) ltac:(lia) Hd) as Hle'.
  assert (0 <= foldr Z.mul 1 (map fst fs)) as H0.
  { clear - Hfs. induction Hfs as [|f l Hf _ IH]; [done|]. cbn [foldr]. pose proof (Z.prime_ge_2 _ Hf). lia. }
  assert ((foldr Z.mul 1 (map fst fs) + 1) ^ 2 <= r ^ 2) by (apply Z.pow_le_mono_l; lia). lia.
Qed.

(** * The field of P-256 *)

Ltac by_trial := apply no_divisor_prime; by vm_compute.
Ltac by_certificate fs :=
  apply (certified_prime _ fs); [repeat (apply Forall_cons; split); [..|by apply Forall_nil]|vm_cast_no_check (eq_refl true)].

Lemma prime_704251 : Z.prime 704251. Proof. by_trial. Qed.
Lemma prime_78283 : Z.prime 78283. Proof. by_trial. Qed.
Lemma prime_3677 : Z.prime 3677. Proof. by_trial. Qed.
Lemma prime_197 : Z.prime 197. Proof. by_trial. Qed.
Lemma prime_66417393611 : Z.prime 66417393611.
Proof. by_certificate [(3677, 2); (197, 2)]; [apply prime_3677|apply prime_197]. Qed.

Lemma prime_11290956913871 : Z.prime 11290956913871.
Proof. by_certificate [(66417393611, 2)]. apply prime_66417393611. Qed.

Lemma prime_46076956964474543 : Z.prime 46076956964474543.
Proof. by_certificate [(704251, 2); (78283, 2)]; [apply prime_704251|apply prime_78283]. Qed.

Lemma prime_149 : Z.prime 774023187263532362759620327192479577272145303.
Proof.
  by_certificate [(46076956964474543, 2); (11290956913871, 2)]; [apply prime_46076956964474543|apply prime_11290956913871].
Qed.

Lemma prime_160 : Z.prime 835945042244614951780389953367877943453916927241.
Proof. by_certificate [(774023187263532362759620327192479577272145303, 2)]. apply prime_149. Qed.

Lemma prime_p256 : Z.prime 0xffffffff00000001000000000000000000000000ffffffffffffffffffffffff.
Proof. by_certificate [(835945042244614951780389953367877943453916927241, 2)]. apply prime_160. Qed.
