(* ===== verification/RseP256.v ===== *)
(** Verification of ECDSA signatures over P-256 by the RSE verification accelerator
    (qemu-components/rse_cpu_accel/include/rse_p256_ecdsa.h): arithmetic of the
    curve, the DER form of a signature, public keys, the check.  Integers of the
    multiprecision library are [Z], with its division that truncates. *)

From stdpp Require Import strings.
From Stdlib Require Import Ascii.
From S2P Require Import Prelude Bytes Vectors ModArith Sha256 RseLms.

(** * The curve *)

(** [rse_p256_ecdsa.h: "struct Point {" .. "};"] *)
Record Point := MkPoint { px : Z; py : Z; infinity : bool }.

Definition no_point : Point := MkPoint 0 0 true.

Definition hex_digit (c : ascii) : option Z :=
  let n := Z.of_nat (nat_of_ascii c) in
  if (48 <=? n) && (n <=? 57) then Some (n - 48)
  else if (97 <=? n) && (n <=? 102) then Some (10 + n - 97)
  else if (65 <=? n) && (n <=? 70) then Some (10 + n - 65)
  else None.

(** Characters that are no digits are skipped. *)
(** [rse_p256_ecdsa.h: from_hex] *)
Definition from_hex (hex : string) : Z :=
  foldl (fun value c => match hex_digit c with None => value | Some digit => Z.shiftl value 4 + digit end)
    0 (String.list_ascii_of_string hex).

(** [rse_p256_ecdsa.h: "inline const cpp_int& p()" .. "return value;"] *)
Definition p : Z := Eval vm_compute in from_hex "ffffffff00000001000000000000000000000000ffffffffffffffffffffffff".
(** [rse_p256_ecdsa.h: "inline const cpp_int& n()" .. "return value;"] *)
Definition n : Z := Eval vm_compute in from_hex "ffffffff00000000ffffffffffffffffbce6faada7179e84f3b9cac2fc632551".
(** [rse_p256_ecdsa.h: "inline const cpp_int& a()" .. "return value;"] *)
Definition a : Z := Eval vm_compute in p - 3.
(** [rse_p256_ecdsa.h: "inline const cpp_int& b()" .. "return value;"] *)
Definition b : Z := Eval vm_compute in from_hex "5ac635d8aa3a93e7b3ebbd55769886bc651d06b0cc53b0f63bce3c3e27d2604b".
(** [rse_p256_ecdsa.h: "inline const Point& generator()" .. "return g;"] *)
Definition generator : Point := Eval vm_compute in MkPoint
  (from_hex "6b17d1f2e12c4247f8bce6e563a440f277037d812deb33a0f4a13945d898c296")
  (from_hex "4fe342e2fe1a7f9b8ee7eb4a7c0f9e162bce33576b315ececbb6406837bf51f5") false.

(** [rse_p256_ecdsa.h: "inline cpp_int mod(cpp_int value, const cpp_int& modulus)" .. "return value;"] *)
Definition mod_ (value modulus : Z) : Z :=
  let value := Z.rem value modulus in
  if value <? 0 then value + modulus else value.

(** [rse_p256_ecdsa.h: from_be] *)
Definition from_be (data : list Z) : Z := foldl (fun value byte => Z.shiftl value 8 + byte) 0 data.

(** [rse_p256_ecdsa.h: mod_inverse] *)
Definition mod_inverse (value modulus : Z) : Z :=
  let value := mod_ value modulus in
  let '(t, r) := euclid_loop (euclid_fuel modulus) 0 1 modulus value in
  if negb (r =? 1) then 0 else mod_ t modulus.

(** [rse_p256_ecdsa.h: is_on_curve] *)
Definition is_on_curve (point : Point) : bool :=
  if infinity point then false
  else
    let lhs := mod_ (py point * py point) p in
    let rhs := mod_ (px point * px point * px point + a * px point + b) p in
    lhs =? rhs.


(** [rse_p256_ecdsa.h: point_double] *)
Definition point_double (point : Point) : Point :=
  if infinity point || (py point =? 0) then no_point
  else
    let lambda := mod_ ((3 * px point * px point + a) * mod_inverse (2 * py point) p) p in
    let x := mod_ (lambda * lambda - 2 * px point) p in
    MkPoint x (mod_ (lambda * (px point - x) - py point) p) false.

(** [rse_p256_ecdsa.h: point_add] *)
Definition point_add (lhs rhs : Point) : Point :=
  if infinity lhs then rhs
  else if infinity rhs then lhs
  else if px lhs =? px rhs then
    if mod_ (py lhs + py rhs) p =? 0 then no_point else point_double lhs
  else
    let lambda := mod_ ((py rhs - py lhs) * mod_inverse (px rhs - px lhs) p) p in
    let x := mod_ (lambda * lambda - px lhs - px rhs) p in
    MkPoint x (mod_ (lambda * (px lhs - x) - py lhs) p) false.

(** One turn per bit of the scalar. *)
(** [rse_p256_ecdsa.h: "while (scalar > 0) {" .. "point = point_double(point);"] *)
Fixpoint multiply_loop (fuel : nat) (result point : Point) (scalar : Z) : Point :=
  match fuel with
  | O => result
  | S fuel =>
      if 0 <? scalar then
        let result := if test scalar 1 then point_add result point else result in
        let scalar := Z.shiftr scalar 1 in
        let point := if negb (scalar =? 0) then point_double point else point in
        multiply_loop fuel result point scalar
      else result
  end.

(** [rse_p256_ecdsa.h: scalar_multiply] *)
Definition scalar_multiply (point : Point) (scalar : Z) : Point :=
  let scalar := mod_ scalar n in
  multiply_loop (Z.to_nat (Z.log2 n + 1)) no_point point scalar.

(** * DER *)

(** A parse can read outside its buffer, or refuse its input. *)
Inductive parse (A : Type) := Fault | Reject | Parsed (x : A).
Arguments Fault {A}.
Arguments Reject {A}.
Arguments Parsed {A}.

Definition parse_bind {A B} (m : parse A) (f : A -> parse B) : parse B :=
  match m with Fault => Fault | Reject => Reject | Parsed x => f x end.

Notation "'let*' x := m 'in' k" := (parse_bind m (fun x => k)) (at level 200, x pattern, m at level 100, k at level 200) : model_scope.

Definition guard (c : bool) : parse () := if c then Parsed () else Reject.

(** [data[i]]. *)
Definition at_ (data : list Z) (i : Z) : parse Z := if i <? vec_size data then Parsed (arr_get data i) else Fault.

(** The bytes of a long length, one turn each. *)
(** [rse_p256_ecdsa.h: "length = 0;" .. "length = (length << 8) | data[offset++];"] *)
Definition long_length (data : list Z) (bytes offset : Z) : parse (Z * Z) :=
  foldl (fun m _ =>
    let* (offset, length) := m in
    let* byte := at_ data offset in
    Parsed (u64 (offset + 1), Z.lor (shl 64 length 8) byte)) (Parsed (offset, 0)) (range bytes).

(** The offset after the length, and the length. *)
(** [rse_p256_ecdsa.h: parse_der_length] *)
Definition parse_der_length (data : list Z) (size offset : Z) : parse (Z * Z) :=
  let* _ := guard (offset <? size) in
  let* first := at_ data offset in
  let offset := u64 (offset + 1) in
  if Z.land first 0x80 =? 0 then
    let* _ := guard (u64 (offset + first) <=? size) in
    Parsed (offset, first)
  else
    let bytes := Z.land first 0x7f in
    let* _ := guard (negb ((bytes =? 0) || (8 <? bytes) || (size <? u64 (offset + bytes)))) in
    let* (offset, length) := long_length data bytes offset in
    let* _ := guard (u64 (offset + length) <=? size) in
    Parsed (offset, length).

(** Leading zeros are skipped; a turn that goes on has read a byte of the buffer. *)
(** [rse_p256_ecdsa.h: "while (length > 1 && data[offset] == 0) {" .. "}"] *)
Fixpoint strip_zeros (fuel : nat) (data : list Z) (offset length : Z) : parse (Z * Z) :=
  match fuel with
  | O => Fault
  | S fuel =>
      if 1 <? length then
        let* byte := at_ data offset in
        if byte =? 0 then strip_zeros fuel data (u64 (offset + 1)) (length - 1) else Parsed (offset, length)
      else Parsed (offset, length)
  end.

(** The offset after the integer, and the integer. *)
(** [rse_p256_ecdsa.h: parse_der_integer] *)
Definition parse_der_integer (data : list Z) (size offset : Z) : parse (Z * Z) :=
  let* _ := guard (offset <? size) in
  let* tag := at_ data offset in
  let offset := u64 (offset + 1) in
  let* _ := guard (tag =? 0x02) in
  let* (offset, length) := parse_der_length data size offset in
  let* _ := guard (negb (length =? 0)) in
  let* top := at_ data offset in
  let* _ := guard (Z.land top 0x80 =? 0) in
  let* (offset, length) := strip_zeros (S (List.length data)) data offset length in
  if offset + length <=? vec_size data
  then Parsed (u64 (offset + length), from_be (slice offset length data)) else Fault.

(** [rse_p256_ecdsa.h: parse_ecdsa_der_signature] *)
Definition parse_ecdsa_der_signature (sig : option (list Z)) : parse (Z * Z) :=
  match sig with
  | None => Reject
  | Some sig =>
      let sig_size := vec_size sig in
      let* _ := guard (negb (sig_size =? 0)) in
      let* tag := at_ sig 0 in
      let* _ := guard (tag =? 0x30) in
      let* (offset, seq_length) := parse_der_length sig sig_size 1 in
      let seq_end := u64 (offset + seq_length) in
      let* _ := guard (seq_end =? sig_size) in
      let* (offset, r) := parse_der_integer sig seq_end offset in
      let* (offset, s) := parse_der_integer sig seq_end offset in
      let* _ := guard (offset =? seq_end) in
      let* _ := guard ((0 <? r) && (r <? n) && (0 <? s) && (s <? n)) in
      Parsed (r, s)
  end.

(** * Public keys *)

(** [rse_p256_ecdsa.h: "Point candidate;" .. "candidate.infinity = false;"] *)
Definition point_at (key : list Z) (i : Z) : Point :=
  MkPoint (from_be (slice (i + 1) 32 key)) (from_be (slice (i + 33) 32 key)) false.

(** The first marked position that holds a point of the curve. *)
(** [rse_p256_ecdsa.h: "for (size_t i = 0; i + 65 <= key_size; ++i) {" .. "return false;"] *)
Definition find_point (key : list Z) : option Point :=
  foldr (fun i found =>
    if negb (arr_get key i =? 0x04) then found
    else if is_on_curve (point_at key i) then Some (point_at key i) else found) None (range (vec_size key - 64)).

(** [rse_p256_ecdsa.h: parse_public_key_point] *)
Definition parse_public_key_point (key : option (list Z)) : option Point :=
  match key with
  | None => None
  | Some key =>
      if vec_size key <? 65 then None
      else if (vec_size key =? 65) && (arr_get key 0 =? 0x04)
      then if is_on_curve (point_at key 0) then Some (point_at key 0) else None
      else find_point key
  end.

(** * The check *)

(** [rse_p256_ecdsa.h: "inline bool verify(const uint8_t* public_key, size_t public_key_size," .. "return mod(point.x, n()) == r;"] *)
Definition verify (public_key hash signature : option (list Z)) : parse bool :=
  match hash with
  | None => Parsed false
  | Some hash =>
      if negb (vec_size hash =? 32) then Parsed false
      else
        match parse_public_key_point public_key with
        | None => Parsed false
        | Some q =>
            match parse_ecdsa_der_signature signature with
            | Fault => Fault
            | Reject => Parsed false
            | Parsed (r, s) =>
                let e := from_be hash in
                let w := mod_inverse s n in
                if w =? 0 then Parsed false
                else
                  let u1 := mod_ (e * w) n in
                  let u2 := mod_ (r * w) n in
                  let point := point_add (scalar_multiply generator u1) (scalar_multiply q u2) in
                  if infinity point then Parsed false else Parsed (mod_ (px point) n =? r)
            end
        end
  end.

(** [rse_p256_ecdsa.h: "inline bool verify(const std::vector<uint8_t>& public_key," .. "}"] *)
Definition verify_vec (public_key hash signature : list Z) : parse bool :=
  verify (Some public_key) (Some hash) (Some signature).

(** * Examples *)

(** A multiple of the generator. *)
Example double_generator :
  scalar_multiply generator 2 =
    MkPoint 0x7CF27B188D034F7E8A52380304B51AC3C08969E277F21B35A60B48FC47669978
            0x07775510DB8ED040293D9AC69F7430DBBA7DADE63CE982299E04B79D227873D1 false.
Proof. vm_compute. reflexivity. Qed.

Definition key_bytes (q : Point) : list Z := 0x04 :: be_bytes 32 (px q) ++ be_bytes 32 (py q).
