(* ===== verification/P256Curve.v ===== *)
(** The curve of the verification accelerator: its operations never leave the curve,
    and the inverses they divide by exist. *)

From Stdlib Require Import Zdiv Znumtheory.
From S2P Require Import Prelude Bytes Vectors ModArith Sha256 Primality RseP256.

(** * Inverses *)

Lemma mod_eq v m : 0 < m -> mod_ v m = v mod m.
Proof. intros Hm. unfold mod_. by apply rem_mod. Qed.

Lemma mod_inverse_range v m : 1 < m -> 0 <= mod_inverse v m < m.
Proof.
  intros Hm. unfold mod_inverse. destruct (euclid_loop _ _ _ _ _) as [t r]. destruct (negb _); [lia|].
  rewrite mod_eq by lia. apply Z.mod_pos_bound. lia.
Qed.

(** The inverse of a number that has one, 0 for the others. *)
Lemma p256_mod_inverse_spec v m : 1 < m ->
  if Z.gcd m v =? 1 then (mod_inverse v m * v) mod m = 1 else mod_inverse v m = 0.
Proof.
  intros Hm. unfold mod_inverse. rewrite mod_eq by lia. pose proof (euclid_spec m v Hm) as He.
  destruct (euclid_loop _ _ _ _ _) as [t r]. destruct He as (-> & _ & k & Hk).
  destruct (Z.eqb_spec (Z.gcd m v) 1) as [E|E]; [|done]. cbn [negb]. rewrite mod_eq by lia.
  apply (inverse_spec m v t k Hm). by rewrite Hk, E.
Qed.

Lemma p_prime : Z.prime p.
Proof. exact prime_p256. Qed.

Lemma inverse_p v : v mod p <> 0 -> (mod_inverse v p * v) mod p = 1.
Proof.
  intros Hv. pose proof (p256_mod_inverse_spec v p ltac:(done)) as H.
  assert (Z.gcd p v = 1) as E; [|by rewrite E in H].
  apply Z.coprime_prime_l; [apply p_prime|]. intros Hd. by apply Hv, Z.mod_divide.
Qed.

(** * Congruence modulo the field *)

Infix "==" := (eqm p) (at level 70, no associativity) : model_scope.

#[local] Existing Instances eqm_setoid Zplus_eqm Zminus_eqm Zmult_eqm Zopp_eqm.

Lemma mod_p v : mod_ v p == v.
Proof. rewrite mod_eq by done. apply Zmod_eqm. Qed.

Lemma eqm_minus x y : x == y <-> x - y == 0.
Proof.
  split; intros H; [rewrite H; by rewrite Z.sub_diag|].
  rewrite <-(Z.sub_add y x), H. done.
Qed.

(** The equation of the curve. *)
Definition curve (x : Z) : Z := x * x * x + a * x + b.

#[local] Instance curve_proper : Proper (eqm p ==> eqm p) curve.
Proof. intros x y H. unfold curve. by rewrite H. Qed.

Lemma is_on_curve_iff point : is_on_curve point = true <-> infinity point = false /\ py point * py point == curve (px point).
Proof.
  unfold is_on_curve. destruct (infinity point); [by split; [|intros [? _]]|]. cbv zeta.
  rewrite Z.eqb_eq, !mod_eq by done. by split; [|intros [_ ?]].
Qed.

(** Where a line meets the cubic: at a third point, by the sum of the roots. *)
Lemma line_third lambda x1 y1 x2 : let x3 := lambda * lambda - x1 - x2 in
  let f x := curve x - (lambda * (x - x1) + y1) * (lambda * (x - x1) + y1) in
  f x3 * (x2 - x1) = (curve x1 - y1 * y1) * (x2 - x3) + f x2 * (x3 - x1).
Proof. unfold curve. cbv zeta. ring. Qed.

Lemma tangent_third lambda x1 y1 : let x3 := lambda * lambda - 2 * x1 in
  let f x := curve x - (lambda * (x - x1) + y1) * (lambda * (x - x1) + y1) in
  f x3 = (curve x1 - y1 * y1) + (3 * x1 * x1 + a - lambda * (2 * y1)) * (x3 - x1).
Proof. unfold curve. cbv zeta. ring. Qed.

(** The point the code computes from a slope is on the curve when its mirror is on the
    line. *)
Lemma mirrored l x1 y1 x x3 : let lambda := mod_ l p in x == x3 ->
  curve x3 - (l * (x3 - x1) + y1) * (l * (x3 - x1) + y1) == 0 ->
  mod_ (lambda * (x1 - x) - y1) p * mod_ (lambda * (x1 - x) - y1) p == curve x.
Proof.
  intros lambda Ex H. assert (lambda == l) as El by apply mod_p. rewrite mod_p. clearbody lambda. rewrite El, Ex.
  symmetry. apply eqm_minus. rewrite <-H. match goal with |- ?u == ?v => replace u with v by ring end. done.
Qed.

Lemma cancel_factor x d : d mod p <> 0 -> x * d == 0 -> x == 0.
Proof.
  intros Hd H. rewrite <-(Z.mul_1_r x). assert (1 == d * mod_inverse d p) as ->.
  { unfold eqm. rewrite (Z.mul_comm d), inverse_p by done. done. }
  rewrite Z.mul_assoc, H. done.
Qed.

(** * Points *)

(** The coordinates of a point are reduced. *)
Definition reduced (point : Point) : Prop := 0 <= px point < p /\ 0 <= py point < p.

Definition valid (point : Point) : Prop := point = no_point \/ (is_on_curve point = true /\ reduced point).

Lemma valid_none : valid no_point.
Proof. by left. Qed.

Lemma valid_point point : valid point -> infinity point = false ->
  py point * py point == curve (px point) /\ reduced point.
Proof. intros [->|[[_ Hc]%is_on_curve_iff Hr]] Hi; [discriminate|done]. Qed.

Lemma computed_valid x y : mod_ y p * mod_ y p == curve (mod_ x p) -> valid (MkPoint (mod_ x p) (mod_ y p) false).
Proof. intros H. right. split; [by apply is_on_curve_iff|]. split; cbn; rewrite mod_eq by done; by apply Z.mod_pos_bound. Qed.

Lemma distinct_x x1 x2 : 0 <= x1 < p -> 0 <= x2 < p -> x1 <> x2 -> (x2 - x1) mod p <> 0.
Proof.
  intros H1 H2 Hne Hd. apply Z.mod_divide in Hd as [k Hk]; [|done]. assert (k = 0) as -> by (unfold p in *; lia). lia.
Qed.

Lemma slope_spec e d : d mod p <> 0 -> e * mod_inverse d p * d == e.
Proof.
  intros Hd. rewrite <-Z.mul_assoc. assert (mod_inverse d p * d == 1) as ->; [exact (inverse_p _ Hd)|by rewrite Z.mul_1_r].
Qed.

Lemma double_valid point : valid point -> valid (point_double point).
Proof.
  intros Hv. unfold point_double. destruct (infinity point) eqn:Ei; [apply valid_none|]. cbn [orb].
  destruct (Z.eqb_spec (py point) 0) as [E0|E0]; [apply valid_none|]. destruct (valid_point _ Hv Ei) as [Hc Hr].
  apply computed_valid.
  set (x1 := px point) in *. set (y1 := py point) in *.
  set (inv := mod_inverse (2 * y1) p). set (lambda := (3 * x1 * x1 + a) * inv).
  assert ((2 * y1) mod p <> 0) as H2.
  { intros E. destruct Hr as [_ [Hy1 Hy2]]. fold y1 in Hy1, Hy2. apply Z.mod_divide in E; [|done].
    apply Z.divide_prime_mul in E as [E|E]; [|apply Z.divide_pos_le in E; lia|apply p_prime].
    apply Z.divide_pos_le in E; [by vm_compute in E|done]. }
  assert (lambda * (2 * y1) == 3 * x1 * x1 + a) as Hl by (by apply slope_spec).
  apply (mirrored _ _ _ _ (lambda * lambda - 2 * x1)); [by rewrite !mod_p|].
  rewrite tangent_third, Hl, <-Hc, !Z.sub_diag. done.
Qed.

Lemma add_valid lhs rhs : valid lhs -> valid rhs -> valid (point_add lhs rhs).
Proof.
  intros Hvl Hvr. unfold point_add. destruct (infinity lhs) eqn:El; [done|]. destruct (infinity rhs) eqn:Er; [done|].
  destruct (Z.eqb_spec (px lhs) (px rhs)) as [E|E].
  { destruct (_ =? 0); [apply valid_none|by apply double_valid]. }
  destruct (valid_point _ Hvl El) as [Hl [Hx1 _]]. destruct (valid_point _ Hvr Er) as [Hr [Hx2 _]]. apply computed_valid.
  assert ((px rhs - px lhs) mod p <> 0) as Hd by (apply distinct_x; lia).
  pose proof (slope_spec (py rhs - py lhs) _ Hd) as Hlam.
  set (x1 := px lhs) in *. set (y1 := py lhs) in *. set (x2 := px rhs) in *. set (y2 := py rhs) in *.
  set (lambda := (y2 - y1) * mod_inverse (x2 - x1) p) in *.
  apply (mirrored _ _ _ _ (lambda * lambda - x1 - x2)); [by rewrite !mod_p|].
  apply (cancel_factor _ (x2 - x1) Hd). rewrite line_third, Hlam. replace (y2 - y1 + y1) with y2 by lia.
  rewrite <-Hl, Hr, !Z.sub_diag. done.
Qed.

Lemma multiply_valid fuel result point scalar : valid result -> valid point -> valid (multiply_loop fuel result point scalar).
Proof.
  revert result point scalar. induction fuel as [|fuel IH]; intros result point scalar Hr Hp; [done|]. cbn [multiply_loop].
  destruct (0 <? scalar); [|done]. apply IH.
  - destruct (test scalar 1); [by apply add_valid|done].
  - destruct (negb _); [by apply double_valid|done].
Qed.

Lemma mod_congruent x y : x == y -> mod_ x p = mod_ y p.
Proof. intros H. by rewrite !mod_eq. Qed.

Lemma slopes_agree e d : d mod p <> 0 -> mod_ (- e * mod_inverse (- d) p) p = mod_ (e * mod_inverse d p) p.
Proof.
  intros Hd. apply mod_congruent, eqm_minus, (cancel_factor _ d Hd). rewrite Z.mul_sub_distr_r, slope_spec by done.
  assert ((- d) mod p <> 0) as Hd'.
  { intros E. apply Hd. rewrite <-(Z.opp_involutive d). by apply Z.mod_opp_l_z. }
  replace (- e * mod_inverse (- d) p * d) with (- (- e * mod_inverse (- d) p * - d)) by ring.
  rewrite (slope_spec _ _ Hd'). by rewrite Z.opp_involutive, Z.sub_diag.
Qed.

(** Points with the same first coordinate are equal or opposite. *)
Lemma same_x y1 y2 : 0 <= y1 < p -> 0 <= y2 < p -> y1 * y1 == y2 * y2 -> mod_ (y1 + y2) p <> 0 -> y1 = y2.
Proof.
  intros H1 H2 E Hs. rewrite mod_eq in Hs by done. apply eqm_minus in E.
  assert (y1 - y2 == 0) as E'.
  { apply (cancel_factor _ _ Hs). by replace ((y1 - y2) * (y1 + y2)) with (y1 * y1 - y2 * y2) by ring. }
  apply eqm_minus in E'. unfold eqm in E'. by rewrite !Z.mod_small in E'.
Qed.

Lemma add_comm lhs rhs : valid lhs -> valid rhs -> point_add lhs rhs = point_add rhs lhs.
Proof.
  intros Hl Hr. unfold point_add. destruct (infinity lhs) eqn:El, (infinity rhs) eqn:Er; try done.
  { destruct Hl as [->|[[? _]%is_on_curve_iff _]]; [|congruence]. destruct Hr as [->|[[? _]%is_on_curve_iff _]]; congruence. }
  destruct (valid_point _ Hl El) as [Cl [Hx1 Hy1]]. destruct (valid_point _ Hr Er) as [Cr [Hx2 Hy2]].
  rewrite (Z.eqb_sym (px rhs)), (Z.add_comm (py rhs)). destruct (Z.eqb_spec (px lhs) (px rhs)) as [E|E].
  - destruct (Z.eqb_spec (mod_ (py lhs + py rhs) p) 0) as [Es|Es]; [done|]. f_equal.
    assert (py lhs = py rhs) as Ey by (apply same_x; [done..|by rewrite Cl, Cr, E|done]).
    destruct lhs, rhs. cbn in *. congruence.
  - assert ((px rhs - px lhs) mod p <> 0) as Hd by (apply distinct_x; lia).
    pose proof (slopes_agree (py rhs - py lhs) _ Hd) as Hs. rewrite !Z.opp_sub_distr, !Z.add_opp_l in Hs. rewrite Hs.
    set (lambda := mod_ ((py rhs - py lhs) * mod_inverse (px rhs - px lhs) p) p). cbv zeta. replace (lambda * lambda - px rhs - px lhs) with (lambda * lambda - px lhs - px rhs) by ring.
    f_equal. apply mod_congruent, eqm_minus. set (x := mod_ (lambda * lambda - px lhs - px rhs) p).
    assert (lambda * (px rhs - px lhs) == py rhs - py lhs) as Hlam by (unfold lambda; rewrite mod_p; by apply slope_spec).
    apply eqm_minus in Hlam.
    match goal with |- ?u == _ => replace u with (- (lambda * (px rhs - px lhs) - (py rhs - py lhs))) by ring end.
    by rewrite Hlam.
Qed.

Lemma scalar_valid point k : valid point -> valid (scalar_multiply point k).
Proof. intros Hp. apply multiply_valid; [apply valid_none|done]. Qed.

(** The opposite point. *)
Definition opposite (point : Point) : Point :=
  if infinity point then point else MkPoint (px point) (mod_ (- py point) p) false.

Lemma add_opposite point : point_add point (opposite point) = no_point \/ infinity point = true.
Proof.
  unfold point_add, opposite. destruct (infinity point) eqn:E; [by right|left]. cbn [infinity px py]. rewrite Z.eqb_refl.
  assert (mod_ (py point + mod_ (- py point) p) p = 0) as ->; [|done]. rewrite !mod_eq by done.
  rewrite Z.add_mod_idemp_r, Z.add_opp_diag_r by done. done.
Qed.

(** C13. The points of P-256 are closed under the accelerator's operations: doubling,
    adding and multiplying by any integer give a point of the curve with reduced
    coordinates, or the neutral point; adding is commutative, the neutral point is
    neutral and a point and its mirror cancel.  No case divides by a number without
    an inverse, since the field's modulus is prime. *)
Theorem p256_operations lhs rhs : valid lhs -> valid rhs ->
  valid (point_double lhs) /\ valid (point_add lhs rhs) /\ (forall k, valid (scalar_multiply lhs k)) /\
  point_add lhs rhs = point_add rhs lhs /\ point_add no_point lhs = lhs /\
  point_add lhs (opposite lhs) = no_point.
Proof.
  intros Hl Hr. split; [by apply double_valid|]. split; [by apply add_valid|].
  split; [intros k; by apply scalar_valid|]. split; [by apply add_comm|]. split; [done|].
  destruct (add_opposite lhs) as [|Hi]; [done|]. by destruct Hl as [->|[[? _]%is_on_curve_iff _]]; [|congruence].
Qed.

Lemma p256_operations_witness :
  valid (point_double generator) /\ valid (point_add generator generator) /\
  (forall k, valid (scalar_multiply generator k)) /\
  point_add generator generator = point_add generator generator /\ point_add no_point generator = generator /\
  point_add generator (opposite generator) = no_point.
Proof.
  assert (valid generator) as H by (right; split; [by vm_compute|by repeat split]). by apply p256_operations.
Defined.

(** * Public keys *)

(** A key that is accepted is a point of the curve. *)
Lemma find_point_on_curve l (key : list Z) q :
  foldr (fun i found =>
    if negb (arr_get key i =? 0x04) then found
    else if is_on_curve (point_at key i) then Some (point_at key i) else found) None l = Some q -> is_on_curve q = true.
Proof.
  induction l as [|i l IH]; [done|]. cbn [foldr]. destruct (negb _); [done|].
  destruct (is_on_curve (point_at key i)) eqn:E; [|done]. by intros [= <-].
Qed.

Lemma public_key_on_curve key q : parse_public_key_point key = Some q -> is_on_curve q = true.
Proof.
  unfold parse_public_key_point. destruct key as [key|]; [|done]. destruct (_ <? 65); [done|]. destruct (_ && _).
  - destruct (is_on_curve (point_at key 0)) eqn:E; [|done]. by intros [= <-].
  - apply find_point_on_curve.
Qed.

(** Coordinates are not checked to be reduced: the same point has two keys, and the
    operations, which compare coordinates as integers, take them for different. *)
Lemma key_not_reduced :
  let y := 0x459243b9aa581806fe913bce99817ade11ca503c64d9a3c533415c083248fbcc in
  let key := key_bytes (MkPoint (p + 5) y false) in
  exists q, parse_public_key_point (Some key) = Some q /\ p <= px q /\
    point_add q (MkPoint 5 y false) <> point_double (MkPoint 5 y false).
Proof. cbv zeta. eexists. split; [by vm_compute|]. split; [by vm_compute|]. by vm_compute. Qed.
