(* ===== verification/P256Der.v ===== *)
(** The DER form of signatures in the verification accelerator: signatures encoded by
    the rules are parsed to what was encoded, and which inputs are read safely. *)

From S2P Require Import Prelude Bytes Vectors ModArith Sha256 RseLms RseP256.

(** * The signature form *)

(** The bytes of a positive integer, without a leading zero unless it keeps the sign. *)
Definition der_size (v : Z) : Z := Z.log2 v / 8 + 1.

Definition der_content (v : Z) : list Z :=
  let bytes := be_bytes (der_size v) v in
  if arr_get bytes 0 <? 128 then bytes else 0 :: bytes.

Definition der_integer (v : Z) : list Z := 0x02 :: vec_size (der_content v) :: der_content v.

Definition der_signature (r s : Z) : list Z :=
  let body := der_integer r ++ der_integer s in 0x30 :: vec_size body :: body.

(** A signature: under the key 2G, with the x-coordinate of 3G as hash and as both
    halves. *)
Example verify_small :
  let r := 0x5ECBE4D1A6330A44C8F7EF951D4BF165E6C6B721EFADA985FB41661BC6E7FD6C in
  verify_vec (key_bytes (scalar_multiply generator 2)) (be_bytes 32 r) (der_signature r r) = Parsed true /\
  verify_vec (key_bytes generator) (be_bytes 32 r) (der_signature r r) = Parsed false.
Proof. vm_compute. split; reflexivity. Qed.

(** * Big-endian integers *)

Lemma from_be_acc acc l : foldl (fun value byte => Z.shiftl value 8 + byte) acc l = acc * 2 ^ (8 * vec_size l) + from_be l.
Proof.
  unfold from_be. revert acc. induction l as [|x l IH]; intros acc.
  - change (vec_size (@nil Z)) with 0. cbn. lia.
  - cbn [foldl]. rewrite IH, (IH (Z.shiftl 0 8 + x)), !Z.shiftl_mul_pow2 by lia. unfold vec_size. cbn [length].
    replace (8 * Z.of_nat (S (length l))) with (8 + 8 * Z.of_nat (length l)) by lia. rewrite Z.pow_add_r by lia. ring.
Qed.

Lemma from_be_cons x l : from_be (x :: l) = x * 2 ^ (8 * vec_size l) + from_be l.
Proof. unfold from_be at 1. cbn [foldl]. by rewrite from_be_acc. Qed.

Lemma be_bytes_succ k v : 0 <= k -> be_bytes (k + 1) v = u8 (Z.shiftr v (k * 8)) :: be_bytes k v.
Proof.
  intros Hk. unfold be_bytes, range. replace (k + 1) with (Z.of_nat (S (Z.to_nat k))) by lia.
  rewrite seqZ_S, rev_app_distr. cbn [rev app map]. rewrite Z2Nat.id by done. by rewrite Z.add_0_l.
Qed.

Lemma from_be_bytes k v : 0 <= k -> from_be (be_bytes k v) = v mod 2 ^ (8 * k).
Proof.
  revert k. apply natlike_ind; [by rewrite Z.mod_1_r|]. intros k Hk IH. unfold Z.succ.
  rewrite be_bytes_succ, from_be_cons, IH, be_bytes_length by done. unfold wrap.
  rewrite Z.shiftr_div_pow2 by lia. rewrite (Z.mul_comm k). replace (8 * (k + 1)) with (8 * k + 8) by lia.
  rewrite Z.pow_add_r by lia. rewrite Z.rem_mul_r by lia. ring.
Qed.

Lemma lor_add l x : 0 <= x < 2 ^ 8 -> Z.lor (l * 2 ^ 8) x = l * 2 ^ 8 + x.
Proof.
  intros Hx. assert (Z.land (l * 2 ^ 8) x = 0) as H0.
  { rewrite <-Z.shiftl_mul_pow2 by lia. apply Z.bits_inj'. intros j Hj. rewrite Z.land_spec, Z.bits_0, Z.shiftl_spec by done.
    destruct (Z.lt_ge_cases j 8); [by rewrite Z.testbit_neg_r by lia|].
    rewrite <-(Z.mod_small x (2 ^ 8)), Z.mod_pow2_bits_high by lia. apply andb_false_r. }
  by rewrite Z.add_nocarry_lxor, Z.lxor_lor.
Qed.

(** * What is read *)

(** A parse that does not read outside its buffer, and gives a result in [P] if it
    gives one. *)
Definition safe {A} (P : A -> Prop) (m : parse A) : Prop :=
  match m with Fault => False | Reject => True | Parsed x => P x end.

Lemma safe_bind {A B} (P : A -> Prop) (Q : B -> Prop) m f :
  safe P m -> (forall x, P x -> safe Q (f x)) -> safe Q (parse_bind m f).
Proof. destruct m; cbn; auto. Qed.

Lemma safe_guard {B} (Q : B -> Prop) c f : (c = true -> safe Q (f ())) -> safe Q (parse_bind (guard c) f).
Proof. destruct c; cbn; auto. Qed.

Lemma safe_at {B} (Q : B -> Prop) data i f : 0 <= i < vec_size data ->
  (forall x, x ∈ data -> safe Q (f x)) -> safe Q (parse_bind (at_ data i) f).
Proof.
  intros Hi Hf. unfold at_. replace (i <? vec_size data) with true by lia. cbn. apply Hf.
  unfold arr_get. destruct (data !! Z.to_nat i) as [x|] eqn:E; [by eapply list_elem_of_lookup_2|].
  apply lookup_ge_None in E. unfold vec_size in Hi. lia.
Qed.

Section safety.
Context (data : list Z).
Hypothesis Hbytes : bytes_ok data.
Hypothesis Hsize : vec_size data < 2 ^ 56.
(** No length announces eight bytes of length. *)
Hypothesis Hlong : 0x88 ∉ data.

(** A length and the offset after it, both within the buffer. *)
Definition in_buffer (from : Z) '((offset, length) : Z * Z) : Prop :=
  from < offset /\ 0 <= length /\ offset + length <= vec_size data.

Lemma byte_range x : x ∈ data -> 0 <= x < 256.
Proof using Hbytes. unfold bytes_ok in Hbytes. rewrite Forall_forall in Hbytes. apply Hbytes. Qed.

Lemma long_length_safe bytes offset : 0 <= bytes -> 0 <= offset -> offset + bytes <= vec_size data -> bytes <= 7 ->
  safe (fun '(offset', length) => offset' = offset + bytes /\ 0 <= length < 2 ^ (8 * bytes)) (long_length data bytes offset).
Proof using Hbytes Hsize.
  intros Hb Ho Hle H7. unfold long_length.
  apply (foldl_range_ind _ (fun k m => safe (fun '(offset', length) => offset' = offset + k /\ 0 <= length < 2 ^ (8 * k)) m)); [done| |].
  { cbn. lia. }
  intros k m Hk Hm. apply (safe_bind _ _ m _ Hm). intros [o length] [-> Hlen]. apply safe_at; [lia|]. intros x Hx%byte_range.
  cbn [safe]. rewrite wrap_small by (split; lia). split; [lia|].
  assert (2 ^ (8 * k) * 2 ^ 8 = 2 ^ (8 * (k + 1))) as Hp by (rewrite <-Z.pow_add_r by lia; f_equal; lia).
  assert (2 ^ (8 * k) * 2 ^ 8 <= 2 ^ 56) by (rewrite Hp; apply Z.pow_le_mono_r; lia).
  unfold shl. rewrite Z.shiftl_mul_pow2, wrap_small by (done || (split; lia)).
  rewrite <-Hp. split; [apply Z.lor_nonneg; lia|].
  rewrite lor_add by done. lia.
Qed.

Lemma long_form x : 0 <= x < 256 -> Z.land x 0x80 <> 0 -> Z.land x 0x7f = 8 -> x = 0x88.
Proof.
  intros Hx H H'. assert (forallb (fun x => (Z.land x 0x80 =? 0) || negb (Z.land x 0x7f =? 8) || (x =? 0x88)) (range 256) = true) as Ha
    by (by vm_compute).
  rewrite forallb_forall in Ha. specialize (Ha x ltac:(apply list_elem_of_In, elem_of_range; lia)). lia.
Qed.

Lemma parse_der_length_safe offset : 0 <= offset <= vec_size data ->
  safe (in_buffer offset) (parse_der_length data (vec_size data) offset).
Proof using Hbytes Hsize Hlong.
  intros Ho. unfold parse_der_length. apply safe_guard. intros Hlt%Z.ltb_lt. apply safe_at; [lia|]. intros first Hin.
  pose proof (byte_range _ Hin) as Hf. rewrite (wrap_small 64 (offset + 1)) by (split; lia).
  destruct (Z.eqb_spec (Z.land first 0x80) 0) as [E|E].
  - apply safe_guard. intros Hg%Z.leb_le. rewrite wrap_small in Hg by (split; lia). cbn. lia.
  - apply safe_guard. intros Hg. set (bytes := Z.land first 0x7f) in *.
    assert (0 <= bytes <= 127) as Hb by (assert (bytes = first mod 2 ^ 7) as -> by (by apply (Z.land_ones first 7)); pose proof (Z.mod_pos_bound first (2 ^ 7)); lia).
    rewrite wrap_small in Hg by (split; lia).
    assert (bytes <> 8) as H8 by (intros H8; apply Hlong; by rewrite <-(long_form first Hf E H8)).
    eapply safe_bind; [apply long_length_safe; lia|]. intros [o length] [-> Hl].
    assert (2 ^ (8 * bytes) <= 2 ^ 56) by (apply Z.pow_le_mono_r; lia).
    apply safe_guard. intros Hg'%Z.leb_le. rewrite wrap_small in Hg' by (split; lia). cbn. lia.
Qed.

Lemma strip_zeros_safe fuel offset length : 0 <= offset -> 0 < length -> offset + length <= vec_size data ->
  length <= Z.of_nat fuel ->
  safe (fun '(o, l) => offset <= o /\ 0 < l /\ o + l = offset + length) (strip_zeros fuel data offset length).
Proof using Hsize.
  revert offset length. induction fuel as [|fuel IH]; intros offset length Ho Hl Hle Hf; [lia|]. cbn [strip_zeros].
  destruct (Z.ltb_spec 1 length); [|cbn; lia]. apply safe_at; [lia|]. intros x _.
  destruct (x =? 0); [|cbn; lia]. rewrite wrap_small by (split; lia).
  specialize (IH (offset + 1) (length - 1) ltac:(lia) ltac:(lia) ltac:(lia) ltac:(lia)). revert IH.
  destruct (strip_zeros _ _ _ _) as [| |[o l]]; cbn; lia.
Qed.

Lemma parse_der_integer_safe offset : 0 <= offset <= vec_size data ->
  safe (fun '(o, _) => offset <= o <= vec_size data) (parse_der_integer data (vec_size data) offset).
Proof using Hbytes Hsize Hlong.
  intros Ho. unfold parse_der_integer. apply safe_guard. intros Hlt%Z.ltb_lt. apply safe_at; [lia|]. intros tag _.
  rewrite (wrap_small 64 (offset + 1)) by (split; lia). apply safe_guard. intros _.
  eapply safe_bind; [apply parse_der_length_safe; lia|]. intros [o length] (H1 & H2 & H3). cbn [in_buffer] in *.
  apply safe_guard. intros Hne. apply safe_at; [lia|]. intros top _. apply safe_guard. intros _.
  eapply safe_bind; [apply strip_zeros_safe; unfold vec_size in *; lia|]. intros [o' l'] (G1 & G2 & G3).
  replace (o' + l' <=? vec_size data) with true by lia. cbn [safe]. rewrite wrap_small by (split; lia). lia.
Qed.
End safety.

Lemma bytes_ok_check l : forallb (fun x => (0 <=? x) && (x <? 256)) l = true -> bytes_ok l.
Proof.
  rewrite forallb_forall. intros H. apply Forall_forall. intros x Hx%list_elem_of_In. specialize (H x Hx). split; lia.
Qed.

Lemma not_in_check x l : existsb (Z.eqb x) l = false -> x ∉ l.
Proof.
  intros H Hin%list_elem_of_In. assert (existsb (Z.eqb x) l = true) as H'; [|congruence].
  apply existsb_exists. exists x. by rewrite Z.eqb_refl.
Qed.

(** C39. Parsing a signature reads only inside it, for every byte string that announces
    no length of eight bytes: it is refused, or parsed to two integers between 1 and
    the group order. *)
Theorem der_parse_safe sig : bytes_ok sig -> vec_size sig < 2 ^ 56 -> 0x88 ∉ sig ->
  safe (fun '(r, s) => 0 < r < n /\ 0 < s < n) (parse_ecdsa_der_signature (Some sig)).
Proof.
  intros Hb Hs Hl. unfold parse_ecdsa_der_signature. apply safe_guard. intros Hne.
  apply safe_at; [unfold vec_size in *; lia|]. intros tag _. apply safe_guard. intros _.
  eapply safe_bind; [apply (parse_der_length_safe sig Hb Hs Hl); unfold vec_size in *; lia|].
  intros [o len] (H1 & H2 & H3). cbn [in_buffer] in *. apply safe_guard. rewrite (wrap_small 64) by (split; lia). intros He%Z.eqb_eq. rewrite He.
  eapply safe_bind; [apply (parse_der_integer_safe sig Hb Hs Hl); lia|]. intros [o1 r] Ho1.
  eapply safe_bind; [apply (parse_der_integer_safe sig Hb Hs Hl); lia|]. intros [o2 s] Ho2.
  apply safe_guard. intros _. apply safe_guard. intros Hr. cbn. lia.
Qed.

Lemma der_parse_safe_witness :
  let sig := der_signature 5 (2 ^ 255) in
  safe (fun '(r, s) => 0 < r < n /\ 0 < s < n) (parse_ecdsa_der_signature (Some sig)).
Proof.
  apply der_parse_safe; [|by vm_compute|].
  - apply bytes_ok_check. by vm_compute.
  - apply not_in_check. by vm_compute.
Defined.

(** The check of an announced length adds in 64 bits: an integer of 2^64 - 9 bytes
    passes it, and the parse reads past the end of the signature. *)
Lemma der_length_wraps :
  parse_ecdsa_der_signature (Some [0x30; 11; 0x02; 0x88; 0xff; 0xff; 0xff; 0xff; 0xff; 0xff; 0xff; 0xf7; 0]) = Fault.
Proof. vm_compute. reflexivity. Qed.

(** * Round trip *)

Lemma at_middle pre x (post : list Z) : at_ (pre ++ x :: post) (vec_size pre) = Parsed x.
Proof.
  unfold at_, vec_size. rewrite length_app. cbn [length]. replace (_ <? _) with true by lia.
  unfold arr_get. by rewrite Nat2Z.id, list_lookup_middle.
Qed.

(** The encoding is minimal: its first byte is not zero. *)
Lemma der_size_spec v : 0 < v -> 1 <= der_size v /\ v < 2 ^ (8 * der_size v) /\
  exists x l, be_bytes (der_size v) v = x :: l /\ 0 < x < 256 /\ vec_size l = der_size v - 1.
Proof.
  intros Hv. unfold der_size. pose proof (Z.log2_spec v Hv) as [Hlo Hhi]. pose proof (Z.log2_nonneg v).
  pose proof (Z.div_mod (Z.log2 v) 8 ltac:(lia)). pose proof (Z.mod_pos_bound (Z.log2 v) 8 ltac:(lia)).
  set (k := Z.log2 v / 8) in *. assert (0 <= k) as Hk by (apply Z.div_pos; lia). split; [lia|].
  assert (v < 2 ^ (8 * (k + 1))) as Hlt by (eapply Z.lt_le_trans; [exact Hhi|]; apply Z.pow_le_mono_r; lia).
  split; [done|]. exists (u8 (Z.shiftr v (k * 8))), (be_bytes k v). rewrite be_bytes_succ by done. split; [done|].
  rewrite be_bytes_length by done. split; [|lia]. rewrite Z.shiftr_div_pow2 by lia. rewrite wrap_small.
  - split; [apply Z.div_str_pos; split; [apply Z.pow_pos_nonneg; lia|]|].
    + etransitivity; [|exact Hlo]. apply Z.pow_le_mono_r; lia.
    + apply Z.div_lt_upper_bound; [apply Z.pow_pos_nonneg; lia|]. change 256 with (2 ^ 8). rewrite <-Z.pow_add_r by lia.
      by replace (k * 8 + 8) with (8 * (k + 1)) by lia.
  - split; [apply Z.div_pos; [lia|apply Z.pow_pos_nonneg; lia]|].
    apply Z.div_lt_upper_bound; [apply Z.pow_pos_nonneg; lia|]. rewrite <-Z.pow_add_r by lia.
    by replace (k * 8 + 8) with (8 * (k + 1)) by lia.
Qed.

Lemma top_clear x : 0 <= x < 128 -> (Z.land x 0x80 =? 0) = true.
Proof.
  intros Hx. assert (forallb (fun x => Z.land x 0x80 =? 0) (range 128) = true) as Ha by (by vm_compute).
  rewrite forallb_forall in Ha. apply Ha, list_elem_of_In, elem_of_range. lia.
Qed.

Lemma content_spec v : 0 < v < 2 ^ 256 ->
  exists z x l, der_content v = replicate z 0 ++ x :: l /\ x :: l = be_bytes (der_size v) v /\ 0 < x < 256 /\
    (z = 0%nat /\ x < 128 \/ z = 1%nat) /\ vec_size (x :: l) = der_size v /\ der_size v <= 32.
Proof.
  intros [Hv Hlt]. destruct (der_size_spec v Hv) as (H1 & Hs & x & l & E & Hx & Hl).
  assert (der_size v <= 32) as H32.
  { unfold der_size. assert (Z.log2 v / 8 < 32) by (apply Z.div_lt_upper_bound; [lia|]; apply Z.log2_lt_pow2; lia). lia. }
  unfold der_content. rewrite E. change (arr_get (x :: l) 0) with x. cbv zeta.
  assert (vec_size (x :: l) = der_size v) by (unfold vec_size in *; cbn [length]; lia).
  destruct (Z.ltb_spec x 128); [exists 0%nat, x, l|exists 1%nat, x, l]; (split; [done|]); (split; [done|]); (split; [done|]);
    (split; [|done]); [left; split; [done|lia]|by right].
Qed.

(** The zero that keeps the sign is skipped, and nothing else. *)
Lemma strip_content pre z x l post fuel : 0 < x -> (z <= 1)%nat -> (2 <= fuel)%nat -> vec_size pre + 1 < 2 ^ 64 ->
  strip_zeros fuel (pre ++ (replicate z 0 ++ x :: l) ++ post) (vec_size pre) (Z.of_nat z + vec_size (x :: l)) =
  Parsed (vec_size pre + Z.of_nat z, vec_size (x :: l)).
Proof.
  intros Hx Hz Hf Hp. assert (forall fuel pre, (1 <= fuel)%nat ->
    strip_zeros fuel (pre ++ (x :: l) ++ post) (vec_size pre) (vec_size (x :: l)) = Parsed (vec_size pre, vec_size (x :: l))) as Hone.
  { intros [|f] pre' Hf'; [lia|]. cbn [strip_zeros]. destruct (1 <? _); [|done]. cbn [app]. rewrite at_middle. cbn [parse_bind].
    by replace (x =? 0) with false by lia. }
  destruct z as [|[|z]]; [|destruct fuel as [|fuel]; [lia|]|lia].
  - cbn [replicate app Z.of_nat]. rewrite Z.add_0_l, Z.add_0_r. apply (Hone fuel pre). lia.
  - cbn [strip_zeros replicate app]. assert (1 <= vec_size (x :: l)) by (unfold vec_size; cbn [length]; lia).
    replace (1 <? _) with true by lia. rewrite at_middle. cbn [parse_bind Z.eqb].
    assert (0 <= vec_size pre) by (unfold vec_size; lia). rewrite wrap_small by (split; lia).
    specialize (Hone fuel (pre ++ [0]) ltac:(lia)). rewrite sha_size_app, <-app_assoc in Hone.
    replace (Z.of_nat 1 + vec_size (x :: l) - 1) with (vec_size (x :: l)) by lia. exact Hone.
Qed.

Lemma parse_der_length_short data size offset k : at_ data offset = Parsed k -> 0 <= k < 128 -> 0 <= offset ->
  offset + 1 + k <= size -> size < 2 ^ 64 -> parse_der_length data size offset = Parsed (offset + 1, k).
Proof.
  intros Hat Hk Ho Hle Hs. unfold parse_der_length, guard. replace (offset <? size) with true by lia. cbn [parse_bind].
  rewrite Hat. cbn [parse_bind]. rewrite top_clear, (wrap_small 64 (offset + 1)), (wrap_small 64 (_ + k)) by (done || split; lia).
  by replace (_ <=? _) with true by lia.
Qed.

Lemma parse_der_integer_encoded pre v post : 0 < v < 2 ^ 256 -> vec_size (pre ++ der_integer v ++ post) < 2 ^ 64 ->
  parse_der_integer (pre ++ der_integer v ++ post) (vec_size (pre ++ der_integer v ++ post)) (vec_size pre) =
  Parsed (vec_size (pre ++ der_integer v), v).
Proof.
  intros Hv Hsize. destruct (content_spec v Hv) as (z & x & l & Ec & Eb & Hx & Hz & Hk & H32).
  assert (vec_size (der_content v) = Z.of_nat z + der_size v) as Hc.
  { rewrite Ec, sha_size_app, Hk. unfold vec_size. by rewrite length_replicate. }
  destruct (der_size_spec v ltac:(lia)) as (Hd & Hmod & _). assert (z <= 1)%nat as Hz1 by lia.
  set (k := vec_size (der_content v)) in *. assert (0 < k < 128) as Hk128 by lia.
  assert (0 <= vec_size pre /\ 0 <= vec_size post) as [Hp Hq] by (unfold vec_size; lia).
  assert (vec_size (pre ++ der_integer v) = vec_size pre + 2 + k) as Ei.
  { rewrite sha_size_app. unfold der_integer, vec_size. cbn [length]. unfold k, vec_size. lia. }
  assert (vec_size (pre ++ der_integer v ++ post) = vec_size pre + 2 + k + vec_size post) as Es.
  { by rewrite app_assoc, sha_size_app, Ei. }
  rewrite Ei, Es in *. set (data := pre ++ der_integer v ++ post) in *. unfold parse_der_integer.
  assert (data = pre ++ 2 :: k :: der_content v ++ post) as E1 by done.
  assert (data = (pre ++ [2]) ++ k :: der_content v ++ post) as E2 by (rewrite E1, <-app_assoc; done).
  assert (data = (pre ++ [2; k]) ++ der_content v ++ post) as E3 by (rewrite E1, <-app_assoc; done).
  assert (at_ data (vec_size pre) = Parsed 2) as -> by (rewrite E1; apply at_middle).
  assert (at_ data (vec_size pre + 1) = Parsed k) as A2.
  { rewrite E2. replace (vec_size pre + 1) with (vec_size (pre ++ [2])) by (by rewrite sha_size_app). apply at_middle. }
  assert (vec_size (pre ++ [2; k]) = vec_size pre + 2) as S3 by (by rewrite sha_size_app).
  unfold guard. replace (vec_size pre <? _) with true by lia. cbn [parse_bind Z.eqb Pos.eqb].
  rewrite (wrap_small 64 (vec_size pre + 1)) by (split; lia).
  rewrite (parse_der_length_short _ _ _ k) by (done || lia). cbn [parse_bind]. replace (k =? 0) with false by lia. cbn [negb parse_bind].
  replace (vec_size pre + 1 + 1) with (vec_size (pre ++ [2; k])) by lia. rewrite E3.
  assert (exists y t, der_content v = y :: t /\ 0 <= y < 128) as (y & t & Ey & Hy).
  { rewrite Ec. destruct Hz as [[-> Hz]| ->]; [by exists x, l; split; [|lia]|]. by exists 0, (x :: l). }
  rewrite Ey at 1. cbn [app]. rewrite at_middle. cbn [parse_bind]. rewrite top_clear by done. cbn [parse_bind].
  assert (2 <= S (length data))%nat as Hfuel.
  { unfold vec_size in *. lia. }
  pose proof (strip_content (pre ++ [2; k]) z x l post _ ltac:(lia) Hz1 Hfuel ltac:(lia)) as Hst.
  rewrite <-Ec, Hk, <-Hc, <-E3 in Hst. rewrite <-E3. fold k in Hst. rewrite Hst. cbn [parse_bind]. rewrite Es.
  rewrite S3. replace (_ <=? _) with true by lia. rewrite (wrap_small 64) by (split; lia). do 2 f_equal; [lia|].
  rewrite E3, Ec, <-Hk, <-S3. replace (vec_size (pre ++ [2; k]) + Z.of_nat z) with (vec_size ((pre ++ [2; k]) ++ replicate z 0))
    by (rewrite sha_size_app; unfold vec_size at 2; by rewrite length_replicate).
  rewrite <-(app_assoc (replicate z 0)), (app_assoc (pre ++ [2; k])), slice_middle, Eb, from_be_bytes, Z.mod_small by lia. done.
Qed.

Lemma der_integer_size v : 0 < v < 2 ^ 256 -> 3 <= vec_size (der_integer v) <= 35.
Proof.
  intros Hv. destruct (content_spec v Hv) as (z & x & l & Ec & _ & _ & Hz & Hk & H32). unfold der_integer. rewrite Ec.
  unfold vec_size in *. cbn [length] in *. rewrite !length_app, length_replicate. cbn [length]. lia.
Qed.

(** Parsing undoes encoding: every pair of integers between 1 and the group order,
    written as a DER sequence of two minimal signed integers, is parsed to that pair. *)
Theorem der_roundtrip r s : 0 < r < n -> 0 < s < n -> parse_ecdsa_der_signature (Some (der_signature r s)) = Parsed (r, s).
Proof.
  intros Hr Hs. assert (n < 2 ^ 256) as Hn by (by vm_compute).
  pose proof (der_integer_size r ltac:(lia)) as Sr. pose proof (der_integer_size s ltac:(lia)) as Ss.
  set (k := vec_size (der_integer r ++ der_integer s)). assert (6 <= k <= 70) as Hk by (unfold k; rewrite sha_size_app; lia).
  assert (der_signature r s = [0x30; k] ++ der_integer r ++ der_integer s) as E by done.
  assert (vec_size (der_signature r s) = 2 + k) as Es by (by rewrite E, sha_size_app).
  unfold parse_ecdsa_der_signature, guard. rewrite Es. replace (2 + k =? 0) with false by lia. cbn [negb parse_bind].
  assert (forall l, at_ ([0x30; k] ++ l) 0 = Parsed 0x30 /\ at_ ([0x30; k] ++ l) 1 = Parsed k) as A0
    by (intros l; split; [apply (at_middle [])|apply (at_middle [0x30])]).
  rewrite E, (proj1 (A0 _)). cbn [parse_bind Z.eqb Pos.eqb].
  rewrite (parse_der_length_short _ _ 1 k (proj2 (A0 _))) by lia. cbn [parse_bind].
  rewrite (wrap_small 64) by (split; lia). replace (1 + 1 + k =? 2 + k) with true by lia. cbn [parse_bind].
  replace (1 + 1 + k) with (vec_size ([0x30; k] ++ der_integer r ++ der_integer s)) by (rewrite <-E; lia).
  change (1 + 1) with (vec_size [0x30; k]).
  rewrite parse_der_integer_encoded by (rewrite <-?E; lia). cbn [parse_bind].
  pose proof (parse_der_integer_encoded ([0x30; k] ++ der_integer r) s []) as H2. rewrite app_nil_r, <-!app_assoc in H2.
  rewrite H2 by (rewrite <-?E; lia). cbn [parse_bind]. rewrite Z.eqb_refl. cbn [parse_bind].
  by replace ((0 <? r) && _ && _ && _) with true by lia.
Qed.

Lemma der_roundtrip_witness : parse_ecdsa_der_signature (Some (der_signature 1 (2 ^ 255))) = Parsed (1, 2 ^ 255).
Proof. apply der_roundtrip; by vm_compute. Defined.
