(* ===== verification/RseMcuboot.v ===== *)
(** Boot image headers as the RSE verification accelerator reads them
    (qemu-components/rse_cpu_accel/include/rse_mcuboot_image.h). *)

From S2P Require Import Prelude Bytes Vectors Sha256.

Definition IMAGE_MAGIC : Z := 0x96f3b83d.
Definition IMAGE_TLV_INFO_MAGIC : Z := 0x6907.
Definition IMAGE_TLV_PROT_INFO_MAGIC : Z := 0x6908.
Definition IMAGE_F_ENCRYPTED_AES128 : Z := 0x00000004.
Definition IMAGE_F_ENCRYPTED_AES256 : Z := 0x00000008.
Definition IMAGE_F_RAM_LOAD : Z := 0x00000020.
Definition IMAGE_HEADER_SIZE : Z := 32.
Definition IMAGE_TLV_INFO_SIZE : Z := 4.
Definition SHA256_SIZE : Z := 32.

(** [rse_mcuboot_image.h: "struct ImageHeader {" .. "};"] *)
Record ImageHeader := MkImageHeader {
  magic : Z;
  load_addr : Z;
  hdr_size : Z;
  protect_tlv_size : Z;
  img_size : Z;
  flags : Z
}.

Definition no_header : ImageHeader := MkImageHeader 0 0 0 0 0 0.

(** [rse_mcuboot_image.h: load_le16] *)
Definition load_le16 (p : list Z) (off : Z) : Z := Z.lor (arr_get p off) (shl 16 (arr_get p (off + 1)) 8).

(** [rse_mcuboot_image.h: load_le32] *)
Definition load_le32 (p : list Z) (off : Z) : Z :=
  Z.lor (Z.lor (Z.lor (arr_get p off) (shl 32 (arr_get p (off + 1)) 8)) (shl 32 (arr_get p (off + 2)) 16))
    (shl 32 (arr_get p (off + 3)) 24).

(** The header that was read, and whether it is one. *)
(** [rse_mcuboot_image.h: parse_header] *)
Definition parse_header (data : option (list Z)) (header : ImageHeader) : ImageHeader * bool :=
  match data with
  | None => (header, false)
  | Some data =>
      if vec_size data <? IMAGE_HEADER_SIZE then (header, false)
      else
        let header := MkImageHeader (load_le32 data 0) (load_le32 data 4) (load_le16 data 8) (load_le16 data 10)
          (load_le32 data 12) (load_le32 data 16) in
        (header, (magic header =? IMAGE_MAGIC) && (IMAGE_HEADER_SIZE <=? hdr_size header))
  end.

(** [rse_mcuboot_image.h: checked_add] *)
Definition checked_add (lhs rhs : Z) : option Z :=
  if u64 (u64 (-1) - rhs) <? lhs then None else Some (u64 (lhs + rhs)).

(** [rse_mcuboot_image.h: hash_region_size] *)
Definition hash_region_size (header : ImageHeader) : option Z :=
  match checked_add (hdr_size header) (img_size header) with
  | None => None
  | Some total => checked_add total (protect_tlv_size header)
  end.

(** The magic number and the total size. *)
(** [rse_mcuboot_image.h: parse_tlv_info] *)
Definition parse_tlv_info (data : option (list Z)) : option (Z * Z) :=
  match data with
  | None => None
  | Some data => if vec_size data <? IMAGE_TLV_INFO_SIZE then None else Some (load_le16 data 0, load_le16 data 2)
  end.

(** [rse_mcuboot_image.h: sha256] *)
Definition image_sha256 (seed : option (list Z)) (image : list Z) : list Z :=
  let sha := reset in
  let sha := match seed with
             | Some seed => if negb (vec_size seed =? 0) then update (Some seed) sha else sha
             | None => sha
             end in
  finish (update (Some image) sha).

(** * Lemmas *)

Definition header_ok (h : ImageHeader) : Prop :=
  is_u32 (magic h) /\ is_u32 (load_addr h) /\ is_u16 (hdr_size h) /\ is_u16 (protect_tlv_size h) /\
  is_u32 (img_size h) /\ is_u32 (flags h).

Lemma le16_ok p off : bytes_ok p -> is_u16 (load_le16 p off).
Proof.
  intros Hp. apply lor_uint; [lia|eapply is_uint_mono; [|by apply bytes_get]; lia|by apply wrap_range].
Qed.

Lemma le32_ok p off : bytes_ok p -> is_u32 (load_le32 p off).
Proof.
  intros Hp. repeat (apply lor_uint; [lia| |]); try by apply wrap_range. eapply is_uint_mono; [|by apply bytes_get]; lia.
Qed.

(** The fields of a header that is read from bytes have their widths. *)
Lemma parse_header_ok bytes h : bytes_ok bytes -> parse_header (Some bytes) no_header = (h, true) -> header_ok h.
Proof.
  intros Hb. unfold parse_header. destruct (_ <? _); [done|]. intros E. injection E as <- _. unfold header_ok. cbn.
  auto 10 using le16_ok, le32_ok.
Qed.

Lemma checked_add_spec x y : is_u64 x -> is_u64 y -> x + y < 2 ^ 64 -> checked_add x y = Some (x + y).
Proof.
  intros [Hx Hx'] [Hy Hy'] H. unfold checked_add. change (u64 (-1)) with (2 ^ 64 - 1).
  rewrite wrap_small by (split; lia). replace (_ <? x) with false by lia. by rewrite wrap_small by (split; lia).
Qed.

(** The widths of the fields leave no sum that does not fit. *)
Lemma hash_region_size_spec h : header_ok h ->
  hash_region_size h = Some (hdr_size h + img_size h + protect_tlv_size h).
Proof.
  intros (_ & _ & [H1 H1'] & [H2 H2'] & [H3 H3'] & _). unfold hash_region_size.
  rewrite checked_add_spec by (try split; lia). by rewrite checked_add_spec by (try split; lia).
Qed.

Lemma image_sha256_spec seed image : (vec_size (default [] seed) + vec_size image) * 8 < 2 ^ 64 ->
  image_sha256 seed image = SHA256 (default [] seed ++ image).
Proof.
  intros Hl. unfold image_sha256.
  assert (hashed (default [] seed) (match seed with
     | Some seed => if negb (vec_size seed =? 0) then update (Some seed) reset else reset
     | None => reset end)) as H.
  { destruct seed as [seed|]; [|apply hashed_reset]. destruct (Z.eqb_spec (vec_size seed) 0) as [E|E]; cbn [negb].
    - destruct seed; [apply hashed_reset|unfold vec_size in E; cbn in E; lia].
    - apply (hashed_update [] (Some seed)), hashed_reset. }
  apply (hashed_update _ (Some image)) in H. cbn [default] in H. apply finish_spec; [done|].
  rewrite sha_size_app. lia.
Qed.
