(* ===== verification/RseAccelState.v ===== *)
(** Data of the RSE CPU accelerator
    (qemu-components/rse_cpu_accel/include/rse_cpu_accel.h): what it asks of the
    guest CPU, its parameters, its state, and the steps its handlers are made of. *)

From stdpp Require Import gmap strings.
From S2P Require Import Prelude Bytes Vectors Sha256 RseLms RseP256 RseMcuboot.

(** * The guest *)

(** The registers the handlers use. *)
Inductive Field := R0 | R1 | R2 | R3 | R4 | SP | LR | PC.

#[export] Instance Field_eq_dec : EqDecision Field.
Proof. solve_decision. Defined.

(** What the emulator offers: registers, guest memory by address, and pointers into
    the host memory that backs it, which is moved and set directly. *)
Class SemanticContext (G : Type) := {
  get_v7m_state : Field -> G -> Z;
  set_v7m_state : Field -> Z -> G -> G * bool;
  get_pc : G -> Z;
  guest_read_u8 : Z -> G -> option Z;
  guest_read_u32 : Z -> G -> option Z;
  guest_read_bytes : Z -> Z -> G -> option (list Z);
  (** with whether a file stood in for the memory *)
  guest_read_bytes_or_alias : Z -> Z -> G -> option (list Z * bool);
  guest_write_bytes : Z -> list Z -> G -> G * bool;
  guest_write_bytes_or_alias : Z -> list Z -> G -> G * bool * bool;
  guest_dmi_ptr : Z -> Z -> bool -> bool -> G -> option Z;
  host_memmove : Z -> Z -> Z -> G -> G;
  host_memset : Z -> Z -> Z -> G -> G;
  invalidate_guest_range : Z -> Z -> G -> G;
  set_vcpu_dirty : bool -> G -> G;
  kick_cpu : G -> G;
  add_pc_entry_watch : Z -> G -> G;
  install_direct_file_aliases : string -> G -> G;
  install_mmio_read_fastpath : string -> G -> G;
  install_mmio_direct_fastpath_ranges : string -> G -> G
}.

(** * Parameters *)

(** [rse_cpu_accel.h: "ConfigValue<bool> p_hotpath_accel;" .. "ConfigValue<std::string> p_mmio_direct_fastpath_ranges;"] *)
Record config := MkConfig {
  p_hotpath_accel : bool;
  p_hotpath_memcpy_addr : Z;
  p_hotpath_memset_addr : Z;
  p_hotpath_max_bytes : Z;
  p_hotpath_profile_file : string;
  p_hotpath_profile_interval : Z;
  p_lms_accel : bool;
  p_lms_verify_addr : Z;
  p_lms_max_data_bytes : Z;
  p_bl2_load_profile : bool;
  p_bl2_boot_go_for_image_id_addr : Z;
  p_bl2_boot_load_image_to_sram_addr : Z;
  p_bl2_boot_enc_load_addr : Z;
  p_bl2_boot_enc_decrypt_addr : Z;
  p_bl2_bootutil_img_validate_addr : Z;
  p_bl2_bootutil_img_hash_addr : Z;
  p_bl2_bootutil_verify_sig_addr : Z;
  p_bl2_boot_image_count : Z;
  p_bl2_boot_state_curr_img_offset : Z;
  p_bl2_boot_state_imgs_offset : Z;
  p_bl2_boot_state_image_stride : Z;
  p_bl2_boot_state_slot_stride : Z;
  p_bl2_boot_state_slot_usage_offset : Z;
  p_bl2_boot_state_slot_usage_stride : Z;
  p_bl2_boot_slot_usage_img_dst_offset : Z;
  p_bl2_boot_slot_usage_img_sz_offset : Z;
  p_bl2_load_accel : bool;
  p_bl2_load_accel_max_bytes : Z;
  p_bl2_boot_enc_accel : bool;
  p_bl2_boot_enc_set_key_addr : Z;
  p_bl2_boot_status_enckey_offset : Z;
  p_bl2_boot_enc_key_bytes : Z;
  p_bl2_boot_enc_key_stride : Z;
  p_bl2_boot_enc_slots : Z;
  p_bl2_boot_enc_max_bytes : Z;
  p_bl2_img_hash_accel : bool;
  p_bl2_img_hash_max_bytes : Z;
  p_bl2_img_hash_max_seed_bytes : Z;
  p_bl2_verify_sig_accel : bool;
  p_bl2_verify_sig_skip : bool;
  p_bl2_bootutil_keys_addr : Z;
  p_bl2_bootutil_key_cnt_addr : Z;
  p_bl2_fih_success_addr : Z;
  p_bl2_verify_sig_max_key_bytes : Z;
  p_bl2_verify_sig_max_sig_bytes : Z;
  p_bl2_delay_accel : bool;
  p_bl2_delay_cycles_addr : Z;
  p_bl2_delay_max_cycles : Z;
  p_bl2_delay_expected_hits : Z;
  p_direct_file_aliases : string;
  p_mmio_read_fastpath : string;
  p_mmio_direct_fastpath_ranges : string
}.

(** The parameter broker: the value a handle holds, or a preset, if it has the type. *)
Record broker := MkBroker {
  br_bool : string -> option bool;
  br_u64 : string -> option Z;
  br_string : string -> option string
}.

(** [rse_cpu_accel.h: "T param(const std::string& name" .. "return default_value;"] *)
Definition param {T} (handle preset : string -> option T) (prefix name : string) (default_value : T) : T :=
  let full_name := String.append prefix name in
  match handle full_name with
  | Some value => value
  | None => match preset full_name with Some value => value | None => default_value end
  end.

(** [rse_cpu_accel.h: load_config] *)
Definition load_config (handle preset : broker) (prefix : string) : config :=
  let flag := param (br_bool handle) (br_bool preset) prefix in
  let num := param (br_u64 handle) (br_u64 preset) prefix in
  let text := param (br_string handle) (br_string preset) prefix in
  {| p_hotpath_accel := flag "hotpath_accel" false;
     p_hotpath_memcpy_addr := num "hotpath_memcpy_addr" 0;
     p_hotpath_memset_addr := num "hotpath_memset_addr" 0;
     p_hotpath_max_bytes := num "hotpath_max_bytes" (16 * 1024 * 1024);
     p_hotpath_profile_file := text "hotpath_profile_file" "";
     p_hotpath_profile_interval := num "hotpath_profile_interval" 1024;
     p_lms_accel := flag "lms_accel" false;
     p_lms_verify_addr := num "lms_verify_addr" 0;
     p_lms_max_data_bytes := num "lms_max_data_bytes" 4096;
     p_bl2_load_profile := flag "bl2_load_profile" false;
     p_bl2_boot_go_for_image_id_addr := num "bl2_boot_go_for_image_id_addr" 0;
     p_bl2_boot_load_image_to_sram_addr := num "bl2_boot_load_image_to_sram_addr" 0;
     p_bl2_boot_enc_load_addr := num "bl2_boot_enc_load_addr" 0;
     p_bl2_boot_enc_decrypt_addr := num "bl2_boot_enc_decrypt_addr" 0;
     p_bl2_bootutil_img_validate_addr := num "bl2_bootutil_img_validate_addr" 0;
     p_bl2_bootutil_img_hash_addr := num "bl2_bootutil_img_hash_addr" 0;
     p_bl2_bootutil_verify_sig_addr := num "bl2_bootutil_verify_sig_addr" 0;
     p_bl2_boot_image_count := num "bl2_boot_image_count" 5;
     p_bl2_boot_state_curr_img_offset := num "bl2_boot_state_curr_img_offset" 0x10c8;
     p_bl2_boot_state_imgs_offset := num "bl2_boot_state_imgs_offset" 0;
     p_bl2_boot_state_image_stride := num "bl2_boot_state_image_stride" 88;
     p_bl2_boot_state_slot_stride := num "bl2_boot_state_slot_stride" 44;
     p_bl2_boot_state_slot_usage_offset := num "bl2_boot_state_slot_usage_offset" 0x10d0;
     p_bl2_boot_state_slot_usage_stride := num "bl2_boot_state_slot_usage_stride" 16;
     p_bl2_boot_slot_usage_img_dst_offset := num "bl2_boot_slot_usage_img_dst_offset" 8;
     p_bl2_boot_slot_usage_img_sz_offset := num "bl2_boot_slot_usage_img_sz_offset" 12;
     p_bl2_load_accel := flag "bl2_load_accel" false;
     p_bl2_load_accel_max_bytes := num "bl2_load_accel_max_bytes" (16 * 1024 * 1024);
     p_bl2_boot_enc_accel := flag "bl2_boot_enc_accel" false;
     p_bl2_boot_enc_set_key_addr := num "bl2_boot_enc_set_key_addr" 0;
     p_bl2_boot_status_enckey_offset := num "bl2_boot_status_enckey_offset" 0x0c;
     p_bl2_boot_enc_key_bytes := num "bl2_boot_enc_key_bytes" 16;
     p_bl2_boot_enc_key_stride := num "bl2_boot_enc_key_stride" 16;
     p_bl2_boot_enc_slots := num "bl2_boot_enc_slots" 2;
     p_bl2_boot_enc_max_bytes := num "bl2_boot_enc_max_bytes" 4096;
     p_bl2_img_hash_accel := flag "bl2_img_hash_accel" false;
     p_bl2_img_hash_max_bytes := num "bl2_img_hash_max_bytes" (16 * 1024 * 1024);
     p_bl2_img_hash_max_seed_bytes := num "bl2_img_hash_max_seed_bytes" 4096;
     p_bl2_verify_sig_accel := flag "bl2_verify_sig_accel" false;
     p_bl2_verify_sig_skip := flag "bl2_verify_sig_skip" false;
     p_bl2_bootutil_keys_addr := num "bl2_bootutil_keys_addr" 0;
     p_bl2_bootutil_key_cnt_addr := num "bl2_bootutil_key_cnt_addr" 0;
     p_bl2_fih_success_addr := num "bl2_fih_success_addr" 0;
     p_bl2_verify_sig_max_key_bytes := num "bl2_verify_sig_max_key_bytes" 512;
     p_bl2_verify_sig_max_sig_bytes := num "bl2_verify_sig_max_sig_bytes" 128;
     p_bl2_delay_accel := flag "bl2_delay_accel" false;
     p_bl2_delay_cycles_addr := num "bl2_delay_cycles_addr" 0;
     p_bl2_delay_max_cycles := num "bl2_delay_max_cycles" (50 * 1000 * 1000);
     p_bl2_delay_expected_hits := num "bl2_delay_expected_hits" 3;
     p_direct_file_aliases := text "direct_file_aliases" "";
     p_mmio_read_fastpath := text "mmio_read_fastpath" "";
     p_mmio_direct_fastpath_ranges := text "mmio_direct_fastpath_ranges" "" |}.

(** * State *)

(** The counters and the values last seen, by name; all start at 0. *)
(** [rse_cpu_accel.h: "std::atomic<uint64_t> m_bl2_load_accel_hits{ 0 };" .. "std::atomic<uint32_t> m_bl2_delay_last_unsupported_mask{ 0 };"] *)
Inductive atomic :=
| m_hotpath_memcpy_hits
| m_hotpath_memset_hits
| m_hotpath_fallbacks
| m_hotpath_pc_misses
| m_hotpath_too_large_fails
| m_hotpath_dmi_fails
| m_hotpath_stack_fails
| m_hotpath_state_fails
| m_lms_accel_hits
| m_lms_accel_pc_misses
| m_lms_accel_dmi_fails
| m_lms_accel_verify_fails
| m_lms_accel_state_fails
| m_lms_accel_unsupported
| m_lms_last_key_addr
| m_lms_last_key_size
| m_lms_last_data_addr
| m_lms_last_data_size
| m_lms_last_sig_addr
| m_lms_last_sig_size
| m_lms_last_unsupported_mask
| m_bl2_load_profile_pc_misses
| m_bl2_load_profile_stack_fails
| m_bl2_load_accel_hits
| m_bl2_load_accel_skip_hits
| m_bl2_load_accel_bytes
| m_bl2_load_accel_key_misses
| m_bl2_load_accel_dmi_failures
| m_bl2_load_accel_direct_file_alias_hits
| m_bl2_load_accel_state_failures
| m_bl2_load_accel_unsupported
| m_bl2_load_accel_last_curr_img
| m_bl2_load_accel_last_slot
| m_bl2_load_accel_last_off
| m_bl2_load_accel_last_size
| m_bl2_load_accel_last_blk_off
| m_bl2_load_accel_last_buf
| m_bl2_load_accel_last_img_size
| m_bl2_load_accel_last_flags
| m_bl2_load_accel_last_unsupported_mask
| m_bl2_boot_enc_key_captures
| m_bl2_boot_enc_key_capture_failures
| m_bl2_boot_enc_decrypt_hits
| m_bl2_boot_enc_decrypt_bytes
| m_bl2_boot_enc_decrypt_key_misses
| m_bl2_boot_enc_decrypt_dmi_failures
| m_bl2_boot_enc_decrypt_direct_file_alias_hits
| m_bl2_boot_enc_decrypt_state_failures
| m_bl2_boot_enc_decrypt_unsupported
| m_bl2_boot_enc_last_enc_state
| m_bl2_boot_enc_last_slot
| m_bl2_boot_enc_last_off
| m_bl2_boot_enc_last_size
| m_bl2_boot_enc_last_blk_off
| m_bl2_boot_enc_last_buf
| m_bl2_boot_enc_last_unsupported_mask
| m_bl2_img_hash_hits
| m_bl2_img_hash_bytes
| m_bl2_img_hash_dmi_failures
| m_bl2_img_hash_direct_file_alias_hits
| m_bl2_img_hash_state_failures
| m_bl2_img_hash_unsupported
| m_bl2_img_hash_last_hdr
| m_bl2_img_hash_last_load_addr
| m_bl2_img_hash_last_hash_result
| m_bl2_img_hash_last_hash_size
| m_bl2_img_hash_last_seed
| m_bl2_img_hash_last_seed_len
| m_bl2_img_hash_last_unsupported_mask
| m_bl2_verify_sig_matches
| m_bl2_verify_sig_cache_hits
| m_bl2_verify_sig_cache_misses
| m_bl2_verify_sig_skip_hits
| m_bl2_verify_sig_dmi_failures
| m_bl2_verify_sig_verify_failures
| m_bl2_verify_sig_state_failures
| m_bl2_verify_sig_unsupported
| m_bl2_verify_sig_last_hash
| m_bl2_verify_sig_last_hlen
| m_bl2_verify_sig_last_sig
| m_bl2_verify_sig_last_slen
| m_bl2_verify_sig_last_key_id
| m_bl2_verify_sig_last_key_ptr
| m_bl2_verify_sig_last_key_len
| m_bl2_verify_sig_last_fih_success
| m_bl2_verify_sig_last_unsupported_mask
| m_bl2_delay_hits
| m_bl2_delay_cycles
| m_bl2_delay_state_failures
| m_bl2_delay_unsupported
| m_bl2_delay_last_cycles
| m_bl2_delay_last_lr
| m_bl2_delay_last_unsupported_mask.

#[export] Instance atomic_eq_dec : EqDecision atomic.
Proof. solve_decision. Defined.

(** [rse_cpu_accel.h: "struct Bl2ProfileSample {" .. "};"] *)
Record Bl2ProfileSample := MkSample {
  sa_pc : Z; sa_r0 : Z; sa_r1 : Z; sa_r2 : Z; sa_r3 : Z; sa_sp : Z; sa_lr : Z;
  sa_stack : list Z;
  sa_stack_words : Z
}.

#[export] Instance eta_sample : Eta Bl2ProfileSample := fun s =>
  MkSample (sa_pc s) (sa_r0 s) (sa_r1 s) (sa_r2 s) (sa_r3 s) (sa_sp s) (sa_lr s) (sa_stack s) (sa_stack_words s).

(** [rse_cpu_accel.h: "struct Bl2ProfileSite {" .. "};"] *)
Record Bl2ProfileSite := MkSite { site_hits : Z; site_last : Bl2ProfileSample }.

#[export] Instance eta_site : Eta Bl2ProfileSite := fun s => MkSite (site_hits s) (site_last s).

(** [rse_cpu_accel.h: "Bl2ProfileSite m_bl2_boot_go_for_image_id;" .. "Bl2ProfileSite m_bl2_bootutil_verify_sig;"] *)
Inductive site :=
| m_bl2_boot_go_for_image_id | m_bl2_boot_load_image_to_sram | m_bl2_boot_enc_load | m_bl2_boot_enc_decrypt
| m_bl2_bootutil_img_validate | m_bl2_bootutil_img_hash | m_bl2_bootutil_verify_sig.

#[export] Instance site_eq_dec : EqDecision site.
Proof. solve_decision. Defined.

(** [rse_cpu_accel.h: "struct Bl2RamLoadSnapshot {" .. "};"] *)
Record Bl2RamLoadSnapshot := MkSnapshot {
  sn_hits : Z;
  sn_dmi_failures : Z;
  sn_unsupported : Z;
  last_state : Z;
  last_curr_img : Z;
  last_active_slot : Z;
  last_hdr_addr : Z;
  last_hdr_magic : Z;
  last_load_addr : Z;
  last_hdr_size : Z;
  last_protect_tlv_size : Z;
  last_img_size : Z;
  last_flags : Z;
  last_hash_region_size : Z;
  last_slot_img_dst : Z;
  last_slot_img_sz : Z;
  last_unsupported_mask : Z
}.

#[export] Instance eta_snapshot : Eta Bl2RamLoadSnapshot := fun s =>
  MkSnapshot (sn_hits s) (sn_dmi_failures s) (sn_unsupported s) (last_state s) (last_curr_img s) (last_active_slot s)
    (last_hdr_addr s) (last_hdr_magic s) (last_load_addr s) (last_hdr_size s) (last_protect_tlv_size s) (last_img_size s)
    (last_flags s) (last_hash_region_size s) (last_slot_img_dst s) (last_slot_img_sz s) (last_unsupported_mask s).

Definition no_snapshot : Bl2RamLoadSnapshot := MkSnapshot 0 0 0 0 0 0 0 0 0 0 0 0 0 0 0 0 0.

Definition BL2_RAM_LOAD_SNAPSHOT_IMAGE_SLOTS : Z := 64.

(** [rse_cpu_accel.h: "struct Bl2EncKeyCacheEntry {" .. "};"] *)
Record Bl2EncKeyCacheEntry := MkKey { key_valid : bool; key_size : Z; key_bytes : list Z }.

Definition no_key : Bl2EncKeyCacheEntry := MkKey false 0 (replicate 32 0).

(** [rse_cpu_accel.h: "struct Bl2VerifySigCacheEntry {" .. "};"] *)
Record Bl2VerifySigCacheEntry := MkVerified {
  ve_public_key : list Z;
  ve_hash : list Z;
  ve_signature : list Z;
  ve_verified : bool
}.

(** The atomics of the class are one store; the profile file is how often it was
    written.  [a_undefined] is set when the check of a signature read outside its
    buffers: what the program does from then on is not defined. *)
(** [rse_cpu_accel.h: "std::atomic<uint64_t> m_hotpath_memcpy_hits{ 0 };" .. "std::atomic<uint32_t> m_lms_last_unsupported_mask{ 0 };"] *)
Record accel := MkAccel {
  a_atomics : atomic -> Z;
  a_sites : site -> Bl2ProfileSite;
  m_lms_accel_done : bool;
  m_bl2_ram_load_snapshot : Bl2RamLoadSnapshot;
  m_bl2_ram_load_snapshot_by_image : list Bl2RamLoadSnapshot;
  m_bl2_load_accel_image_decrypted : list bool;
  m_bl2_boot_enc_keys : gmap Z Bl2EncKeyCacheEntry;
  m_bl2_verify_sig_cache : list Bl2VerifySigCacheEntry;
  m_bl2_delay_watch_active : bool;
  m_pc_entry_registered : bool;
  a_profile_writes : Z;
  a_undefined : bool
}.

#[export] Instance eta_accel : Eta accel := fun a =>
  MkAccel (a_atomics a) (a_sites a) (m_lms_accel_done a) (m_bl2_ram_load_snapshot a) (m_bl2_ram_load_snapshot_by_image a)
    (m_bl2_load_accel_image_decrypted a) (m_bl2_boot_enc_keys a) (m_bl2_verify_sig_cache a) (m_bl2_delay_watch_active a)
    (m_pc_entry_registered a) (a_profile_writes a) (a_undefined a).

Definition new_accel : accel :=
  MkAccel (fun _ => 0) (fun _ => MkSite 0 (MkSample 0 0 0 0 0 0 0 [0; 0; 0; 0] 0)) false no_snapshot
    (replicate 64 no_snapshot) (replicate 64 false) ∅ [] false false 0 false.

(** * Steps *)

(** A handler runs on the accelerator and the guest. *)
Definition M (G A : Type) : Type := accel * G -> A * (accel * G).

Definition ret {G A} (x : A) : M G A := fun w => (x, w).
Definition bind {G A B} (m : M G A) (f : A -> M G B) : M G B := fun w => let '(x, w) := m w in f x w.

Declare Scope accel_scope.
Delimit Scope accel_scope with accel.
Open Scope accel_scope.

Notation "'let!' x := m 'in' k" := (bind m (fun x => k)) (at level 200, x pattern, m at level 100, k at level 200) : accel_scope.
Notation "m ;; k" := (bind m (fun _ => k)) (at level 100, k at level 200, right associativity) : accel_scope.

Section steps.
Context {G : Type} {context : SemanticContext G} (cfg : config).

Definition get {A} (f : accel -> A) : M G A := fun w => (f (fst w), w).
Definition modify (f : accel -> accel) : M G () := fun '(a, g) => ((), (f a, g)).
Definition guest {A} (f : G -> A) : M G A := fun w => (f (snd w), w).
Definition on_guest (f : G -> G) : M G () := fun '(a, g) => ((), (a, f g)).
Definition when (c : bool) (m : M G ()) : M G () := if c then m else ret ().

(** [counter.fetch_add(n)] on a [uint64_t], and [value.store(v)] on a [uint32_t]. *)
Definition fetch_add (c : atomic) (n : Z) : M G () :=
  modify (fun a => a <| a_atomics ::= fun f c' => if decide (c' = c) then u64 (f c + n) else f c' |>).
Definition inc (c : atomic) : M G () := fetch_add c 1.
Definition store (c : atomic) (v : Z) : M G () :=
  modify (fun a => a <| a_atomics ::= fun f c' => if decide (c' = c) then u32 v else f c' |>).

(** [static_cast<uint32_t>(m_context.get_v7m_state(field))]. *)
Definition reg (field : Field) : M G Z := guest (fun g => u32 (get_v7m_state field g)).
Definition set_reg (field : Field) (v : Z) : M G bool :=
  fun '(a, g) => let '(g, ok) := set_v7m_state field v g in (ok, (a, g)).
(** [set(f, v) && set(f', v')]. *)
Definition and_then (m m' : M G bool) : M G bool := let! ok := m in if ok then m' else ret false.

Definition hotpath_read_u32 (address : Z) : M G (option Z) := guest (guest_read_u32 address).
Definition hotpath_read_u8 (address : Z) : M G (option Z) := guest (guest_read_u8 address).
Definition hotpath_read_bytes (address size : Z) : M G (option (list Z)) := guest (guest_read_bytes address size).
Definition hotpath_read_bytes_or_alias (address size : Z) : M G (option (list Z * bool)) :=
  guest (guest_read_bytes_or_alias address size).
Definition hotpath_write_bytes (address : Z) (data : list Z) : M G bool :=
  fun '(a, g) => let '(g, ok) := guest_write_bytes address data g in (ok, (a, g)).
Definition hotpath_write_bytes_or_alias (address : Z) (data : list Z) : M G (bool * bool) :=
  fun '(a, g) => let '(g, ok, alias) := guest_write_bytes_or_alias address data g in (ok, alias, (a, g)).

(** * The profile *)

(** The text of the file is a function of the state, with the reports. *)
(** [rse_cpu_accel.h: "void write_hotpath_profile_file()" .. "std::lock_guard<std::mutex> lock(m_hotpath_profile_lock);"] *)
Definition write_hotpath_profile_file : M G () :=
  when (negb (String.eqb (p_hotpath_profile_file cfg) "")) (modify (fun a => a <| a_profile_writes ::= Z.add 1 |>)).

Definition load_all (a : accel) (cs : list atomic) : list Z := map (a_atomics a) cs.

(** [rse_cpu_accel.h: bl2_load_profile_events] *)
Definition bl2_load_profile_events (a : accel) : list Z :=
  map (fun s => site_hits (a_sites a s))
    [m_bl2_boot_go_for_image_id; m_bl2_boot_load_image_to_sram; m_bl2_boot_enc_load; m_bl2_boot_enc_decrypt;
     m_bl2_bootutil_img_validate; m_bl2_bootutil_img_hash; m_bl2_bootutil_verify_sig] ++
  load_all a [m_bl2_load_profile_pc_misses; m_bl2_load_profile_stack_fails].

(** [rse_cpu_accel.h: bl2_boot_enc_accel_events] *)
Definition bl2_boot_enc_accel_events (a : accel) : list Z :=
  load_all a [m_bl2_boot_enc_key_captures; m_bl2_boot_enc_key_capture_failures; m_bl2_boot_enc_decrypt_hits;
    m_bl2_boot_enc_decrypt_key_misses; m_bl2_boot_enc_decrypt_dmi_failures; m_bl2_boot_enc_decrypt_state_failures;
    m_bl2_boot_enc_decrypt_unsupported].

(** [rse_cpu_accel.h: bl2_load_accel_events] *)
Definition bl2_load_accel_events (a : accel) : list Z :=
  load_all a [m_bl2_load_accel_hits; m_bl2_load_accel_skip_hits; m_bl2_load_accel_key_misses;
    m_bl2_load_accel_dmi_failures; m_bl2_load_accel_state_failures; m_bl2_load_accel_unsupported].

(** [rse_cpu_accel.h: bl2_img_hash_accel_events] *)
Definition bl2_img_hash_accel_events (a : accel) : list Z :=
  load_all a [m_bl2_img_hash_hits; m_bl2_img_hash_dmi_failures; m_bl2_img_hash_state_failures; m_bl2_img_hash_unsupported].

(** [rse_cpu_accel.h: bl2_verify_sig_accel_events] *)
Definition bl2_verify_sig_accel_events (a : accel) : list Z :=
  load_all a [m_bl2_verify_sig_matches; m_bl2_verify_sig_skip_hits; m_bl2_verify_sig_dmi_failures;
    m_bl2_verify_sig_verify_failures; m_bl2_verify_sig_state_failures; m_bl2_verify_sig_unsupported].

(** [rse_cpu_accel.h: bl2_delay_accel_events] *)
Definition bl2_delay_accel_events (a : accel) : list Z :=
  load_all a [m_bl2_delay_hits; m_bl2_delay_state_failures; m_bl2_delay_unsupported].

(** [rse_cpu_accel.h: maybe_write_hotpath_profile_file] *)
Definition maybe_write_hotpath_profile_file : M G () :=
  let interval := p_hotpath_profile_interval cfg in
  if interval =? 0 then ret ()
  else
    let! a := get id in
    let events := u64 (foldr Z.add 0
      (load_all a [m_hotpath_memcpy_hits; m_hotpath_memset_hits; m_hotpath_fallbacks; m_lms_accel_hits;
         m_lms_accel_pc_misses; m_lms_accel_dmi_fails; m_lms_accel_verify_fails; m_lms_accel_state_fails;
         m_lms_accel_unsupported] ++
       bl2_load_profile_events a ++ bl2_load_accel_events a ++ bl2_boot_enc_accel_events a ++
       bl2_img_hash_accel_events a ++ bl2_verify_sig_accel_events a ++ bl2_delay_accel_events a)) in
    when (negb (events =? 0) && (events mod interval =? 0)) write_hotpath_profile_file.

(** [counter.fetch_add(1); write_hotpath_profile_file(); return false]. *)
Definition decline (c : atomic) : M G bool := inc c;; write_hotpath_profile_file;; ret false.

(** [static_cast<uint32_t>(addr & ~1ull)]. *)
Definition entry_of (addr : Z) : Z := u32 (Z.land addr (not64 1)).
End steps.
