(* ===== verification/RseCpuAccel.v ===== *)
(** The handlers of the RSE CPU accelerator
    (qemu-components/rse_cpu_accel/include/rse_cpu_accel.h): functions of the guest's
    boot loader that are carried out by the host when the guest enters them. *)

From stdpp Require Import gmap strings.
From S2P Require Import Prelude Bytes Vectors Sha256 Cc3xxAes RseLms RseP256 RseMcuboot RseAccelState.

Section handlers.
Context {G : Type} {context : SemanticContext G} (cfg : config).

(** * Profile of the boot loader *)

(** [rse_cpu_accel.h: hotpath_memcpy_safe_pc] *)
Definition hotpath_memcpy_safe_pc (pc base : Z) : bool :=
  (pc =? base) || (pc =? u32 (base + 0x14)) || (pc =? u32 (base + 0x36)) || (pc =? u32 (base + 0x4a)).

(** [rse_cpu_accel.h: hotpath_memset_safe_pc] *)
Definition hotpath_memset_safe_pc (pc base : Z) : bool :=
  (pc =? base) || (pc =? u32 (base + 0x24)) || (pc =? u32 (base + 0x36)).

Definition on_site (s : site) (f : Bl2ProfileSite -> Bl2ProfileSite) : M G () :=
  modify (fun a => a <| a_sites ::= fun sites s' => if decide (s' = s) then f (sites s) else sites s' |>).

Definition on_sample (s : site) (f : Bl2ProfileSample -> Bl2ProfileSample) : M G () :=
  on_site s (fun x => x <| site_last ::= f |>).

(** The words of the stack, until one cannot be read. *)
(** [rse_cpu_accel.h: "uint32_t captured = 0;" .. "++captured;"] *)
Fixpoint capture_stack (s : site) (sp : Z) (indices : list Z) (captured : Z) : M G Z :=
  match indices with
  | [] => ret captured
  | index :: indices =>
      let! value := hotpath_read_u32 (sp + index * 4) in
      match value with
      | None => inc m_bl2_load_profile_stack_fails;; ret captured
      | Some value =>
          on_sample s (fun x => x <| sa_stack ::= arr_set index value |>);;
          capture_stack s sp indices (captured + 1)
      end
  end.

(** [rse_cpu_accel.h: capture_bl2_profile_sample] *)
Definition capture_bl2_profile_sample (s : site) (pc : Z) : M G () :=
  let! sp := reg SP in
  on_site s (fun x => x <| site_hits ::= fun n => u64 (n + 1) |>);;
  on_sample s (fun x => x <| sa_pc := pc |>);;
  (let! v := reg R0 in on_sample s (fun x => x <| sa_r0 := v |>));;
  (let! v := reg R1 in on_sample s (fun x => x <| sa_r1 := v |>));;
  (let! v := reg R2 in on_sample s (fun x => x <| sa_r2 := v |>));;
  (let! v := reg R3 in on_sample s (fun x => x <| sa_r3 := v |>));;
  on_sample s (fun x => x <| sa_sp := sp |>);;
  (let! v := reg LR in on_sample s (fun x => x <| sa_lr := v |>));;
  let! captured := capture_stack s sp (range 4) 0 in
  on_sample s (fun x => x <| sa_stack_words := captured |>).

(** [rse_cpu_accel.h: record_bl2_profile_site] *)
Definition record_bl2_profile_site (pc addr : Z) (s : site) : M G bool :=
  let entry := entry_of addr in
  if (entry =? 0) || negb (pc =? entry) then ret false
  else capture_bl2_profile_sample s pc;; ret true.

(** * Snapshots of image headers *)

Definition on_snapshot (f : Bl2RamLoadSnapshot -> Bl2RamLoadSnapshot) : M G () :=
  modify (fun a => a <| m_bl2_ram_load_snapshot ::= f |>).

(** The snapshot of image [i], if there is room for one. *)
Definition on_image (i : Z) (f : Bl2RamLoadSnapshot -> Bl2RamLoadSnapshot) : M G () :=
  modify (fun a => a <| m_bl2_ram_load_snapshot_by_image ::= alter f (Z.to_nat i) |>).

(** [rse_cpu_accel.h: store_bl2_ram_load_snapshot] *)
Definition store_bl2_ram_load_snapshot (state curr_img active_slot hdr_addr hdr_magic load_addr hdr_size protect_tlv_size
    img_size flags hash_region_size slot_img_dst slot_img_sz unsupported_mask : Z) (s : Bl2RamLoadSnapshot)
    : Bl2RamLoadSnapshot :=
  MkSnapshot (sn_hits s) (sn_dmi_failures s) (sn_unsupported s) state curr_img active_slot hdr_addr hdr_magic load_addr
    hdr_size protect_tlv_size img_size flags hash_region_size slot_img_dst slot_img_sz unsupported_mask.

(** [rse_cpu_accel.h: record_bl2_ram_load_snapshot] *)
Definition record_bl2_ram_load_snapshot (state curr_img active_slot hdr_addr : Z) (h : ImageHeader)
    (hash_region_size slot_img_dst slot_img_sz unsupported_mask : Z) : M G () :=
  let stored := store_bl2_ram_load_snapshot state curr_img active_slot hdr_addr (magic h) (load_addr h) (hdr_size h)
    (protect_tlv_size h) (img_size h) (flags h) hash_region_size slot_img_dst slot_img_sz unsupported_mask in
  on_snapshot stored;;
  when (curr_img <? BL2_RAM_LOAD_SNAPSHOT_IMAGE_SLOTS) (on_image curr_img stored).

(** [rse_cpu_accel.h: account_bl2_ram_load_snapshot] *)
Definition account_bl2_ram_load_snapshot (curr_img unsupported_mask : Z) : M G () :=
  let in_range := curr_img <? BL2_RAM_LOAD_SNAPSHOT_IMAGE_SLOTS in
  if negb (unsupported_mask =? 0) then
    on_snapshot (fun s => s <| sn_unsupported ::= fun n => u64 (n + 1) |>);;
    when in_range (on_image curr_img (fun s => s <| sn_unsupported ::= fun n => u64 (n + 1) |>))
  else
    on_snapshot (fun s => s <| sn_hits ::= fun n => u64 (n + 1) |>);;
    when in_range (
      on_image curr_img (fun s => s <| sn_hits ::= fun n => u64 (n + 1) |>);;
      modify (fun a => a <| m_bl2_load_accel_image_decrypted ::= <[Z.to_nat curr_img := false]> |>)).

(** [x |= bit] when the condition holds and nothing is wrong so far. *)
Definition check_if (mask : Z) (wrong : bool) (bit_ : Z) : Z := if (mask =? 0) && wrong then Z.lor mask bit_ else mask.

(** A read that is made when nothing is wrong so far: [None] when it fails. *)
Definition read_if {A} (mask : Z) (m : M G (option A)) (default_value : A) : M G (option A) :=
  if mask =? 0 then m else ret (Some default_value).

Definition snapshot_dmi_failure : M G bool :=
  on_snapshot (fun s => s <| sn_dmi_failures ::= fun n => u64 (n + 1) |>);; write_hotpath_profile_file cfg;; ret false.

(** The two words of the slot usage, read in order. *)
Definition read_slot_usage (slot_usage_addr : Z) : M G (option (Z * Z)) :=
  let! dst := hotpath_read_u32 (u64 (slot_usage_addr + p_bl2_boot_slot_usage_img_dst_offset cfg)) in
  match dst with
  | None => ret None
  | Some dst =>
      let! sz := hotpath_read_u32 (u64 (slot_usage_addr + p_bl2_boot_slot_usage_img_sz_offset cfg)) in
      ret ((fun sz => (dst, sz)) <$> sz)
  end.

(** What the header of an image says, and what is wrong with it. *)
(** [rse_cpu_accel.h: "qbox::rse_mcuboot_image::ImageHeader image_header;" .. "unsupported_mask |= 64u;"] *)
Definition check_header (mask : Z) (hdr_bytes : list Z) (too_large : Z -> bool) : ImageHeader * Z * Z :=
  let '(h, parsed) := if mask =? 0 then parse_header (Some hdr_bytes) no_header else (no_header, true) in
  let mask := check_if mask (negb parsed) 16 in
  let size := if mask =? 0 then hash_region_size h else Some 0 in
  let mask := check_if mask (match size with None => true | _ => false end) 32 in
  let size := default 0 size in
  (h, size, check_if mask (too_large size) 64).

(** [rse_cpu_accel.h: capture_bl2_ram_load_snapshot] *)
Definition capture_bl2_ram_load_snapshot : M G bool :=
  let! state := reg R0 in
  on_snapshot (fun s => s <| last_state := state |>);;
  let mask := if state =? 0 then 1 else 0 in
  let image_count := p_bl2_boot_image_count cfg in
  let mask := if (image_count =? 0) || (64 <? image_count) then Z.lor mask 2 else mask in
  let! curr_img := read_if mask (hotpath_read_u8 (u64 (state + p_bl2_boot_state_curr_img_offset cfg))) 0 in
  match curr_img with
  | None => snapshot_dmi_failure
  | Some curr_img =>
      on_snapshot (fun s => s <| last_curr_img := curr_img |>);;
      let mask := check_if mask (image_count <=? curr_img) 4 in
      let slot_usage_addr := u64 (state + p_bl2_boot_state_slot_usage_offset cfg +
        curr_img * p_bl2_boot_state_slot_usage_stride cfg) in
      let! active_slot := read_if mask (hotpath_read_u32 slot_usage_addr) 0 in
      match active_slot with
      | None => snapshot_dmi_failure
      | Some active_slot =>
          on_snapshot (fun s => s <| last_active_slot := active_slot |>);;
          let mask := check_if mask (1 <? active_slot) 8 in
          let hdr_addr := u64 (state + p_bl2_boot_state_imgs_offset cfg +
            curr_img * p_bl2_boot_state_image_stride cfg + active_slot * p_bl2_boot_state_slot_stride cfg) in
          on_snapshot (fun s => s <| last_hdr_addr := u32 hdr_addr |>);;
          let! hdr_bytes := read_if mask (hotpath_read_bytes hdr_addr IMAGE_HEADER_SIZE) [] in
          match hdr_bytes with
          | None => snapshot_dmi_failure
          | Some hdr_bytes =>
              let '(h, region, mask) := check_header mask hdr_bytes (fun size => 2 ^ 32 - 1 <? size) in
              let! usage := read_if mask (read_slot_usage slot_usage_addr) (0, 0) in
              match usage with
              | None => snapshot_dmi_failure
              | Some (slot_img_dst, slot_img_sz) =>
                  record_bl2_ram_load_snapshot state curr_img active_slot (u32 hdr_addr) h (u32 region)
                    slot_img_dst slot_img_sz mask;;
                  account_bl2_ram_load_snapshot curr_img mask;;
                  if negb (mask =? 0) then write_hotpath_profile_file cfg;; ret false else ret true
              end
          end
      end
  end.

(** [matched |= record_bl2_profile_site(...)]. *)
Definition record_sites (pc : Z) (sites : list (Z * site)) (matched : bool) : M G bool :=
  foldl (fun m '(addr, s) => let! matched := m in let! hit := record_bl2_profile_site pc addr s in ret (matched || hit))
    (ret matched) sites.

(** [rse_cpu_accel.h: try_bl2_load_profile_at_pc] *)
Definition try_bl2_load_profile_at_pc (pc : Z) : M G bool :=
  if negb (p_bl2_load_profile cfg) && negb (p_bl2_load_accel cfg) then ret false
  else
    let profile := p_bl2_load_profile cfg in
    let! matched := if profile
      then record_sites pc [(p_bl2_boot_go_for_image_id_addr cfg, m_bl2_boot_go_for_image_id)] false else ret false in
    let load_to_sram_entry := entry_of (p_bl2_boot_load_image_to_sram_addr cfg) in
    let load_to_sram_matched := negb (load_to_sram_entry =? 0) && (pc =? load_to_sram_entry) in
    when (profile && load_to_sram_matched) (
      capture_bl2_profile_sample m_bl2_boot_load_image_to_sram pc;;
      on_site m_bl2_boot_load_image_to_sram (fun x => x <| site_hits ::= fun n => u64 (n + 1) |>));;
    let matched := matched || load_to_sram_matched in
    let! matched := if profile
      then record_sites pc
        [ (p_bl2_boot_enc_load_addr cfg, m_bl2_boot_enc_load); (p_bl2_boot_enc_decrypt_addr cfg, m_bl2_boot_enc_decrypt);
          (p_bl2_bootutil_img_validate_addr cfg, m_bl2_bootutil_img_validate);
          (p_bl2_bootutil_img_hash_addr cfg, m_bl2_bootutil_img_hash);
          (p_bl2_bootutil_verify_sig_addr cfg, m_bl2_bootutil_verify_sig) ] matched
      else ret matched in
    when matched (
      (if load_to_sram_matched then capture_bl2_ram_load_snapshot;; ret () else ret ());;
      maybe_write_hotpath_profile_file cfg);;
    ret matched.

(** * Keys *)

(** [rse_cpu_accel.h: bl2_boot_enc_valid_key_size] *)
Definition bl2_boot_enc_valid_key_size (key_size : Z) : bool := (key_size =? 16) || (key_size =? 24) || (key_size =? 32).

(** [rse_cpu_accel.h: bl2_boot_enc_cache_key] *)
Definition bl2_boot_enc_cache_key (enc_state slot : Z) : Z := Z.lor (shl 64 enc_state 8) (Z.land slot 0xff).

(** The guest goes on in any case: the result is always false. *)
(** [rse_cpu_accel.h: try_bl2_boot_enc_capture_key_at_pc] *)
Definition try_bl2_boot_enc_capture_key_at_pc (pc : Z) : M G bool :=
  if negb (p_bl2_boot_enc_accel cfg) && negb (p_bl2_load_accel cfg) then ret false
  else
    let entry := entry_of (p_bl2_boot_enc_set_key_addr cfg) in
    if (entry =? 0) || negb (pc =? entry) then ret false
    else
      let! enc_state := reg R0 in
      let! slot := reg R1 in
      let! boot_status := reg R2 in
      let slots := u32 (p_bl2_boot_enc_slots cfg) in
      let key_size := u32 (p_bl2_boot_enc_key_bytes cfg) in
      let key_stride := u32 (p_bl2_boot_enc_key_stride cfg) in
      let enckey_offset := u32 (p_bl2_boot_status_enckey_offset cfg) in
      let failure := inc m_bl2_boot_enc_key_capture_failures;; maybe_write_hotpath_profile_file cfg;; ret false in
      if (slots =? 0) || (slots <=? slot) || negb (bl2_boot_enc_valid_key_size key_size) || (key_stride <? key_size)
      then failure
      else
        let key_addr := u64 (boot_status + enckey_offset + slot * key_stride) in
        let! key := hotpath_read_bytes key_addr key_size in
        match key with
        | None => failure
        | Some key =>
            let entry_data := MkKey true key_size (splice 0 key (replicate 32 0)) in
            modify (fun a => a <| m_bl2_boot_enc_keys ::= <[bl2_boot_enc_cache_key enc_state slot := entry_data]> |>);;
            inc m_bl2_boot_enc_key_captures;; maybe_write_hotpath_profile_file cfg;; ret false
        end.

(** The captured key of a slot, or one that is not valid. *)
(** [rse_cpu_accel.h: "Bl2EncKeyCacheEntry key;" .. "key = it->second;"] *)
Definition find_key (enc_state slot : Z) : M G Bl2EncKeyCacheEntry :=
  get (fun a => default no_key (m_bl2_boot_enc_keys a !! bl2_boot_enc_cache_key enc_state slot)).

(** * Decryption of a whole image *)

(** Whether a snapshot is of the image a buffer is part of. *)
(** [rse_cpu_accel.h: "const uint32_t candidate_load_addr =" .. "if (expected_buf != buf) {"] *)
Definition snapshot_matches (off buf : Z) (s : Bl2RamLoadSnapshot) : bool :=
  negb (sn_hits s =? 0) && (last_unsupported_mask s =? 0) &&
  negb ((last_hdr_size s =? 0) || (last_img_size s =? 0) || (last_img_size s <=? off)) &&
  (u64 (last_load_addr s + last_hdr_size s + off) =? buf).

(** The first image whose snapshot matches. *)
(** [rse_cpu_accel.h: find_bl2_load_snapshot_for_decrypt] *)
Definition find_bl2_load_snapshot_for_decrypt (off buf : Z) : M G (option (Z * Bl2RamLoadSnapshot)) :=
  get (fun a =>
    let image_count := Z.min (p_bl2_boot_image_count cfg) (vec_size (m_bl2_ram_load_snapshot_by_image a)) in
    foldr (fun image found =>
      let s := default no_snapshot (m_bl2_ram_load_snapshot_by_image a !! Z.to_nat image) in
      if snapshot_matches off buf s then Some (image, s) else found) None (range image_count)).

(** The two words on the stack of a call, read in order. *)
Definition read_stack2 : M G (option (Z * Z)) :=
  let! sp := reg SP in
  let! x := hotpath_read_u32 sp in
  match x with
  | None => ret None
  | Some x => let! y := hotpath_read_u32 (sp + 4) in ret ((fun y => (x, y)) <$> y)
  end.

(** [rse_cpu_accel.h: "uint32_t curr_img = 0;" .. "unsupported_mask |= 128u;"] *)
Definition load_decrypt_mask (found : option (Z * Bl2RamLoadSnapshot)) (slot size blk_off buf : Z) : Z :=
  let s := match found with Some (_, s) => s | None => no_snapshot end in
  let flag (wrong : bool) (bit_ mask : Z) := if wrong then Z.lor mask bit_ else mask in
  let slots := u32 (p_bl2_boot_enc_slots cfg) in
  let mask := flag (match found with None => true | _ => false end) 1 0 in
  let mask := flag ((slots =? 0) || (slots <=? slot)) 2 mask in
  let mask := flag (p_bl2_boot_enc_max_bytes cfg <? size) 4 mask in
  let mask := flag (16 <=? blk_off) 8 mask in
  let mask := flag ((buf =? 0) && negb (size =? 0)) 16 mask in
  let mask := flag (p_bl2_load_accel_max_bytes cfg <? last_img_size s) 32 mask in
  flag (negb (last_flags s =? Z.lor IMAGE_F_RAM_LOAD IMAGE_F_ENCRYPTED_AES128)) 128 mask.

(** Set the program counter to the link register. *)
Definition return_to_lr : M G bool := let! return_pc := reg LR in set_reg PC return_pc.

Definition image_decrypted (image : Z) (a : accel) : bool :=
  (image <? BL2_RAM_LOAD_SNAPSHOT_IMAGE_SLOTS) && default false (m_bl2_load_accel_image_decrypted a !! Z.to_nat image).

(** Decrypt the payload in place, from counter zero. *)
(** [rse_cpu_accel.h: "const uint64_t payload_addr = static_cast<uint64_t>(load_addr) + hdr_size;" .. "m_bl2_load_accel_bytes.fetch_add(img_size, std::memory_order_relaxed);"] *)
Definition decrypt_image (curr_img payload_addr img_size : Z) (key : Bl2EncKeyCacheEntry) : M G bool :=
  let! input := hotpath_read_bytes_or_alias payload_addr img_size in
  match input with
  | None => decline cfg m_bl2_load_accel_dmi_failures
  | Some (input, direct_file_alias) =>
      match aes_ctr_xcrypt_buffer (Some (key_bytes key)) (key_size key) (Some (replicate 16 0)) (Some input) 0 false with
      | None => decline cfg m_bl2_load_accel_unsupported
      | Some output =>
          let! (ok, write_direct_file_alias) := hotpath_write_bytes_or_alias payload_addr output in
          if negb ok then decline cfg m_bl2_load_accel_dmi_failures
          else
            when (direct_file_alias || write_direct_file_alias) (inc m_bl2_load_accel_direct_file_alias_hits);;
            on_guest (invalidate_guest_range payload_addr (u64 (payload_addr + img_size - 1)));;
            modify (fun a => a <| m_bl2_load_accel_image_decrypted ::= <[Z.to_nat curr_img := true]> |>);;
            let! ok := return_to_lr in
            if negb ok then decline cfg m_bl2_load_accel_state_failures
            else
              inc m_bl2_load_accel_hits;; fetch_add m_bl2_load_accel_bytes img_size;;
              on_guest (set_vcpu_dirty true);; maybe_write_hotpath_profile_file cfg;; ret true
      end
  end.

(** [rse_cpu_accel.h: try_bl2_load_decrypt_accel_at_pc] *)
Definition try_bl2_load_decrypt_accel_at_pc (pc : Z) : M G bool :=
  if negb (p_bl2_load_accel cfg) then ret false
  else
    let entry := entry_of (p_bl2_boot_enc_decrypt_addr cfg) in
    if (entry =? 0) || negb (pc =? entry) then ret false
    else
      let! enc_state := reg R0 in
      let! slot := reg R1 in
      let! off := reg R2 in
      let! size := reg R3 in
      let! args := read_stack2 in
      match args with
      | None => decline cfg m_bl2_load_accel_dmi_failures
      | Some (blk_off, buf) =>
          store m_bl2_load_accel_last_slot slot;; store m_bl2_load_accel_last_off off;;
          store m_bl2_load_accel_last_size size;; store m_bl2_load_accel_last_blk_off blk_off;;
          store m_bl2_load_accel_last_buf buf;;
          let! found := find_bl2_load_snapshot_for_decrypt off buf in
          let '(curr_img, s) := default (0, no_snapshot) found in
          store m_bl2_load_accel_last_curr_img curr_img;; store m_bl2_load_accel_last_img_size (last_img_size s);;
          store m_bl2_load_accel_last_flags (last_flags s);;
          let mask := load_decrypt_mask found slot size blk_off buf in
          let! decrypted := get (image_decrypted curr_img) in
          if (mask =? 0) && decrypted then
            let! ok := return_to_lr in
            if negb ok then decline cfg m_bl2_load_accel_state_failures
            else
              inc m_bl2_load_accel_skip_hits;; store m_bl2_load_accel_last_unsupported_mask 0;;
              on_guest (set_vcpu_dirty true);; maybe_write_hotpath_profile_file cfg;; ret true
          else
            let mask := if negb (off =? 0) || negb (blk_off =? 0) then Z.lor mask 64 else mask in
            store m_bl2_load_accel_last_unsupported_mask mask;;
            if negb (mask =? 0) then decline cfg m_bl2_load_accel_unsupported
            else
              let! key := find_key enc_state slot in
              if negb (key_valid key) || negb (bl2_boot_enc_valid_key_size (key_size key))
              then decline cfg m_bl2_load_accel_key_misses
              else decrypt_image curr_img (u64 (last_load_addr s + last_hdr_size s)) (last_img_size s) key
      end.

(** * Waiting *)

(** [rse_cpu_accel.h: try_bl2_delay_accel_at_pc] *)
Definition try_bl2_delay_accel_at_pc (pc : Z) : M G bool :=
  if negb (p_bl2_delay_accel cfg) then ret false
  else
    let norm_pc := Z.land pc (not32 1) in
    let entry := entry_of (p_bl2_delay_cycles_addr cfg) in
    if (entry =? 0) || negb (norm_pc =? entry) then ret false
    else
      let! cycles := reg R0 in
      let! return_pc := reg LR in
      store m_bl2_delay_last_cycles cycles;; store m_bl2_delay_last_lr return_pc;;
      let mask := if p_bl2_delay_max_cycles cfg <? cycles then 1 else 0 in
      let mask := if return_pc =? 0 then Z.lor mask 2 else mask in
      store m_bl2_delay_last_unsupported_mask mask;;
      if negb (mask =? 0) then decline cfg m_bl2_delay_unsupported
      else
        let! ok := and_then (set_reg R0 0) (set_reg PC return_pc) in
        if negb ok then decline cfg m_bl2_delay_state_failures
        else
          inc m_bl2_delay_hits;;
          let! hits := get (fun a => a_atomics a m_bl2_delay_hits) in
          fetch_add m_bl2_delay_cycles cycles;;
          let expected_hits := p_bl2_delay_expected_hits cfg in
          let! active := get m_bl2_delay_watch_active in
          when (negb (expected_hits =? 0) && (expected_hits <=? hits)) (
            modify (fun a => a <| m_bl2_delay_watch_active := false |>);;
            when active (modify (fun a => a <| m_pc_entry_registered := false |>)));;
          on_guest (set_vcpu_dirty true);; maybe_write_hotpath_profile_file cfg;; ret true.

(** [rse_cpu_accel.h: "void try_bl2_delay_accel()" .. "m_context.kick_cpu();"] *)
Definition try_bl2_delay_accel : M G () :=
  if negb (p_bl2_delay_accel cfg) then ret ()
  else
    let! pc := guest get_pc in
    let! hit := try_bl2_delay_accel_at_pc (u32 pc) in
    when hit (on_guest (set_vcpu_dirty true);; on_guest kick_cpu).

(** * Decryption of a buffer *)

(** The counter of the block at an offset. *)
(** [rse_cpu_accel.h: "const uint32_t block = off >> 4;" .. "counter[15] = static_cast<uint8_t>(block);"] *)
Definition block_counter (off : Z) : list Z := replicate 12 0 ++ be_bytes 4 (Z.shiftr off 4).

(** [rse_cpu_accel.h: "std::vector<uint8_t> output(static_cast<size_t>(size));" .. "m_bl2_boot_enc_decrypt_bytes.fetch_add(size, std::memory_order_relaxed);"] *)
Definition decrypt_buffer (off size blk_off buf : Z) (key : Bl2EncKeyCacheEntry) : M G bool :=
  let! input := hotpath_read_bytes_or_alias buf size in
  match input with
  | None => decline cfg m_bl2_boot_enc_decrypt_dmi_failures
  | Some (input, direct_file_alias) =>
      match aes_ctr_xcrypt_buffer (Some (key_bytes key)) (key_size key) (Some (block_counter off)) (Some input) blk_off false with
      | None => decline cfg m_bl2_boot_enc_decrypt_unsupported
      | Some output =>
          let! (ok, write_direct_file_alias) := hotpath_write_bytes_or_alias buf output in
          if negb ok then decline cfg m_bl2_boot_enc_decrypt_dmi_failures
          else
            when (direct_file_alias || write_direct_file_alias) (inc m_bl2_boot_enc_decrypt_direct_file_alias_hits);;
            on_guest (invalidate_guest_range buf (u64 (buf + size - 1)));;
            let! ok := return_to_lr in
            if negb ok then decline cfg m_bl2_boot_enc_decrypt_state_failures
            else
              inc m_bl2_boot_enc_decrypt_hits;; fetch_add m_bl2_boot_enc_decrypt_bytes size;;
              on_guest (set_vcpu_dirty true);; maybe_write_hotpath_profile_file cfg;; ret true
      end
  end.

(** [rse_cpu_accel.h: try_bl2_boot_enc_decrypt_accel_at_pc] *)
Definition try_bl2_boot_enc_decrypt_accel_at_pc (pc : Z) : M G bool :=
  if negb (p_bl2_boot_enc_accel cfg) then ret false
  else
    let entry := entry_of (p_bl2_boot_enc_decrypt_addr cfg) in
    if (entry =? 0) || negb (pc =? entry) then ret false
    else
      let! enc_state := reg R0 in
      let! slot := reg R1 in
      let! off := reg R2 in
      let! size := reg R3 in
      let! args := read_stack2 in
      match args with
      | None => decline cfg m_bl2_boot_enc_decrypt_dmi_failures
      | Some (blk_off, buf) =>
          store m_bl2_boot_enc_last_enc_state enc_state;; store m_bl2_boot_enc_last_slot slot;;
          store m_bl2_boot_enc_last_off off;; store m_bl2_boot_enc_last_size size;;
          store m_bl2_boot_enc_last_blk_off blk_off;; store m_bl2_boot_enc_last_buf buf;;
          let flag (wrong : bool) (bit_ mask : Z) := if wrong then Z.lor mask bit_ else mask in
          let slots := u32 (p_bl2_boot_enc_slots cfg) in
          let mask := flag ((slots =? 0) || (slots <=? slot)) 1 0 in
          let mask := flag (p_bl2_boot_enc_max_bytes cfg <? size) 2 mask in
          let mask := flag (16 <=? blk_off) 4 mask in
          let mask := flag ((buf =? 0) && negb (size =? 0)) 8 mask in
          store m_bl2_boot_enc_last_unsupported_mask mask;;
          if negb (mask =? 0) then decline cfg m_bl2_boot_enc_decrypt_unsupported
          else if size =? 0 then
            let! ok := return_to_lr in
            if negb ok then decline cfg m_bl2_boot_enc_decrypt_state_failures
            else
              inc m_bl2_boot_enc_decrypt_hits;;
              on_guest (set_vcpu_dirty true);; maybe_write_hotpath_profile_file cfg;; ret true
          else
            let! key := find_key enc_state slot in
            if negb (key_valid key) || negb (bl2_boot_enc_valid_key_size (key_size key))
            then decline cfg m_bl2_boot_enc_decrypt_key_misses
            else decrypt_buffer off size blk_off buf key
      end.

(** * Image hash *)

(** The seed, if there is one; its read counts a file that stood in. *)
(** [rse_cpu_accel.h: "std::vector<uint8_t> seed_bytes;" .. "const auto digest = qbox::rse_mcuboot_image::sha256("] *)
Definition read_seed (seed seed_len : Z) : M G (option (list Z)) :=
  if seed_len =? 0 then ret (Some [])
  else
    let! bytes := hotpath_read_bytes_or_alias seed seed_len in
    match bytes with
    | None => ret None
    | Some (bytes, alias) => when alias (inc m_bl2_img_hash_direct_file_alias_hits);; ret (Some bytes)
    end.

(** [rse_cpu_accel.h: "std::vector<uint8_t> image;" .. "m_bl2_img_hash_bytes.fetch_add(hash_size, std::memory_order_relaxed);"] *)
Definition hash_image (load_addr hash_size hash_result seed seed_len : Z) : M G bool :=
  let! image := hotpath_read_bytes_or_alias load_addr hash_size in
  match image with
  | None => decline cfg m_bl2_img_hash_dmi_failures
  | Some (image, direct_file_alias) =>
      when direct_file_alias (inc m_bl2_img_hash_direct_file_alias_hits);;
      let! seed_bytes := read_seed seed seed_len in
      match seed_bytes with
      | None => decline cfg m_bl2_img_hash_dmi_failures
      | Some seed_bytes =>
          let digest := image_sha256 (if seed_len =? 0 then None else Some seed_bytes) image in
          let! ok := hotpath_write_bytes hash_result digest in
          if negb ok then decline cfg m_bl2_img_hash_dmi_failures
          else
            let! return_pc := reg LR in
            let! ok := and_then (set_reg R0 0) (set_reg PC return_pc) in
            if negb ok then decline cfg m_bl2_img_hash_state_failures
            else
              inc m_bl2_img_hash_hits;; fetch_add m_bl2_img_hash_bytes hash_size;;
              on_guest (set_vcpu_dirty true);; maybe_write_hotpath_profile_file cfg;; ret true
      end
  end.

(** The arguments on the stack of the hash function. *)
(** [rse_cpu_accel.h: "if (!hotpath_read_u32(sp + sizeof(uint32_t), hash_result) ||" .. "!hotpath_read_u32(sp + 3 * sizeof(uint32_t), seed_len)) {"] *)
Definition read_hash_args : M G (option (Z * Z * Z)) :=
  let! sp := reg SP in
  let! hash_result := hotpath_read_u32 (sp + 4) in
  match hash_result with
  | None => ret None
  | Some hash_result =>
      let! seed := hotpath_read_u32 (sp + 8) in
      match seed with
      | None => ret None
      | Some seed => let! seed_len := hotpath_read_u32 (sp + 12) in ret ((fun n => (hash_result, seed, n)) <$> seed_len)
      end
  end.

(** [rse_cpu_accel.h: try_bl2_img_hash_accel_at_pc] *)
Definition try_bl2_img_hash_accel_at_pc (pc : Z) : M G bool :=
  if negb (p_bl2_img_hash_accel cfg) then ret false
  else
    let entry := entry_of (p_bl2_bootutil_img_hash_addr cfg) in
    if (entry =? 0) || negb (pc =? entry) then ret false
    else
      let! hdr := reg R1 in
      let! args := read_hash_args in
      match args with
      | None => decline cfg m_bl2_img_hash_dmi_failures
      | Some (hash_result, seed, seed_len) =>
          store m_bl2_img_hash_last_hdr hdr;; store m_bl2_img_hash_last_hash_result hash_result;;
          store m_bl2_img_hash_last_seed seed;; store m_bl2_img_hash_last_seed_len seed_len;;
          let flag (wrong : bool) (bit_ mask : Z) := if wrong then Z.lor mask bit_ else mask in
          let mask := flag (hdr =? 0) 1 0 in
          let mask := flag (hash_result =? 0) 2 mask in
          let mask := flag (p_bl2_img_hash_max_seed_bytes cfg <? seed_len) 4 mask in
          let mask := flag ((seed =? 0) && negb (seed_len =? 0)) 8 mask in
          let! hdr_bytes := read_if mask (hotpath_read_bytes hdr IMAGE_HEADER_SIZE) [] in
          match hdr_bytes with
          | None => decline cfg m_bl2_img_hash_dmi_failures
          | Some hdr_bytes =>
              let '(h, hash_size, mask) := check_header mask hdr_bytes (fun size => p_bl2_img_hash_max_bytes cfg <? size) in
              store m_bl2_img_hash_last_load_addr (load_addr h);; store m_bl2_img_hash_last_hash_size (u32 hash_size);;
              store m_bl2_img_hash_last_unsupported_mask mask;;
              if negb (mask =? 0) then decline cfg m_bl2_img_hash_unsupported
              else hash_image (load_addr h) hash_size hash_result seed seed_len
          end
      end.

(** * Signatures *)

Definition MAX_VERIFY_SIG_CACHE_ENTRIES : Z := 16.

(** [rse_cpu_accel.h: "for (const auto& entry : m_bl2_verify_sig_cache) {" .. "break;"] *)
Definition find_verified (public_key hash signature : list Z) (cache : list Bl2VerifySigCacheEntry)
    : option Bl2VerifySigCacheEntry :=
  List.find (fun e => bool_decide (ve_public_key e = public_key /\ ve_hash e = hash /\ ve_signature e = signature)) cache.

(** [rse_cpu_accel.h: "static constexpr size_t MAX_VERIFY_SIG_CACHE_ENTRIES = 16;" .. "m_bl2_verify_sig_cache.push_back(entry);"] *)
Definition remember (e : Bl2VerifySigCacheEntry) (cache : list Bl2VerifySigCacheEntry) : list Bl2VerifySigCacheEntry :=
  (if MAX_VERIFY_SIG_CACHE_ENTRIES <=? vec_size cache then drop 1 cache else cache) ++ [e].

(** The result of the check, from the cache if it is there. *)
(** [rse_cpu_accel.h: "bool verified = false;" .. "m_bl2_verify_sig_cache.push_back(entry);"] *)
Definition verify_cached (public_key hash signature : list Z) : M G bool :=
  let! found := get (fun a => find_verified public_key hash signature (m_bl2_verify_sig_cache a)) in
  match found with
  | Some entry => inc m_bl2_verify_sig_cache_hits;; ret (ve_verified entry)
  | None =>
      inc m_bl2_verify_sig_cache_misses;;
      let! verified :=
        match RseP256.verify_vec public_key hash signature with
        | Parsed verified => ret verified
        | _ => modify (fun a => a <| a_undefined := true |>);; ret false
        end in
      modify (fun a => a <| m_bl2_verify_sig_cache ::= remember (MkVerified public_key hash signature verified) |>);;
      ret verified
  end.

(** Three reads in order, until one fails. *)
Definition read_bytes3 (x y z : Z * Z) : M G (option (list Z * list Z * list Z)) :=
  let! a := hotpath_read_bytes (fst x) (snd x) in
  match a with
  | None => ret None
  | Some a =>
      let! b := hotpath_read_bytes (fst y) (snd y) in
      match b with
      | None => ret None
      | Some b => let! c := hotpath_read_bytes (fst z) (snd z) in ret ((fun c => (a, b, c)) <$> c)
      end
  end.

(** The entry of a key: its address and its length. *)
(** [rse_cpu_accel.h: "const uint32_t key_entry_addr = keys_addr + key_id * 8u;" .. "!hotpath_read_u32(key_len_ptr, key_len)) {"] *)
Definition read_key_entry (keys_addr key_id : Z) : M G (option (Z * Z)) :=
  let key_entry_addr := u32 (keys_addr + u32 (key_id * 8)) in
  let! key_ptr := hotpath_read_u32 key_entry_addr in
  match key_ptr with
  | None => ret None
  | Some key_ptr =>
      let! key_len_ptr := hotpath_read_u32 (key_entry_addr + 4) in
      match key_len_ptr with
      | None => ret None
      | Some key_len_ptr => let! key_len := hotpath_read_u32 key_len_ptr in ret ((fun n => (key_ptr, n)) <$> key_len)
      end
  end.

(** Report success to the guest. *)
(** [rse_cpu_accel.h: "uint32_t fih_success = 0;" .. "m_bl2_verify_sig_skip_hits.fetch_add(1, std::memory_order_relaxed);"] *)
Definition skip_verify : M G bool :=
  let fih_success_addr := u32 (p_bl2_fih_success_addr cfg) in
  let! fih_success := if fih_success_addr =? 0 then ret None else hotpath_read_u32 fih_success_addr in
  match fih_success with
  | None => decline cfg m_bl2_verify_sig_dmi_failures
  | Some fih_success =>
      store m_bl2_verify_sig_last_fih_success fih_success;;
      let! return_pc := reg LR in
      let! ok := and_then (set_reg R0 fih_success) (set_reg PC return_pc) in
      if negb ok then decline cfg m_bl2_verify_sig_state_failures
      else
        inc m_bl2_verify_sig_skip_hits;;
        on_guest (set_vcpu_dirty true);; maybe_write_hotpath_profile_file cfg;; ret true
  end.

(** [rse_cpu_accel.h: "std::vector<uint8_t> hash_bytes;" .. "return false;"] *)
Definition check_signature (key hash sig : Z * Z) : M G bool :=
  let! bytes := read_bytes3 key hash sig in
  match bytes with
  | None => decline cfg m_bl2_verify_sig_dmi_failures
  | Some (public_key, hash_bytes, signature) =>
      let! verified := verify_cached public_key hash_bytes signature in
      if negb verified then decline cfg m_bl2_verify_sig_verify_failures
      else
        inc m_bl2_verify_sig_matches;;
        if negb (p_bl2_verify_sig_skip cfg) then maybe_write_hotpath_profile_file cfg;; ret false
        else skip_verify
  end.

(** Whether the key is not among those the guest counts; [None] when the count
    cannot be read. *)
(** [rse_cpu_accel.h: "const uint32_t key_cnt_addr =" .. "unsupported_mask |= 32u;"] *)
Definition key_out_of_range (key_id : Z) : M G (option bool) :=
  let key_cnt_addr := u32 (p_bl2_bootutil_key_cnt_addr cfg) in
  if key_cnt_addr =? 0 then ret (Some false)
  else let! key_cnt := hotpath_read_u32 key_cnt_addr in ret ((fun key_cnt => key_cnt <=? key_id) <$> key_cnt).

(** [rse_cpu_accel.h: try_bl2_verify_sig_accel_at_pc] *)
Definition try_bl2_verify_sig_accel_at_pc (pc : Z) : M G bool :=
  if negb (p_bl2_verify_sig_accel cfg) then ret false
  else
    let entry := entry_of (p_bl2_bootutil_verify_sig_addr cfg) in
    if (entry =? 0) || negb (pc =? entry) then ret false
    else
      let! hash := reg R0 in
      let! hlen := reg R1 in
      let! sig := reg R2 in
      let! slen := reg R3 in
      let! sp := reg SP in
      let! key_id := hotpath_read_u32 sp in
      match key_id with
      | None => decline cfg m_bl2_verify_sig_dmi_failures
      | Some key_id =>
          store m_bl2_verify_sig_last_hash hash;; store m_bl2_verify_sig_last_hlen hlen;;
          store m_bl2_verify_sig_last_sig sig;; store m_bl2_verify_sig_last_slen slen;;
          store m_bl2_verify_sig_last_key_id key_id;;
          let flag (wrong : bool) (bit_ mask : Z) := if wrong then Z.lor mask bit_ else mask in
          let mask := flag (negb (hlen =? 32)) 1 0 in
          let mask := flag ((slen =? 0) || (p_bl2_verify_sig_max_sig_bytes cfg <? slen)) 2 mask in
          let mask := flag ((hash =? 0) || (sig =? 0)) 4 mask in
          let mask := flag (0xff <? key_id) 8 mask in
          let keys_addr := u32 (p_bl2_bootutil_keys_addr cfg) in
          let mask := flag (keys_addr =? 0) 16 mask in
          let! missing := key_out_of_range key_id in
          match missing with
          | None => decline cfg m_bl2_verify_sig_dmi_failures
          | Some missing =>
              let mask := flag missing 32 mask in
              store m_bl2_verify_sig_last_unsupported_mask mask;;
              if negb (mask =? 0) then decline cfg m_bl2_verify_sig_unsupported
              else
                let! key := read_key_entry keys_addr key_id in
                match key with
                | None => decline cfg m_bl2_verify_sig_dmi_failures
                | Some (key_ptr, key_len) =>
                    store m_bl2_verify_sig_last_key_ptr key_ptr;; store m_bl2_verify_sig_last_key_len key_len;;
                    if (key_ptr =? 0) || (key_len =? 0) || (p_bl2_verify_sig_max_key_bytes cfg <? key_len)
                    then decline cfg m_bl2_verify_sig_unsupported
                    else check_signature (key_ptr, key_len) (hash, hlen) (sig, slen)
                end
          end
      end.

(** [rse_cpu_accel.h: "static constexpr uint32_t FIH_SUCCESS_VALUE = 0x1aaa555au;" .. "m_pc_entry_registered = false;"] *)
Definition accept_lms : M G bool :=
  let! return_pc := reg LR in
  let! ok := and_then (set_reg R0 0x1aaa555a) (set_reg PC return_pc) in
  if negb ok then decline cfg m_lms_accel_state_fails
  else
    inc m_lms_accel_hits;;
    modify (fun a => a <| m_lms_accel_done := true |>);;
    let others := p_bl2_load_profile cfg || p_bl2_load_accel cfg || p_bl2_boot_enc_accel cfg ||
      p_bl2_img_hash_accel cfg || p_bl2_verify_sig_accel cfg || p_bl2_delay_accel cfg in
    modify (fun a => a <| m_pc_entry_registered ::= fun r => if r && negb others then false else r |>);;
    write_hotpath_profile_file cfg;; ret true.

(** [rse_cpu_accel.h: try_lms_accel_at_pc] *)
Definition try_lms_accel_at_pc (pc : Z) : M G bool :=
  let! done_ := get m_lms_accel_done in
  if negb (p_lms_accel cfg) || done_ then ret false
  else
    let verify_addr := entry_of (p_lms_verify_addr cfg) in
    if (verify_addr =? 0) || negb (pc =? verify_addr)
    then inc m_lms_accel_pc_misses;; maybe_write_hotpath_profile_file cfg;; ret false
    else
      let! key_addr := reg R0 in
      let! key_size := reg R1 in
      let! data_addr := reg R2 in
      let! data_size := reg R3 in
      let! args := read_stack2 in
      match args with
      | None => decline cfg m_lms_accel_dmi_fails
      | Some (sig_addr, sig_size) =>
          store m_lms_last_key_addr key_addr;; store m_lms_last_key_size key_size;;
          store m_lms_last_data_addr data_addr;; store m_lms_last_data_size data_size;;
          store m_lms_last_sig_addr sig_addr;; store m_lms_last_sig_size sig_size;;
          let flag (wrong : bool) (bit_ mask : Z) := if wrong then Z.lor mask bit_ else mask in
          let mask := flag (negb (key_size =? LMS_PUBLIC_KEY_LEN)) 1 0 in
          let mask := flag (negb (sig_size =? LMS_SIG_LEN)) 2 mask in
          let mask := flag (p_lms_max_data_bytes cfg <? data_size) 4 mask in
          store m_lms_last_unsupported_mask mask;;
          if negb (mask =? 0) then decline cfg m_lms_accel_unsupported
          else
            let! bytes := read_bytes3 (key_addr, key_size) (data_addr, data_size) (sig_addr, sig_size) in
            match bytes with
            | None => decline cfg m_lms_accel_dmi_fails
            | Some (key, data, sig) =>
                if negb (RseLms.verify_vec key data sig) then decline cfg m_lms_accel_verify_fails else accept_lms
            end
      end.

(** * Copies and fills *)

(** [rse_cpu_accel.h: "enum class HotpathFailReason {" .. "};"] *)
Inductive HotpathFailReason := PcMismatch | TooLarge | Dmi | Stack | State.

(** [rse_cpu_accel.h: record_hotpath_failure] *)
Definition record_hotpath_failure (reason : HotpathFailReason) : M G () :=
  inc m_hotpath_fallbacks;;
  inc match reason with
      | PcMismatch => m_hotpath_pc_misses
      | TooLarge => m_hotpath_too_large_fails
      | Dmi => m_hotpath_dmi_fails
      | Stack => m_hotpath_stack_fails
      | State => m_hotpath_state_fails
      end;;
  maybe_write_hotpath_profile_file cfg.

(** The outcome of a handler that can fail for a reason. *)
Definition outcome : Type := option HotpathFailReason.

(** [rse_cpu_accel.h: hotpath_finish_stacked_lr] *)
Definition hotpath_finish_stacked_lr : M G outcome :=
  let! sp := reg SP in
  let! return_pc := hotpath_read_u32 sp in
  match return_pc with
  | None => ret (Some Stack)
  | Some return_pc =>
      let! ok := and_then (set_reg SP (sp + 4)) (set_reg PC return_pc) in
      ret (if ok then None else Some State)
  end.

(** [rse_cpu_accel.h: hotpath_finish_memset] *)
Definition hotpath_finish_memset (return_pc : Z) : M G outcome :=
  let! sp := reg SP in
  let! saved_r4 := hotpath_read_u32 sp in
  match saved_r4 with
  | None => ret (Some Stack)
  | Some saved_r4 =>
      let! ok := and_then (set_reg R4 saved_r4) (and_then (set_reg SP (sp + 4)) (set_reg PC return_pc)) in
      ret (if ok then None else Some State)
  end.

Definition hotpath_return : M G outcome := let! ok := return_to_lr in ret (if ok then None else Some State).

(** Count a hit when the handler has none of the reasons to fail. *)
Definition count_hit (hits : atomic) (result : outcome) : M G outcome :=
  match result with
  | None => inc hits;; maybe_write_hotpath_profile_file cfg;; ret None
  | Some reason => ret (Some reason)
  end.

(** [rse_cpu_accel.h: "bool hotpath_memcpy(uint32_t pc" .. "m_hotpath_memcpy_hits.fetch_add(1, std::memory_order_relaxed);"] *)
Definition hotpath_memcpy (pc base max_bytes : Z) : M G outcome :=
  if negb (hotpath_memcpy_safe_pc pc base) then ret (Some PcMismatch)
  else
    let! dest := reg R0 in
    let! src := reg R1 in
    let! remaining := reg R2 in
    let! current_dest := if pc =? base then ret dest else reg R3 in
    let finish := if pc =? base then hotpath_return else hotpath_finish_stacked_lr in
    if remaining =? 0 then finish
    else if max_bytes <? remaining then ret (Some TooLarge)
    else
      let! src_ptr := guest (guest_dmi_ptr src remaining true false) in
      match src_ptr with
      | None => ret (Some Dmi)
      | Some src_ptr =>
          let! dst_ptr := guest (guest_dmi_ptr current_dest remaining false true) in
          match dst_ptr with
          | None => ret (Some Dmi)
          | Some dst_ptr =>
              on_guest (host_memmove dst_ptr src_ptr remaining);;
              on_guest (invalidate_guest_range current_dest (u32 (current_dest + remaining - 1)));;
              let! result := finish in
              count_hit m_hotpath_memcpy_hits result
          end
      end.

(** [rse_cpu_accel.h: "bool hotpath_memset(uint32_t pc" .. "m_hotpath_memset_hits.fetch_add(1, std::memory_order_relaxed);"] *)
Definition hotpath_memset (pc base max_bytes : Z) : M G outcome :=
  if negb (hotpath_memset_safe_pc pc base) then ret (Some PcMismatch)
  else
    let! dest := reg R0 in
    let! current_dest := if pc =? base then ret dest else reg R3 in
    let! remaining := reg R2 in
    let! value := reg R1 in
    let value := u8 value in
    if max_bytes <? remaining then ret (Some TooLarge)
    else
      let! dst_ptr := if remaining =? 0 then ret (Some 0)
                      else guest (guest_dmi_ptr current_dest remaining false true) in
      match dst_ptr with
      | None => ret (Some Dmi)
      | Some dst_ptr =>
          when (negb (remaining =? 0)) (
            on_guest (host_memset dst_ptr value remaining);;
            on_guest (invalidate_guest_range current_dest (u32 (current_dest + remaining - 1))));;
          let! return_pc := reg LR in
          let! result :=
            if pc =? base then let! ok := set_reg PC return_pc in ret (if ok then None else Some State)
            else hotpath_finish_memset return_pc in
          count_hit m_hotpath_memset_hits result
      end.

(** [rse_cpu_accel.h: try_hotpath_accel] *)
Definition try_hotpath_accel : M G () :=
  if negb (p_hotpath_accel cfg) then ret ()
  else
    let max_bytes := p_hotpath_max_bytes cfg in
    if max_bytes =? 0 then ret ()
    else
      let! pc := guest get_pc in
      let pc := u32 pc in
      let memcpy_base := entry_of (p_hotpath_memcpy_addr cfg) in
      let memset_base := entry_of (p_hotpath_memset_addr cfg) in
      let! result :=
        if negb (memcpy_base =? 0) && hotpath_memcpy_safe_pc pc memcpy_base then hotpath_memcpy pc memcpy_base max_bytes
        else if negb (memset_base =? 0) && hotpath_memset_safe_pc pc memset_base then hotpath_memset pc memset_base max_bytes
        else ret (Some PcMismatch) in
      match result with
      | Some reason => record_hotpath_failure reason
      | None => on_guest (set_vcpu_dirty true);; on_guest kick_cpu
      end.

(** * Entry points *)

(** The first handler that takes over. *)
Definition or_else (m m' : M G bool) : M G bool := let! hit := m in if hit then ret true else m'.

(** [rse_cpu_accel.h: try_rse_pc_entry] *)
Definition try_rse_pc_entry (pc : Z) : M G bool :=
  let pc32 := u32 pc in
  (let! _ := try_bl2_load_profile_at_pc pc32 in ret ());;
  (let! _ := try_bl2_boot_enc_capture_key_at_pc pc32 in ret ());;
  or_else (try_bl2_delay_accel_at_pc pc32) (
  or_else (try_bl2_load_decrypt_accel_at_pc pc32) (
  or_else (try_bl2_boot_enc_decrypt_accel_at_pc pc32) (
  or_else (try_bl2_img_hash_accel_at_pc pc32) (
  or_else (try_bl2_verify_sig_accel_at_pc pc32) (
  try_lms_accel_at_pc pc32))))).

(** [rse_cpu_accel.h: "void try_lms_accel()" .. "m_context.kick_cpu();"] *)
Definition try_lms_accel : M G () :=
  let! pc := guest get_pc in
  let! hit := try_lms_accel_at_pc (u32 pc) in
  when hit (on_guest (set_vcpu_dirty true);; on_guest kick_cpu).

(** [rse_cpu_accel.h: "bool enabled() const override" .. "}"] *)
Definition enabled : bool :=
  p_hotpath_accel cfg || p_lms_accel cfg || p_bl2_load_profile cfg || p_bl2_load_accel cfg || p_bl2_boot_enc_accel cfg ||
  p_bl2_img_hash_accel cfg || p_bl2_verify_sig_accel cfg || p_bl2_delay_accel cfg ||
  negb (String.eqb (p_direct_file_aliases cfg) "") || negb (String.eqb (p_mmio_read_fastpath cfg) "") ||
  negb (String.eqb (p_mmio_direct_fastpath_ranges cfg) "").

(** [rse_cpu_accel.h: "bool needs_pc_entry_callback() const override" .. "}"] *)
Definition needs_pc_entry_callback : bool :=
  p_lms_accel cfg || p_bl2_load_profile cfg || p_bl2_load_accel cfg || p_bl2_boot_enc_accel cfg ||
  p_bl2_img_hash_accel cfg || p_bl2_verify_sig_accel cfg || p_bl2_delay_accel cfg.

(** [rse_cpu_accel.h: configure_pc_watches] *)
Definition configure_pc_watches : M G () :=
  on_guest (install_direct_file_aliases (p_direct_file_aliases cfg));;
  on_guest (install_mmio_read_fastpath (p_mmio_read_fastpath cfg));;
  on_guest (install_mmio_direct_fastpath_ranges (p_mmio_direct_fastpath_ranges cfg));;
  if negb needs_pc_entry_callback then ret ()
  else
    when (p_bl2_delay_accel cfg && negb (p_bl2_delay_cycles_addr cfg =? 0)) (
      on_guest (add_pc_entry_watch (Z.land (p_bl2_delay_cycles_addr cfg) (not64 1)));;
      modify (fun a => a <| m_bl2_delay_watch_active := true |>));;
    modify (fun a => a <| m_pc_entry_registered := true |>).

(** [rse_cpu_accel.h: "bool on_pc_entry(uint64_t pc) override" .. "}"] *)
Definition on_pc_entry (pc : Z) : M G bool := try_rse_pc_entry pc.

(** [rse_cpu_accel.h: "void on_cpu_sync() override" .. "try_hotpath_accel();"] *)
Definition on_cpu_sync : M G () :=
  let! registered := get m_pc_entry_registered in
  when (negb registered) try_lms_accel;;
  try_bl2_delay_accel;;
  try_hotpath_accel.

(** [rse_cpu_accel.h: end_of_simulation] *)
Definition end_of_simulation : M G () :=
  when (p_hotpath_accel cfg || p_lms_accel cfg || p_bl2_load_profile cfg || p_bl2_load_accel cfg ||
        p_bl2_boot_enc_accel cfg || p_bl2_img_hash_accel cfg || p_bl2_verify_sig_accel cfg || p_bl2_delay_accel cfg)
    (write_hotpath_profile_file cfg).
End handlers.
