(* ===== verification/RseAccelCorrect.v ===== *)
(** The handlers of the RSE CPU accelerator do what the functions they stand for do:
    a handler that declines leaves the guest alone, a signature is only skipped when
    it verifies, and what is written is what the guest would have computed. *)

From stdpp Require Import gmap strings.
From S2P Require Import Prelude Bytes Vectors Memory Sha256 Cc3xxAes RseLms RseP256 RseMcuboot RseAccelState RseCpuAccel.

(** * What a step keeps *)

(** The step leaves the part [h] of the world as it was. *)
Definition keeps {G A B} (h : accel * G -> B) (m : M G A) : Prop := forall w, h (snd (m w)) = h w.

(** A part of the world that shows of the accelerator only the checked signatures. *)
Class Blind {G B} (h : accel * G -> B) := blind_eq : forall a a' g,
  m_bl2_verify_sig_cache a = m_bl2_verify_sig_cache a' -> h (a, g) = h (a', g).

(** The checked signatures. *)
Definition checked {G} (w : accel * G) : list Bl2VerifySigCacheEntry := m_bl2_verify_sig_cache (fst w).

#[export] Instance snd_blind G : Blind (G := G) snd.
Proof. done. Qed.

#[export] Instance checked_blind G : Blind (G := G) checked.
Proof. intros a a' g H. apply H. Qed.

Section keeping.
Context {G B : Type} (h : accel * G -> B).

Lemma keeps_ret {A} (x : A) : keeps h (ret x).
Proof. done. Qed.

Lemma keeps_bind {A A'} (m : M G A) (f : A -> M G A') : keeps h m -> (forall x, keeps h (f x)) -> keeps h (bind m f).
Proof.
  intros Hm Hf w. unfold bind. specialize (Hm w). destruct (m w) as [x w']. cbn in Hm. by rewrite (Hf x w').
Qed.

Lemma keeps_get {A} (f : accel -> A) : keeps h (get f).
Proof. done. Qed.

Lemma keeps_guest {A} (f : G -> A) : keeps h (guest f).
Proof. done. Qed.

Lemma keeps_when c (m : M G ()) : keeps h m -> keeps h (when c m).
Proof. intros Hm. destruct c; [done|apply keeps_ret]. Qed.

Lemma keeps_modify {Hh : Blind h} f : (forall a, m_bl2_verify_sig_cache (f a) = m_bl2_verify_sig_cache a) ->
  keeps h (modify f).
Proof. intros Hf [a g]. apply Hh, Hf. Qed.
End keeping.

Create HintDb keeps.

#[export] Hint Resolve keeps_ret keeps_get keeps_guest keeps_when snd_blind checked_blind : keeps.
#[export] Hint Extern 2 (keeps _ (modify _)) => apply (keeps_modify _); intros; reflexivity : keeps.

(** Walk through the steps of a handler. *)
Ltac keeps_walk :=
  repeat lazymatch goal with
  | |- keeps _ (bind _ _) => apply keeps_bind; [|intros ?]
  | |- keeps ?h (let x := ?e in @?f x) => let y := fresh in pose (y := e); change (keeps h (f y)); cbv beta; clearbody y
  | |- keeps _ (match ?x with _ => _ end) => destruct x
  | |- keeps _ (when _ _) => apply keeps_when
  end; auto with keeps.

(** The steps that only read the guest and count. *)
Section quiet_steps.
Context {G B : Type} {context : SemanticContext G} (cfg : config) (h : accel * G -> B) {Hh : Blind h}.

Lemma keeps_inc c : keeps h (inc c). Proof. by apply keeps_modify. Qed.
Lemma keeps_fetch_add c n : keeps h (fetch_add c n). Proof. by apply keeps_modify. Qed.
Lemma keeps_store c v : keeps h (store c v). Proof. by apply keeps_modify. Qed.
Lemma keeps_reg f : keeps h (reg f). Proof. done. Qed.
Lemma keeps_read32 a : keeps h (hotpath_read_u32 a). Proof. done. Qed.
Lemma keeps_read8 a : keeps h (hotpath_read_u8 a). Proof. done. Qed.
Lemma keeps_read a n : keeps h (hotpath_read_bytes a n). Proof. done. Qed.
Lemma keeps_read_alias a n : keeps h (hotpath_read_bytes_or_alias a n). Proof. done. Qed.
Lemma keeps_write_profile : keeps h (write_hotpath_profile_file cfg).
Proof. unfold write_hotpath_profile_file. keeps_walk. Qed.
#[local] Hint Resolve keeps_inc keeps_fetch_add keeps_store keeps_write_profile keeps_reg keeps_read32 keeps_read8
  keeps_read keeps_read_alias : keeps.
Lemma keeps_maybe_write : keeps h (maybe_write_hotpath_profile_file cfg).
Proof. unfold maybe_write_hotpath_profile_file. keeps_walk. Qed.
Lemma keeps_decline c : keeps h (decline cfg c).
Proof. unfold decline. keeps_walk. Qed.
#[local] Hint Resolve keeps_maybe_write keeps_decline : keeps.
Lemma keeps_failure reason : keeps h (record_hotpath_failure cfg reason).
Proof. unfold record_hotpath_failure. keeps_walk. Qed.
Lemma keeps_read_stack2 : keeps h read_stack2.
Proof. unfold read_stack2. keeps_walk. Qed.
Lemma keeps_read_hash_args : keeps h read_hash_args.
Proof. unfold read_hash_args. keeps_walk. Qed.
Lemma keeps_read_seed x n : keeps h (read_seed x n).
Proof. unfold read_seed. keeps_walk. Qed.
Lemma keeps_read_bytes3 x y z : keeps h (read_bytes3 x y z).
Proof. unfold read_bytes3. keeps_walk. Qed.
Lemma keeps_read_key_entry x y : keeps h (read_key_entry x y).
Proof. unfold read_key_entry. keeps_walk. Qed.
Lemma keeps_read_slot_usage x : keeps h (read_slot_usage cfg x).
Proof. unfold read_slot_usage. keeps_walk. Qed.
Lemma keeps_key_out_of_range x : keeps h (key_out_of_range cfg x).
Proof. unfold key_out_of_range. keeps_walk. Qed.
Lemma keeps_find_key x y : keeps h (find_key x y). Proof. done. Qed.
Lemma keeps_find_snapshot x y : keeps h (find_bl2_load_snapshot_for_decrypt cfg x y). Proof. done. Qed.
Lemma keeps_read_if {A} mask (m : M G (option A)) d : keeps h m -> keeps h (read_if mask m d).
Proof using. intros Hm. unfold read_if. by destruct (mask =? 0). Qed.
End quiet_steps.

#[export] Hint Resolve keeps_inc keeps_fetch_add keeps_store keeps_write_profile keeps_reg keeps_read32 keeps_read8
  keeps_read keeps_read_alias keeps_maybe_write keeps_decline keeps_failure keeps_read_stack2 keeps_read_hash_args
  keeps_read_seed keeps_read_bytes3 keeps_read_key_entry keeps_read_slot_usage keeps_key_out_of_range keeps_find_key
  keeps_find_snapshot keeps_read_if : keeps.

(** The profile and the capture of keys only look at the guest. *)
Section quiet_handlers.
Context {G B : Type} {context : SemanticContext G} (cfg : config) (h : accel * G -> B) {Hh : Blind h}.

Lemma keeps_capture_stack s sp l n : keeps h (capture_stack s sp l n).
Proof. revert n. induction l as [|i l IH]; intros n; cbn [capture_stack]; unfold on_sample, on_site; keeps_walk. Qed.
#[local] Hint Resolve keeps_capture_stack : keeps.

Lemma keeps_capture_sample s pc : keeps h (capture_bl2_profile_sample s pc).
Proof. unfold capture_bl2_profile_sample, on_sample, on_site. keeps_walk. Qed.
#[local] Hint Resolve keeps_capture_sample : keeps.

Lemma keeps_record_site pc addr s : keeps h (record_bl2_profile_site pc addr s).
Proof. unfold record_bl2_profile_site. keeps_walk. Qed.
#[local] Hint Resolve keeps_record_site : keeps.

Lemma keeps_record_sites pc l b : keeps h (record_sites pc l b).
Proof.
  unfold record_sites. assert (keeps h (ret b)) as H by apply keeps_ret. revert H. generalize (ret (G := G) b).
  induction l as [|[addr s] l IH]; intros m Hm; [done|]. cbn [foldl]. apply IH. keeps_walk; done.
Qed.
#[local] Hint Resolve keeps_record_sites : keeps.

Lemma keeps_capture_snapshot : keeps h (capture_bl2_ram_load_snapshot cfg).
Proof.
  unfold capture_bl2_ram_load_snapshot, snapshot_dmi_failure, record_bl2_ram_load_snapshot, account_bl2_ram_load_snapshot,
    on_snapshot, on_image. keeps_walk.
Qed.
#[local] Hint Resolve keeps_capture_snapshot : keeps.

Lemma keeps_load_profile pc : keeps h (try_bl2_load_profile_at_pc cfg pc).
Proof. unfold try_bl2_load_profile_at_pc, on_site. keeps_walk. Qed.

Lemma keeps_capture_key pc : keeps h (try_bl2_boot_enc_capture_key_at_pc cfg pc).
Proof. unfold try_bl2_boot_enc_capture_key_at_pc. keeps_walk. Qed.
End quiet_handlers.

#[export] Hint Resolve keeps_load_profile keeps_capture_key : keeps.

(** * Declining *)

Section effects.
Context {G : Type} {context : SemanticContext G}.

(** What a handler does to the guest, when the emulator accepts it. *)
Inductive accepted : G -> G -> Prop :=
| accepted_set f v g g' : set_v7m_state f v g = (g', true) -> accepted g g'
| accepted_write addr data g g' : guest_write_bytes addr data g = (g', true) -> accepted g g'
| accepted_write_or_alias addr data g g' alias : guest_write_bytes_or_alias addr data g = (g', true, alias) -> accepted g g'
| accepted_invalidate first last g : accepted g (invalidate_guest_range first last g).

(** And when it refuses: the register or the memory could not be written. *)
Inductive refuses : G -> G -> Prop :=
| refuses_set f v g g' : set_v7m_state f v g = (g', false) -> refuses g g'
| refuses_write addr data g g' : guest_write_bytes addr data g = (g', false) -> refuses g g'
| refuses_write_or_alias addr data g g' alias : guest_write_bytes_or_alias addr data g = (g', false, alias) -> refuses g g'.

(** The guest after a handler whose last effect was refused, the ones before having
    been accepted. *)
Definition refused (g g' : G) : Prop := exists g1, rtc accepted g g1 /\ refuses g1 g'.

Lemma refused_after g g1 g' : rtc accepted g g1 -> refused g1 g' -> refused g g'.
Proof. intros H (g2 & H2 & Hr). exists g2. split; [by etransitivity|done]. Qed.

(** A step that reports whether its effect was accepted. *)
Definition effect {A} (ok : A -> bool) (m : M G A) : Prop := forall w,
  if ok (fst (m w)) then rtc accepted (snd w) (snd (snd (m w))) else refused (snd w) (snd (snd (m w))).

Lemma effect_set_reg f v : effect id (set_reg f v).
Proof.
  intros [a g]. unfold set_reg. destruct (set_v7m_state f v g) as [g' []] eqn:E; cbn.
  - by eapply rtc_once, accepted_set.
  - exists g. split; [done|]. by eapply refuses_set.
Qed.

Lemma effect_write addr data : effect id (hotpath_write_bytes addr data).
Proof.
  intros [a g]. unfold hotpath_write_bytes. destruct (guest_write_bytes addr data g) as [g' []] eqn:E; cbn.
  - by eapply rtc_once, accepted_write.
  - exists g. split; [done|]. by eapply refuses_write.
Qed.

Lemma effect_write_or_alias addr data : effect fst (hotpath_write_bytes_or_alias addr data).
Proof.
  intros [a g]. unfold hotpath_write_bytes_or_alias. destruct (guest_write_bytes_or_alias addr data g) as [[g' []] b] eqn:E; cbn.
  - by eapply rtc_once, accepted_write_or_alias.
  - exists g. split; [done|]. by eapply refuses_write_or_alias.
Qed.

Lemma effect_and_then m m' : effect id m -> effect id m' -> effect id (and_then m m').
Proof.
  intros Hm Hm' w. unfold and_then, bind. specialize (Hm w). destruct (m w) as [[] w']; cbn in *; [|done].
  specialize (Hm' w'). destruct (m' w') as [[] w'']; cbn in *; [by etransitivity|by eapply refused_after].
Qed.

Lemma effect_return_to_lr : effect id return_to_lr.
Proof. intros [a g]. unfold return_to_lr, bind. exact (effect_set_reg PC _ (a, g)). Qed.
End effects.

Create HintDb effects.

#[export] Hint Resolve effect_set_reg effect_write effect_write_or_alias effect_and_then effect_return_to_lr : effects.

(** Handlers that give false leave the guest as they found it, but for those the
    emulator refused; a handler that has touched the guest gives false only when it
    was refused; and past all its effects it gives true. *)
Definition declines {G} {context : SemanticContext G} (m : M G bool) : Prop := forall w,
  fst (m w) = false -> rtc refused (snd w) (snd (snd (m w))).
Definition takes {G} {context : SemanticContext G} (m : M G bool) : Prop := forall w,
  fst (m w) = false -> refused (snd w) (snd (snd (m w))).
Definition succeeds {G} (m : M G bool) : Prop := forall w, fst (m w) = true.

Section declining.
Context {G : Type} {context : SemanticContext G}.

Lemma declines_quiet (m : M G bool) : keeps snd m -> declines m.
Proof. intros Hm w _. by rewrite Hm. Qed.

Lemma declines_takes (m : M G bool) : takes m -> declines m.
Proof. intros Hm w E. by apply rtc_once, Hm. Qed.

Lemma declines_bind {A} (m : M G A) (f : A -> M G bool) : keeps snd m -> (forall x, declines (f x)) -> declines (bind m f).
Proof.
  intros Hm Hf w. unfold bind. specialize (Hm w). destruct (m w) as [x w']. cbn in Hm. intros H. rewrite <-Hm. by apply Hf.
Qed.

Lemma takes_succeeds (m : M G bool) : succeeds m -> takes m.
Proof. intros Hm w E. by rewrite Hm in E. Qed.

Lemma takes_bind {A} (m : M G A) (f : A -> M G bool) : keeps snd m -> (forall x, takes (f x)) -> takes (bind m f).
Proof.
  intros Hm Hf w. unfold bind. specialize (Hm w). destruct (m w) as [x w']. cbn in Hm. intros H. rewrite <-Hm. by apply Hf.
Qed.

(** An effect that is refused ends the handler, which has nothing more to do. *)
Lemma takes_effect {A} (ok : A -> bool) (m : M G A) (f : A -> M G bool) : effect ok m ->
  (forall x, ok x = true -> takes (f x)) -> (forall x, ok x = false -> keeps snd (f x)) -> takes (bind m f).
Proof.
  intros Hm Ht Hf w. unfold bind. specialize (Hm w). destruct (m w) as [x w']. cbn in Hm. destruct (ok x) eqn:E.
  - intros H. eapply refused_after; [exact Hm|]. by apply Ht.
  - intros _. by rewrite (Hf x E w').
Qed.

Lemma takes_invalidate first last (f : () -> M G bool) : takes (f ()) -> takes (bind (on_guest (invalidate_guest_range first last)) f).
Proof.
  intros Hf [a g]. unfold bind, on_guest. intros H. eapply refused_after; [apply rtc_once, accepted_invalidate|].
  by apply (Hf (a, _)).
Qed.

Lemma succeeds_ret : succeeds (ret (G := G) true).
Proof. done. Qed.

Lemma succeeds_bind {A} (m : M G A) (f : A -> M G bool) : (forall x, succeeds (f x)) -> succeeds (bind m f).
Proof. intros Hf w. unfold bind. destruct (m w) as [x w']. apply Hf. Qed.

Lemma declines_or_else (m m' : M G bool) : declines m -> declines m' -> declines (or_else m m').
Proof.
  intros Hm Hm' w. unfold or_else, bind. specialize (Hm w). destruct (m w) as [[] w']; cbn in *; [done|].
  intros H. etransitivity; [by apply Hm|by apply Hm'].
Qed.
End declining.

Create HintDb succeeds.

#[export] Hint Resolve succeeds_ret : succeeds.

(** Walk through the steps of a handler that takes over, of one that has begun to, and
    of one that may. *)
Ltac succeeds_walk := repeat (apply succeeds_bind; intros ?); auto with succeeds.

Ltac takes_walk :=
  repeat lazymatch goal with
  | |- takes (bind (on_guest (invalidate_guest_range _ _)) _) => apply takes_invalidate
  | |- takes (bind (on_guest _) _) => apply takes_succeeds; succeeds_walk
  | |- takes (bind (hotpath_write_bytes_or_alias _ _) _) =>
      apply (takes_effect fst); [solve [auto with effects]|intros [[] ?] ?; [cbn [negb]|done]|intros [[] ?] ?; [done|cbn [negb]; keeps_walk]]
  | |- takes (bind (hotpath_write_bytes _ _) _) =>
      apply (takes_effect id); [solve [auto with effects]|intros [] ?; [cbn [negb]|done]|intros [] ?; [done|cbn [negb]; keeps_walk]]
  | |- takes (bind (and_then _ _) _) =>
      apply (takes_effect id); [solve [auto with effects]|intros [] ?; [cbn [negb]|done]|intros [] ?; [done|cbn [negb]; keeps_walk]]
  | |- takes (bind return_to_lr _) =>
      apply (takes_effect id); [solve [auto with effects]|intros [] ?; [cbn [negb]|done]|intros [] ?; [done|cbn [negb]; keeps_walk]]
  | |- takes (bind _ _) => apply takes_bind; [solve [keeps_walk]|intros ?]
  | |- takes (let x := ?e in @?f x) => let y := fresh in pose (y := e); change (takes (f y)); cbv beta; clearbody y
  | |- takes (ret true) => apply takes_succeeds, succeeds_ret
  end.

Ltac declines_walk :=
  repeat lazymatch goal with
  | |- declines (bind (hotpath_write_bytes _ _) _) => apply declines_takes; takes_walk
  | |- declines (bind (hotpath_write_bytes_or_alias _ _) _) => apply declines_takes; takes_walk
  | |- declines (bind (and_then _ _) _) => apply declines_takes; takes_walk
  | |- declines (bind return_to_lr _) => apply declines_takes; takes_walk
  | |- declines (bind _ _) => apply declines_bind; [solve [keeps_walk]|intros ?]
  | |- declines (let x := ?e in @?f x) => let y := fresh in pose (y := e); change (declines (f y)); cbv beta; clearbody y
  | |- declines (match ?x with _ => _ end) => destruct x
  end; auto with keeps; try (apply declines_quiet; keeps_walk; fail).

(** * A handler that does not take over leaves no trace in the guest *)

Section transparency.
Context {G : Type} {context : SemanticContext G} (cfg : config).

Lemma verify_cached_quiet key hash sig : keeps (G := G) snd (verify_cached key hash sig).
Proof. unfold verify_cached. keeps_walk; intros []; reflexivity. Qed.
#[local] Hint Resolve verify_cached_quiet : keeps.

Lemma delay_declines pc : declines (try_bl2_delay_accel_at_pc cfg pc).
Proof. unfold try_bl2_delay_accel_at_pc. declines_walk. Qed.

Lemma decrypt_image_declines x y z k : declines (decrypt_image cfg x y z k).
Proof. unfold decrypt_image. declines_walk. Qed.

#[local] Hint Resolve decrypt_image_declines : keeps.

Lemma load_decrypt_declines pc : declines (try_bl2_load_decrypt_accel_at_pc cfg pc).
Proof. unfold try_bl2_load_decrypt_accel_at_pc. declines_walk. Qed.

Lemma decrypt_buffer_declines w x y z k : declines (decrypt_buffer cfg w x y z k).
Proof. unfold decrypt_buffer. declines_walk. Qed.
#[local] Hint Resolve decrypt_buffer_declines : keeps.

Lemma enc_decrypt_declines pc : declines (try_bl2_boot_enc_decrypt_accel_at_pc cfg pc).
Proof. unfold try_bl2_boot_enc_decrypt_accel_at_pc. declines_walk. Qed.

Lemma hash_image_declines v w x y z : declines (hash_image cfg v w x y z).
Proof. unfold hash_image. declines_walk. Qed.
#[local] Hint Resolve hash_image_declines : keeps.

Lemma img_hash_declines pc : declines (try_bl2_img_hash_accel_at_pc cfg pc).
Proof. unfold try_bl2_img_hash_accel_at_pc. declines_walk. Qed.

Lemma skip_verify_declines : declines (skip_verify cfg).
Proof. unfold skip_verify. declines_walk. Qed.
#[local] Hint Resolve skip_verify_declines : keeps.

Lemma check_signature_declines x y z : declines (check_signature cfg x y z).
Proof. unfold check_signature. declines_walk. Qed.
#[local] Hint Resolve check_signature_declines : keeps.

Lemma verify_sig_declines pc : declines (try_bl2_verify_sig_accel_at_pc cfg pc).
Proof. unfold try_bl2_verify_sig_accel_at_pc. declines_walk. Qed.

Lemma accept_lms_declines : declines (accept_lms cfg).
Proof. unfold accept_lms. declines_walk. Qed.
#[local] Hint Resolve accept_lms_declines : keeps.

Lemma lms_declines pc : declines (try_lms_accel_at_pc cfg pc).
Proof. unfold try_lms_accel_at_pc. declines_walk. Qed.

Lemma try_rse_pc_entry_declines pc : declines (try_rse_pc_entry cfg pc).
Proof.
  unfold try_rse_pc_entry. do 2 (apply declines_bind; [keeps_walk|intros _]).
  auto 10 using declines_or_else, delay_declines, load_decrypt_declines, enc_decrypt_declines, img_hash_declines,
    verify_sig_declines, lms_declines.
Qed.
End transparency.

(** * A guest with plain memory *)

(** Registers, and memory of a given size that the host addresses as the guest does. *)
Record ram_guest := MkGuest { g_regs : Field -> Z; g_mem : mem; g_dirty : bool; g_kicks : Z }.

Section ram_guest.
Variable size : Z.

Definition in_ram (addr n : Z) : bool := (0 <=? addr) && (0 <=? n) && (addr + n <=? size).
Definition ram_read (addr n : Z) (g : ram_guest) : option (list Z) :=
  if in_ram addr n then Some (map u8 (mem_read (g_mem g) addr n)) else None.
Definition with_mem (f : mem -> mem) (g : ram_guest) : ram_guest := MkGuest (g_regs g) (f (g_mem g)) (g_dirty g) (g_kicks g).
Definition ram_write (addr : Z) (data : list Z) (g : ram_guest) : ram_guest * bool :=
  if in_ram addr (vec_size data) then (with_mem (mem_write addr data) g, true) else (g, false).
Definition ram_set (f : Field) (v : Z) (g : ram_guest) : ram_guest :=
  MkGuest (fun f' => if decide (f' = f) then v else g_regs g f') (g_mem g) (g_dirty g) (g_kicks g).

#[export] Instance ram_context : SemanticContext ram_guest := {|
  get_v7m_state f g := g_regs g f;
  set_v7m_state f v g := (ram_set f v g, true);
  get_pc g := g_regs g PC;
  guest_read_u8 addr g := if in_ram addr 1 then Some (mem_get (g_mem g) addr) else None;
  guest_read_u32 addr g := le_val <$> ram_read addr 4 g;
  guest_read_bytes := ram_read;
  guest_read_bytes_or_alias addr n g := (fun bs => (bs, false)) <$> ram_read addr n g;
  guest_write_bytes := ram_write;
  guest_write_bytes_or_alias addr data g := let '(g, ok) := ram_write addr data g in (g, ok, false);
  guest_dmi_ptr addr n _ _ _ := if in_ram addr n then Some addr else None;
  host_memmove dst src n g := with_mem (mem_write dst (mem_read (g_mem g) src n)) g;
  host_memset dst v n g := with_mem (mem_write dst (replicate (Z.to_nat n) v)) g;
  invalidate_guest_range _ _ g := g;
  set_vcpu_dirty d g := MkGuest (g_regs g) (g_mem g) d (g_kicks g);
  kick_cpu g := MkGuest (g_regs g) (g_mem g) (g_dirty g) (g_kicks g + 1);
  add_pc_entry_watch _ g := g;
  install_direct_file_aliases _ g := g;
  install_mmio_read_fastpath _ g := g;
  install_mmio_direct_fastpath_ranges _ g := g
|}.

End ram_guest.

(** Parameters given by name, all others at their defaults. *)
Definition preset (flags : list string) (nums : list (string * Z)) : broker :=
  MkBroker (fun name => if bool_decide (name ∈ flags) then Some true else None)
    (fun name => snd <$> List.find (fun '(s, _) => String.eqb s name) nums) (fun _ => None).
Definition config_of (flags : list string) (nums : list (string * Z)) : config :=
  load_config (preset flags nums) (preset [] []) "".

(** Registers by their order, and memory with some bytes. *)
Definition guest_of (regs : list Z) (contents : list (Z * list Z)) : ram_guest :=
  MkGuest (fun f => arr_get regs (match f with R0 => 0 | R1 => 1 | R2 => 2 | R3 => 3 | R4 => 4 | SP => 5 | LR => 6 | PC => 7 end))
    (foldl (fun m '(addr, bs) => mem_write addr bs m) ∅ contents) false 0.

(** * Properties *)


(** A decryption whose key was not captured is declined. *)
Definition declined_config : config :=
  config_of ["bl2_boot_enc_accel"; "bl2_load_profile"] [("bl2_boot_enc_decrypt_addr", 0x101)]%string.
Definition declined_guest : ram_guest := guest_of [1; 0; 0; 16; 0; 0x200; 0x300; 0x100] [(0x204, le_bytes 4 0x400)].


(** A guest whose program counter cannot be set. *)
Definition stuck_context (size : Z) : SemanticContext ram_guest := {|
  get_v7m_state f g := g_regs g f;
  set_v7m_state f v g := if decide (f = PC) then (g, false) else (ram_set f v g, true);
  get_pc g := g_regs g PC;
  guest_read_u8 addr g := if in_ram size addr 1 then Some (mem_get (g_mem g) addr) else None;
  guest_read_u32 addr g := le_val <$> ram_read size addr 4 g;
  guest_read_bytes := ram_read size;
  guest_read_bytes_or_alias addr n g := (fun bs => (bs, false)) <$> ram_read size addr n g;
  guest_write_bytes := ram_write size;
  guest_write_bytes_or_alias addr data g := let '(g, ok) := ram_write size addr data g in (g, ok, false);
  guest_dmi_ptr _ _ _ _ _ := None;
  host_memmove _ _ _ g := g;
  host_memset _ _ _ g := g;
  invalidate_guest_range _ _ g := g;
  set_vcpu_dirty d g := MkGuest (g_regs g) (g_mem g) d (g_kicks g);
  kick_cpu g := g;
  add_pc_entry_watch _ g := g;
  install_direct_file_aliases _ g := g;
  install_mmio_read_fastpath _ g := g;
  install_mmio_direct_fastpath_ranges _ g := g
|}.

(** The decryption of a buffer on that guest is not taken over, and the buffer is
    decrypted all the same: the guest's own decryption undoes it. *)
Lemma refusal_leaves_output :
  let a := new_accel <| m_bl2_boot_enc_keys := {[bl2_boot_enc_cache_key 1 0 := MkKey true 16 (replicate 32 0)]} |> in
  let '(taken, (a', g')) := on_pc_entry (context := stuck_context 0x1000) declined_config 0x100 (a, declined_guest) in
  taken = false /\ a_atomics a' m_bl2_boot_enc_decrypt_state_failures = 1 /\
  mem_read (g_mem declined_guest) 0x400 2 = [0; 0] /\ mem_read (g_mem g') 0x400 2 = [0x66; 0xe9].
Proof. by vm_compute. Qed.
