(* ===== verification/RseAccelVerify.v ===== *)
(** The RSE CPU accelerator only skips a signature check that succeeds: the cache of
    checked signatures holds what the check gave, in every state that is reached. *)

From stdpp Require Import gmap strings.
From S2P Require Import Prelude Bytes Vectors Memory Sha256 Cc3xxAes RseLms RseP256 P256Der RseMcuboot RseAccelState RseCpuAccel RseAccelCorrect.

(** * The cache of checked signatures *)

(** What the check of a signature gives, a fault counting as a failure. *)
Definition signature_ok (key hash sig : list Z) : bool :=
  match RseP256.verify_vec key hash sig with Parsed verified => verified | _ => false end.

(** The cache is short and every entry of it says what the check gives. *)
Definition cache_sound (cache : list Bl2VerifySigCacheEntry) : Prop :=
  vec_size cache <= MAX_VERIFY_SIG_CACHE_ENTRIES /\
  Forall (fun e => ve_verified e = signature_ok (ve_public_key e) (ve_hash e) (ve_signature e)) cache.

Lemma remember_sound e cache : ve_verified e = signature_ok (ve_public_key e) (ve_hash e) (ve_signature e) ->
  cache_sound cache -> cache_sound (remember e cache).
Proof.
  intros He [Hl Hc]. unfold remember, cache_sound, vec_size, MAX_VERIFY_SIG_CACHE_ENTRIES in *.
  destruct (Z.leb_spec 16 (Z.of_nat (length cache))); rewrite length_app; [rewrite length_drop|]; cbn [length]; (split; [lia|]);
    apply Forall_app; (split; [|by constructor]); [by apply Forall_drop|done].
Qed.

Lemma find_verified_sound key hash sig cache e : cache_sound cache -> find_verified key hash sig cache = Some e ->
  ve_verified e = signature_ok key hash sig.
Proof.
  intros [_ Hc] E. unfold find_verified in E. apply find_some in E as [Hin E].
  apply bool_decide_eq_true in E as (<- & <- & <-). rewrite Forall_forall in Hc. by apply Hc, list_elem_of_In.
Qed.

(** * Steps from a known guest *)

Section steps.
Context {G : Type} {context : SemanticContext G} (cfg : config) (C : list Bl2VerifySigCacheEntry -> Prop).

(** The guest is [g], and the cache satisfies [C]. *)
Definition at_guest (g : G) (w : accel * G) : Prop := snd w = g /\ C (checked w).

Definition triple {A} (P : accel * G -> Prop) (m : M G A) (Q : A -> accel * G -> Prop) : Prop :=
  forall w, P w -> Q (fst (m w)) (snd (m w)).

Lemma triple_bind {A B} P R (m : M G A) (f : A -> M G B) Q :
  triple P m R -> (forall x, triple (R x) (f x) Q) -> triple P (bind m f) Q.
Proof.
  intros Hm Hf w Hw. unfold bind. specialize (Hm w Hw). destruct (m w) as [x w']. cbn in Hm. by apply (Hf x).
Qed.

Lemma triple_assoc {A B A'} P (m : M G A) (f : A -> M G B) (k : B -> M G A') Q :
  triple P (let! x := m in let! y := f x in k y) Q -> triple P (let! y := (let! x := m in f x) in k y) Q.
Proof. intros H w Hw. specialize (H w Hw). unfold bind in *. by destruct (m w) as [x w']. Qed.

(** A step that only reads the guest gives what the guest holds. *)
Lemma triple_read {A B} g (h : G -> A) (f : A -> M G B) Q :
  triple (at_guest g) (f (h g)) Q -> triple (at_guest g) (bind (guest h) f) Q.
Proof. intros Hf w [<- Hc]. by apply Hf. Qed.

Lemma triple_quiet {A B} g (m : M G A) (f : A -> M G B) Q : keeps snd m -> keeps checked m ->
  (forall x, triple (at_guest g) (f x) Q) -> triple (at_guest g) (bind m f) Q.
Proof.
  intros Hg Hc Hf. apply (triple_bind _ (fun _ => at_guest g)); [|done]. intros w [H1 H2]. split; [by rewrite Hg|by rewrite Hc].
Qed.

(** A handler that gives false has nothing to show. *)
Lemma triple_decline g c (Q : accel * G -> Prop) : triple (at_guest g) (decline cfg c) (fun ok w => ok = true -> Q w).
Proof.
  intros w _ H. exfalso. revert H. unfold decline, bind. destruct (inc c w) as [? w1].
  by destruct (write_hotpath_profile_file cfg w1) as [? w2].
Qed.

(** Setting registers runs the two steps in order; the handlers go on only when both
    succeed. *)
Definition set2 (f : Field) (v : Z) (f' : Field) (v' : Z) (g : G) : G :=
  fst (set_v7m_state f' v' (fst (set_v7m_state f v g))).

Lemma and_then_set2 f v f' v' a g :
  and_then (set_reg f v) (set_reg f' v') (a, g) = (true, (a, set2 f v f' v' g)) \/
  exists g', and_then (set_reg f v) (set_reg f' v') (a, g) = (false, (a, g')).
Proof.
  unfold and_then, bind, set_reg, set2. destruct (set_v7m_state f v g) as [g1 []]; cbn; [|by eauto].
  destruct (set_v7m_state f' v' g1) as [g2 []]; cbn; [by left|by eauto].
Qed.

Lemma triple_set2 g f v f' v' c (k : M G bool) (Q : accel * G -> Prop) :
  triple (at_guest (set2 f v f' v' g)) k (fun ok w => ok = true -> Q w) ->
  triple (at_guest g) (let! ok := and_then (set_reg f v) (set_reg f' v') in if negb ok then decline cfg c else k)
    (fun ok w => ok = true -> Q w).
Proof.
  intros Hk [a g'] [E Hc]. cbn in E. subst g'. unfold bind at 1 2.
  destruct (and_then_set2 f v f' v' a g) as [->|[g' ->]]; cbn [negb]; [by apply Hk|].
  by apply (triple_decline g' c Q).
Qed.

Lemma triple_on_guest {A} g (f : G -> G) (k : M G A) Q :
  triple (at_guest (f g)) k Q -> triple (at_guest g) (on_guest f;; k) Q.
Proof. intros Hk [a g'] [E Hc]. cbn in E. subst g'. by apply Hk. Qed.

Lemma triple_ret {A} g (x : A) (Q : A -> accel * G -> Prop) : (forall w, at_guest g w -> Q x w) -> triple (at_guest g) (ret x) Q.
Proof. intros H w Hw. by apply H. Qed.
End steps.

Section returning.
Context {G : Type} {context : SemanticContext G}.

(** The value of a register as the handlers see it. *)
Definition r (f : Field) (g : G) : Z := u32 (get_v7m_state f g).

(** The guest after a function gave [v]: it goes on at the return address. *)
Definition returned (v : Z) (g : G) : G := set2 R0 v PC (r LR g) g.
Context (C : list Bl2VerifySigCacheEntry -> Prop).

Lemma triple_read_stack2 {A} g (f : option (Z * Z) -> M G A) Q :
  (forall x y, guest_read_u32 (r SP g) g = Some x -> guest_read_u32 (r SP g + 4) g = Some y ->
    triple (at_guest C g) (f (Some (x, y))) Q) ->
  triple (at_guest C g) (f None) Q -> triple (at_guest C g) (let! args := read_stack2 in f args) Q.
Proof.
  intros Hs Hn. unfold read_stack2. apply triple_assoc, triple_read. fold (r SP g). apply triple_assoc, triple_read.
  destruct (guest_read_u32 (r SP g) g) as [x|] eqn:Ex; [|exact Hn]. apply triple_assoc, triple_read.
  destruct (guest_read_u32 (r SP g + 4) g) as [y|] eqn:Ey; [by apply (Hs x y)|exact Hn].
Qed.
End returning.

Section verify_cached.
Context {G : Type}.

Lemma verify_cached_spec (g : G) key hash sig :
  triple (at_guest cache_sound g) (verify_cached key hash sig) (fun ok w => ok = signature_ok key hash sig /\ at_guest cache_sound g w).
Proof.
  intros [a g'] [H Hc]. cbn in H. subst g'. unfold verify_cached, bind, get. cbn [fst]. unfold checked in Hc. cbn in Hc.
  destruct (find_verified _ _ _ _) as [e|] eqn:E.
  - cbn. split; [by apply find_verified_sound in E|done].
  - unfold signature_ok. destruct (RseP256.verify_vec key hash sig) as [v| |] eqn:Ev; cbn;
      (split; [done|split; [done|]]); apply remember_sound; (exact Hc || cbn; unfold signature_ok; by rewrite Ev).
Qed.

Lemma triple_verify_cached {A} (g : G) key hash sig (f : bool -> M G A) Q : triple (at_guest cache_sound g) (f (signature_ok key hash sig)) Q ->
  triple (at_guest cache_sound g) (let! ok := verify_cached key hash sig in f ok) Q.
Proof. intros Hf. eapply triple_bind; [apply verify_cached_spec|]. intros v w [-> Hw]. by apply Hf. Qed.
End verify_cached.

(** * Reachable states *)

Section reachable.
Context {G : Type} {context : SemanticContext G} (cfg : config).

(** The accelerator from the start, while the guest runs as it likes. *)
Inductive reachable : accel * G -> Prop :=
| reach_new g : reachable (new_accel, g)
| reach_guest a g g' : reachable (a, g) -> reachable (a, g')
| reach_configure w : reachable w -> reachable (snd (configure_pc_watches cfg w))
| reach_entry pc w : reachable w -> reachable (snd (on_pc_entry cfg pc w))
| reach_sync w : reachable w -> reachable (snd (on_cpu_sync cfg w))
| reach_end w : reachable w -> reachable (snd (end_of_simulation cfg w)).

(** Steps that keep the cache sound. *)
Definition maintains {A} (m : M G A) : Prop := forall w, cache_sound (checked w) -> cache_sound (checked (snd (m w))).

Lemma maintains_keeps {A} (m : M G A) : keeps checked m -> maintains m.
Proof. intros Hm w Hw. by rewrite Hm. Qed.

Lemma maintains_bind {A B} (m : M G A) (f : A -> M G B) : maintains m -> (forall x, maintains (f x)) -> maintains (bind m f).
Proof.
  intros Hm Hf w Hw. unfold bind. specialize (Hm w Hw). destruct (m w) as [x w']. by apply Hf.
Qed.

Lemma keeps_on_guest (f : G -> G) : keeps checked (on_guest f).
Proof. by intros []. Qed.
Lemma keeps_set_reg f v : keeps checked (set_reg f v).
Proof. intros [a g]. unfold set_reg. by destruct (set_v7m_state f v g). Qed.
Lemma keeps_write addr data : keeps checked (hotpath_write_bytes addr data).
Proof. intros [a g]. unfold hotpath_write_bytes. by destruct (guest_write_bytes addr data g). Qed.
Lemma keeps_write_alias addr data : keeps checked (hotpath_write_bytes_or_alias addr data).
Proof. intros [a g]. unfold hotpath_write_bytes_or_alias. by destruct (guest_write_bytes_or_alias addr data g) as [[??]?]. Qed.
#[local] Hint Resolve keeps_on_guest keeps_set_reg keeps_write keeps_write_alias : keeps.

Lemma keeps_and_then m m' : keeps (G := G) checked m -> keeps checked m' -> keeps checked (and_then m m').
Proof. intros. unfold and_then. by keeps_walk. Qed.
#[local] Hint Resolve keeps_and_then : keeps.
Lemma keeps_return : keeps checked return_to_lr.
Proof. unfold return_to_lr. keeps_walk. Qed.
#[local] Hint Resolve keeps_return : keeps.

Lemma delay_checked pc : keeps checked (try_bl2_delay_accel_at_pc cfg pc).
Proof. unfold try_bl2_delay_accel_at_pc. keeps_walk. Qed.
Lemma load_decrypt_checked pc : keeps checked (try_bl2_load_decrypt_accel_at_pc cfg pc).
Proof. unfold try_bl2_load_decrypt_accel_at_pc, decrypt_image. keeps_walk. Qed.
Lemma enc_decrypt_checked pc : keeps checked (try_bl2_boot_enc_decrypt_accel_at_pc cfg pc).
Proof. unfold try_bl2_boot_enc_decrypt_accel_at_pc, decrypt_buffer. keeps_walk. Qed.
Lemma img_hash_checked pc : keeps checked (try_bl2_img_hash_accel_at_pc cfg pc).
Proof. unfold try_bl2_img_hash_accel_at_pc, hash_image. keeps_walk. Qed.
Lemma skip_verify_checked : keeps checked (skip_verify cfg).
Proof. unfold skip_verify. keeps_walk. Qed.
Lemma lms_checked pc : keeps checked (try_lms_accel_at_pc cfg pc).
Proof. unfold try_lms_accel_at_pc, accept_lms. keeps_walk. Qed.
Lemma hotpath_checked : keeps checked (try_hotpath_accel cfg).
Proof.
  unfold try_hotpath_accel, hotpath_memcpy, hotpath_memset, hotpath_finish_memset, hotpath_finish_stacked_lr, hotpath_return,
    count_hit. keeps_walk.
Qed.
Lemma configure_checked : keeps checked (configure_pc_watches cfg).
Proof. unfold configure_pc_watches. keeps_walk. Qed.
#[local] Hint Resolve delay_checked load_decrypt_checked enc_decrypt_checked img_hash_checked skip_verify_checked lms_checked
  hotpath_checked configure_checked : keeps.

Lemma verify_cached_maintains key hash sig : maintains (verify_cached key hash sig).
Proof. intros w Hw. by apply (verify_cached_spec (snd w) key hash sig w). Qed.

Lemma check_signature_maintains key hash sig : maintains (check_signature cfg key hash sig).
Proof.
  unfold check_signature. apply maintains_bind; [apply maintains_keeps; keeps_walk|intros [[[k h] s]|]].
  - apply maintains_bind; [apply verify_cached_maintains|intros v]. apply maintains_keeps. keeps_walk.
  - apply maintains_keeps. keeps_walk.
Qed.

(** Walk through the handler that checks signatures. *)
Ltac maintains_walk :=
  repeat lazymatch goal with
  | |- maintains (check_signature _ _ _ _) => apply check_signature_maintains
  | |- maintains (bind _ _) => apply maintains_bind; [apply maintains_keeps; solve [keeps_walk]|intros ?]
  | |- maintains (let x := ?e in @?f x) => let y := fresh in pose (y := e); change (maintains (f y)); cbv beta; clearbody y
  | |- maintains (match ?x with _ => _ end) => destruct x
  | |- maintains _ => apply maintains_keeps; solve [keeps_walk]
  end.

Lemma verify_sig_maintains pc : maintains (try_bl2_verify_sig_accel_at_pc cfg pc).
Proof. unfold try_bl2_verify_sig_accel_at_pc. maintains_walk. Qed.

Lemma or_else_maintains (m m' : M G bool) : maintains m -> maintains m' -> maintains (or_else m m').
Proof. intros Hm Hm'. apply maintains_bind; [done|]. intros []; [by apply maintains_keeps|done]. Qed.

Lemma entry_maintains pc : maintains (on_pc_entry cfg pc).
Proof.
  unfold on_pc_entry, try_rse_pc_entry. do 2 (apply maintains_bind; [apply maintains_keeps; keeps_walk|intros _]).
  repeat apply or_else_maintains; try apply verify_sig_maintains; apply maintains_keeps; auto with keeps.
Qed.

Lemma sync_checked : keeps checked (on_cpu_sync cfg).
Proof. unfold on_cpu_sync, try_lms_accel, try_bl2_delay_accel. keeps_walk. Qed.

Lemma reachable_cache w : reachable w -> cache_sound (checked w).
Proof.
  induction 1 as [g|a g g' _ IH|w _ IH|pc w _ IH|w _ IH|w _ IH].
  - split; [done|constructor].
  - exact IH.
  - by rewrite configure_checked.
  - by apply entry_maintains.
  - by rewrite sync_checked.
  - assert (keeps checked (end_of_simulation (G := G) cfg)) as H by (unfold end_of_simulation; keeps_walk). by rewrite H.
Qed.
End reachable.

(** * A skipped check *)

(** Walk through a handler that reads the guest, up to where it takes over. *)
Ltac triple_walk :=
  repeat lazymatch goal with
  | |- triple _ (decline _ _) _ => apply triple_decline
  | |- triple _ (bind (reg _) _) _ => apply triple_read
  | |- triple _ (bind (hotpath_read_u32 _) _) _ => apply triple_read
  | |- triple _ (bind (hotpath_read_bytes _ _) _) _ => apply triple_read
  | |- triple _ (bind (read_key_entry _ _) _) _ => fail
  | |- triple _ (bind (read_bytes3 _ _ _) _) _ => fail
  | |- triple _ (bind read_stack2 _) _ => fail
  | |- triple _ (bind (on_guest _) _) _ => apply triple_on_guest
  | |- triple _ (bind (and_then _ _) _) _ => apply triple_set2
  | |- triple _ (bind _ _) _ => apply triple_quiet; [solve [keeps_walk]..|intros ?]
  | |- triple ?P (let x := ?e in @?f x) ?Q => let y := fresh in pose (y := e); change (triple P (f y) Q); cbv beta
  | |- triple _ (if ?b then _ else _) _ => let E := fresh "E" in destruct b eqn:E
  | |- triple _ (match ?x with Some _ => _ | None => _ end) _ => let E := fresh "E" in destruct x eqn:E
  | |- triple _ (ret false) _ => apply triple_ret; intros; discriminate
  end.

Section skipped.
Context {G : Type} {context : SemanticContext G} (cfg : config).

(** The key, the hash and the signature of a call, as the guest holds them, and what
    it takes for success. *)
Inductive signature_call (g : G) (key hash sig : list Z) (fih : Z) : Prop :=
| SignatureCall key_id key_ptr key_len_ptr key_len :
    guest_read_u32 (r SP g) g = Some key_id ->
    let entry := u32 (u32 (p_bl2_bootutil_keys_addr cfg) + u32 (key_id * 8)) in
    guest_read_u32 entry g = Some key_ptr -> guest_read_u32 (entry + 4) g = Some key_len_ptr ->
    guest_read_u32 key_len_ptr g = Some key_len ->
    guest_read_bytes key_ptr key_len g = Some key -> guest_read_bytes (r R0 g) 32 g = Some hash ->
    guest_read_bytes (r R2 g) (r R3 g) g = Some sig ->
    guest_read_u32 (u32 (p_bl2_fih_success_addr cfg)) g = Some fih ->
    signature_call g key hash sig fih.

Lemma skip_verify_spec g :
  triple (at_guest cache_sound g) (skip_verify cfg) (fun ok w => ok = true ->
    exists fih, guest_read_u32 (u32 (p_bl2_fih_success_addr cfg)) g = Some fih /\ snd w = set_vcpu_dirty true (returned fih g)).
Proof.
  unfold skip_verify. destruct (_ =? 0) eqn:Ez.
  - apply (triple_read _ g (fun _ => None)). apply triple_decline.
  - apply triple_read. destruct (guest_read_u32 _ g) as [fih|] eqn:Ef; [|apply triple_decline].
    triple_walk. apply triple_ret. intros w [-> _] _. by exists fih.
Qed.

(** Three reads give what the guest holds at the three places. *)
Lemma triple_read_bytes3 {A} g x y z (f : option (list Z * list Z * list Z) -> M G A) Q :
  (forall a b c, guest_read_bytes (fst x) (snd x) g = Some a -> guest_read_bytes (fst y) (snd y) g = Some b ->
    guest_read_bytes (fst z) (snd z) g = Some c -> triple (at_guest cache_sound g) (f (Some (a, b, c))) Q) ->
  triple (at_guest cache_sound g) (f None) Q -> triple (at_guest cache_sound g) (let! bytes := read_bytes3 x y z in f bytes) Q.
Proof.
  intros Hs Hn. unfold read_bytes3. apply triple_assoc, triple_read.
  destruct (guest_read_bytes _ (snd x) g) as [bx|] eqn:Ex; [|exact Hn]. apply triple_assoc, triple_read.
  destruct (guest_read_bytes _ (snd y) g) as [bs|] eqn:Ey; [|exact Hn]. apply triple_assoc, triple_read.
  destruct (guest_read_bytes _ (snd z) g) as [bz|] eqn:Ez; [by apply (Hs bx bs bz)|exact Hn].
Qed.

(** Whether the check is skipped: only when the signature verifies. *)
Lemma check_signature_spec g key hash sig :
  triple (at_guest cache_sound g) (check_signature cfg key hash sig) (fun ok w => ok = true ->
    exists k h s fih, guest_read_bytes (fst key) (snd key) g = Some k /\ guest_read_bytes (fst hash) (snd hash) g = Some h /\
      guest_read_bytes (fst sig) (snd sig) g = Some s /\ RseP256.verify_vec k h s = Parsed true /\
      guest_read_u32 (u32 (p_bl2_fih_success_addr cfg)) g = Some fih /\ snd w = set_vcpu_dirty true (returned fih g)).
Proof.
  unfold check_signature. apply triple_read_bytes3; [|apply triple_decline].
  intros k h s Ek Eh Es. apply triple_verify_cached.
  destruct (signature_ok k h s) eqn:Ev; cbn [negb]; [|apply triple_decline].
  apply triple_quiet; [solve [keeps_walk]..|intros _]. destruct (p_bl2_verify_sig_skip cfg); cbn [negb].
  - intros w Hw Hok. destruct (skip_verify_spec g w Hw Hok) as (fih & Hf & Hg). exists k, h, s, fih. repeat split; try done.
    unfold signature_ok in Ev. destruct (RseP256.verify_vec k h s); congruence.
  - triple_walk.
Qed.

(** A key entry gives what the guest holds at its three places. *)
Lemma triple_read_key_entry {A} g keys_addr key_id (f : option (Z * Z) -> M G A) Q :
  let entry := u32 (keys_addr + u32 (key_id * 8)) in
  (forall key_ptr key_len_ptr key_len, guest_read_u32 entry g = Some key_ptr ->
    guest_read_u32 (entry + 4) g = Some key_len_ptr -> guest_read_u32 key_len_ptr g = Some key_len ->
    triple (at_guest cache_sound g) (f (Some (key_ptr, key_len))) Q) ->
  triple (at_guest cache_sound g) (f None) Q -> triple (at_guest cache_sound g) (let! key := read_key_entry keys_addr key_id in f key) Q.
Proof.
  intros entry Hs Hn. unfold read_key_entry. fold entry. apply triple_assoc, triple_read.
  destruct (guest_read_u32 entry g) as [ptr|] eqn:Ex; [|exact Hn]. apply triple_assoc, triple_read.
  destruct (guest_read_u32 (entry + 4) g) as [len_ptr|] eqn:Ey; [|exact Hn]. apply triple_assoc, triple_read.
  destruct (guest_read_u32 len_ptr g) as [len|] eqn:Ez; [by apply (Hs ptr len_ptr len)|exact Hn].
Qed.

(** A mask that stays zero has none of its conditions. *)
Lemma flag_zero (wrong : bool) bit_ mask : bit_ <> 0 -> (if wrong then Z.lor mask bit_ else mask) = 0 ->
  wrong = false /\ mask = 0.
Proof. destruct wrong; [|done]. intros Hb E. apply Z.lor_eq_0_iff in E as [_ E]. done. Qed.

Lemma verify_sig_spec g pc :
  triple (at_guest cache_sound g) (try_bl2_verify_sig_accel_at_pc cfg pc) (fun ok w => ok = true ->
    exists key hash sig fih, signature_call g key hash sig fih /\ RseP256.verify_vec key hash sig = Parsed true /\
      snd w = set_vcpu_dirty true (returned fih g)).
Proof.
  unfold try_bl2_verify_sig_accel_at_pc. triple_walk.
  match goal with E : negb (?mask =? 0) = false |- _ => assert (mask = 0) as Hmask by (destruct (Z.eqb_spec mask 0); done); clear E end.
  do 5 (apply flag_zero in Hmask as [_ Hmask]; [|done]). apply flag_zero in Hmask as [Hlen _]; [|done]. apply negb_false_iff, Z.eqb_eq in Hlen.
  apply triple_read_key_entry; [|triple_walk]. intros key_ptr key_len_ptr key_len Hp1 Hp2 Hp3. triple_walk.
  intros w Hw Hok. destruct (check_signature_spec g _ _ _ w Hw Hok) as (k & h & s & fih & Ek & Eh & Es & Ev & Ef & Hg).
  exists k, h, s, fih. split; [|done]. econstructor; eauto. cbn [fst snd] in Eh. unfold r.
  by rewrite Hlen in Eh.
Qed.

(** The same for the hash-based signatures, which are not cached. *)
Inductive lms_call (g : G) (key data sig : list Z) : Prop :=
| LmsCall sig_addr :
    guest_read_u32 (r SP g) g = Some sig_addr -> guest_read_u32 (r SP g + 4) g = Some LMS_SIG_LEN ->
    guest_read_bytes (r R0 g) LMS_PUBLIC_KEY_LEN g = Some key -> guest_read_bytes (r R2 g) (r R3 g) g = Some data ->
    guest_read_bytes sig_addr LMS_SIG_LEN g = Some sig -> lms_call g key data sig.

Lemma accept_lms_spec g :
  triple (at_guest cache_sound g) (accept_lms cfg) (fun ok w => ok = true -> snd w = returned 0x1aaa555a g).
Proof. unfold accept_lms. triple_walk. apply triple_ret. by intros w [-> _] _. Qed.

Lemma lms_spec g pc :
  triple (at_guest cache_sound g) (try_lms_accel_at_pc cfg pc) (fun ok w => ok = true ->
    exists key data sig, lms_call g key data sig /\ RseLms.verify_vec key data sig = true /\ snd w = returned 0x1aaa555a g).
Proof.
  unfold try_lms_accel_at_pc. triple_walk. apply triple_read_stack2; [|triple_walk]. intros sig_addr sig_size Hs1 Hs2. triple_walk.
  match goal with E : negb (?mask =? 0) = false |- _ => assert (mask = 0) as Hmask by (destruct (Z.eqb_spec mask 0); done); clear E end.
  apply flag_zero in Hmask as [_ Hmask]; [|done]. apply flag_zero in Hmask as [Hs Hmask]; [|done]. apply negb_false_iff, Z.eqb_eq in Hs. subst sig_size.
  apply flag_zero in Hmask as [Hk _]; [|done]. apply negb_false_iff, Z.eqb_eq in Hk.
  apply triple_read_bytes3; [|triple_walk]. intros key data sig Ek Ed Es. triple_walk.
  intros w Hw Hok. exists key, data, sig. split; [|split; [by apply negb_false_iff|exact (accept_lms_spec g w Hw Hok)]].
  econstructor; eauto. by rewrite <-Hk.
Qed.
End skipped.

(** * Properties *)

(** C2. The accelerator reports a signature as good only when it is.  In every state
    it can reach, whatever the guest did before and whatever is cached, a call of the
    boot loader's check that it answers is one whose key, hash and signature, read
    from the guest, pass the ECDSA verification, and the guest goes on at the return
    address with the success value it stores itself; the same for the hash-based
    signatures, with the code's own success value. *)
Theorem accel_skip_sound {G} {context : SemanticContext G} cfg pc a g a' g' : reachable cfg (a, g) ->
  (try_bl2_verify_sig_accel_at_pc cfg pc (a, g) = (true, (a', g')) ->
   exists key hash sig fih, signature_call cfg g key hash sig fih /\ RseP256.verify_vec key hash sig = Parsed true /\
     g' = set_vcpu_dirty true (returned fih g)) /\
  (try_lms_accel_at_pc cfg pc (a, g) = (true, (a', g')) ->
   exists key data sig, lms_call g key data sig /\ RseLms.verify_vec key data sig = true /\ g' = returned 0x1aaa555a g).
Proof.
  intros Hr. assert (at_guest cache_sound g (a, g)) as Hg by (split; [done|by apply reachable_cache in Hr]).
  split; intros E.
  - pose proof (verify_sig_spec cfg g pc (a, g) Hg) as H. rewrite E in H. by apply H.
  - pose proof (lms_spec cfg g pc (a, g) Hg) as H. rewrite E in H. by apply H.
Qed.

(** A call with the signature of the example of the verification: the key is twice
    the generator, and the hash and both halves of the signature are one number. *)
Definition signed_config : config :=
  config_of ["bl2_verify_sig_accel"; "bl2_verify_sig_skip"]
    [("bl2_bootutil_verify_sig_addr", 0x101); ("bl2_bootutil_keys_addr", 0x280); ("bl2_fih_success_addr", 0x290)]%string.
Definition signed_number : Z := 0x5ECBE4D1A6330A44C8F7EF951D4BF165E6C6B721EFADA985FB41661BC6E7FD6C.
Definition signed_key : list Z :=
  RseP256.key_bytes (MkPoint 0x7CF27B188D034F7E8A52380304B51AC3C08969E277F21B35A60B48FC47669978
    0x07775510DB8ED040293D9AC69F7430DBBA7DADE63CE982299E04B79D227873D1 false).
Definition signed_guest : ram_guest :=
  let sig := der_signature signed_number signed_number in
  guest_of [0x300; 32; 0x340; vec_size sig; 0; 0x200; 0x500; 0x100]
    [(0x280, le_bytes 4 0x400); (0x284, le_bytes 4 0x2c0); (0x2c0, le_bytes 4 (vec_size signed_key)); (0x290, le_bytes 4 77);
     (0x300, be_bytes 32 signed_number); (0x340, sig); (0x400, signed_key)].

Lemma accel_skip_sound_witness :
  let '(taken, (a', g')) := try_bl2_verify_sig_accel_at_pc (context := ram_context 0x1000) signed_config 0x100
    (new_accel, signed_guest) in
  taken = true /\ exists key hash sig fih, signature_call (context := ram_context 0x1000) signed_config signed_guest key hash sig fih /\
    RseP256.verify_vec key hash sig = Parsed true /\
    g' = set_vcpu_dirty (SemanticContext := ram_context 0x1000) true (returned (context := ram_context 0x1000) fih signed_guest).
Proof.
  destruct (try_bl2_verify_sig_accel_at_pc (context := ram_context 0x1000) signed_config 0x100 (new_accel, signed_guest))
    as [taken [a' g']] eqn:E.
  assert (taken = true) as -> by (change taken with (fst (taken, (a', g'))); rewrite <-E; vm_compute; reflexivity).
  split; [done|].
  exact (proj1 (accel_skip_sound (context := ram_context 0x1000) signed_config 0x100 new_accel signed_guest a' g'
    (reach_new (context := ram_context 0x1000) signed_config signed_guest)) E).
Defined.
