(* ===== verification/RseAccelImage.v ===== *)
(** What the RSE CPU accelerator writes is what the boot loader would have computed:
    the digest of an image is its SHA-256, and an image that is decrypted in one run
    holds what decrypting it piece by piece gives. *)

From stdpp Require Import gmap strings.
From S2P Require Import Prelude Bytes Vectors Memory Sha256 Cc3xxAes AesCorrect AesCtr RseLms RseP256 RseMcuboot RseAccelState RseCpuAccel RseAccelCorrect RseAccelVerify.

(** A guest whose reads give bytes, as many as were asked for, and words. *)
Class GuestReads G {context : SemanticContext G} := {
  read_bytes_ok : forall addr n g bs, guest_read_bytes addr n g = Some bs -> vec_size bs = n /\ bytes_ok bs;
  read_alias_ok : forall addr n g bs alias,
    guest_read_bytes_or_alias addr n g = Some (bs, alias) -> vec_size bs = n /\ bytes_ok bs;
  read_u32_ok : forall addr g v, guest_read_u32 addr g = Some v -> is_u32 v
}.

(** A guest whose registers can be set. *)
Class StableGuest G {context : SemanticContext G} := {
  set_v7m_state_ok : forall f v g, snd (set_v7m_state f v g) = true
}.

#[export] Instance ram_stable size : StableGuest ram_guest (context := ram_context size).
Proof. done. Qed.

(** * Steps that succeed *)

Section steps.
Context {G : Type} {context : SemanticContext G} {stable : StableGuest G} (C : list Bl2VerifySigCacheEntry -> Prop).

Lemma triple_set2_ok {A} g f v f' v' (k : bool -> M G A) Q :
  triple (at_guest C (set2 f v f' v' g)) (k true) Q ->
  triple (at_guest C g) (let! ok := and_then (set_reg f v) (set_reg f' v') in k ok) Q.
Proof.
  intros Hk [a g'] [E Hc]. cbn in E. subst g'. unfold bind.
  destruct (and_then_set2 f v f' v' a g) as [->|[g' E]]; [by apply Hk|].
  unfold and_then, set_reg, bind in E. pose proof (set_v7m_state_ok f v g) as H1.
  destruct (set_v7m_state f v g) as [g1 ok1]. cbn in H1. subst ok1.
  pose proof (set_v7m_state_ok f' v' g1) as H2. destruct (set_v7m_state f' v' g1) as [g2 ok2]. cbn in H2. by subst ok2.
Qed.

(** The guest at the return address of a function without a value. *)
Definition returned_void (g : G) : G := fst (set_v7m_state PC (r LR g) g).

Lemma triple_return_ok {A} g (k : bool -> M G A) Q :
  triple (at_guest C (returned_void g)) (k true) Q -> triple (at_guest C g) (let! ok := return_to_lr in k ok) Q.
Proof.
  intros Hk [a g'] [E Hc]. cbn in E. subst g'. unfold return_to_lr, reg, guest, set_reg, bind. cbn [fst snd]. fold (r LR g).
  pose proof (set_v7m_state_ok PC (r LR g) g) as H. destruct (set_v7m_state PC (r LR g) g) as [g' ok] eqn:E. cbn in H. subst ok.
  apply Hk. split; [|done]. unfold returned_void. by rewrite E.
Qed.

Lemma triple_write_ok {A} g addr data (k : bool -> M G A) Q : snd (guest_write_bytes addr data g) = true ->
  triple (at_guest C (fst (guest_write_bytes addr data g))) (k true) Q ->
  triple (at_guest C g) (let! ok := hotpath_write_bytes addr data in k ok) Q.
Proof.
  intros Hok Hk [a g'] [E Hc]. cbn in E. subst g'. unfold hotpath_write_bytes, bind.
  destruct (guest_write_bytes addr data g) as [g' ok]. cbn in *. subst ok. by apply Hk.
Qed.

(** The guest after a write that may go to a file. *)
Definition written (addr : Z) (data : list Z) (g : G) : G := fst (fst (guest_write_bytes_or_alias addr data g)).

Lemma triple_write_alias_ok {A} g addr data (k : bool * bool -> M G A) Q :
  snd (fst (guest_write_bytes_or_alias addr data g)) = true ->
  (forall alias, triple (at_guest C (written addr data g)) (k (true, alias)) Q) ->
  triple (at_guest C g) (let! ok := hotpath_write_bytes_or_alias addr data in k ok) Q.
Proof.
  intros Hok Hk [a g'] [E Hc]. cbn in E. subst g'. unfold hotpath_write_bytes_or_alias, bind, written in *.
  destruct (guest_write_bytes_or_alias addr data g) as [[g' ok] alias]. cbn in *. subst ok. by apply Hk.
Qed.
End steps.

(** Walk through a handler whose conditions are known to hold. *)
Ltac run_walk :=
  repeat lazymatch goal with
  | |- triple _ (bind (read_seed _ _) _) _ => fail
  | |- triple _ (bind (read_if _ _ _) _) _ => fail
  | |- triple _ (bind (guest _) _) _ => apply triple_read
  | |- triple _ (bind (reg _) _) _ => apply triple_read
  | |- triple _ (bind (hotpath_read_u32 _) _) _ => apply triple_read
  | |- triple _ (bind (hotpath_read_bytes _ _) _) _ => apply triple_read
  | |- triple _ (bind (hotpath_read_bytes_or_alias _ _) _) _ => apply triple_read
  | |- triple _ (bind (on_guest _) _) _ => apply triple_on_guest
  | |- triple _ (bind (and_then _ _) _) _ => apply triple_set2_ok; cbn [negb]
  | |- triple _ (bind return_to_lr _) _ => apply triple_return_ok; cbn [negb]
  | |- triple _ (bind (hotpath_write_bytes _ _) _) _ => apply triple_write_ok; [done|cbn [negb]]
  | |- triple _ (bind (hotpath_write_bytes_or_alias _ _) _) _ => apply triple_write_alias_ok; [done|intros ?; cbn [negb]]
  | |- triple _ (bind _ _) _ => apply triple_quiet; [solve [keeps_walk]..|intros ?]
  | |- triple ?P (let x := ?e in @?f x) ?Q => change (triple P (f e) Q); cbv beta
  end.

(** * The digest of an image *)

Section hash.
Context {G : Type} {context : SemanticContext G} {stable : StableGuest G} {reads : GuestReads G} (cfg : config).

(** A call of the hash function: its header, the image the header describes, the
    seed, and where the digest goes, as the guest holds them. *)
Record hash_call (g : G) (h : ImageHeader) (image seed : list Z) (hash_result : Z) : Prop := {
  hc_header : exists bytes, guest_read_bytes (r R1 g) IMAGE_HEADER_SIZE g = Some bytes /\
    parse_header (Some bytes) no_header = (h, true);
  hc_header_addr : r R1 g <> 0;
  hc_result : guest_read_u32 (r SP g + 4) g = Some hash_result;
  hc_result_addr : hash_result <> 0;
  hc_size : hdr_size h + img_size h + protect_tlv_size h <= p_bl2_img_hash_max_bytes cfg;
  hc_image : exists alias, guest_read_bytes_or_alias (load_addr h) (hdr_size h + img_size h + protect_tlv_size h) g =
    Some (image, alias);
  hc_seed_size : vec_size seed <= p_bl2_img_hash_max_seed_bytes cfg;
  hc_seed_len : guest_read_u32 (r SP g + 12) g = Some (vec_size seed);
  hc_seed : exists addr, guest_read_u32 (r SP g + 8) g = Some addr /\
    (seed = [] \/ addr <> 0 /\ exists alias, guest_read_bytes_or_alias addr (vec_size seed) g = Some (seed, alias))
}.

(** What the handler leaves. *)
Definition hash_answered (g : G) (digest : list Z) (hash_result : Z) : G :=
  set_vcpu_dirty true (returned 0 (fst (guest_write_bytes hash_result digest g))).

(** The header passes its checks. *)
Lemma check_header_spec bytes h too_large : bytes_ok bytes -> parse_header (Some bytes) no_header = (h, true) ->
  too_large (hdr_size h + img_size h + protect_tlv_size h) = false ->
  check_header 0 bytes too_large = (h, hdr_size h + img_size h + protect_tlv_size h, 0).
Proof using.
  intros Hb Hp Ht. unfold check_header. cbn [Z.eqb]. rewrite Hp. unfold check_if. cbn [Z.eqb negb andb].
  rewrite hash_region_size_spec by (by eapply parse_header_ok). cbn [default andb]. change id with (fun x : Z => x). cbv beta. by rewrite Ht.
Qed.

Lemma read_hash_args_spec {A} C g x y z (k : option (Z * Z * Z) -> M G A) Q :
  guest_read_u32 (r SP g + 4) g = Some x -> guest_read_u32 (r SP g + 8) g = Some y -> guest_read_u32 (r SP g + 12) g = Some z ->
  triple (at_guest C g) (k (Some (x, y, z))) Q -> triple (at_guest C g) (let! args := read_hash_args in k args) Q.
Proof using.
  intros Ex Ey Ez Hk. unfold read_hash_args. apply triple_assoc, triple_read. fold (r SP g).
  apply triple_assoc, triple_read. rewrite Ex. apply triple_assoc, triple_read. rewrite Ey.
  apply triple_assoc, triple_read. rewrite Ez. exact Hk.
Qed.

Lemma read_seed_spec {A} C g addr seed (k : option (list Z) -> M G A) Q :
  (seed = [] \/ addr <> 0 /\ exists alias, guest_read_bytes_or_alias addr (vec_size seed) g = Some (seed, alias)) ->
  triple (at_guest C g) (k (Some seed)) Q -> triple (at_guest C g) (let! bytes := read_seed addr (vec_size seed) in k bytes) Q.
Proof using.
  intros Hs Hk. unfold read_seed. destruct (Z.eqb_spec (vec_size seed) 0) as [E|E].
  - assert (seed = []) as -> by (destruct seed; [done|unfold vec_size in E; cbn in E; lia]). exact Hk.
  - destruct Hs as [->|(_ & alias & Er)]; [done|]. apply triple_assoc, triple_read. rewrite Er.
    apply triple_assoc, triple_quiet; [solve [keeps_walk]..|intros _]. exact Hk.
Qed.

Lemma hash_image_spec C g load_addr size image alias hash_result addr seed :
  guest_read_bytes_or_alias load_addr size g = Some (image, alias) ->
  (seed = [] \/ addr <> 0 /\ exists alias, guest_read_bytes_or_alias addr (vec_size seed) g = Some (seed, alias)) ->
  (vec_size seed + vec_size image) * 8 < 2 ^ 64 ->
  snd (guest_write_bytes hash_result (SHA256 (seed ++ image)) g) = true ->
  triple (at_guest C g) (hash_image cfg load_addr size hash_result addr (vec_size seed))
    (fun ok w => ok = true /\ snd w = hash_answered g (SHA256 (seed ++ image)) hash_result).
Proof.
  intros Ei Hs Hlen Hw. unfold hash_image. apply triple_read. rewrite Ei. run_walk. apply read_seed_spec; [done|].
  assert (image_sha256 (if vec_size seed =? 0 then None else Some seed) image = SHA256 (seed ++ image)) as Hd.
  { rewrite image_sha256_spec.
    - destruct (Z.eqb_spec (vec_size seed) 0) as [E|E]; [|done].
      assert (seed = []) as -> by (destruct seed; [done|unfold vec_size in E; cbn in E; lia]). done.
    - destruct (_ =? 0); [|done]. cbn [default]. unfold vec_size in *. cbn [length]. lia. }
  rewrite Hd. cbv zeta. run_walk. apply triple_ret. by intros w [-> _].
Qed.

Lemma img_hash_spec C g pc h image seed hash_result :
  p_bl2_img_hash_accel cfg = true -> pc = entry_of (p_bl2_bootutil_img_hash_addr cfg) -> pc <> 0 ->
  hash_call g h image seed hash_result -> snd (guest_write_bytes hash_result (SHA256 (seed ++ image)) g) = true ->
  triple (at_guest C g) (try_bl2_img_hash_accel_at_pc cfg pc)
    (fun ok w => ok = true /\ snd w = hash_answered g (SHA256 (seed ++ image)) hash_result).
Proof.
  intros Hacc Hpc Hne [(bytes & Hb & Hp) Hhdr Hres Hres0 Hsize (alias & Himg) Hseed Hlen (addr & Ea & Hs)] Hw.
  destruct (read_bytes_ok _ _ _ _ Hb) as [_ Hbytes]. destruct (read_alias_ok _ _ _ _ _ Himg) as [Hil _].
  pose proof (parse_header_ok _ _ Hbytes Hp) as (_ & _ & [_ H1] & [_ H2] & [_ H3] & _).
  pose proof (read_u32_ok _ _ _ Hlen) as [_ H4].
  unfold try_bl2_img_hash_accel_at_pc. rewrite Hacc, <-Hpc. cbn [negb]. replace (pc =? 0) with false by lia. rewrite Z.eqb_refl.
  cbn [negb orb]. apply triple_read. change (u32 (get_v7m_state R1 g)) with (r R1 g).
  eapply read_hash_args_spec; [exact Hres|exact Ea|exact Hlen|]. run_walk.
  match goal with |- triple _ (bind (read_if ?m _ _) _) _ => set (mask := m) end.
  assert (mask = 0) as ->.
  { unfold mask. replace (r R1 g =? 0) with false by lia. replace (hash_result =? 0) with false by lia.
    replace (_ <? vec_size seed) with false by lia.
    destruct Hs as [->|[Ha _]]; [by rewrite andb_false_r|by replace (addr =? 0) with false by lia]. }
  unfold read_if. cbn [Z.eqb]. apply triple_read. rewrite Hb.
  rewrite (check_header_spec bytes h) by (done || lia). run_walk. cbn [Z.eqb negb].
  eapply hash_image_spec; [exact Himg|exact Hs| |exact Hw]. rewrite Hil. lia.
Qed.
End hash.

(** * Decryption of an image *)

(** The counter of a block is a number: an offset has 32 bits. *)
Lemma block_counter_spec off : is_u32 off -> block_counter off = be_bytes 16 (off / 16).
Proof.
  intros [H1 H2]. assert (0 <= off / 16 < 2 ^ 32) as Hb by (pose proof (Z.div_le_upper_bound off 16 (2 ^ 31)); split; [apply Z.div_pos|]; lia).
  unfold block_counter. rewrite Z.shiftr_div_pow2 by lia. change (2 ^ 4) with 16. set (v := off / 16) in *.
  assert (be_bytes 16 v = map (fun i => u8 (Z.shiftr v (i * 8))) [15; 14; 13; 12; 11; 10; 9; 8; 7; 6; 5; 4] ++ be_bytes 4 v) as -> by done.
  f_equal. assert (forall i, 4 <= i -> u8 (Z.shiftr v (i * 8)) = 0) as Hz.
  { intros i Hi. pose proof (Z.pow_le_mono_r 2 32 (i * 8) ltac:(lia) ltac:(lia)) as Hp.
    rewrite Z.shiftr_div_pow2 by lia. by rewrite Z.div_small by lia. }
  cbn [map replicate]. by rewrite !Hz by lia.
Qed.

Section decrypt.
Context {G : Type} {context : SemanticContext G} {stable : StableGuest G} (cfg : config).

(** A key as it is captured: 32 bytes of which the first ones are used. *)
Definition key_ok (key : Bl2EncKeyCacheEntry) : Prop :=
  key_size key ∈ [16; 24; 32] /\ vec_size (key_bytes key) = 32 /\ bytes_ok (key_bytes key).

(** The bytes that decryption gives for a buffer at an offset of the image. *)
Definition plain (key : Bl2EncKeyCacheEntry) (off : Z) (input : list Z) : list Z :=
  match aes_expand_key (key_bytes key) (key_size key) with
  | Some (round_keys, rounds) => ctr_xor round_keys rounds 0 off input
  | None => []
  end.

Lemma expand_some key : key_ok key -> exists rk rounds, aes_expand_key (key_bytes key) (key_size key) = Some (rk, rounds).
Proof using.
  intros [Hk _]. rewrite !elem_of_cons in Hk. unfold aes_expand_key.
  replace (_ && _) with false by (destruct Hk as [->|[->|[->|Hk]]]; [done..|by inversion Hk]). eauto.
Qed.

Lemma xcrypt_plain key off input : key_ok key -> is_u32 off ->
  aes_ctr_xcrypt_buffer (Some (key_bytes key)) (key_size key) (Some (block_counter off)) (Some input) (off mod 16) false =
  Some (plain key off input).
Proof using.
  intros Hk Ho. destruct (expand_some key Hk) as (rk & rounds & E). unfold plain. rewrite E, block_counter_spec by done.
  destruct Hk as (Hs & Hl & Hb). assert (key_size key <= vec_size (key_bytes key)) as Hlen.
  { rewrite Hl. rewrite !elem_of_cons in Hs. destruct Hs as [->|[->|[->|Hs]]]; [done..|by inversion Hs]. }
  rewrite (aes_ctr_spec (key_bytes key) (key_size key) rk rounds E (conj Hb Hlen)) by
    (first [done|apply Z.mod_pos_bound; lia|apply Z.div_pos; [apply Ho|lia]]). f_equal.
  rewrite <-(Z.add_0_l (off / 16)), ctr_xor_blocks. f_equal. pose proof (Z.div_mod off 16). lia.
Qed.

(** A piece of the plain image is the plain piece. *)
Lemma plain_slice key off n input : 0 <= off -> 0 <= n -> off + n <= vec_size input ->
  plain key off (slice off n input) = slice off n (plain key 0 input).
Proof using.
  intros Ho Hn Hl. unfold plain. destruct (aes_expand_key _ _) as [[rk rounds]|]; [|unfold slice; by rewrite drop_nil, take_nil].
  set (pre := take (Z.to_nat off) input). set (mid := slice off n input). set (post := drop (Z.to_nat n) (drop (Z.to_nat off) input)).
  assert (input = pre ++ mid ++ post) as E.
  { unfold mid, slice, post, pre. by rewrite take_drop, take_drop. }
  assert (vec_size pre = off) as Hpre by (unfold pre, vec_size in *; rewrite length_take; lia).
  assert (vec_size mid = n) as Hmid by (unfold mid, slice, vec_size in *; rewrite length_take, length_drop; lia).
  rewrite E, !ctr_xor_app, Hpre, Z.add_0_l. set (out := ctr_xor rk rounds 0 off mid).
  assert (vec_size out = n) as Ho1 by (unfold out, vec_size in *; rewrite ctr_xor_length; lia).
  assert (vec_size (ctr_xor rk rounds 0 0 pre) = off) as Ho2 by (unfold vec_size in *; rewrite ctr_xor_length; lia).
  symmetry. rewrite <-Ho1 at 1. rewrite <-Ho2 at 1. apply slice_middle.
Qed.

Lemma plain_size key off input : key_ok key -> vec_size (plain key off input) = vec_size input.
Proof using.
  intros Hk. destruct (expand_some key Hk) as (rk & rounds & E). unfold plain, vec_size. by rewrite E, ctr_xor_length.
Qed.

(** What both handlers leave. *)
Definition decrypt_answered (addr size : Z) (data : list Z) (g : G) : G :=
  set_vcpu_dirty true (returned_void (invalidate_guest_range addr (u64 (addr + size - 1)) (written addr data g))).

Lemma decrypt_image_spec C g curr_img addr size key input alias : key_ok key ->
  guest_read_bytes_or_alias addr size g = Some (input, alias) ->
  snd (fst (guest_write_bytes_or_alias addr (plain key 0 input) g)) = true ->
  triple (at_guest C g) (decrypt_image cfg curr_img addr size key)
    (fun ok w => ok = true /\ snd w = decrypt_answered addr size (plain key 0 input) g).
Proof.
  intros Hk Hr Hw. unfold decrypt_image. apply triple_read. rewrite Hr.
  pose proof (xcrypt_plain key 0 input Hk ltac:(split; lia)) as Hx. change (block_counter 0) with (replicate 16 0) in Hx.
  change (0 mod 16) with 0 in Hx. rewrite Hx. run_walk. apply triple_ret. by intros w [-> _].
Qed.

Lemma decrypt_buffer_spec C g off size addr key input alias : key_ok key -> is_u32 off ->
  guest_read_bytes_or_alias addr size g = Some (input, alias) ->
  snd (fst (guest_write_bytes_or_alias addr (plain key off input) g)) = true ->
  triple (at_guest C g) (decrypt_buffer cfg off size (off mod 16) addr key)
    (fun ok w => ok = true /\ snd w = decrypt_answered addr size (plain key off input) g).
Proof.
  intros Hk Ho Hr Hw. unfold decrypt_buffer. apply triple_read. rewrite Hr, xcrypt_plain by done.
  run_walk. apply triple_ret. by intros w [-> _].
Qed.
End decrypt.

#[export] Instance ram_reads size : GuestReads ram_guest (context := ram_context size).
Proof.
  assert (forall addr n g bs, ram_read size addr n g = Some bs -> vec_size bs = n /\ bytes_ok bs) as Hr.
  { intros addr n g bs. unfold ram_read, in_ram. destruct (_ && _) eqn:E; [|done]. intros H. injection H as <-. split.
    - unfold vec_size. rewrite length_map. apply mem_read_length. lia.
    - apply Forall_map, Forall_true. intros b. by apply wrap_range. }
  split; cbn.
  - exact Hr.
  - intros addr n g bs alias. destruct (ram_read size addr n g) as [bs'|] eqn:E; [|done]. intros H. injection H as <- _. eauto.
  - intros addr g v. destruct (ram_read size addr 4 g) as [bs|] eqn:E; [|done]. intros H. injection H as <-.
    destruct (Hr _ _ _ _ E) as [Hl Hb]. apply (le_val_range bs) in Hb. unfold vec_size in Hl. by rewrite Hl in Hb.
Qed.

(** * Properties *)

(** C36. A call of the boot loader's image hash that has a well-formed header, sizes in
    the limits and readable memory is carried out: the SHA-256 of the seed followed by
    header, image and protected trailer is written where the caller asked, the result
    is zero and the guest goes on at the return address, on a guest whose registers
    can be set. *)
Theorem accel_img_hash {G} {context : SemanticContext G} {stable : StableGuest G} {reads : GuestReads G}
    cfg pc a g h image seed hash_result :
  p_bl2_img_hash_accel cfg = true -> pc = entry_of (p_bl2_bootutil_img_hash_addr cfg) -> pc <> 0 ->
  hash_call cfg g h image seed hash_result -> snd (guest_write_bytes hash_result (SHA256 (seed ++ image)) g) = true ->
  exists a', try_bl2_img_hash_accel_at_pc cfg pc (a, g) = (true, (a', hash_answered g (SHA256 (seed ++ image)) hash_result)).
Proof.
  intros H1 H2 H3 H4 H5. pose proof (img_hash_spec cfg (fun _ => True) g pc h image seed hash_result H1 H2 H3 H4 H5 (a, g)) as H.
  destruct (try_bl2_img_hash_accel_at_pc cfg pc (a, g)) as [ok [a' g']]. cbn in H. destruct H as [-> ->]; [done|by exists a'].
Qed.

(** An image of a header and eight bytes, hashed after a seed of two. *)
Definition hash_config : config :=
  config_of ["bl2_img_hash_accel"] [("bl2_bootutil_img_hash_addr", 0x101)]%string.
Definition hash_header : list Z := le_bytes 4 IMAGE_MAGIC ++ le_bytes 4 0x800 ++ le_bytes 2 32 ++ le_bytes 2 0 ++ le_bytes 4 8 ++
  replicate 16 0.
Definition hash_guest : ram_guest :=
  guest_of [0; 0x400; 0; 0; 0; 0x200; 0x300; 0x100]
    [(0x204, le_bytes 4 0x900); (0x208, le_bytes 4 0x700); (0x20c, le_bytes 4 2); (0x400, hash_header); (0x700, [1; 2]);
     (0x800, hash_header ++ range 8)].

Lemma accel_img_hash_witness :
  exists a', try_bl2_img_hash_accel_at_pc (context := ram_context 0x1000) hash_config 0x100 (new_accel, hash_guest) =
    (true, (a', hash_answered (context := ram_context 0x1000) hash_guest (SHA256 ([1; 2] ++ hash_header ++ range 8)) 0x900)).
Proof.
  refine (accel_img_hash (context := ram_context 0x1000) (stable := ram_stable 0x1000) (reads := ram_reads 0x1000)
    hash_config 0x100 new_accel hash_guest (MkImageHeader IMAGE_MAGIC 0x800 32 0 8 0) (hash_header ++ range 8) [1; 2] 0x900 _ _ _ _ _);
    [reflexivity|reflexivity|done| |vm_compute; reflexivity].
  constructor.
  - exists hash_header. split; vm_compute; reflexivity.
  - by vm_compute.
  - vm_compute. reflexivity.
  - done.
  - by vm_compute.
  - exists false. vm_compute. reflexivity.
  - by vm_compute.
  - vm_compute. reflexivity.
  - exists 0x700. split; [vm_compute; reflexivity|right]. split; [done|]. exists false. vm_compute. reflexivity.
Defined.

(** C12. Decrypting an image in one run is decrypting it piece by piece.  With a key
    that was captured, the handler for whole images writes, over the encrypted image,
    bytes of which the handler for buffers writes, for each piece of the image at its
    offset and place in a block, exactly its share over that piece, in any state of
    the accelerator and on any guest whose registers can be set and that holds the
    piece. *)
Theorem accel_decrypt_pieces {G} {context : SemanticContext G} {stable : StableGuest G} cfg curr_img addr size key input :
  key_ok key -> is_u32 size -> vec_size input = size ->
  exists output, vec_size output = size /\
    (forall a g alias, guest_read_bytes_or_alias addr size g = Some (input, alias) ->
      snd (fst (guest_write_bytes_or_alias addr output g)) = true ->
      exists a', decrypt_image cfg curr_img addr size key (a, g) = (true, (a', decrypt_answered addr size output g))) /\
    (forall a g alias off n, 0 <= off -> 0 <= n -> off + n <= size ->
      guest_read_bytes_or_alias (addr + off) n g = Some (slice off n input, alias) ->
      snd (fst (guest_write_bytes_or_alias (addr + off) (slice off n output) g)) = true ->
      exists a', decrypt_buffer cfg off n (off mod 16) (addr + off) key (a, g) =
        (true, (a', decrypt_answered (addr + off) n (slice off n output) g))).
Proof.
  intros Hk [Hs1 Hs2] Hl. exists (plain key 0 input). split; [by rewrite plain_size|split].
  - intros a g alias Hr Hw.
    pose proof (decrypt_image_spec cfg (fun _ => True) g curr_img addr size key input alias Hk Hr Hw (a, g)) as H.
    destruct (decrypt_image _ _ _ _ _ _) as [ok [a' g']]. cbn in H. destruct H as [-> ->]; [done|by exists a'].
  - intros a g alias off n Ho Hn Hend Hr Hw. rewrite <-(plain_slice key off n input) in * by lia.
    assert (is_u32 off) as Hoff by (split; lia).
    pose proof (decrypt_buffer_spec cfg (fun _ => True) g off n (addr + off) key _ alias Hk Hoff Hr Hw (a, g)) as H.
    destruct (decrypt_buffer _ _ _ _ _ _ _) as [ok [a' g']]. cbn in H. destruct H as [-> ->]; [done|by exists a'].
Qed.

(** A key of 16 bytes and an image of 40: the whole, and the 9 bytes at 21. *)
Definition some_key : Bl2EncKeyCacheEntry := MkKey true 16 (range 32).
Definition image_guest : ram_guest := guest_of [0; 0; 0; 0; 0; 0; 0x300; 0x100] [(0x400, range 40)].

Lemma accel_decrypt_pieces_witness : exists output a' a'',
  decrypt_image (context := ram_context 0x1000) hash_config 0 0x400 40 some_key (new_accel, image_guest) =
    (true, (a', decrypt_answered (context := ram_context 0x1000) 0x400 40 output image_guest)) /\
  decrypt_buffer (context := ram_context 0x1000) hash_config 21 9 5 (0x400 + 21) some_key (new_accel, image_guest) =
    (true, (a'', decrypt_answered (context := ram_context 0x1000) (0x400 + 21) 9 (slice 21 9 output) image_guest)).
Proof.
  assert (key_ok some_key) as Hk.
  { split; [apply list_elem_of_here|]. split; [done|]. apply Forall_forall. intros x Hx%elem_of_range. split; lia. }
  destruct (accel_decrypt_pieces (context := ram_context 0x1000) (stable := ram_stable 0x1000) hash_config 0 0x400 40 some_key
    (range 40) Hk ltac:(split; lia) eq_refl) as (output & Hsize & Hwhole & Hpiece).
  assert (forall addr bs, in_ram 0x1000 addr (vec_size bs) = true ->
    snd (fst (guest_write_bytes_or_alias (SemanticContext := ram_context 0x1000) addr bs image_guest)) = true) as Hw.
  { intros addr bs Hin. cbn. unfold ram_write. by rewrite Hin. }
  destruct (Hwhole new_accel image_guest false) as [a' E1]; [vm_compute; reflexivity|apply Hw; by rewrite Hsize|].
  destruct (Hpiece new_accel image_guest false 21 9) as [a'' E2];
    [lia..|vm_compute; reflexivity|apply Hw; unfold vec_size; rewrite slice_length by (rewrite ?Hsize; lia); done|].
  change (21 mod 16) with 5 in E2. exists output, a', a''. exact (conj E1 E2).
Defined.
