(* ===== verification/ArmCpu.v ===== *)
(** The processors and devices of the emulator that are wrapped as modules
    (cortex-a720ae.h, cortex-r82.h, arm-smmuv3.h and sbsa_gwdt.h under
    qemu-components/): what they set on the emulator's device and how its lines are
    wired, and how the A720AE carries out exclusive stores. *)

From stdpp Require Import strings.
From S2P Require Import Prelude Bytes Vectors Tlm.

(** * What is set on a device *)

(** A property of the device; a link is to an object the module is given. *)
Inductive property :=
| prop_int (name : string) (value : Z)
| prop_uint (name : string) (value : Z)
| prop_bool (name : string) (value : bool)
| prop_str (name value : string)
| prop_link (name : string) (object : nat)
| aarch64_mode (on : bool).

(** A line of the module, and the line of the device it is connected to. *)
Inductive line := gpio (socket : string) (n : Z) | named_gpio (socket device_line : string) (n : Z)
| sysbus_mmio (socket : string) (n : Z) | sysbus_irq (socket : string) (n : Z).

(** A parameter: its value, and the default, whose keeping can be asked for. *)
Record param (T : Type) := MkParam { param_value : T; is_default_value : bool }.
Arguments MkParam {T}.
Arguments param_value {T}.
Arguments is_default_value {T}.

(** [cortex-a720ae.h: get_psci_conduit_val] *)
Definition get_psci_conduit_val (p_psci_conduit : string) : Z :=
  if String.eqb p_psci_conduit "disabled" then 0
  else if String.eqb p_psci_conduit "smc" then 1
  else if String.eqb p_psci_conduit "hvc" then 2
  else 0.

Definition unless_default {T} (p : param T) (f : T -> property) : list property :=
  if is_default_value p then [] else [f (param_value p)].

Module A720AE.
(** [cortex-a720ae.h: "cci::cci_param<unsigned int> p_mp_affinity;" .. "cci::cci_param<uint64_t> p_cntfrq_hz;"] *)
Record params := Params {
  p_mp_affinity : param Z;
  p_has_el2 : bool;
  p_has_el3 : bool;
  p_start_powered_off : bool;
  p_en_pauth : param bool;
  p_psci_conduit : string;
  p_rvbar : Z;
  p_cntfrq_hz : param Z
}.

(** [cortex-a720ae.h: before_end_of_elaboration] *)
Definition before_end_of_elaboration (p : params) : list property :=
  aarch64_mode true ::
  unless_default (p_mp_affinity p) (prop_int "mp-affinity") ++
  [prop_bool "has_el2" (p_has_el2 p); prop_bool "has_el3" (p_has_el3 p)] ++
  unless_default (p_en_pauth p) (prop_bool "pauth") ++
  [prop_bool "start-powered-off" (p_start_powered_off p); prop_int "psci-conduit" (get_psci_conduit_val (p_psci_conduit p));
   prop_int "rvbar" (p_rvbar p)] ++
  unless_default (p_cntfrq_hz p) (prop_int "cntfrq").

(** [cortex-a720ae.h: end_of_elaboration] *)
Definition end_of_elaboration : list line :=
  [gpio "irq_in" 0; gpio "fiq_in" 1; gpio "virq_in" 2; gpio "vfiq_in" 3;
   gpio "irq_timer_phys_out" 0; gpio "irq_timer_virt_out" 1; gpio "irq_timer_hyp_out" 2; gpio "irq_timer_sec_out" 3;
   named_gpio "gicv3_maintenance_interrupt" "gicv3-maintenance-interrupt" 0; named_gpio "pmu_interrupt" "pmu-interrupt" 0].
End A720AE.

Module R82.
(** [cortex-r82.h: "cci::cci_param<unsigned int> p_mp_affinity;" .. "cci::cci_param<std::string> p_psci_conduit;"] *)
Record params := Params {
  p_mp_affinity : param Z;
  p_start_powered_off : bool;
  p_rvbar : Z;
  p_cntfrq_hz : param Z;
  p_has_el2 : bool;
  p_psci_conduit : string
}.

(** [cortex-r82.h: before_end_of_elaboration] *)
Definition before_end_of_elaboration (p : params) : list property :=
  aarch64_mode true ::
  unless_default (p_mp_affinity p) (prop_int "mp-affinity") ++
  [prop_bool "start-powered-off" (p_start_powered_off p); prop_int "rvbar" (p_rvbar p);
   prop_int "psci-conduit" (get_psci_conduit_val (p_psci_conduit p))] ++
  unless_default (p_cntfrq_hz p) (prop_int "cntfrq").

(** [cortex-r82.h: end_of_elaboration] *)
Definition end_of_elaboration : list line :=
  [gpio "irq_in" 0; gpio "fiq_in" 1; gpio "virq_in" 2; gpio "vfiq_in" 3;
   gpio "irq_timer_phys_out" 0; gpio "irq_timer_virt_out" 1; gpio "irq_timer_hyp_out" 2; gpio "irq_timer_sec_out" 3].

(** The parameter is declared and documented, and nothing reads it. *)
Lemma has_el2_unused mp spo rvbar cntfrq psci :
  before_end_of_elaboration (Params mp spo rvbar cntfrq true psci) =
  before_end_of_elaboration (Params mp spo rvbar cntfrq false psci).
Proof. reflexivity. Qed.
End R82.

Module SmmuV3.
(** The system memory, as an object. *)
Definition sysmem : nat := 0.

(** [arm-smmuv3.h: before_end_of_elaboration] *)
Definition before_end_of_elaboration (p_stage : string) : list property :=
  (if String.eqb p_stage "" then [] else [prop_str "stage" p_stage]) ++
  [prop_link "memory" sysmem; prop_link "secure-memory" sysmem].

(** With a PCI host, its primary bus; [None] when the host has none, which is fatal. *)
(** [arm-smmuv3.h: end_of_elaboration] *)
Definition end_of_elaboration (pci_host : option (option nat)) : option (list property * list line) :=
  match pci_host with
  | Some None => None
  | Some (Some primary_bus) =>
      Some ([prop_bool "smmu_per_bus" true; prop_link "primary-bus" primary_bus],
        sysbus_mmio "mem" 0 :: map (sysbus_irq "irq_out") (range 4))
  | None => Some ([], sysbus_mmio "mem" 0 :: map (sysbus_irq "irq_out") (range 4))
  end.
End SmmuV3.

Module SbsaGwdt.
(** [sbsa_gwdt.h: before_end_of_elaboration] *)
Definition before_end_of_elaboration (p_clock_frequency : Z) : list property :=
  [prop_uint "clock-frequency" p_clock_frequency].

(** [sbsa_gwdt.h: end_of_elaboration] *)
Definition end_of_elaboration : list line :=
  [sysbus_mmio "refresh_mem" 0; sysbus_mmio "control_mem" 1; sysbus_irq "irq_out" 0].
End SbsaGwdt.

(** * Exclusive stores *)

Inductive exclusive_store_status := EXCLUSIVE_STORE_NA | EXCLUSIVE_STORE_SUCCESS | EXCLUSIVE_STORE_FAILURE.

(** What the module asks of the emulator's CPU, and the extension of a payload: the
    CPUs it went through, and the outcome the monitor sets. *)
Record arm_cpu := MkCpu {
  cpu_index : Z;
  is_in_exclusive_context : bool;
  exclusive_addr : Z;
  exclusive_val : Z;
  exit_loop : bool
}.

#[export] Instance eta_arm_cpu : Eta arm_cpu := fun c =>
  MkCpu (cpu_index c) (is_in_exclusive_context c) (exclusive_addr c) (exclusive_val c) (exit_loop c).

Record extension := MkExtension { hops : list Z; store_status : exclusive_store_status }.

(** [cortex-a720ae.h: add_exclusive_ext] *)
Definition add_exclusive_ext (c : arm_cpu) : option extension := Some (MkExtension [cpu_index c] EXCLUSIVE_STORE_NA).

(** The bytes from the last one down. *)
(** [cortex-a720ae.h: extract_data_from_payload] *)
Definition extract_data_from_payload (data : list Z) : Z := foldr (fun b ret => Z.lor (shl 64 ret 8) b) 0 data.

(** [cortex-a720ae.h: initiator_customize_tlm_payload] *)
Definition initiator_customize_tlm_payload (c : arm_cpu) (addr : Z) (ext : option extension) : option extension :=
  if negb (is_in_exclusive_context c) then ext
  else if negb (addr =? exclusive_addr c) then ext
  else add_exclusive_ext c.

(** The mask: the shift is of an [int], and has no meaning from 32 bits on. *)
(** [cortex-a720ae.h: "uint64_t mask = (payload.get_data_length() == 8) ?" .. "- 1;"] *)
Definition data_mask (len : Z) : option Z :=
  if len =? 8 then Some (u64 (-1))
  else if 8 * len <? 31 then Some (u64 (Z.shiftl 1 (8 * len) - 1))
  else None.

(** The outcome: the CPU, the extension and whether the status is set to OK; [None]
    where the mask has no meaning. *)
(** [cortex-a720ae.h: initiator_tidy_tlm_payload] *)
Definition initiator_tidy_tlm_payload (c : arm_cpu) (cmd : tlm_command) (data : list Z) (status : tlm_response_status)
    (ext : option extension) : option (arm_cpu * tlm_response_status * option extension) :=
  match ext with
  | None => Some (c, status, None)
  | Some ext =>
      match cmd, store_status ext with
      | TLM_WRITE_COMMAND, EXCLUSIVE_STORE_FAILURE =>
          match data_mask (vec_size data) with
          | None => None
          | Some mask =>
              let mem_val := extract_data_from_payload data in
              let c := if Z.land (exclusive_val c) mask =? mem_val
                       then c <| exclusive_val ::= not64 |> <| exit_loop := true |> else c in
              Some (c, TLM_OK_RESPONSE, None)
          end
      | _, _ => Some (c, status, None)
      end
  end.

(** * Lemmas *)

Lemma extract_data_spec data : bytes_ok data -> vec_size data <= 8 -> extract_data_from_payload data = le_val data.
Proof.
  unfold vec_size. induction 1 as [|b data Hb Hd IH]; [done|]. cbn [length foldr le_val extract_data_from_payload]. intros Hl.
  change (foldr _ 0 data) with (extract_data_from_payload data). rewrite IH by lia.
  pose proof (le_val_range data Hd) as [Hr1 Hr2].
  assert (2 ^ (8 * Z.of_nat (length data)) <= 2 ^ 56) as Hp by (apply Z.pow_le_mono_r; lia).
  rewrite shl_mul by lia. rewrite <-Z.shiftl_mul_pow2, lor_pack by (done || lia). lia.
Qed.

Lemma data_mask_spec len : len ∈ [1; 2; 8] -> data_mask len = Some (Z.ones (8 * len)).
Proof. rewrite !elem_of_cons. intros [->|[->|[->|H]]]; [done..|by inversion H]. Qed.

(** Inverting a value changes what the mask shows. *)
Lemma land_cnot_ones v n : 0 < n <= 64 -> Z.land (not64 v) (Z.ones n) <> Z.land v (Z.ones n).
Proof.
  intros Hn E. apply (f_equal (fun x => Z.testbit x 0)) in E. unfold cnot in E.
  rewrite !Z.land_spec, Z.ldiff_spec, !Z.ones_spec_low in E by lia. by destruct (Z.testbit v 0).
Qed.

(** The four bytes of a word exclusive store leave no mask: the shift is by the
    width of the type. *)
Lemma exclusive_store_word_undefined c data hops : vec_size data = 4 ->
  initiator_tidy_tlm_payload c TLM_WRITE_COMMAND data TLM_OK_RESPONSE (Some (MkExtension hops EXCLUSIVE_STORE_FAILURE)) = None.
Proof. intros E. unfold initiator_tidy_tlm_payload. cbn [store_status]. by rewrite E. Qed.

(** * Properties *)

(** An exclusive store that the monitor refused fails in the emulated CPU as well:
    the value it remembers from the load no longer agrees with the bytes it will
    compare, the store is tried again when they agreed before, the access itself ends
    without an error, and the payload goes back without the extension.  This holds for
    the sizes of a byte, a half word and a double word. *)
Theorem exclusive_store_fails c data status hops : bytes_ok data -> vec_size data ∈ [1; 2; 8] ->
  exists c', initiator_tidy_tlm_payload c TLM_WRITE_COMMAND data status (Some (MkExtension hops EXCLUSIVE_STORE_FAILURE)) =
      Some (c', TLM_OK_RESPONSE, None) /\
    Z.land (exclusive_val c') (Z.ones (8 * vec_size data)) <> le_val data /\
    (Z.land (exclusive_val c) (Z.ones (8 * vec_size data)) = le_val data -> exit_loop c' = true) /\
    (Z.land (exclusive_val c) (Z.ones (8 * vec_size data)) <> le_val data -> c' = c).
Proof.
  intros Hb Hl. assert (1 <= vec_size data <= 8) as Hr.
  { rewrite !elem_of_cons in Hl. destruct Hl as [->|[->|[->|Hl]]]; [lia..|by inversion Hl]. }
  unfold initiator_tidy_tlm_payload. cbn [store_status]. rewrite data_mask_spec by done. cbv zeta.
  rewrite extract_data_spec by (done || lia). eexists. split; [reflexivity|].
  destruct (Z.eqb_spec (Z.land (exclusive_val c) (Z.ones (8 * vec_size data))) (le_val data)) as [E|E]; [|done].
  split; [|done]. rewrite <-E. apply land_cnot_ones. lia.
Qed.

Lemma exclusive_store_fails_witness : exists c',
  initiator_tidy_tlm_payload (MkCpu 0 true 0x100 0x1234 false) TLM_WRITE_COMMAND [0x34; 0x12] TLM_GENERIC_ERROR_RESPONSE
    (Some (MkExtension [0] EXCLUSIVE_STORE_FAILURE)) = Some (c', TLM_OK_RESPONSE, None) /\
  Z.land (exclusive_val c') (Z.ones 16) <> 0x1234 /\
  (Z.land 0x1234 (Z.ones 16) = 0x1234 -> exit_loop c' = true) /\
  (Z.land 0x1234 (Z.ones 16) <> 0x1234 -> c' = MkCpu 0 true 0x100 0x1234 false).
Proof.
  apply (exclusive_store_fails (MkCpu 0 true 0x100 0x1234 false) [0x34; 0x12] TLM_GENERIC_ERROR_RESPONSE [0]).
  - repeat (apply Forall_cons; split; [by split|]). constructor.
  - apply list_elem_of_further, list_elem_of_here.
Defined.
