(* ===== verification/Json.v ===== *)
(** The text of the statistics and profile files: the lines that are written, and a
    parser of the JSON objects they make up, with unsigned numbers, truth values and
    texts without escapes. *)

From Stdlib Require Import Ascii NArith.
From stdpp Require Import strings.
From S2P Require Import Prelude.

Open Scope string_scope.

(** * Numbers *)

Definition digit (d : N) : ascii := ascii_of_N (if decide (d < 10)%N then 48 + d else 87 + d)%N.

(** The digits of a number in front of a text, the fuel one turn per bit. *)
Fixpoint digits (fuel : nat) (b n : N) (s : string) : string :=
  match fuel with
  | O => s
  | S fuel =>
      let s := String (digit (n mod b)) s in
      if decide (n / b = 0)%N then s else digits fuel b (n / b) s
  end.

Definition bits_of (n : N) : nat := S (N.to_nat (N.log2 n)).

(** [out << n], and [out << std::hex << n], for an unsigned integer. *)
Definition dec (v : Z) : string := let n := Z.to_N v in digits (bits_of n) 10 n "".
Definition hex (v : Z) : string := let n := Z.to_N v in digits (bits_of n) 16 n "".

(** * Lines *)

Definition dq : string := String "034"%char "".
Definition nl : string := String "010"%char "".
Definition quote (s : string) : string := dq ++ s ++ dq.

(** What a line, or a part of one, adds to the file. *)
Record line := MkLine { line_text : string }.

Definition separator (comma : bool) : string := if comma then "," ++ nl else nl.

Definition member (indent key value : string) (comma : bool) : line :=
  MkLine (indent ++ quote key ++ ": " ++ value ++ separator comma).

(** ["key": 12], ["key": "0x1f"], ["key": "text"] and ["key": true]. *)
Definition num (indent key : string) (v : Z) (comma : bool) : line := member indent key (dec v) comma.
Definition hexa (indent key : string) (v : Z) (comma : bool) : line := member indent key (quote ("0x" ++ hex v)) comma.
Definition text (indent key s : string) (comma : bool) : line := member indent key (quote s) comma.
Definition flag (indent key : string) (b : bool) (comma : bool) : line := member indent key (if b then "true" else "false") comma.

(** ["key": {], [{], [}] and empty lines. *)
Definition opens (indent key : string) : line := MkLine (indent ++ quote key ++ ": {" ++ nl).
Definition top : line := MkLine ("{" ++ nl).
Definition closes (indent : string) (comma : bool) : line := MkLine (indent ++ "}" ++ separator comma).
Definition blank : line := MkLine nl.

(** A member that is an object of its own. *)
Definition object (indent key : string) (sub : list line) (comma : bool) : list line :=
  opens indent key :: sub ++ [closes indent comma].

Definition file (ls : list line) : string := foldr (fun l s => line_text l ++ s) "" ls.

(** * Tokens *)

Inductive token := TOpen | TClose | TColon | TComma | TNum (n : N) | TStr (s : string) | TBool (b : bool).

Inductive mode := Outside | Quoted (rev : string) | Digits (n : N) | Letters (rev : string).

Definition is_space (c : ascii) : bool := let n := N_of_ascii c in (n =? 32)%N || (n =? 10)%N.
Definition is_digit (c : ascii) : bool := let n := N_of_ascii c in (48 <=? n)%N && (n <=? 57)%N.
Definition is_letter (c : ascii) : bool := let n := N_of_ascii c in (97 <=? n)%N && (n <=? 122)%N.

(** What a quoted text may hold: no quote, no backslash and no control character. *)
Definition is_plain (c : ascii) : bool := let n := N_of_ascii c in (32 <=? n)%N && negb (n =? 34)%N && negb (n =? 92)%N.

Definition punctuation (c : ascii) : option token :=
  let n := N_of_ascii c in
  if (n =? 123)%N then Some TOpen else if (n =? 125)%N then Some TClose
  else if (n =? 58)%N then Some TColon else if (n =? 44)%N then Some TComma else None.

Fixpoint rev_string (s r : string) : string := match s with "" => r | String c s => rev_string s (String c r) end.

Definition word (rev : string) : option token :=
  let s := rev_string rev "" in
  if String.eqb s "true" then Some (TBool true) else if String.eqb s "false" then Some (TBool false) else None.

(** What a number or a word that ends here is. *)
Definition pending (m : mode) : option (list token) :=
  match m with
  | Outside => Some []
  | Quoted _ => None
  | Digits n => Some [TNum n]
  | Letters rev => match word rev with Some t => Some [t] | None => None end
  end.

Definition both (before rest : option (list token)) : option (list token) :=
  match before, rest with Some ts, Some ts' => Some (ts ++ ts')%list | _, _ => None end.

Fixpoint lex (m : mode) (s : string) : option (list token) :=
  match s with
  | "" => pending m
  | String c s =>
      let start (_ : ()) :=
        if is_space c then lex Outside s
        else if (N_of_ascii c =? 34)%N then lex (Quoted "") s
        else if is_digit c then lex (Digits (N_of_ascii c - 48)) s
        else if is_letter c then lex (Letters (String c "")) s
        else match punctuation c with Some t => both (Some [t]) (lex Outside s) | None => None end in
      match m with
      | Outside => start ()
      | Quoted rev =>
          if (N_of_ascii c =? 34)%N then both (Some [TStr (rev_string rev "")]) (lex Outside s)
          else if is_plain c then lex (Quoted (String c rev)) s else None
      | Digits n => if is_digit c then lex (Digits (10 * n + (N_of_ascii c - 48))) s else both (pending m) (start ())
      | Letters rev => if is_letter c then lex (Letters (String c rev)) s else both (pending m) (start ())
      end
  end.

(** * Objects *)

Inductive json := JNum (n : N) | JStr (s : string) | JBool (b : bool) | JObj (members : list (string * json)).

(** A value at the front of the tokens, and what follows it. *)
Fixpoint parse_value (fuel : nat) (ts : list token) : option (json * list token) :=
  match fuel, ts with
  | S fuel, TNum n :: ts => Some (JNum n, ts)
  | S fuel, TStr s :: ts => Some (JStr s, ts)
  | S fuel, TBool b :: ts => Some (JBool b, ts)
  | S fuel, TOpen :: TClose :: ts => Some (JObj [], ts)
  | S fuel, TOpen :: ts =>
      match parse_members fuel ts with Some (ms, ts) => Some (JObj ms, ts) | None => None end
  | _, _ => None
  end
with parse_members (fuel : nat) (ts : list token) : option (list (string * json) * list token) :=
  match fuel, ts with
  | S fuel, TStr k :: TColon :: ts =>
      match parse_value fuel ts with
      | Some (v, TComma :: ts) =>
          match parse_members fuel ts with Some (ms, ts) => Some ((k, v) :: ms, ts) | None => None end
      | Some (v, TClose :: ts) => Some ([(k, v)], ts)
      | _ => None
      end
  | _, _ => None
  end.

(** The value a file holds, and nothing after it. *)
Definition parse (s : string) : option json :=
  match lex Outside s with
  | Some ts => match parse_value (S (length ts)) ts with Some (v, []) => Some v | _ => None end
  | None => None
  end.

(** The first member of a name. *)
Fixpoint find_member (k : string) (ms : list (string * json)) : option json :=
  match ms with
  | [] => None
  | (k', v) :: ms => if String.eqb k' k then Some v else find_member k ms
  end.

(** The value at the end of a path of names. *)
Fixpoint at_path (path : list string) (v : json) : option json :=
  match path, v with
  | [], _ => Some v
  | k :: path, JObj ms => match find_member k ms with Some v => at_path path v | None => None end
  | _ :: _, _ => None
  end.

Example parse_example :
  parse (file [top; text "  " "name" "x y" true; opens "  " "a"; num "    " "n" 120 true; hexa "    " "h" 0x1f false; closes "  " true;
    flag "  " "b" true false; closes "" false]) =
  Some (JObj [("name", JStr "x y"); ("a", JObj [("n", JNum 120); ("h", JStr "0x1f")]); ("b", JBool true)]).
Proof. by vm_compute. Qed.

(** * Reading what was written *)

(** A text in front of another one gives its tokens, then those of the other. *)
Definition lexes (t : string) (ts : list token) : Prop := forall s, lex Outside (t ++ s) = both (Some ts) (lex Outside s).

Fixpoint all_chars (p : ascii -> bool) (s : string) : bool := match s with "" => true | String c s => p c && all_chars p s end.

Definition plain (s : string) : bool := all_chars is_plain s.
Definition spaces (s : string) : bool := all_chars is_space s.

Lemma string_app_assoc (s t u : string) : (s ++ t) ++ u = s ++ (t ++ u).
Proof. induction s as [|c s IH]; [done|]. change (String c ((s ++ t) ++ u) = String c (s ++ (t ++ u))). by rewrite IH. Qed.

Lemma string_app_nil (s : string) : s ++ "" = s.
Proof. induction s as [|c s IH]; [done|]. change (String c (s ++ "") = String c s). by rewrite IH. Qed.

Lemma both_app ts ts' r : both (Some ts) (both (Some ts') r) = both (Some (ts ++ ts')%list) r.
Proof. destruct r as [r|]; [|done]. cbn. by rewrite app_assoc. Qed.

Lemma both_nil r : both (Some []) r = r.
Proof. by destruct r. Qed.

Lemma lexes_nil : lexes "" [].
Proof. intros s. by rewrite both_nil. Qed.

Lemma lexes_app t ts u us : lexes t ts -> lexes u us -> lexes (t ++ u) (ts ++ us).
Proof. intros Ht Hu s. by rewrite string_app_assoc, Ht, Hu, both_app. Qed.

Lemma lexes_spaces t : spaces t = true -> lexes t [].
Proof.
  intros Ht s. rewrite both_nil. induction t as [|c t IH]; [done|]. unfold spaces in *. cbn [all_chars] in Ht.
  apply andb_prop in Ht as [Hc Ht]. change (String c t ++ s) with (String c (t ++ s)). cbn [lex]. rewrite Hc. by apply IH.
Qed.

Lemma lex_quoted t rev s : plain t = true ->
  lex (Quoted rev) (t ++ dq ++ s) = both (Some [TStr (rev_string rev t)]) (lex Outside s).
Proof.
  revert rev. induction t as [|c t IH]; intros rev Ht; [done|]. unfold plain in *. cbn [all_chars] in Ht. apply andb_prop in Ht as [Hc Ht].
  change (String c t ++ dq ++ s) with (String c (t ++ dq ++ s)). cbn [lex]. rewrite Hc. unfold is_plain in Hc.
  replace (N_of_ascii c =? 34)%N with false by (destruct (_ =? 34)%N; [by rewrite andb_false_r in Hc|done]). by rewrite IH.
Qed.

Lemma lexes_quote t : plain t = true -> lexes (quote t) [TStr t].
Proof. intros Ht s. unfold quote. rewrite !string_app_assoc. by apply (lex_quoted t ""). Qed.

(** * Reading numbers *)

Lemma written_digits_app fuel b n s r : digits fuel b n s ++ r = digits fuel b n (s ++ r).
Proof. revert n s. induction fuel as [|fuel IH]; intros n s; [done|]. cbn [digits]. case_decide; [done|]. apply IH. Qed.

Lemma digit_read d : (d < 10)%N -> is_digit (digit d) = true /\ (N_of_ascii (digit d) - 48 = d)%N.
Proof.
  intros Hd. assert (d = 0 \/ d = 1 \/ d = 2 \/ d = 3 \/ d = 4 \/ d = 5 \/ d = 6 \/ d = 7 \/ d = 8 \/ d = 9)%N as Hc by lia.
  by repeat destruct Hc as [->|Hc]; [..|subst d].
Qed.

Lemma digit_plain d : (d < 16)%N -> is_plain (digit d) = true.
Proof.
  intros Hd. assert (d = 0 \/ d = 1 \/ d = 2 \/ d = 3 \/ d = 4 \/ d = 5 \/ d = 6 \/ d = 7 \/ d = 8 \/ d = 9 \/ d = 10 \/ d = 11 \/
    d = 12 \/ d = 13 \/ d = 14 \/ d = 15)%N as Hc by lia.
  by repeat destruct Hc as [->|Hc]; [..|subst d].
Qed.

Lemma bits_enough n : (n < 2 ^ N.of_nat (bits_of n))%N.
Proof.
  unfold bits_of. rewrite Nat2N.inj_succ, N2Nat.id. destruct (decide (n = 0)%N) as [->|Hn]; [done|].
  apply N.log2_spec. lia.
Qed.

(** The digits of a number are read as the number, after what was read before. *)
Lemma lex_digits fuel n s : (n < 2 ^ N.of_nat fuel)%N ->
  exists k, forall m, lex (Digits m) (digits fuel 10 n s) = lex (Digits (m * 10 ^ k + n)) s.
Proof.
  revert n s. induction fuel as [|fuel IH]; intros n s Hn.
  { exists 0%N. intros m. change (2 ^ N.of_nat 0)%N with 1%N in Hn. cbn [digits]. do 2 f_equal. rewrite N.pow_0_r. lia. }
  cbn [digits]. rewrite Nat2N.inj_succ, N.pow_succ_r' in Hn.
  pose proof (N.div_mod n 10 ltac:(lia)) as Hd. pose proof (N.mod_lt n 10 ltac:(lia)) as Hm.
  destruct (digit_read (n mod 10) Hm) as [Hg Hv].
  assert (forall m, lex (Digits m) (String (digit (n mod 10)) s) = lex (Digits (10 * m + n mod 10)) s) as Hone.
  { intros m. cbn [lex]. by rewrite Hg, Hv. }
  case_decide as Hz.
  - exists 1%N. intros m. rewrite Hone. do 2 f_equal. rewrite N.pow_1_r. lia.
  - destruct (IH (n / 10)%N (String (digit (n mod 10)) s)) as [k Hk]; [apply N.Div0.div_lt_upper_bound; lia|].
    exists (N.succ k). intros m. rewrite Hk, Hone. do 2 f_equal. rewrite N.pow_succ_r'. lia.
Qed.

Lemma digits_head fuel n s : exists d r, (d < 10)%N /\ digits (S fuel) 10 n s = String (digit d) r.
Proof.
  revert n s. induction fuel as [|fuel IH]; intros n s; cbn [digits]; (case_decide; [by exists (n mod 10)%N, s; split; [apply N.mod_lt|]|]).
  - exists (n mod 10)%N, s. split; [by apply N.mod_lt|done].
  - apply IH.
Qed.

Lemma lex_start_digit c s : is_digit c = true -> lex Outside (String c s) = lex (Digits 0) (String c s).
Proof.
  intros Hc. cbn [lex]. rewrite Hc. unfold is_digit in Hc. unfold is_space.
  replace ((_ =? 32)%N || _) with false by lia. replace (N_of_ascii c =? 34)%N with false by lia. done.
Qed.

Definition no_digit (t : string) : bool := match t with "" => false | String c _ => negb (is_digit c) end.

(** A number, and what ends it. *)
Lemma lexes_dec v t ts : no_digit t = true -> lexes t ts -> lexes (dec v ++ t) (TNum (Z.to_N v) :: ts).
Proof.
  intros Hd Ht s. rewrite string_app_assoc. unfold dec. cbv zeta. rewrite written_digits_app. change ("" ++ (t ++ s)) with (t ++ s). set (n := Z.to_N v).
  destruct (digits_head (N.to_nat (N.log2 n)) n (t ++ s)) as (d & r & Hd10 & E). fold (bits_of n) in E. rewrite E.
  rewrite lex_start_digit by (by apply digit_read). rewrite <-E. destruct (lex_digits (bits_of n) n (t ++ s) (bits_enough n)) as [k Hk].
  rewrite Hk. destruct t as [|c t]; [done|]. specialize (Ht s). change (String c t ++ s) with (String c (t ++ s)) in *.
  cbn in Hd. apply negb_true_iff in Hd. change (TNum n :: ts) with ([TNum n] ++ ts)%list. rewrite <-both_app, <-Ht.
  cbn [lex pending]. by rewrite Hd.
Qed.

Lemma digits_plain fuel b n s : (1 < b <= 16)%N -> plain s = true -> plain (digits fuel b n s) = true.
Proof.
  intros Hb. revert n s. induction fuel as [|fuel IH]; intros n s Hs; [done|]. cbn [digits].
  assert (plain (String (digit (n mod b)) s) = true) as Hc.
  { cbn. rewrite digit_plain; [done|]. pose proof (N.mod_lt n b ltac:(lia)). lia. }
  case_decide; [done|]. by apply IH.
Qed.

Lemma hex_text_plain v : plain ("0x" ++ hex v) = true.
Proof. change (plain (hex v) = true). by apply digits_plain. Qed.

(** * Reading lines *)

Definition comma_tokens (comma : bool) : list token := if comma then [TComma] else [].

Lemma lexes_separator comma : lexes (separator comma) (comma_tokens comma) /\ no_digit (separator comma) = true.
Proof. by destruct comma; split; try done; intros s; rewrite ?both_nil. Qed.

(** A member, its value and what ends it taken together. *)
Lemma lexes_member indent key value comma ts : spaces indent = true -> plain key = true ->
  lexes (value ++ separator comma) ts -> lexes (line_text (member indent key value comma)) (TStr key :: TColon :: ts).
Proof.
  intros Hi Hk Hv. change (TStr key :: TColon :: ts) with ([] ++ [TStr key] ++ [TColon] ++ ts)%list.
  apply lexes_app; [by apply lexes_spaces|]. apply lexes_app; [by apply lexes_quote|]. apply lexes_app; [|done].
  intros s. reflexivity.
Qed.

Lemma lexes_num indent key v comma : spaces indent = true -> plain key = true ->
  lexes (line_text (num indent key v comma)) (TStr key :: TColon :: TNum (Z.to_N v) :: comma_tokens comma).
Proof. intros. apply lexes_member; [done..|]. destruct (lexes_separator comma). by apply lexes_dec. Qed.

Lemma lexes_text indent key s comma : spaces indent = true -> plain key = true -> plain s = true ->
  lexes (line_text (text indent key s comma)) (TStr key :: TColon :: TStr s :: comma_tokens comma).
Proof.
  intros. apply lexes_member; [done..|]. apply (lexes_app _ [TStr s]); [by apply lexes_quote|apply lexes_separator].
Qed.

Lemma lexes_flag indent key b comma : spaces indent = true -> plain key = true ->
  lexes (line_text (flag indent key b comma)) (TStr key :: TColon :: TBool b :: comma_tokens comma).
Proof. intros. apply lexes_member; [done..|]. 
  change (TBool b :: comma_tokens comma) with ([TBool b] ++ comma_tokens comma)%list. intros s.
  rewrite <-both_app, <-(proj1 (lexes_separator comma)). by destruct b, comma.
Qed.

Lemma lexes_opens indent key : spaces indent = true -> plain key = true ->
  lexes (line_text (opens indent key)) [TStr key; TColon; TOpen].
Proof.
  intros Hi Hk. change [TStr key; TColon; TOpen] with ([] ++ [TStr key] ++ [TColon; TOpen])%list.
  apply lexes_app; [by apply lexes_spaces|]. apply lexes_app; [by apply lexes_quote|]. intros s.
  change (lex Outside ((": {" ++ nl) ++ s)) with (both (Some [TColon]) (both (Some [TOpen]) (lex Outside s))). apply both_app.
Qed.

Lemma lexes_closes indent comma : spaces indent = true -> lexes (line_text (closes indent comma)) (TClose :: comma_tokens comma).
Proof.
  intros Hi. change (TClose :: comma_tokens comma) with ([] ++ [TClose] ++ comma_tokens comma)%list.
  apply lexes_app; [by apply lexes_spaces|]. apply lexes_app; [by intros s|apply lexes_separator].
Qed.

(** * Reading objects *)

Inductive value : json -> list token -> Prop :=
| value_num n : value (JNum n) [TNum n]
| value_str s : value (JStr s) [TStr s]
| value_bool b : value (JBool b) [TBool b]
| value_none : value (JObj []) [TOpen; TClose]
| value_obj ms ts : members ms ts -> value (JObj ms) (TOpen :: ts ++ [TClose])
with members : list (string * json) -> list token -> Prop :=
| members_one k v ts : value v ts -> members [(k, v)] (TStr k :: TColon :: ts)
| members_more k v ts ms ts' : value v ts -> members ms ts' -> members ((k, v) :: ms) (TStr k :: TColon :: ts ++ TComma :: ts').

Scheme value_members := Induction for value Sort Prop with members_value := Induction for members Sort Prop.

Lemma members_start ms ts : members ms ts -> exists k r, ts = TStr k :: r.
Proof. by intros []; eexists _, _. Qed.

(** What the grammar describes the parser finds; the fuel, one turn per token, is enough. *)
Lemma parse_members_spec ms ts : members ms ts -> forall fuel rest, (length ts <= fuel)%nat ->
  parse_members fuel (ts ++ TClose :: rest) = Some (ms, rest).
Proof.
  apply (members_value (fun v ts _ => forall fuel rest, (length ts <= fuel)%nat -> parse_value fuel (ts ++ rest) = Some (v, rest))
    (fun ms ts _ => forall fuel rest, (length ts <= fuel)%nat -> parse_members fuel (ts ++ TClose :: rest) = Some (ms, rest))).
  - intros n [|fuel] rest Hf; [cbn in Hf; lia|done].
  - intros s [|fuel] rest Hf; [cbn in Hf; lia|done].
  - intros b [|fuel] rest Hf; [cbn in Hf; lia|done].
  - intros [|fuel] rest Hf; [cbn in Hf; lia|done].
  - intros ms' ts' Hm IH [|fuel] rest Hf; [cbn in Hf; lia|]. cbn [length] in Hf. rewrite length_app in Hf.
    rewrite <-app_comm_cons, <-app_assoc. destruct (members_start _ _ Hm) as (k & r & ->). cbn [app parse_value].
    change (TStr k :: (r ++ TClose :: rest)%list) with ((TStr k :: r) ++ TClose :: rest)%list. by rewrite IH by lia.
  - intros k v ts' Hv IH [|fuel] rest Hf; [cbn in Hf; lia|]. cbn [length] in Hf. cbn [app parse_members]. by rewrite IH by lia.
  - intros k v ts' ms' ts'' Hv IHv Hm IHm [|fuel] rest Hf; [cbn in Hf; lia|]. cbn [length] in Hf. rewrite length_app in Hf. cbn [length] in Hf.
    rewrite <-!app_comm_cons, <-app_assoc, <-app_comm_cons. cbn [parse_members]. rewrite IHv by lia. by rewrite IHm by lia.
Qed.

(** * Files *)

(** The lines hold the members of an object. *)
Definition body (ls : list line) (ms : list (string * json)) : Prop := exists ts, lexes (file ls) ts /\ members ms ts.

Lemma file_append ls ls' : file (ls ++ ls') = file ls ++ file ls'.
Proof. induction ls as [|l ls IH]; [done|]. cbn [app file foldr]. fold (file (ls ++ ls')). rewrite IH. by rewrite string_app_assoc. Qed.

Lemma parse_file ls ms : body ls ms -> parse (file (top :: ls ++ [closes "" false])) = Some (JObj ms).
Proof.
  intros (ts & Hl & Hm). unfold parse.
  assert (lex Outside (file (top :: ls ++ [closes "" false])) = Some (TOpen :: ts ++ [TClose])%list) as ->.
  { change (file (top :: ls ++ [closes "" false])) with (String "{" (String "010" (file (ls ++ [closes "" false])))).
    rewrite file_append. change (lex Outside (String "{" (String "010" (file ls ++ file [closes "" false]))))
      with (both (Some [TOpen]) (lex Outside (file ls ++ file [closes "" false]))). by rewrite Hl. }
  destruct (members_start _ _ Hm) as (k & r & ->). cbn [length app].
  change (TOpen :: TStr k :: (r ++ [TClose])%list) with (TOpen :: ((TStr k :: r) ++ TClose :: [])%list).
  pose proof (parse_members_spec _ _ Hm (S (S (length (r ++ [TClose])))) [] ltac:(rewrite length_app; cbn; lia)) as Hp.
  cbn [parse_value app] in Hp |- *. by rewrite Hp.
Qed.

Lemma file_cons l ls ts ts' : lexes (line_text l) ts -> lexes (file ls) ts' -> lexes (file (l :: ls)) (ts ++ ts').
Proof. apply lexes_app. Qed.

Lemma file_one l ts : lexes (line_text l) ts -> lexes (file [l]) ts.
Proof. intros H. cbn [file foldr]. by rewrite string_app_nil. Qed.

Lemma file_app ls ls' ts ts' : lexes (file ls) ts -> lexes (file ls') ts' -> lexes (file (ls ++ ls')) (ts ++ ts').
Proof. intros. rewrite file_append. by apply lexes_app. Qed.

(** One member after the other.  Sub-objects are bodies of their own. *)
Lemma body_scalar l k v t ls ms : lexes (line_text l) (TStr k :: TColon :: t :: [TComma]) -> value v [t] -> body ls ms ->
  body (l :: ls) ((k, v) :: ms).
Proof.
  intros Hl Hv (ts & Hls & Hm). eexists. split; [by apply (file_cons l ls)|]. by apply (members_more k v [t]).
Qed.

Lemma body_last l k v t : lexes (line_text l) (TStr k :: TColon :: t :: []) -> value v [t] -> body [l] [(k, v)].
Proof. intros Hl Hv. eexists. split; [by apply file_one|]. by apply (members_one k v [t]). Qed.

Lemma body_num indent k v ls ms : spaces indent = true -> plain k = true -> body ls ms ->
  body (num indent k v true :: ls) ((k, JNum (Z.to_N v)) :: ms).
Proof. intros. eapply body_scalar; [by apply lexes_num|constructor|done]. Qed.

Lemma body_num_last indent k v : spaces indent = true -> plain k = true -> body [num indent k v false] [(k, JNum (Z.to_N v))].
Proof. intros. eapply body_last; [by apply lexes_num|constructor]. Qed.

Lemma body_text indent k s ls ms : spaces indent = true -> plain k = true -> plain s = true -> body ls ms ->
  body (text indent k s true :: ls) ((k, JStr s) :: ms).
Proof. intros. eapply body_scalar; [by apply lexes_text|constructor|done]. Qed.

Lemma body_text_last indent k s : spaces indent = true -> plain k = true -> plain s = true -> body [text indent k s false] [(k, JStr s)].
Proof. intros. eapply body_last; [by apply lexes_text|constructor]. Qed.

Lemma body_hexa indent k v ls ms : spaces indent = true -> plain k = true -> body ls ms ->
  body (hexa indent k v true :: ls) ((k, JStr ("0x" ++ hex v)) :: ms).
Proof. intros. by apply body_text; [..|apply hex_text_plain|]. Qed.

Lemma body_hexa_last indent k v : spaces indent = true -> plain k = true -> body [hexa indent k v false] [(k, JStr ("0x" ++ hex v))].
Proof. intros. apply body_text_last; [done..|apply hex_text_plain]. Qed.

Lemma body_flag indent k b ls ms : spaces indent = true -> plain k = true -> body ls ms ->
  body (flag indent k b true :: ls) ((k, JBool b) :: ms).
Proof. intros. eapply body_scalar; [by apply lexes_flag|constructor|done]. Qed.

(** The lines hold the members of an object that may have none. *)
Definition body_or_none (ls : list line) (ms : list (string * json)) : Prop :=
  exists ts, lexes (file ls) ts /\ (members ms ts \/ ms = [] /\ ts = []).

Lemma body_some ls ms : body ls ms -> body_or_none ls ms.
Proof. intros (ts & Hl & Hm). exists ts. eauto. Qed.

Lemma value_object ms ts : members ms ts \/ ms = [] /\ ts = [] -> value (JObj ms) (TOpen :: ts ++ [TClose]).
Proof. intros [Hm|[-> ->]]; by constructor. Qed.

Lemma lexes_object indent key sub comma ts : spaces indent = true -> plain key = true -> lexes (file sub) ts ->
  lexes (file (object indent key sub comma)) (TStr key :: TColon :: (TOpen :: ts ++ [TClose]) ++ comma_tokens comma)%list.
Proof.
  intros Hi Hk Hs.
  replace (TStr key :: TColon :: (TOpen :: ts ++ [TClose]) ++ comma_tokens comma)%list
    with ([TStr key; TColon; TOpen] ++ ts ++ TClose :: comma_tokens comma)%list by (cbn [app]; by rewrite <-app_assoc).
  apply file_cons; [by apply lexes_opens|]. apply file_app; [done|]. by apply file_one, lexes_closes.
Qed.

Lemma body_object indent k sub ms' ls ms : spaces indent = true -> plain k = true ->
  body_or_none sub ms' -> body ls ms -> body (object indent k sub true ++ ls) ((k, JObj ms') :: ms).
Proof.
  intros Hi Hk (ts' & Hsub & Hm') (ts & Hls & Hm).
  exists (TStr k :: TColon :: (TOpen :: ts' ++ [TClose]) ++ TComma :: ts)%list. split; [|by apply members_more; [apply value_object|]].
  replace (TStr k :: TColon :: (TOpen :: ts' ++ [TClose]) ++ TComma :: ts)%list
    with ((TStr k :: TColon :: (TOpen :: ts' ++ [TClose]) ++ comma_tokens true) ++ ts)%list by (cbn [app comma_tokens]; by rewrite <-!app_assoc).
  apply file_app; [by apply lexes_object|done].
Qed.

Lemma body_object_last indent k sub ms' : spaces indent = true -> plain k = true ->
  body_or_none sub ms' -> body (object indent k sub false) [(k, JObj ms')].
Proof.
  intros Hi Hk (ts' & Hsub & Hm'). eexists. split; [by apply lexes_object|]. cbn [comma_tokens]. rewrite app_nil_r.
  by apply members_one, value_object.
Qed.

(** Members behind others, each with its comma. *)
Inductive later_members : list (string * json) -> list token -> Prop :=
| later_none : later_members [] []
| later_one k v ts ms ts' : value v ts -> later_members ms ts' -> later_members ((k, v) :: ms) (TComma :: TStr k :: TColon :: ts ++ ts').

Lemma first_members k v ts ms ts' : value v ts -> later_members ms ts' -> members ((k, v) :: ms) (TStr k :: TColon :: ts ++ ts').
Proof.
  intros Hv Hm. revert k v ts Hv. induction Hm as [|k' v' ts1 ms' ts2 Hv' Hm IH]; intros k v ts Hv.
  - rewrite app_nil_r. by constructor.
  - by apply members_more, IH.
Qed.

(** A member whose text does not end its line. *)
Lemma body_open ls k v ts ls' ms : lexes (file ls) (TStr k :: TColon :: ts) -> value v ts -> body ls' ms ->
  body (ls ++ MkLine (separator true) :: ls') ((k, v) :: ms).
Proof.
  intros Hl Hv (ts' & Hl' & Hm). exists (TStr k :: TColon :: ts ++ TComma :: ts')%list. split; [|by apply members_more].
  apply (file_app _ _ (TStr k :: TColon :: ts)); [done|]. by apply (file_cons _ _ [TComma]); [intros s|].
Qed.

Lemma body_open_last ls k v ts : lexes (file ls) (TStr k :: TColon :: ts) -> value v ts ->
  body (ls ++ [MkLine (separator false)]) [(k, v)].
Proof.
  intros Hl Hv. exists (TStr k :: TColon :: ts ++ [])%list. rewrite app_nil_r. split; [|by apply members_one].
  rewrite <-(app_nil_r (TStr k :: TColon :: ts)). apply file_app; [done|]. by apply (file_one _ []); intros s; rewrite both_nil.
Qed.

Ltac json_side := first [reflexivity|assumption].
Ltac json_body :=
  repeat lazymatch goal with
  | |- body (num _ _ _ true :: _) _ => apply body_num; [json_side..|]
  | |- body (hexa _ _ _ true :: _) _ => apply body_hexa; [json_side..|]
  | |- body (flag _ _ _ true :: _) _ => apply body_flag; [json_side..|]
  | |- body (text _ _ _ true :: _) _ => apply body_text; [json_side..|]
  | |- body [num _ _ _ false] _ => apply body_num_last; json_side
  | |- body [hexa _ _ _ false] _ => apply body_hexa_last; json_side
  | |- body (object _ _ _ true ++ _) _ => apply body_object; [json_side..|first [eassumption|apply body_some; try eassumption]|]
  | |- body (object _ _ _ false) _ => apply body_object_last; [json_side..|first [eassumption|apply body_some; try eassumption]]
  end.
