(* ===== verification/FlashReport.v ===== *)
(** Text of the statistics of the NOR flash
    (systemc-components/strata_flash_j3/include/strata_flash_j3.h): they are a JSON object
    that shows every counter. *)

From stdpp Require Import strings.
From S2P Require Import Prelude Json StrataFlash.

Open Scope string_scope.

Section stats.
Context (module_name : string) (stats : stat -> Z).

(** [strata_flash_j3.h: 1282-1335] write_stats_file *)
Definition stats_lines : list line :=
  [text "  " "module" module_name true;
   num "  " "total_accesses" (u64 (stats read_accesses + stats write_accesses)) true;
   num "  " "read_accesses" (stats read_accesses) true;
   num "  " "write_accesses" (stats write_accesses) true;
   num "  " "read_bytes" (stats read_bytes) true;
   num "  " "write_bytes" (stats write_bytes) true;
   num "  " "dmi_read_hints" (stats dmi_read_hints) true;
   num "  " "dmi_requests" (stats dmi_requests) true;
   num "  " "dmi_grants" (stats dmi_grants) true;
   num "  " "dmi_reject_disabled" (stats dmi_reject_disabled) true;
   num "  " "dmi_reject_state" (stats dmi_reject_state) true;
   num "  " "dmi_reject_command" (stats dmi_reject_command) true;
   num "  " "dmi_reject_range" (stats dmi_reject_range) true;
   num "  " "dmi_invalidations" (stats dmi_invalidations) true;
   num "  " "command_writes" (stats command_writes) true;
   num "  " "read_array_cmds" (stats read_array_cmds) true;
   num "  " "read_id_cmds" (stats read_id_cmds) true;
   num "  " "read_query_cmds" (stats read_query_cmds) true;
   num "  " "read_status_cmds" (stats read_status_cmds) true;
   num "  " "clear_status_cmds" (stats clear_status_cmds) true;
   num "  " "write_buffer_cmds" (stats write_buffer_cmds) true;
   num "  " "write_buffer_count_writes" (stats write_buffer_count_writes) true;
   num "  " "write_buffer_data_writes" (stats write_buffer_data_writes) true;
   num "  " "write_buffer_confirm_cmds" (stats write_buffer_confirm_cmds) true;
   num "  " "write_buffer_ops" (stats write_buffer_ops) true;
   num "  " "write_buffer_bytes" (stats write_buffer_bytes) true;
   num "  " "word_program_cmds" (stats word_program_cmds) true;
   num "  " "block_erase_cmds" (stats block_erase_cmds) true;
   num "  " "block_erase_ack_cmds" (stats block_erase_ack_cmds) true;
   num "  " "lock_unlock_cmds" (stats lock_unlock_cmds) true;
   num "  " "lock_block_cmds" (stats lock_block_cmds) true;
   num "  " "unknown_cmds" (stats unknown_cmds) true;
   num "  " "program_ops" (stats program_ops) true;
   num "  " "program_bytes" (stats program_bytes) true;
   num "  " "program_changed_bytes" (stats program_changed_bytes) true;
   num "  " "program_noop_bytes" (stats program_noop_bytes) true;
   num "  " "compat_ff_sector_erase_ops" (stats compat_ff_sector_erase_ops) true;
   num "  " "sector_erase_ops" (stats sector_erase_ops) true;
   num "  " "sector_erase_bytes" (stats sector_erase_bytes) true;
   num "  " "backing_write_ops" (stats backing_write_ops) true;
   num "  " "backing_write_bytes" (stats backing_write_bytes) true;
   num "  " "backing_deferred_ranges" (stats backing_deferred_ranges) true;
   num "  " "backing_deferred_bytes" (stats backing_deferred_bytes) true;
   num "  " "backing_flush_ops" (stats backing_flush_ops) true;
   num "  " "backing_flush_bytes" (stats backing_flush_bytes) false].

Definition stats_text : string := file (top :: stats_lines ++ [closes "" false]).

End stats.

Definition stat_name (k : stat) : string :=
  match k with
  | read_accesses => "read_accesses"
  | write_accesses => "write_accesses"
  | read_bytes => "read_bytes"
  | write_bytes => "write_bytes"
  | dmi_read_hints => "dmi_read_hints"
  | dmi_requests => "dmi_requests"
  | dmi_grants => "dmi_grants"
  | dmi_reject_disabled => "dmi_reject_disabled"
  | dmi_reject_state => "dmi_reject_state"
  | dmi_reject_command => "dmi_reject_command"
  | dmi_reject_range => "dmi_reject_range"
  | dmi_invalidations => "dmi_invalidations"
  | command_writes => "command_writes"
  | read_array_cmds => "read_array_cmds"
  | read_id_cmds => "read_id_cmds"
  | read_query_cmds => "read_query_cmds"
  | read_status_cmds => "read_status_cmds"
  | clear_status_cmds => "clear_status_cmds"
  | write_buffer_cmds => "write_buffer_cmds"
  | write_buffer_count_writes => "write_buffer_count_writes"
  | write_buffer_data_writes => "write_buffer_data_writes"
  | write_buffer_confirm_cmds => "write_buffer_confirm_cmds"
  | write_buffer_ops => "write_buffer_ops"
  | write_buffer_bytes => "write_buffer_bytes"
  | word_program_cmds => "word_program_cmds"
  | block_erase_cmds => "block_erase_cmds"
  | block_erase_ack_cmds => "block_erase_ack_cmds"
  | lock_unlock_cmds => "lock_unlock_cmds"
  | lock_block_cmds => "lock_block_cmds"
  | unknown_cmds => "unknown_cmds"
  | program_ops => "program_ops"
  | program_bytes => "program_bytes"
  | program_changed_bytes => "program_changed_bytes"
  | program_noop_bytes => "program_noop_bytes"
  | compat_ff_sector_erase_ops => "compat_ff_sector_erase_ops"
  | sector_erase_ops => "sector_erase_ops"
  | sector_erase_bytes => "sector_erase_bytes"
  | backing_write_ops => "backing_write_ops"
  | backing_write_bytes => "backing_write_bytes"
  | backing_deferred_ranges => "backing_deferred_ranges"
  | backing_deferred_bytes => "backing_deferred_bytes"
  | backing_flush_ops => "backing_flush_ops"
  | backing_flush_bytes => "backing_flush_bytes"
  end.

(** A report is a JSON object, whatever was counted, that shows every counter under its
    name. *)
Lemma flash_stats_json module_name stats : plain module_name = true ->
  exists ms, parse (stats_text module_name stats) = Some (JObj ms) /\
    forall k, find_member (stat_name k) ms = Some (JNum (Z.to_N (stats k))).
Proof.
  intros Hn. eexists. split; [apply parse_file; unfold stats_lines; json_body|]. by intros [].
Qed.
