(* ===== verification/Cc3xxReport.v ===== *)
(** Text of the statistics of the cryptographic core
    (systemc-components/cc3xx/include/cc3xx_core.h) and of the profile of the device of the
    emulator (qemu-components/cc3xx_native/include/qemu_cc3xx.h): they are JSON objects
    that show the counters. *)

From stdpp Require Import strings.
From S2P Require Import Prelude Json Cc3xxState Cc3xxNative.

Open Scope string_scope.

(** * Counts by index *)

(** The counts that are not zero, by their index times the scale in hexadecimal, and the
    [first] the loop ends with. *)
(** [cc3xx_core.h: 2180-2189] write_count_map *)
Fixpoint count_lines (first : bool) (index : Z) (counts : list Z) (indent : string) (key_scale : Z) : list line * bool :=
  match counts with
  | [] => ([], first)
  | count :: counts =>
      if decide (count = 0) then count_lines first (index + 1) counts indent key_scale
      else
        let '(ls, first') := count_lines false (index + 1) counts indent key_scale in
        (MkLine (if first then "" else ",") ::
         MkLine (nl ++ indent ++ "  " ++ quote ("0x" ++ hex (index * key_scale)) ++ ": " ++ dec count) :: ls, first')
  end.

(** [cc3xx_core.h: write_count_map] *)
Definition write_count_map (name : string) (counts : list Z) (indent : string) (key_scale : Z) : list line :=
  let '(ls, first) := count_lines true 0 counts indent key_scale in
  MkLine (indent ++ quote name ++ ": {") :: ls ++ [MkLine (if first then "" else nl ++ indent); MkLine "}"].

(** * The core *)

(** The times of the host clock that the statistics add up. *)
Record times := MkTimes {
  pka_opcode_ns : Z;
  sha256_transform_ns : Z;
  sha256_finish_ns : Z;
  hash_dma_ns : Z;
  aes_dma_ns : Z;
  cmac_dma_ns : Z;
  cmac_finish_ns : Z
}.

Section stats.
Context (module_name : string) (m_timing_stats_enabled : bool) (t : times) (c : core).

(** [cc3xx_core.h: 2205-2214] write_stats_json *)
Definition access_lines : list line :=
  [text "  " "module" module_name true;
   num "  " "total_accesses" (u64 (m_stats c read_accesses + m_stats c write_accesses)) true;
   num "  " "read_accesses" (m_stats c read_accesses) true;
   num "  " "write_accesses" (m_stats c write_accesses) true;
   num "  " "read_bytes" (m_stats c read_bytes) true;
   num "  " "write_bytes" (m_stats c write_bytes) true;
   num "  " "reset_count" (m_stats c reset_count) true;
   num "  " "pka_opcode_writes" (m_stats c pka_opcode_writes) true].

(** [cc3xx_core.h: 2217-2266] write_stats_json *)
Definition engine_lines : list line :=
  [num "  " "pka_sram_host_read_words" (m_stats c pka_sram_host_read_words) true;
   num "  " "pka_sram_host_write_words" (m_stats c pka_sram_host_write_words) true;
   num "  " "sha256_resets" (m_stats c sha256_resets) true;
   num "  " "sha256_update_calls" (m_stats c sha256_update_calls) true;
   num "  " "sha256_update_bytes" (m_stats c sha256_update_bytes) true;
   num "  " "sha256_transforms" (m_stats c sha256_transforms) true;
   num "  " "sha256_finishes" (m_stats c sha256_finishes) true;
   num "  " "hash_dma_triggers" (m_stats c hash_dma_triggers) true;
   num "  " "hash_dma_bytes" (m_stats c hash_dma_bytes) true;
   num "  " "hash_dma_chunks" (m_stats c hash_dma_chunks) true;
   num "  " "hash_dma_read_failures" (m_stats c hash_dma_read_failures) true;
   num "  " "hash_auto_finishes" (m_stats c hash_auto_finishes) true;
   num "  " "aes_dma_triggers" (m_stats c aes_dma_triggers) true;
   num "  " "aes_ctr_ops" (m_stats c aes_ctr_ops) true;
   num "  " "aes_ctr_bytes" (m_stats c aes_ctr_bytes) true;
   num "  " "aes_ctr_chunks" (m_stats c aes_ctr_chunks) true;
   num "  " "aes_ecb_ops" (m_stats c aes_ecb_ops) true;
   num "  " "aes_ecb_bytes" (m_stats c aes_ecb_bytes) true;
   num "  " "aes_ecb_chunks" (m_stats c aes_ecb_chunks) true;
   num "  " "aes_read_failures" (m_stats c aes_read_failures) true;
   num "  " "aes_write_failures" (m_stats c aes_write_failures) true;
   num "  " "cmac_resets" (m_stats c cmac_resets) true;
   num "  " "cmac_dma_triggers" (m_stats c cmac_dma_triggers) true;
   num "  " "cmac_dma_bytes" (m_stats c cmac_dma_bytes) true;
   num "  " "cmac_dma_chunks" (m_stats c cmac_dma_chunks) true;
   num "  " "cmac_read_failures" (m_stats c cmac_read_failures) true;
   num "  " "cmac_finishes" (m_stats c cmac_finishes) true;
   num "  " "mem_read_ops" (m_stats c mem_read_ops) true;
   num "  " "mem_read_bytes" (m_stats c mem_read_bytes) true;
   num "  " "mem_write_ops" (m_stats c mem_write_ops) true;
   num "  " "mem_write_bytes" (m_stats c mem_write_bytes) true;
   num "  " "mem_read_failures" (m_stats c mem_read_failures) true;
   num "  " "mem_write_failures" (m_stats c mem_write_failures) true;
   num "  " "crypto_engine_writes" (m_stats c crypto_engine_writes) true].

(** [cc3xx_core.h: 2269-2281] write_stats_json *)
Definition timing_lines : list line :=
  [flag "  " "timing_enabled" m_timing_stats_enabled true;
   num "  " "pka_opcode_ns" (pka_opcode_ns t) true;
   num "  " "sha256_transform_ns" (sha256_transform_ns t) true;
   num "  " "sha256_finish_ns" (sha256_finish_ns t) true;
   num "  " "hash_dma_ns" (hash_dma_ns t) true;
   num "  " "aes_dma_ns" (aes_dma_ns t) true;
   num "  " "cmac_dma_ns" (cmac_dma_ns t) true;
   num "  " "cmac_finish_ns" (cmac_finish_ns t) true].

(** [cc3xx_core.h: write_stats_json] *)
Definition write_stats_json : list line :=
  top :: (access_lines ++
  write_count_map "pka_opcode_count" (map (fun i => m_stats c (pka_opcode_count i)) (range 32)) "  " 1 ++
  MkLine (separator true) :: engine_lines ++
  write_count_map "crypto_engine_count" (map (fun i => m_stats c (crypto_engine_count i)) (range 32)) "  " 1 ++
  MkLine (separator true) :: timing_lines ++
  write_count_map "register_read_count" (map (fun i => m_stats c (register_read_count i)) (range REG_WORDS)) "  " 4 ++
  MkLine (separator true) ::
  write_count_map "register_write_count" (map (fun i => m_stats c (register_write_count i)) (range REG_WORDS)) "  " 4 ++
  [MkLine (separator false)]) ++ [closes "" false].

End stats.

(** * The device of the emulator *)

Record native_times := MkNativeTimes {
  read_callback_ns : Z;
  write_callback_ns : Z;
  address_space_read_ns : Z;
  address_space_write_ns : Z;
  tlm_read_ns : Z;
  tlm_write_ns : Z
}.

Section profile.
Context {A : Type} (module_name : string) (t : native_times) (s : native A).

(** [qemu_cc3xx.h: 519-562] write_profile_file *)
Definition profile_lines : list line :=
  [text "  " "module" module_name true;
   num "  " "read_callbacks" (m_profile s read_callbacks) true;
   num "  " "write_callbacks" (m_profile s write_callbacks) true;
   num "  " "read_callback_ns" (read_callback_ns t) true;
   num "  " "write_callback_ns" (write_callback_ns t) true;
   num "  " "address_space_read_attempts" (m_profile s address_space_read_attempts) true;
   num "  " "address_space_read_hits" (m_profile s address_space_read_hits) true;
   num "  " "address_space_read_ns" (address_space_read_ns t) true;
   num "  " "address_space_write_attempts" (m_profile s address_space_write_attempts) true;
   num "  " "address_space_write_hits" (m_profile s address_space_write_hits) true;
   num "  " "address_space_write_ns" (address_space_write_ns t) true;
   num "  " "tlm_read_attempts" (m_profile s tlm_read_attempts) true;
   num "  " "tlm_read_hits" (m_profile s tlm_read_hits) true;
   num "  " "tlm_read_ns" (tlm_read_ns t) true;
   num "  " "tlm_write_attempts" (m_profile s tlm_write_attempts) true;
   num "  " "tlm_write_hits" (m_profile s tlm_write_hits) true;
   num "  " "tlm_write_ns" (tlm_write_ns t) true;
   num "  " "dmi_cache_read_hits" (m_profile s dmi_cache_read_hits) true;
   num "  " "dmi_cache_write_hits" (m_profile s dmi_cache_write_hits) true;
   num "  " "dmi_cache_requests" (m_profile s dmi_cache_requests) true;
   num "  " "dmi_cache_insertions" (m_profile s dmi_cache_insertions) true;
   num "  " "dmi_cache_invalidations" (m_profile s dmi_cache_invalidations) false].

Definition profile_text : string := file (top :: profile_lines ++ [closes "" false]).

End profile.

(** * What they show *)

(** The name a counter has in the statistics; the counts by index are in maps of their own. *)
Definition stat_name (k : stat) : option string :=
  match k with
  | read_accesses => Some "read_accesses"
  | write_accesses => Some "write_accesses"
  | read_bytes => Some "read_bytes"
  | write_bytes => Some "write_bytes"
  | reset_count => Some "reset_count"
  | pka_opcode_writes => Some "pka_opcode_writes"
  | pka_sram_host_read_words => Some "pka_sram_host_read_words"
  | pka_sram_host_write_words => Some "pka_sram_host_write_words"
  | sha256_resets => Some "sha256_resets"
  | sha256_update_calls => Some "sha256_update_calls"
  | sha256_update_bytes => Some "sha256_update_bytes"
  | sha256_transforms => Some "sha256_transforms"
  | sha256_finishes => Some "sha256_finishes"
  | hash_dma_triggers => Some "hash_dma_triggers"
  | hash_dma_bytes => Some "hash_dma_bytes"
  | hash_dma_chunks => Some "hash_dma_chunks"
  | hash_dma_read_failures => Some "hash_dma_read_failures"
  | hash_auto_finishes => Some "hash_auto_finishes"
  | aes_dma_triggers => Some "aes_dma_triggers"
  | aes_ctr_ops => Some "aes_ctr_ops"
  | aes_ctr_bytes => Some "aes_ctr_bytes"
  | aes_ctr_chunks => Some "aes_ctr_chunks"
  | aes_ecb_ops => Some "aes_ecb_ops"
  | aes_ecb_bytes => Some "aes_ecb_bytes"
  | aes_ecb_chunks => Some "aes_ecb_chunks"
  | aes_read_failures => Some "aes_read_failures"
  | aes_write_failures => Some "aes_write_failures"
  | cmac_resets => Some "cmac_resets"
  | cmac_dma_triggers => Some "cmac_dma_triggers"
  | cmac_dma_bytes => Some "cmac_dma_bytes"
  | cmac_dma_chunks => Some "cmac_dma_chunks"
  | cmac_read_failures => Some "cmac_read_failures"
  | cmac_finishes => Some "cmac_finishes"
  | mem_read_ops => Some "mem_read_ops"
  | mem_read_bytes => Some "mem_read_bytes"
  | mem_write_ops => Some "mem_write_ops"
  | mem_write_bytes => Some "mem_write_bytes"
  | mem_read_failures => Some "mem_read_failures"
  | mem_write_failures => Some "mem_write_failures"
  | crypto_engine_writes => Some "crypto_engine_writes"
  | register_read_count _ | register_write_count _ | pka_opcode_count _ | crypto_engine_count _ => None
  end.

Definition counter_name (k : counter) : string :=
  match k with
  | read_callbacks => "read_callbacks"
  | write_callbacks => "write_callbacks"
  | address_space_read_attempts => "address_space_read_attempts"
  | address_space_read_hits => "address_space_read_hits"
  | address_space_write_attempts => "address_space_write_attempts"
  | address_space_write_hits => "address_space_write_hits"
  | tlm_read_attempts => "tlm_read_attempts"
  | tlm_read_hits => "tlm_read_hits"
  | tlm_write_attempts => "tlm_write_attempts"
  | tlm_write_hits => "tlm_write_hits"
  | dmi_cache_read_hits => "dmi_cache_read_hits"
  | dmi_cache_write_hits => "dmi_cache_write_hits"
  | dmi_cache_requests => "dmi_cache_requests"
  | dmi_cache_insertions => "dmi_cache_insertions"
  | dmi_cache_invalidations => "dmi_cache_invalidations"
  end.

(** The counts that are not zero, with their keys. *)
Definition counted (index : Z) (counts : list Z) (key_scale : Z) : list (string * json) :=
  map (fun '(i, n) => ("0x" ++ hex (i * key_scale), JNum (Z.to_N n)))
    (filter (fun '(_, n) => n <> 0) (imap (fun i n => (index + Z.of_nat i, n)) counts)).

(** The statistics of the core: each counter under its name, the counts by index in their
    maps. *)
Definition stats_shown (c : core) (ms : list (string * json)) : Prop :=
  (forall k name, stat_name k = Some name -> find_member name ms = Some (JNum (Z.to_N (m_stats c k)))) /\
  find_member "pka_opcode_count" ms = Some (JObj (counted 0 (map (fun i => m_stats c (pka_opcode_count i)) (range 32)) 1)) /\
  find_member "crypto_engine_count" ms = Some (JObj (counted 0 (map (fun i => m_stats c (crypto_engine_count i)) (range 32)) 1)) /\
  find_member "register_read_count" ms = Some (JObj (counted 0 (map (fun i => m_stats c (register_read_count i)) (range REG_WORDS)) 4)) /\
  find_member "register_write_count" ms = Some (JObj (counted 0 (map (fun i => m_stats c (register_write_count i)) (range REG_WORDS)) 4)).

(** * Maps of counts *)

Lemma counted_cons index count counts key_scale : counted index (count :: counts) key_scale =
  if decide (count = 0) then counted (index + 1) counts key_scale
  else ("0x" ++ hex (index * key_scale), JNum (Z.to_N count)) :: counted (index + 1) counts key_scale.
Proof.
  unfold counted. cbn [imap]. change (Z.of_nat 0) with 0. rewrite Z.add_0_r.
  replace (imap ((λ i n, (index + Z.of_nat i, n)) ∘ S) counts) with (imap (λ i n, (index + 1 + Z.of_nat i, n)) counts).
  2: { apply imap_ext. intros i n _. cbn. f_equal. lia. }
  rewrite filter_cons. by repeat case_decide.
Qed.

(** An entry, and the text that follows it, which does not start with a digit. *)
Lemma lexes_entry indent key_scale index count rest ts : spaces indent = true -> no_digit rest = true -> lexes rest ts ->
  lexes ((nl ++ indent ++ "  " ++ quote ("0x" ++ hex (index * key_scale)) ++ ": " ++ dec count) ++ rest)
    (TStr ("0x" ++ hex (index * key_scale)) :: TColon :: TNum (Z.to_N count) :: ts).
Proof.
  intros Hi Hd Ht. rewrite !string_app_assoc.
  apply (lexes_app _ []); [by intros s; rewrite both_nil|]. apply (lexes_app _ []); [by apply lexes_spaces|].
  apply (lexes_app _ []); [by intros s; rewrite both_nil|]. apply (lexes_app _ [TStr _]); [apply lexes_quote, hex_text_plain|].
  apply (lexes_app _ [TColon]); [by intros s|]. by apply lexes_dec.
Qed.

(** The entries behind the first one and the end of the map. *)
Lemma later_counts index counts indent key_scale : spaces indent = true ->
  exists ts, snd (count_lines false index counts indent key_scale) = false /\
    lexes (file (fst (count_lines false index counts indent key_scale)) ++ (nl ++ indent ++ "}")) (ts ++ [TClose]) /\
    no_digit (file (fst (count_lines false index counts indent key_scale)) ++ (nl ++ indent ++ "}")) = true /\
    later_members (counted index counts key_scale) ts.
Proof.
  intros Hi. revert index. induction counts as [|count counts IH]; intros index.
  { exists []. split_and!; [done| |done|constructor]. apply (lexes_app _ []); [by intros s; rewrite both_nil|].
    apply (lexes_app _ []); [by intros s; rewrite both_nil|]. apply (lexes_app _ []); [by apply lexes_spaces|by intros s]. }
  cbn [count_lines]. rewrite counted_cons. destruct (IH (index + 1)) as (ts & Hf & Hl & Hd & Hm).
  case_decide; [by exists ts|]. destruct (count_lines false (index + 1) counts indent key_scale) as [ls first]. cbn [fst snd] in *.
  exists (TComma :: TStr ("0x" ++ hex (index * key_scale)) :: TColon :: [TNum (Z.to_N count)] ++ ts)%list.
  split_and!; [done| |done|by constructor; [constructor|]].
  unfold file at 1. cbn [foldr line_text]. fold (file ls). apply (lexes_app "," [TComma]); [by intros s|].
  rewrite string_app_assoc. by apply lexes_entry.
Qed.

Lemma first_counts index counts indent key_scale : spaces indent = true ->
  let '(ls, first) := count_lines true index counts indent key_scale in
  exists ts, lexes (file ls ++ (if first then "" else nl ++ indent) ++ "}") (ts ++ [TClose]) /\
    value (JObj (counted index counts key_scale)) (TOpen :: ts ++ [TClose]).
Proof.
  intros Hi. revert index. induction counts as [|count counts IH]; intros index.
  { exists []. split; [by intros s|constructor]. }
  cbn [count_lines]. rewrite counted_cons. case_decide; [apply IH|].
  destruct (later_counts (index + 1) counts indent key_scale Hi) as (ts & Hf & Hl & Hd & Hm).
  destruct (count_lines false (index + 1) counts indent key_scale) as [ls first]. cbn [fst snd] in *. subst first.
  exists (TStr ("0x" ++ hex (index * key_scale)) :: TColon :: [TNum (Z.to_N count)] ++ ts)%list. split.
  - unfold file. cbn [foldr line_text]. fold (file ls). rewrite (string_app_assoc nl indent), (string_app_assoc "").
    apply (lexes_app "" []); [apply lexes_nil|]. rewrite (string_app_assoc _ (file ls)). by apply lexes_entry.
  - constructor. apply first_members; [constructor|done].
Qed.

(** The text of a map is one member. *)
Lemma count_map name counts indent key_scale : plain name = true -> spaces indent = true ->
  exists ts, lexes (file (write_count_map name counts indent key_scale)) (TStr name :: TColon :: ts) /\
    value (JObj (counted 0 counts key_scale)) ts.
Proof.
  intros Hn Hi. unfold write_count_map. pose proof (first_counts 0 counts indent key_scale Hi) as Hc.
  destruct (count_lines true 0 counts indent key_scale) as [ls first]. destruct Hc as (ts & Hl & Hv).
  exists (TOpen :: ts ++ [TClose])%list. split; [|done].
  apply (file_cons _ _ [TStr name; TColon; TOpen]).
  - cbn [line_text]. apply (lexes_app _ []); [by apply lexes_spaces|]. apply (lexes_app _ [TStr name]); [by apply lexes_quote|].
    intros s. apply both_app.
  - rewrite file_append. cbn [file foldr line_text]. by rewrite string_app_nil.
Qed.

Lemma body_count_map name counts indent key_scale ls ms : plain name = true -> spaces indent = true -> body ls ms ->
  body (write_count_map name counts indent key_scale ++ MkLine (separator true) :: ls) ((name, JObj (counted 0 counts key_scale)) :: ms).
Proof. intros Hn Hi Hl. destruct (count_map name counts indent key_scale Hn Hi) as (ts & Ht & Hv). by eapply body_open. Qed.

Lemma body_count_map_last name counts indent key_scale : plain name = true -> spaces indent = true ->
  body (write_count_map name counts indent key_scale ++ [MkLine (separator false)]) [(name, JObj (counted 0 counts key_scale))].
Proof. intros Hn Hi. destruct (count_map name counts indent key_scale Hn Hi) as (ts & Ht & Hv). by eapply body_open_last. Qed.

(** * The files *)

(** The statistics of the core are a JSON object, whatever was counted: each counter is
    read back under its name, and the counts by index under theirs, without those that are
    zero. *)
Lemma stats_json module_name timing t c : plain module_name = true ->
  exists ms, parse (file (write_stats_json module_name timing t c)) = Some (JObj ms) /\ stats_shown c ms.
Proof.
  intros Hn. eexists. split.
  - unfold write_stats_json. apply parse_file. unfold access_lines, engine_lines, timing_lines. cbn [app]. json_body.
    do 3 (apply body_count_map; [reflexivity..|]; json_body). by apply body_count_map_last.
  - split; [intros k name Hk; destruct k; try discriminate Hk; injection Hk as <-; reflexivity|]. by split_and!.
Qed.

(** The profile of the device of the emulator as well. *)
Lemma native_profile_json {A} module_name t (s : native A) : plain module_name = true ->
  exists ms, parse (profile_text module_name t s) = Some (JObj ms) /\
    forall k, find_member (counter_name k) ms = Some (JNum (Z.to_N (m_profile s k))).
Proof.
  intros Hn. eexists. split; [apply parse_file; unfold profile_lines; json_body|]. by intros [].
Qed.
