(* ===== verification/Cc3xxFiles.v ===== *)
(** Files that the two modules of the cryptographic accelerator write
    (systemc-components/cc3xx/include/cc3xx.h and
    qemu-components/cc3xx_native/include/qemu_cc3xx.h): when they are written, what they
    hold, and what is said when they cannot be opened. *)

From stdpp Require Import gmap strings.
From S2P Require Import Prelude Json Cc3xxState Cc3xxCore Cc3xxNative Cc3xxReport.

Open Scope string_scope.

(** The files by their paths, what was said on the standard error, and what the flags of
    the object keep it from saying again. *)
(** [qemu_cc3xx.h: 92-93] *)
Record outputs := MkOutputs {
  o_files : gmap string string;
  o_errors : list (string * string);
  m_stats_error_reported : bool;
  m_profile_error_reported : bool
}.

#[export] Instance eta_outputs : Eta outputs := fun o =>
  MkOutputs (o_files o) (o_errors o) (m_stats_error_reported o) (m_profile_error_reported o).

(** [value] is what [std::getenv] finds. *)
(** [qemu_cc3xx.h: env_flag_enabled] *)
Definition env_flag_enabled (value : option string) : bool :=
  match value with
  | None => false
  | Some text => if String.eqb text "" then false else negb (String.eqb text "0" || String.eqb text "false" || String.eqb text "FALSE")
  end.

(** [qemu_cc3xx.h: 140-144] profile_file *)
Definition profile_file (value : option string) : string := default "" value.

Section files.
(** Whether the host opens a file for writing, the paths, the name of the module, and the
    variable that asks for times. *)
Context (can_open : string -> bool) (p_stats_file m_profile_file name : string) (timing_stats : option string).

(** [cc3xx.h: report_stats_error_once] *)
Definition report_stats_error_once (action path : string) (o : outputs) : outputs :=
  if m_stats_error_reported o then o
  else o <| o_errors ::= fun l => (l ++ [(action, path)])%list |> <| m_stats_error_reported := true |>.

(** [cc3xx.h: write_stats_file] *)
Definition write_stats_file (timing : bool) (t : times) (c : core) (o : outputs) : outputs :=
  if String.eqb p_stats_file "" then o
  else if negb (can_open p_stats_file) then report_stats_error_once "open" p_stats_file o
  else o <| o_files ::= <[p_stats_file := file (write_stats_json name timing t c)]> |>.

(** [qemu_cc3xx.h: report_profile_error_once] *)
Definition report_profile_error_once (action path : string) (o : outputs) : outputs :=
  if m_profile_error_reported o then o
  else o <| o_errors ::= fun l => (l ++ [(action, path)])%list |> <| m_profile_error_reported := true |>.

(** [qemu_cc3xx.h: write_profile_file] *)
Definition write_profile_file {A} (nt : native_times) (s : native A) (o : outputs) : outputs :=
  if String.eqb m_profile_file "" then o
  else if negb (can_open m_profile_file) then report_profile_error_once "open" m_profile_file o
  else o <| o_files ::= <[m_profile_file := profile_text name nt s]> |>.

(** Whether the core adds up times, as every access sets it. *)
(** [qemu_cc3xx.h: 411-412] sync_core_config *)
Definition native_timing : bool := env_flag_enabled timing_stats || negb (String.eqb m_profile_file "").

(** [qemu_cc3xx.h: write_stats_file] *)
Definition native_write_stats_file {A} (timing : bool) (t : times) (nt : native_times) (c : core) (s : native A) (o : outputs) : outputs :=
  if String.eqb p_stats_file "" then write_profile_file nt s o
  else if negb (can_open p_stats_file) then report_stats_error_once "open" p_stats_file o
  else write_profile_file nt s (o <| o_files ::= <[p_stats_file := file (write_stats_json name timing t c)]> |>).

(** [qemu_cc3xx.h: doreset] *)
Definition native_reset {A} (value timing : bool) (t : times) (nt : native_times) (c : core) (s : native A) (o : outputs) : core * outputs :=
  let c := native_doreset value c in (c, if value then native_write_stats_file timing t nt c s o else o).

(** The destructor. *)
(** [qemu_cc3xx.h: 621-625] ~qemu_cc3xx *)
Definition native_destroy {A} (timing : bool) (t : times) (nt : native_times) (c : core) (s : native A) (o : outputs) : outputs :=
  write_profile_file nt s (native_write_stats_file timing t nt c s o).
End files.

(** * What a reader finds *)

(** What is at a path shows the statistics of the core, or the profile. *)
Definition holds_stats (path : string) (c : core) (o : outputs) : Prop :=
  exists text ms, o_files o !! path = Some text /\ parse text = Some (JObj ms) /\ stats_shown c ms.

Definition holds_profile {A} (path : string) (s : native A) (o : outputs) : Prop :=
  exists text ms, o_files o !! path = Some text /\ parse text = Some (JObj ms) /\
    forall k, find_member (counter_name k) ms = Some (JNum (Z.to_N (m_profile s k))).

Section written.
Context (can_open : string -> bool) (stats profile name : string).
Hypothesis Hname : plain name = true.

Lemma stats_put timing t c o : holds_stats stats c (o <| o_files ::= <[stats := file (write_stats_json name timing t c)]> |>).
Proof. destruct (stats_json name timing t c Hname) as (ms & Hp & Hm). eexists _, ms. split; [apply lookup_insert_eq|done]. Qed.

(** The module on the bus: a reset, or its end, with a file that can be opened. *)
Lemma stats_written timing t c o : stats <> "" -> can_open stats = true ->
  holds_stats stats c (write_stats_file can_open stats name timing t c o).
Proof.
  intros Hs Hc. unfold write_stats_file. rewrite (proj2 (String.eqb_neq _ _) Hs), Hc. apply stats_put.
Qed.

Lemma profile_written {A} nt (s : native A) o : profile <> "" -> can_open profile = true ->
  holds_profile profile s (write_profile_file can_open profile name nt s o).
Proof.
  intros Hs Hc. apply String.eqb_neq in Hs. unfold write_profile_file. rewrite Hs, Hc. cbn [negb].
  destruct (native_profile_json name nt s Hname) as (ms & Hp & Hm). eexists _, ms. split; [apply lookup_insert_eq|done].
Qed.

Lemma profile_keeps_stats {A} nt (s : native A) c o : stats <> profile -> holds_stats stats c o ->
  holds_stats stats c (write_profile_file can_open profile name nt s o).
Proof.
  intros Hd (text & ms & Hf & H). exists text, ms. split; [|done]. unfold write_profile_file, report_profile_error_once.
  repeat case_match; try done. cbn. by rewrite lookup_insert_ne.
Qed.

(** When the device is destroyed, and the host opens both files, a reader of the files
    finds the counters of the core and of the profile as they are. *)
Lemma native_destroy_written {A} timing t nt c (s : native A) o : stats <> "" -> profile <> "" -> stats <> profile ->
  can_open stats = true -> can_open profile = true ->
  let o := native_destroy can_open stats profile name timing t nt c s o in holds_stats stats c o /\ holds_profile profile s o.
Proof.
  intros Hs Hp Hd Hcs Hcp. cbv zeta. split; [|by apply profile_written].
  apply profile_keeps_stats; [done|]. unfold native_write_stats_file.
  rewrite (proj2 (String.eqb_neq _ _) Hs), Hcs. cbn [negb]. apply profile_keeps_stats, stats_put. done.
Qed.

(** A reset writes the statistics of the core as the reset leaves it. *)
Lemma native_reset_written {A} timing t nt c (s : native A) o : stats <> "" -> stats <> profile -> can_open stats = true ->
  let '(c', o') := native_reset can_open stats profile name true timing t nt c s o in c' = core_reset true c /\ holds_stats stats c' o'.
Proof.
  intros Hs Hd Hcs. unfold native_reset, native_doreset. split; [done|]. unfold native_write_stats_file.
  rewrite (proj2 (String.eqb_neq _ _) Hs), Hcs. cbn [negb]. apply profile_keeps_stats, stats_put. done.
Qed.

(** When the statistics cannot be opened a reset writes no profile either, though its file
    could be opened; and the failure is said once. *)
Lemma stats_failure_hides_profile {A} timing t nt c (s : native A) o : stats <> "" -> can_open stats = false ->
  let o' := snd (native_reset can_open stats profile name true timing t nt c s o) in
  o_files o' = o_files o /\
  native_write_stats_file can_open stats profile name timing t nt c s o' = o'.
Proof.
  intros Hs Hc. unfold native_reset, native_write_stats_file. rewrite (proj2 (String.eqb_neq _ _) Hs), Hc. cbn [negb snd].
  unfold report_stats_error_once. destruct (m_stats_error_reported o) eqn:E; [by rewrite E|done].
Qed.
End written.
