(* ===== verification/RseAccelReport.v ===== *)
(** Text of the profile file of the CPU accelerator
    (qemu-components/rse_cpu_accel/include/rse_cpu_accel.h): the lines that are written,
    and that they are a JSON object that shows the counters. *)

From stdpp Require Import strings.
From S2P Require Import Prelude Json RseAccelState.

Open Scope string_scope.

(** What the profile asks of the emulator about the CPU. *)
Record watch := MkWatch {
  semantic_cpu_name : string;
  pc_entry_watch_count : Z;
  pc_entry_watch_add_calls : Z;
  pc_entry_watch_clear_calls : Z;
  pc_entry_watch_match_queries : Z;
  pc_entry_watch_match_hits : Z;
  pc_entry_watch_last_pc : Z;
  pc_entry_watch_last_watch_pc : Z
}.

Section report.
Context (cfg : config) (w : watch) (a : accel).

(** * The counters *)

(** [rse_cpu_accel.h: 1664-1692] write_hotpath_profile_file *)
Definition hotpath_lines : list line :=
  [text "  " "name" (semantic_cpu_name w) true;
   flag "  " "enabled" (p_hotpath_accel cfg) true;
   hexa "  " "memcpy_addr" (p_hotpath_memcpy_addr cfg) true;
   hexa "  " "memset_addr" (p_hotpath_memset_addr cfg) true;
   num "  " "max_bytes" (p_hotpath_max_bytes cfg) true;
   num "  " "memcpy_hits" (a_atomics a m_hotpath_memcpy_hits) true;
   num "  " "memset_hits" (a_atomics a m_hotpath_memset_hits) true;
   num "  " "fallbacks" (a_atomics a m_hotpath_fallbacks) true;
   num "  " "pc_misses" (a_atomics a m_hotpath_pc_misses) true;
   num "  " "too_large_failures" (a_atomics a m_hotpath_too_large_fails) true;
   num "  " "dmi_failures" (a_atomics a m_hotpath_dmi_fails) true;
   num "  " "stack_failures" (a_atomics a m_hotpath_stack_fails) true;
   num "  " "state_failures" (a_atomics a m_hotpath_state_fails) true;
   flag "  " "lms_accel_enabled" (p_lms_accel cfg) true;
   hexa "  " "lms_verify_addr" (p_lms_verify_addr cfg) true;
   num "  " "lms_hits" (a_atomics a m_lms_accel_hits) true;
   num "  " "lms_pc_misses" (a_atomics a m_lms_accel_pc_misses) true;
   num "  " "lms_dmi_failures" (a_atomics a m_lms_accel_dmi_fails) true;
   num "  " "lms_verify_failures" (a_atomics a m_lms_accel_verify_fails) true;
   num "  " "lms_state_failures" (a_atomics a m_lms_accel_state_fails) true;
   num "  " "lms_unsupported" (a_atomics a m_lms_accel_unsupported) true;
   hexa "  " "lms_last_key_addr" (a_atomics a m_lms_last_key_addr) true;
   num "  " "lms_last_key_size" (a_atomics a m_lms_last_key_size) true;
   hexa "  " "lms_last_data_addr" (a_atomics a m_lms_last_data_addr) true;
   num "  " "lms_last_data_size" (a_atomics a m_lms_last_data_size) true;
   hexa "  " "lms_last_sig_addr" (a_atomics a m_lms_last_sig_addr) true;
   num "  " "lms_last_sig_size" (a_atomics a m_lms_last_sig_size) true;
   num "  " "lms_last_unsupported_mask" (a_atomics a m_lms_last_unsupported_mask) true].

(** [rse_cpu_accel.h: 1693-1712] write_hotpath_profile_file *)
Definition delay_lines : list line :=
  [flag "    " "enabled" (p_bl2_delay_accel cfg) true;
   hexa "    " "delay_cycles_addr" (p_bl2_delay_cycles_addr cfg) true;
   num "    " "max_cycles" (p_bl2_delay_max_cycles cfg) true;
   num "    " "watch_count" (pc_entry_watch_count w) true;
   num "    " "watch_add_calls" (pc_entry_watch_add_calls w) true;
   num "    " "watch_clear_calls" (pc_entry_watch_clear_calls w) true;
   num "    " "watch_match_queries" (pc_entry_watch_match_queries w) true;
   num "    " "watch_match_hits" (pc_entry_watch_match_hits w) true;
   hexa "    " "watch_last_pc" (pc_entry_watch_last_pc w) true;
   hexa "    " "watch_last_watch_pc" (pc_entry_watch_last_watch_pc w) true;
   num "    " "hits" (a_atomics a m_bl2_delay_hits) true;
   num "    " "cycles" (a_atomics a m_bl2_delay_cycles) true;
   num "    " "expected_hits" (p_bl2_delay_expected_hits cfg) true;
   num "    " "state_failures" (a_atomics a m_bl2_delay_state_failures) true;
   num "    " "unsupported" (a_atomics a m_bl2_delay_unsupported) true;
   num "    " "last_cycles" (a_atomics a m_bl2_delay_last_cycles) true;
   hexa "    " "last_lr" (a_atomics a m_bl2_delay_last_lr) true;
   num "    " "last_unsupported_mask" (a_atomics a m_bl2_delay_last_unsupported_mask) false].

(** [rse_cpu_accel.h: 1713-1734] write_hotpath_profile_file *)
Definition load_lines : list line :=
  [flag "    " "enabled" (p_bl2_load_accel cfg) true;
   hexa "    " "decrypt_addr" (p_bl2_boot_enc_decrypt_addr cfg) true;
   num "    " "max_bytes" (p_bl2_load_accel_max_bytes cfg) true;
   num "    " "hits" (a_atomics a m_bl2_load_accel_hits) true;
   num "    " "skip_hits" (a_atomics a m_bl2_load_accel_skip_hits) true;
   num "    " "bytes" (a_atomics a m_bl2_load_accel_bytes) true;
   num "    " "key_misses" (a_atomics a m_bl2_load_accel_key_misses) true;
   num "    " "dmi_failures" (a_atomics a m_bl2_load_accel_dmi_failures) true;
   num "    " "direct_file_alias_hits" (a_atomics a m_bl2_load_accel_direct_file_alias_hits) true;
   num "    " "state_failures" (a_atomics a m_bl2_load_accel_state_failures) true;
   num "    " "unsupported" (a_atomics a m_bl2_load_accel_unsupported) true;
   num "    " "last_curr_img" (a_atomics a m_bl2_load_accel_last_curr_img) true;
   num "    " "last_slot" (a_atomics a m_bl2_load_accel_last_slot) true;
   hexa "    " "last_off" (a_atomics a m_bl2_load_accel_last_off) true;
   num "    " "last_size" (a_atomics a m_bl2_load_accel_last_size) true;
   num "    " "last_blk_off" (a_atomics a m_bl2_load_accel_last_blk_off) true;
   hexa "    " "last_buf" (a_atomics a m_bl2_load_accel_last_buf) true;
   num "    " "last_img_size" (a_atomics a m_bl2_load_accel_last_img_size) true;
   hexa "    " "last_flags" (a_atomics a m_bl2_load_accel_last_flags) true;
   num "    " "last_unsupported_mask" (a_atomics a m_bl2_load_accel_last_unsupported_mask) false].

(** [rse_cpu_accel.h: 1735-1760] write_hotpath_profile_file *)
Definition boot_enc_lines : list line :=
  [flag "    " "enabled" (p_bl2_boot_enc_accel cfg) true;
   hexa "    " "set_key_addr" (p_bl2_boot_enc_set_key_addr cfg) true;
   hexa "    " "decrypt_addr" (p_bl2_boot_enc_decrypt_addr cfg) true;
   hexa "    " "boot_status_enckey_offset" (p_bl2_boot_status_enckey_offset cfg) true;
   num "    " "key_bytes" (p_bl2_boot_enc_key_bytes cfg) true;
   num "    " "key_stride" (p_bl2_boot_enc_key_stride cfg) true;
   num "    " "slots" (p_bl2_boot_enc_slots cfg) true;
   num "    " "max_bytes" (p_bl2_boot_enc_max_bytes cfg) true;
   num "    " "key_captures" (a_atomics a m_bl2_boot_enc_key_captures) true;
   num "    " "key_capture_failures" (a_atomics a m_bl2_boot_enc_key_capture_failures) true;
   num "    " "decrypt_hits" (a_atomics a m_bl2_boot_enc_decrypt_hits) true;
   num "    " "decrypt_bytes" (a_atomics a m_bl2_boot_enc_decrypt_bytes) true;
   num "    " "decrypt_key_misses" (a_atomics a m_bl2_boot_enc_decrypt_key_misses) true;
   num "    " "decrypt_dmi_failures" (a_atomics a m_bl2_boot_enc_decrypt_dmi_failures) true;
   num "    " "decrypt_direct_file_alias_hits" (a_atomics a m_bl2_boot_enc_decrypt_direct_file_alias_hits) true;
   num "    " "decrypt_state_failures" (a_atomics a m_bl2_boot_enc_decrypt_state_failures) true;
   num "    " "decrypt_unsupported" (a_atomics a m_bl2_boot_enc_decrypt_unsupported) true;
   hexa "    " "last_enc_state" (a_atomics a m_bl2_boot_enc_last_enc_state) true;
   num "    " "last_slot" (a_atomics a m_bl2_boot_enc_last_slot) true;
   hexa "    " "last_off" (a_atomics a m_bl2_boot_enc_last_off) true;
   num "    " "last_size" (a_atomics a m_bl2_boot_enc_last_size) true;
   num "    " "last_blk_off" (a_atomics a m_bl2_boot_enc_last_blk_off) true;
   hexa "    " "last_buf" (a_atomics a m_bl2_boot_enc_last_buf) true;
   num "    " "last_unsupported_mask" (a_atomics a m_bl2_boot_enc_last_unsupported_mask) false].

(** [rse_cpu_accel.h: 1761-1779] write_hotpath_profile_file *)
Definition img_hash_lines : list line :=
  [flag "    " "enabled" (p_bl2_img_hash_accel cfg) true;
   hexa "    " "img_hash_addr" (p_bl2_bootutil_img_hash_addr cfg) true;
   num "    " "max_bytes" (p_bl2_img_hash_max_bytes cfg) true;
   num "    " "max_seed_bytes" (p_bl2_img_hash_max_seed_bytes cfg) true;
   num "    " "hits" (a_atomics a m_bl2_img_hash_hits) true;
   num "    " "bytes" (a_atomics a m_bl2_img_hash_bytes) true;
   num "    " "dmi_failures" (a_atomics a m_bl2_img_hash_dmi_failures) true;
   num "    " "direct_file_alias_hits" (a_atomics a m_bl2_img_hash_direct_file_alias_hits) true;
   num "    " "state_failures" (a_atomics a m_bl2_img_hash_state_failures) true;
   num "    " "unsupported" (a_atomics a m_bl2_img_hash_unsupported) true;
   hexa "    " "last_hdr" (a_atomics a m_bl2_img_hash_last_hdr) true;
   hexa "    " "last_load_addr" (a_atomics a m_bl2_img_hash_last_load_addr) true;
   hexa "    " "last_hash_result" (a_atomics a m_bl2_img_hash_last_hash_result) true;
   num "    " "last_hash_size" (a_atomics a m_bl2_img_hash_last_hash_size) true;
   hexa "    " "last_seed" (a_atomics a m_bl2_img_hash_last_seed) true;
   num "    " "last_seed_len" (a_atomics a m_bl2_img_hash_last_seed_len) true;
   num "    " "last_unsupported_mask" (a_atomics a m_bl2_img_hash_last_unsupported_mask) false].

(** [rse_cpu_accel.h: 1780-1806] write_hotpath_profile_file *)
Definition verify_sig_lines : list line :=
  [flag "    " "enabled" (p_bl2_verify_sig_accel cfg) true;
   hexa "    " "verify_sig_addr" (p_bl2_bootutil_verify_sig_addr cfg) true;
   hexa "    " "bootutil_keys_addr" (p_bl2_bootutil_keys_addr cfg) true;
   hexa "    " "bootutil_key_cnt_addr" (p_bl2_bootutil_key_cnt_addr cfg) true;
   num "    " "max_key_bytes" (p_bl2_verify_sig_max_key_bytes cfg) true;
   num "    " "max_sig_bytes" (p_bl2_verify_sig_max_sig_bytes cfg) true;
   flag "    " "skip_enabled" (p_bl2_verify_sig_skip cfg) true;
   num "    " "verify_matches" (a_atomics a m_bl2_verify_sig_matches) true;
   num "    " "cache_hits" (a_atomics a m_bl2_verify_sig_cache_hits) true;
   num "    " "cache_misses" (a_atomics a m_bl2_verify_sig_cache_misses) true;
   num "    " "skip_hits" (a_atomics a m_bl2_verify_sig_skip_hits) true;
   num "    " "dmi_failures" (a_atomics a m_bl2_verify_sig_dmi_failures) true;
   num "    " "verify_failures" (a_atomics a m_bl2_verify_sig_verify_failures) true;
   num "    " "state_failures" (a_atomics a m_bl2_verify_sig_state_failures) true;
   num "    " "unsupported" (a_atomics a m_bl2_verify_sig_unsupported) true;
   hexa "    " "last_hash" (a_atomics a m_bl2_verify_sig_last_hash) true;
   num "    " "last_hlen" (a_atomics a m_bl2_verify_sig_last_hlen) true;
   hexa "    " "last_sig" (a_atomics a m_bl2_verify_sig_last_sig) true;
   num "    " "last_slen" (a_atomics a m_bl2_verify_sig_last_slen) true;
   num "    " "last_key_id" (a_atomics a m_bl2_verify_sig_last_key_id) true;
   hexa "    " "last_key_ptr" (a_atomics a m_bl2_verify_sig_last_key_ptr) true;
   num "    " "last_key_len" (a_atomics a m_bl2_verify_sig_last_key_len) true;
   hexa "    " "fih_success_addr" (p_bl2_fih_success_addr cfg) true;
   hexa "    " "last_fih_success" (a_atomics a m_bl2_verify_sig_last_fih_success) true;
   num "    " "last_unsupported_mask" (a_atomics a m_bl2_verify_sig_last_unsupported_mask) false].

(** * The BL2 load profile *)

(** [rse_cpu_accel.h: write_bl2_ram_load_snapshot_values] *)
Definition write_bl2_ram_load_snapshot_values (snapshot : Bl2RamLoadSnapshot) (indent : string) : list line :=
  [hexa indent "state" (last_state snapshot) true;
   num indent "curr_img" (last_curr_img snapshot) true;
   num indent "active_slot" (last_active_slot snapshot) true;
   hexa indent "hdr_addr" (last_hdr_addr snapshot) true;
   hexa indent "hdr_magic" (last_hdr_magic snapshot) true;
   hexa indent "load_addr" (last_load_addr snapshot) true;
   num indent "hdr_size" (last_hdr_size snapshot) true;
   num indent "protect_tlv_size" (last_protect_tlv_size snapshot) true;
   num indent "img_size" (last_img_size snapshot) true;
   hexa indent "flags" (last_flags snapshot) true;
   num indent "hash_region_size" (last_hash_region_size snapshot) true;
   hexa indent "slot_img_dst" (last_slot_img_dst snapshot) true;
   num indent "slot_img_sz" (last_slot_img_sz snapshot) true;
   num indent "unsupported_mask" (last_unsupported_mask snapshot) false].

(** [rse_cpu_accel.h: write_bl2_ram_load_snapshot_object] *)
Definition write_bl2_ram_load_snapshot_object (snapshot : Bl2RamLoadSnapshot) (indent value_indent : string) : list line :=
  [num indent "hits" (sn_hits snapshot) true;
   num indent "dmi_failures" (sn_dmi_failures snapshot) true;
   num indent "unsupported" (sn_unsupported snapshot) true] ++
  object indent "last" (write_bl2_ram_load_snapshot_values snapshot value_indent) false.

(** [rse_cpu_accel.h: 1815-1825] write_hotpath_profile_file *)
Definition layout_lines : list line :=
  [num "        " "image_count" (p_bl2_boot_image_count cfg) true;
   hexa "        " "curr_img_offset" (p_bl2_boot_state_curr_img_offset cfg) true;
   hexa "        " "imgs_offset" (p_bl2_boot_state_imgs_offset cfg) true;
   num "        " "image_stride" (p_bl2_boot_state_image_stride cfg) true;
   num "        " "slot_stride" (p_bl2_boot_state_slot_stride cfg) true;
   hexa "        " "slot_usage_offset" (p_bl2_boot_state_slot_usage_offset cfg) true;
   num "        " "slot_usage_stride" (p_bl2_boot_state_slot_usage_stride cfg) true;
   hexa "        " "slot_img_dst_offset" (p_bl2_boot_slot_usage_img_dst_offset cfg) true;
   hexa "        " "slot_img_sz_offset" (p_bl2_boot_slot_usage_img_sz_offset cfg) false].

(** The images with events, separated by commas; no comma follows the last one. *)
(** [rse_cpu_accel.h: 1833-1852] write_hotpath_profile_file *)
Fixpoint by_image_lines (first_snapshot : bool) (image : Z) (snapshots : list Bl2RamLoadSnapshot) : list line :=
  match snapshots with
  | [] => []
  | snapshot :: snapshots =>
      let events := u64 (sn_hits snapshot + sn_dmi_failures snapshot + sn_unsupported snapshot) in
      if decide (events = 0) then by_image_lines first_snapshot (image + 1) snapshots
      else
        (if first_snapshot then [] else [MkLine (separator true)]) ++
        (opens "        " (dec image) ::
         write_bl2_ram_load_snapshot_object snapshot "          " "            " ++ [MkLine "        }"]) ++
        by_image_lines false (image + 1) snapshots
  end.

(** [rse_cpu_accel.h: 1830-1832] write_hotpath_profile_file *)
Definition snapshot_image_count : Z :=
  Z.min (p_bl2_boot_image_count cfg) (Z.of_nat (length (m_bl2_ram_load_snapshot_by_image a))).

(** [rse_cpu_accel.h: 1811-1855] write_hotpath_profile_file *)
Definition ram_load_snapshot_lines : list line :=
  let snapshot := m_bl2_ram_load_snapshot a in
  [num "      " "hits" (sn_hits snapshot) true;
   num "      " "dmi_failures" (sn_dmi_failures snapshot) true;
   num "      " "unsupported" (sn_unsupported snapshot) true] ++
  object "      " "layout" layout_lines true ++
  object "      " "last" (write_bl2_ram_load_snapshot_values snapshot "        ") true ++
  object "      " "by_image"
    (by_image_lines true 0 (take (Z.to_nat snapshot_image_count) (m_bl2_ram_load_snapshot_by_image a)) ++ [blank]) false.

(** [rse_cpu_accel.h: write_bl2_profile_site] *)
Definition write_bl2_profile_site (json_name : string) (addr : Z) (site : Bl2ProfileSite) (trailing_comma : bool) : list line :=
  let last := site_last site in
  object "      " json_name
    ([hexa "        " "addr" addr true;
      num "        " "hits" (site_hits site) true] ++
     object "        " "last"
       [hexa "          " "pc" (sa_pc last) true;
        hexa "          " "r0" (sa_r0 last) true;
        hexa "          " "r1" (sa_r1 last) true;
        hexa "          " "r2" (sa_r2 last) true;
        hexa "          " "r3" (sa_r3 last) true;
        hexa "          " "sp" (sa_sp last) true;
        hexa "          " "lr" (sa_lr last) true;
        num "          " "stack_words" (sa_stack_words last) true;
        hexa "          " "stack0" (arr_get (sa_stack last) 0) true;
        hexa "          " "stack1" (arr_get (sa_stack last) 1) true;
        hexa "          " "stack2" (arr_get (sa_stack last) 2) true;
        hexa "          " "stack3" (arr_get (sa_stack last) 3) false] false) trailing_comma.

(** [rse_cpu_accel.h: 1856-1878] write_hotpath_profile_file *)
Definition sites_lines : list line :=
  write_bl2_profile_site "boot_go_for_image_id" (p_bl2_boot_go_for_image_id_addr cfg) (a_sites a m_bl2_boot_go_for_image_id) true ++
  write_bl2_profile_site "boot_load_image_to_sram" (p_bl2_boot_load_image_to_sram_addr cfg) (a_sites a m_bl2_boot_load_image_to_sram) true ++
  write_bl2_profile_site "boot_enc_load" (p_bl2_boot_enc_load_addr cfg) (a_sites a m_bl2_boot_enc_load) true ++
  write_bl2_profile_site "boot_enc_decrypt" (p_bl2_boot_enc_decrypt_addr cfg) (a_sites a m_bl2_boot_enc_decrypt) true ++
  write_bl2_profile_site "bootutil_img_validate" (p_bl2_bootutil_img_validate_addr cfg) (a_sites a m_bl2_bootutil_img_validate) true ++
  write_bl2_profile_site "bootutil_img_hash" (p_bl2_bootutil_img_hash_addr cfg) (a_sites a m_bl2_bootutil_img_hash) true ++
  write_bl2_profile_site "bootutil_verify_sig" (p_bl2_bootutil_verify_sig_addr cfg) (a_sites a m_bl2_bootutil_verify_sig) false.

(** [rse_cpu_accel.h: 1807-1879] write_hotpath_profile_file *)
Definition load_profile_lines : list line :=
  [flag "    " "enabled" (p_bl2_load_profile cfg) true;
   num "    " "pc_misses" (a_atomics a m_bl2_load_profile_pc_misses) true;
   num "    " "stack_failures" (a_atomics a m_bl2_load_profile_stack_fails) true] ++
  object "    " "ram_load_snapshot" ram_load_snapshot_lines true ++
  object "    " "sites" sites_lines false.

(** What the file holds when the function returns. *)
(** [rse_cpu_accel.h: 1664-1881] write_hotpath_profile_file *)
Definition hotpath_profile_lines : list line :=
  hotpath_lines ++
  object "  " "bl2_delay_accel" delay_lines true ++
  object "  " "bl2_load_accel" load_lines true ++
  object "  " "bl2_boot_enc_accel" boot_enc_lines true ++
  object "  " "bl2_img_hash_accel" img_hash_lines true ++
  object "  " "bl2_verify_sig_accel" verify_sig_lines true ++
  object "  " "bl2_load_profile" load_profile_lines false.

Definition hotpath_profile_text : string := file (top :: hotpath_profile_lines ++ [closes "" false]).

End report.

(** * Where a value is *)

(** The object a counter is in, its name there, and whether it is written as an address. *)
Definition counter_place (c : atomic) : list string * string * bool :=
  match c with
  | m_hotpath_memcpy_hits => ([], "memcpy_hits", false)
  | m_hotpath_memset_hits => ([], "memset_hits", false)
  | m_hotpath_fallbacks => ([], "fallbacks", false)
  | m_hotpath_pc_misses => ([], "pc_misses", false)
  | m_hotpath_too_large_fails => ([], "too_large_failures", false)
  | m_hotpath_dmi_fails => ([], "dmi_failures", false)
  | m_hotpath_stack_fails => ([], "stack_failures", false)
  | m_hotpath_state_fails => ([], "state_failures", false)
  | m_lms_accel_hits => ([], "lms_hits", false)
  | m_lms_accel_pc_misses => ([], "lms_pc_misses", false)
  | m_lms_accel_dmi_fails => ([], "lms_dmi_failures", false)
  | m_lms_accel_verify_fails => ([], "lms_verify_failures", false)
  | m_lms_accel_state_fails => ([], "lms_state_failures", false)
  | m_lms_accel_unsupported => ([], "lms_unsupported", false)
  | m_lms_last_key_addr => ([], "lms_last_key_addr", true)
  | m_lms_last_key_size => ([], "lms_last_key_size", false)
  | m_lms_last_data_addr => ([], "lms_last_data_addr", true)
  | m_lms_last_data_size => ([], "lms_last_data_size", false)
  | m_lms_last_sig_addr => ([], "lms_last_sig_addr", true)
  | m_lms_last_sig_size => ([], "lms_last_sig_size", false)
  | m_lms_last_unsupported_mask => ([], "lms_last_unsupported_mask", false)
  | m_bl2_load_profile_pc_misses => (["bl2_load_profile"], "pc_misses", false)
  | m_bl2_load_profile_stack_fails => (["bl2_load_profile"], "stack_failures", false)
  | m_bl2_load_accel_hits => (["bl2_load_accel"], "hits", false)
  | m_bl2_load_accel_skip_hits => (["bl2_load_accel"], "skip_hits", false)
  | m_bl2_load_accel_bytes => (["bl2_load_accel"], "bytes", false)
  | m_bl2_load_accel_key_misses => (["bl2_load_accel"], "key_misses", false)
  | m_bl2_load_accel_dmi_failures => (["bl2_load_accel"], "dmi_failures", false)
  | m_bl2_load_accel_direct_file_alias_hits => (["bl2_load_accel"], "direct_file_alias_hits", false)
  | m_bl2_load_accel_state_failures => (["bl2_load_accel"], "state_failures", false)
  | m_bl2_load_accel_unsupported => (["bl2_load_accel"], "unsupported", false)
  | m_bl2_load_accel_last_curr_img => (["bl2_load_accel"], "last_curr_img", false)
  | m_bl2_load_accel_last_slot => (["bl2_load_accel"], "last_slot", false)
  | m_bl2_load_accel_last_off => (["bl2_load_accel"], "last_off", true)
  | m_bl2_load_accel_last_size => (["bl2_load_accel"], "last_size", false)
  | m_bl2_load_accel_last_blk_off => (["bl2_load_accel"], "last_blk_off", false)
  | m_bl2_load_accel_last_buf => (["bl2_load_accel"], "last_buf", true)
  | m_bl2_load_accel_last_img_size => (["bl2_load_accel"], "last_img_size", false)
  | m_bl2_load_accel_last_flags => (["bl2_load_accel"], "last_flags", true)
  | m_bl2_load_accel_last_unsupported_mask => (["bl2_load_accel"], "last_unsupported_mask", false)
  | m_bl2_boot_enc_key_captures => (["bl2_boot_enc_accel"], "key_captures", false)
  | m_bl2_boot_enc_key_capture_failures => (["bl2_boot_enc_accel"], "key_capture_failures", false)
  | m_bl2_boot_enc_decrypt_hits => (["bl2_boot_enc_accel"], "decrypt_hits", false)
  | m_bl2_boot_enc_decrypt_bytes => (["bl2_boot_enc_accel"], "decrypt_bytes", false)
  | m_bl2_boot_enc_decrypt_key_misses => (["bl2_boot_enc_accel"], "decrypt_key_misses", false)
  | m_bl2_boot_enc_decrypt_dmi_failures => (["bl2_boot_enc_accel"], "decrypt_dmi_failures", false)
  | m_bl2_boot_enc_decrypt_direct_file_alias_hits => (["bl2_boot_enc_accel"], "decrypt_direct_file_alias_hits", false)
  | m_bl2_boot_enc_decrypt_state_failures => (["bl2_boot_enc_accel"], "decrypt_state_failures", false)
  | m_bl2_boot_enc_decrypt_unsupported => (["bl2_boot_enc_accel"], "decrypt_unsupported", false)
  | m_bl2_boot_enc_last_enc_state => (["bl2_boot_enc_accel"], "last_enc_state", true)
  | m_bl2_boot_enc_last_slot => (["bl2_boot_enc_accel"], "last_slot", false)
  | m_bl2_boot_enc_last_off => (["bl2_boot_enc_accel"], "last_off", true)
  | m_bl2_boot_enc_last_size => (["bl2_boot_enc_accel"], "last_size", false)
  | m_bl2_boot_enc_last_blk_off => (["bl2_boot_enc_accel"], "last_blk_off", false)
  | m_bl2_boot_enc_last_buf => (["bl2_boot_enc_accel"], "last_buf", true)
  | m_bl2_boot_enc_last_unsupported_mask => (["bl2_boot_enc_accel"], "last_unsupported_mask", false)
  | m_bl2_img_hash_hits => (["bl2_img_hash_accel"], "hits", false)
  | m_bl2_img_hash_bytes => (["bl2_img_hash_accel"], "bytes", false)
  | m_bl2_img_hash_dmi_failures => (["bl2_img_hash_accel"], "dmi_failures", false)
  | m_bl2_img_hash_direct_file_alias_hits => (["bl2_img_hash_accel"], "direct_file_alias_hits", false)
  | m_bl2_img_hash_state_failures => (["bl2_img_hash_accel"], "state_failures", false)
  | m_bl2_img_hash_unsupported => (["bl2_img_hash_accel"], "unsupported", false)
  | m_bl2_img_hash_last_hdr => (["bl2_img_hash_accel"], "last_hdr", true)
  | m_bl2_img_hash_last_load_addr => (["bl2_img_hash_accel"], "last_load_addr", true)
  | m_bl2_img_hash_last_hash_result => (["bl2_img_hash_accel"], "last_hash_result", true)
  | m_bl2_img_hash_last_hash_size => (["bl2_img_hash_accel"], "last_hash_size", false)
  | m_bl2_img_hash_last_seed => (["bl2_img_hash_accel"], "last_seed", true)
  | m_bl2_img_hash_last_seed_len => (["bl2_img_hash_accel"], "last_seed_len", false)
  | m_bl2_img_hash_last_unsupported_mask => (["bl2_img_hash_accel"], "last_unsupported_mask", false)
  | m_bl2_verify_sig_matches => (["bl2_verify_sig_accel"], "verify_matches", false)
  | m_bl2_verify_sig_cache_hits => (["bl2_verify_sig_accel"], "cache_hits", false)
  | m_bl2_verify_sig_cache_misses => (["bl2_verify_sig_accel"], "cache_misses", false)
  | m_bl2_verify_sig_skip_hits => (["bl2_verify_sig_accel"], "skip_hits", false)
  | m_bl2_verify_sig_dmi_failures => (["bl2_verify_sig_accel"], "dmi_failures", false)
  | m_bl2_verify_sig_verify_failures => (["bl2_verify_sig_accel"], "verify_failures", false)
  | m_bl2_verify_sig_state_failures => (["bl2_verify_sig_accel"], "state_failures", false)
  | m_bl2_verify_sig_unsupported => (["bl2_verify_sig_accel"], "unsupported", false)
  | m_bl2_verify_sig_last_hash => (["bl2_verify_sig_accel"], "last_hash", true)
  | m_bl2_verify_sig_last_hlen => (["bl2_verify_sig_accel"], "last_hlen", false)
  | m_bl2_verify_sig_last_sig => (["bl2_verify_sig_accel"], "last_sig", true)
  | m_bl2_verify_sig_last_slen => (["bl2_verify_sig_accel"], "last_slen", false)
  | m_bl2_verify_sig_last_key_id => (["bl2_verify_sig_accel"], "last_key_id", false)
  | m_bl2_verify_sig_last_key_ptr => (["bl2_verify_sig_accel"], "last_key_ptr", true)
  | m_bl2_verify_sig_last_key_len => (["bl2_verify_sig_accel"], "last_key_len", false)
  | m_bl2_verify_sig_last_fih_success => (["bl2_verify_sig_accel"], "last_fih_success", true)
  | m_bl2_verify_sig_last_unsupported_mask => (["bl2_verify_sig_accel"], "last_unsupported_mask", false)
  | m_bl2_delay_hits => (["bl2_delay_accel"], "hits", false)
  | m_bl2_delay_cycles => (["bl2_delay_accel"], "cycles", false)
  | m_bl2_delay_state_failures => (["bl2_delay_accel"], "state_failures", false)
  | m_bl2_delay_unsupported => (["bl2_delay_accel"], "unsupported", false)
  | m_bl2_delay_last_cycles => (["bl2_delay_accel"], "last_cycles", false)
  | m_bl2_delay_last_lr => (["bl2_delay_accel"], "last_lr", true)
  | m_bl2_delay_last_unsupported_mask => (["bl2_delay_accel"], "last_unsupported_mask", false)
  end.

Definition site_name (s : site) : string :=
  match s with
  | m_bl2_boot_go_for_image_id => "boot_go_for_image_id"
  | m_bl2_boot_load_image_to_sram => "boot_load_image_to_sram"
  | m_bl2_boot_enc_load => "boot_enc_load"
  | m_bl2_boot_enc_decrypt => "boot_enc_decrypt"
  | m_bl2_bootutil_img_validate => "bootutil_img_validate"
  | m_bl2_bootutil_img_hash => "bootutil_img_hash"
  | m_bl2_bootutil_verify_sig => "bootutil_verify_sig"
  end.

Definition shown (address : bool) (v : Z) : json := if address then JStr ("0x" ++ hex v) else JNum (Z.to_N v).

Definition counter_shown (a : accel) (c : atomic) (v : json) : Prop :=
  let '(path, name, address) := counter_place c in at_path (path ++ [name]) v = Some (shown address (a_atomics a c)).

(** The images that had events, in their order. *)
Definition images_from (image : Z) (snapshots : list Bl2RamLoadSnapshot) : list (Z * Bl2RamLoadSnapshot) :=
  filter (fun '(_, s) => u64 (sn_hits s + sn_dmi_failures s + sn_unsupported s) <> 0)
    (imap (fun i s => (image + Z.of_nat i, s)) snapshots).

Definition image_shown (entry : Z * Bl2RamLoadSnapshot) (member : string * json) : Prop :=
  fst member = dec (fst entry) /\
  exists ms, snd member = JObj ms /\ find_member "hits" ms = Some (JNum (Z.to_N (sn_hits (snd entry)))) /\
    find_member "dmi_failures" ms = Some (JNum (Z.to_N (sn_dmi_failures (snd entry)))) /\
    find_member "unsupported" ms = Some (JNum (Z.to_N (sn_unsupported (snd entry)))).

Definition site_shown (a : accel) (s : site) (v : json) : Prop :=
  exists ms, at_path ["bl2_load_profile"; "sites"; site_name s] v = Some (JObj ms) /\
    find_member "hits" ms = Some (JNum (Z.to_N (site_hits (a_sites a s)))).

(** * The parts *)

Lemma snapshot_values snapshot indent : spaces indent = true ->
  exists ms, body (write_bl2_ram_load_snapshot_values snapshot indent) ms.
Proof. intros Hi. eexists. unfold write_bl2_ram_load_snapshot_values. json_body. Qed.

Lemma snapshot_object image snapshot indent value_indent : spaces indent = true -> spaces value_indent = true ->
  exists ms, body (write_bl2_ram_load_snapshot_object snapshot indent value_indent) ms /\ image_shown (image, snapshot) (dec image, JObj ms).
Proof.
  intros Hi Hv. destruct (snapshot_values snapshot value_indent Hv) as [ms Hm]. eexists. split.
  - unfold write_bl2_ram_load_snapshot_object. cbn [app]. json_body.
  - split; [done|]. by eexists.
Qed.

Lemma snapshot_layout cfg : exists ms, body (layout_lines cfg) ms.
Proof. eexists. unfold layout_lines. json_body. Qed.

Lemma dec_plain v : plain (dec v) = true.
Proof. by apply digits_plain. Qed.

(** An entry of an image, without what separates it from the next one. *)
Lemma image_entry image snapshot : exists ts ms,
  lexes (file (opens "        " (dec image) :: write_bl2_ram_load_snapshot_object snapshot "          " "            " ++ [MkLine "        }"]))
    (TStr (dec image) :: TColon :: ts) /\
  value (JObj ms) ts /\ image_shown (image, snapshot) (dec image, JObj ms).
Proof.
  destruct (snapshot_object image snapshot "          " "            " eq_refl eq_refl) as (ms & (ts & Hl & Hm) & Hs).
  exists (TOpen :: ts ++ [TClose])%list, ms. split_and!; [|by constructor|done].
  apply (file_cons _ _ [TStr (dec image); TColon; TOpen]); [apply lexes_opens; [done|apply dec_plain]|].
  apply file_app; [done|]. apply file_one. by intros s.
Qed.

Lemma images_from_cons image snapshot snapshots : images_from image (snapshot :: snapshots) =
  if decide (u64 (sn_hits snapshot + sn_dmi_failures snapshot + sn_unsupported snapshot) = 0) then images_from (image + 1) snapshots
  else (image, snapshot) :: images_from (image + 1) snapshots.
Proof.
  unfold images_from. cbn [imap]. change (Z.of_nat 0) with 0. rewrite Z.add_0_r.
  replace (imap ((λ i s, (image + Z.of_nat i, s)) ∘ S) snapshots) with (imap (λ i s, (image + 1 + Z.of_nat i, s)) snapshots).
  2: { apply imap_ext. intros i s _. cbn. f_equal. lia. }
  rewrite filter_cons. by repeat case_decide.
Qed.

(** The entries after another one, each behind a comma. *)
Lemma later_images image snapshots : exists ts ms, lexes (file (by_image_lines false image snapshots)) ts /\
  Forall2 image_shown (images_from image snapshots) ms /\ later_members ms ts.
Proof.
  revert image. induction snapshots as [|snapshot snapshots IH]; intros image.
  { exists [], []. split_and!; [apply lexes_nil|constructor|constructor]. }
  cbn [by_image_lines]. rewrite images_from_cons. cbv zeta. destruct (IH (image + 1)) as (ts & ms & Hl & Hs & Hm).
  case_decide; [by exists ts, ms|]. destruct (image_entry image snapshot) as (ts' & ms' & Hl' & Hv' & Hs').
  exists (TComma :: TStr (dec image) :: TColon :: ts' ++ ts)%list, ((dec image, JObj ms') :: ms). split_and!; [|by constructor|by constructor].
  apply (file_cons _ _ [TComma]); [by intros s|]. by apply (file_app _ _ (TStr (dec image) :: TColon :: ts')).
Qed.

(** All of them: the first one has no comma before it. *)
Lemma all_images image snapshots : exists ms, body_or_none (by_image_lines true image snapshots ++ [blank]) ms /\
  Forall2 image_shown (images_from image snapshots) ms.
Proof.
  assert (lexes (file [blank]) []) as Hb by (by intros s; rewrite both_nil).
  revert image. induction snapshots as [|snapshot snapshots IH]; intros image.
  { exists []. split; [|constructor]. exists []. split; [done|by right]. }
  cbn [by_image_lines]. rewrite images_from_cons. cbv zeta. case_decide; [apply IH|].
  destruct (image_entry image snapshot) as (ts' & ms' & Hl' & Hv' & Hs'). destruct (later_images (image + 1) snapshots) as (ts & ms & Hl & Hs & Hm).
  exists ((dec image, JObj ms') :: ms). split; [|by constructor]. exists ((TStr (dec image) :: TColon :: ts') ++ ts)%list. split.
  - rewrite app_nil_l, <-(app_nil_r (_ ++ ts)). apply file_app; [|done]. by apply file_app.
  - left. by apply first_members.
Qed.

Lemma snapshot_part cfg a : exists ms images, body (ram_load_snapshot_lines cfg a) ms /\ find_member "by_image" ms = Some (JObj images) /\
  Forall2 image_shown (images_from 0 (take (Z.to_nat (snapshot_image_count cfg a)) (m_bl2_ram_load_snapshot_by_image a))) images.
Proof.
  destruct (snapshot_layout cfg) as [layout Hlayout]. destruct (snapshot_values (m_bl2_ram_load_snapshot a) "        " eq_refl) as [values Hvalues].
  destruct (all_images 0 (take (Z.to_nat (snapshot_image_count cfg a)) (m_bl2_ram_load_snapshot_by_image a))) as (images & Himages & Hs).
  eexists _, images. split; [|split; [|exact Hs]].
  - unfold ram_load_snapshot_lines. cbv zeta. cbn [app]. json_body.
  - reflexivity.
Qed.

Lemma sites_part cfg a : exists ms, body (sites_lines cfg a) ms /\
  forall s, exists ms', find_member (site_name s) ms = Some (JObj ms') /\
    find_member "hits" ms' = Some (JNum (Z.to_N (site_hits (a_sites a s)))).
Proof.
  eexists. split.
  - unfold sites_lines, write_bl2_profile_site. cbv zeta. cbn [app]. json_body.
  - intros []; eexists; by split.
Qed.

(** * The objects of counters *)

(** The members show the counters that have their place in the object. *)
Definition counters_in (a : accel) (path : list string) (ms : list (string * json)) : Prop :=
  forall c name address, counter_place c = (path, name, address) -> find_member name ms = Some (shown address (a_atomics a c)).

Ltac counters := intros c name address Hc; destruct c; try discriminate Hc; injection Hc as <- <-; reflexivity.

Ltac counter_object := eexists; split; [json_body|counters].

Lemma delay_part cfg w a : exists ms, body (delay_lines cfg w a) ms /\ counters_in a ["bl2_delay_accel"] ms.
Proof. unfold delay_lines. counter_object. Qed.

Lemma load_part cfg a : exists ms, body (load_lines cfg a) ms /\ counters_in a ["bl2_load_accel"] ms.
Proof. unfold load_lines. counter_object. Qed.

Lemma boot_enc_part cfg a : exists ms, body (boot_enc_lines cfg a) ms /\ counters_in a ["bl2_boot_enc_accel"] ms.
Proof. unfold boot_enc_lines. counter_object. Qed.

Lemma img_hash_part cfg a : exists ms, body (img_hash_lines cfg a) ms /\ counters_in a ["bl2_img_hash_accel"] ms.
Proof. unfold img_hash_lines. counter_object. Qed.

Lemma verify_sig_part cfg a : exists ms, body (verify_sig_lines cfg a) ms /\ counters_in a ["bl2_verify_sig_accel"] ms.
Proof. unfold verify_sig_lines. counter_object. Qed.

(** The objects are found by their names: what a path that starts with one finds. *)
Lemma counters_found a k ms ms' c : fst (fst (counter_place c)) = [k] -> counters_in a [k] ms' ->
  find_member k ms = Some (JObj ms') -> counter_shown a c (JObj ms).
Proof.
  intros Hp Hm Hk. unfold counter_shown. destruct (counter_place c) as [[p name] address] eqn:E. cbn in Hp. subst p.
  cbn [app at_path]. rewrite Hk. by rewrite (Hm c name address E).
Qed.

(** * The file *)

Lemma load_profile_part cfg a : exists ms snapshot sites images, body (load_profile_lines cfg a) ms /\
  counters_in a ["bl2_load_profile"] ms /\
  find_member "ram_load_snapshot" ms = Some (JObj snapshot) /\ find_member "by_image" snapshot = Some (JObj images) /\
  Forall2 image_shown (images_from 0 (take (Z.to_nat (snapshot_image_count cfg a)) (m_bl2_ram_load_snapshot_by_image a))) images /\
  find_member "sites" ms = Some (JObj sites) /\
  forall s, exists ms', find_member (site_name s) sites = Some (JObj ms') /\
    find_member "hits" ms' = Some (JNum (Z.to_N (site_hits (a_sites a s)))).
Proof.
  destruct (snapshot_part cfg a) as (snapshot & images & Hsnapshot & Hby & Himages). destruct (sites_part cfg a) as (sites & Hsites & Hhits).
  eexists _, snapshot, sites, images. split; [unfold load_profile_lines; cbn [app]; json_body|].
  split_and!; [counters|reflexivity|done|done|reflexivity|done].
Qed.

(** C35. The profile file of the accelerator is a JSON object, whatever was counted: every
    counter of the accelerator is read back at its own place with its own value, every
    watched function with its hits, and the loaded images that had events, and no other,
    in their order, with no comma too many and none missing. *)
Theorem hotpath_profile_json (cfg : config) (w : watch) (a : accel) (Hname : plain (semantic_cpu_name w) = true) :
  exists j images, parse (hotpath_profile_text cfg w a) = Some j /\
    (forall c, counter_shown a c j) /\
    (forall s, site_shown a s j) /\
    at_path ["bl2_load_profile"; "ram_load_snapshot"; "by_image"] j = Some (JObj images) /\
    Forall2 image_shown (images_from 0 (take (Z.to_nat (snapshot_image_count cfg a)) (m_bl2_ram_load_snapshot_by_image a))) images.
Proof.
  destruct (delay_part cfg w a) as (delay & Hdelay & Cdelay), (load_part cfg a) as (load & Hload & Cload).
  destruct (boot_enc_part cfg a) as (enc & Henc & Cenc), (img_hash_part cfg a) as (hash & Hhash & Chash).
  destruct (verify_sig_part cfg a) as (sig & Hsig & Csig).
  destruct (load_profile_part cfg a) as (profile & snapshot & sites & images & Hprofile & Cprofile & Hsnapshot & Hby & Himages & Hsites & Hhits).
  eexists (JObj _), images. split; [apply parse_file; unfold hotpath_profile_lines, hotpath_lines; cbn [app]; json_body|].
  split_and!; [| | |exact Himages].
  - intros c. destruct c; first [eapply counters_found; [reflexivity|eassumption|reflexivity]|reflexivity].
  - intros s. destruct (Hhits s) as (ms' & Hs & Hh). exists ms'. split; [|done]. cbn [at_path find_member String.eqb]. cbn. by rewrite Hsites, Hs.
  - cbn. by rewrite Hsnapshot, Hby.
Qed.

(** Four images of which two had events, and some counters. *)
Definition profiled_config : config :=
  load_config (MkBroker (fun _ => None) (fun n => if String.eqb n "bl2_boot_image_count" then Some 4 else None) (fun _ => None))
    (MkBroker (fun _ => None) (fun _ => None) (fun _ => None)) "".

Definition profiled_watch : watch := MkWatch "rse_cpu_0" 1 1 0 12 3 0x31000000 0x31000000.

Definition profiled : accel :=
  new_accel
    <| m_bl2_ram_load_snapshot_by_image ::= fun l =>
         <[1%nat := MkSnapshot 2 0 0 0 1 0 0 0 0 0 0 0 0 0 0 0 0]> (<[3%nat := MkSnapshot 0 1 0 0 3 0 0 0 0 0 0 0 0 0 0 0 0]> l) |>
    <| a_atomics ::= fun f c => if decide (c = m_hotpath_memcpy_hits) then 17 else f c |>.

Example profiled_images :
  map fst (images_from 0 (take (Z.to_nat (snapshot_image_count profiled_config profiled)) (m_bl2_ram_load_snapshot_by_image profiled))) = [1; 3].
Proof. by vm_compute. Qed.

Lemma hotpath_profile_json_witness :
  plain (semantic_cpu_name profiled_watch) = true /\
  exists j images, parse (hotpath_profile_text profiled_config profiled_watch profiled) = Some j /\
    (forall c, counter_shown profiled c j) /\
    (forall s, site_shown profiled s j) /\
    at_path ["bl2_load_profile"; "ram_load_snapshot"; "by_image"] j = Some (JObj images) /\
    Forall2 image_shown
      (images_from 0 (take (Z.to_nat (snapshot_image_count profiled_config profiled)) (m_bl2_ram_load_snapshot_by_image profiled))) images.
Proof. split; [reflexivity|]. by apply (hotpath_profile_json profiled_config profiled_watch profiled). Defined.
